(* ===== verification/_CoqProject ===== *)
-Q . S2P
Prelude.v
Cstr.v
Utf8.v
Frame.v
Crypto.v
Sys.v
OutBuf.v
Conn.v
ConnHash.v
WsHandler.v
WsProtocol.v
HttpRequest.v
HttpResponse.v
Handshake.v
HttpConn.v
WsReceive.v
HttpServe.v
HttpStatic.v
StaticSpec.v
Ident.v
Thread.v
ThreadInv.v
ThreadSpec.v
HttpLife.v
HttpThread.v
WsLife.v
WsThread.v
Site.v
Worker.v
Mpsc.v
MpscPool.v
Atomics.v
Aio.v
AioUring.v
AioLife.v
BufPool.v
Server.v
Echo.v
Tls.v
TlsCtx.v
Lifecycle.v
Api.v
Net.v
Config.v
ConfigMem.v
AcmeHttp.v
AcmeConn.v
AcmeResponder.v
AcmeJws.v
AcmeClient.v
AcmeManager.v
AcmeKey.v
HttpExample.v
Standalone.v
