(* ===== verification/Prelude.v ===== *)
(** * portico: a verification library for the HTTP/1.1 and WebSocket server

    ** The program

    portico is a C server.  An acceptor hands each new socket to one of several event
    threads through that thread's message queue (src/src/ws/ws_mpsc.c).  An event thread
    (src/src/ws/ws_event_thread.c) owns a fixed array of connection slots
    (src/src/ws/ws_connection.c), waits in epoll and dispatches each event by connection
    state: the first bytes decide between a WebSocket upgrade (src/src/ws/ws_handshake.c)
    and plain HTTP (src/src/http/).  A WebSocket connection parses frames
    (src/src/ws/ws_frame.c), reassembles messages and answers control frames
    (src/src/ws/ws_connection_handler.c).  An HTTP connection parses pipelined requests
    (src/src/http/request.c, around the vendored picohttpparser), calls the application,
    and answers from memory, from one asynchronous file read, or by streaming a file
    (src/src/http/connection.c).  All data output goes through one queue per connection
    that absorbs backpressure.  Other threads reach a connection through the global
    descriptor table and the message queue of its thread (src/src/ws/ws_server.c), and
    blocking file reads run on a pool of workers whose completions come back through an
    eventfd (src/src/aio/).

    Around that core, a JSON file gives the listener, the sites and their certificates
    (src/src/config/portico_config.c); a listener holds a default TLS context and contexts
    chosen by server name, replaced while connections come in (src/src/ws/ws_tls.c); and an
    ACME client obtains and renews certificates, answering the CA's HTTP-01 challenge from
    a small responder (src/src/acme/).

    ** Files and what they model

    - Prelude: machine integers, byte lists, C string search, reachability, tactics and
      the lemmas the components share.
    - Cstr: the string helpers of ws_utils.c.  Utf8: ws_utf8.c.  Crypto: SHA-1, base64 and
      the accept key (ws_utils.c), base64url (src/src/acme/acme_base64url.c).
    - Frame: header parsing, the three unmasking routines, frame parsing and encoding
      (ws_frame.c).
    - Sys: the socket, epoll registration and allocator as one connection sees them.
    - OutBuf: [conn_out_drain], [conn_out_append], [portico_conn_send] (connection.c).
    - Conn: the record [ws_connection], its life cycle, reference count and write buffer.
      ConnHash: the global descriptor table.
    - WsHandler: frame senders, fragments, control frames, the read loop.  WsProtocol: the
      RFC 6455 rules as properties of it.
    - WsReceive: the two superseded entry points, ws_process_received_frame and
      handle_websocket_handshake, compared with those in use.
    - HttpRequest, HttpResponse: request.c and response.c.  Handshake: ws_handshake.c.
    - HttpConn: the HTTP side of connection.c: receive buffer, first dispatch, the request
      loop, errors, single-read and streamed file answers, their completions.  HttpServe:
      its properties.
    - HttpStatic: static files, ranges, negotiation, virtual hosts, the router
      (connection.c, src/src/config/portico_router.c).  StaticSpec: its properties.
    - Thread: an event thread: slots, descriptor map, free stack, accept, close, outbound
      messages, event dispatch, the batch loop and the reaper.  Ident, ThreadInv: what its
      operations keep.  ThreadSpec: its histories and theorems.
    - HttpLife: an HTTP connection from the accepted socket on (TLS, first read, events,
      completions).  HttpThread: HttpServe and ThreadSpec put together: the history of a
      thread, seen from one slot, is a run of the connection in it.
    - WsLife: the same for a WebSocket connection: what a byte stream means to the
      application ([cut], [receive]) and that the handlers do that, from the accepted socket
      on.  WsThread: every history of a thread, seen from the slot of a WebSocket client.
    - Site: the router as the application of such a thread, through the class [HttpHandler].
    - Worker: ws_event_thread_worker, the function a thread runs; each of its runs is a
      history of ThreadSpec.
    - Mpsc: the message queue, one step per atomic operation, any number of producers.
      MpscPool: the same queue with its nodes in memory: creation, growth, destruction.
    - Atomics: the lock-free index stack and the performance counters of ws_utils.c.
    - Aio: the completion queue, the thread pool and the drain (aio.c, aio_threadpool.c).
      AioUring: the io_uring back end (aio_uring.c).  AioLife: the contract of a back end as
      a class, the choice of one, creation and destruction.
    - BufPool: the buffer pools (src/src/ws/ws_buffer.c).
    - Server: the acceptor, the choice of thread and the calls other threads make
      (ws_server.c, wslib.c), over ConnHash, Thread and the message queue.
    - Echo: the echo servers of src/examples/ as applications: socket to callback to queue
      to socket.
    - Tls: certificate groups, SNI and their replacement (ws_tls.c, ws_server.c).  TlsCtx:
      the reference counts of the contexts in them.
    - Lifecycle: what creation, start, stop and destruction of the server and its threads
      acquire and give back (ws_server.c, ws_event_thread.c).
    - Api: the functions an application links against (wslib.c), over Server and Lifecycle.
    - Net: socket options, the text of addresses, event counters, alignment (ws_utils.c,
      ws_connection.c), the set-up of accepted sockets and the client address (ws_server.c).
    - Config: the configuration loader (portico_config.c).  ConfigMem: the memory a
      configuration owns, and the reading of its file.
    - AcmeHttp (acme_https.c), AcmeResponder (acme_responder.c), AcmeJws (acme_jws.c,
      acme_csr.c), AcmeClient (acme_client.c), AcmeManager (acme_manager.c): the ACME side,
      each on those before it.  AcmeKey: key files (acme_key.c).
    - HttpExample (src/examples/http_server.c, stress_server.c), Standalone
      (src/examples/portico_server.c): the servers built on all of it.
    - AcmeConn: the connection under an HTTPS request (acme_https.c).

    ** State and operations

    A struct is a [Record] with the source's field names, a handler a function from the
    state before to its C return code and the state after, an event loop a step relation
    or a list of labels run by a function.  Bytes are integers 0..255 in lists; a heap
    buffer is the list of its used bytes together with its capacity where the code checks
    the capacity.  Arithmetic that can wrap is written with [u8] .. [u64] and [i32].
    Guards against NULL arguments that no caller passes are left out.  Pointers to shared
    objects that outlive a call (stream contexts, connection slots, queue nodes) are keys
    into an explicit store, so aliasing and reuse are visible.

    ** What is outside

    The kernel and the allocator are scripts in the state: each call takes the next entry,
    and every theorem quantifies over the scripts, so partial writes, short reads, failing
    allocations and failing [epoll_ctl] are covered.  An encrypted connection uses the same
    scripts, because ws_tls.c keeps the contract of recv and send (Tls shows the mapping).  The vendored HTTP
    tokenizer, the file system, address parsing and [strptime] are parameters with their
    documented behaviour as hypotheses, and so are OpenSSL's contexts, digests and
    signatures and cJSON's parser.  The CA is a state of an arbitrary type that answers as
    it likes: what is proved of the ACME client holds for every CA, and a scripted CA shows
    it issue.  Application callbacks are parameters where their
    result matters and events of a trace where it does not.  Memory is sequentially
    consistent, and operations that run under one lock or on one thread are atomic.

    ** Theorem groups

    - Streams: however the input is cut into reads and the output into partial writes, a
      connection processes exactly the frames or requests sent, in order, once each, and
      the peer receives exactly what was queued (WsHandler, HttpServe, OutBuf).
    - The whole thread: with slots reused and reads of earlier users still in flight, every
      HTTP client on a thread gets the answers to its own requests (HttpThread, Site), and
      the application gets every WebSocket client's messages, in order and each once
      (WsThread); the loop ends when it is told to, and only then (Worker).
    - Codecs: parsing inverts encoding, waits on every strict prefix and never leaves its
      buffer; optimised routines equal their byte-wise or RFC definitions (Frame, Utf8,
      Crypto, StaticSpec).
    - Hostile input: protocol violations close with the right code, request framing cannot
      be smuggled, buffers stay within their caps, files stay inside the docroot (WsHandler,
      WsProtocol, HttpRequest, HttpServe, StaticSpec).
    - Sharing and reuse: slots, generations, completions and messages never reach the wrong
      connection (HttpServe, HttpThread, WsThread, ThreadSpec), the descriptor table is a finite map (ConnHash),
      overdue connections are closed (ThreadSpec).
    - Concurrency: the message queue is FIFO, loses nothing, strands nothing, and gives a
      node to one owner at a time (Mpsc); a wakeup drains it completely (ThreadSpec).
    - Asynchronous reads: every read that is submitted completes once, with a thread pool
      (Aio) and with io_uring for every order of completion (AioUring), no wakeup is lost
      (Aio), and creation, fallback and destruction leak nothing (AioLife); a buffer pool hands a buffer to one owner and takes back only its own (BufPool).
    - Calls from other threads: a message reaches the connection it was meant for, on its
      thread, and references balance (Server); what an echo server reads it sends (Echo).
    - Memory behind the queues: a message queue is a bounded queue whatever grows (MpscPool);
      the index stack is a stack and the peak counter a maximum (Atomics).
    - Resources: every path of creation, start, stop and destruction gives back what it
      acquired, once (Lifecycle, TlsCtx, ConfigMem, AcmeConn, AcmeResponder, AcmeManager);
      a handshake uses a live TLS group unless it outlasts two replacements (Tls); a handler reads the sites of the
      configuration it started with unless it outlasts two reloads (Standalone).
    - Certificates: the client talks only to a server it has verified (AcmeConn), the JWS
      decodes to what was signed, nonces are used once, polling is bounded, challenges are
      withdrawn on every path, a certificate is issued for an order that the CA validated,
      renewal happens when it is due (AcmeJws, AcmeClient, AcmeManager), a key that was
      written is the key that is loaded (AcmeKey).
    - Configuration: a document that loads gives exactly its settings, and every error is
      reported (Config).
    - Defects: frames that wait behind an upgrade request (WsThread), a message that is lost
      when memory runs out (WsLife), a PONG inside a partly sent frame (WsProtocol), a multi-range answer without
      its Content-Encoding (StaticSpec), a descriptor closed twice in one batch
      (ThreadSpec), a stop request that is lost (Worker), a connection refused twice
      (HttpLife), a renewal interval that overflows (AcmeManager), and others stated as
      examples in their files.

    ** Fuel

    Loops whose recursion is not structural take fuel computed from the state: the size of
    the unread input script for the read loops, the bytes in the receive buffer for the
    frame and request loops (each turn consumes some), the length of the send script for
    sends and drains (each turn takes an entry, or all the rest), the remaining file length
    for streaming, the number of queued messages plus one for the drain of the queue, the
    length of the text for the header and chunk scanners, twice the queue for the drain of
    completions, the 61 turns that the deadline allows for the polls of an order.  The theorems about these loops are stated
    for that fuel and give the result the loop returns, so that the fuel is enough is part
    of their proofs.

    ** Not modelled

    Left out: the mapping of the io_uring rings beyond its success or
    failure, the protocol options of OpenSSL, [inet_ntop] itself, the counters under
    WS_ENABLE_STATISTICS, printing and logging, and the load generators under
    src/tests/stress/. *)
From Stdlib Require Import ZArith Lia Zify ZifyNat.
From stdpp Require Import base numbers list gmap strings.
Open Scope Z_scope.

(** ** Machine integers *)

(** Wrap-around of the unsigned C types and the conversion to [int]. *)
Definition u8 (z : Z) : Z := z mod 2 ^ 8.
Definition u16 (z : Z) : Z := z mod 2 ^ 16.
Definition u32 (z : Z) : Z := z mod 2 ^ 32.
Definition u64 (z : Z) : Z := z mod 2 ^ 64.
Definition i32 (z : Z) : Z := (z + 2 ^ 31) mod 2 ^ 32 - 2 ^ 31.
Definition INT_MAX : Z := 2 ^ 31 - 1.
Definition LONG_MAX : Z := 2 ^ 63 - 1.
Definition UINT32_MAX : Z := 2 ^ 32 - 1.

(** A C truth value. *)
Definition b2z (b : bool) : Z := if b then 1 else 0.

(** ** Byte strings *)

(** A byte is a [Z] in [0, 256); a buffer is the list of its valid bytes. *)
Definition byte_ok (b : Z) : Prop := 0 <= b < 256.
Definition bytes_ok (l : list Z) : Prop := Forall byte_ok l.

(** Length, slicing and indexing of buffers with [size_t]-like indices. *)
Definition zlen {A} (l : list A) : Z := Z.of_nat (length l).
Definition ztake {A} (n : Z) (l : list A) : list A := take (Z.to_nat n) l.
Definition zdrop {A} (n : Z) (l : list A) : list A := drop (Z.to_nat n) l.
Definition rd (l : list Z) (i : Z) : Z := default 0 (l !! Z.to_nat i).

(** [memcpy] of [src] into [dst] at offset [i] (in range by the callers). *)
Definition splice (i : nat) (src dst : list Z) : list Z :=
  take i dst ++ src ++ drop (i + length src) dst.

(** The bytes of a string literal. *)
Fixpoint bs (s : string) : list Z :=
  match s with
  | EmptyString => []
  | String a s' => Z.of_nat (Ascii.nat_of_ascii a) :: bs s'
  end.

(** Little-endian words: what a load, an integer operation and a store do. *)
Fixpoint le_combine (l : list Z) : Z :=
  match l with
  | [] => 0
  | b :: t => Z.lor b (Z.shiftl (le_combine t) 8)
  end.
Fixpoint le_split (n : nat) (w : Z) : list Z :=
  match n with
  | O => []
  | S n' => u8 w :: le_split n' (Z.shiftr w 8)
  end.

(** ** Reachability of a step relation *)
Section Reach.
Context {S : Type} (step : S → S → Prop).

Inductive reach : S → S → Prop :=
| reach_refl s : reach s s
| reach_step s1 s2 s3 : reach s1 s2 → step s2 s3 → reach s1 s3.

(** The invariant rule: what the initial state has and every step keeps
    holds in every reachable state. *)
Lemma reach_invariant (Inv : S → Prop) s0 s :
  Inv s0 → (∀ a b, Inv a → step a b → Inv b) → reach s0 s → Inv s.
Proof. intros H0 Hstep Hr. induction Hr; eauto. Qed.

Lemma reach_trans a b c : reach a b → reach b c → reach a c.
Proof. intros Hab Hbc. induction Hbc; eauto using reach. Qed.

Lemma reach_one a b : step a b → reach a b.
Proof. eauto using reach. Qed.
End Reach.

(** ** Tactics *)

(** [lia] decides division and remainder by constants. *)
Ltac Zify.zify_post_hook ::= Z.to_euclidean_division_equations.

(** Turn every boolean test in the context or the goal into arithmetic. *)
Ltac zbool :=
  repeat match goal with
  | H : (_ <? _) = true |- _ => apply Z.ltb_lt in H
  | H : (_ <? _) = false |- _ => apply Z.ltb_ge in H
  | H : (_ <=? _) = true |- _ => apply Z.leb_le in H
  | H : (_ <=? _) = false |- _ => apply Z.leb_gt in H
  | H : (_ =? _) = true |- _ => apply Z.eqb_eq in H
  | H : (_ =? _) = false |- _ => apply Z.eqb_neq in H
  | H : (_ && _) = true |- _ => apply andb_prop in H as [? ?]
  | H : (_ || _) = false |- _ => apply orb_false_elim in H as [? ?]
  | H : negb _ = true |- _ => apply negb_true_iff in H
  | H : negb _ = false |- _ => apply negb_false_iff in H
  | |- context [_ <? _] => idtac
  end.

(** Split on the innermost test of the goal. *)
Ltac split_if :=
  match goal with
  | |- context [if ?b then _ else _] =>
      lazymatch b with
      | context [if _ then _ else _] => fail
      | _ => let E := fresh "E" in destruct b eqn:E
      end
  end.
Ltac split_ifs := repeat split_if.
Ltac split_if_in H :=
  match type of H with
  | context [if ?b then _ else _] =>
      lazymatch b with
      | context [if _ then _ else _] => fail
      | _ => let E := fresh "E" in destruct b eqn:E
      end
  end.

(** Concrete byte lists are byte lists. *)
Ltac solve_bytes :=
  vm_compute; repeat (apply List.Forall_cons; [split; [discriminate | reflexivity] |]);
  apply List.Forall_nil.

(** A byte is not in a literal. *)
Ltac solve_not_in :=
  let H := fresh in
  intros H; apply list_elem_of_In in H; vm_compute in H; intuition done.

(** ** Shared lemmas *)

Create HintDb portico.
Create Rewrite HintDb zlen.

Lemma zlen_nonneg {A} (l : list A) : 0 <= zlen l.
Proof. unfold zlen. lia. Qed.

Lemma zlen_app {A} (l k : list A) : zlen (l ++ k) = zlen l + zlen k.
Proof. unfold zlen. rewrite length_app. lia. Qed.

Lemma zlen_cons {A} (x : A) l : zlen (x :: l) = zlen l + 1.
Proof. unfold zlen. simpl. lia. Qed.

Lemma zlen_nil {A} : zlen (@nil A) = 0.
Proof. reflexivity. Qed.

Lemma zlen_insert {A} i (x : A) l : zlen (<[i := x]> l) = zlen l.
Proof. unfold zlen. by rewrite length_insert. Qed.

Lemma zlen_0_nil {A} (l : list A) : zlen l = 0 → l = [].
Proof. destruct l; unfold zlen; simpl; [done | lia]. Qed.

Lemma zlen_ztake {A} n (l : list A) : 0 <= n <= zlen l → zlen (ztake n l) = n.
Proof. unfold zlen, ztake. intros. rewrite length_take. lia. Qed.

Lemma zlen_zdrop {A} n (l : list A) : 0 <= n <= zlen l → zlen (zdrop n l) = zlen l - n.
Proof. unfold zlen, zdrop. intros. rewrite length_drop. lia. Qed.

Lemma ztake_zdrop {A} n (l : list A) : ztake n l ++ zdrop n l = l.
Proof. unfold ztake, zdrop. apply take_drop. Qed.

Lemma ztake_ge {A} n (l : list A) : zlen l <= n → ztake n l = l.
Proof. unfold zlen, ztake. intros. apply take_ge. lia. Qed.

Lemma zdrop_ge {A} n (l : list A) : zlen l <= n → zdrop n l = [].
Proof. unfold zlen, zdrop. intros. apply drop_ge. lia. Qed.

Lemma ztake_app_exact {A} (l k : list A) : ztake (zlen l) (l ++ k) = l.
Proof. unfold zlen, ztake. rewrite Nat2Z.id. apply take_app_length. Qed.

Lemma zdrop_app_exact {A} (l k : list A) : zdrop (zlen l) (l ++ k) = k.
Proof. unfold zlen, zdrop. rewrite Nat2Z.id. apply drop_app_length. Qed.

Lemma zdrop_0 {A} (l : list A) : zdrop 0 l = l.
Proof. reflexivity. Qed.

Lemma zdrop_zdrop {A} n m (l : list A) :
  0 <= n → 0 <= m → zdrop n (zdrop m l) = zdrop (m + n) l.
Proof. unfold zdrop. intros. rewrite drop_drop. f_equal. lia. Qed.

Lemma length_splice i src dst :
  (i + length src <= length dst)%nat → length (splice i src dst) = length dst.
Proof. intros. unfold splice. rewrite !length_app, length_take, length_drop. lia. Qed.

Lemma lookup_splice i src dst j :
  (i + length src <= length dst)%nat →
  splice i src dst !! j =
    if decide ((i <= j < i + length src)%nat) then src !! (j - i)%nat else dst !! j.
Proof.
  intros H. unfold splice.
  assert (Hl : length (take i dst) = i) by (rewrite length_take; lia).
  case_decide as Hd.
  - rewrite lookup_app_r by lia. rewrite Hl. apply lookup_app_l. lia.
  - destruct (decide (j < i)%nat).
    + rewrite lookup_app_l by lia. rewrite lookup_take_lt by lia. done.
    + rewrite lookup_app_r by lia. rewrite Hl.
      rewrite lookup_app_r by lia. rewrite lookup_drop. f_equal. lia.
Qed.

Lemma rd_lookup l i b : 0 <= i → l !! Z.to_nat i = Some b → rd l i = b.
Proof. unfold rd. by intros _ ->. Qed.

Lemma rd_byte_ok l i : bytes_ok l → byte_ok (rd l i).
Proof.
  intros H. unfold rd. destruct (l !! Z.to_nat i) eqn:E; simpl.
  - by eapply Forall_lookup_1 in E.
  - unfold byte_ok. lia.
Qed.

Lemma rd_app_l l k i : 0 <= i < zlen l → rd (l ++ k) i = rd l i.
Proof. unfold rd, zlen. intros. rewrite lookup_app_l by lia. done. Qed.

Lemma rd_app_r l k i : zlen l <= i → rd (l ++ k) i = rd k (i - zlen l).
Proof.
  unfold rd, zlen. intros. rewrite lookup_app_r by lia. f_equal. f_equal. lia.
Qed.

Lemma bytes_ok_lookup l i b : bytes_ok l → l !! i = Some b → byte_ok b.
Proof. apply Forall_lookup_1. Qed.

Lemma bytes_ok_app l k : bytes_ok (l ++ k) ↔ bytes_ok l ∧ bytes_ok k.
Proof. apply Forall_app. Qed.

Lemma bs_bytes_ok s : bytes_ok (bs s).
Proof.
  induction s; simpl; constructor; [ | done].
  pose proof (Ascii.nat_ascii_bounded a). unfold byte_ok. lia.
Qed.

(** *** Integers *)

Lemma u64_small z : 0 <= z < 2 ^ 64 → u64 z = z.
Proof. apply Z.mod_small. Qed.
Lemma u32_small z : 0 <= z < 2 ^ 32 → u32 z = z.
Proof. apply Z.mod_small. Qed.
Lemma u8_small z : 0 <= z < 256 → u8 z = z.
Proof. apply Z.mod_small. Qed.
Lemma u8_range z : byte_ok (u8 z).
Proof. apply Z.mod_pos_bound. lia. Qed.
Lemma u32_range z : 0 <= u32 z < 2 ^ 32.
Proof. apply Z.mod_pos_bound. lia. Qed.
Lemma u64_range z : 0 <= u64 z < 2 ^ 64.
Proof. apply Z.mod_pos_bound. lia. Qed.
Lemma i32_small z : - 2 ^ 31 <= z < 2 ^ 31 → i32 z = z.
Proof. intros. unfold i32. rewrite Z.mod_small; lia. Qed.
Lemma u8_land z : u8 z = Z.land z 255.
Proof. unfold u8. change 255 with (Z.ones 8). by rewrite Z.land_ones by lia. Qed.

#[export] Hint Resolve zlen_nonneg u8_range u32_range u64_range bs_bytes_ok
  rd_byte_ok : portico.
#[export] Hint Rewrite @zlen_app @zlen_cons @zlen_nil : zlen.

(** *** Bit-level reasoning *)

(** Decide an equation of bitwise expressions bit by bit. *)
Ltac bitwise :=
  apply Z.bits_inj'; intros ?n ?Hn;
  repeat first
    [ rewrite Z.land_spec | rewrite Z.lor_spec | rewrite Z.lxor_spec
    | rewrite Z.ldiff_spec | rewrite Z.shiftr_spec by lia
    | rewrite Z.shiftl_spec by lia ].

Lemma byte_testbit_high b n : byte_ok b → 8 <= n → Z.testbit b n = false.
Proof.
  intros [H0 H1] Hn. destruct (Z.eq_dec b 0) as [-> | Hb]; [apply Z.bits_0 |].
  apply Z.bits_above_log2; [lia |].
  assert (Z.log2 b < 8) by (apply Z.log2_lt_pow2; lia). lia.
Qed.

Lemma lxor_byte_ok a b : byte_ok a → byte_ok b → byte_ok (Z.lxor a b).
Proof.
  intros Ha Hb. unfold byte_ok.
  assert (Z.land (Z.lxor a b) (Z.ones 8) = Z.lxor a b) as E.
  { bitwise. destruct (Z_lt_le_dec n 8).
    - rewrite Z.ones_spec_low by lia. by rewrite andb_true_r.
    - rewrite Z.ones_spec_high by lia.
      rewrite (byte_testbit_high a), (byte_testbit_high b) by (done || lia). done. }
  rewrite Z.land_ones in E by lia.
  rewrite <- E. apply Z.mod_pos_bound. lia.
Qed.

Lemma testbit_shiftl_low z k n : 0 <= n < k → Z.testbit (Z.shiftl z k) n = false.
Proof. intros. apply Z.shiftl_spec_low. lia. Qed.

Lemma lor_shiftl_testbit b w n :
  byte_ok b → 0 <= n →
  Z.testbit (Z.lor b (Z.shiftl w 8)) n =
    if n <? 8 then Z.testbit b n else Z.testbit w (n - 8).
Proof.
  intros Hb Hn. rewrite Z.lor_spec. destruct (n <? 8) eqn:E; zbool.
  - rewrite testbit_shiftl_low by lia. apply orb_false_r.
  - rewrite (byte_testbit_high b), Z.shiftl_spec by (done || lia). done.
Qed.

Lemma u8_lor_shiftl b w : byte_ok b → u8 (Z.lor b (Z.shiftl w 8)) = b.
Proof.
  intros Hb. unfold u8. rewrite <- Z.land_ones by lia. bitwise.
  destruct (Z_lt_le_dec n 8).
  - rewrite (Z.testbit_neg_r w), Z.ones_spec_low by lia.
    by rewrite orb_false_r, andb_true_r.
  - rewrite Z.ones_spec_high by lia. rewrite byte_testbit_high by (done || lia).
    apply andb_false_r.
Qed.

Lemma shiftr_lor_shiftl b w :
  byte_ok b → Z.shiftr (Z.lor b (Z.shiftl w 8)) 8 = w.
Proof.
  intros Hb. bitwise. rewrite (byte_testbit_high b) by (done || lia). simpl.
  f_equal. lia.
Qed.

Lemma lxor_lor_shiftl a b v w :
  byte_ok a → byte_ok b →
  Z.lxor (Z.lor a (Z.shiftl v 8)) (Z.lor b (Z.shiftl w 8)) =
  Z.lor (Z.lxor a b) (Z.shiftl (Z.lxor v w) 8).
Proof.
  intros Ha Hb. apply Z.bits_inj'. intros n Hn.
  rewrite Z.lxor_spec, !lor_shiftl_testbit by (auto using lxor_byte_ok).
  destruct (n <? 8); by rewrite Z.lxor_spec.
Qed.

Lemma le_split_combine l : bytes_ok l → le_split (length l) (le_combine l) = l.
Proof.
  induction 1 as [ | b t Hb Ht IH]; simpl; [done |].
  by rewrite u8_lor_shiftl, shiftr_lor_shiftl, IH.
Qed.

(** A word-sized xor is the byte-wise xor. *)
Lemma le_split_lxor l k :
  bytes_ok l → bytes_ok k → length l = length k →
  le_split (length l) (Z.lxor (le_combine l) (le_combine k)) = zip_with Z.lxor l k.
Proof.
  intros Hl. revert k. induction Hl as [ | a t Ha Ht IH]; intros [ | b k] Hk Hlen;
    simplify_eq/=; [done |].
  apply Forall_cons in Hk as [Hb Hk].
  rewrite lxor_lor_shiftl by done.
  rewrite u8_lor_shiftl, shiftr_lor_shiftl by auto using lxor_byte_ok.
  by rewrite IH.
Qed.

Lemma length_le_split n w : length (le_split n w) = n.
Proof. revert w. induction n; intros; simpl; auto. Qed.

Lemma testbit_small b k n : 0 <= b < 2 ^ k → k <= n → Z.testbit b n = false.
Proof.
  intros Hb Hn. destruct (Z.eq_dec b 0) as [-> | Hz]; [apply Z.bits_0 |].
  apply Z.bits_above_log2; [lia |].
  assert (Z.log2 b < k) by (apply Z.log2_lt_pow2; lia). lia.
Qed.

(** Disjoint bit ranges: [or] is addition. *)
Lemma lor_shiftl_add a b k :
  0 <= k → 0 <= b < 2 ^ k → Z.lor (Z.shiftl a k) b = a * 2 ^ k + b.
Proof.
  intros Hk Hb. rewrite <- Z.shiftl_mul_pow2 by lia.
  symmetry. apply Z.add_nocarry_lor. bitwise. rewrite Z.bits_0.
  destruct (Z_lt_le_dec n k).
  - by rewrite Z.testbit_neg_r by lia.
  - rewrite (testbit_small b k) by lia. apply andb_false_r.
Qed.

(** Masks and shifts as division and remainder. *)
Lemma land_255_mod z : Z.land z 255 = z mod 256.
Proof. change 255 with (Z.ones 8). by rewrite Z.land_ones by lia. Qed.
Lemma land_127_mod z : Z.land z 127 = z mod 128.
Proof. change 127 with (Z.ones 7). by rewrite Z.land_ones by lia. Qed.
Lemma land_15_mod z : Z.land z 15 = z mod 16.
Proof. change 15 with (Z.ones 4). by rewrite Z.land_ones by lia. Qed.
Lemma land_7_mod z : Z.land z 7 = z mod 8.
Proof. change 7 with (Z.ones 3). by rewrite Z.land_ones by lia. Qed.
Lemma land_63_mod z : Z.land z 63 = z mod 64.
Proof. change 63 with (Z.ones 6). by rewrite Z.land_ones by lia. Qed.

(** A decidable property of bytes holds if it holds on all 256. *)
Lemma byte_all (P : Z → bool) :
  forallb P (seqZ 0 256) = true → ∀ b, byte_ok b → P b = true.
Proof.
  intros H b Hb. rewrite forallb_forall in H. apply H.
  apply list_elem_of_In, elem_of_seqZ. unfold byte_ok in Hb. lia.
Qed.

Lemma land_128_byte b : byte_ok b → Z.land b 128 = if b <? 128 then 0 else 128.
Proof.
  intros Hb. apply Z.eqb_eq. revert b Hb.
  apply (byte_all (λ b, Z.land b 128 =? if b <? 128 then 0 else 128)).
  vm_compute. done.
Qed.
