(* ===== verification/Cstr.v ===== *)
(** * C strings (src/src/ws/ws_utils.c, string utilities)

    A C string is the list of its bytes before the terminating NUL.  The
    case-insensitive comparisons, whitespace trimming and token search that header
    handling relies on, with what they decide. *)
From Stdlib Require Import ZArith Lia.
From stdpp Require Import base numbers list strings.
From S2P Require Import Prelude.
Open Scope Z_scope.

(** [tolower] and [isspace] of the C locale. *)
Definition tolower (c : Z) : Z := if (65 <=? c) && (c <=? 90) then c + 32 else c.
Definition isspace (c : Z) : bool := (c =? 32) || ((9 <=? c) && (c <=? 13)).

(** No NUL inside: the bytes of a C string. *)
Definition cstr (s : list Z) : Prop := Forall (λ c, 0 < c < 256) s.

(** The character under the cursor ([*s]), NUL at the end. *)
Definition chr (s : list Z) : Z := match s with [] => 0 | c :: _ => c end.

Fixpoint ws_strcasecmp (s1 s2 : list Z) : Z :=
  match s1, s2 with
  | c1 :: t1, c2 :: t2 =>
      let diff := tolower c1 - tolower c2 in
      if negb (diff =? 0) then diff else ws_strcasecmp t1 t2
  | _, _ => tolower (chr s1) - tolower (chr s2)
  end.

(** [i] of the loop counts up to [n]; the cursors stop at a NUL. *)
Fixpoint ws_strncasecmp (s1 s2 : list Z) (n : nat) : Z :=
  match n with
  | O => 0
  | S n' =>
      let diff := tolower (chr s1) - tolower (chr s2) in
      if negb (diff =? 0) || (chr s1 =? 0) || (chr s2 =? 0) then diff
      else ws_strncasecmp (tail s1) (tail s2) n'
  end.

Fixpoint drop_spaces (s : list Z) : list Z :=
  match s with
  | [] => []
  | c :: t => if isspace c then drop_spaces t else s
  end.

(** [ws_trim_whitespace]: the leading loop, the early return on an empty rest, and
    the trailing loop, which never passes the first character. *)
Definition ws_trim_whitespace (str : list Z) : list Z :=
  match drop_spaces str with
  | [] => []
  | c :: t => c :: rev (drop_spaces (rev t))
  end.

(** [strtok_r (s, delims)] repeated until NULL: the maximal runs without delimiters. *)
Fixpoint strtok_all (isdelim : Z → bool) (s cur : list Z) : list (list Z) :=
  match s with
  | [] => match cur with [] => [] | _ => [rev cur] end
  | c :: t =>
      if isdelim c then
        match cur with
        | [] => strtok_all isdelim t []
        | _ => rev cur :: strtok_all isdelim t []
        end
      else strtok_all isdelim t (c :: cur)
  end.

Definition tok_delim (c : Z) : bool := (c =? 32) || (c =? 9) || (c =? 44).

(** The [while (current)] loop. *)
Fixpoint any_token (toks : list (list Z)) (token : list Z) : bool :=
  match toks with
  | [] => false
  | t :: ts => if ws_strcasecmp (ws_trim_whitespace t) token =? 0 then true else any_token ts token
  end.

(** [ws_string_contains_token]; [strdup_ok] is whether the copy could be allocated. *)
Definition ws_string_contains_token (strdup_ok : bool) (str token : list Z) : bool :=
  if negb strdup_ok then false
  else any_token (strtok_all tok_delim str []) token.

(** Concrete strings are C strings. *)
Ltac solve_cstr :=
  vm_compute; repeat (apply List.Forall_cons; [split; reflexivity |]); apply List.Forall_nil.

(** ** Lemmas *)

Lemma tolower_0 c : 0 <= c → tolower c = 0 → c = 0.
Proof. unfold tolower. split_ifs; zbool; lia. Qed.

Lemma tolower_pos c : 0 < c → 0 < tolower c.
Proof. unfold tolower. split_ifs; zbool; lia. Qed.

(** The comparison returns 0 exactly on strings that agree up to ASCII case. *)
Lemma strcasecmp_eq s1 s2 :
  cstr s1 → cstr s2 → ws_strcasecmp s1 s2 = 0 ↔ map tolower s1 = map tolower s2.
Proof.
  intros H1. revert s2. induction H1 as [ | c1 t1 Hc1 _ IH]; intros [ | c2 t2] H2; simpl.
  - done.
  - apply Forall_cons in H2 as [Hc2 _]. pose proof (tolower_pos c2). 
    change (tolower 0) with 0. split; [lia | done].
  - pose proof (tolower_pos c1). change (tolower 0) with 0. split; [lia | done].
  - apply Forall_cons in H2 as [Hc2 H2]. destruct (_ =? 0) eqn:E; zbool; cbn [negb].
    + rewrite IH by done. split; [intros ->; by replace (tolower c1) with (tolower c2) by lia | by intros [= _ ?]].
    + split; [lia | intros [= ? _]; lia].
Qed.

(** With a bound, 0 means agreement on the first [n] characters. *)
Lemma strncasecmp_eq n s1 s2 :
  cstr s1 → cstr s2 →
  ws_strncasecmp s1 s2 n = 0 ↔ map tolower (take n s1) = map tolower (take n s2).
Proof.
  revert s1 s2. induction n as [ | n IH]; intros s1 s2 H1 H2; [done |].
  cbn [ws_strncasecmp]. destruct H1 as [ | c1 t1 Hc1 H1], H2 as [ | c2 t2 Hc2 H2];
    cbn [chr tail take map]; change (tolower 0) with 0.
  - done.
  - pose proof (tolower_pos c2). rewrite ?orb_true_r; cbn [orb Z.eqb]. rewrite ?orb_true_r. cbn [orb]. split; [lia | done].
  - pose proof (tolower_pos c1). rewrite ?orb_true_r; cbn [orb Z.eqb]. rewrite ?orb_true_r. cbn [orb]. split; [lia | done].
  - rewrite (proj2 (Z.eqb_neq c1 0)), (proj2 (Z.eqb_neq c2 0)), !orb_false_r by lia.
    destruct (_ =? 0) eqn:E; zbool; cbn [negb].
    + rewrite IH by done. split; [intros ->; by replace (tolower c1) with (tolower c2) by lia | by intros [= _ ?]].
    + split; [lia | intros [= ? _]; lia].
Qed.

Lemma drop_spaces_suffix s : ∃ k, s = k ++ drop_spaces s ∧ Forall (λ c, isspace c = true) k.
Proof.
  induction s as [ | c t (k & Hk & Hs)]; [by exists [] |]. cbn [drop_spaces].
  destruct (isspace c) eqn:E; [ | by exists []].
  exists (c :: k). split; [cbn; congruence | by constructor].
Qed.

Lemma drop_spaces_head s c t : drop_spaces s = c :: t → isspace c = false.
Proof. induction s as [ | d u IH]; [done |]. cbn. split_if; [done | by intros [= -> ->]]. Qed.

Lemma strtok_all_no_delim isdelim s cur :
  Forall (λ c, isdelim c = false) cur →
  Forall (λ t, t ≠ [] ∧ Forall (λ c, isdelim c = false) t) (strtok_all isdelim s cur).
Proof.
  assert (Hrev : ∀ c cur, Forall (λ c, isdelim c = false) (c :: cur) →
    rev (c :: cur) ≠ [] ∧ Forall (λ c, isdelim c = false) (rev (c :: cur))).
  { intros c l H. split; [ | by apply Forall_rev]. simpl. intros [_ ?]%app_eq_nil. done. }
  revert cur. induction s as [ | c t IH]; intros cur Hc; cbn [strtok_all].
  - destruct cur; repeat constructor; by apply Hrev.
  - split_if; [ | apply IH; by constructor].
    destruct cur; [apply IH; constructor | constructor; [by apply Hrev | apply IH; constructor]].
Qed.

Lemma any_token_spec toks token :
  any_token toks token = true ↔
  ∃ t, t ∈ toks ∧ ws_strcasecmp (ws_trim_whitespace t) token = 0.
Proof.
  induction toks as [ | t ts IH]; cbn [any_token].
  - split; [done | by intros (? & ?%elem_of_nil & _)].
  - destruct (_ =? 0) eqn:E; zbool.
    + split; [intros _; exists t; split; [by left | done] | done].
    + rewrite IH. split; intros (u & Hu & Hc).
      * exists u. split; [by right | done].
      * apply elem_of_cons in Hu as [-> | Hu]; [done | eauto].
Qed.
