(* ===== verification/Utf8.v ===== *)
(** * UTF-8 validation (src/src/ws/ws_utf8.c)

    The table-driven automaton that text messages and close reasons go through,
    and the proof that it accepts exactly the concatenations of the encodings of
    Unicode scalar values: no overlong form, no surrogate, nothing above U+10FFFF,
    no truncated sequence. *)
From Stdlib Require Import ZArith Lia.
From stdpp Require Import base numbers list strings.
From S2P Require Import Prelude.
Open Scope Z_scope.

Definition UTF8_ACCEPT : Z := 0.
Definition UTF8_REJECT : Z := 12.

(** The byte-class table followed by the transition table. *)
Definition utf8d : list Z :=
  [
   0; 0; 0; 0; 0; 0; 0; 0; 0; 0; 0; 0; 0; 0; 0; 0; 0; 0; 0; 0; 0; 0; 0; 0; 0; 0; 0; 0; 0; 0; 0; 0;
   0; 0; 0; 0; 0; 0; 0; 0; 0; 0; 0; 0; 0; 0; 0; 0; 0; 0; 0; 0; 0; 0; 0; 0; 0; 0; 0; 0; 0; 0; 0; 0;
   0; 0; 0; 0; 0; 0; 0; 0; 0; 0; 0; 0; 0; 0; 0; 0; 0; 0; 0; 0; 0; 0; 0; 0; 0; 0; 0; 0; 0; 0; 0; 0;
   0; 0; 0; 0; 0; 0; 0; 0; 0; 0; 0; 0; 0; 0; 0; 0; 0; 0; 0; 0; 0; 0; 0; 0; 0; 0; 0; 0; 0; 0; 0; 0;
   1; 1; 1; 1; 1; 1; 1; 1; 1; 1; 1; 1; 1; 1; 1; 1; 9; 9; 9; 9; 9; 9; 9; 9; 9; 9; 9; 9; 9; 9; 9; 9;
   7; 7; 7; 7; 7; 7; 7; 7; 7; 7; 7; 7; 7; 7; 7; 7; 7; 7; 7; 7; 7; 7; 7; 7; 7; 7; 7; 7; 7; 7; 7; 7;
   8; 8; 2; 2; 2; 2; 2; 2; 2; 2; 2; 2; 2; 2; 2; 2; 2; 2; 2; 2; 2; 2; 2; 2; 2; 2; 2; 2; 2; 2; 2; 2;
   10; 3; 3; 3; 3; 3; 3; 3; 3; 3; 3; 3; 3; 4; 3; 3; 11; 6; 6; 6; 5; 8; 8; 8; 8; 8; 8; 8; 8; 8; 8; 8;
   0; 12; 24; 36; 60; 96; 84; 12; 12; 12; 48; 72;
   12; 12; 12; 12; 12; 12; 12; 12; 12; 12; 12; 12;
   12; 0; 12; 12; 12; 12; 12; 0; 12; 0; 12; 12;
   12; 24; 12; 12; 12; 12; 12; 24; 12; 24; 12; 12;
   12; 12; 12; 12; 12; 12; 12; 24; 12; 12; 12; 12;
   12; 24; 12; 12; 12; 12; 12; 12; 12; 24; 12; 12;
   12; 12; 12; 12; 12; 12; 12; 36; 12; 36; 12; 12;
   12; 36; 12; 12; 12; 12; 12; 36; 12; 36; 12; 12;
   12; 36; 12; 12; 12; 12; 12; 12; 12; 12; 12; 12
  ].

(** [utf8_decode]: the new state and the new partial code point. *)
Definition utf8_decode (state codep byte : Z) : Z * Z :=
  let type := rd utf8d byte in
  let codep' := if negb (state =? UTF8_ACCEPT)
                then Z.lor (Z.land byte 0x3f) (u32 (Z.shiftl codep 6))
                else Z.land (Z.shiftr 0xff type) byte in
  (rd utf8d (256 + state + type), codep').

(** The loop of [ws_utf8_valid], with its early return. *)
Fixpoint utf8_loop (s : list Z) (state codep : Z) : Z :=
  match s with
  | [] => b2z (state =? UTF8_ACCEPT)
  | b :: t =>
      let '(state', codep') := utf8_decode state codep b in
      if state' =? UTF8_REJECT then 0 else utf8_loop t state' codep'
  end.

Definition ws_utf8_valid (s : list Z) : Z := utf8_loop s UTF8_ACCEPT 0.

(** ** Specification: the encodings of Unicode scalar values *)

Definition scalar_value (cp : Z) : bool :=
  ((0 <=? cp) && (cp <? 0xD800)) || ((0xE000 <=? cp) && (cp <=? 0x10FFFF)).

Definition utf8_encode (cp : Z) : list Z :=
  if cp <? 0x80 then [cp]
  else if cp <? 0x800 then [0xC0 + cp / 64; 0x80 + cp mod 64]
  else if cp <? 0x10000 then [0xE0 + cp / 4096; 0x80 + cp / 64 mod 64; 0x80 + cp mod 64]
  else [0xF0 + cp / 2 ^ 18; 0x80 + cp / 4096 mod 64; 0x80 + cp / 64 mod 64; 0x80 + cp mod 64].

Definition utf8_string (s : list Z) : Prop :=
  ∃ cps, Forall (λ cp, scalar_value cp = true) cps ∧ s = concat (map utf8_encode cps).

(** ** The automaton, by byte ranges *)

Definition in_range (lo hi b : Z) : bool := (lo <=? b) && (b <=? hi).

(** The transition function the table encodes. *)
Definition range_step (state b : Z) : Z :=
  if state =? 0 then
    if b <? 0x80 then 0
    else if in_range 0xC2 0xDF b then 24
    else if b =? 0xE0 then 48
    else if b =? 0xED then 60
    else if in_range 0xE1 0xEF b then 36
    else if b =? 0xF0 then 72
    else if in_range 0xF1 0xF3 b then 84
    else if b =? 0xF4 then 96
    else 12
  else if state =? 24 then (if in_range 0x80 0xBF b then 0 else 12)
  else if state =? 36 then (if in_range 0x80 0xBF b then 24 else 12)
  else if state =? 48 then (if in_range 0xA0 0xBF b then 24 else 12)
  else if state =? 60 then (if in_range 0x80 0x9F b then 24 else 12)
  else if state =? 72 then (if in_range 0x90 0xBF b then 36 else 12)
  else if state =? 84 then (if in_range 0x80 0xBF b then 36 else 12)
  else if state =? 96 then (if in_range 0x80 0x8F b then 36 else 12)
  else 12.

Definition live_states : list Z := [0; 24; 36; 48; 60; 72; 84; 96].

Lemma table_is_ranges state b :
  state ∈ live_states → byte_ok b →
  rd utf8d (256 + state + rd utf8d b) = range_step state b.
Proof.
  intros Hs Hb. apply Z.eqb_eq.
  assert (H : forallb (λ st, forallb (λ b, rd utf8d (256 + st + rd utf8d b) =? range_step st b)
                        (seqZ 0 256)) live_states = true) by (vm_compute; done).
  rewrite forallb_forall in H.
  exact (byte_all _ (H state (proj1 (list_elem_of_In _ _) Hs)) b Hb).
Qed.

(** Runs of the range automaton; the partial code point never matters. *)
Fixpoint accepts (state : Z) (s : list Z) : bool :=
  match s with
  | [] => state =? 0
  | b :: t => negb (range_step state b =? 12) && accepts (range_step state b) t
  end.

Lemma range_step_live state b :
  state ∈ live_states → range_step state b ≠ 12 → range_step state b ∈ live_states.
Proof.
  intros Hs. unfold range_step. split_ifs; intros ?; try done;
    unfold live_states; repeat (apply elem_of_cons; (left; reflexivity) || right).
Qed.

Lemma utf8_loop_accepts s state codep :
  bytes_ok s → state ∈ live_states → utf8_loop s state codep = b2z (accepts state s).
Proof.
  revert state codep. induction s as [ | b t IH]; intros state codep Hs Hst; [done |].
  apply Forall_cons in Hs as [Hb Ht]. cbn [utf8_loop accepts utf8_decode].
  rewrite (table_is_ranges _ _ Hst Hb). unfold UTF8_REJECT.
  destruct (range_step state b =? 12) eqn:E; [done |]. zbool.
  cbn [negb andb]. apply IH; auto using range_step_live.
Qed.

(** ** Encodings drive the automaton from 0 to 0, and nothing else does *)

Lemma step_eq state b r : range_step state b = r → r ≠ 12 → ∀ t, accepts state (b :: t) = accepts r t.
Proof.
  intros <- Hr t. cbn [accepts]. rewrite (proj2 (Z.eqb_neq _ 12)) by done. done.
Qed.

(** Evaluate one transition on a symbolic byte. *)
Ltac step_to r :=
  rewrite (step_eq _ _ r);
  [ | cbv [range_step in_range]; cbn [Z.eqb Pos.eqb]; split_ifs; rewrite ?andb_true_iff, ?andb_false_iff in *; zbool; lia | done].

Lemma accepts_encode cp t :
  scalar_value cp = true → accepts 0 (utf8_encode cp ++ t) = accepts 0 t.
Proof.
  unfold scalar_value. rewrite orb_true_iff, !andb_true_iff. intros Hcp.
  assert (Hr : 0 <= cp < 0xD800 ∨ 0xE000 <= cp <= 0x10FFFF) by (destruct Hcp as [[]|[]]; zbool; lia).
  clear Hcp. unfold utf8_encode. split_ifs; zbool; cbn [app].
  - by step_to 0.
  - step_to 24. by step_to 0.
  - destruct (Z_lt_le_dec cp 0x1000); [step_to 48; step_to 24; by step_to 0 |].
    destruct (Z_lt_le_dec cp 0xD000); [step_to 36; step_to 24; by step_to 0 |].
    destruct (Z_lt_le_dec cp 0xE000); [step_to 60; step_to 24; by step_to 0 |].
    step_to 36; step_to 24; by step_to 0.
  - destruct (Z_lt_le_dec cp 0x40000); [step_to 72; step_to 36; step_to 24; by step_to 0 |].
    destruct (Z_lt_le_dec cp 0x100000); [step_to 84; step_to 36; step_to 24; by step_to 0 |].
    step_to 96; step_to 36; step_to 24; by step_to 0.
Qed.

Lemma accepts_cons state b t :
  accepts state (b :: t) = true → range_step state b ≠ 12 ∧ accepts (range_step state b) t = true.
Proof. cbn [accepts]. intros [H1 H2]%andb_prop. zbool. done. Qed.

(** One continuation byte read from a live state. *)
Lemma accepts_next state t :
  state ∈ [24; 36; 48; 60; 72; 84; 96] → accepts state t = true →
  ∃ b t', t = b :: t' ∧ range_step state b ≠ 12 ∧ accepts (range_step state b) t' = true.
Proof.
  intros Hs Ha. destruct t as [ | b t'].
  - exfalso. cbn in Ha. zbool. subst.
    rewrite !elem_of_cons, elem_of_nil in Hs. lia.
  - apply accepts_cons in Ha as [? ?]. eauto.
Qed.

(** What a non-rejecting transition says about the byte. *)
Lemma range_step_inv state b :
  state ∈ [24; 36; 48; 60; 72; 84; 96] → range_step state b ≠ 12 →
  (state = 24 ∧ 0x80 <= b <= 0xBF ∧ range_step state b = 0) ∨
  (state = 36 ∧ 0x80 <= b <= 0xBF ∧ range_step state b = 24) ∨
  (state = 48 ∧ 0xA0 <= b <= 0xBF ∧ range_step state b = 24) ∨
  (state = 60 ∧ 0x80 <= b <= 0x9F ∧ range_step state b = 24) ∨
  (state = 72 ∧ 0x90 <= b <= 0xBF ∧ range_step state b = 36) ∨
  (state = 84 ∧ 0x80 <= b <= 0xBF ∧ range_step state b = 36) ∨
  (state = 96 ∧ 0x80 <= b <= 0x8F ∧ range_step state b = 36).
Proof.
  rewrite !elem_of_cons. intros Hs Hne.
  destruct Hs as [-> | [-> | [-> | [-> | [-> | [-> | [-> | Hs]]]]]]]; [.. | by apply elem_of_nil in Hs];
    revert Hne; cbv [range_step in_range]; cbn [Z.eqb Pos.eqb];
    split_ifs; intros ?; try done; zbool; tauto || lia.
Qed.

Lemma accepts_inv state t :
  state ∈ [24; 36; 48; 60; 72; 84; 96] → accepts state t = true →
  ∃ b t' next, t = b :: t' ∧ accepts next t' = true ∧
  ((state = 24 ∧ 0x80 <= b <= 0xBF ∧ next = 0) ∨
   (state = 36 ∧ 0x80 <= b <= 0xBF ∧ next = 24) ∨
   (state = 48 ∧ 0xA0 <= b <= 0xBF ∧ next = 24) ∨
   (state = 60 ∧ 0x80 <= b <= 0x9F ∧ next = 24) ∨
   (state = 72 ∧ 0x90 <= b <= 0xBF ∧ next = 36) ∨
   (state = 84 ∧ 0x80 <= b <= 0xBF ∧ next = 36) ∨
   (state = 96 ∧ 0x80 <= b <= 0x8F ∧ next = 36)).
Proof.
  intros Hs Ha. destruct (accepts_next _ _ Hs Ha) as (b & t' & -> & Hne & Ht).
  exists b, t', (range_step state b). split; [done |]. split; [done |].
  by apply range_step_inv.
Qed.

Lemma utf8_string_cons cp t :
  scalar_value cp = true → utf8_string t → utf8_string (utf8_encode cp ++ t).
Proof.
  intros Hcp (cps & Hall & ->). exists (cp :: cps). split; [by constructor | done].
Qed.

Lemma scalar_value_intro cp : 0 <= cp < 0xD800 ∨ 0xE000 <= cp <= 0x10FFFF → scalar_value cp = true.
Proof. unfold scalar_value. intros. apply orb_true_iff. rewrite !andb_true_iff. lia. Qed.

(** Peel one continuation byte off [H : accepts state t = true]. *)
Ltac peel H b t' :=
  let nx := fresh "nx" in let Hc := fresh "Hc" in
  apply accepts_inv in H as (b & t' & nx & -> & H & Hc);
  [ | repeat (apply elem_of_cons; (left; reflexivity) || right)];
  repeat (destruct Hc as [Hc | Hc]); destruct Hc as (? & ? & ->); try discriminate.

(** Conclude with the code point the bytes spell. *)
Ltac spell cp t :=
  exists cp, t; split_and!;
  [ apply scalar_value_intro; lia
  | unfold utf8_encode; split_ifs; zbool; try lia; cbn [app]; repeat f_equal; lia
  | done ].

Lemma accepts_split s :
  bytes_ok s → accepts 0 s = true → s ≠ [] →
  ∃ cp t, scalar_value cp = true ∧ s = utf8_encode cp ++ t ∧ accepts 0 t = true.
Proof.
  intros Hb Ha Hne. destruct s as [ | b t]; [done |].
  apply Forall_cons in Hb as [Hb _]. unfold byte_ok in Hb.
  apply accepts_cons in Ha as [Hn Ha]. revert Hn Ha.
  cbv [range_step in_range]; cbn [Z.eqb]; split_ifs; intros Hn Ha; try done;
    rewrite ?andb_true_iff, ?andb_false_iff in *; zbool.
  - exists b, t. split_and!; [apply scalar_value_intro; lia | | done].
    unfold utf8_encode. split_ifs; zbool; lia || done.
  - peel Ha c1 t1. spell (((b - 0xC0) * 64 + (c1 - 0x80))) t1.
  - peel Ha c1 t1. peel Ha c2 t2. subst b. spell (((c1 - 0x80) * 64 + (c2 - 0x80))) t2.
  - peel Ha c1 t1. peel Ha c2 t2. subst b. spell ((0xD000 + (c1 - 0x80) * 64 + (c2 - 0x80))) t2.
  - peel Ha c1 t1. peel Ha c2 t2. spell (((b - 0xE0) * 4096 + (c1 - 0x80) * 64 + (c2 - 0x80))) t2.
  - peel Ha c1 t1. peel Ha c2 t2. peel Ha c3 t3. subst b.
    spell (((c1 - 0x80) * 4096 + (c2 - 0x80) * 64 + (c3 - 0x80))) t3.
  - peel Ha c1 t1. peel Ha c2 t2. peel Ha c3 t3.
    spell (((b - 0xF0) * 2 ^ 18 + (c1 - 0x80) * 4096 + (c2 - 0x80) * 64 + (c3 - 0x80))) t3.
  - peel Ha c1 t1. peel Ha c2 t2. peel Ha c3 t3. subst b.
    spell ((4 * 2 ^ 18 + (c1 - 0x80) * 4096 + (c2 - 0x80) * 64 + (c3 - 0x80))) t3.
Qed.

Lemma accepts_sound n s :
  (length s <= n)%nat → bytes_ok s → accepts 0 s = true → utf8_string s.
Proof.
  revert s. induction n as [ | n IH]; intros s Hn Hb Ha.
  - assert (s = []) as -> by (apply nil_length_inv; lia). by exists [].
  - destruct (decide (s = [])) as [-> | Hne]; [by exists [] |].
    destruct (accepts_split s Hb Ha Hne) as (cp & t & Hcp & -> & Ht).
    apply bytes_ok_app in Hb as [_ Hb]. apply utf8_string_cons; [done |].
    apply IH; [ | done | done]. rewrite length_app in Hn.
    assert (0 < length (utf8_encode cp))%nat by (unfold utf8_encode; split_ifs; simpl; lia). lia.
Qed.

Lemma accepts_complete s : utf8_string s → accepts 0 s = true.
Proof.
  intros (cps & Hall & ->). induction Hall as [ | cp cps Hcp _ IH]; [done |].
  cbn [map concat]. by rewrite accepts_encode.
Qed.

Lemma utf8_valid_iff s : bytes_ok s → ws_utf8_valid s = 1 ↔ utf8_string s.
Proof.
  intros Hb. unfold ws_utf8_valid. rewrite utf8_loop_accepts by (done || by left).
  split.
  - destruct (accepts _ s) eqn:E; [ | done]. intros _. by eapply accepts_sound.
  - intros H. by rewrite accepts_complete.
Qed.

(** C30. The branchless table automaton decides UTF-8 well-formedness: it returns 1
    exactly on the concatenations of encodings of Unicode scalar values, so overlong
    forms, surrogates, code points above U+10FFFF, stray continuation bytes and
    truncated sequences are all refused. *)
Theorem ws_utf8_valid_correct s :
  bytes_ok s →
  (ws_utf8_valid s = 1 ↔ utf8_string s) ∧ (ws_utf8_valid s = 0 ∨ ws_utf8_valid s = 1).
Proof.
  intros Hb. split; [by apply utf8_valid_iff |].
  unfold ws_utf8_valid. rewrite utf8_loop_accepts by (done || by left).
  destruct (accepts _ _); auto.
Qed.

Lemma ws_utf8_valid_correct_witness :
  (ws_utf8_valid [0xE2; 0x82; 0xAC] = 1 ↔ utf8_string [0xE2; 0x82; 0xAC]) ∧
  ws_utf8_valid [0xE2; 0x82; 0xAC] = 1 ∧ ws_utf8_valid [0xED; 0xA0; 0x80] = 0 ∧
  ws_utf8_valid [0xC0; 0xAF] = 0.
Proof.
  split; [ | vm_compute; done].
  apply (ws_utf8_valid_correct [0xE2; 0x82; 0xAC]). repeat constructor; unfold byte_ok; lia.
Defined.
