(* ===== verification/Frame.v ===== *)
(** * WebSocket frames (src/src/ws/ws_frame.c)

    The frame codec: header parsing with the declared-length bound, the three
    in-place unmasking routines (scalar, SSE2, AVX2), [ws_parse_frame] and
    [ws_encode_frame].  Buffers are byte lists; the receive buffer after a parse
    is returned explicitly, because unmasking happens in place. *)
From Stdlib Require Import ZArith Lia.
From stdpp Require Import base numbers list strings.
From S2P Require Import Prelude.
Open Scope Z_scope.

(** ** Data *)

(** [ws_opcode_t]. *)
Definition WS_OPCODE_CONTINUATION : Z := 0x0.
Definition WS_OPCODE_TEXT : Z := 0x1.
Definition WS_OPCODE_BINARY : Z := 0x2.
Definition WS_OPCODE_CLOSE : Z := 0x8.
Definition WS_OPCODE_PING : Z := 0x9.
Definition WS_OPCODE_PONG : Z := 0xA.

Definition WS_FRAME_FIN : Z := 0x80.
Definition WS_FRAME_MASK : Z := 0x80.
Definition WS_FRAME_PAYLOAD_LEN : Z := 0x7F.

(** [ws_frame_t]; [payload] holds the bytes the zero-copy pointer designates
    ([[]] is the NULL pointer of an empty payload). *)
Record ws_frame := mk_frame {
  fin : Z;
  opcode : Z;
  masked : Z;
  payload_len : Z;
  mask_key : list Z;
  payload : list Z;
  header_len : Z;
  owns_payload : Z
}.

(** [memset(frame, 0, sizeof)]. *)
Definition zero_frame : ws_frame := mk_frame 0 0 0 0 [0; 0; 0; 0] [] 0 0.

(** ** Header parsing *)

(** The payload length and the header length so far: [None] when the extended
    length has not arrived yet. *)
Definition parse_payload_len (data : list Z) (len payload_len7 : Z) : option (Z * Z) :=
  if payload_len7 <? 126 then Some (payload_len7, 2)
  else if payload_len7 =? 126 then
    if len <? 4 then None
    else Some (Z.lor (Z.shiftl (rd data 2) 8) (rd data 3), 4)
  else
    if len <? 10 then None
    else Some (Z.lor (Z.shiftl (rd data 2) 56)
              (Z.lor (Z.shiftl (rd data 3) 48)
              (Z.lor (Z.shiftl (rd data 4) 40)
              (Z.lor (Z.shiftl (rd data 5) 32)
              (Z.lor (Z.shiftl (rd data 6) 24)
              (Z.lor (Z.shiftl (rd data 7) 16)
              (Z.lor (Z.shiftl (rd data 8) 8) (rd data 9))))))), 10).

(** [ws_parse_frame_header]: 0 = need more data, -1 = protocol error, else the
    header length, with the filled frame. *)
Definition ws_parse_frame_header (data : list Z) (max_payload_len : Z) : Z * ws_frame :=
  let len := zlen data in
  if len <? 2 then (0, zero_frame)
  else
    let b0 := rd data 0 in
    let b1 := rd data 1 in
    let f_fin := if Z.land b0 WS_FRAME_FIN =? 0 then 0 else 1 in
    let f_opcode := Z.land b0 0x0F in
    let f_masked := if Z.land b1 WS_FRAME_MASK =? 0 then 0 else 1 in
    let f1 := mk_frame f_fin f_opcode f_masked 0 [0; 0; 0; 0] [] 0 0 in
    let rsv_bits := Z.land (Z.shiftr b0 4) 0x07 in
    if negb (rsv_bits =? 0) then (-1, f1)
    else if f_masked =? 0 then (-1, f1)
    else
      match parse_payload_len data len (Z.land b1 WS_FRAME_PAYLOAD_LEN) with
      | None => (0, mk_frame f_fin f_opcode f_masked 0 [0; 0; 0; 0] [] 2 0)
      | Some (plen, hlen) =>
          let f2 := mk_frame f_fin f_opcode f_masked plen [0; 0; 0; 0] [] hlen 0 in
          if max_payload_len <? plen then (-1, f2)
          else if len <? hlen + 4 then (0, f2)
          else
            let key := ztake 4 (zdrop hlen data) in
            (i32 (hlen + 4), mk_frame f_fin f_opcode f_masked plen key [] (hlen + 4) 0)
      end.

(** ** Unmasking *)

(** One [w]-byte step of a vector loop: load, xor with the mask vector, store. *)
Definition xor_block (w : nat) (mask : Z) (i : nat) (payload : list Z) : list Z :=
  splice i (le_split w (Z.lxor (le_combine (take w (drop i payload))) mask)) payload.

(** [for (i = start; i < start + k*w; i += w)] over such steps. *)
Fixpoint xor_blocks (w : nat) (mask : Z) (start k : nat) (payload : list Z) : list Z :=
  match k with
  | O => payload
  | S k' => xor_blocks w mask (start + w) k' (xor_block w mask start payload)
  end.

(** The byte loop over the last 1-3 bytes: [payload[i] ^= mask_key[i & 3]]. *)
Fixpoint xor_tail (mask_key : list Z) (i n : nat) (payload : list Z) : list Z :=
  match n with
  | O => payload
  | S n' =>
      let b := Z.lxor (default 0 (payload !! i))
                      (rd mask_key (Z.land (Z.of_nat i) 3)) in
      xor_tail mask_key (S i) n' (<[i := b]> payload)
  end.

(** [*((uint32_t* )mask_key)] and its broadcast to [lanes] 32-bit lanes
    ([_mm_set1_epi32], [_mm256_set1_epi32]). *)
Definition mask32 (mask_key : list Z) : Z := le_combine mask_key.
Fixpoint set1_epi32 (lanes : nat) (m : Z) : Z :=
  match lanes with
  | O => 0
  | S n => Z.lor m (Z.shiftl (set1_epi32 n m) 32)
  end.

Definition ws_unmask_payload_scalar (payload mask_key : list Z) : list Z :=
  let len := length payload in
  let chunks := (len / 4)%nat in
  let p1 := xor_blocks 4 (mask32 mask_key) 0 chunks payload in
  xor_tail mask_key (chunks * 4) (len - chunks * 4) p1.

(** [len & ~31UL] and [len & ~3UL] are the largest multiples below [len]. *)
Definition align_down (len a : Z) : Z := Z.ldiff len (a - 1).

Definition ws_unmask_payload_sse2 (payload mask_key : list Z) : list Z :=
  let len := length payload in
  let sse_len := Z.to_nat (align_down (Z.of_nat len) 16) in
  let len4 := Z.to_nat (align_down (Z.of_nat len) 4) in
  let p1 := xor_blocks 16 (set1_epi32 4 (mask32 mask_key)) 0 (sse_len / 16) payload in
  let p2 := xor_blocks 4 (mask32 mask_key) sse_len ((len4 - sse_len) / 4) p1 in
  xor_tail mask_key len4 (len - len4) p2.

Definition ws_unmask_payload_avx2 (payload mask_key : list Z) : list Z :=
  let len := length payload in
  let avx_len := Z.to_nat (align_down (Z.of_nat len) 32) in
  let len4 := Z.to_nat (align_down (Z.of_nat len) 4) in
  let p1 := xor_blocks 32 (set1_epi32 8 (mask32 mask_key)) 0 (avx_len / 32) payload in
  let p2 := xor_blocks 4 (mask32 mask_key) avx_len ((len4 - avx_len) / 4) p1 in
  xor_tail mask_key len4 (len - len4) p2.

(** The CPU features [__builtin_cpu_supports] reports (and the build enables). *)
Record cpu := mk_cpu { has_avx2 : bool; has_sse2 : bool }.

Definition ws_unmask_payload (c : cpu) (payload mask_key : list Z) : list Z :=
  if has_avx2 c then ws_unmask_payload_avx2 payload mask_key
  else if has_sse2 c then ws_unmask_payload_sse2 payload mask_key
  else ws_unmask_payload_scalar payload mask_key.

(** ** Parsing *)

(** [ws_parse_frame]: the return code, the frame, and the buffer after the
    in-place unmask. *)
Definition ws_parse_frame (c : cpu) (data : list Z) (max_payload_len : Z)
    : Z * ws_frame * list Z :=
  let data_len := zlen data in
  if data_len =? 0 then (-1, zero_frame, data)
  else
    let '(header_len, f) := ws_parse_frame_header data max_payload_len in
    if header_len =? 0 then (0, f, data)
    else if header_len <? 0 then (-1, f, data)
    else
      let total_frame_len := u64 (header_len + payload_len f) in
      if data_len <? total_frame_len then (0, f, data)
      else if 0 <? payload_len f then
        let raw := ztake (payload_len f) (zdrop header_len data) in
        let p := if masked f =? 0 then raw else ws_unmask_payload c raw (mask_key f) in
        (i32 total_frame_len,
         mk_frame (fin f) (opcode f) (masked f) (payload_len f) (mask_key f) p
                  header_len 0,
         splice (Z.to_nat header_len) p data)
      else
        (i32 total_frame_len, f, data).

(** ** Encoding *)

Definition encode_header (opcode payload_len : Z) : list Z :=
  let b0 := Z.lor WS_FRAME_FIN (Z.land opcode 0x0F) in
  let sh k := Z.land (Z.shiftr payload_len k) 0xFF in
  if payload_len <? 126 then [b0; u8 payload_len]
  else if payload_len <=? 0xFFFF then [b0; 126; sh 8; sh 0]
  else [b0; 127; sh 56; sh 48; sh 40; sh 32; sh 24; sh 16; sh 8; sh 0].

(** [ws_encode_frame]; [None] is the -1 of a failed [malloc]. *)
Definition ws_encode_frame (malloc_ok : bool) (opcode : Z) (payload : list Z)
    : option (list Z) :=
  let payload_len := zlen payload in
  if malloc_ok then Some (encode_header opcode payload_len ++ payload) else None.

(** ** The unmasking routines agree with the byte-wise definition *)

Definition xorat (key : list Z) (j : nat) (b : Z) : Z :=
  Z.lxor b (rd key (Z.land (Z.of_nat j) 3)).

(** RFC 6455 §5.3: octet [j] of the data is xored with octet [j mod 4] of the key. *)
Definition rfc_mask (key payload : list Z) : list Z := imap (xorat key) payload.

(** [p'] is [p] with exactly the bytes of [lo, hi) masked. *)
Definition masked_range (key : list Z) (lo hi : nat) (p p' : list Z) : Prop :=
  length p' = length p ∧ bytes_ok p' ∧
  ∀ j, p' !! j = if decide ((lo <= j < hi)%nat) then xorat key j <$> p !! j else p !! j.

Definition key_ok (key : list Z) : Prop := length key = 4%nat ∧ bytes_ok key.

Lemma land3_mod n : 0 <= n → Z.land n 3 = n mod 4.
Proof. intros. change 3 with (Z.ones 2). by rewrite Z.land_ones by lia. Qed.

Lemma xorat_byte_ok key j b : key_ok key → byte_ok b → byte_ok (xorat key j b).
Proof. intros [_ Hk] Hb. apply lxor_byte_ok; auto with portico. Qed.

Lemma masked_range_id key i p : bytes_ok p → masked_range key i i p p.
Proof. intros. split_and!; [done..|]. intros j. rewrite decide_False by lia. done. Qed.

Lemma masked_range_trans key lo mid hi p p1 p2 :
  (lo <= mid <= hi)%nat →
  masked_range key lo mid p p1 → masked_range key mid hi p1 p2 →
  masked_range key lo hi p p2.
Proof.
  intros Hm (L1 & B1 & H1) (L2 & B2 & H2). split_and!; [congruence | done |].
  intros j. rewrite H2, H1. repeat case_decide; try lia; done.
Qed.

Lemma masked_range_full key p p' :
  masked_range key 0 (length p) p p' → p' = rfc_mask key p.
Proof.
  intros (L & _ & H). apply list_eq. intros j. rewrite H. unfold rfc_mask.
  rewrite list_lookup_imap. case_decide as Hd; [done |].
  rewrite lookup_ge_None_2 by lia. done.
Qed.

Lemma le_combine_app a b :
  le_combine (a ++ b) =
  Z.lor (le_combine a) (Z.shiftl (le_combine b) (8 * Z.of_nat (length a))).
Proof.
  induction a as [ | x a IH]; [by rewrite Z.shiftl_0_r |].
  cbn [app le_combine length]. rewrite IH, Z.shiftl_lor, Z.lor_assoc.
  f_equal. rewrite Z.shiftl_shiftl by lia. f_equal. lia.
Qed.

Fixpoint rep_list (n : nat) (l : list Z) : list Z :=
  match n with O => [] | S n' => l ++ rep_list n' l end.

Lemma set1_epi32_rep lanes key :
  length key = 4%nat → set1_epi32 lanes (mask32 key) = le_combine (rep_list lanes key).
Proof.
  intros Hk. induction lanes as [ | n IH]; [done |].
  cbn [set1_epi32 rep_list]. by rewrite IH, le_combine_app, Hk.
Qed.

Lemma rep_list_lookup n key j :
  length key = 4%nat → (j < 4 * n)%nat → rep_list n key !! j = key !! (j mod 4)%nat.
Proof.
  intros Hk. revert j. induction n as [ | n IH]; intros j Hj; [lia |].
  cbn [rep_list]. destruct (decide (j < 4)%nat).
  - rewrite lookup_app_l by lia. by rewrite Nat.mod_small.
  - rewrite lookup_app_r by lia. rewrite Hk, IH by lia.
    f_equal. rewrite <- (Nat.Div0.mod_add (j - 4) 1 4). f_equal. lia.
Qed.

Lemma rep_list_ok n key : key_ok key → bytes_ok (rep_list n key) ∧ length (rep_list n key) = (4 * n)%nat.
Proof.
  intros [Hl Hb]. induction n as [ | n [IH1 IH2]]; cbn [rep_list]; [split; [constructor | done] |].
  split; [by apply bytes_ok_app | rewrite length_app; lia].
Qed.

Lemma rd_key_mod key j : key_ok key →
  rd key (Z.land (Z.of_nat j) 3) = default 0 (key !! (j mod 4)%nat).
Proof.
  intros _. unfold rd. rewrite land3_mod by lia. do 2 f_equal.
  lia.
Qed.

Lemma xor_block_masked n key i p :
  key_ok key → bytes_ok p → (i mod 4 = 0)%nat → (i + 4 * n <= length p)%nat →
  masked_range key i (i + 4 * n) p
    (xor_block (4 * n) (le_combine (rep_list n key)) i p).
Proof.
  intros Hk Hp Hi Hlen. destruct (rep_list_ok n key Hk) as [Hrb Hrl].
  set (blk := take (4 * n) (drop i p)).
  assert (Hbl : length blk = (4 * n)%nat) by (unfold blk; rewrite length_take, length_drop; lia).
  assert (Hbo : bytes_ok blk) by (by apply Forall_take, Forall_drop).
  assert (Hsp : le_split (4 * n) (Z.lxor (le_combine blk) (le_combine (rep_list n key)))
                = zip_with Z.lxor blk (rep_list n key)).
  { rewrite <- Hbl at 1. apply le_split_lxor; [done | done | congruence]. }
  unfold xor_block. fold blk. rewrite Hsp.
  assert (Hzl : length (zip_with Z.lxor blk (rep_list n key)) = (4 * n)%nat)
    by (rewrite length_zip_with; lia).
  assert (Hpt : ∀ j, splice i (zip_with Z.lxor blk (rep_list n key)) p !! j =
     if decide (i <= j < i + 4 * n)%nat then xorat key j <$> p !! j else p !! j).
  { intros j. rewrite lookup_splice by lia. rewrite Hzl. case_decide as Hd; [ | done].
    rewrite lookup_zip_with. unfold blk.
    rewrite lookup_take_lt, lookup_drop by lia.
    replace (i + (j - i))%nat with j by lia.
    rewrite rep_list_lookup by (destruct Hk; lia).
    replace ((j - i) mod 4)%nat with (j mod 4)%nat by lia.
    destruct (lookup_lt_is_Some_2 key (j mod 4)%nat) as [x Hx];
      [destruct Hk; pose proof (Nat.mod_upper_bound j 4); lia |].
    rewrite Hx. destruct (p !! j) as [b | ]; [ | done]. cbn.
    unfold xorat. by rewrite rd_key_mod, Hx. }
  split_and!; [apply length_splice; lia | | done].
  apply Forall_lookup. intros j b. rewrite Hpt. case_decide; intros Hj.
  - apply fmap_Some in Hj as (b' & Hb' & ->). apply xorat_byte_ok; [done |].
    eauto using bytes_ok_lookup.
  - eauto using bytes_ok_lookup.
Qed.

Lemma xor_blocks_masked n key k i p :
  key_ok key → bytes_ok p → (i mod 4 = 0)%nat → (i + k * (4 * n) <= length p)%nat →
  masked_range key i (i + k * (4 * n)) p
    (xor_blocks (4 * n) (le_combine (rep_list n key)) i k p).
Proof.
  intros Hk. revert i p. induction k as [ | k IH]; intros i p Hp Hi Hlen.
  - cbn [xor_blocks]. replace (i + 0 * (4 * n))%nat with i by lia. by apply masked_range_id.
  - cbn [xor_blocks].
    pose proof (xor_block_masked n key i p Hk Hp Hi ltac:(lia)) as H1.
    pose proof H1 as (HL & HB & _).
    eapply (masked_range_trans _ _ (i + 4 * n)%nat); [lia | done |].
    replace (i + S k * (4 * n))%nat with ((i + 4 * n) + k * (4 * n))%nat by lia.
    apply IH; [done | | lia].
    rewrite Nat.mul_comm, Nat.Div0.mod_add. done.
Qed.

Lemma xor_tail_masked key n i p :
  key_ok key → bytes_ok p → (i + n <= length p)%nat →
  masked_range key i (i + n) p (xor_tail key i n p).
Proof.
  intros Hk. revert i p. induction n as [ | n IH]; intros i p Hp Hlen; cbn [xor_tail].
  - rewrite Nat.add_0_r. by apply masked_range_id.
  - destruct (lookup_lt_is_Some_2 p i ltac:(lia)) as [b Hb]. rewrite Hb.
    change (Z.lxor (default 0 (Some b)) _) with (xorat key i b).
    assert (H1 : masked_range key i (S i) p (<[i := xorat key i b]> p)).
    { split_and!; [apply length_insert | |].
      - apply Forall_insert; [done |]. apply xorat_byte_ok; [done |].
        eauto using bytes_ok_lookup.
      - intros j. rewrite list_lookup_insert. repeat case_decide; try lia; [ | done].
        replace j with i by lia. by rewrite Hb. }
    pose proof H1 as (HL & HB & _).
    eapply (masked_range_trans _ _ (S i)); [lia | done |].
    replace (i + S n)%nat with (S i + n)%nat by lia. apply IH; [done | lia].
Qed.

Lemma align_down_spec len k :
  0 <= len → 0 <= k → align_down len (2 ^ k) = 2 ^ k * (len / 2 ^ k).
Proof.
  intros. unfold align_down.
  replace (2 ^ k - 1) with (Z.ones k) by (rewrite Z.ones_equiv; lia).
  rewrite Z.ldiff_ones_r, Z.shiftl_mul_pow2, Z.shiftr_div_pow2 by lia. lia.
Qed.

(** The SSE2 and AVX2 routines have one shape: [n] lanes of four bytes, then
    whole words, then bytes. *)
Lemma unmask_vector n p key len4 vec :
  key_ok key → bytes_ok p → (0 < n)%nat →
  len4 = (4 * (length p / 4))%nat → (vec <= len4)%nat → vec = (4 * n * (vec / (4 * n)))%nat →
  xor_tail key len4 (length p - len4)
    (xor_blocks 4 (mask32 key) vec ((len4 - vec) / 4)
       (xor_blocks (4 * n) (set1_epi32 n (mask32 key)) 0 (vec / (4 * n)) p))
  = rfc_mask key p.
Proof.
  intros Hk Hp Hn H4 Hv Hm. apply masked_range_full.
  rewrite set1_epi32_rep by apply Hk.
  set (q := (vec / (4 * n))%nat) in *.
  pose proof (xor_blocks_masked n key q 0 p Hk Hp ltac:(done) ltac:(lia)) as H1.
  replace (0 + q * (4 * n))%nat with vec in H1 by lia.
  set (p1 := xor_blocks (4 * n) _ 0 q p) in *.
  pose proof H1 as (L1 & B1 & _).
  assert (Hv4 : (vec mod 4 = 0)%nat).
  { rewrite Hm. replace (4 * n * q)%nat with (n * q * 4)%nat by lia. apply Nat.Div0.mod_mul. }
  pose proof (xor_blocks_masked 1 key ((len4 - vec) / 4) vec p1 Hk B1 Hv4 ltac:(lia)) as H2.
  cbn [rep_list] in H2. rewrite app_nil_r in H2. change (4 * 1)%nat with 4%nat in H2.
  replace (vec + (len4 - vec) / 4 * 4)%nat with len4 in H2 by lia.
  fold (mask32 key) in H2. set (p2 := xor_blocks 4 _ vec _ p1) in *.
  pose proof H2 as (L2 & B2 & _).
  pose proof (xor_tail_masked key (length p - len4) len4 p2 Hk B2 ltac:(lia)) as H3.
  replace (len4 + (length p - len4))%nat with (length p) in H3 by lia.
  eapply masked_range_trans; [ | | exact H3]; [lia |].
  eapply masked_range_trans; [ | exact H1 | exact H2]. lia.
Qed.

Lemma unmask_scalar_ref p key :
  key_ok key → bytes_ok p → ws_unmask_payload_scalar p key = rfc_mask key p.
Proof.
  intros Hk Hp. unfold ws_unmask_payload_scalar.
  pose proof (unmask_vector 1 p key (length p / 4 * 4) (length p / 4 * 4)) as H.
  assert (Hs : set1_epi32 1 (mask32 key) = mask32 key) by apply Z.lor_0_r.
  rewrite Hs in H. change (4 * 1)%nat with 4%nat in H.
  rewrite Nat.div_mul, Nat.sub_diag in H by lia. cbn [xor_blocks Nat.div] in H.
  apply H; auto; lia.
Qed.

Lemma unmask_sse2_ref p key :
  key_ok key → bytes_ok p → ws_unmask_payload_sse2 p key = rfc_mask key p.
Proof.
  intros Hk Hp. unfold ws_unmask_payload_sse2.
  rewrite (align_down_spec (Z.of_nat (length p)) 4 ltac:(lia) ltac:(lia) : align_down _ 16 = _).
  rewrite (align_down_spec (Z.of_nat (length p)) 2 ltac:(lia) ltac:(lia) : align_down _ 4 = _).
  apply (unmask_vector 4); auto; lia.
Qed.

Lemma unmask_avx2_ref p key :
  key_ok key → bytes_ok p → ws_unmask_payload_avx2 p key = rfc_mask key p.
Proof.
  intros Hk Hp. unfold ws_unmask_payload_avx2.
  rewrite (align_down_spec (Z.of_nat (length p)) 5 ltac:(lia) ltac:(lia) : align_down _ 32 = _).
  rewrite (align_down_spec (Z.of_nat (length p)) 2 ltac:(lia) ltac:(lia) : align_down _ 4 = _).
  apply (unmask_vector 8); auto; lia.
Qed.

Lemma rfc_mask_involutive key p : rfc_mask key (rfc_mask key p) = p.
Proof.
  apply list_eq. intros j. unfold rfc_mask. rewrite !list_lookup_imap.
  destruct (p !! j); simpl; [ | done]. unfold xorat.
  by rewrite Z.lxor_assoc, Z.lxor_nilpotent, Z.lxor_0_r.
Qed.

Lemma length_rfc_mask key p : length (rfc_mask key p) = length p.
Proof. apply length_imap. Qed.

Lemma rfc_mask_bytes_ok key p : key_ok key → bytes_ok p → bytes_ok (rfc_mask key p).
Proof.
  intros Hk Hp. apply Forall_lookup. intros j b. unfold rfc_mask.
  rewrite list_lookup_imap. intros (x & Hx & ->)%fmap_Some.
  eauto using xorat_byte_ok, bytes_ok_lookup.
Qed.

(** ** The wire format of RFC 6455 §5.2, in arithmetic *)

(** A frame header: [m] is the MASK bit, [f] the FIN bit. *)
Definition rfc_header (m f op plen : Z) : list Z :=
  if plen <? 126 then [f * 128 + op; m * 128 + plen]
  else if plen <=? 65535 then
    [f * 128 + op; m * 128 + 126; plen / 256; plen mod 256]
  else
    [f * 128 + op; m * 128 + 127;
     plen / 2 ^ 56; plen / 2 ^ 48 mod 256; plen / 2 ^ 40 mod 256; plen / 2 ^ 32 mod 256;
     plen / 2 ^ 24 mod 256; plen / 2 ^ 16 mod 256; plen / 2 ^ 8 mod 256; plen mod 256].

(** A client frame: masked header, key, masked payload. *)
Definition client_frame (f op : Z) (key p : list Z) : list Z :=
  rfc_header 1 f op (zlen p) ++ key ++ rfc_mask key p.


Lemma encode_header_rfc op plen :
  0 <= plen < 2 ^ 64 → encode_header op plen = rfc_header 0 1 (op mod 16) plen.
Proof.
  intros Hp. unfold encode_header, rfc_header, WS_FRAME_FIN.
  assert (Hb0 : Z.lor 0x80 (Z.land op 0x0F) = 1 * 128 + op mod 16).
  { rewrite land_15_mod. exact (lor_shiftl_add 1 (op mod 16) 7 ltac:(lia) ltac:(lia)). }
  rewrite Hb0, !land_255_mod, !Z.shiftr_div_pow2, Z.pow_0_r, Z.div_1_r by lia.
  split_ifs; zbool; repeat (f_equal; try done); unfold u8; lia.
Qed.

Lemma rfc_header_len m f op plen :
  zlen (rfc_header m f op plen) = if plen <? 126 then 2 else if plen <=? 65535 then 4 else 10.
Proof. unfold rfc_header. split_ifs; done. Qed.

Lemma rd_cons_0 x l : rd (x :: l) 0 = x.
Proof. done. Qed.
Lemma rd_cons_S x l i : 0 < i → rd (x :: l) i = rd l (i - 1).
Proof.
  intros. unfold rd. replace (Z.to_nat i) with (S (Z.to_nat (i - 1))) by lia. done.
Qed.

Lemma be64_combine a b c d e f g h :
  0 <= a → byte_ok b → byte_ok c → byte_ok d → byte_ok e → byte_ok f → byte_ok g → byte_ok h →
  Z.lor (Z.shiftl a 56) (Z.lor (Z.shiftl b 48) (Z.lor (Z.shiftl c 40) (Z.lor (Z.shiftl d 32)
    (Z.lor (Z.shiftl e 24) (Z.lor (Z.shiftl f 16) (Z.lor (Z.shiftl g 8) h)))))) =
  a * 2 ^ 56 + b * 2 ^ 48 + c * 2 ^ 40 + d * 2 ^ 32 + e * 2 ^ 24 + f * 2 ^ 16 + g * 2 ^ 8 + h.
Proof.
  unfold byte_ok. intros.
  rewrite (lor_shiftl_add g h), (lor_shiftl_add f), (lor_shiftl_add e), (lor_shiftl_add d),
    (lor_shiftl_add c), (lor_shiftl_add b), (lor_shiftl_add a) by lia. lia.
Qed.

Lemma parse_payload_len_rfc f op plen rest :
  0 <= plen < 2 ^ 64 →
  let data := rfc_header 1 f op plen ++ rest in
  parse_payload_len data (zlen data) (Z.land (rd data 1) WS_FRAME_PAYLOAD_LEN) =
  Some (plen, zlen (rfc_header 1 f op plen)).
Proof.
  intros Hp data. pose proof (zlen_nonneg rest).
  assert (HL : zlen data = zlen (rfc_header 1 f op plen) + zlen rest) by apply zlen_app.
  rewrite HL. rewrite rfc_header_len in *. unfold data, rfc_header in *. clear HL.
  unfold parse_payload_len, WS_FRAME_PAYLOAD_LEN. rewrite land_127_mod.
  destruct (plen <? 126) eqn:E1; [ | destruct (plen <=? 65535) eqn:E2]; zbool; cbn [app].
  - change (rd _ 1) with (1 * 128 + plen).
    replace ((1 * 128 + plen) mod 128) with plen by lia.
    by rewrite (proj2 (Z.ltb_lt plen 126)) by lia.
  - change (rd _ 1) with 254. change (rd _ 2) with (plen / 256). change (rd _ 3) with (plen mod 256).
    cbn [Z.modulo Z.ltb Z.eqb]. rewrite (proj2 (Z.ltb_ge _ 4)) by lia.
    change (254 mod 128) with 126. cbn [Z.ltb Z.eqb Z.compare Pos.compare Pos.compare_cont Pos.eqb].
    rewrite lor_shiftl_add by lia. repeat f_equal. lia.
  - change (rd _ 1) with 255. change (rd _ 2) with (plen / 2 ^ 56).
    change (rd _ 3) with (plen / 2 ^ 48 mod 256). change (rd _ 4) with (plen / 2 ^ 40 mod 256).
    change (rd _ 5) with (plen / 2 ^ 32 mod 256). change (rd _ 6) with (plen / 2 ^ 24 mod 256).
    change (rd _ 7) with (plen / 2 ^ 16 mod 256). change (rd _ 8) with (plen / 2 ^ 8 mod 256).
    change (rd _ 9) with (plen mod 256). change (255 mod 128) with 127.
    rewrite (proj2 (Z.ltb_ge _ 10)) by lia.
    rewrite be64_combine by (unfold byte_ok; lia).
    change (127 <? 126) with false. change (127 =? 126) with false. repeat f_equal. lia.
Qed.

(** ** Unmasking *)

Lemma unmask_payload_ref c p key :
  key_ok key → bytes_ok p → ws_unmask_payload c p key = rfc_mask key p.
Proof.
  intros. unfold ws_unmask_payload.
  split_ifs; auto using unmask_avx2_ref, unmask_sse2_ref, unmask_scalar_ref.
Qed.

(** Whatever instruction set the CPU offers, the optimised unmasking (32-byte AVX2
    or 16-byte SSE2 blocks, then 32-bit words, then single bytes; or the scalar
    routine) computes the byte-wise mask of RFC 6455 §5.3, and undoes a client's
    masking. *)
Theorem ws_unmask_payload_correct (c : cpu) (p key : list Z) :
  key_ok key → bytes_ok p →
  ws_unmask_payload c p key = rfc_mask key p ∧
  ws_unmask_payload c (rfc_mask key p) key = p.
Proof.
  intros Hk Hp. rewrite !unmask_payload_ref by auto using rfc_mask_bytes_ok.
  split; [done | apply rfc_mask_involutive].
Qed.

Lemma ws_unmask_payload_correct_witness :
  ws_unmask_payload (mk_cpu true true) (repeat 7 41) [1; 2; 3; 250]
    = rfc_mask [1; 2; 3; 250] (repeat 7 41) ∧
  ws_unmask_payload (mk_cpu true true) (rfc_mask [1; 2; 3; 250] (repeat 7 41)) [1; 2; 3; 250]
    = repeat 7 41.
Proof.
  apply (ws_unmask_payload_correct (mk_cpu true true) (repeat 7 41) [1; 2; 3; 250]).
  - split; [done |]. repeat constructor; unfold byte_ok; lia.
  - cbn [repeat]. repeat constructor; unfold byte_ok; lia.
Defined.

(** ** Parsing *)

Lemma parse_first_byte f op :
  (f = 0 ∨ f = 1) → 0 <= op < 16 →
  (if Z.land (f * 128 + op) WS_FRAME_FIN =? 0 then 0 else 1) = f ∧
  Z.land (f * 128 + op) 0x0F = op ∧
  (Z.land (Z.shiftr (f * 128 + op) 4) 0x07 =? 0) = true.
Proof.
  intros Hf Hop. unfold WS_FRAME_FIN.
  rewrite land_128_byte, land_15_mod, land_7_mod, Z.shiftr_div_pow2 by (unfold byte_ok; lia).
  split_and!; [destruct Hf as [-> | ->]; split_ifs; zbool; lia | lia | apply Z.eqb_eq; lia].
Qed.

Lemma rd_header_0 f op plen rest : rd (rfc_header 1 f op plen ++ rest) 0 = f * 128 + op.
Proof. unfold rfc_header. split_ifs; done. Qed.

Lemma rd_header_1 m f op plen rest :
  0 <= plen →
  rd (rfc_header m f op plen ++ rest) 1 = m * 128 + Z.min plen (if plen <=? 65535 then 126 else 127).
Proof.
  intros Hp. unfold rfc_header. split_ifs; zbool; try lia; cbn [app].
  - change (rd _ 1) with (m * 128 + plen). lia.
  - change (rd _ 1) with (m * 128 + 126). lia.
  - change (rd _ 1) with (m * 128 + 127). lia.
Qed.

Lemma rfc_header_bounds m f op plen : 2 <= zlen (rfc_header m f op plen) <= 10.
Proof. rewrite rfc_header_len. split_ifs; lia. Qed.

(** The header of a well-formed client frame is recognised as soon as the four
    key bytes are there. *)
Lemma parse_header_rfc f op plen key rest max :
  (f = 0 ∨ f = 1) → 0 <= op < 16 → length key = 4%nat →
  0 <= plen <= max → max < 2 ^ 63 →
  ws_parse_frame_header (rfc_header 1 f op plen ++ key ++ rest) max =
  (zlen (rfc_header 1 f op plen) + 4,
   mk_frame f op 1 plen key [] (zlen (rfc_header 1 f op plen) + 4) 0).
Proof.
  intros Hf Hop Hk Hp Hmax. unfold ws_parse_frame_header.
  destruct (parse_first_byte f op Hf Hop) as (E1 & E2 & E3).
  pose proof (rfc_header_bounds 1 f op plen) as Hb. pose proof (zlen_nonneg rest).
  assert (Hk4 : zlen key = 4) by (unfold zlen; lia).
  rewrite (parse_payload_len_rfc f op plen (key ++ rest)) by lia.
  rewrite !zlen_app, rd_header_0, E1, E2, E3.
  rewrite (rd_header_1 1) by lia. unfold WS_FRAME_MASK.
  rewrite land_128_byte by (unfold byte_ok; split_ifs; zbool; lia).
  rewrite (proj2 (Z.ltb_ge (zlen _ + _) 2)) by lia.
  rewrite (proj2 (Z.ltb_ge (1 * 128 + _) 128)) by (split_ifs; zbool; lia).
  cbn [negb Z.eqb].
  rewrite (proj2 (Z.ltb_ge max plen)) by lia.
  rewrite (proj2 (Z.ltb_ge _ (zlen _ + 4))) by lia.
  rewrite zdrop_app_exact, i32_small by lia.
  assert (ztake 4 (key ++ rest) = key) as -> by (rewrite <- Hk4; apply ztake_app_exact).
  done.
Qed.

Lemma splice_app_mid a b c d :
  length b = length c → splice (length a) c (a ++ b ++ d) = a ++ c ++ d.
Proof.
  intros H. unfold splice. rewrite take_app_length. f_equal. f_equal.
  rewrite drop_app_ge by lia. replace (length a + length c - length a)%nat with (length b) by lia.
  apply drop_app_length.
Qed.

Lemma zlen_rfc_mask key p : zlen (rfc_mask key p) = zlen p.
Proof. unfold zlen. by rewrite length_rfc_mask. Qed.

Lemma zlen_client_frame f op key p :
  length key = 4%nat → zlen (client_frame f op key p) = zlen (rfc_header 1 f op (zlen p)) + 4 + zlen p.
Proof.
  intros. unfold client_frame. rewrite !zlen_app, zlen_rfc_mask. unfold zlen. lia.
Qed.

(** The payload length as the fields of the frame and the buffer hold it. *)
Lemma parse_frame_roundtrip c f op key p rest max :
  (f = 0 ∨ f = 1) → 0 <= op < 16 → key_ok key → bytes_ok p →
  zlen p <= max → max < 2 ^ 31 - 14 →
  let h := rfc_header 1 f op (zlen p) in
  ws_parse_frame c (client_frame f op key p ++ rest) max =
  (zlen (client_frame f op key p),
   mk_frame f op 1 (zlen p) key p (zlen h + 4) 0,
   h ++ key ++ p ++ rest).
Proof.
  intros Hf Hop [Hk Hkb] Hp Hm Hmax h. pose proof (zlen_nonneg p). pose proof (zlen_nonneg rest).
  pose proof (rfc_header_bounds 1 f op (zlen p)) as Hb. fold h in Hb.
  assert (Hw : client_frame f op key p ++ rest = h ++ key ++ (rfc_mask key p ++ rest))
    by (unfold client_frame; by rewrite <- !app_assoc).
  assert (Hl : zlen (client_frame f op key p ++ rest) = zlen h + 4 + zlen p + zlen rest)
    by (rewrite zlen_app, zlen_client_frame by done; fold h; lia).
  unfold ws_parse_frame. rewrite Hl, Hw.
  rewrite (parse_header_rfc f op (zlen p) key) by (done || lia). fold h.
  rewrite (proj2 (Z.eqb_neq _ 0)), (proj2 (Z.eqb_neq _ 0)) by lia.
  rewrite (proj2 (Z.ltb_ge _ 0)) by lia.
  cbn [payload_len masked mask_key fin opcode].
  rewrite u64_small, i32_small by lia.
  rewrite (proj2 (Z.ltb_ge _ (zlen h + 4 + zlen p))) by lia.
  rewrite zlen_client_frame by done. fold h.
  rewrite (app_assoc h key). assert (Hhk : zlen h + 4 = zlen (h ++ key))
    by (rewrite zlen_app; unfold zlen; lia).
  case_match eqn:E; zbool.
  - assert (Ht : ztake (zlen p) (rfc_mask key p ++ rest) = rfc_mask key p)
      by (rewrite <- (zlen_rfc_mask key p); apply ztake_app_exact).
    rewrite Hhk, zdrop_app_exact, Ht.
    cbn [Z.eqb]. rewrite unmask_payload_ref by (done || by apply rfc_mask_bytes_ok).
    rewrite rfc_mask_involutive. f_equal.
    unfold zlen. rewrite Nat2Z.id, splice_app_mid by apply length_rfc_mask.
    by rewrite <- app_assoc.
  - assert (p = []) as -> by (apply zlen_0_nil; lia). by rewrite <- app_assoc.
Qed.

(** C29. Round trip: a complete client frame (any FIN and opcode, any key, any payload
    within the limit) followed by arbitrary bytes is parsed back to its fields and
    its unmasked payload, exactly its own bytes are consumed, and the buffer behind
    it is untouched. *)
Theorem ws_parse_frame_roundtrip c f op key p rest max :
  (f = 0 ∨ f = 1) → 0 <= op < 16 → key_ok key → bytes_ok p →
  zlen p <= max → max < 2 ^ 31 - 14 →
  let h := rfc_header 1 f op (zlen p) in
  ws_parse_frame c (client_frame f op key p ++ rest) max =
  (zlen (client_frame f op key p),
   mk_frame f op 1 (zlen p) key p (zlen h + 4) 0,
   h ++ key ++ p ++ rest).
Proof. apply parse_frame_roundtrip. Qed.

Lemma ws_parse_frame_roundtrip_witness :
  ws_parse_frame (mk_cpu false true)
    (client_frame 1 1 [9; 8; 7; 6] (bs "hello") ++ [1; 2; 3]) 1000 =
  (11, mk_frame 1 1 1 5 [9; 8; 7; 6] (bs "hello") 6 0,
   [129; 133; 9; 8; 7; 6] ++ bs "hello" ++ [1; 2; 3]).
Proof.
  apply (ws_parse_frame_roundtrip (mk_cpu false true) 1 1 [9; 8; 7; 6] (bs "hello") [1; 2; 3] 1000);
    try (unfold zlen; simpl; lia); [| apply bs_bytes_ok].
  split; [done |]. repeat constructor; unfold byte_ok; lia.
Defined.

Lemma parse_payload_len_mono pre suf p7 r :
  parse_payload_len pre (zlen pre) p7 = Some r →
  parse_payload_len (pre ++ suf) (zlen (pre ++ suf)) p7 = Some r.
Proof.
  unfold parse_payload_len. rewrite zlen_app. pose proof (zlen_nonneg suf).
  split_ifs; zbool; try lia; try done; intros; rewrite !rd_app_l by lia; done.
Qed.

Lemma parse_payload_len_bound data p7 plen hlen :
  parse_payload_len data (zlen data) p7 = Some (plen, hlen) →
  2 <= zlen data → 2 <= hlen <= 10 ∧ hlen <= zlen data.
Proof. unfold parse_payload_len. split_ifs; zbool; intros ?; simplify_eq; lia. Qed.

(** A strict prefix of a well-formed header and key is incomplete, not an error. *)
Lemma parse_header_prefix f op plen key pre suf rest max :
  (f = 0 ∨ f = 1) → 0 <= op < 16 → length key = 4%nat → 0 <= plen <= max → max < 2 ^ 63 →
  pre ++ suf = rfc_header 1 f op plen ++ key ++ rest →
  zlen pre < zlen (rfc_header 1 f op plen) + 4 →
  ∃ g, ws_parse_frame_header pre max = (0, g).
Proof.
  intros Hf Hop Hk Hp Hmax Heq Hlt. unfold ws_parse_frame_header.
  destruct (zlen pre <? 2) eqn:E; zbool; [eauto |].
  assert (R0 : rd pre 0 = f * 128 + op)
    by (rewrite <- (rd_app_l pre suf) by lia; rewrite Heq; apply rd_header_0).
  assert (R1 : rd pre 1 = rd (rfc_header 1 f op plen ++ key ++ rest) 1)
    by (rewrite <- Heq, rd_app_l by lia; done).
  destruct (parse_first_byte f op Hf Hop) as (E1 & E2 & E3).
  rewrite R0, E1, E2, E3. cbn [negb].
  assert (HM : (Z.land (rd pre 1) WS_FRAME_MASK =? 0) = false).
  { rewrite R1, (rd_header_1 1) by lia. unfold WS_FRAME_MASK.
    rewrite land_128_byte by (unfold byte_ok; split_ifs; zbool; lia).
    rewrite (proj2 (Z.ltb_ge (1 * 128 + _) 128)) by (split_ifs; zbool; lia). done. }
  rewrite HM. cbn [Z.eqb].
  destruct (parse_payload_len pre _ _) as [[plen' hlen'] | ] eqn:EP; [ | eauto].
  apply (parse_payload_len_mono _ suf) in EP.
  rewrite R1, Heq, parse_payload_len_rfc in EP by lia. simplify_eq.
  rewrite (proj2 (Z.ltb_ge max plen')) by lia.
  rewrite (proj2 (Z.ltb_lt (zlen pre) _)) by lia. eauto.
Qed.

(** A non-empty strict prefix of a client frame is incomplete. *)
Lemma ws_parse_frame_incomplete_aux c f op key p pre suf max :
  (f = 0 ∨ f = 1) → 0 <= op < 16 → key_ok key → bytes_ok p →
  zlen p <= max → max < 2 ^ 31 - 14 →
  pre ++ suf = client_frame f op key p → pre ≠ [] → suf ≠ [] →
  ∃ g, ws_parse_frame c pre max = (0, g, pre).
Proof.
  intros Hf Hop [Hk Hkb] Hp Hm Hmax Heq Hne Hsuf.
  pose proof (zlen_nonneg p). pose proof (zlen_nonneg suf). pose proof (zlen_nonneg pre).
  pose proof (rfc_header_bounds 1 f op (zlen p)).
  assert (zlen pre <> 0) by (intros ?%zlen_0_nil; done).
  assert (zlen suf <> 0) by (intros ?%zlen_0_nil; done).
  unfold ws_parse_frame. rewrite (proj2 (Z.eqb_neq _ 0)) by lia.
  destruct (Z_lt_le_dec (zlen pre) (zlen (rfc_header 1 f op (zlen p)) + 4)) as [Hlt | Hge].
  - destruct (parse_header_prefix f op (zlen p) key pre suf (rfc_mask key p) max) as [g ->]; eauto.
    lia.
  - assert (Hl : zlen pre + zlen suf = zlen (client_frame f op key p))
      by (rewrite <- Heq, zlen_app; lia).
    rewrite zlen_client_frame in Hl by done.
    assert (∃ r, pre = rfc_header 1 f op (zlen p) ++ key ++ r) as [r ->].
    { unfold client_frame in Heq. rewrite app_assoc in Heq.
      assert (Hz : zlen (rfc_header 1 f op (zlen p) ++ key) = zlen (rfc_header 1 f op (zlen p)) + 4)
        by (rewrite zlen_app; unfold zlen; lia).
      apply app_eq_inv in Heq as [(k & Hk1 & Hk2) | (k & Hk1 & Hk2)].
      - exists k. by rewrite Hk1, <- app_assoc.
      - assert (k = []) as -> by (apply zlen_0_nil; apply (f_equal zlen) in Hk1;
          rewrite Hz, zlen_app in Hk1; pose proof (zlen_nonneg k); lia).
        exists []. by rewrite app_nil_r in Hk1 |- *. }
    rewrite parse_header_rfc by (done || lia).
    rewrite (proj2 (Z.eqb_neq _ 0)), (proj2 (Z.ltb_ge _ 0)) by lia. cbn [payload_len].
    rewrite u64_small by lia. rewrite (proj2 (Z.ltb_lt (zlen _) _)) by lia. eauto.
Qed.

(** Fragmented delivery: every non-empty strict prefix of a client frame makes the
    parser ask for more data (0), never fail, and leaves the buffer as it was; so a
    frame split over any number of reads is neither lost nor corrupted. *)
Theorem ws_parse_frame_incomplete c f op key p pre suf max :
  (f = 0 ∨ f = 1) → 0 <= op < 16 → key_ok key → bytes_ok p →
  zlen p <= max → max < 2 ^ 31 - 14 →
  pre ++ suf = client_frame f op key p → pre ≠ [] → suf ≠ [] →
  ∃ g, ws_parse_frame c pre max = (0, g, pre).
Proof. apply ws_parse_frame_incomplete_aux. Qed.

Lemma ws_parse_frame_incomplete_witness :
  ∃ g, ws_parse_frame (mk_cpu true true) [130; 133; 1; 2; 3; 4; 104] 125
       = (0, g, [130; 133; 1; 2; 3; 4; 104]).
Proof.
  apply (ws_parse_frame_incomplete (mk_cpu true true) 1 2 [1; 2; 3; 4] [105; 1; 1; 1; 1]
           [130; 133; 1; 2; 3; 4; 104] [3; 2; 5; 0] 125); try done; try lia.
  - split; [done |]. repeat constructor; unfold byte_ok; lia.
  - repeat constructor; unfold byte_ok; lia.
Defined.

(** *** Arbitrary input *)

Lemma parse_payload_len_nonneg data p7 plen hlen :
  bytes_ok data → 0 <= p7 →
  parse_payload_len data (zlen data) p7 = Some (plen, hlen) → 0 <= plen.
Proof.
  intros Hb Hp7. unfold parse_payload_len.
  assert (∀ i, 0 <= rd data i) by (intros i; apply (rd_byte_ok data i Hb)).
  split_ifs; intros ?; simplify_eq; [done | | ];
    repeat (apply Z.lor_nonneg; split; [by apply Z.shiftl_nonneg |]); done.
Qed.

(** What a positive return of the header parser guarantees, for any input. *)
Lemma parse_header_inv data max hl g :
  bytes_ok data → 0 <= max →
  ws_parse_frame_header data max = (hl, g) →
  hl = 0 ∨ hl = -1 ∨
  (6 <= hl <= 14 ∧ hl <= zlen data ∧ hl = header_len g ∧ masked g = 1 ∧
   0 <= payload_len g <= max ∧ mask_key g = ztake 4 (zdrop (hl - 4) data) ∧ payload g = [] ∧
   owns_payload g = 0).
Proof.
  intros Hb Hmax. unfold ws_parse_frame_header.
  destruct (zlen data <? 2) eqn:E; zbool; [intros; simplify_eq; auto |].
  destruct (negb _) eqn:ER; [intros; simplify_eq; auto |].
  destruct (Z.land (rd data 1) WS_FRAME_MASK =? 0) eqn:EM; cbn [Z.eqb];
    [intros; simplify_eq; auto |].
  destruct (parse_payload_len data _ _) as [[plen hlen] | ] eqn:EP;
    [ | intros; simplify_eq; auto].
  assert (0 <= Z.land (rd data 1) WS_FRAME_PAYLOAD_LEN)
    by (apply Z.land_nonneg; right; done).
  pose proof (parse_payload_len_bound _ _ _ _ EP E).
  pose proof (parse_payload_len_nonneg _ _ _ _ Hb ltac:(eassumption) EP).
  split_ifs; zbool; intros; simplify_eq; auto; right; right; rewrite i32_small by lia; cbn.
  all: replace (hlen + 4 - 4) with hlen by lia; split_and!; done || lia.
Qed.

Lemma mask_key_ok data i :
  bytes_ok data → 0 <= i → i + 4 <= zlen data → key_ok (ztake 4 (zdrop i data)).
Proof.
  intros Hb Hi Hl. split.
  - unfold ztake, zdrop. rewrite length_take, length_drop. unfold zlen in Hl. lia.
  - by apply Forall_take, Forall_drop.
Qed.

(** Whatever the input, what the parser consumed lies inside the buffer. *)
Lemma parse_frame_safe c data max rc g data' :
  bytes_ok data → 0 <= max < 2 ^ 31 - 14 →
  ws_parse_frame c data max = (rc, g, data') →
  (rc = -1 ∧ data' = data) ∨ (rc = 0 ∧ data' = data) ∨
  (rc = header_len g + payload_len g ∧ 6 <= header_len g <= 14 ∧
   0 <= payload_len g <= max ∧ rc <= zlen data ∧ zlen (payload g) = payload_len g ∧
   key_ok (mask_key g) ∧
   payload g = rfc_mask (mask_key g) (ztake (payload_len g) (zdrop (header_len g) data)) ∧
   data' = ztake (header_len g) data ++ payload g ++ zdrop rc data).
Proof.
  intros Hb Hmax. unfold ws_parse_frame. pose proof (zlen_nonneg data).
  destruct (zlen data =? 0) eqn:E0; [intros; simplify_eq; auto |].
  destruct (ws_parse_frame_header data max) as [hl h] eqn:EH.
  apply parse_header_inv in EH as [-> | [-> | (H1 & H2 & -> & H4 & H5 & H6 & H7 & H8)]];
    [cbn; intros; simplify_eq; auto | cbn; intros; simplify_eq; auto | | done | lia].
  rewrite (proj2 (Z.eqb_neq _ 0)), (proj2 (Z.ltb_ge _ 0)), u64_small, i32_small by lia.
  split_ifs; zbool; intros; simplify_eq/=; auto; try (exfalso; congruence); right; right.
  - set (raw := ztake (payload_len h) (zdrop (header_len h) data)).
    assert (Hraw : zlen raw = payload_len h)
      by (unfold raw; rewrite zlen_ztake, ?zlen_zdrop; rewrite ?zlen_zdrop; lia).
    assert (Hk : key_ok (mask_key h)) by (rewrite H6; apply mask_key_ok; [done | lia..]).
    rewrite unmask_payload_ref by (done || by apply Forall_take, Forall_drop).
    rewrite zlen_rfc_mask. split_and!; try done; try lia.
    unfold splice, ztake, zdrop. do 3 f_equal. rewrite length_rfc_mask.
    unfold zlen in Hraw. lia.
  - assert (Hk : key_ok (mask_key g)) by (rewrite H6; apply mask_key_ok; [done | lia..]).
    assert (payload_len g = 0) as Hp0 by lia. rewrite Hp0, H7.
    split_and!; try done; try lia. rewrite Z.add_0_r. symmetry. apply ztake_zdrop.
Qed.

(** C17. Safety on hostile input: whatever bytes arrive, the parser either reports an
    error or an incomplete frame with the buffer untouched, or consumes
    [header_len + payload_len] bytes that are all inside the buffer, with a header of
    6 to 14 bytes and a payload within the limit, and rewrites only the payload's own
    bytes, to their unmasked values.  The declared 64-bit length cannot wrap the sum. *)
Theorem ws_parse_frame_safe c data max rc g data' :
  bytes_ok data → 0 <= max < 2 ^ 31 - 14 →
  ws_parse_frame c data max = (rc, g, data') →
  (rc = -1 ∧ data' = data) ∨ (rc = 0 ∧ data' = data) ∨
  (rc = header_len g + payload_len g ∧ 6 <= header_len g <= 14 ∧
   0 <= payload_len g <= max ∧ rc <= zlen data ∧ zlen (payload g) = payload_len g ∧
   key_ok (mask_key g) ∧
   payload g = rfc_mask (mask_key g) (ztake (payload_len g) (zdrop (header_len g) data)) ∧
   data' = ztake (header_len g) data ++ payload g ++ zdrop rc data).
Proof. apply parse_frame_safe. Qed.

Lemma ws_parse_frame_safe_witness :
  let r := ws_parse_frame (mk_cpu false false) [129; 129; 0; 0; 0; 1; 65; 66] 100 in
  bytes_ok [129; 129; 0; 0; 0; 1; 65; 66] ∧ r.1.1 = 7 ∧
  r.1.1 = header_len r.1.2 + payload_len r.1.2.
Proof.
  assert (Hb : bytes_ok [129; 129; 0; 0; 0; 1; 65; 66])
    by (repeat constructor; unfold byte_ok; lia).
  split; [done |]. split; [reflexivity |].
  destruct (ws_parse_frame_safe (mk_cpu false false) [129; 129; 0; 0; 0; 1; 65; 66] 100 _ _ _
     Hb ltac:(lia) eq_refl) as [[H _] | [[H _] | (H & _)]]; [discriminate H | discriminate H |].
  exact H.
Defined.

(** Rejections: a frame with an RSV bit set, an unmasked frame, and a frame whose
    declared length exceeds the limit (up to the full 64-bit range) are protocol
    errors, as soon as the bytes that say so have arrived. *)
Theorem ws_parse_frame_rejects c data max :
  bytes_ok data → 2 <= zlen data →
  16 <= rd data 0 mod 128 ∨ rd data 1 < 128 ∨
  (∃ f op plen rest, max < plen < 2 ^ 64 ∧ 0 <= plen ∧ data = rfc_header 1 f op plen ++ rest) →
  ∃ g, ws_parse_frame c data max = (-1, g, data).
Proof.
  intros Hb Hl Hbad. unfold ws_parse_frame. rewrite (proj2 (Z.eqb_neq _ 0)) by lia.
  cut (∃ g, ws_parse_frame_header data max = (-1, g)); [by intros [g ->]; exists g |].
  pose proof (rd_byte_ok data 0 Hb) as B0. pose proof (rd_byte_ok data 1 Hb) as B1.
  unfold ws_parse_frame_header, WS_FRAME_MASK. rewrite (proj2 (Z.ltb_ge _ 2)) by lia.
  rewrite land_7_mod, Z.shiftr_div_pow2, (land_128_byte (rd data 1)) by (done || lia).
  destruct (negb _) eqn:ER; [eauto |]. zbool. unfold byte_ok in *.
  destruct (rd data 1 <? 128) eqn:EM; cbn [Z.eqb]; [eauto |]. zbool.
  destruct Hbad as [H | [H | (f & op & plen & rest & Hp & Hp0 & ->)]]; [exfalso; lia | exfalso; lia |].
  rewrite parse_payload_len_rfc by lia. rewrite (proj2 (Z.ltb_lt max plen)) by lia. eauto.
Qed.

Lemma ws_parse_frame_rejects_witness :
  ∃ g, ws_parse_frame (mk_cpu true true) ([130; 255] ++ repeat 255 8) 1000
       = (-1, g, [130; 255] ++ repeat 255 8).
Proof.
  apply (ws_parse_frame_rejects (mk_cpu true true) ([130; 255] ++ repeat 255 8) 1000).
  - repeat constructor; unfold byte_ok; lia.
  - unfold zlen. simpl. lia.
  - right; right. exists 1, 2, (2 ^ 64 - 1), []. split; [lia |]. split; [lia | reflexivity].
Defined.

(** Encoding: the server's frames are exactly the unmasked FIN frames of RFC 6455
    §5.2, with the shortest length form, for every payload a 64-bit length can name. *)
Theorem ws_encode_frame_rfc op p :
  zlen p < 2 ^ 64 →
  ws_encode_frame true op p = Some (rfc_header 0 1 (op mod 16) (zlen p) ++ p) ∧
  ws_encode_frame false op p = None.
Proof.
  intros. split; [ | done]. unfold ws_encode_frame.
  rewrite encode_header_rfc by (pose proof (zlen_nonneg p); lia). done.
Qed.

Lemma ws_encode_frame_rfc_witness :
  ws_encode_frame true WS_OPCODE_TEXT (repeat 65 300) =
    Some ([129; 126; 1; 44] ++ repeat 65 300) ∧
  ws_encode_frame false WS_OPCODE_TEXT (repeat 65 300) = None.
Proof.
  apply (ws_encode_frame_rfc WS_OPCODE_TEXT (repeat 65 300)). unfold zlen. simpl. lia.
Defined.
