(* ===== verification/Crypto.v ===== *)
(** * Handshake cryptography and base64 codecs
    (src/src/ws/ws_utils.c, src/src/acme/acme_base64url.c)

    SHA-1 with its padding buffer, standard base64, the accept key of the WebSocket
    handshake, and the base64url codec of the ACME client. *)
From Stdlib Require Import ZArith Lia.
From stdpp Require Import base numbers list strings.
From S2P Require Import Prelude.
Open Scope Z_scope.

Definition WS_WEBSOCKET_KEY_LENGTH : Z := 24.
Definition WS_WEBSOCKET_ACCEPT_LENGTH : Z := 28.
Definition WS_WEBSOCKET_MAGIC_STRING : list Z := bs "258EAFA5-E914-47DA-95CA-C5AB0DC85B11".
Definition WS_BASE64_ENCODED_SIZE (n : Z) : Z := (n + 2) / 3 * 4.

(** ** SHA-1 *)

(** [(x << n) | (x >> (32 - n))] on [uint32_t]. *)
Definition rotl (x n : Z) : Z := Z.lor (u32 (Z.shiftl x n)) (Z.shiftr x (32 - n)).

(** [while (new_len % 64 != 56) msg[new_len++] = 0;] *)
Fixpoint pad_zeros (fuel : nat) (new_len : Z) : list Z :=
  match fuel with
  | O => []
  | S f => if new_len mod 64 =? 56 then [] else 0 :: pad_zeros f (new_len + 1)
  end.

(** The padded message: 64 iterations are enough for the loop to find a length of
    56 modulo 64. *)
Definition sha1_pad (data : list Z) : list Z :=
  let len := zlen data in
  let bit_len := u64 (len * 8) in
  data ++ [0x80] ++ pad_zeros 64 (len + 1) ++
  map (λ i, Z.land (Z.shiftr bit_len (56 - i * 8)) 0xFF) (seqZ 0 8).

(** The 16 big-endian words of a chunk. *)
Definition chunk_words (msg : list Z) (chunk : Z) : list Z :=
  map (λ i, Z.lor (Z.shiftl (rd msg (chunk + i * 4)) 24)
           (Z.lor (Z.shiftl (rd msg (chunk + i * 4 + 1)) 16)
           (Z.lor (Z.shiftl (rd msg (chunk + i * 4 + 2)) 8)
                  (rd msg (chunk + i * 4 + 3))))) (seqZ 0 16).

(** [for (i = 16; i < 80; i++) w[i] = rotl (w[i-3] ^ w[i-8] ^ w[i-14] ^ w[i-16], 1)]. *)
Fixpoint extend_words (n : nat) (w : list Z) : list Z :=
  match n with
  | O => w
  | S n' =>
      let i := zlen w in
      let tmp := Z.lxor (rd w (i - 3)) (Z.lxor (rd w (i - 8))
                   (Z.lxor (rd w (i - 14)) (rd w (i - 16)))) in
      extend_words n' (w ++ [rotl tmp 1])
  end.

Record sha1_state := mk_sha { sa : Z; sb : Z; sc : Z; sd : Z; se : Z }.

Definition sha1_round (w : list Z) (s : sha1_state) (i : Z) : sha1_state :=
  let '(mk_sha a b c d e) := s in
  let '(f, k) :=
    if i <? 20 then
      (Z.lor (Z.land b c) (Z.land (Z.lxor b UINT32_MAX) d), 0x5A827999)
    else if i <? 40 then (Z.lxor b (Z.lxor c d), 0x6ED9EBA1)
    else if i <? 60 then
      (Z.lor (Z.land b c) (Z.lor (Z.land b d) (Z.land c d)), 0x8F1BBCDC)
    else (Z.lxor b (Z.lxor c d), 0xCA62C1D6) in
  let temp := u32 (rotl a 5 + f + e + k + rd w i) in
  mk_sha temp a (rotl b 30) c d.

Definition sha1_chunk (msg : list Z) (h : sha1_state) (chunk : Z) : sha1_state :=
  let w := extend_words 64 (chunk_words msg chunk) in
  let s := fold_left (sha1_round w) (seqZ 0 80) h in
  mk_sha (u32 (sa h + sa s)) (u32 (sb h + sb s)) (u32 (sc h + sc s))
         (u32 (sd h + sd s)) (u32 (se h + se s)).

Definition be32_bytes (x : Z) : list Z :=
  [Z.land (Z.shiftr x 24) 0xFF; Z.land (Z.shiftr x 16) 0xFF;
   Z.land (Z.shiftr x 8) 0xFF; Z.land x 0xFF].

Definition sha1_iv : sha1_state :=
  mk_sha 0x67452301 0xEFCDAB89 0x98BADCFE 0x10325476 0xC3D2E1F0.

(** [ws_sha1]; [None] is the -1 of a failed allocation of [len + 72] bytes. *)
Definition ws_sha1 (malloc_ok : bool) (data : list Z) : option (list Z) :=
  if negb malloc_ok then None
  else
    let msg := sha1_pad data in
    let h := fold_left (sha1_chunk msg)
               (map (λ k, k * 64) (seqZ 0 (zlen msg / 64))) sha1_iv in
    Some (be32_bytes (sa h) ++ be32_bytes (sb h) ++ be32_bytes (sc h) ++
          be32_bytes (sd h) ++ be32_bytes (se h)).

(** ** Base64 *)

Definition base64_chars : list Z :=
  bs "ABCDEFGHIJKLMNOPQRSTUVWXYZabcdefghijklmnopqrstuvwxyz0123456789+/".

Definition b64_triple (alphabet : list Z) (a b c : Z) : list Z :=
  let triple := Z.lor (Z.shiftl a 16) (Z.lor (Z.shiftl b 8) c) in
  [rd alphabet (Z.land (Z.shiftr triple 18) 0x3F);
   rd alphabet (Z.land (Z.shiftr triple 12) 0x3F);
   rd alphabet (Z.land (Z.shiftr triple 6) 0x3F);
   rd alphabet (Z.land triple 0x3F)].

(** The [while (i < input_len)] loop: missing bytes of the last group read as 0. *)
Fixpoint b64_body (input : list Z) : list Z :=
  match input with
  | [] => []
  | [a] => b64_triple base64_chars a 0 0
  | [a; b] => b64_triple base64_chars a b 0
  | a :: b :: c :: t => b64_triple base64_chars a b c ++ b64_body t
  end.

(** [output[encoded_len - 1 - pad] = '='] for each [pad]. *)
Fixpoint b64_pad (n : nat) (pad encoded_len : Z) (out : list Z) : list Z :=
  match n with
  | O => out
  | S n' => b64_pad n' (pad + 1) encoded_len (<[Z.to_nat (encoded_len - 1 - pad) := 61]> out)
  end.

(** [ws_base64_encode]: [None] when the output does not fit. *)
Definition ws_base64_encode (input : list Z) (output_size : Z) : option (list Z) :=
  let encoded_len := WS_BASE64_ENCODED_SIZE (zlen input) in
  if output_size <? encoded_len + 1 then None
  else Some (b64_pad (Z.to_nat ((3 - zlen input mod 3) mod 3)) 0 encoded_len (b64_body input)).

Definition is_b64_char (c : Z) : bool :=
  ((65 <=? c) && (c <=? 90)) || ((97 <=? c) && (c <=? 122)) ||
  ((48 <=? c) && (c <=? 57)) || (c =? 43) || (c =? 47) || (c =? 61).

Fixpoint b64_check (input : list Z) (padding_found : bool) : bool :=
  match input with
  | [] => true
  | c :: t =>
      if negb (is_b64_char c) then false
      else if c =? 61 then b64_check t true
      else if padding_found then false
      else b64_check t padding_found
  end.

Definition ws_is_valid_base64 (input : list Z) (len : Z) : bool :=
  if negb (len mod 4 =? 0) then false else b64_check (ztake len input) false.

Definition ws_validate_websocket_key (key : list Z) : bool :=
  if negb (zlen key =? WS_WEBSOCKET_KEY_LENGTH) then false
  else ws_is_valid_base64 key WS_WEBSOCKET_KEY_LENGTH.

(** [ws_generate_accept_key]: [snprintf] into a buffer of 24 + 36 + 1 bytes keeps at
    most 60 characters. *)
Definition ws_generate_accept_key (malloc_ok : bool) (client_key : list Z) : option (list Z) :=
  let combined := ztake (WS_WEBSOCKET_KEY_LENGTH + zlen WS_WEBSOCKET_MAGIC_STRING)
                        (client_key ++ WS_WEBSOCKET_MAGIC_STRING) in
  match ws_sha1 malloc_ok combined with
  | None => None
  | Some hash =>
      match ws_base64_encode hash (WS_WEBSOCKET_ACCEPT_LENGTH + 1) with
      | Some k => if zlen k =? WS_WEBSOCKET_ACCEPT_LENGTH then Some k else None
      | None => None
      end
  end.

(** ** base64url (ACME) *)

Definition ENC : list Z :=
  bs "ABCDEFGHIJKLMNOPQRSTUVWXYZabcdefghijklmnopqrstuvwxyz0123456789-_".

Definition enc6 (v k : Z) : Z := rd ENC (Z.land (Z.shiftr v k) 63).

Fixpoint b64url_body (input : list Z) : list Z :=
  match input with
  | [] => []
  | [a] => let v := Z.shiftl a 16 in [enc6 v 18; enc6 v 12]
  | [a; b] =>
      let v := Z.lor (Z.shiftl a 16) (Z.shiftl b 8) in [enc6 v 18; enc6 v 12; enc6 v 6]
  | a :: b :: c :: t =>
      let v := Z.lor (Z.shiftl a 16) (Z.lor (Z.shiftl b 8) c) in
      [enc6 v 18; enc6 v 12; enc6 v 6; enc6 v 0] ++ b64url_body t
  end.

Definition b64url_len (len : Z) : Z :=
  let rem := len mod 3 in len / 3 * 4 + (if rem =? 0 then 0 else rem + 1).

Definition portico_b64url_encode (input : list Z) (outcap : Z) : option (list Z) :=
  if outcap <? b64url_len (zlen input) + 1 then None else Some (b64url_body input).

(** [dec]: all -1, then the inverse of [ENC]. *)
Definition dec : list Z :=
  fold_left (λ t k, <[Z.to_nat (rd ENC k) := k]> t) (seqZ 0 64) (repeat (-1) 256).

(** The decoding loops; [o] is the number of bytes written so far. *)
Fixpoint b64url_dec (input : list Z) (o outcap : Z) : option (list Z) :=
  match input with
  | [] => Some []
  | [_] => Some []
  | [ca; cb] =>
      let a := rd dec ca in let b := rd dec cb in
      if (a <? 0) || (b <? 0) then None
      else if outcap <? o + 1 then None
      else Some [u8 (Z.shiftr (Z.lor (Z.shiftl a 18) (Z.shiftl b 12)) 16)]
  | [ca; cb; cc] =>
      let a := rd dec ca in let b := rd dec cb in let c := rd dec cc in
      if (a <? 0) || (b <? 0) || (c <? 0) then None
      else if outcap <? o + 2 then None
      else
        let v := Z.lor (Z.shiftl a 18) (Z.lor (Z.shiftl b 12) (Z.shiftl c 6)) in
        Some [Z.land (Z.shiftr v 16) 0xff; Z.land (Z.shiftr v 8) 0xff]
  | ca :: cb :: cc :: cd :: t =>
      let a := rd dec ca in let b := rd dec cb in
      let c := rd dec cc in let d := rd dec cd in
      if (a <? 0) || (b <? 0) || (c <? 0) || (d <? 0) then None
      else if outcap <? o + 3 then None
      else
        let v := Z.lor (Z.shiftl a 18) (Z.lor (Z.shiftl b 12) (Z.lor (Z.shiftl c 6) d)) in
        match b64url_dec t (o + 3) outcap with
        | None => None
        | Some rest => Some ([Z.land (Z.shiftr v 16) 0xff; Z.land (Z.shiftr v 8) 0xff;
                              Z.land v 0xff] ++ rest)
        end
  end.

Definition portico_b64url_decode (input : list Z) (outcap : Z) : option (list Z) :=
  if zlen input mod 4 =? 1 then None else b64url_dec input 0 outcap.

(** ** SHA-1 padding *)

Lemma pad_zeros_spec fuel n :
  (56 - n) mod 64 < Z.of_nat fuel →
  pad_zeros fuel n = repeat 0 (Z.to_nat ((56 - n) mod 64)).
Proof.
  revert n. induction fuel as [ | f IH]; intros n Hf; [lia |]. cbn [pad_zeros].
  destruct (n mod 64 =? 56) eqn:E; zbool.
  - by replace ((56 - n) mod 64) with 0 by lia.
  - rewrite IH by lia. replace ((56 - n) mod 64) with ((56 - (n + 1)) mod 64 + 1) by lia.
    rewrite Z2Nat.inj_add by lia. rewrite Nat.add_1_r. done.
Qed.

(** The big-endian 64-bit length field. *)
Definition be64_bytes (x : Z) : list Z := map (λ i, x / 2 ^ (56 - i * 8) mod 256) (seqZ 0 8).

(** SHA-1's padding loop terminates and produces the FIPS 180-4 padding (the bit 1,
    the fewest zeros, the 64-bit big-endian bit length); the result is whole 64-byte
    blocks and never overruns the [len + 72] bytes that were allocated for it. *)
Theorem sha1_pad_correct data :
  zlen data < 2 ^ 61 →
  ∃ k, (k < 64)%nat ∧
    sha1_pad data = data ++ [0x80] ++ repeat 0 k ++ be64_bytes (8 * zlen data) ∧
    zlen (sha1_pad data) mod 64 = 0 ∧ zlen (sha1_pad data) <= zlen data + 72.
Proof.
  intros Hl. pose proof (zlen_nonneg data) as H0.
  exists (Z.to_nat ((56 - (zlen data + 1)) mod 64)).
  assert (E : sha1_pad data = data ++ [0x80] ++ repeat 0 (Z.to_nat ((56 - (zlen data + 1)) mod 64))
                              ++ be64_bytes (8 * zlen data)).
  { unfold sha1_pad. rewrite pad_zeros_spec by lia. rewrite u64_small by lia.
    do 3 f_equal. unfold be64_bytes. apply map_ext_in. intros i Hi.
    apply list_elem_of_In, elem_of_seqZ in Hi.
    rewrite land_255_mod, Z.shiftr_div_pow2 by lia. do 2 f_equal. lia. }
  split; [lia |]. split; [done |]. rewrite E, !zlen_app.
  change (zlen [0x80]) with 1. change (zlen (be64_bytes _)) with 8.
  unfold zlen at 2 5. rewrite repeat_length. lia.
Qed.

Lemma sha1_pad_correct_witness :
  ∃ k, (k < 64)%nat ∧
    sha1_pad (bs "abc") = bs "abc" ++ [0x80] ++ repeat 0 k ++ be64_bytes 24 ∧
    zlen (sha1_pad (bs "abc")) mod 64 = 0 ∧ zlen (sha1_pad (bs "abc")) <= 75.
Proof. apply (sha1_pad_correct (bs "abc")). unfold zlen. simpl. lia. Defined.

(** FIPS 180-4 test vector. *)
Example sha1_abc :
  ws_sha1 true (bs "abc") =
  Some [0xa9; 0x99; 0x3e; 0x36; 0x47; 0x06; 0x81; 0x6a; 0xba; 0x3e;
        0x25; 0x71; 0x78; 0x50; 0xc2; 0x6c; 0x9c; 0xd0; 0xd8; 0x9d].
Proof. vm_compute. reflexivity. Qed.

(** ** Base64 as 6-bit groups *)

Lemma list_ind3 {A} (P : list A → Prop) :
  P [] → (∀ a, P [a]) → (∀ a b, P [a; b]) → (∀ a b c t, P t → P (a :: b :: c :: t)) → ∀ l, P l.
Proof.
  intros H0 H1 H2 H3. fix IH 1. intros [ | a [ | b [ | c t]]].
  - exact H0.
  - exact (H1 a).
  - exact (H2 a b).
  - exact (H3 a b c t (IH t)).
Qed.

(** RFC 4648 §4: three octets are four 6-bit groups; '=' pads the last quantum. *)
Fixpoint rfc_base64 (input : list Z) : list Z :=
  match input with
  | [] => []
  | [a] => [rd base64_chars (a / 4); rd base64_chars (a mod 4 * 16); 61; 61]
  | [a; b] => [rd base64_chars (a / 4); rd base64_chars (a mod 4 * 16 + b / 16);
               rd base64_chars (b mod 16 * 4); 61]
  | a :: b :: c :: t =>
      [rd base64_chars (a / 4); rd base64_chars (a mod 4 * 16 + b / 16);
       rd base64_chars (b mod 16 * 4 + c / 64); rd base64_chars (c mod 64)] ++ rfc_base64 t
  end.

Lemma triple_value a b c :
  byte_ok a → byte_ok b → byte_ok c →
  Z.lor (Z.shiftl a 16) (Z.lor (Z.shiftl b 8) c) = a * 2 ^ 16 + (b * 2 ^ 8 + c).
Proof.
  unfold byte_ok. intros. rewrite (lor_shiftl_add b), (lor_shiftl_add a) by lia. done.
Qed.

Lemma b64_triple_groups al a b c :
  byte_ok a → byte_ok b → byte_ok c →
  b64_triple al a b c = [rd al (a / 4); rd al (a mod 4 * 16 + b / 16);
                         rd al (b mod 16 * 4 + c / 64); rd al (c mod 64)].
Proof.
  intros Ha Hb Hc. unfold b64_triple. rewrite triple_value by done.
  rewrite !land_63_mod, !Z.shiftr_div_pow2 by lia. unfold byte_ok in *.
  repeat (f_equal; try lia).
Qed.

Lemma length_b64_body input :
  zlen (b64_body input) = WS_BASE64_ENCODED_SIZE (zlen input).
Proof.
  unfold WS_BASE64_ENCODED_SIZE.
  induction input as [ | a | a b | a b c t IH] using list_ind3; try done.
  cbn [b64_body]. rewrite zlen_app, IH, !zlen_cons. change (zlen (b64_triple _ a b c)) with 4. lia.
Qed.

Lemma b64_pad_S n pad len out :
  b64_pad (S n) pad len out = b64_pad n (pad + 1) len (<[Z.to_nat (len - 1 - pad) := 61]> out).
Proof. done. Qed.

(** Padding overwrites a suffix. *)
Lemma b64_pad_app n pre suf :
  (n <= length suf)%nat →
  b64_pad n 0 (zlen (pre ++ suf)) (pre ++ suf) = pre ++ b64_pad n 0 (zlen suf) suf.
Proof.
  intros Hn.
  assert (H : ∀ m pad s, 0 <= pad → pad + Z.of_nat m <= zlen s →
     b64_pad m pad (zlen (pre ++ s)) (pre ++ s) = pre ++ b64_pad m pad (zlen s) s).
  { induction m as [ | m IH]; intros pad s Hp Hm; [done |]. rewrite !b64_pad_S.
    assert (Hi : <[Z.to_nat (zlen (pre ++ s) - 1 - pad) := 61]> (pre ++ s) =
                 pre ++ <[Z.to_nat (zlen s - 1 - pad) := 61]> s).
    { rewrite insert_app_r_alt by (rewrite zlen_app; unfold zlen in *; lia).
      do 2 f_equal. rewrite zlen_app. unfold zlen in *. lia. }
    rewrite Hi.
    replace (zlen (pre ++ s)) with (zlen (pre ++ <[Z.to_nat (zlen s - 1 - pad) := 61]> s))
      by (rewrite !zlen_app, zlen_insert; done).
    rewrite IH by (rewrite ?zlen_insert; lia). by rewrite zlen_insert. }
  apply H; unfold zlen; lia.
Qed.

Lemma base64_spec input :
  bytes_ok input →
  b64_pad (Z.to_nat ((3 - zlen input mod 3) mod 3)) 0 (WS_BASE64_ENCODED_SIZE (zlen input))
          (b64_body input) = rfc_base64 input.
Proof.
  induction input as [ | a | a b | a b c t IH] using list_ind3; intros Hb.
  - done.
  - apply Forall_cons in Hb as [Ha _]. change (zlen [a]) with 1. cbn [b64_body].
    rewrite b64_triple_groups by (done || unfold byte_ok; lia).
    rewrite Z.add_0_r. done.
  - apply Forall_cons in Hb as [Ha Hb]. apply Forall_cons in Hb as [Hb _].
    change (zlen [a; b]) with 2. cbn [b64_body].
    rewrite b64_triple_groups by (done || unfold byte_ok; lia).
    change (0 / 64) with 0. rewrite (Z.add_0_r (b mod 16 * 4)). done.
  - apply Forall_cons in Hb as [Ha Hb]. apply Forall_cons in Hb as [Hb Hc].
    apply Forall_cons in Hc as [Hc Ht].
    rewrite <- length_b64_body. cbn [b64_body rfc_base64].
    assert (Hz : (3 - zlen (a :: b :: c :: t) mod 3) mod 3 = (3 - zlen t mod 3) mod 3)
      by (rewrite !zlen_cons; lia).
    rewrite Hz, b64_pad_app.
    + rewrite length_b64_body, IH by done. f_equal. by apply b64_triple_groups.
    + pose proof (length_b64_body t) as HL. unfold WS_BASE64_ENCODED_SIZE in HL.
      pose proof (zlen_nonneg t). unfold zlen in *. lia.
Qed.

Lemma be32_bytes_ok x : bytes_ok (be32_bytes x).
Proof.
  unfold be32_bytes. rewrite !land_255_mod.
  repeat constructor; unfold byte_ok; lia.
Qed.

Lemma ws_sha1_digest data :
  ∃ d, ws_sha1 true data = Some d ∧ zlen d = 20 ∧ bytes_ok d.
Proof.
  unfold ws_sha1. cbn [negb]. eexists. split; [reflexivity |]. split; [done |].
  rewrite !bytes_ok_app. auto using be32_bytes_ok.
Qed.

Lemma rfc_base64_digest_len d : zlen d = 20 → bytes_ok d → zlen (rfc_base64 d) = 28.
Proof.
  intros Hl Hb. rewrite <- base64_spec, Hl by done.
  change (Z.to_nat ((3 - 20 mod 3) mod 3)) with 1%nat. rewrite b64_pad_S. cbn [b64_pad].
  rewrite zlen_insert, length_b64_body, Hl. done.
Qed.

(** The handshake's accept key is computed for every client key (when memory
    allows): it is the 28-character RFC 4648 base64 of the SHA-1 of the key followed by
    the GUID, within the 29-byte output buffer; a longer key is cut with the GUID to 60
    characters. *)
Theorem ws_generate_accept_key_correct key :
  ∃ d k, ws_sha1 true (ztake 60 (key ++ WS_WEBSOCKET_MAGIC_STRING)) = Some d ∧
    ws_generate_accept_key true key = Some k ∧ k = rfc_base64 d ∧ zlen k = 28 ∧
    (zlen key <= 24 → ztake 60 (key ++ WS_WEBSOCKET_MAGIC_STRING) = key ++ WS_WEBSOCKET_MAGIC_STRING).
Proof.
  destruct (ws_sha1_digest (ztake 60 (key ++ WS_WEBSOCKET_MAGIC_STRING))) as (d & Hd & Hl & Hb).
  pose proof (rfc_base64_digest_len d Hl Hb) as Hk.
  exists d, (rfc_base64 d). split; [done |]. split_and!; [ | done | done | ].
  - unfold ws_generate_accept_key. change (WS_WEBSOCKET_KEY_LENGTH + _) with 60.
    rewrite Hd. unfold ws_base64_encode. rewrite base64_spec by done. rewrite Hl.
    change (WS_WEBSOCKET_ACCEPT_LENGTH + 1 <? _) with false. cbn. rewrite Hk. done.
  - intros ?. apply ztake_ge. rewrite zlen_app. change (zlen WS_WEBSOCKET_MAGIC_STRING) with 36. lia.
Qed.

(** An accept key exists for every client key and has 28 characters. *)
Lemma accept_key_total key :
  ∃ k, ws_generate_accept_key true key = Some k ∧ zlen k = 28.
Proof.
  destruct (ws_sha1_digest (ztake 60 (key ++ WS_WEBSOCKET_MAGIC_STRING))) as (d & Hd & Hl & Hb).
  exists (rfc_base64 d). pose proof (rfc_base64_digest_len d Hl Hb) as Hk. split; [ | done].
  unfold ws_generate_accept_key. change (WS_WEBSOCKET_KEY_LENGTH + _) with 60.
  rewrite Hd. unfold ws_base64_encode. rewrite base64_spec by done. rewrite Hl.
  change (WS_WEBSOCKET_ACCEPT_LENGTH + 1 <? _) with false. cbn. rewrite Hk. done.
Qed.

(** The sample handshake of RFC 6455 §1.3. *)
Example accept_key_rfc6455 :
  ws_generate_accept_key true (bs "dGhlIHNhbXBsZSBub25jZQ==")
  = Some (bs "s3pPLMBiTxaQ9kYGzzhZRbK+xOo=").
Proof. vm_compute. reflexivity. Qed.

(** ** base64url *)

Lemma dec_ENC i : 0 <= i < 64 → rd dec (rd ENC i) = i.
Proof.
  intros Hi. apply Z.eqb_eq.
  assert (H : forallb (λ i, rd dec (rd ENC i) =? i) (seqZ 0 64) = true) by (vm_compute; done).
  rewrite forallb_forall in H. apply H, list_elem_of_In, elem_of_seqZ. lia.
Qed.

Lemma dec_enc6 v k : 0 <= k → rd dec (enc6 v k) = v / 2 ^ k mod 64.
Proof.
  intros. unfold enc6. rewrite land_63_mod, Z.shiftr_div_pow2 by lia. apply dec_ENC. lia.
Qed.

Lemma length_b64url_body input : zlen (b64url_body input) = b64url_len (zlen input).
Proof.
  unfold b64url_len. induction input as [ | a | a b | a b c t IH] using list_ind3; try done.
  cbn [b64url_body]. rewrite zlen_app, IH, !zlen_cons, zlen_nil.
  replace ((zlen t + 1 + 1 + 1) mod 3) with (zlen t mod 3) by lia. split_ifs; lia.
Qed.

(** Four sextets make three octets. *)
Lemma sextets_value a b c d :
  0 <= a → 0 <= b < 64 → 0 <= c < 64 → 0 <= d < 64 →
  Z.lor (Z.shiftl a 18) (Z.lor (Z.shiftl b 12) (Z.lor (Z.shiftl c 6) d)) =
  a * 2 ^ 18 + (b * 2 ^ 12 + (c * 2 ^ 6 + d)).
Proof.
  intros. rewrite (lor_shiftl_add c), (lor_shiftl_add b), (lor_shiftl_add a) by lia. done.
Qed.

Lemma b64url_dec_body input o outcap :
  bytes_ok input → o + zlen input <= outcap →
  b64url_dec (b64url_body input) o outcap = Some input.
Proof.
  revert o. induction input as [ | a | a b | a b c t IH] using list_ind3; intros o Hb Ho.
  - done.
  - apply Forall_cons in Hb as [Ha _]. unfold byte_ok in Ha. rewrite zlen_cons, zlen_nil in Ho.
    cbn [b64url_body b64url_dec]. rewrite !dec_enc6, !Z.shiftl_mul_pow2 by lia.
    rewrite !(proj2 (Z.ltb_ge _ _)) by lia. cbn [orb].
    rewrite <- !Z.shiftl_mul_pow2 by lia. rewrite (lor_shiftl_add _ (Z.shiftl _ 12) 18) by
      (rewrite ?Z.shiftl_mul_pow2; lia).
    unfold u8. rewrite Z.shiftr_div_pow2, !Z.shiftl_mul_pow2 by lia. repeat f_equal. lia.
  - apply Forall_cons in Hb as [Ha Hb]. apply Forall_cons in Hb as [Hb _].
    unfold byte_ok in Ha, Hb. rewrite !zlen_cons, zlen_nil in Ho.
    cbn [b64url_body b64url_dec]. rewrite (lor_shiftl_add a (Z.shiftl b 8) 16) by
      (rewrite ?Z.shiftl_mul_pow2; lia).
    rewrite !dec_enc6, !(Z.shiftl_mul_pow2 b) by lia.
    rewrite !(proj2 (Z.ltb_ge _ _)) by lia. cbn [orb].
    rewrite <- (Z.lor_0_r (Z.shiftl (_ / 2 ^ 6 mod 64) 6)).
    rewrite sextets_value, !land_255_mod, !Z.shiftr_div_pow2 by lia. repeat f_equal; lia.
  - apply Forall_cons in Hb as [Ha Hb]. apply Forall_cons in Hb as [Hb Hc].
    apply Forall_cons in Hc as [Hc Ht]. rewrite !zlen_cons in Ho.
    cbn [b64url_body b64url_dec app]. rewrite triple_value by done. unfold byte_ok in Ha, Hb, Hc.
    rewrite !dec_enc6, !(proj2 (Z.ltb_ge _ _)) by (pose proof (zlen_nonneg t); lia).
    cbn [orb]. rewrite IH by (done || lia).
    rewrite sextets_value, !land_255_mod, !Z.shiftr_div_pow2 by lia. repeat f_equal; lia.
Qed.

(** Whatever is decoded fits the output buffer. *)
Lemma b64url_dec_bound n input o outcap out :
  (length input <= n)%nat → 0 <= o <= outcap →
  b64url_dec input o outcap = Some out → o + zlen out <= outcap.
Proof.
  revert input o out. induction n as [ | n IH]; intros input o out Hn Ho.
  - destruct input; [ | simpl in Hn; lia]. cbn. intros [= <-]. rewrite zlen_nil. lia.
  - destruct input as [ | a [ | b [ | c [ | d t]]]]; cbn [b64url_dec];
      [intros [= <-]; rewrite zlen_nil; lia .. | | | ].
    + split_ifs; intros [= <-]. zbool. rewrite zlen_cons, zlen_nil. lia.
    + split_ifs; intros [= <-]. zbool. rewrite !zlen_cons, zlen_nil. lia.
    + split_ifs; [done | done |]. zbool.
      destruct (b64url_dec t (o + 3) outcap) as [rest | ] eqn:E2; [ | done]. intros [= <-].
      apply IH in E2; [ | simpl in Hn; lia | lia]. cbn [app]. rewrite !zlen_cons. lia.
Qed.

(** base64url round trip: encoding succeeds exactly when the buffer holds the
    unpadded text and its NUL, decoding gives back the bytes, and no decode, of any
    text, writes beyond the output capacity. *)
Theorem b64url_roundtrip input outcap deccap :
  bytes_ok input → b64url_len (zlen input) + 1 <= outcap → zlen input <= deccap →
  (∃ text, portico_b64url_encode input outcap = Some text ∧
           zlen text = b64url_len (zlen input) ∧
           portico_b64url_decode text deccap = Some input) ∧
  (∀ text out, portico_b64url_decode text deccap = Some out → zlen out <= deccap).
Proof.
  intros Hb Ho Hd. pose proof (zlen_nonneg input). split.
  - exists (b64url_body input). unfold portico_b64url_encode, portico_b64url_decode.
    rewrite (proj2 (Z.ltb_ge outcap _)), length_b64url_body by lia.
    split; [done |]. split; [done |].
    rewrite (proj2 (Z.eqb_neq _ 1)) by (unfold b64url_len; split_ifs; zbool; lia).
    apply b64url_dec_body; [done | lia].
  - intros text out. unfold portico_b64url_decode. split_if; [done |].
    intros H1. apply (b64url_dec_bound (length text)) in H1; lia.
Qed.

Lemma b64url_roundtrip_witness :
  (∃ text, portico_b64url_encode [251; 255; 0; 7] 16 = Some text ∧
           zlen text = 6 ∧ portico_b64url_decode text 8 = Some [251; 255; 0; 7]) ∧
  (∀ text out, portico_b64url_decode text 8 = Some out → zlen out <= 8).
Proof.
  apply (b64url_roundtrip [251; 255; 0; 7] 16 8).
  - repeat constructor; unfold byte_ok; lia.
  - vm_compute. discriminate.
  - vm_compute. discriminate.
Defined.
