(* ===== verification/Sys.v ===== *)
(** * The operating system, as one connection sees it

    Non-blocking socket I/O, the epoll registration of the socket and heap
    allocation, as scripts: each list says what the next calls will do, and an
    exhausted script means "would block" for reads and "takes everything" for
    writes, allocations and [epoll_ctl].  All theorems quantify over the scripts, so
    they hold for every behaviour of the kernel.  The TLS layer keeps
    [recv]/[send] semantics (src/src/ws/ws_tls.c, [ws_tls_read]/[ws_tls_write]), so
    the same scripts stand for an encrypted connection. *)
From Stdlib Require Import ZArith Lia.
From stdpp Require Import base numbers list strings.
From S2P Require Import Prelude.
Open Scope Z_scope.

(** What a [recv] finds. *)
Inductive rx_ev :=
| RxData (bytes : list Z)
| RxAgain
| RxEof
| RxErr.

(** What a [send] does. *)
Inductive tx_ev :=
| TxTake (n : nat)
| TxAgain
| TxErr.

Record sys := mk_sys {
  rx : list rx_ev;        (* inbound script *)
  txs : list tx_ev;       (* outbound script *)
  tx : list Z;            (* bytes the kernel has accepted, in order *)
  epollout : bool;        (* EPOLLOUT armed for this socket *)
  ctl : list bool;        (* outcomes of [epoll_ctl] *)
  mem : list bool         (* outcomes of [malloc]/[realloc] *)
}.

Definition set_rx (s : sys) v := mk_sys v (txs s) (tx s) (epollout s) (ctl s) (mem s).
Definition set_tx (s : sys) v w := mk_sys (rx s) v w (epollout s) (ctl s) (mem s).
Definition set_epoll (s : sys) v w := mk_sys (rx s) (txs s) (tx s) v w (mem s).
Definition set_mem (s : sys) v := mk_sys (rx s) (txs s) (tx s) (epollout s) (ctl s) v.

(** [recv(fd, buf, space, MSG_DONTWAIT)] with [space > 0]. *)
Inductive recv_res :=
| RData (bytes : list Z)   (* > 0 bytes *)
| REof                     (* 0 *)
| RAgain                   (* -1, EAGAIN *)
| RErr.                    (* -1, other errno *)

Definition sys_recv (s : sys) (space : Z) : recv_res * sys :=
  match rx s with
  | [] => (RAgain, s)
  | RxAgain :: r => (RAgain, set_rx s r)
  | RxEof :: _ => (REof, s)
  | RxErr :: r => (RErr, set_rx s r)
  | RxData [] :: _ => (REof, s)
  | RxData b :: r =>
      if zlen b <=? space then (RData b, set_rx s r)
      else (RData (ztake space b), set_rx s (RxData (zdrop space b) :: r))
  end.

(** [send(fd, buf, len, MSG_NOSIGNAL | MSG_DONTWAIT)]: the number of bytes taken. *)
Inductive send_res :=
| SSent (n : Z)
| SAgain
| SErr.

Definition sys_send (s : sys) (buf : list Z) : send_res * sys :=
  match txs s with
  | [] => (SSent (zlen buf), set_tx s [] (tx s ++ buf))
  | TxTake n :: r =>
      (SSent (zlen (take n buf)), set_tx s r (tx s ++ take n buf))
  | TxAgain :: r => (SAgain, set_tx s r (tx s))
  | TxErr :: r => (SErr, set_tx s r (tx s))
  end.

Definition sys_alloc (s : sys) : bool * sys :=
  match mem s with
  | [] => (true, s)
  | b :: r => (b, set_mem s r)
  end.

(** [epoll_ctl(EPOLL_CTL_MOD)] with or without EPOLLOUT: 0 or -1. *)
Definition sys_epoll_mod (s : sys) (want_out : bool) : Z * sys :=
  match ctl s with
  | [] => (0, set_epoll s want_out [])
  | true :: r => (0, set_epoll s want_out r)
  | false :: r => (-1, set_epoll s (epollout s) r)
  end.

(** ** Lemmas *)

(** A send takes a prefix of the buffer. *)
Lemma sys_send_inv s buf r s' :
  sys_send s buf = (r, s') →
  rx s' = rx s ∧ epollout s' = epollout s ∧ ctl s' = ctl s ∧ mem s' = mem s ∧
  match r with
  | SSent n => 0 <= n <= zlen buf ∧ tx s' = tx s ++ ztake n buf ∧
               ((txs s = [] ∧ txs s' = [] ∧ n = zlen buf) ∨ (∃ e, txs s = e :: txs s'))
  | _ => tx s' = tx s ∧ ∃ e, txs s = e :: txs s'
  end.
Proof.
  unfold sys_send. destruct (txs s) as [ | [n | | ] t] eqn:E; intros [= <- <-]; cbn;
    split_and!; try done; eauto.
  - apply zlen_nonneg.
  - by rewrite ztake_ge by lia.
  - unfold zlen. lia.
  - unfold zlen. rewrite length_take. lia.
  - unfold ztake, zlen. rewrite Nat2Z.id, length_take.
    destruct (Nat.le_ge_cases n (length buf)).
    + by rewrite Nat.min_l by lia.
    + by rewrite Nat.min_r, !take_ge by lia.
Qed.

(** The bytes a read script still holds, and how many reads it can serve. *)
Fixpoint rx_bytes (l : list rx_ev) : list Z :=
  match l with
  | RxData b :: r => b ++ rx_bytes r
  | _ => []
  end.

Fixpoint rx_size (l : list rx_ev) : nat :=
  match l with
  | [] => 1
  | RxData b :: r => 1 + length b + rx_size r
  | _ :: r => 1 + rx_size r
  end.

Lemma sys_recv_data s space b s' :
  0 < space → sys_recv s space = (RData b, s') →
  b ≠ [] ∧ zlen b <= space ∧ rx_bytes (rx s) = b ++ rx_bytes (rx s') ∧
  (rx_size (rx s') < rx_size (rx s))%nat ∧
  txs s' = txs s ∧ tx s' = tx s ∧ epollout s' = epollout s ∧ ctl s' = ctl s ∧ mem s' = mem s.
Proof.
  intros Hs. unfold sys_recv.
  destruct (rx s) as [ | [ [ | x d] | | | ] r] eqn:E; try discriminate.
  destruct (zlen (x :: d) <=? space) eqn:E1; zbool; intros [= <- <-]; cbn [rx set_rx rx_bytes rx_size].
  - split_and!; done || lia.
  - assert (Hne : ztake space (x :: d) ≠ []).
    { intros H. apply (f_equal zlen) in H. rewrite zlen_ztake, zlen_nil in H by lia. lia. }
    rewrite zlen_ztake by lia. split_and!; try done.
    + by rewrite app_assoc, ztake_zdrop.
    + unfold zdrop. rewrite length_drop. cbn [length]. lia.
Qed.

(** Writing, allocating and arming leave the inbound script alone, and memory that never
    runs out keeps never running out. *)
Definition inert (s s' : sys) : Prop := rx s' = rx s ∧ (mem s = [] → mem s' = []).

#[export] Instance inert_preorder : PreOrder inert.
Proof. split; [by intros s | intros a b c [R1 M1] [R2 M2]; split; [congruence | auto]]. Qed.

Lemma sys_send_inert s buf r s' : sys_send s buf = (r, s') → inert s s'.
Proof. intros (Hr & _ & _ & Hm & _)%sys_send_inv. split; [done | congruence]. Qed.

Lemma sys_alloc_inert s b s' : sys_alloc s = (b, s') → inert s s'.
Proof. unfold sys_alloc, inert. destruct (mem s) as [ | ok m] eqn:E; intros [= <- <-]; [by rewrite E | done]. Qed.

Lemma sys_epoll_inert s b rc s' : sys_epoll_mod s b = (rc, s') → inert s s'.
Proof. unfold sys_epoll_mod. by destruct (ctl s) as [ | [] l]; intros [= <- <-]. Qed.
