(* ===== verification/OutBuf.v ===== *)
(** * Outbound bytes and backpressure (src/src/http/connection.c)

    The pending-out buffer every HTTP response and WebSocket data frame goes
    through: direct sends, the backlog behind a slow reader, the EPOLLOUT handler.
    The contract proved is that of a FIFO byte stream. *)
From Stdlib Require Import ZArith Lia.
From stdpp Require Import base numbers list strings.
From S2P Require Import Prelude Sys.
Open Scope Z_scope.

Definition PORTICO_OUT_MAX : Z := 4 * 1024 * 1024.

(** The out fields of [ws_connection_t]; [out_used] is the length of [out_buffer]. *)
Record outq := mk_outq {
  out_buffer : list Z;
  out_sent : Z;
  out_capacity : Z;
  out_close_when_drained : bool
}.

Definition out_used (q : outq) : Z := zlen (out_buffer q).
Definition outq_init : outq := mk_outq [] 0 0 false.

(** [conn->out_used > conn->out_sent]. *)
Definition backlogged (q : outq) : bool := out_sent q <? out_used q.

Definition conn_set_epollout (s : sys) (want_out : bool) : Z * sys := sys_epoll_mod s want_out.

(** [conn_out_drain]: each iteration of the loop is one [send]; [fuel] bounds their
    number. *)
Fixpoint out_drain_loop (fuel : nat) (q : outq) (s : sys) : Z * outq * sys :=
  match fuel with
  | O => (-1, q, s)
  | S f =>
      if out_sent q <? out_used q then
        match sys_send s (zdrop (out_sent q) (out_buffer q)) with
        | (SSent n, s') =>
            if 0 <? n then
              out_drain_loop f
                (mk_outq (out_buffer q) (out_sent q + n) (out_capacity q)
                         (out_close_when_drained q)) s'
            else (-1, q, s')
        | (SAgain, s') => (0, q, s')
        | (SErr, s') => (-1, q, s')
        end
      else (0, mk_outq [] 0 (out_capacity q) (out_close_when_drained q), s)
  end.

(** Every send but the last consumes an entry of the kernel's script. *)
Definition send_fuel (s : sys) : nat := S (S (length (txs s))).

Definition conn_out_drain (q : outq) (s : sys) : Z * outq * sys :=
  out_drain_loop (send_fuel s) q s.

(** [while (nc < need) nc *= 2;] *)
Fixpoint grow_cap (fuel : nat) (nc need : Z) : Z :=
  match fuel with
  | O => nc
  | S f => if nc <? need then grow_cap f (nc * 2) need else nc
  end.

Definition conn_out_append (q : outq) (s : sys) (buf : list Z) : Z * outq * sys :=
  let q1 := if 0 <? out_sent q
            then mk_outq (zdrop (out_sent q) (out_buffer q)) 0 (out_capacity q)
                         (out_close_when_drained q)
            else q in
  let need := out_used q1 + zlen buf in
  if PORTICO_OUT_MAX <? need then (-1, q1, s)
  else if out_capacity q1 <? need then
    let nc0 := if out_capacity q1 =? 0 then 8192 else out_capacity q1 in
    let nc1 := grow_cap 32 nc0 need in
    let nc := if PORTICO_OUT_MAX <? nc1 then PORTICO_OUT_MAX else nc1 in
    let '(ok, s1) := sys_alloc s in
    if negb ok then (-1, q1, s1)
    else (0, mk_outq (out_buffer q1 ++ buf) (out_sent q1) nc (out_close_when_drained q1), s1)
  else (0, mk_outq (out_buffer q1 ++ buf) (out_sent q1) (out_capacity q1)
                   (out_close_when_drained q1), s).

(** The send loop of [portico_conn_send] when nothing is queued. *)
Fixpoint send_loop (fuel : nat) (q : outq) (s : sys) (buf : list Z) (off : Z) : Z * outq * sys :=
  match fuel with
  | O => (-1, q, s)
  | S f =>
      if off <? zlen buf then
        match sys_send s (zdrop off buf) with
        | (SSent n, s') =>
            if 0 <? n then send_loop f q s' buf (off + n) else (-1, q, s')
        | (SAgain, s') =>
            match conn_out_append q s' (zdrop off buf) with
            | (rc, q1, s1) =>
                if negb (rc =? 0) then (-1, q1, s1)
                else let '(rc2, s2) := conn_set_epollout s1 true in (rc2, q1, s2)
            end
        | (SErr, s') => (-1, q, s')
        end
      else (0, q, s)
  end.

Definition portico_conn_send (q : outq) (s : sys) (buf : list Z) : Z * outq * sys :=
  if backlogged q then conn_out_append q s buf
  else send_loop (send_fuel s) q s buf 0.

(** The drain and disarm part of [portico_conn_on_writable]: the first component is
    [None] when the handler returns at once, and otherwise the socket has drained. *)
Definition on_writable_drain (q : outq) (s : sys) : option Z * outq * sys :=
  match conn_out_drain q s with
  | (rc, q1, s1) =>
      if rc <? 0 then (Some (-1), q1, s1)
      else if backlogged q1 then (Some 0, q1, s1)
      else let '(_, s2) := conn_set_epollout s1 false in (None, q1, s2)
  end.

(** [http_finish_close]: defer the close while bytes are pending. *)
Definition http_finish_close (q : outq) : Z * outq :=
  if backlogged q
  then (0, mk_outq (out_buffer q) (out_sent q) (out_capacity q) true)
  else (-1, q).

(** ** What the queue leaves alone *)

Lemma append_inert q s buf rc q' s' : conn_out_append q s buf = (rc, q', s') → inert s s'.
Proof.
  unfold conn_out_append. destruct (sys_alloc s) as [ok s1] eqn:EA. apply sys_alloc_inert in EA.
  intros H. apply (f_equal snd) in H. revert H. repeat split_if; cbn [snd]; by intros <-.
Qed.

Lemma send_loop_inert fuel q s buf off rc q' s' : send_loop fuel q s buf off = (rc, q', s') → inert s s'.
Proof.
  revert s off. induction fuel as [ | n IH]; intros s off; cbn [send_loop]; [by intros [= <- <- <-] |].
  split_if; [ | by intros [= <- <- <-]]. destruct (sys_send s _) as [r s1] eqn:ES. apply sys_send_inert in ES.
  destruct r as [k | | ]; [split_if; [intros H%IH; by transitivity s1 | by intros [= <- <- <-]] | | by intros [= <- <- <-]].
  destruct (conn_out_append q s1 _) as [[rc1 q1] s2] eqn:EA. apply append_inert in EA. split_if; [intros [= <- <- <-]; by transitivity s1 |].
  destruct (conn_set_epollout s2 true) as [rc2 s3] eqn:EE. apply sys_epoll_inert in EE.
  intros [= <- <- <-]. transitivity s1; [done | by transitivity s2].
Qed.

Lemma conn_send_inert q s buf rc q' s' : portico_conn_send q s buf = (rc, q', s') → inert s s'.
Proof. unfold portico_conn_send. split_if; [apply append_inert | apply send_loop_inert]. Qed.

Lemma drain_loop_inert fuel q s rc q' s' : out_drain_loop fuel q s = (rc, q', s') → inert s s'.
Proof.
  revert q s. induction fuel as [ | n IH]; intros q s; cbn [out_drain_loop]; [by intros [= <- <- <-] |].
  split_if; [ | by intros [= <- <- <-]]. destruct (sys_send s _) as [r s1] eqn:ES. apply sys_send_inert in ES.
  destruct r as [k | | ]; [split_if; [intros H%IH; by transitivity s1 | by intros [= <- <- <-]] | by intros [= <- <- <-]..].
Qed.

Lemma writable_drain_inert q s o q' s' : on_writable_drain q s = (o, q', s') → inert s s'.
Proof.
  unfold on_writable_drain, conn_out_drain. destruct (out_drain_loop _ q s) as [[rc q1] s1] eqn:ED. apply drain_loop_inert in ED.
  split_if; [by intros [= <- <- <-] |]. split_if; [by intros [= <- <- <-] |].
  destruct (conn_set_epollout s1 false) as [rc2 s2] eqn:EE. apply sys_epoll_inert in EE. intros [= <- <- <-]. by transitivity s1.
Qed.

(** ** The FIFO contract *)

(** Bytes queued and not yet accepted by the kernel. *)
Definition pending (q : outq) : list Z := zdrop (out_sent q) (out_buffer q).

(** The stream the peer will see: accepted bytes, then pending bytes. *)
Definition stream (q : outq) (s : sys) : list Z := tx s ++ pending q.

(** The representation invariant, and that a backlog is always watched. *)
Definition out_ok (q : outq) (s : sys) : Prop :=
  0 <= out_sent q <= out_used q ∧ out_used q <= out_capacity q <= PORTICO_OUT_MAX ∧
  (out_capacity q = 0 ∨ 8192 <= out_capacity q) ∧
  (backlogged q = true → epollout s = true).

Definition bounds (q : outq) : Prop :=
  0 <= out_sent q <= out_used q ∧ out_used q <= out_capacity q <= PORTICO_OUT_MAX ∧
  (out_capacity q = 0 ∨ 8192 <= out_capacity q).

Lemma out_ok_bounds q s : out_ok q s → bounds q.
Proof. unfold out_ok, bounds. tauto. Qed.

Lemma out_ok_intro q s : bounds q → (backlogged q = true → epollout s = true) → out_ok q s.
Proof. unfold out_ok, bounds. tauto. Qed.

Lemma outq_init_ok s : out_ok outq_init s.
Proof.
  unfold out_ok, backlogged, out_used, PORTICO_OUT_MAX. cbn. split_and!; done || lia || by left.
Qed.

Lemma pending_nil q : bounds q → backlogged q = false → pending q = [].
Proof. unfold backlogged, pending. intros Hb H. zbool. apply zdrop_ge. unfold out_used in *. lia. Qed.

Lemma backlogged_pending q : bounds q → backlogged q = true ↔ pending q ≠ [].
Proof.
  intros Hb. split.
  - unfold backlogged, pending. intros H Hn. zbool. apply (f_equal zlen) in Hn.
    rewrite zlen_zdrop, zlen_nil in Hn by (unfold bounds, out_used in *; lia).
    unfold out_used in *. lia.
  - intros Hn. destruct (backlogged q) eqn:E; [done |]. by rewrite (pending_nil q) in Hn.
Qed.

Lemma grow_cap_spec fuel nc need :
  1 <= nc → need <= nc * 2 ^ Z.of_nat fuel → need <= grow_cap fuel nc need ∧ nc <= grow_cap fuel nc need.
Proof.
  revert nc. induction fuel as [ | f IH]; intros nc Hnc Hneed.
  - cbn in *. lia.
  - cbn [grow_cap]. split_if; zbool; [ | lia].
    rewrite Nat2Z.inj_succ, Z.pow_succ_r in Hneed by lia.
    destruct (IH (nc * 2)); [lia | lia | lia].
Qed.

(** The new capacity holds what is needed and respects the cap. *)
Definition new_cap (cap need : Z) : Z :=
  let nc1 := grow_cap 32 (if cap =? 0 then 8192 else cap) need in
  if PORTICO_OUT_MAX <? nc1 then PORTICO_OUT_MAX else nc1.

Lemma new_cap_spec cap need :
  (cap = 0 ∨ 8192 <= cap) → need <= PORTICO_OUT_MAX →
  need <= new_cap cap need <= PORTICO_OUT_MAX ∧ 8192 <= new_cap cap need.
Proof.
  intros Hc Hn. assert (HM : PORTICO_OUT_MAX = 4194304) by done. unfold new_cap.
  set (nc0 := if cap =? 0 then 8192 else cap).
  assert (Hnc0 : 8192 <= nc0) by (unfold nc0; split_if; zbool; lia). clearbody nc0.
  destruct (grow_cap_spec 32 nc0 need) as [G1 G2];
    [lia | change (2 ^ Z.of_nat 32) with 4294967296; lia |].
  set (g := grow_cap 32 nc0 need) in *. clearbody g. split_if; zbool; lia.
Qed.

(** What appending does to the queue, on both outcomes; the kernel's view of the
    connection is untouched. *)
Lemma out_append_spec q s buf rc q' s' :
  bounds q → conn_out_append q s buf = (rc, q', s') →
  bounds q' ∧ out_close_when_drained q' = out_close_when_drained q ∧
  tx s' = tx s ∧ txs s' = txs s ∧ epollout s' = epollout s ∧ ctl s' = ctl s ∧ rx s' = rx s ∧
  ((rc = 0 ∧ pending q' = pending q ++ buf) ∨ (rc = -1 ∧ pending q' = pending q)).
Proof.
  intros Hb. unfold conn_out_append.
  set (q1 := if 0 <? out_sent q then _ else q).
  assert (H1 : bounds q1 ∧ out_sent q1 = 0 ∧ pending q1 = pending q ∧ out_buffer q1 = pending q ∧
               out_capacity q1 = out_capacity q ∧
               out_close_when_drained q1 = out_close_when_drained q).
  { unfold q1, bounds, out_used, pending in *. destruct (0 <? out_sent q) eqn:E; zbool; cbn.
    - rewrite zlen_zdrop by lia. split_and!; done || lia.
    - assert (out_sent q = 0) as -> by lia. split_and!; done || lia. }
  destruct H1 as (B1 & S1 & P1 & O1 & C1 & D1). clearbody q1.
  assert (Happ : ∀ cap, zlen (out_buffer q1) + zlen buf <= cap <= PORTICO_OUT_MAX →
     (cap = 0 ∨ 8192 <= cap) →
     let q2 := mk_outq (out_buffer q1 ++ buf) (out_sent q1) cap (out_close_when_drained q1) in
     bounds q2 ∧ pending q2 = pending q ++ buf).
  { intros cap Hc Hc0. cbn. unfold bounds, pending, out_used. cbn. rewrite S1, zdrop_0, zlen_app, O1.
    pose proof (zlen_nonneg buf). pose proof (zlen_nonneg (pending q)). rewrite O1 in Hc.
    split_and!; done || lia. }
  pose proof (zlen_nonneg buf). unfold out_used.
  destruct (PORTICO_OUT_MAX <? _) eqn:E1; [intros [= <- <- <-]; split_and!; try done; right; done |].
  zbool. destruct (out_capacity q1 <? _) eqn:E2; zbool.
  - destruct (new_cap_spec (out_capacity q1) (zlen (out_buffer q1) + zlen buf)) as [G1 G2];
      [unfold bounds in *; tauto | lia |].
    unfold new_cap in G1, G2.
    set (nc := if _ <? _ then _ else _) in *. clearbody nc.
    unfold sys_alloc. destruct (mem s) as [ | [ | ] m]; cbn [negb]; intros [= <- <- <-]; cbn;
      [ | | split_and!; try done; by right ].
    all: destruct (Happ nc) as [HB HP]; [lia | by right |]; split_and!; try done; left; done.
  - intros [= <- <- <-]. destruct (Happ (out_capacity q1)) as [HB HP]; [unfold bounds in *; lia.. |].
    split_and!; try done. by left.
Qed.

(** A kernel script that never fails a send. *)
Definition tx_fails (e : tx_ev) : bool :=
  match e with TxErr | TxTake O => true | _ => false end.

Lemma send_progress s buf n s' :
  sys_send s buf = (SSent n, s') → 0 < n →
  (length (txs s') < length (txs s))%nat ∨ (txs s = [] ∧ n = zlen buf).
Proof.
  intros H Hn. apply sys_send_inv in H as (_ & _ & _ & _ & (_ & _ & [(H1 & H2 & H3) | (e & He)])).
  - by right.
  - left. rewrite He. simpl. lia.
Qed.

Lemma send_zero_fails s buf s' :
  sys_send s buf = (SSent 0, s') → buf ≠ [] → Exists (λ e, tx_fails e = true) (txs s).
Proof.
  unfold sys_send. destruct (txs s) as [ | [[ | n] | | ] t]; intros HH Hb;
    [injection HH as H _ | by left | injection HH as H _ | discriminate HH | discriminate HH].
  - destruct buf; [done |]. rewrite zlen_cons in H. pose proof (zlen_nonneg buf). lia.
  - destruct buf; [done |]. cbn [take] in H. rewrite zlen_cons in H.
    pose proof (zlen_nonneg (take n buf)). lia.
Qed.

Lemma send_err_fails s buf s' :
  sys_send s buf = (SErr, s') → Exists (λ e, tx_fails e = true) (txs s).
Proof. unfold sys_send. destruct (txs s) as [ | [n | | ] t]; intros [=]. by left. Qed.

Lemma txs_suffix_fails s buf r s' :
  sys_send s buf = (r, s') →
  Exists (λ e, tx_fails e = true) (txs s') → Exists (λ e, tx_fails e = true) (txs s).
Proof.
  unfold sys_send. destruct (txs s) as [ | [n | | ] t]; intros [= _ <-] H; cbn in H; by try right.
Qed.

(** Draining moves bytes from the buffer to the kernel and loses none; it fails only
    if the kernel does; on success the queue is empty or the kernel said "again". *)
Lemma out_drain_loop_spec fuel q s rc q' s' :
  (length (txs s) + (if backlogged q then 1 else 0) < fuel)%nat → bounds q → out_drain_loop fuel q s = (rc, q', s') →
  bounds q' ∧ stream q' s' = stream q s ∧
  out_close_when_drained q' = out_close_when_drained q ∧
  epollout s' = epollout s ∧ ctl s' = ctl s ∧ rx s' = rx s ∧ mem s' = mem s ∧
  (rc = 0 ∨ rc = -1) ∧ (rc = -1 → Exists (λ e, tx_fails e = true) (txs s)) ∧
  (rc = 0 → txs s = [] → backlogged q' = false) ∧
  (backlogged q' = true → backlogged q = true).
Proof.
  revert q s. induction fuel as [ | f IH]; intros q s Hf Hb; [lia |]. cbn [out_drain_loop].
  destruct (out_sent q <? out_used q) eqn:E; zbool.
  - assert (Hbq : backlogged q = true) by (by apply Z.ltb_lt).
    assert (Hne : zdrop (out_sent q) (out_buffer q) ≠ []) by (by apply backlogged_pending).
    destruct (sys_send s _) as [r s1] eqn:ES.
    pose proof (sys_send_inv _ _ _ _ ES) as (R1 & P1 & C1 & M1 & HR).
    destruct r as [n | | ].
    + destruct HR as (Hn & HT & _). destruct (0 <? n) eqn:En; zbool.
      * intros H. pose proof (send_progress _ _ _ _ ES En) as Hp.
        rewrite zlen_zdrop in Hn by (unfold bounds, out_used in *; lia).
        apply IH in H; cycle 1.
        { rewrite Hbq in Hf.
          destruct Hp as [Hp | [Hp ->]]; [split_if; lia |].
          unfold backlogged, out_used. cbn. rewrite zlen_zdrop by (unfold bounds, out_used in *; lia).
          rewrite (proj2 (Z.ltb_ge _ _)) by lia.
          unfold sys_send in ES. rewrite Hp in ES. injection ES as <-. cbn. lia. }
        { unfold bounds, out_used in *. cbn. lia. }
        destruct H as (B' & ST & D & EP & CT & RX & MM & RC & RF & RD & _). cbn in D.
        split_and!; try done; try congruence.
        -- rewrite ST. unfold stream, pending. cbn. rewrite HT, <- app_assoc. f_equal.
           rewrite <- (zdrop_zdrop n (out_sent q)) by (unfold bounds in *; lia). apply ztake_zdrop.
        -- intros Hrc. eapply txs_suffix_fails; [done | auto].
        -- intros Hrc Htx. apply RD; [done |].
           unfold sys_send in ES. rewrite Htx in ES. by injection ES as <- <-.
      * intros [= <- <- <-]. assert (n = 0) as -> by lia.
        split_and!; try done; [ | by right | intros _; by eapply send_zero_fails].
        unfold stream. rewrite HT. unfold ztake. simpl. by rewrite app_nil_r.
    + intros [= <- <- <-]. destruct HR as (HT & e & He).
      split_and!; try done; [ | by left | intros _ H; by rewrite H in He].
      unfold stream. by rewrite HT.
    + intros [= <- <- <-]. destruct HR as (HT & _).
      split_and!; try done; [ | by right | intros _; by eapply send_err_fails].
      unfold stream. by rewrite HT.
  - intros [= <- <- <-]. pose proof (pending_nil q Hb ltac:(by apply Z.ltb_ge)) as Hp.
    split_and!; try done.
    + unfold bounds, out_used in *. cbn. unfold zlen in *. simpl. lia.
    + unfold stream. by rewrite Hp.
    + by left.
Qed.

(** The inline send loop: what was taken and what is queued, together, is a prefix of
    the data, and all of it on success. *)
Lemma send_loop_spec fuel q s buf off rc q' s' :
  (length (txs s) + (if (off <? zlen buf)%Z then 1 else 0) < fuel)%nat →
  bounds q → backlogged q = false → 0 <= off <= zlen buf →
  send_loop fuel q s buf off = (rc, q', s') →
  bounds q' ∧ out_close_when_drained q' = out_close_when_drained q ∧ rx s' = rx s ∧
  (rc = 0 ∨ rc = -1) ∧
  (rc = 0 → stream q' s' = tx s ++ zdrop off buf ∧ (backlogged q' = true → epollout s' = true)) ∧
  (rc = -1 → ∃ k, stream q' s' = tx s ++ take k (zdrop off buf)).
Proof.
  revert s off. induction fuel as [ | f IH]; intros s off Hf Hb Hq Ho; [lia |].
  pose proof (pending_nil q Hb Hq) as Hp. cbn [send_loop].
  destruct (off <? zlen buf) eqn:E; zbool; cycle 1.
  { intros [= <- <- <-]. split_and!; try done; [by left |]. intros _.
    rewrite Hq. split; [ | done]. unfold stream.
    by rewrite Hp, zdrop_ge by lia. }
  destruct (sys_send s _) as [r s1] eqn:ES.
  pose proof (sys_send_inv _ _ _ _ ES) as (R1 & P1 & C1 & M1 & HR).
  destruct r as [n | | ].
  - destruct HR as (Hn & HT & _). rewrite zlen_zdrop in Hn by lia.
    destruct (0 <? n) eqn:En; zbool.
    + intros H. pose proof (send_progress _ _ _ _ ES En) as Hpr.
      assert (Hsplit : zdrop off buf = ztake n (zdrop off buf) ++ zdrop (off + n) buf)
        by (rewrite <- (zdrop_zdrop n off) by lia; by rewrite ztake_zdrop).
      apply IH in H; [ | | done | done | lia]; cycle 1.
      { destruct Hpr as [Hpr | [Hpr ->]]; [split_if; lia |].
        rewrite zlen_zdrop by lia. rewrite (proj2 (Z.ltb_ge _ _)) by lia.
        unfold sys_send in ES. rewrite Hpr in ES. injection ES as <-. cbn. lia. }
      destruct H as (B' & D & RX & RC & R0 & RM). split_and!; try done; [congruence | |].
      * intros Hrc. destruct (R0 Hrc) as [ST EP]. split; [ | done].
        by rewrite ST, HT, <- app_assoc, <- Hsplit.
      * intros Hrc. destruct (RM Hrc) as [k ST].
        exists (length (ztake n (zdrop off buf)) + k)%nat.
        rewrite ST, HT, <- app_assoc. f_equal.
        by rewrite <- (take_app_add _ (zdrop (off + n) buf)), <- Hsplit.
    + intros [= <- <- <-]. split_and!; try done; [by right |]. intros _. exists 0%nat.
      assert (n = 0) as -> by lia. unfold stream. rewrite Hp, HT. unfold ztake. simpl.
      by rewrite !app_nil_r.
  - destruct HR as (HT & _).
    destruct (conn_out_append q s1 (zdrop off buf)) as [[rc1 q1] s2] eqn:EA.
    apply out_append_spec in EA as (B1 & D1 & T1 & X1 & E1 & C2 & R2 & HA); [ | done].
    destruct HA as [(-> & HPA) | (-> & HPA)]; cbn [negb Z.eqb].
    + unfold conn_set_epollout, sys_epoll_mod. rewrite C2.
      destruct (ctl s1) as [ | [ | ] ct]; intros [= <- <- <-];
        split_and!; try done; cbn; try congruence; try (by left); try (by right);
        unfold stream; cbn; rewrite T1, HT, HPA, Hp; cbn [app]; try done.
      intros _. exists (length (zdrop off buf)). by rewrite take_ge by done.
    + intros [= <- <- <-]. split_and!; try done; [congruence | by right | ].
      intros _. exists 0%nat. unfold stream. by rewrite T1, HT, HPA, Hp, take_0.
  - destruct HR as (HT & _). intros [= <- <- <-]. split_and!; try done; [by right |].
    intros _. exists 0%nat. unfold stream. by rewrite HT, Hp, take_0.
Qed.

Lemma conn_send_spec q s buf rc q' s' :
  out_ok q s → portico_conn_send q s buf = (rc, q', s') →
  bounds q' ∧ out_close_when_drained q' = out_close_when_drained q ∧ rx s' = rx s ∧
  (rc = 0 ∨ rc = -1) ∧
  (rc = 0 → stream q' s' = stream q s ++ buf ∧ out_ok q' s') ∧
  (rc = -1 → ∃ k, stream q' s' = stream q s ++ take k buf).
Proof.
  intros Hok. pose proof (out_ok_bounds _ _ Hok) as Hb. unfold portico_conn_send.
  destruct (backlogged q) eqn:Eq.
  - intros H. apply out_append_spec in H as (B1 & D1 & T1 & X1 & E1 & C1 & R1 & HA); [ | done].
    destruct HA as [(-> & HP) | (-> & HP)]; split_and!; try done; try (by left); try (by right).
    + intros _. unfold stream. rewrite T1, HP, app_assoc. split; [done |].
      apply out_ok_intro; [done |]. intros _. rewrite E1. by apply Hok.
    + intros _. exists 0%nat. unfold stream. by rewrite T1, HP, take_0, app_nil_r.
  - intros H. pose proof (zlen_nonneg buf).
    apply send_loop_spec in H; [ | | done | done | lia].
    2:{ unfold send_fuel. split_if; lia. }
    unfold stream. rewrite (pending_nil q Hb Eq), app_nil_r.
    destruct H as (B1 & D1 & R1 & RC & R0 & RM). split_and!; try done.
    intros Hrc. destruct (R0 Hrc) as [ST EP]. split; [done | by apply out_ok_intro].
Qed.

(** A send is FIFO: on success the peer's stream (bytes accepted by the kernel,
    then bytes queued) grows by exactly the data, nothing is reordered or lost, the
    queue stays within its capacity and the 4 MiB cap, and a backlog is always watched
    by EPOLLOUT; on failure the stream grows by at most a prefix of the data. *)
Theorem portico_conn_send_fifo q s buf rc q' s' :
  out_ok q s → portico_conn_send q s buf = (rc, q', s') →
  (rc = 0 ∧ stream q' s' = stream q s ++ buf ∧ out_ok q' s') ∨
  (rc = -1 ∧ ∃ k, stream q' s' = stream q s ++ take k buf).
Proof.
  intros Hok H. apply conn_send_spec in H as (_ & _ & _ & [Hrc | Hrc] & R0 & RM); [ | | done].
  - left. destruct (R0 Hrc). auto.
  - right. auto.
Qed.

Lemma portico_conn_send_fifo_witness :
  let s := mk_sys [] [TxTake 2; TxAgain] [9] false [] [] in
  let r := portico_conn_send outq_init s [1; 2; 3; 4; 5] in
  r.1.1 = 0 ∧ tx r.2 = [9; 1; 2] ∧ stream r.1.2 r.2 = [9] ++ [1; 2; 3; 4; 5].
Proof.
  cbv zeta. split; [reflexivity |]. split; [reflexivity |].
  destruct (portico_conn_send_fifo outq_init (mk_sys [] [TxTake 2; TxAgain] [9] false [] [])
     [1; 2; 3; 4; 5] _ _ _ (outq_init_ok _) eq_refl) as [(_ & H & _) | (H & _)];
    [exact H | discriminate H].
Defined.

(** Draining needs no watched backlog; it keeps one that is. *)
Lemma on_writable_bounds q s r q' s' :
  bounds q → on_writable_drain q s = (r, q', s') →
  bounds q' ∧ stream q' s' = stream q s ∧ rx s' = rx s ∧
  out_close_when_drained q' = out_close_when_drained q ∧
  match r with
  | Some rc => (rc = 0 ∧ backlogged q' = true ∧ (out_ok q s → out_ok q' s')) ∨
               (rc = -1 ∧ Exists (λ e, tx_fails e = true) (txs s))
  | None => backlogged q' = false ∧ pending q' = [] ∧ out_ok q' s'
  end.
Proof.
  intros Hb. unfold on_writable_drain, conn_out_drain.
  destruct (out_drain_loop _ q s) as [[rc q1] s1] eqn:ED.
  apply out_drain_loop_spec in ED; [ | unfold send_fuel; split_if; lia | done].
  destruct ED as (B1 & ST & D & EP & CT & RX & MM & RC & RF & RD & RB).
  destruct (rc <? 0) eqn:Erc; zbool.
  { intros [= <- <- <-]. split_and!; try done. right. split; [done |]. apply RF. lia. }
  destruct (backlogged q1) eqn:Eq.
  { intros [= <- <- <-]. split_and!; try done. left. split_and!; try done. intros Hok.
    apply out_ok_intro; [done |]. intros _. rewrite EP. apply Hok. auto. }
  unfold conn_set_epollout, sys_epoll_mod.
  intros H. assert (Hs : stream q1 s' = stream q s ∧ q' = q1 ∧ r = None ∧ rx s' = rx s).
  { destruct (ctl s1) as [ | [ | ] ct]; injection H as <- <- <-; unfold stream in *; cbn; auto. }
  destruct Hs as (HS & -> & -> & HR). split_and!; try done; [by apply pending_nil |].
  apply out_ok_intro; [done |]. by rewrite Eq.
Qed.

Lemma on_writable_spec q s r q' s' :
  out_ok q s → on_writable_drain q s = (r, q', s') →
  bounds q' ∧ stream q' s' = stream q s ∧ rx s' = rx s ∧
  out_close_when_drained q' = out_close_when_drained q ∧
  match r with
  | Some rc => (rc = 0 ∧ backlogged q' = true ∧ out_ok q' s') ∨
               (rc = -1 ∧ Exists (λ e, tx_fails e = true) (txs s))
  | None => backlogged q' = false ∧ pending q' = [] ∧ out_ok q' s'
  end.
Proof.
  intros Hok H. apply on_writable_bounds in H; [ | by eapply out_ok_bounds].
  destruct H as (H1 & H2 & H3 & H4 & H5). split_and!; try done. destruct r; [ | done]. tauto.
Qed.

(** *** Histories *)

(** The two things that happen to a connection's output: the application sends, the
    socket becomes writable. *)
Inductive out_op := OSend (buf : list Z) | OWritable.

(** [None]: the connection is closed. *)
Definition out_step (o : out_op) (q : outq) (s : sys) : option (outq * sys) :=
  match o with
  | OSend buf =>
      match portico_conn_send q s buf with
      | (rc, q', s') => if rc <? 0 then None else Some (q', s')
      end
  | OWritable =>
      match on_writable_drain q s with
      | (Some rc, q', s') => if rc <? 0 then None else Some (q', s')
      | (None, q', s') => if out_close_when_drained q' then None else Some (q', s')
      end
  end.

Fixpoint out_run (ops : list out_op) (q : outq) (s : sys) : option (outq * sys) :=
  match ops with
  | [] => Some (q, s)
  | o :: t => match out_step o q s with None => None | Some (q', s') => out_run t q' s' end
  end.

Definition sent_bytes (ops : list out_op) : list Z :=
  concat (map (λ o, match o with OSend b => b | OWritable => [] end) ops).

Lemma out_step_spec o q s q' s' :
  out_ok q s → out_step o q s = Some (q', s') →
  out_ok q' s' ∧ stream q' s' = stream q s ++ sent_bytes [o].
Proof.
  intros Hok. destruct o as [buf | ]; cbn [out_step]; unfold sent_bytes; cbn; rewrite app_nil_r.
  - destruct (portico_conn_send q s buf) as [[rc q1] s1] eqn:E.
    apply conn_send_spec in E as (_ & _ & _ & RC & R0 & _); [ | done].
    split_if; [done |]. intros [= <- <-]. zbool. destruct R0; [lia | done].
  - destruct (on_writable_drain q s) as [[r q1] s1] eqn:E.
    apply on_writable_spec in E as (B & ST & _ & _ & HR); [ | done].
    destruct r as [rc | ].
    + split_if; [done |]. intros [= <- <-]. zbool.
      destruct HR as [(_ & _ & ?) | (-> & _)]; [done | lia].
    + split_if; [done |]. intros [= <- <-]. by destruct HR as (_ & _ & ?).
Qed.

Lemma out_run_spec ops q s q' s' :
  out_ok q s → out_run ops q s = Some (q', s') →
  out_ok q' s' ∧ stream q' s' = stream q s ++ sent_bytes ops.
Proof.
  revert q s. induction ops as [ | o t IH]; intros q s Hok; cbn [out_run].
  - intros [= <- <-]. unfold sent_bytes. cbn. by rewrite app_nil_r.
  - destruct (out_step o q s) as [[q1 s1] | ] eqn:E; [ | done].
    apply out_step_spec in E as [Hok1 ST1]; [ | done]. intros H.
    apply IH in H as [Hok' ST']; [ | done]. split; [done |].
    rewrite ST', ST1, <- app_assoc. f_equal. unfold sent_bytes. cbn. by rewrite app_nil_r.
Qed.

(** C6. Every history of sends and writability events of a live connection delivers
    the concatenation of what was sent, in order: it is split between what the kernel
    accepted and the queue; and as soon as the kernel takes data again one writability
    event hands over all of it and empties the queue (no byte is stranded). *)
Theorem out_history_fifo ops s q' s' :
  out_run ops outq_init s = Some (q', s') →
  tx s' ++ pending q' = tx s ++ sent_bytes ops ∧ out_ok q' s' ∧
  (txs s' = [] →
   ∃ q2 s2, on_writable_drain q' s' = (None, q2, s2) ∧ pending q2 = [] ∧
            tx s2 = tx s ++ sent_bytes ops).
Proof.
  intros H. apply out_run_spec in H as [Hok ST]; [ | apply outq_init_ok].
  unfold stream in ST. cbn in ST. rewrite app_nil_r in ST.
  split_and!; [done | done |]. intros Htx.
  destruct (on_writable_drain q' s') as [[r q2] s2] eqn:E.
  assert (Hr : r = None).
  { unfold on_writable_drain, conn_out_drain in E.
    destruct (out_drain_loop _ q' s') as [[rc q1] s1] eqn:ED.
    apply out_drain_loop_spec in ED; [ | unfold send_fuel; split_if; lia | by eapply out_ok_bounds].
    destruct ED as (_ & _ & _ & _ & _ & _ & _ & RC & RF & RD & _). rewrite Htx in RF, RD.
    assert (rc = 0) as -> by (destruct RC as [ | Hm]; [done |]; by apply RF, Exists_nil in Hm).
    cbn in E. rewrite RD in E by done.
    destruct (conn_set_epollout s1 false). by injection E as <- _ _. }
  subst r. apply on_writable_spec in E as (_ & ST2 & _ & _ & _ & Hp & _); [ | done].
  exists q2, s2. split_and!; try done. unfold stream in ST2. rewrite Hp, app_nil_r in ST2. congruence.
Qed.

Lemma out_history_fifo_witness :
  let s := mk_sys [] [TxTake 1; TxAgain; TxTake 2; TxAgain] [] false [] [] in
  let ops := [OSend [1; 2; 3]; OSend [4; 5]; OWritable; OSend [6]] in
  ∃ q' s', out_run ops outq_init s = Some (q', s') ∧
    tx s' = [1; 2; 3] ∧ pending q' = [4; 5; 6] ∧
    tx s' ++ pending q' = tx s ++ sent_bytes ops.
Proof.
  cbv zeta. eexists _, _. split; [vm_compute; reflexivity |].
  split; [vm_compute; reflexivity |]. split; [vm_compute; reflexivity |].
  apply (out_history_fifo [OSend [1; 2; 3]; OSend [4; 5]; OWritable; OSend [6]]
     (mk_sys [] [TxTake 1; TxAgain; TxTake 2; TxAgain] [] false [] [])).
  vm_compute. reflexivity.
Defined.
