(* ===== verification/Conn.v ===== *)
(** * Connections (src/src/ws/ws_connection.c, src/src/ws/internal/ws_connection.h)

    The connection slot: its life cycle ([ws_connection_init], [ws_connection_cleanup],
    the reuse generation), reference counts, and the batching write buffer.  The
    global fd hash table is in ConnHash. *)
From Stdlib Require Import ZArith Lia.
From stdpp Require Import base numbers list strings.
From S2P Require Import Prelude Sys OutBuf.
Open Scope Z_scope.

(** [ws_state_t]. *)
Definition WS_STATE_CONNECTING : Z := 0.
Definition WS_STATE_OPEN : Z := 1.
Definition WS_STATE_CLOSING : Z := 2.
Definition WS_STATE_CLOSED : Z := 3.
Definition WS_STATE_HTTP : Z := 4.
Definition WS_STATE_TLS_HANDSHAKE : Z := 5.

(** The fragmentation part of [ws_frame_parser_t]; [fragment_buffer] holds the first
    [fragment_total_size] bytes of the heap block, [None] is NULL. *)
Record frame_parser := mk_parser {
  in_fragmented_message : bool;
  fragment_opcode : Z;
  fragment_buffer : option (list Z);
  fragment_buffer_size : Z;
  fragment_total_size : Z
}.
Definition parser_init : frame_parser := mk_parser false 0 None 0 0.

(** [struct ws_connection].  Buffers are the lists of their valid bytes (so
    [recv_buffer_used] and [write_buffer_used] are lengths); [write_buffer = None] is
    NULL; [file_stream] is the identity of a streamed response; [ssl] says whether a
    TLS object is attached. *)
Record ws_connection := mk_conn {
  fd : Z;
  state : Z;
  ref_count : Z;
  connect_time : Z;
  last_activity : Z;
  ping_sent_at : Z;
  thread_id : Z;
  pool_index : Z;
  generation : Z;
  client_addr : Z;
  parser : frame_parser;
  recv_buffer : list Z;
  recv_buffer_capacity : Z;
  write_buffer : option (list Z);
  syscall_count : Z;
  out : outq;
  http_async_inflight : bool;
  file_stream : option Z;
  user_data : Z;
  host : list Z;
  ssl : bool
}.

Definition set_state (c : ws_connection) v0 : ws_connection :=
  mk_conn (fd c) v0 (ref_count c) (connect_time c) (last_activity c) (ping_sent_at c) (thread_id c)
     (pool_index c) (generation c) (client_addr c) (parser c) (recv_buffer c)
     (recv_buffer_capacity c) (write_buffer c) (syscall_count c) (out c) (http_async_inflight
     c) (file_stream c) (user_data c) (host c) (ssl c).
Definition set_ref_count (c : ws_connection) v0 : ws_connection :=
  mk_conn (fd c) (state c) v0 (connect_time c) (last_activity c) (ping_sent_at c) (thread_id c)
     (pool_index c) (generation c) (client_addr c) (parser c) (recv_buffer c)
     (recv_buffer_capacity c) (write_buffer c) (syscall_count c) (out c) (http_async_inflight
     c) (file_stream c) (user_data c) (host c) (ssl c).
Definition set_activity (c : ws_connection) v0 v1 : ws_connection :=
  mk_conn (fd c) (state c) (ref_count c) (connect_time c) v0 v1 (thread_id c) (pool_index c)
     (generation c) (client_addr c) (parser c) (recv_buffer c) (recv_buffer_capacity c)
     (write_buffer c) (syscall_count c) (out c) (http_async_inflight c) (file_stream c)
     (user_data c) (host c) (ssl c).
Definition set_ping_sent (c : ws_connection) v0 : ws_connection :=
  mk_conn (fd c) (state c) (ref_count c) (connect_time c) (last_activity c) v0 (thread_id c)
     (pool_index c) (generation c) (client_addr c) (parser c) (recv_buffer c)
     (recv_buffer_capacity c) (write_buffer c) (syscall_count c) (out c) (http_async_inflight
     c) (file_stream c) (user_data c) (host c) (ssl c).
Definition set_client_addr (c : ws_connection) v0 : ws_connection :=
  mk_conn (fd c) (state c) (ref_count c) (connect_time c) (last_activity c) (ping_sent_at c)
     (thread_id c) (pool_index c) (generation c) v0 (parser c) (recv_buffer c)
     (recv_buffer_capacity c) (write_buffer c) (syscall_count c) (out c) (http_async_inflight
     c) (file_stream c) (user_data c) (host c) (ssl c).
Definition set_parser (c : ws_connection) v0 : ws_connection :=
  mk_conn (fd c) (state c) (ref_count c) (connect_time c) (last_activity c) (ping_sent_at c)
     (thread_id c) (pool_index c) (generation c) (client_addr c) v0 (recv_buffer c)
     (recv_buffer_capacity c) (write_buffer c) (syscall_count c) (out c) (http_async_inflight
     c) (file_stream c) (user_data c) (host c) (ssl c).
Definition set_recv (c : ws_connection) v0 v1 : ws_connection :=
  mk_conn (fd c) (state c) (ref_count c) (connect_time c) (last_activity c) (ping_sent_at c)
     (thread_id c) (pool_index c) (generation c) (client_addr c) (parser c) v0 v1 (write_buffer
     c) (syscall_count c) (out c) (http_async_inflight c) (file_stream c) (user_data c) (host
     c) (ssl c).
Definition set_wbuf (c : ws_connection) v0 v1 : ws_connection :=
  mk_conn (fd c) (state c) (ref_count c) (connect_time c) (last_activity c) (ping_sent_at c)
     (thread_id c) (pool_index c) (generation c) (client_addr c) (parser c) (recv_buffer c)
     (recv_buffer_capacity c) v0 v1 (out c) (http_async_inflight c) (file_stream c) (user_data
     c) (host c) (ssl c).
Definition set_out (c : ws_connection) v0 : ws_connection :=
  mk_conn (fd c) (state c) (ref_count c) (connect_time c) (last_activity c) (ping_sent_at c)
     (thread_id c) (pool_index c) (generation c) (client_addr c) (parser c) (recv_buffer c)
     (recv_buffer_capacity c) (write_buffer c) (syscall_count c) v0 (http_async_inflight c)
     (file_stream c) (user_data c) (host c) (ssl c).
Definition set_inflight (c : ws_connection) v0 : ws_connection :=
  mk_conn (fd c) (state c) (ref_count c) (connect_time c) (last_activity c) (ping_sent_at c)
     (thread_id c) (pool_index c) (generation c) (client_addr c) (parser c) (recv_buffer c)
     (recv_buffer_capacity c) (write_buffer c) (syscall_count c) (out c) v0 (file_stream c)
     (user_data c) (host c) (ssl c).
Definition set_stream (c : ws_connection) v0 : ws_connection :=
  mk_conn (fd c) (state c) (ref_count c) (connect_time c) (last_activity c) (ping_sent_at c)
     (thread_id c) (pool_index c) (generation c) (client_addr c) (parser c) (recv_buffer c)
     (recv_buffer_capacity c) (write_buffer c) (syscall_count c) (out c) (http_async_inflight
     c) v0 (user_data c) (host c) (ssl c).
Definition set_user_data (c : ws_connection) v0 : ws_connection :=
  mk_conn (fd c) (state c) (ref_count c) (connect_time c) (last_activity c) (ping_sent_at c)
     (thread_id c) (pool_index c) (generation c) (client_addr c) (parser c) (recv_buffer c)
     (recv_buffer_capacity c) (write_buffer c) (syscall_count c) (out c) (http_async_inflight
     c) (file_stream c) v0 (host c) (ssl c).
Definition set_host (c : ws_connection) v0 : ws_connection :=
  mk_conn (fd c) (state c) (ref_count c) (connect_time c) (last_activity c) (ping_sent_at c)
     (thread_id c) (pool_index c) (generation c) (client_addr c) (parser c) (recv_buffer c)
     (recv_buffer_capacity c) (write_buffer c) (syscall_count c) (out c) (http_async_inflight
     c) (file_stream c) (user_data c) v0 (ssl c).
Definition set_ssl (c : ws_connection) v0 : ws_connection :=
  mk_conn (fd c) (state c) (ref_count c) (connect_time c) (last_activity c) (ping_sent_at c)
     (thread_id c) (pool_index c) (generation c) (client_addr c) (parser c) (recv_buffer c)
     (recv_buffer_capacity c) (write_buffer c) (syscall_count c) (out c) (http_async_inflight
     c) (file_stream c) (user_data c) (host c) v0.

Definition recv_buffer_used (c : ws_connection) : Z := zlen (recv_buffer c).

(** [memset(conn, 0, sizeof)] with the generation put back. *)
Definition zero_conn (gen : Z) : ws_connection :=
  mk_conn 0 0 0 0 0 0 0 0 gen 0 parser_init [] 0 None 0 outq_init false None 0 [] false.

(** ** Life cycle *)

Definition WS_RECV_INITIAL : Z := 16384.

Definition ws_connection_init (c : ws_connection) (s : sys) (now fd' thread_id' pool_index' : Z)
    : ws_connection * sys :=
  let next_generation := u32 (generation c + 1) in
  let '(ok, s1) := sys_alloc s in
  (mk_conn (u32 fd') WS_STATE_CONNECTING 1 (u32 now) (u32 now) 0 thread_id' pool_index'
     next_generation 0 parser_init [] (if ok then WS_RECV_INITIAL else 0) None 0
     outq_init false None 0 [] false, s1).

Definition WS_DEFAULT_WRITE_BUFFER_SIZE : Z := 65536.

(** [ws_conn_socket_write]: a ssize_t, with the would-block case apart. *)
Definition ws_conn_socket_write (s : sys) (buf : list Z) : send_res * sys := sys_send s buf.

(** [ws_connection_flush_write_buffer]. *)
Definition ws_connection_flush_write_buffer (c : ws_connection) (s : sys)
    : Z * ws_connection * sys :=
  match write_buffer c with
  | None => (0, c, s)
  | Some w =>
      if zlen w =? 0 then (0, c, s)
      else
        let '(r, s1) := ws_conn_socket_write s w in
        let n := syscall_count c + 1 in
        match r with
        | SAgain => (0, set_wbuf c (Some w) n, s1)
        | SErr => (-1, set_wbuf c (Some w) n, s1)
        | SSent sent =>
            if sent <? zlen w then (sent, set_wbuf c (Some (zdrop sent w)) n, s1)
            else (sent, set_wbuf c (Some []) n, s1)
        end
  end.

Definition ws_connection_init_write_buffer (c : ws_connection) (s : sys)
    : Z * ws_connection * sys :=
  match write_buffer c with
  | Some _ => (0, c, s)
  | None =>
      let '(ok, s1) := sys_alloc s in
      if negb ok then (-1, c, s1) else (0, set_wbuf c (Some []) 0, s1)
  end.

(** The number a direct send returns: -1 on any error. *)
Definition send_count (r : send_res) : Z :=
  match r with SSent n => n | _ => -1 end.

Definition ws_connection_buffered_send (c : ws_connection) (s : sys) (data : list Z)
    : Z * ws_connection * sys :=
  let len := zlen data in
  if len =? 0 then (-1, c, s)
  else
    match ws_connection_init_write_buffer c s with
    | (rc, c1, s1) =>
        if negb (rc =? 0) then
          let '(r, s2) := ws_conn_socket_write s1 data in (send_count r, c1, s2)
        else
          let w := default [] (write_buffer c1) in
          if WS_DEFAULT_WRITE_BUFFER_SIZE <? len then
            let '(c2, s2) :=
              if 0 <? zlen w
              then let '(_, c2, s2) := ws_connection_flush_write_buffer c1 s1 in (c2, s2)
              else (c1, s1) in
            let '(r, s3) := ws_conn_socket_write s2 data in
            (send_count r, set_wbuf c2 (write_buffer c2) (syscall_count c2 + 1), s3)
          else if zlen w + len <=? WS_DEFAULT_WRITE_BUFFER_SIZE then
            (len, set_wbuf c1 (Some (w ++ data)) (syscall_count c1), s1)
          else
            match ws_connection_flush_write_buffer c1 s1 with
            | (flushed, c2, s2) =>
                if flushed <? 0 then (-1, c2, s2)
                else
                  let w2 := default [] (write_buffer c2) in
                  if WS_DEFAULT_WRITE_BUFFER_SIZE <? zlen w2 + len then (-1, c2, s2)
                  else (len, set_wbuf c2 (Some (w2 ++ data)) (syscall_count c2), s2)
            end
    end.

Definition ws_connection_cleanup_write_buffer (c : ws_connection) (s : sys)
    : ws_connection * sys :=
  let used := zlen (default [] (write_buffer c)) in
  let '(c1, s1) :=
    if 0 <? used
    then let '(_, c1, s1) := ws_connection_flush_write_buffer c s in (c1, s1)
    else (c, s) in
  (set_wbuf c1 None (syscall_count c1), s1).

(** [ws_connection_cleanup]: the write buffer is flushed, everything is freed and the
    slot is wiped except for its generation. *)
Definition ws_connection_cleanup (c : ws_connection) (s : sys) : ws_connection * sys :=
  let '(c1, s1) := ws_connection_cleanup_write_buffer c s in
  (zero_conn (generation c1), s1).

Definition ws_connection_set_state (c : ws_connection) (st : Z) : ws_connection := set_state c st.

Definition ws_connection_is_active (c : ws_connection) : bool :=
  (state c =? WS_STATE_CONNECTING) || (state c =? WS_STATE_OPEN).

(** ** Reference counting *)

Definition ws_connection_ref (c : ws_connection) : ws_connection :=
  set_ref_count c (u32 (ref_count c + 1)).

(** True if this was the last reference. *)
Definition ws_connection_unref (c : ws_connection) : bool * ws_connection :=
  (ref_count c =? 1, set_ref_count c (u32 (ref_count c - 1))).

Definition ws_connection_update_activity (c : ws_connection) (t : Z) : ws_connection :=
  set_activity c t (ping_sent_at c).

(** Any inbound byte refreshes the idle clock and answers an outstanding PING. *)
Definition ws_connection_add_bytes_received (c : ws_connection) (now : Z) : ws_connection :=
  set_activity c (u32 now) 0.
