(* ===== verification/ConnHash.v ===== *)
(** * The global fd hash table (src/src/ws/ws_connection.c, src/src/ws/ws_utils.c)

    256 buckets of (fd, connection) entries, chosen by FNV-1a of the descriptor; an
    insert appends, a remove moves the last entry into the hole.  Each operation runs
    under its bucket's lock, so a sequence of operations is a sequential history.  The
    theorems show that the table implements a finite map from descriptors to
    connections. *)
From Stdlib Require Import ZArith Lia.
From stdpp Require Import base numbers list gmap strings.
From S2P Require Import Prelude.
Open Scope Z_scope.

(** ** FNV-1a *)

Fixpoint fnv_loop (bytes : list Z) (hash : Z) : Z :=
  match bytes with
  | [] => hash
  | b :: t => fnv_loop t (u64 (Z.lxor hash b * 1099511628211))
  end.
Definition ws_fnv1a_hash (data : list Z) : Z := fnv_loop data 14695981039346656037.
Definition ws_fnv1a_hash_uint32 (value : Z) : Z := ws_fnv1a_hash (le_split 4 value).

(** [(hash_val >> 24) & 0xFF]. *)
Definition bucket_of (fd : Z) : nat :=
  Z.to_nat (Z.land (Z.shiftr (ws_fnv1a_hash_uint32 (u32 fd)) 24) 0xFF).

(** ** The table *)

(** An entry keys on the fd value; [conn] is the slot. *)
Record hash_entry := mk_entry { e_fd : Z; e_conn : Z }.

(** A bucket: [None] is the NULL of a bucket not allocated yet. *)
Record bucket := mk_bucket { entries : option (list hash_entry); capacity : Z }.

Record conn_hash := mk_hash {
  level1 : list bucket;
  total_connections : Z;
  hash_collisions : Z
}.

Definition ws_connection_hash_create : conn_hash :=
  mk_hash (repeat (mk_bucket None 0) 256) 0 0.

Definition get_bucket (h : conn_hash) (b : nat) : bucket :=
  default (mk_bucket None 0) (level1 h !! b).
Definition bucket_list (bk : bucket) : list hash_entry := default [] (entries bk).

(** [alloc_ok]: whether the allocation or growth of the bucket succeeds. *)
Definition ws_connection_hash_insert (alloc_ok : bool) (h : conn_hash) (fd conn : Z)
    : Z * conn_hash :=
  let b := bucket_of fd in
  let bk := get_bucket h b in
  let put bk' :=
    (0, mk_hash (<[b := mk_bucket (Some (bucket_list bk' ++ [mk_entry (u32 fd) conn]))
                          (capacity bk')]> (level1 h))
          (total_connections h + 1) (hash_collisions h)) in
  match entries bk with
  | None =>
      if negb alloc_ok then (-1, h) else put (mk_bucket (Some []) 32)
  | Some l =>
      if capacity bk <=? zlen l then
        let new_capacity := u32 (capacity bk * 2) in
        if negb alloc_ok then (-1, mk_hash (level1 h) (total_connections h) (hash_collisions h + 1))
        else put (mk_bucket (Some l) new_capacity)
      else put bk
  end.

(** The linear search of a bucket. *)
Fixpoint find_entry (l : list hash_entry) (fd : Z) : option Z :=
  match l with
  | [] => None
  | e :: t => if e_fd e =? fd then Some (e_conn e) else find_entry t fd
  end.

Definition ws_connection_hash_find (h : conn_hash) (fd : Z) : option Z :=
  if fd <? 0 then None
  else find_entry (bucket_list (get_bucket h (bucket_of fd))) (u32 fd).

(** The index the removal loop stops at. *)
Fixpoint find_index (l : list hash_entry) (fd : Z) : option nat :=
  match l with
  | [] => None
  | e :: t => if e_fd e =? fd then Some O else S <$> find_index t fd
  end.

(** Move the last entry into position [i] and shrink. *)
Definition swap_remove (i : nat) (l : list hash_entry) : list hash_entry :=
  let sizes := (length l - 1)%nat in
  if (i <? sizes)%nat
  then take sizes (<[i := default (mk_entry 0 0) (l !! sizes)]> l)
  else take sizes l.

Definition ws_connection_hash_remove (h : conn_hash) (fd : Z) : Z * conn_hash :=
  if fd <? 0 then (-1, h)
  else
    let b := bucket_of fd in
    let bk := get_bucket h b in
    match entries bk with
    | None => (-1, h)
    | Some l =>
        match find_index l (u32 fd) with
        | None => (-1, h)
        | Some i =>
            (0, mk_hash (<[b := mk_bucket (Some (swap_remove i l)) (capacity bk)]> (level1 h))
                  (total_connections h - 1) (hash_collisions h))
        end
    end.

(** ** Refinement to a finite map *)

(** [fd_ok]: the descriptors the kernel hands out. *)
Definition fd_ok (fd : Z) : Prop := 0 <= fd <= INT_MAX.

(** The table represents the map [m]. *)
Definition hash_rep (h : conn_hash) (m : gmap Z Z) : Prop :=
  length (level1 h) = 256%nat ∧
  total_connections h = Z.of_nat (size m) ∧
  (∀ b, NoDup (e_fd <$> bucket_list (get_bucket h b))) ∧
  (∀ b e, e ∈ bucket_list (get_bucket h b) → fd_ok (e_fd e) ∧ bucket_of (e_fd e) = b) ∧
  (∀ fd c, fd_ok fd →
     m !! fd = Some c ↔ mk_entry fd c ∈ bucket_list (get_bucket h (bucket_of fd))) ∧
  (∀ fd, is_Some (m !! fd) → fd_ok fd).

#[local] Opaque bucket_of.

Lemma fd_ok_u32 fd : fd_ok fd → u32 fd = fd.
Proof. unfold fd_ok, INT_MAX. intros. apply u32_small. lia. Qed.

Lemma bucket_of_lt fd : (bucket_of fd < 256)%nat.
Proof.
  Transparent bucket_of. unfold bucket_of. Opaque bucket_of. rewrite land_255_mod. lia.
Qed.

Lemma find_entry_spec l fd c :
  NoDup (e_fd <$> l) → find_entry l fd = Some c ↔ mk_entry fd c ∈ l.
Proof.
  induction l as [ | e t IH]; cbn; intros Hnd.
  - by rewrite elem_of_nil.
  - apply NoDup_cons in Hnd as [Hn Hnd]. rewrite elem_of_cons. destruct (_ =? fd) eqn:E; zbool.
    + destruct e as [f c']; cbn in *. subst f. split; [intros [= ->]; by left |].
      intros [[= ->] | Hin]; [done |]. exfalso. apply Hn.
      apply list_elem_of_fmap. by exists (mk_entry fd c).
    + rewrite IH by done. split; [auto |]. intros [He | ?]; [ | done]. by rewrite <- He in E.
Qed.

Lemma find_entry_none l fd : find_entry l fd = None ↔ fd ∉ (e_fd <$> l).
Proof.
  induction l as [ | e t IH]; cbn; [by rewrite elem_of_nil; split; [auto | done] |].
  rewrite not_elem_of_cons. destruct (_ =? fd) eqn:E; zbool.
  - split; [done |]. intros [H _]. by subst.
  - rewrite IH. split; [intros; split; [congruence | done] | by intros [_ ?]].
Qed.

Lemma find_index_lookup l fd i :
  find_index l fd = Some i → ∃ c, l !! i = Some (mk_entry fd c).
Proof.
  revert i. induction l as [ | e t IH]; intros i; cbn; [done |].
  destruct (_ =? fd) eqn:E; zbool.
  - intros [= <-]. exists (e_conn e). cbn. destruct e; cbn in *. by subst.
  - intros H. apply fmap_Some in H as (j & Hj & ->). by apply IH.
Qed.

Lemma find_index_none l fd : find_index l fd = None ↔ fd ∉ (e_fd <$> l).
Proof.
  induction l as [ | e t IH]; cbn; [by rewrite elem_of_nil; split; [auto | done] |].
  rewrite not_elem_of_cons. destruct (_ =? fd) eqn:E; zbool.
  - split; [done |]. intros [H _]. by subst.
  - rewrite fmap_None, IH. split; [intros; split; [congruence | done] | by intros [_ ?]].
Qed.

(** Removing by swapping is removing, up to order. *)
Lemma swap_remove_perm i l e : l !! i = Some e → l ≡ₚ e :: swap_remove i l.
Proof.
  intros Hi. pose proof (lookup_lt_Some _ _ _ Hi) as Hlt.
  unfold swap_remove. destruct (i <? length l - 1)%nat eqn:E.
  - apply Nat.ltb_lt in E.
    destruct (lookup_lt_is_Some_2 l (length l - 1)) as [z Hz]; [lia |]. rewrite Hz. cbn [default].
    assert (Hl : l = take (length l - 1) l ++ [z]).
    { rewrite <- (take_drop (length l - 1) l) at 1. f_equal.
      rewrite (drop_S _ z) by done. by rewrite drop_ge by lia. }
    set (n := (length l - 1)%nat) in *. 
    assert (Hi' : take n l !! i = Some e) by (by rewrite lookup_take_lt by lia).
    rewrite take_insert_lt by lia. rewrite Hl at 1.
    rewrite <- Permutation_middle, app_nil_r.
    rewrite (delete_Permutation (take n l) i e) at 1 by done.
    rewrite insert_take_drop by (rewrite length_take; lia).
    rewrite (delete_take_drop (take n l) i).
    rewrite <- Permutation_middle. apply perm_swap.
  - apply Nat.ltb_ge in E. assert (i = length l - 1)%nat as -> by lia.
    rewrite <- (take_drop (length l - 1) l) at 1.
    rewrite (drop_S _ e) by done. rewrite drop_ge by lia.
    by rewrite <- Permutation_middle, app_nil_r.
Qed.

Lemma get_bucket_insert h b bk t c b' :
  (b < length (level1 h))%nat →
  get_bucket (mk_hash (<[b := bk]> (level1 h)) t c) b' =
  if decide (b = b') then bk else get_bucket h b'.
Proof.
  intros Hb. unfold get_bucket. cbn. rewrite list_lookup_insert.
  repeat case_decide; try done; lia.
Qed.

Lemma hash_create_rep : hash_rep ws_connection_hash_create ∅.
Proof.
  assert (Hb : ∀ b, bucket_list (get_bucket ws_connection_hash_create b) = []).
  { intros b. unfold get_bucket, ws_connection_hash_create. cbn [level1].
    destruct (repeat _ _ !! b) eqn:E; [ | done].
    apply list_elem_of_lookup_2, list_elem_of_In, repeat_spec in E. by subst. }
  split; [done |]. split; [by rewrite map_size_empty |]. split_and!.
  - intros b. rewrite Hb. constructor.
  - intros b e. rewrite Hb, elem_of_nil. done.
  - intros fd c _. rewrite Hb, elem_of_nil, lookup_empty. done.
  - intros fd. rewrite lookup_empty. by intros [].
Qed.

Lemma hash_find_rep h m fd : hash_rep h m → fd_ok fd → ws_connection_hash_find h fd = m !! fd.
Proof.
  intros (HL & HT & HN & HB & HM & HF) Hfd. unfold ws_connection_hash_find.
  rewrite (proj2 (Z.ltb_ge fd 0)) by (unfold fd_ok in Hfd; lia). rewrite fd_ok_u32 by done.
  apply option_eq. intros c. rewrite find_entry_spec by done. symmetry. by apply HM.
Qed.

(** The bucket after an insertion, whichever way room was made. *)
Lemma hash_put_rep h m fd c cap coll :
  hash_rep h m → fd_ok fd → m !! fd = None →
  hash_rep (mk_hash (<[bucket_of fd :=
      mk_bucket (Some (bucket_list (get_bucket h (bucket_of fd)) ++ [mk_entry (u32 fd) c])) cap]>
      (level1 h)) (total_connections h + 1) coll) (<[fd := c]> m).
Proof.
  intros (HL & HT & HN & HB & HM & HF) Hfd Hm. rewrite fd_ok_u32 by done.
  pose proof (bucket_of_lt fd) as Hlt.
  set (b := bucket_of fd) in *. set (l := bucket_list (get_bucket h b)) in *.
  assert (Hfresh : fd ∉ (e_fd <$> l)).
  { intros H. apply list_elem_of_fmap in H as (e & -> & He). destruct e as [f c'].
    apply (HM f c' Hfd) in He. cbn in Hm. congruence. }
  split; [cbn; by rewrite length_insert |]. split; [cbn; rewrite map_size_insert_None by done; lia |].
  split_and!.
  - intros b'. rewrite get_bucket_insert by lia. case_decide; [ | apply HN].
    cbn. rewrite fmap_app. apply NoDup_app. split_and!; [apply HN | | apply NoDup_singleton].
    intros x Hx. cbn. rewrite list_elem_of_singleton. by intros ->.
  - intros b' e. rewrite get_bucket_insert by lia. case_decide; [ | apply HB]. subst b'. cbn.
    rewrite elem_of_app, list_elem_of_singleton. intros [He | ->]; [by apply HB | done].
  - intros fd' c' Hfd'. rewrite get_bucket_insert by lia.
    destruct (decide (fd = fd')) as [<- | Hne].
    + rewrite lookup_insert_eq. rewrite decide_True by done. cbn. rewrite elem_of_app, list_elem_of_singleton.
      split; [intros [= ->]; by right |]. intros [He | [= ->]]; [ | done].
      apply (HM fd c' Hfd) in He. congruence.
    + rewrite lookup_insert_ne by done. rewrite HM by done. case_decide as Hb; [ | done].
      rewrite <- Hb. cbn. rewrite elem_of_app, list_elem_of_singleton.
      split; [by left |]. intros [? | [= -> _]]; done.
  - intros fd'. destruct (decide (fd = fd')) as [<- | Hne]; [done |].
    rewrite lookup_insert_ne by done. apply HF.
Qed.

Lemma hash_insert_rep ok h m fd c rc h' :
  hash_rep h m → fd_ok fd → m !! fd = None →
  ws_connection_hash_insert ok h fd c = (rc, h') →
  (rc = 0 ∧ hash_rep h' (<[fd := c]> m)) ∨ (rc = -1 ∧ ok = false ∧ hash_rep h' m).
Proof.
  intros Hr Hfd Hm. unfold ws_connection_hash_insert.
  assert (Hput := λ cap, hash_put_rep h m fd c cap (hash_collisions h) Hr Hfd Hm).
  destruct (get_bucket h (bucket_of fd)) as [[l | ] cap] eqn:E;
    cbn [entries capacity] in *; unfold bucket_list in *; cbn [entries default] in *.
  - split_ifs; intros [= <- <-].
    + right. destruct ok; [done |]. do 2 (split; [done |]).
      destruct Hr as (HL & HT & Hrest). do 2 (split; [done |]). apply Hrest.
    + left. split; [done | apply Hput].
    + left. split; [done | apply Hput].
  - split_ifs; intros [= <- <-]; [right | left].
    + by destruct ok.
    + split; [done | apply Hput].
Qed.

Lemma hash_remove_rep h m fd :
  hash_rep h m → fd_ok fd →
  (∃ c h', m !! fd = Some c ∧ ws_connection_hash_remove h fd = (0, h') ∧ hash_rep h' (delete fd m)) ∨
  (m !! fd = None ∧ ws_connection_hash_remove h fd = (-1, h)).
Proof.
  intros Hr Hfd. pose proof Hr as (HL & HT & HN & HB & HM & HF).
  unfold ws_connection_hash_remove. rewrite (proj2 (Z.ltb_ge fd 0)) by (unfold fd_ok in Hfd; lia).
  rewrite fd_ok_u32 by done. pose proof (bucket_of_lt fd) as Hlt.
  set (b := bucket_of fd) in *.
  specialize (HN b) as HNb.
  destruct (get_bucket h b) as [ol cap] eqn:Eb. cbn [entries capacity bucket_list] in *.
  assert (HMb : ∀ c, m !! fd = Some c ↔ mk_entry fd c ∈ default [] ol)
    by (intros c; rewrite (HM fd c Hfd); fold b; by rewrite Eb).
  destruct ol as [l | ]; cbn [default] in *; [ | right].
  2:{ split; [ | done]. destruct (m !! fd) eqn:Em; [ | done].
      exfalso. by apply (elem_of_nil (mk_entry fd z)), HMb. }
  destruct (find_index l fd) as [i | ] eqn:Ei; [left | right]; cycle 1.
  { split; [ | done]. destruct (m !! fd) eqn:Em; [ | done]. exfalso.
    apply find_index_none in Ei. apply Ei, list_elem_of_fmap.
    exists (mk_entry fd z). split; [done |]. by apply HMb. }
  destruct (find_index_lookup _ _ _ Ei) as [c Hc]. exists c.
  assert (Hmc : m !! fd = Some c) by (apply HMb; by apply list_elem_of_lookup_2 in Hc).
  pose proof (swap_remove_perm i l _ Hc) as Hp. set (l' := swap_remove i l) in *.
  assert (HND : NoDup (e_fd <$> (mk_entry fd c :: l')))
    by (rewrite <- Hp; done).
  cbn in HND. apply NoDup_cons in HND as [Hnin HND].
  eexists. split; [done |]. split; [done |].
  split; [cbn; by rewrite length_insert |].
  split; [cbn; rewrite map_size_delete_Some by eauto; pose proof (map_size_ne_0_lookup_2 m fd ltac:(eauto)); lia |].
  split_and!.
  - intros b'. rewrite get_bucket_insert by lia. case_decide; [done | apply HN].
  - intros b' e. rewrite get_bucket_insert by lia. case_decide as Hb'; [ | apply HB]. cbn.
    intros He. subst b'. apply HB. rewrite Eb. cbn. rewrite Hp. by right.
  - intros fd' c' Hfd'. rewrite get_bucket_insert by lia.
    destruct (decide (fd = fd')) as [<- | Hne].
    + rewrite lookup_delete_eq, decide_True by done. cbn. split; [done |].
      intros He. exfalso. apply Hnin, list_elem_of_fmap. by exists (mk_entry fd c').
    + rewrite lookup_delete_ne by done. rewrite HM by done. case_decide as Hb'; [ | done].
      rewrite <- Hb', Eb. cbn. rewrite Hp, elem_of_cons. split; [ | by right].
      intros [[= -> _] | ?]; done.
  - intros fd'. destruct (decide (fd = fd')) as [<- | Hne]; [done |].
    rewrite lookup_delete_ne by done. apply HF.
Qed.

(** ** Histories of operations *)

Inductive hop :=
| HInsert (ok : bool) (fd conn : Z)
| HFind (fd : Z)
| HRemove (fd : Z).

(** What the table answers. *)
Definition hash_op (o : hop) (h : conn_hash) : option Z * conn_hash :=
  match o with
  | HInsert ok fd c => let '(rc, h') := ws_connection_hash_insert ok h fd c in (Some rc, h')
  | HFind fd => (ws_connection_hash_find h fd, h)
  | HRemove fd => let '(rc, h') := ws_connection_hash_remove h fd in (Some rc, h')
  end.

(** What a finite map answers. *)
Definition map_op (o : hop) (m : gmap Z Z) : option Z * gmap Z Z :=
  match o with
  | HInsert ok fd c =>
      if ok then (Some 0, <[fd := c]> m) else (Some (-1), m)
  | HFind fd => (m !! fd, m)
  | HRemove fd => match m !! fd with Some _ => (Some 0, delete fd m) | None => (Some (-1), m) end
  end.

(** A history the server produces: valid descriptors, and an fd is inserted only while
    it is not in the table; insertions may fail only when memory does. *)
Fixpoint hist_ok (ops : list hop) (m : gmap Z Z) : Prop :=
  match ops with
  | [] => True
  | o :: t =>
      match o with
      | HInsert ok fd _ => fd_ok fd ∧ m !! fd = None ∧ ok = true
      | HFind fd | HRemove fd => fd_ok fd
      end ∧ hist_ok t (map_op o m).2
  end.

Fixpoint hash_run (ops : list hop) (h : conn_hash) : list (option Z) :=
  match ops with [] => [] | o :: t => (hash_op o h).1 :: hash_run t (hash_op o h).2 end.
Fixpoint map_run (ops : list hop) (m : gmap Z Z) : list (option Z) :=
  match ops with [] => [] | o :: t => (map_op o m).1 :: map_run t (map_op o m).2 end.

Lemma hash_run_rep ops h m : hash_rep h m → hist_ok ops m → hash_run ops h = map_run ops m.
Proof.
  revert h m. induction ops as [ | o t IH]; intros h m Hr Hok; [done |].
  cbn [hist_ok hash_run map_run] in *. destruct Hok as [Ho Ht].
  destruct o as [ok fd c | fd | fd]; cbn [hash_op map_op] in *.
  - destruct Ho as (Hfd & Hm & ->).
    destruct (ws_connection_hash_insert true h fd c) as [rc h'] eqn:E.
    apply (hash_insert_rep _ _ m) in E as [[-> Hr'] | (_ & ? & _)]; [ | done..].
    cbn in *. f_equal. by apply IH.
  - rewrite (hash_find_rep h m) by done. cbn in *. f_equal. by apply IH.
  - destruct (hash_remove_rep h m fd Hr Ho) as [(c & h' & Hm & -> & Hr') | (Hm & ->)];
      rewrite Hm in *; cbn in *; f_equal; by apply IH.
Qed.



(** ** Creation and destruction *)

(** The bucket locks, by number; [pthread_rwlock_destroy] of lock [j]. *)
Definition destroy_lock (live : list nat) (j : nat) : list nat := filter (λ i, i ≠ j) live.

(** The loop of [ws_connection_hash_create] from bucket [i] on: whether all locks could be
    initialised, and the locks that are left; a failure destroys the ones before. *)
Fixpoint init_locks (ok : nat → bool) (left i : nat) (live : list nat) : bool * list nat :=
  match left with
  | O => (true, live)
  | S n => if ok i then init_locks ok n (S i) (live ++ [i]) else (false, fold_left destroy_lock (seq 0 i) live)
  end.

Definition hash_create (mem : bool) (ok : nat → bool) : option conn_hash * list nat :=
  if negb mem then (None, [])
  else let '(all, live) := init_locks ok 256 0 [] in ((if all then Some ws_connection_hash_create else None), live).

(** [ws_connection_hash_destroy]: the buckets freed and the locks left. *)
Definition ws_connection_hash_destroy (h : conn_hash) (live : list nat) : list nat * list nat :=
  (filter (λ i, is_Some (entries (get_bucket h i))) (seq 0 256), fold_left destroy_lock (seq 0 256) live).

Lemma destroy_locks l live : (∀ i, i ∈ live → i ∈ l) → fold_left destroy_lock l live = [].
Proof.
  revert live. induction l as [ | j l IH]; intros live Hl; cbn [fold_left].
  - destruct live as [ | i live]; [done |]. exfalso. apply (not_elem_of_nil i), Hl. by left.
  - apply IH. intros i Hi. unfold destroy_lock in Hi. apply list_elem_of_filter in Hi as [Hne Hi]. apply Hl in Hi.
    apply elem_of_cons in Hi as [ | ]; [done | done].
Qed.

Lemma init_locks_spec ok left i :
  init_locks ok left i (seq 0 i) = (true, seq 0 (i + left)) ∨ (init_locks ok left i (seq 0 i)).1 = false ∧ (init_locks ok left i (seq 0 i)).2 = [].
Proof.
  revert i. induction left as [ | n IH]; intros i; cbn [init_locks]; [left; by rewrite Nat.add_0_r |].
  destruct (ok i).
  - change [i] with (seq (0 + i) 1). rewrite <- seq_app. rewrite Nat.add_1_r. replace (i + S n)%nat with (S i + n)%nat by lia. apply IH.
  - right. split; [done |]. by apply destroy_locks.
Qed.

(** A table that cannot be created leaves no lock behind; one that was created has all its
    locks, and its destruction leaves none and frees the buckets that were allocated, each
    once. *)
Theorem hash_gives_back mem ok h live :
  hash_create mem ok = (h, live) →
  match h with
  | None => live = []
  | Some _ => live = seq 0 256 ∧ ∀ h',
      let '(freed, rest) := ws_connection_hash_destroy h' live in
      rest = [] ∧ NoDup freed ∧ ∀ i, i ∈ freed ↔ (i < 256)%nat ∧ is_Some (entries (get_bucket h' i))
  end.
Proof.
  unfold hash_create. destruct mem; [ | by intros [= <- <-]]. cbn [negb]. destruct (init_locks_spec ok 256 0) as [E | [E1 E2]]; cbn [seq] in *.
  - rewrite E. intros [= <- <-]. split; [done |]. intros h'. unfold ws_connection_hash_destroy. split; [by apply destroy_locks |].
    split; [apply NoDup_filter, NoDup_seq |]. intros i. rewrite list_elem_of_filter, elem_of_seq. split; intros [? ?]; split; try done; lia.
  - destruct (init_locks ok 256 0 []) as [all l]. cbn in E1, E2. subst. by intros [= <- <-].
Qed.

(** Only the bucket in use is freed. *)
Lemma hash_gives_back_witness :
  let h := (ws_connection_hash_insert true ws_connection_hash_create 5 0).2 in
  ∃ freed, ws_connection_hash_destroy h (seq 0 256) = (freed, []) ∧ ∀ i, i ∈ freed ↔ (i < 256)%nat ∧ is_Some (entries (get_bucket h i)).
Proof.
  intros h. destruct (hash_create true (λ _, true)) as [o live] eqn:E.
  pose proof (hash_gives_back true (λ _, true) o live E) as H. assert (Eo : o = Some ws_connection_hash_create) by (apply (f_equal fst) in E; vm_compute in E; by rewrite <- E).
  subst o. destruct H as [-> H]. specialize (H h). destruct (ws_connection_hash_destroy h (seq 0 256)) as [freed rest]. destruct H as (-> & _ & H). by exists freed.
Defined.
