(* ===== verification/WsHandler.v ===== *)
(** * WebSocket connections (src/src/ws/ws_connection_handler.c, src/src/ws/ws_frame.c)

    The frame senders, the dispatch of received frames, message reassembly, and the
    edge-triggered read loop that feeds them.  A connection's world is its slot, the
    kernel's view of its socket and the trace of application callbacks. *)
From Stdlib Require Import ZArith Lia.
From stdpp Require Import base numbers list strings.
From S2P Require Import Prelude Sys Frame Utf8 OutBuf Conn.
Open Scope Z_scope.

(** ** Data *)

(** Calls into the application. *)
Inductive event :=
| EvConnect
| EvText (payload : list Z)
| EvBinary (payload : list Z)
| EvPing (payload : list Z)
| EvPong (payload : list Z)
| EvClose (code : Z) (reason : list Z)
| EvDisconnect.

(** Which callbacks the application registered, and the configured message limit. *)
Record server_cfg := mk_cfg {
  on_connect : bool;
  on_text_message : bool;
  on_binary_message : bool;
  on_ping : bool;
  on_pong : bool;
  on_close : bool;
  max_message_size : Z
}.

Record cw := mk_cw { w_conn : ws_connection; w_sys : sys; w_ev : list event }.

Definition with_conn (w : cw) (c : ws_connection) : cw := mk_cw c (w_sys w) (w_ev w).
Definition with_sys (w : cw) (s : sys) : cw := mk_cw (w_conn w) s (w_ev w).
Definition log_ev (w : cw) (e : event) : cw := mk_cw (w_conn w) (w_sys w) (w_ev w ++ [e]).
Definition alloc (w : cw) : bool * cw :=
  let '(ok, s) := sys_alloc (w_sys w) in (ok, with_sys w s).

(** [ws_close_code_t]. *)
Definition WS_CLOSE_NORMAL : Z := 1000.
Definition WS_CLOSE_PROTOCOL_ERROR : Z := 1002.
Definition WS_CLOSE_INVALID_UTF8 : Z := 1007.
Definition WS_CLOSE_MESSAGE_TOO_BIG : Z := 1009.
Definition WS_FRAME_CLOSE_REQUESTED : Z := -2.

(** ** Frame senders *)

(** Encode, write once through the socket chokepoint, and succeed only if the whole
    frame was taken: the common body of the four data and control senders. *)
Definition send_whole_frame (op : Z) (w : cw) (data : list Z) : Z * cw :=
  let '(ok, w1) := alloc w in
  match ws_encode_frame ok op data with
  | None => (-1, w1)
  | Some frame =>
      let '(r, s2) := ws_conn_socket_write (w_sys w1) frame in
      ((if send_count r =? zlen frame then 0 else -1), with_sys w1 s2)
  end.

Definition ws_send_text_frame := send_whole_frame WS_OPCODE_TEXT.
Definition ws_send_binary_frame := send_whole_frame WS_OPCODE_BINARY.
Definition ws_send_ping_frame := send_whole_frame WS_OPCODE_PING.
Definition ws_send_pong_frame := send_whole_frame WS_OPCODE_PONG.

Definition close_payload (code : Z) (reason : list Z) : list Z :=
  [Z.land (Z.shiftr code 8) 0xFF; Z.land code 0xFF] ++ reason.

(** [ws_send_close_frame]; code 0 is the sentinel for an empty payload. *)
Definition ws_send_close_frame (w : cw) (code : Z) (reason : list Z) : Z * cw :=
  if code =? 0 then send_whole_frame WS_OPCODE_CLOSE w []
  else
    let '(ok, w1) := alloc w in
    if negb ok then (-1, w1)
    else send_whole_frame WS_OPCODE_CLOSE w1 (close_payload code reason).

(** *** Buffered senders *)

Definition send_buffered (op : Z) (w : cw) (data : list Z) : Z * cw :=
  let '(ok, w1) := alloc w in
  match ws_encode_frame ok op data with
  | None => (-1, w1)
  | Some frame =>
      match ws_connection_buffered_send (w_conn w1) (w_sys w1) frame with
      | (rc, c2, s2) =>
          ((if rc =? i32 (zlen frame) then 0 else -1), mk_cw c2 s2 (w_ev w1))
      end
  end.

Definition ws_send_text_frame_buffered := send_buffered WS_OPCODE_TEXT.
Definition ws_send_binary_frame_buffered := send_buffered WS_OPCODE_BINARY.
Definition ws_send_ping_buffered := send_buffered WS_OPCODE_PING.
Definition ws_send_pong_buffered := send_buffered WS_OPCODE_PONG.

(** [ws_send_close_buffered]: the reason is cut to 123 bytes, and the buffer flushed. *)
Definition ws_send_close_buffered (w : cw) (code : Z) (reason : list Z) : Z * cw :=
  let payload := if code =? 0 then [] else close_payload code (ztake 123 reason) in
  let '(ok, w1) := alloc w in
  match ws_encode_frame ok WS_OPCODE_CLOSE payload with
  | None => (-1, w1)
  | Some frame =>
      match ws_connection_buffered_send (w_conn w1) (w_sys w1) frame with
      | (rc, c2, s2) =>
          let '(_, c3, s3) := ws_connection_flush_write_buffer c2 s2 in
          ((if rc =? i32 (zlen frame) then 0 else -1), mk_cw c3 s3 (w_ev w1))
      end
  end.

(** ** Received frames *)

Definition cleanup_fragmentation_state (c : ws_connection) : ws_connection :=
  set_parser c parser_init.

Definition ws_fail_connection (w : cw) (code : Z) : Z * cw :=
  let w1 := with_conn w (ws_connection_set_state (w_conn w) WS_STATE_CLOSING) in
  let '(_, w2) := ws_send_close_frame w1 code [] in
  (WS_FRAME_CLOSE_REQUESTED, w2).

Definition ws_close_code_valid (code : Z) : bool :=
  if (3000 <=? code) && (code <=? 4999) then true
  else bool_decide (code ∈ [1000; 1001; 1002; 1003; 1007; 1008; 1009; 1010; 1011]).

Definition process_fragmented_frame (cfg : server_cfg) (w : cw) (f : ws_frame) : Z * cw :=
  let c := w_conn w in
  let p := parser c in
  if in_fragmented_message p then (-1, w)
  else if fin f =? 0 then
    let initial_size := if 65536 <? payload_len f then payload_len f * 2 else 65536 in
    let '(ok, w1) := alloc w in
    if negb ok then
      (-1, with_conn w1 (set_parser c
             (mk_parser false (opcode f) None (fragment_buffer_size p) (payload_len f))))
    else
      (0, with_conn w1 (set_parser c
             (mk_parser true (opcode f) (Some (payload f)) initial_size (payload_len f))))
  else if (opcode f =? WS_OPCODE_TEXT) && (ws_utf8_valid (payload f) =? 0) then
    ws_fail_connection w WS_CLOSE_INVALID_UTF8
  else if (opcode f =? WS_OPCODE_TEXT) && on_text_message cfg then
    let '(ok, w1) := alloc w in
    if negb ok then (-1, w1) else (0, log_ev w1 (EvText (payload f)))
  else if (opcode f =? WS_OPCODE_BINARY) && on_binary_message cfg then
    (0, log_ev w (EvBinary (payload f)))
  else (0, w).

Definition process_continuation_frame (cfg : server_cfg) (w : cw) (f : ws_frame) : Z * cw :=
  let c := w_conn w in
  let p := parser c in
  if negb (in_fragmented_message p) then (-1, w)
  else if u64 (max_message_size cfg - fragment_total_size p) <? payload_len f then
    ws_fail_connection (with_conn w (cleanup_fragmentation_state c)) WS_CLOSE_MESSAGE_TOO_BIG
  else
    let needed_size := fragment_total_size p + payload_len f in
    let '(ok, size', w1) :=
      if fragment_buffer_size p <? needed_size
      then let '(ok, w1) := alloc w in (ok, needed_size * 2, w1)
      else (true, fragment_buffer_size p, w) in
    if negb ok then (-1, with_conn w1 (cleanup_fragmentation_state c))
    else
      let data := default [] (fragment_buffer p) ++ payload f in
      let total := fragment_total_size p + payload_len f in
      let c2 := set_parser c (mk_parser true (fragment_opcode p) (Some data) size' total) in
      let w2 := with_conn w1 c2 in
      if fin f =? 0 then (0, w2)
      else if (fragment_opcode p =? WS_OPCODE_TEXT) && (ws_utf8_valid data =? 0) then
        ws_fail_connection (with_conn w2 (cleanup_fragmentation_state c2)) WS_CLOSE_INVALID_UTF8
      else
        let w3 :=
          if (fragment_opcode p =? WS_OPCODE_TEXT) && on_text_message cfg then
            let '(ok2, w3) := alloc w2 in if ok2 then log_ev w3 (EvText data) else w3
          else if (fragment_opcode p =? WS_OPCODE_BINARY) && on_binary_message cfg then
            log_ev w2 (EvBinary data)
          else w2 in
        (0, with_conn w3 (cleanup_fragmentation_state (w_conn w3))).

(** The Close case of [process_websocket_frame]. *)
Definition process_close_frame (cfg : server_cfg) (w : cw) (f : ws_frame) : Z * cw :=
  if payload_len f =? 1 then ws_fail_connection w WS_CLOSE_PROTOCOL_ERROR
  else
    let close_code := if 2 <=? payload_len f
                      then u16 (Z.lor (Z.shiftl (rd (payload f) 0) 8) (rd (payload f) 1))
                      else WS_CLOSE_NORMAL in
    let reason := zdrop 2 (payload f) in
    if (2 <=? payload_len f) && negb (ws_close_code_valid close_code) then
      ws_fail_connection w WS_CLOSE_PROTOCOL_ERROR
    else if (2 <=? payload_len f) && (0 <? payload_len f - 2) && (ws_utf8_valid reason =? 0) then
      ws_fail_connection w WS_CLOSE_INVALID_UTF8
    else
      let w1 := with_conn w (ws_connection_set_state (w_conn w) WS_STATE_CLOSING) in
      let '(_, w2) := if 2 <=? payload_len f then ws_send_close_frame w1 close_code []
                      else ws_send_close_frame w1 0 [] in
      let w3 := if on_close cfg then log_ev w2 (EvClose close_code []) else w2 in
      (WS_FRAME_CLOSE_REQUESTED, w3).

Definition process_websocket_frame (cfg : server_cfg) (w : cw) (f : ws_frame) : Z * cw :=
  if (8 <=? opcode f) && ((fin f =? 0) || (125 <? payload_len f)) then
    ws_fail_connection w WS_CLOSE_PROTOCOL_ERROR
  else if (opcode f =? WS_OPCODE_TEXT) || (opcode f =? WS_OPCODE_BINARY) then
    process_fragmented_frame cfg w f
  else if opcode f =? WS_OPCODE_PING then
    let '(rc, w1) := ws_send_pong_frame w (payload f) in
    if rc <? 0 then (-1, w1) else (0, w1)
  else if opcode f =? WS_OPCODE_PONG then
    (0, if on_pong cfg then log_ev w (EvPong (payload f)) else w)
  else if opcode f =? WS_OPCODE_CLOSE then process_close_frame cfg w f
  else if opcode f =? WS_OPCODE_CONTINUATION then process_continuation_frame cfg w f
  else (-1, w).

(** ** The read loop *)

Section ReadLoop.
Context (cpu : cpu) (cfg : server_cfg) (now : Z).

(** Drop the first [offset] bytes of the receive buffer. *)
Definition consume (c : ws_connection) (offset : Z) : ws_connection :=
  if 0 <? offset then
    if offset <? recv_buffer_used c
    then set_recv c (zdrop offset (recv_buffer c)) (recv_buffer_capacity c)
    else set_recv c [] (recv_buffer_capacity c)
  else c.

(** The [while (offset < recv_buffer_used)] loop with the compaction behind it:
    [None] when the read loop goes on, [Some rc] when the handler returns [rc].  Each
    frame consumes at least six bytes, so the buffer's length is enough fuel. *)
Fixpoint frames_loop (fuel : nat) (w : cw) (offset : Z) : option Z * cw :=
  match fuel with
  | O => (Some (-1), w)
  | S n =>
      let c := w_conn w in
      if offset <? recv_buffer_used c then
        match ws_parse_frame cpu (zdrop offset (recv_buffer c)) (max_message_size cfg) with
        | (parse_result, f, data') =>
            let c1 := set_recv c (ztake offset (recv_buffer c) ++ data') (recv_buffer_capacity c) in
            if parse_result <? 0 then
              (Some (-1), with_conn w (set_recv c1 [] (recv_buffer_capacity c1)))
            else if parse_result =? 0 then
              (None, with_conn w
                 (if 0 <? offset
                  then set_recv c1 (zdrop offset (recv_buffer c1)) (recv_buffer_capacity c1)
                  else c1))
            else
              let '(proc, w2) := process_websocket_frame cfg (with_conn w c1) f in
              if proc =? WS_FRAME_CLOSE_REQUESTED then (Some WS_FRAME_CLOSE_REQUESTED, w2)
              else if proc <? 0 then
                (Some (-1), with_conn w2 (set_recv (w_conn w2) [] (recv_buffer_capacity (w_conn w2))))
              else frames_loop n w2 (offset + parse_result)
        end
      else (None, with_conn w (consume c offset))
  end.

(** Make room: [None] when the connection must be dropped. *)
Definition grow_recv (hard_max : Z) (w : cw) : option cw * cw :=
  let c := w_conn w in
  if recv_buffer_used c =? recv_buffer_capacity c then
    if hard_max <=? recv_buffer_capacity c then
      (None, with_conn w (set_recv c [] (recv_buffer_capacity c)))
    else
      let nc0 := recv_buffer_capacity c * 2 in
      let new_cap := if hard_max <? nc0 then hard_max else nc0 in
      let '(ok, w1) := alloc w in
      if negb ok then (None, w1)
      else let w2 := with_conn w1 (set_recv c (recv_buffer c) new_cap) in (Some w2, w2)
  else (Some w, w).

Fixpoint read_loop (fuel : nat) (hard_max : Z) (w : cw) : Z * cw :=
  match fuel with
  | O => (-1, w)
  | S n =>
      match grow_recv hard_max w with
      | (None, w1) => (-1, w1)
      | (Some w1, _) =>
          let c := w_conn w1 in
          match sys_recv (w_sys w1) (recv_buffer_capacity c - recv_buffer_used c) with
          | (REof, s2) => (-1, with_sys w1 s2)
          | (RAgain, s2) => (0, with_sys w1 s2)
          | (RErr, s2) => (-1, with_sys w1 s2)
          | (RData b, s2) =>
              let c2 := ws_connection_add_bytes_received
                          (set_recv c (recv_buffer c ++ b) (recv_buffer_capacity c)) now in
              let w2 := mk_cw c2 s2 (w_ev w1) in
              match frames_loop (S (length (recv_buffer c2))) w2 0 with
              | (Some rc, w3) => (rc, w3)
              | (None, w3) => read_loop n hard_max w3
              end
          end
      end
  end.

(** [handle_websocket_frames]: read and process until the socket would block; every
    iteration but the last takes bytes from the socket. *)
Definition handle_websocket_frames (w : cw) : Z * cw :=
  let c := w_conn w in
  if recv_buffer_capacity c =? 0 then (-1, w)
  else
    let hard0 := max_message_size cfg + 64 in
    let hard_max := if hard0 <? recv_buffer_capacity c then recv_buffer_capacity c else hard0 in
    read_loop (S (rx_size (rx (w_sys w)))) hard_max w.

End ReadLoop.

(** ** Senders *)

(** A sender touches only the socket. *)
Definition same_but_sys (w w' : cw) : Prop := w_conn w' = w_conn w ∧ w_ev w' = w_ev w.

Lemma alloc_same w ok w1 :
  alloc w = (ok, w1) → same_but_sys w w1 ∧ tx (w_sys w1) = tx (w_sys w) ∧
  txs (w_sys w1) = txs (w_sys w) ∧ rx (w_sys w1) = rx (w_sys w) ∧
  (mem (w_sys w) = [] → ok = true ∧ mem (w_sys w1) = []).
Proof.
  unfold alloc, sys_alloc. destruct (mem (w_sys w)) as [ | b m] eqn:E;
    intros [= <- <-]; unfold same_but_sys; cbn; rewrite ?E; split_and!; done.
Qed.

Lemma send_whole_frame_same op w data rc w' :
  send_whole_frame op w data = (rc, w') → same_but_sys w w' ∧ rx (w_sys w') = rx (w_sys w).
Proof.
  unfold send_whole_frame. destruct (alloc w) as [ok w1] eqn:EA.
  apply alloc_same in EA as ([Hc He] & _ & _ & Hr & _).
  destruct (ws_encode_frame ok op data) as [fr | ]; [ | intros [= <- <-]; done].
  destruct (ws_conn_socket_write (w_sys w1) fr) as [r s2] eqn:ES.
  apply sys_send_inv in ES as (Hrx & _). intros [= <- <-]. unfold same_but_sys. cbn. split; [done | congruence].
Qed.

(** When memory is available and the kernel takes everything, the frame is on the
    wire, in one piece. *)
Lemma send_whole_frame_ready op w data :
  mem (w_sys w) = [] → txs (w_sys w) = [] → zlen data < 2 ^ 64 →
  ∃ s', send_whole_frame op w data = (0, with_sys w s') ∧
    tx s' = tx (w_sys w) ++ rfc_header 0 1 (op mod 16) (zlen data) ++ data ∧
    mem s' = [] ∧ txs s' = [] ∧ rx s' = rx (w_sys w).
Proof.
  intros Hm Ht Hl. unfold send_whole_frame, alloc, sys_alloc. rewrite Hm.
  unfold ws_encode_frame. rewrite encode_header_rfc by (pose proof (zlen_nonneg data); lia).
  unfold ws_conn_socket_write, sys_send. cbn [w_sys with_sys]. rewrite Ht. cbn [send_count].
  rewrite Z.eqb_refl. eexists. split; [reflexivity |]. cbn. done.
Qed.

Lemma ws_send_close_frame_same w code reason rc w' :
  ws_send_close_frame w code reason = (rc, w') → same_but_sys w w' ∧ rx (w_sys w') = rx (w_sys w).
Proof.
  unfold ws_send_close_frame. split_if; [apply send_whole_frame_same |].
  destruct (alloc w) as [ok w1] eqn:EA. apply alloc_same in EA as ([Hc He] & _ & _ & Hr & _).
  split_if; [intros [= <- <-]; done |].
  intros H. apply send_whole_frame_same in H as [[Hc' He'] Hr']. unfold same_but_sys.
  split; [split |]; congruence.
Qed.

Lemma ws_fail_connection_spec w code rc w' :
  ws_fail_connection w code = (rc, w') →
  rc = WS_FRAME_CLOSE_REQUESTED ∧ w_conn w' = set_state (w_conn w) WS_STATE_CLOSING ∧
  w_ev w' = w_ev w ∧ rx (w_sys w') = rx (w_sys w).
Proof.
  unfold ws_fail_connection. destruct (ws_send_close_frame _ code []) as [r w2] eqn:E.
  apply ws_send_close_frame_same in E as [[Hc He] Hr]. intros [= <- <-]. cbn in *. done.
Qed.

(** ** The reassembly invariant *)

Definition parser_ok (max : Z) (p : frame_parser) : Prop :=
  if in_fragmented_message p then
    ∃ d, fragment_buffer p = Some d ∧ zlen d = fragment_total_size p ∧
         fragment_total_size p <= max ∧
         fragment_total_size p <= fragment_buffer_size p <= Z.max 65536 (2 * max) ∧
         (fragment_opcode p = WS_OPCODE_TEXT ∨ fragment_opcode p = WS_OPCODE_BINARY)
  else fragment_buffer p = None.

(** What [ws_parse_frame] guarantees of the frames it delivers. *)
Definition frame_ok (max : Z) (f : ws_frame) : Prop :=
  zlen (payload f) = payload_len f ∧ payload_len f <= max ∧ bytes_ok (payload f).

Lemma parser_ok_init max : parser_ok max parser_init.
Proof. done. Qed.
#[local] Hint Resolve parser_ok_init : portico.

Lemma parser_state_indep c st : parser (set_state c st) = parser c.
Proof. done. Qed.

Lemma fragmented_frame_inv cfg w f rc w' :
  parser_ok (max_message_size cfg) (parser (w_conn w)) → frame_ok (max_message_size cfg) f →
  opcode f = WS_OPCODE_TEXT ∨ opcode f = WS_OPCODE_BINARY →
  process_fragmented_frame cfg w f = (rc, w') →
  parser_ok (max_message_size cfg) (parser (w_conn w')) ∧
  recv_buffer (w_conn w') = recv_buffer (w_conn w) ∧
  recv_buffer_capacity (w_conn w') = recv_buffer_capacity (w_conn w) ∧
  rx (w_sys w') = rx (w_sys w).
Proof.
  intros Hp (Hl & Hm & Hb) Hop. unfold process_fragmented_frame.
  destruct (in_fragmented_message _) eqn:EF; [intros [= <- <-]; done |].
  destruct (fin f =? 0).
  { destruct (alloc w) as [ok w1] eqn:EA. apply alloc_same in EA as ([Hc He] & _ & _ & Hr & _).
    destruct ok; cbn [negb]; intros [= <- <-]; cbn; (split; [ | done]).
    - unfold parser_ok. cbn. exists (payload f). pose proof (zlen_nonneg (payload f)).
      split_and!; try done; split_if; zbool; lia.
    - done. }
  split_if; [intros H; apply ws_fail_connection_spec in H as (_ & -> & _ & ->); done |].
  split_if; [ | split_if; intros [= <- <-]; done].
  destruct (alloc w) as [ok w1] eqn:EA. apply alloc_same in EA as ([Hc He] & _ & _ & Hr & _).
  destruct ok; cbn [negb]; intros [= <- <-]; cbn; by rewrite Hc.
Qed.

Lemma continuation_frame_inv cfg w f rc w' :
  parser_ok (max_message_size cfg) (parser (w_conn w)) → frame_ok (max_message_size cfg) f →
  max_message_size cfg < 2 ^ 64 →
  process_continuation_frame cfg w f = (rc, w') →
  parser_ok (max_message_size cfg) (parser (w_conn w')) ∧
  recv_buffer (w_conn w') = recv_buffer (w_conn w) ∧
  recv_buffer_capacity (w_conn w') = recv_buffer_capacity (w_conn w) ∧
  rx (w_sys w') = rx (w_sys w).
Proof.
  intros Hp (Hl & Hm & Hb) Hmax. unfold process_continuation_frame.
  destruct (in_fragmented_message _) eqn:EF; cbn [negb]; [ | intros [= <- <-]; done].
  unfold parser_ok in Hp. rewrite EF in Hp. destruct Hp as (d & Hd & Hdl & Ht & Hs & Hop).
  rewrite Hd. cbn [default]. pose proof (zlen_nonneg d). pose proof (zlen_nonneg (payload f)).
  rewrite u64_small by lia.
  split_if; [intros H1; apply ws_fail_connection_spec in H1 as (_ & -> & _ & ->); done |]. zbool.
  destruct (if fragment_buffer_size _ <? _ then _ else _) as [[ok size'] w1] eqn:EG.
  assert (HG : same_but_sys w w1 ∧ rx (w_sys w1) = rx (w_sys w) ∧
               fragment_total_size (parser (w_conn w)) + payload_len f <= size' ∧
               size' <= Z.max 65536 (2 * max_message_size cfg)).
  { revert EG. split_if; zbool.
    - destruct (alloc w) as [ok1 w2] eqn:EA. apply alloc_same in EA as (Hsame & _ & _ & Hr & _).
      intros [= <- <- <-]. split_and!; done || lia.
    - intros [= <- <- <-]. split_and!; done || lia. }
  clear EG. destruct HG as ([Hc He] & Hr & Hg1 & Hg2). destruct ok; cbn [negb]; [ | intros [= <- <-]; done].
  destruct (fin f =? 0).
  { intros [= <- <-]. cbn. split; [ | done]. unfold parser_ok. cbn. eexists. split; [done |].
    rewrite zlen_app. split_and!; done || lia. }
  split_if; [intros H1; apply ws_fail_connection_spec in H1 as (_ & -> & _ & ->); done |].
  intros [= <- <-]. cbn. split; [done |].
  split_if; [ | split_if; done].
  destruct (alloc _) as [ok2 w3] eqn:EA. apply alloc_same in EA as ([Hc' He'] & _ & _ & Hr' & _).
  cbn in *. destruct ok2; cbn; rewrite Hc'; cbn; split_and!; congruence.
Qed.

(** A Close frame changes only the state of the slot. *)
Lemma close_frame_inv cfg w f rc w' :
  process_close_frame cfg w f = (rc, w') →
  parser (w_conn w') = parser (w_conn w) ∧ recv_buffer (w_conn w') = recv_buffer (w_conn w) ∧
  recv_buffer_capacity (w_conn w') = recv_buffer_capacity (w_conn w) ∧
  rx (w_sys w') = rx (w_sys w).
Proof.
  assert (Hfail : ∀ code rc w', ws_fail_connection w code = (rc, w') →
    parser (w_conn w') = parser (w_conn w) ∧ recv_buffer (w_conn w') = recv_buffer (w_conn w) ∧
    recv_buffer_capacity (w_conn w') = recv_buffer_capacity (w_conn w) ∧
    rx (w_sys w') = rx (w_sys w)).
  { intros code rc1 w1 H. by apply ws_fail_connection_spec in H as (_ & -> & _ & ->). }
  unfold process_close_frame. destruct (payload_len f =? 1); [apply Hfail |].
  destruct (2 <=? payload_len f); cbn [andb].
  - destruct (negb _); [apply Hfail |]. destruct (_ && _); [apply Hfail |].
    destruct (ws_send_close_frame _ _ _) as [r w2] eqn:ES.
    apply ws_send_close_frame_same in ES as [[Hc _] Hr].
    intros [= <- <-]. destruct (on_close cfg); cbn; rewrite Hc; done.
  - destruct (ws_send_close_frame _ _ _) as [r w2] eqn:ES.
    apply ws_send_close_frame_same in ES as [[Hc _] Hr].
    intros [= <- <-]. destruct (on_close cfg); cbn; rewrite Hc; done.
Qed.

Lemma process_frame_inv cfg w f rc w' :
  parser_ok (max_message_size cfg) (parser (w_conn w)) → frame_ok (max_message_size cfg) f →
  max_message_size cfg < 2 ^ 64 →
  process_websocket_frame cfg w f = (rc, w') →
  parser_ok (max_message_size cfg) (parser (w_conn w')) ∧
  recv_buffer (w_conn w') = recv_buffer (w_conn w) ∧
  recv_buffer_capacity (w_conn w') = recv_buffer_capacity (w_conn w) ∧
  rx (w_sys w') = rx (w_sys w).
Proof.
  intros Hp Hf Hm. unfold process_websocket_frame.
  split_if; [intros H; apply ws_fail_connection_spec in H as (_ & -> & _ & ->); done |].
  destruct ((opcode f =? WS_OPCODE_TEXT) || _) eqn:Eop.
  { apply fragmented_frame_inv; [done | done |]. apply orb_true_iff in Eop as [ | ]; zbool; auto. }
  split_if.
  { destruct (ws_send_pong_frame w (payload f)) as [r w1] eqn:ES.
    apply send_whole_frame_same in ES as [[Hc _] Hr].
    split_if; intros [= <- <-]; by rewrite Hc. }
  split_if; [intros [= <- <-]; by split_if |].
  split_if.
  { intros H. apply close_frame_inv in H as (-> & -> & -> & ->). done. }
  split_if; [by apply continuation_frame_inv | intros [= <- <-]; done].
Qed.

(** ** Frame processing does not look at the read side *)

(** The world without its receive buffer, idle clock and inbound script. *)
Definition core (w : cw) : cw :=
  mk_cw (set_activity (set_recv (w_conn w) [] 0) 0 0) (set_rx (w_sys w) []) (w_ev w).

Lemma alloc_core w : alloc (core w) = ((alloc w).1, core (alloc w).2).
Proof. unfold alloc, sys_alloc. cbn. by destruct (mem (w_sys w)). Qed.

Lemma send_whole_frame_core op w data :
  send_whole_frame op (core w) data =
  ((send_whole_frame op w data).1, core (send_whole_frame op w data).2).
Proof.
  unfold send_whole_frame. rewrite alloc_core. destruct (alloc w) as [ok w1]. cbn [fst snd].
  destruct (ws_encode_frame ok op data) as [fr | ]; [ | done].
  unfold ws_conn_socket_write, sys_send. cbn. destruct (txs (w_sys w1)) as [ | [n | | ] t]; done.
Qed.

Lemma ws_send_close_frame_core w code reason :
  ws_send_close_frame (core w) code reason =
  ((ws_send_close_frame w code reason).1, core (ws_send_close_frame w code reason).2).
Proof.
  unfold ws_send_close_frame. split_if; [apply send_whole_frame_core |].
  rewrite alloc_core. destruct (alloc w) as [[ | ] w1]; cbn [fst snd negb];
    [apply send_whole_frame_core | done].
Qed.

Lemma ws_fail_connection_core w code :
  ws_fail_connection (core w) code = ((ws_fail_connection w code).1, core (ws_fail_connection w code).2).
Proof.
  unfold ws_fail_connection.
  change (with_conn (core w) _) with (core (with_conn w (ws_connection_set_state (w_conn w) WS_STATE_CLOSING))).
  rewrite ws_send_close_frame_core. by destruct (ws_send_close_frame _ code []).
Qed.

Lemma process_fragmented_core cfg w f :
  process_fragmented_frame cfg (core w) f =
  ((process_fragmented_frame cfg w f).1, core (process_fragmented_frame cfg w f).2).
Proof.
  unfold process_fragmented_frame. rewrite alloc_core, ws_fail_connection_core.
  change (parser (w_conn (core w))) with (parser (w_conn w)).
  destruct (alloc w) as [ok w1]. cbn [fst snd]. split_ifs; done.
Qed.

Lemma process_continuation_core cfg w f :
  process_continuation_frame cfg (core w) f =
  ((process_continuation_frame cfg w f).1, core (process_continuation_frame cfg w f).2).
Proof.
  unfold process_continuation_frame.
  change (parser (w_conn (core w))) with (parser (w_conn w)). rewrite alloc_core.
  destruct (negb _); [done |]. destruct (_ <? payload_len f).
  { exact (ws_fail_connection_core (with_conn w (cleanup_fragmentation_state (w_conn w))) _). }
  assert (H : ∀ ok size' w1,
    let data := default [] (fragment_buffer (parser (w_conn w))) ++ payload f in
    let total := fragment_total_size (parser (w_conn w)) + payload_len f in
    let p' := mk_parser true (fragment_opcode (parser (w_conn w))) (Some data) size' total in
    let k (w0 w1 : cw) :=
      if negb ok then (-1, with_conn w1 (cleanup_fragmentation_state (w_conn w0)))
      else
        let c2 := set_parser (w_conn w0) p' in
        let w2 := with_conn w1 c2 in
        if fin f =? 0 then (0, w2)
        else if (fragment_opcode (parser (w_conn w)) =? WS_OPCODE_TEXT) && (ws_utf8_valid data =? 0) then
          ws_fail_connection (with_conn w2 (cleanup_fragmentation_state c2)) WS_CLOSE_INVALID_UTF8
        else
          let w3 :=
            if (fragment_opcode (parser (w_conn w)) =? WS_OPCODE_TEXT) && on_text_message cfg then
              let '(ok2, w3) := alloc w2 in if ok2 then log_ev w3 (EvText data) else w3
            else if (fragment_opcode (parser (w_conn w)) =? WS_OPCODE_BINARY) && on_binary_message cfg then
              log_ev w2 (EvBinary data)
            else w2 in
          (0, with_conn w3 (cleanup_fragmentation_state (w_conn w3))) in
    k (core w) (core w1) = ((k w w1).1, core (k w w1).2)).
  { intros ok size' w1. cbv zeta. destruct ok; cbn [negb]; [ | done].
    destruct (fin f =? 0); [done |].
    destruct (_ && (_ =? 0)).
    { exact (ws_fail_connection_core (with_conn w1 (cleanup_fragmentation_state (set_parser (w_conn w) _))) _). }
    destruct (_ && on_text_message cfg); [ | destruct (_ && on_binary_message cfg); done].
    change (with_conn (core w1) (set_parser (w_conn (core w)) ?p)) with
      (core (with_conn w1 (set_parser (w_conn w) p))).
    rewrite alloc_core. destruct (alloc _) as [ok2 w3]. by destruct ok2. }
  destruct (_ <? _).
  - destruct (alloc w) as [ok w1]. cbn [fst snd]. exact (H ok _ w1).
  - exact (H true _ w).
Qed.

Lemma process_close_core cfg w f :
  process_close_frame cfg (core w) f =
  ((process_close_frame cfg w f).1, core (process_close_frame cfg w f).2).
Proof.
  unfold process_close_frame. rewrite !ws_fail_connection_core.
  destruct (payload_len f =? 1); [done |].
  change (with_conn (core w) (ws_connection_set_state (w_conn (core w)) WS_STATE_CLOSING)) with
    (core (with_conn w (ws_connection_set_state (w_conn w) WS_STATE_CLOSING))).
  rewrite !ws_send_close_frame_core.
  destruct (2 <=? payload_len f); cbn [andb].
  - destruct (negb _); [done |]. destruct (_ && _); [done |].
    destruct (ws_send_close_frame _ _ _) as [r w2]. by destruct (on_close cfg).
  - destruct (ws_send_close_frame _ _ _) as [r w2]. by destruct (on_close cfg).
Qed.

Lemma process_core cfg w f :
  process_websocket_frame cfg (core w) f =
  ((process_websocket_frame cfg w f).1, core (process_websocket_frame cfg w f).2).
Proof.
  unfold process_websocket_frame. unfold ws_send_pong_frame.
  rewrite ws_fail_connection_core, process_fragmented_core, process_continuation_core,
    process_close_core, send_whole_frame_core.
  destruct (_ && _); [done |]. destruct (_ || _); [done |].
  destruct (opcode f =? WS_OPCODE_PING).
  { destruct (send_whole_frame WS_OPCODE_PONG w (payload f)) as [rc w1]. cbn. by destruct (rc <? 0). }
  destruct (opcode f =? WS_OPCODE_PONG); [by destruct (on_pong cfg) |].
  destruct (opcode f =? WS_OPCODE_CLOSE); [done |].
  by destruct (opcode f =? WS_OPCODE_CONTINUATION).
Qed.

(** ** The byte stream as a sequence of frames *)

(** A client's frame before it is put on the wire. *)
Record cframe := mk_cframe { cf_fin : Z; cf_op : Z; cf_key : list Z; cf_payload : list Z }.

Definition wire (f : cframe) : list Z := client_frame (cf_fin f) (cf_op f) (cf_key f) (cf_payload f).
Definition wires (fs : list cframe) : list Z := concat (map wire fs).

(** The frame the server is to process. *)
Definition parsed (f : cframe) : ws_frame :=
  mk_frame (cf_fin f) (cf_op f) 1 (zlen (cf_payload f)) (cf_key f) (cf_payload f)
    (zlen (rfc_header 1 (cf_fin f) (cf_op f) (zlen (cf_payload f))) + 4) 0.

Definition cf_ok (max : Z) (f : cframe) : Prop :=
  (cf_fin f = 0 ∨ cf_fin f = 1) ∧ 0 <= cf_op f < 16 ∧ key_ok (cf_key f) ∧
  bytes_ok (cf_payload f) ∧ zlen (cf_payload f) <= max.

(** A frame that has not completely arrived. *)
Definition partial (max : Z) (l : list Z) : Prop :=
  l = [] ∨ ∃ f suf, cf_ok max f ∧ l ++ suf = wire f ∧ suf ≠ [].

(** Process frames one after the other, as long as none of them closes the connection. *)
Fixpoint process_all (cfg : server_cfg) (w : cw) (fs : list cframe) : Z * cw :=
  match fs with
  | [] => (0, w)
  | f :: t =>
      let '(rc, w1) := process_websocket_frame cfg w (parsed f) in
      if rc <? 0 then (rc, w1) else process_all cfg w1 t
  end.

Lemma process_all_app cfg w fs gs :
  process_all cfg w (fs ++ gs) =
  let '(rc, w1) := process_all cfg w fs in if rc <? 0 then (rc, w1) else process_all cfg w1 gs.
Proof.
  revert w. induction fs as [ | f t IH]; intros w; [done |].
  cbn [app process_all]. destruct (process_websocket_frame cfg w (parsed f)) as [rc w1].
  destruct (rc <? 0) eqn:E; [by rewrite E | apply IH].
Qed.

Lemma process_all_core cfg w fs :
  process_all cfg (core w) fs = ((process_all cfg w fs).1, core (process_all cfg w fs).2).
Proof.
  revert w. induction fs as [ | f t IH]; intros w; [done |]. cbn [process_all].
  rewrite process_core. destruct (process_websocket_frame cfg w (parsed f)) as [rc w1]. cbn [fst snd].
  destruct (rc <? 0); [done | apply IH].
Qed.

Lemma wire_len max f : cf_ok max f → 6 <= zlen (wire f) <= 14 + max ∧ zlen (cf_payload f) < zlen (wire f).
Proof.
  intros (_ & _ & [Hk _] & _ & Hl). unfold wire. rewrite zlen_client_frame by done.
  pose proof (rfc_header_bounds 1 (cf_fin f) (cf_op f) (zlen (cf_payload f))).
  pose proof (zlen_nonneg (cf_payload f)). lia.
Qed.

Lemma partial_len max l : 0 <= max → partial max l → zlen l < 14 + max.
Proof.
  intros Hm [-> | (f & suf & Hok & Heq & Hne)]; [rewrite zlen_nil; lia |].
  apply (f_equal zlen) in Heq. rewrite zlen_app in Heq. pose proof (wire_len max f Hok).
  assert (zlen suf <> 0) by (by intros ?%zlen_0_nil). pose proof (zlen_nonneg suf). lia.
Qed.

(** The first [n] bytes of a stream of frames are whole frames and a partial one. *)
Lemma split_stream max fs part x y :
  Forall (cf_ok max) fs → partial max part → x ++ y = wires fs ++ part →
  ∃ fs1 fs2 part1, fs = fs1 ++ fs2 ∧ x = wires fs1 ++ part1 ∧ partial max part1 ∧
    part1 ++ y = wires fs2 ++ part.
Proof.
  intros Hfs. revert x. induction Hfs as [ | f t Hf Ht IH]; intros x Hp Heq.
  - exists [], [], x. split_and!; try done. cbn in Heq.
    destruct Hp as [-> | (g & suf & Hg & Hw & Hne)].
    + apply app_eq_nil in Heq as [-> _]. by left.
    + destruct (decide (x = [])) as [-> | Hx]; [by left |].
      right. exists g, (y ++ suf). split_and!; [done | by rewrite app_assoc, Heq |].
      by intros [_ ?]%app_eq_nil.
  - unfold wires in Heq. cbn [map concat] in Heq. fold (wires t) in Heq. rewrite <- app_assoc in Heq.
    apply app_eq_inv in Heq as [(k & -> & Hk) | (k & Hk & Hy)].
    + destruct (IH k Hp ltac:(symmetry; exact Hk)) as (fs1 & fs2 & part1 & -> & -> & Hp1 & Hy).
      exists (f :: fs1), fs2, part1. split_and!; try done.
      unfold wires. cbn. by rewrite app_assoc.
    + destruct (decide (k = [])) as [-> | Hne].
      * rewrite app_nil_r in Hk. subst x. exists [f], t, [].
        split_and!; [done | unfold wires; cbn; by rewrite !app_nil_r | by left | done].
      * exists [], (f :: t), x. split_and!; try done.
        -- right. exists f, k. by rewrite <- Hk.
        -- unfold wires. cbn. rewrite Hy, app_assoc, <- Hk, <- app_assoc. done.
Qed.

(** ** The frame loop consumes whole frames and keeps the partial one *)

Section Stream.
Context (cpu : cpu) (cfg : server_cfg) (now : Z).
Context (Hmax : 0 <= max_message_size cfg < 2 ^ 31 - 14).

Lemma parse_wire f rest :
  cf_ok (max_message_size cfg) f →
  ws_parse_frame cpu (wire f ++ rest) (max_message_size cfg) =
  (zlen (wire f), parsed f,
   (rfc_header 1 (cf_fin f) (cf_op f) (zlen (cf_payload f)) ++ cf_key f ++ cf_payload f) ++ rest).
Proof.
  intros (Hf & Hop & Hk & Hb & Hl). unfold wire, parsed.
  rewrite parse_frame_roundtrip by (done || lia). by rewrite <- !app_assoc.
Qed.

Lemma parse_partial l :
  partial (max_message_size cfg) l → l ≠ [] →
  ∃ g, ws_parse_frame cpu l (max_message_size cfg) = (0, g, l).
Proof.
  intros [-> | (f & suf & (Hf & Hop & Hk & Hb & Hl) & Heq & Hne)] Hl0; [done |].
  eapply ws_parse_frame_incomplete_aux; done || lia.
Qed.

Definition put_recv (w : cw) (b : list Z) : cw :=
  with_conn w (set_recv (w_conn w) b (recv_buffer_capacity (w_conn w))).

(** The loop over a buffer of whole frames and a partial one: the frames are
    processed in order and the partial one is left at the front of the buffer. *)
Lemma frames_loop_stream fs : ∀ fuel w pre part wf,
  (length fs < fuel)%nat →
  Forall (cf_ok (max_message_size cfg)) fs → partial (max_message_size cfg) part →
  recv_buffer (w_conn w) = pre ++ wires fs ++ part →
  process_all cfg (core w) fs = (0, wf) →
  parser_ok (max_message_size cfg) (parser (w_conn w)) →
  ∃ w', frames_loop cpu cfg fuel w (zlen pre) = (None, w') ∧ core w' = wf ∧
    recv_buffer (w_conn w') = part ∧
    recv_buffer_capacity (w_conn w') = recv_buffer_capacity (w_conn w) ∧
    rx (w_sys w') = rx (w_sys w) ∧
    parser_ok (max_message_size cfg) (parser (w_conn w')).
Proof.
  induction fs as [ | f t IH]; intros fuel w pre part wf Hfuel Hfs Hpart Hbuf Hall Hpok;
    (destruct fuel as [ | fuel]; [simpl in Hfuel; lia |]); cbn [frames_loop];
    unfold recv_buffer_used; rewrite Hbuf.
  - cbn [process_all] in Hall. injection Hall as <-. cbn [wires map concat app].
    change (wires []) with (@nil Z). cbn [app]. rewrite zlen_app. pose proof (zlen_nonneg pre).
    destruct (decide (part = [])) as [-> | Hne].
    + rewrite zlen_nil, Z.add_0_r, (proj2 (Z.ltb_ge _ _)) by lia.
      eexists. split; [reflexivity |]. unfold consume, recv_buffer_used.
      rewrite Hbuf. cbn [wires map concat app]. rewrite app_nil_r.
      destruct (0 <? zlen pre) eqn:E0; zbool.
      * rewrite (proj2 (Z.ltb_ge (zlen pre) _)) by lia. done.
      * assert (pre = []) as -> by (apply zlen_0_nil; lia). cbn. split_and!; done.
    + assert (0 < zlen part) by (pose proof (zlen_nonneg part);
        assert (zlen part <> 0) by (by intros ?%zlen_0_nil); lia).
      rewrite (proj2 (Z.ltb_lt _ _)) by lia.
      rewrite zdrop_app_exact. destruct (parse_partial part Hpart Hne) as [g ->].
      cbn [Z.ltb Z.eqb Z.compare]. eexists. split; [reflexivity |].
      rewrite ztake_app_exact. destruct (0 <? zlen pre) eqn:E0; zbool; cbn.
      * rewrite zdrop_app_exact. done.
      * assert (pre = []) as -> by (apply zlen_0_nil; lia). done.
  - apply Forall_cons in Hfs as [Hf Ht].
    pose proof (wire_len _ _ Hf) as [Hw1 Hw2].
    unfold wires. cbn [map concat]. fold (wires t). rewrite <- app_assoc.
    rewrite !zlen_app. pose proof (zlen_nonneg part). pose proof (zlen_nonneg (wires t)).
    pose proof (zlen_nonneg pre).
    rewrite (proj2 (Z.ltb_lt (zlen pre) _)) by lia.
    rewrite zdrop_app_exact, ztake_app_exact, parse_wire by done.
    rewrite (proj2 (Z.ltb_ge (zlen (wire f)) 0)), (proj2 (Z.eqb_neq (zlen (wire f)) 0)) by lia.
    set (u := rfc_header 1 _ _ _ ++ _ ++ _).
    set (w1 := with_conn w _).
    cbn [process_all] in Hall. rewrite <- (eq_refl : core w1 = core w), process_core in Hall.
    destruct (process_websocket_frame cfg w1 (parsed f)) as [rc w2] eqn:EP.
    cbn [fst snd] in Hall. destruct (rc <? 0) eqn:Erc; [injection Hall as -> _; done |].
    assert (Hfok : frame_ok (max_message_size cfg) (parsed f)) by (split_and!; [done | apply Hf | apply Hf]).
    apply process_frame_inv in EP as (Hpok2 & Hrb & Hcap & Hrx); [ | done | done | lia].
    assert (Hrc2 : (rc =? WS_FRAME_CLOSE_REQUESTED) = false)
      by (apply Z.eqb_neq; unfold WS_FRAME_CLOSE_REQUESTED; zbool; lia).
    rewrite Hrc2. cbn in Hrb, Hcap, Hrx.
    assert (Hul : zlen u = zlen (wire f)).
    { unfold u, wire, client_frame. by rewrite !zlen_app, zlen_rfc_mask. }
    destruct (IH fuel w2 (pre ++ u) part wf) as (w' & HL & Hcore & Hb' & Hcap' & Hrx' & Hpok');
      [simpl in Hfuel; lia | done | done | by rewrite Hrb, <- !app_assoc | done | done |].
    rewrite zlen_app, Hul in HL. exists w'. split_and!; congruence || done.
Qed.

End Stream.

(** ** Memory stays available *)

Definition mem_ok (w w' : cw) : Prop := mem (w_sys w) = [] → mem (w_sys w') = [].

Lemma alloc_mem w : mem_ok w (alloc w).2.
Proof. intros H. unfold alloc, sys_alloc. by rewrite H. Qed.

Lemma send_whole_frame_mem op w data : mem_ok w (send_whole_frame op w data).2.
Proof.
  intros H. apply alloc_mem in H. unfold send_whole_frame. destruct (alloc w) as [ok w1].
  destruct (ws_encode_frame ok op data) as [fr | ]; [ | done].
  destruct (ws_conn_socket_write (w_sys w1) fr) as [r s2] eqn:ES.
  apply sys_send_inv in ES as (_ & _ & _ & Hm & _). cbn in *. congruence.
Qed.

Lemma ws_send_close_frame_mem w code reason : mem_ok w (ws_send_close_frame w code reason).2.
Proof.
  intros H. unfold ws_send_close_frame. split_if; [by apply send_whole_frame_mem |].
  apply alloc_mem in H. destruct (alloc w) as [[ | ] w1]; [by apply send_whole_frame_mem | done].
Qed.

Lemma ws_fail_connection_mem w code : mem_ok w (ws_fail_connection w code).2.
Proof.
  intros H. unfold ws_fail_connection.
  pose proof (ws_send_close_frame_mem
    (with_conn w (ws_connection_set_state (w_conn w) WS_STATE_CLOSING)) code [] H) as H1.
  by destruct (ws_send_close_frame _ code []).
Qed.

Lemma process_frame_mem cfg w f : mem_ok w (process_websocket_frame cfg w f).2.
Proof.
  intros H. pose proof (alloc_mem w H) as HA. unfold process_websocket_frame.
  destruct (_ && _); [by apply ws_fail_connection_mem |]. destruct (_ || _).
  { unfold process_fragmented_frame. pose proof (ws_fail_connection_mem w WS_CLOSE_INVALID_UTF8 H).
    destruct (alloc w) as [ok w1]. split_ifs; done. }
  destruct (opcode f =? WS_OPCODE_PING).
  { unfold ws_send_pong_frame. pose proof (send_whole_frame_mem WS_OPCODE_PONG w (payload f) H).
    destruct (send_whole_frame _ w _) as [rc w1]. by destruct (rc <? 0). }
  destruct (opcode f =? WS_OPCODE_PONG); [by destruct (on_pong cfg) |].
  destruct (opcode f =? WS_OPCODE_CLOSE).
  { unfold process_close_frame. repeat (split_if; try (by apply ws_fail_connection_mem)).
    all: match goal with
         | |- context [ws_send_close_frame ?a ?b ?c] =>
             pose proof (ws_send_close_frame_mem a b c H); by destruct (ws_send_close_frame a b c)
         end. }
  destruct (opcode f =? WS_OPCODE_CONTINUATION); [ | done].
  unfold process_continuation_frame. destruct (negb _); [done |].
  destruct (_ <? payload_len f); [by apply ws_fail_connection_mem |].
  destruct (if fragment_buffer_size _ <? _ then _ else _) as [[ok size'] w1] eqn:EG.
  assert (H1 : mem (w_sys w1) = []).
  { revert EG. split_if; [destruct (alloc w) |]; by intros [= <- <- <-]. }
  clear EG. destruct (negb ok); [done |]. destruct (fin f =? 0); [done |].
  destruct (_ && _); [by apply ws_fail_connection_mem |]. cbn [snd w_sys with_conn].
  destruct (_ && on_text_message cfg); [ | by destruct (_ && _)].
  match goal with |- context [alloc ?a] => pose proof (alloc_mem a H1); destruct (alloc a) as [[ | ] w3] end;
    done.
Qed.

Lemma frames_loop_mem cpu cfg fuel w offset : mem_ok w (frames_loop cpu cfg fuel w offset).2.
Proof.
  revert w offset. induction fuel as [ | n IH]; intros w offset H; [done |]. cbn [frames_loop].
  destruct (offset <? _); [ | done]. destruct (ws_parse_frame _ _ _) as [[pr f] data'].
  destruct (pr <? 0); [done |]. destruct (pr =? 0); [done |].
  match goal with |- context [process_websocket_frame cfg ?a f] =>
    pose proof (process_frame_mem cfg a f H); destruct (process_websocket_frame cfg a f) as [proc w2] end.
  destruct (_ =? _); [done |]. destruct (proc <? 0); [done |]. by apply IH.
Qed.

(** ** Any chunking of the stream *)

(** An inbound script that only delivers data and then would block. *)
Fixpoint rx_quiet (l : list rx_ev) : bool :=
  match l with
  | [] | RxAgain :: _ => true
  | RxData (_ :: _) :: r => rx_quiet r
  | _ => false
  end.

Lemma rx_quiet_recv s space :
  rx_quiet (rx s) = true → 0 < space →
  (∃ b s', sys_recv s space = (RData b, s') ∧ rx_quiet (rx s') = true) ∨
  (∃ s', sys_recv s space = (RAgain, s') ∧ rx_bytes (rx s) = [] ∧
         tx s' = tx s ∧ txs s' = txs s ∧ mem s' = mem s ∧ epollout s' = epollout s ∧ ctl s' = ctl s).
Proof.
  intros Hq Hs. unfold sys_recv. destruct (rx s) as [ | [[ | x b] | | | ] r]; try discriminate; cbn in *.
  - right. eexists. done.
  - left. split_if; eexists _, _; (split; [reflexivity |]); cbn; [done |].
    destruct (zdrop space (x :: b)) eqn:Ed; [ | done].
    zbool. apply (f_equal zlen) in Ed. rewrite zlen_zdrop, zlen_nil in Ed by lia. lia.
  - right. eexists. done.
Qed.

Section Chunks.
Context (cpu : cpu) (cfg : server_cfg) (now : Z).
Context (Hmax : 0 <= max_message_size cfg < 2 ^ 31 - 14).

(** A partial frame contains no whole one. *)
Lemma partial_no_frame f t part :
  cf_ok (max_message_size cfg) f → ¬ partial (max_message_size cfg) (wires (f :: t) ++ part).
Proof.
  intros Hf Hp. pose proof (wire_len _ _ Hf) as [Hw _].
  unfold wires in Hp. cbn [map concat] in Hp. rewrite <- app_assoc in Hp.
  destruct (parse_partial cpu cfg Hmax _ Hp) as [g Hg].
  - intros [H _]%app_eq_nil. rewrite H, zlen_nil in Hw. lia.
  - rewrite parse_wire in Hg by done. injection Hg as Hg _ _. lia.
Qed.

Lemma grow_recv_spec hard_max w :
  mem (w_sys w) = [] → 0 < recv_buffer_capacity (w_conn w) →
  recv_buffer_used (w_conn w) <= recv_buffer_capacity (w_conn w) <= hard_max →
  recv_buffer_used (w_conn w) < hard_max →
  ∃ w1, grow_recv hard_max w = (Some w1, w1) ∧ core w1 = core w ∧
    recv_buffer (w_conn w1) = recv_buffer (w_conn w) ∧
    recv_buffer_used (w_conn w1) < recv_buffer_capacity (w_conn w1) <= hard_max ∧
    parser (w_conn w1) = parser (w_conn w) ∧ rx (w_sys w1) = rx (w_sys w) ∧ mem (w_sys w1) = [].
Proof.
  intros Hm Hc Hb Hlt. unfold grow_recv. destruct (_ =? _) eqn:E; zbool.
  - rewrite (proj2 (Z.leb_gt hard_max _)) by lia. unfold alloc, sys_alloc. rewrite Hm. cbn [negb].
    eexists. split; [reflexivity |]. split; [by destruct w |]. cbn. split; [done |].
    unfold recv_buffer_used in *. cbn. split; [split_if; zbool; lia | done].
  - exists w. split_and!; done || lia.
Qed.

Lemma read_loop_stream fuel : ∀ w fs part wf hard_max,
  (rx_size (rx (w_sys w)) < fuel)%nat → rx_quiet (rx (w_sys w)) = true →
  mem (w_sys w) = [] → 0 < recv_buffer_capacity (w_conn w) →
  recv_buffer_used (w_conn w) <= recv_buffer_capacity (w_conn w) <= hard_max →
  max_message_size cfg + 64 <= hard_max →
  partial (max_message_size cfg) (recv_buffer (w_conn w)) →
  parser_ok (max_message_size cfg) (parser (w_conn w)) →
  Forall (cf_ok (max_message_size cfg)) fs → partial (max_message_size cfg) part →
  recv_buffer (w_conn w) ++ rx_bytes (rx (w_sys w)) = wires fs ++ part →
  process_all cfg (core w) fs = (0, wf) →
  ∃ w', read_loop cpu cfg now fuel hard_max w = (0, w') ∧ core w' = wf ∧
    recv_buffer (w_conn w') = part ∧
    parser_ok (max_message_size cfg) (parser (w_conn w')).
Proof.
  induction fuel as [ | n IH];
    intros w fs part wf hard_max Hf Hq Hm Hc Hb Hh Hp Hpok Hfs Hpart Heq Hall; [lia |].
  cbn [read_loop].
  pose proof (partial_len _ _ (proj1 Hmax) Hp) as Hplen.
  destruct (grow_recv_spec hard_max w) as (w1 & -> & Hcore & Hrb & Hcap & Hpar & Hrx & Hmem);
    [done | done | done | unfold recv_buffer_used; lia |].
  rewrite <- Hrx in Heq, Hf, Hq. rewrite <- Hrb in Heq, Hp. rewrite <- Hcore in Hall.
  rewrite <- Hpar in Hpok. clear Hrx Hrb Hcore Hpar.
  destruct (rx_quiet_recv (w_sys w1) (recv_buffer_capacity (w_conn w1) - recv_buffer_used (w_conn w1)))
    as [(b & s2 & Hrecv & Hq2) | (s2 & -> & Hempty & Ht & Hts & Hm2 & He & Hct)]; [done | lia | |].
  - rewrite Hrecv. apply sys_recv_data in Hrecv as (Hbne & Hbl & Hrxb & Hsize & Hts & Htx & Hep & Hctl & Hme);
      [ | lia].
    rewrite Hrxb, app_assoc in Heq.
    destruct (split_stream _ _ _ _ _ Hfs Hpart Heq) as (fs1 & fs2 & part1 & -> & Hx & Hp1 & Hrest).
    set (w2 := mk_cw _ s2 _).
    assert (Hcore2 : core w2 = core w1).
    { unfold core, w2. cbn. f_equal. unfold set_rx. by rewrite Hts, Htx, Hep, Hctl, Hme. }
    rewrite <- Hcore2, process_all_app in Hall.
    destruct (process_all cfg (core w2) fs1) as [rc wm] eqn:E1.
    destruct (rc <? 0) eqn:Erc; [zbool; injection Hall as -> _; lia |].
    assert (rc = 0) as ->.
    { clear -E1 Erc. revert E1. generalize (core w2). induction fs1 as [ | f t IHt]; intros w0; cbn [process_all].
      - by intros [= <- _].
      - destruct (process_websocket_frame cfg w0 (parsed f)) as [r x].
        destruct (r <? 0) eqn:Er; [intros [= <- _]; congruence | apply IHt]. }
    apply Forall_app in Hfs as [Hfs1 Hfs2].
    destruct (frames_loop_stream cpu cfg Hmax fs1 (S (length (recv_buffer (w_conn w2)))) w2 [] part1 wm)
      as (w3 & HL & Hc3 & Hb3 & Hcap3 & Hrx3 & Hpok3); try done.
    { assert (length fs1 <= length (recv_buffer (w_conn w2)))%nat; [ | lia].
      cbn [w2 w_conn recv_buffer set_recv ws_connection_add_bytes_received set_activity].
      rewrite Hx, length_app. clear -Hfs1. induction Hfs1 as [ | f t Hf _ IHf]; [simpl; lia |].
      unfold wires in *. cbn [map concat length]. rewrite length_app.
      pose proof (wire_len _ _ Hf). unfold zlen in *. lia. }
    rewrite zlen_nil in HL.
    change (recv_buffer (ws_connection_add_bytes_received _ now)) with (recv_buffer (w_conn w2)).
    rewrite HL.
    cbn [w2 w_conn w_sys recv_buffer_capacity set_recv ws_connection_add_bytes_received set_activity] in Hcap3, Hrx3.
    pose proof (partial_len _ _ (proj1 Hmax) Hp1).
    apply (IH w3 fs2 part wf hard_max); try done.
    + rewrite Hrx3. lia.
    + by rewrite Hrx3.
    + assert (H3 : mem_ok w2 w3)
        by (pose proof (frames_loop_mem cpu cfg (S (length (recv_buffer (w_conn w2)))) w2 0) as HM;
            by rewrite HL in HM).
      apply H3. cbn. congruence.
    + rewrite Hcap3. pose proof (zlen_nonneg (recv_buffer (w_conn w1))). unfold recv_buffer_used in *. lia.
    + rewrite Hcap3. unfold recv_buffer_used. rewrite Hb3. split; [ | lia].
      apply (f_equal zlen) in Hx. rewrite !zlen_app in Hx. pose proof (zlen_nonneg (wires fs1)).
      unfold recv_buffer_used in *. lia.
    + by rewrite Hb3.
    + by rewrite Hb3, Hrx3.
    + by rewrite Hc3.
  - eexists. split; [reflexivity |]. rewrite Hempty, app_nil_r in Heq.
    rewrite Heq in Hp. destruct fs as [ | f t]; 
      [ | apply Forall_cons in Hfs as [Hf1 _]; by apply (partial_no_frame f t part Hf1) in Hp].
    cbn [process_all] in Hall. injection Hall as <-. split_and!; try done.
    unfold core. cbn. f_equal. unfold set_rx. by rewrite Hts, Ht, He, Hct, Hm2.
Qed.
End Chunks.

(** *** The stream theorem *)

(** The connection is ready to receive frames. *)
Definition ws_ready (cfg : server_cfg) (w : cw) : Prop :=
  recv_buffer_used (w_conn w) <= recv_buffer_capacity (w_conn w) ∧
  0 < recv_buffer_capacity (w_conn w) ∧
  partial (max_message_size cfg) (recv_buffer (w_conn w)) ∧
  parser_ok (max_message_size cfg) (parser (w_conn w)) ∧
  mem (w_sys w) = [].

(** One read event on a stream of frames. *)
Lemma handle_frames_stream cpu cfg now w fs part wf :
  0 <= max_message_size cfg < 2 ^ 31 - 14 →
  ws_ready cfg w → rx_quiet (rx (w_sys w)) = true →
  Forall (cf_ok (max_message_size cfg)) fs → partial (max_message_size cfg) part →
  recv_buffer (w_conn w) ++ rx_bytes (rx (w_sys w)) = wires fs ++ part →
  process_all cfg (core w) fs = (0, wf) →
  ∃ w', handle_websocket_frames cpu cfg now w = (0, w') ∧ core w' = wf ∧
        recv_buffer (w_conn w') = part ∧ parser_ok (max_message_size cfg) (parser (w_conn w')).
Proof.
  intros Hmax (Hu & Hc & Hp & Hpok & Hm) Hq Hfs Hpart Heq Hall. unfold handle_websocket_frames.
  rewrite (proj2 (Z.eqb_neq _ 0)) by lia.
  destruct (read_loop_stream cpu cfg now Hmax (S (rx_size (rx (w_sys w)))) w fs part wf
    (if max_message_size cfg + 64 <? recv_buffer_capacity (w_conn w)
     then recv_buffer_capacity (w_conn w) else max_message_size cfg + 64)) as (w' & -> & ? & ? & ?);
    try done; try lia; try (split_if; zbool; lia). eauto.
Qed.

(** C3. Stream correctness of the WebSocket reader: however the kernel cuts the
    client's byte stream into reads, and whatever part of a frame was left over from
    before, one read event processes exactly the complete frames of the stream, in
    order, with the effect of processing them one after the other, keeps exactly the
    incomplete tail in the buffer, and never fails for lack of room. *)
Theorem handle_websocket_frames_stream cpu cfg now w fs part wf :
  0 <= max_message_size cfg < 2 ^ 31 - 14 →
  ws_ready cfg w → rx_quiet (rx (w_sys w)) = true →
  Forall (cf_ok (max_message_size cfg)) fs → partial (max_message_size cfg) part →
  recv_buffer (w_conn w) ++ rx_bytes (rx (w_sys w)) = wires fs ++ part →
  process_all cfg (core w) fs = (0, wf) →
  ∃ w', handle_websocket_frames cpu cfg now w = (0, w') ∧ core w' = wf ∧
        recv_buffer (w_conn w') = part.
Proof.
  intros Hmax Hr Hq Hfs Hpart Heq Hall.
  destruct (handle_frames_stream cpu cfg now w fs part wf) as (w' & H1 & H2 & H3 & _); try done. by exists w'.
Qed.

(** A concrete run: two messages, the first read ending inside the first frame. *)
Definition demo_cfg : server_cfg := mk_cfg true true true false true true 1000.
Definition demo_conn : ws_connection :=
  set_recv (set_state (zero_conn 1) WS_STATE_OPEN) [] 16384.
Definition demo_frames : list cframe :=
  [mk_cframe 1 1 [1; 2; 3; 4] (bs "hello"); mk_cframe 1 2 [9; 9; 9; 9] [0; 255]].

Lemma handle_websocket_frames_stream_witness :
  let w := mk_cw demo_conn
    (mk_sys [RxData (take 3 (wires demo_frames)); RxData (drop 3 (wires demo_frames))]
            [] [] false [] []) [] in
  ∃ w', handle_websocket_frames (mk_cpu true true) demo_cfg 0 w = (0, w') ∧
    w_ev w' = [EvText (bs "hello"); EvBinary [0; 255]] ∧ recv_buffer (w_conn w') = [].
Proof.
  cbv zeta.
  set (w := mk_cw demo_conn _ _).
  destruct (handle_websocket_frames_stream (mk_cpu true true) demo_cfg 0 w demo_frames []
    (process_all demo_cfg (core w) demo_frames).2) as (w' & H & Hcore & Hr).
  - cbn. lia.
  - split_and!; try done. by left.
  - reflexivity.
  - unfold demo_frames. apply Forall_cons. split; [ | apply Forall_cons; split; [ | by apply Forall_nil]].
    all: unfold cf_ok, key_ok; cbn [cf_fin cf_op cf_key cf_payload];
      split_and!; try lia; try reflexivity; try (right; reflexivity); try solve_bytes.
    all: vm_compute; discriminate.
  - by left.
  - vm_compute. reflexivity.
  - vm_compute. reflexivity.
  - exists w'. split; [exact H |]. split; [ | exact Hr].
    change (w_ev w') with (w_ev (core w')). rewrite Hcore. vm_compute. reflexivity.
Defined.

(** ** Reassembly *)

(** What may come between the first and the last frame of a message. *)
Inductive item := Frag (key p : list Z) | Ping (key p : list Z).

Definition item_frame (i : item) : cframe :=
  match i with Frag k p => mk_cframe 0 0 k p | Ping k p => mk_cframe 1 9 k p end.
Definition frag_bytes (its : list item) : list Z :=
  concat (map (λ i, match i with Frag _ p => p | Ping _ _ => [] end) its).
Definition pong_bytes (its : list item) : list Z :=
  concat (map (λ i, match i with Frag _ _ => []
                    | Ping _ p => rfc_header 0 1 10 (zlen p) ++ p end) its).
Definition pings_ok (its : list item) : Prop :=
  Forall (λ i, match i with Ping _ p => zlen p <= 125 | Frag _ _ => True end) its.

(** A message of opcode [op] is being assembled and holds [d] so far; memory and the
    socket are available. *)
Definition assembling (w : cw) (op : Z) (d : list Z) : Prop :=
  (∃ size, parser (w_conn w) = mk_parser true op (Some d) size (zlen d)) ∧
  mem (w_sys w) = [] ∧ txs (w_sys w) = [].

Lemma assemble_frag cfg w op d k p :
  assembling w op d → max_message_size cfg < 2 ^ 64 → zlen d + zlen p <= max_message_size cfg →
  ∃ w', process_websocket_frame cfg w (parsed (mk_cframe 0 0 k p)) = (0, w') ∧
    assembling w' op (d ++ p) ∧ w_ev w' = w_ev w ∧ tx (w_sys w') = tx (w_sys w).
Proof.
  intros ([size Hp] & Hm & Ht) Hmax Hlen. pose proof (zlen_nonneg d). pose proof (zlen_nonneg p).
  unfold process_websocket_frame, process_continuation_frame, parsed. cbn [opcode fin payload payload_len cf_op cf_fin cf_payload].
  cbn [Z.leb Z.eqb Z.compare andb orb WS_OPCODE_TEXT WS_OPCODE_BINARY WS_OPCODE_PING WS_OPCODE_PONG WS_OPCODE_CLOSE WS_OPCODE_CONTINUATION].
  rewrite Hp. cbn [in_fragmented_message fragment_total_size fragment_buffer_size fragment_buffer fragment_opcode negb default].
  rewrite u64_small, (proj2 (Z.ltb_ge _ (zlen p))) by lia.
  unfold alloc, sys_alloc. rewrite Hm.
  destruct (size <? zlen d + zlen p); cbn [negb]; eexists; (split; [reflexivity |]);
    unfold assembling; cbn; rewrite zlen_app; eauto 10.
Qed.

Lemma assemble_ping cfg w op d k p :
  assembling w op d → zlen p <= 125 →
  ∃ w', process_websocket_frame cfg w (parsed (mk_cframe 1 9 k p)) = (0, w') ∧
    assembling w' op d ∧ w_ev w' = w_ev w ∧
    tx (w_sys w') = tx (w_sys w) ++ rfc_header 0 1 10 (zlen p) ++ p.
Proof.
  intros ([size Hp] & Hm & Ht) Hlen.
  unfold process_websocket_frame, parsed. cbn [opcode fin payload payload_len cf_op cf_fin cf_payload].
  cbn [Z.leb Z.eqb Z.compare Pos.eqb Pos.compare Pos.compare_cont andb orb WS_OPCODE_TEXT WS_OPCODE_BINARY WS_OPCODE_PING].
  rewrite (proj2 (Z.ltb_ge 125 _)) by lia.
  destruct (send_whole_frame_ready WS_OPCODE_PONG w p Hm Ht ltac:(lia)) as (s' & Hs & Htx & Hm' & Ht' & _).
  unfold ws_send_pong_frame. rewrite Hs. cbn. eexists. split; [reflexivity |].
  unfold assembling. cbn. split_and!; eauto.
Qed.

Lemma assemble_items cfg its : ∀ w op d,
  assembling w op d → max_message_size cfg < 2 ^ 64 →
  zlen d + zlen (frag_bytes its) <= max_message_size cfg → pings_ok its →
  ∃ w', process_all cfg w (map item_frame its) = (0, w') ∧
    assembling w' op (d ++ frag_bytes its) ∧ w_ev w' = w_ev w ∧
    tx (w_sys w') = tx (w_sys w) ++ pong_bytes its.
Proof.
  induction its as [ | [k p | k p] t IH]; intros w op d Ha Hmax Hlen Hpg; cbn [map process_all item_frame].
  - exists w. unfold frag_bytes, pong_bytes. cbn. by rewrite !app_nil_r.
  - unfold frag_bytes in *. cbn [map concat] in *. rewrite zlen_app in Hlen. apply Forall_cons in Hpg as [_ Hpg].
    pose proof (zlen_nonneg (concat (map (λ i, match i with Frag _ p => p | Ping _ _ => [] end) t))).
    destruct (assemble_frag cfg w op d k p Ha Hmax ltac:(lia)) as (w1 & -> & Ha1 & He1 & Ht1).
    cbn [Z.ltb Z.compare].
    destruct (IH w1 op (d ++ p) Ha1 Hmax ltac:(rewrite zlen_app; lia) Hpg) as (w' & -> & Ha' & He' & Ht').
    exists w'. rewrite app_assoc. split_and!; [done | done | congruence |].
    rewrite Ht', Ht1. done.
  - unfold frag_bytes in *. cbn [map concat app] in *. apply Forall_cons in Hpg as [Hp Hpg].
    destruct (assemble_ping cfg w op d k p Ha Hp) as (w1 & -> & Ha1 & He1 & Ht1).
    cbn [Z.ltb Z.compare].
    destruct (IH w1 op d Ha1 Hmax Hlen Hpg) as (w' & -> & Ha' & He' & Ht').
    exists w'. split_and!; [done | done | congruence |].
    rewrite Ht', Ht1. unfold pong_bytes. cbn [map concat]. by rewrite <- !app_assoc.
Qed.

(** The event that delivers a message. *)
Definition msg_event (op : Z) (d : list Z) : event :=
  if op =? WS_OPCODE_TEXT then EvText d else EvBinary d.

(** The frames of a fragmented message, with pings in between. *)
Definition message_frames (op : Z) (k0 p0 : list Z) (its : list item) (kl pl : list Z) : list cframe :=
  mk_cframe 0 op k0 p0 :: map item_frame its ++ [mk_cframe 1 0 kl pl].

(** The first frame of a fragmented message, on an idle connection. *)
Lemma assemble_first cfg w op k p :
  (op = WS_OPCODE_TEXT ∨ op = WS_OPCODE_BINARY) →
  in_fragmented_message (parser (w_conn w)) = false → mem (w_sys w) = [] → txs (w_sys w) = [] →
  ∃ w', process_websocket_frame cfg w (parsed (mk_cframe 0 op k p)) = (0, w') ∧
    assembling w' op p ∧ w_ev w' = w_ev w ∧ tx (w_sys w') = tx (w_sys w).
Proof.
  intros Hop Hidle Hm Ht. unfold process_websocket_frame, process_fragmented_frame, parsed.
  cbn [opcode fin payload payload_len cf_op cf_fin cf_payload].
  assert (H1 : (8 <=? op) = false) by (destruct Hop; subst; done).
  assert (H2 : (op =? WS_OPCODE_TEXT) || (op =? WS_OPCODE_BINARY) = true) by (destruct Hop; subst; done).
  rewrite H1, H2, Hidle. cbn [andb Z.eqb]. unfold alloc, sys_alloc. rewrite Hm. cbn [negb].
  eexists. split; [reflexivity |]. unfold assembling. cbn. eauto 10.
Qed.

Lemma utf8_valid_nonzero d : bytes_ok d → utf8_string d → (ws_utf8_valid d =? 0) = false.
Proof. intros Hb Hu. apply utf8_valid_iff in Hu; [ | done]. by rewrite Hu. Qed.

(** The last frame delivers. *)
Lemma assemble_last cfg w op d k p :
  assembling w op d → (op = WS_OPCODE_TEXT ∨ op = WS_OPCODE_BINARY) →
  max_message_size cfg < 2 ^ 64 → zlen d + zlen p <= max_message_size cfg →
  on_text_message cfg = true → on_binary_message cfg = true →
  bytes_ok (d ++ p) → (op = WS_OPCODE_TEXT → utf8_string (d ++ p)) →
  ∃ w', process_websocket_frame cfg w (parsed (mk_cframe 1 0 k p)) = (0, w') ∧
    w_ev w' = w_ev w ++ [msg_event op (d ++ p)] ∧ parser (w_conn w') = parser_init ∧
    tx (w_sys w') = tx (w_sys w).
Proof.
  intros ([size Hp] & Hm & Ht) Hop Hmax Hlen Hct Hcb Hb Hu. pose proof (zlen_nonneg d). pose proof (zlen_nonneg p).
  unfold process_websocket_frame, process_continuation_frame, parsed. cbn [opcode fin payload payload_len cf_op cf_fin cf_payload].
  cbn [Z.leb Z.eqb Z.compare andb orb WS_OPCODE_TEXT WS_OPCODE_BINARY WS_OPCODE_PING WS_OPCODE_PONG WS_OPCODE_CLOSE WS_OPCODE_CONTINUATION].
  rewrite Hp. cbn [in_fragmented_message fragment_total_size fragment_buffer_size fragment_buffer fragment_opcode negb default].
  rewrite u64_small, (proj2 (Z.ltb_ge _ (zlen p))) by lia.
  assert (Hval : (op =? WS_OPCODE_TEXT) && (ws_utf8_valid (d ++ p) =? 0) = false).
  { destruct Hop as [-> | ->]; [ | done]. by rewrite utf8_valid_nonzero by auto. }
  change (id d) with d. rewrite Hct, Hcb, Hval. unfold alloc, sys_alloc. rewrite Hm.
  destruct Hop as [-> | ->]; destruct (size <? zlen d + zlen p); cbn [negb];
    unfold with_conn, with_sys; cbn [w_sys w_conn w_ev]; rewrite ?Hm; eexists; (split; [reflexivity |]); done.
Qed.

(** C10. Reassembly: a message of any opcode cut into any number of fragments, with
    pings interleaved anywhere, is delivered to the application once, as the
    concatenation of its fragments; the pings are answered in order; and the
    connection is idle again.  The message may be as long as the limit allows and text
    must be UTF-8 as a whole, not fragment by fragment. *)
Theorem fragmented_message_delivered cfg w op k0 p0 its kl pl :
  (op = WS_OPCODE_TEXT ∨ op = WS_OPCODE_BINARY) →
  in_fragmented_message (parser (w_conn w)) = false → mem (w_sys w) = [] → txs (w_sys w) = [] →
  on_text_message cfg = true → on_binary_message cfg = true → max_message_size cfg < 2 ^ 64 →
  let d := p0 ++ frag_bytes its ++ pl in
  zlen d <= max_message_size cfg → bytes_ok d → pings_ok its →
  (op = WS_OPCODE_TEXT → utf8_string d) →
  ∃ w', process_all cfg w (message_frames op k0 p0 its kl pl) = (0, w') ∧
    w_ev w' = w_ev w ++ [msg_event op d] ∧ parser (w_conn w') = parser_init ∧
    tx (w_sys w') = tx (w_sys w) ++ pong_bytes its.
Proof.
  intros Hop Hidle Hm Ht Hct Hcb Hmax d Hl Hb Hpg Hu. unfold d in *. rewrite !zlen_app in Hl.
  pose proof (zlen_nonneg p0). pose proof (zlen_nonneg pl).
  destruct (assemble_first cfg w op k0 p0 Hop Hidle Hm Ht) as (w1 & E1 & Ha1 & He1 & Ht1).
  unfold message_frames. cbn [process_all]. rewrite E1. cbn [Z.ltb Z.compare].
  destruct (assemble_items cfg its w1 op p0 Ha1 Hmax ltac:(lia) Hpg) as (w2 & E2 & Ha2 & He2 & Ht2).
  rewrite process_all_app, E2. cbn [Z.ltb Z.compare process_all].
  destruct (assemble_last cfg w2 op (p0 ++ frag_bytes its) kl pl) as (w3 & -> & He3 & Hp3 & Ht3);
    rewrite <- ?app_assoc; try done; [rewrite zlen_app; lia |].
  exists w3. rewrite <- app_assoc in He3. cbn. split_and!; [done | congruence | done |].
  by rewrite Ht3, Ht2, Ht1.
Qed.

Lemma fragmented_message_delivered_witness :
  let w := mk_cw demo_conn (mk_sys [] [] [] false [] []) [] in
  let its := [Frag [1; 1; 1; 1] [0x82]; Ping [7; 7; 7; 7] (bs "hi")] in
  ∃ w', process_all demo_cfg w
      (message_frames WS_OPCODE_TEXT [1; 2; 3; 4] [0xE2] its [4; 3; 2; 1] [0xAC]) = (0, w') ∧
    w_ev w' = [EvText [0xE2; 0x82; 0xAC]] ∧ parser (w_conn w') = parser_init ∧
    tx (w_sys w') = [138; 2; 104; 105].
Proof.
  cbv zeta.
  apply (fragmented_message_delivered demo_cfg (mk_cw demo_conn (mk_sys [] [] [] false [] []) [])
    WS_OPCODE_TEXT [1; 2; 3; 4] [0xE2] [Frag [1; 1; 1; 1] [0x82]; Ping [7; 7; 7; 7] (bs "hi")]
    [4; 3; 2; 1] [0xAC]); try reflexivity.
  - by left.
  - vm_compute. discriminate.
  - solve_bytes.
  - repeat constructor. vm_compute. discriminate.
  - intros _. exists [0x20AC]. split; [repeat constructor | reflexivity].
Defined.

(** ** Hostile input *)

(** The memory a connection may hold: the receive buffer within its bound, the
    reassembly buffer within twice the message limit. *)
Definition conn_bounded (cfg : server_cfg) (hard_max : Z) (w : cw) : Prop :=
  bytes_ok (recv_buffer (w_conn w)) ∧
  recv_buffer_used (w_conn w) <= recv_buffer_capacity (w_conn w) <= hard_max ∧
  parser_ok (max_message_size cfg) (parser (w_conn w)).

Definition rx_bytes_ok (l : list rx_ev) : Prop :=
  Forall (λ e, match e with RxData b => bytes_ok b | _ => True end) l.

Section Hostile.
Context (cpu : cpu) (cfg : server_cfg) (now : Z).
Context (Hmax : 0 <= max_message_size cfg < 2 ^ 31 - 14).

Lemma parse_frame_bytes data rc g data' :
  bytes_ok data → ws_parse_frame cpu data (max_message_size cfg) = (rc, g, data') →
  bytes_ok data' ∧ zlen data' = zlen data ∧ (rc = -1 ∨ rc = 0 ∨
    (6 <= rc <= zlen data ∧ frame_ok (max_message_size cfg) g)).
Proof.
  intros Hb H. destruct (parse_frame_safe _ _ _ _ _ _ Hb Hmax H)
    as [[-> ->] | [[-> ->] | (Hrc & Hh & Hp & Hle & Hpl & Hk & Hpay & ->)]]; [auto.. |].
  assert (Hpb : bytes_ok (payload g)).
  { rewrite Hpay. apply rfc_mask_bytes_ok; [done | by apply Forall_take, Forall_drop]. }
  split; [ | split].
  - rewrite !bytes_ok_app. split_and!; [by apply Forall_take | done | by apply Forall_drop].
  - rewrite !zlen_app, zlen_ztake, zlen_zdrop by lia. lia.
  - right; right. split; [lia |]. split_and!; [done | lia | done].
Qed.

(** The frame loop keeps the bounds and never grows the buffer. *)
Lemma frames_loop_bounded hard_max fuel : ∀ w offset r w',
  conn_bounded cfg hard_max w → 0 <= offset <= recv_buffer_used (w_conn w) →
  frames_loop cpu cfg fuel w offset = (r, w') →
  conn_bounded cfg hard_max w' ∧ rx (w_sys w') = rx (w_sys w) ∧
  recv_buffer_capacity (w_conn w') = recv_buffer_capacity (w_conn w).
Proof.
  induction fuel as [ | n IH]; intros w offset r w' (Hb & Hu & Hp) Ho; cbn [frames_loop];
    [intros [= <- <-]; done |].
  unfold recv_buffer_used in *. pose proof (zlen_nonneg (recv_buffer (w_conn w))) as H0.
  destruct (offset <? zlen _) eqn:E; zbool; cycle 1.
  { intros [= <- <-]. unfold consume, conn_bounded, recv_buffer_used. cbn.
    split_ifs; cbn; rewrite ?zlen_nil; split_and!; try done; try (by apply Forall_nil);
      try (by apply Forall_drop); zbool; rewrite ?zlen_zdrop; try lia; pose proof (zlen_nonneg (recv_buffer (w_conn w))); lia. }
  set (data := zdrop offset (recv_buffer (w_conn w))).
  assert (Hdb : bytes_ok data) by (by apply Forall_drop).
  destruct (ws_parse_frame cpu data _) as [[pr f] data'] eqn:EP.
  apply parse_frame_bytes in EP as (Hb' & Hl' & Hpr); [ | done].
  set (buf1 := ztake offset (recv_buffer (w_conn w)) ++ data').
  assert (Hbuf1 : bytes_ok buf1 ∧ zlen buf1 = zlen (recv_buffer (w_conn w))).
  { unfold buf1. rewrite bytes_ok_app, zlen_app, Hl'. unfold data. rewrite zlen_ztake, zlen_zdrop by lia.
    split; [split; [by apply Forall_take | done] | lia]. }
  destruct Hbuf1 as [Hbb Hbl]. unfold data in Hl'. rewrite zlen_zdrop in Hl' by lia.
  destruct (pr <? 0) eqn:E1; zbool.
  { intros [= <- <-]. cbn. split; [ | done]. unfold conn_bounded, recv_buffer_used. cbn. rewrite zlen_nil.
    split_and!; try done; try lia. by apply Forall_nil. }
  destruct (pr =? 0) eqn:E2; zbool.
  { intros [= <- <-]. split_if; zbool; cbn; (split; [ | done]); unfold conn_bounded, recv_buffer_used; cbn;
      split_and!; try done; try lia.
    - by apply Forall_drop.
    - rewrite zlen_zdrop by lia. lia. }
  destruct Hpr as [-> | [-> | [Hpr Hfok]]]; [lia | lia |].
  unfold data in Hpr. rewrite zlen_zdrop in Hpr by lia.
  set (w1 := with_conn w _).
  destruct (process_websocket_frame cfg w1 f) as [proc w2] eqn:EQ.
  apply process_frame_inv in EQ as (Hp2 & Hr2 & Hc2 & Hx2); [ | done | done | lia]. cbn in Hr2, Hc2, Hx2.
  assert (HB2 : conn_bounded cfg hard_max w2).
  { unfold conn_bounded, recv_buffer_used. rewrite Hr2, Hc2, Hbl. done. }
  split_if; [intros [= <- <-]; done |].
  destruct (proc <? 0) eqn:E3.
  { intros [= <- <-]. cbn. split; [ | done]. unfold conn_bounded, recv_buffer_used. cbn. rewrite zlen_nil, Hc2.
    split_and!; try done; try lia. by apply Forall_nil. }
  intros H. apply IH in H as (HB' & Hx' & Hc'); [ | done | rewrite Hr2, Hbl; lia].
  split_and!; congruence || done.
Qed.

Lemma read_loop_bounded hard_max fuel : ∀ w rc w',
  conn_bounded cfg hard_max w → 0 < recv_buffer_capacity (w_conn w) → rx_bytes_ok (rx (w_sys w)) →
  read_loop cpu cfg now fuel hard_max w = (rc, w') → conn_bounded cfg hard_max w'.
Proof.
  induction fuel as [ | n IH]; intros w rc w' HB Hc Hrx; cbn [read_loop]; [intros [= <- <-]; done |].
  destruct (grow_recv hard_max w) as [o wg] eqn:EG.
  assert (HG : conn_bounded cfg hard_max wg ∧ rx (w_sys wg) = rx (w_sys w) ∧
     (∀ w1, o = Some w1 → w1 = wg ∧
        recv_buffer_used (w_conn wg) < recv_buffer_capacity (w_conn wg))).
  { revert EG. unfold grow_recv. destruct HB as (Hb & Hu & Hp).
    destruct (_ =? _) eqn:E1; zbool; [ | intros [= <- <-]; split_and!; try done; intros ? [= <-]; split; [done | lia]].
    destruct (hard_max <=? _) eqn:E2; zbool.
    { intros [= <- <-]. split_and!; try done. unfold conn_bounded, recv_buffer_used. cbn. rewrite zlen_nil.
      split_and!; try done; try lia. by apply Forall_nil. }
    destruct (alloc w) as [ok w1] eqn:EA. apply alloc_same in EA as ([Hca _] & _ & _ & Hxa & _).
    destruct ok; cbn [negb]; intros [= <- <-].
    - split_and!; [ | done | ].
      + unfold conn_bounded, recv_buffer_used in *. cbn. split_and!; try done; split_if; zbool; lia.
      + intros ? [= <-]. split; [done |]. unfold recv_buffer_used in *. cbn. split_if; zbool; lia.
    - unfold conn_bounded. rewrite Hca. split_and!; done || lia. }
  destruct HG as (HBg & Hxg & Hog). destruct o as [w1 | ]; [ | intros [= <- <-]; done].
  destruct (Hog w1 eq_refl) as [-> Hlt]. clear Hog EG HB.
  destruct (sys_recv _ _) as [[b | | | ] s2] eqn:ER; [ | intros [= <- <-]; exact HBg ..].
  pose proof ER as ER'. apply sys_recv_data in ER as (Hbne & Hbl & Hbytes & _); [ | lia].
  assert (Hrest : bytes_ok b ∧ rx_bytes_ok (rx s2)).
  { rewrite <- Hxg in Hrx. revert ER'. unfold sys_recv.
    destruct (rx (w_sys wg)) as [ | [[ | x d] | | | ] r]; try discriminate.
    apply Forall_cons in Hrx as [Hd Hr]. split_if; intros [= <- <-]; cbn; [done |].
    split; [by apply (Forall_take _ _ (x :: d)) |]. apply Forall_cons. split; [ | done].
    by apply (Forall_drop _ _ (x :: d)). }
  destruct Hrest as [Hbb Hrest]. set (w2 := mk_cw _ s2 _).
  assert (HB2 : conn_bounded cfg hard_max w2).
  { destruct HBg as (Hb & Hu & Hp). unfold conn_bounded, recv_buffer_used in *. cbn.
    rewrite bytes_ok_app, zlen_app. split_and!; try done; lia. }
  destruct (frames_loop cpu cfg _ w2 0) as [r3 w3] eqn:EL.
  apply (frames_loop_bounded hard_max) in EL as (HB3 & Hx3 & Hc3); [ | done |].
  2:{ unfold recv_buffer_used. pose proof (zlen_nonneg (recv_buffer (w_conn w2))). lia. }
  destruct r3 as [rc3 | ]; [intros [= <- <-]; done |].
  apply IH; [done | | by rewrite Hx3].
  rewrite Hc3. cbn. pose proof (zlen_nonneg (recv_buffer (w_conn wg))). unfold recv_buffer_used in Hlt. lia.
Qed.
End Hostile.

(** C20. Bounded memory under attack: whatever bytes a peer sends, in whatever pieces,
    a read event leaves the receive buffer within its capacity and that capacity
    within the message limit plus 64 (or the initial capacity), and the reassembly
    buffer exactly as long as the fragments received, at most the message limit, in a
    block of at most twice the limit (or 64 KiB). *)
Theorem handle_websocket_frames_bounded cpu cfg now w rc w' :
  0 <= max_message_size cfg < 2 ^ 31 - 14 →
  bytes_ok (recv_buffer (w_conn w)) → rx_bytes_ok (rx (w_sys w)) →
  recv_buffer_used (w_conn w) <= recv_buffer_capacity (w_conn w) →
  0 < recv_buffer_capacity (w_conn w) →
  parser_ok (max_message_size cfg) (parser (w_conn w)) →
  handle_websocket_frames cpu cfg now w = (rc, w') →
  conn_bounded cfg (Z.max (recv_buffer_capacity (w_conn w)) (max_message_size cfg + 64)) w'.
Proof.
  intros Hmax Hb Hrx Hu Hc Hp. unfold handle_websocket_frames.
  rewrite (proj2 (Z.eqb_neq _ 0)) by lia. set (hm := if _ <? _ then _ else _).
  assert (Hhm : hm = Z.max (recv_buffer_capacity (w_conn w)) (max_message_size cfg + 64))
    by (unfold hm; split_if; zbool; lia).
  rewrite Hhm. apply read_loop_bounded; try done. split_and!; try done; lia.
Qed.

Lemma handle_websocket_frames_bounded_witness :
  let w := mk_cw demo_conn (mk_sys [RxData [255; 255; 0; 1; 2]] [] [] false [] []) [] in
  let r := handle_websocket_frames (mk_cpu true true) demo_cfg 0 w in
  r.1 = -1 ∧ conn_bounded demo_cfg 16384 r.2.
Proof.
  cbv zeta. split; [reflexivity |].
  apply (handle_websocket_frames_bounded (mk_cpu true true) demo_cfg 0
    (mk_cw demo_conn (mk_sys [RxData [255; 255; 0; 1; 2]] [] [] false [] []) []) (-1)).
  - cbn. lia.
  - solve_bytes.
  - apply Forall_cons. split; [solve_bytes | by apply Forall_nil].
  - vm_compute. discriminate.
  - vm_compute. reflexivity.
  - done.
  - reflexivity.
Defined.
