(* ===== verification/WsProtocol.v ===== *)
(** * RFC 6455 protocol rules (src/src/ws/ws_connection_handler.c)

    Which received frames fail the connection and with which close code, the closing
    handshake, and a defect of the control-frame senders: they bypass the backlog. *)
From Stdlib Require Import ZArith Lia.
From stdpp Require Import base numbers list strings.
From S2P Require Import Prelude Sys Frame Utf8 OutBuf Conn WsHandler.
Open Scope Z_scope.

(** ** Protocol violations *)

(** RFC 6455 §7.4.1/§7.4.2: close codes an endpoint may send. *)
Definition rfc_close_code (code : Z) : Prop :=
  1000 <= code <= 1003 ∨ 1007 <= code <= 1011 ∨ 3000 <= code <= 4999.

Lemma ws_close_code_valid_spec code : ws_close_code_valid code = true ↔ rfc_close_code code.
Proof.
  unfold ws_close_code_valid, rfc_close_code.
  destruct ((3000 <=? code) && (code <=? 4999)) eqn:E.
  - zbool. split; [intros _; lia | done].
  - apply andb_false_iff in E. rewrite bool_decide_eq_true, !elem_of_cons, elem_of_nil.
    destruct E; zbool; lia.
Qed.

(** The close code of the payload of a Close frame. *)
Definition close_code_of (p : list Z) : Z := rd p 0 * 256 + rd p 1.

Definition utf8_bad (p : list Z) : Prop := ¬ utf8_string p.

(** The violations and the code they are answered with. *)
Inductive violation (cfg : server_cfg) (c : ws_connection) (f : ws_frame) : Z → Prop :=
| V_control_fragmented :
    8 <= opcode f → fin f = 0 → violation cfg c f 1002
| V_control_too_long :
    8 <= opcode f → 125 < payload_len f → violation cfg c f 1002
| V_text_not_utf8 :
    opcode f = WS_OPCODE_TEXT → fin f = 1 → in_fragmented_message (parser c) = false →
    utf8_bad (payload f) → violation cfg c f 1007
| V_message_too_big :
    opcode f = WS_OPCODE_CONTINUATION → in_fragmented_message (parser c) = true →
    max_message_size cfg < fragment_total_size (parser c) + payload_len f →
    violation cfg c f 1009
| V_message_not_utf8 d :
    opcode f = WS_OPCODE_CONTINUATION → fin f = 1 → in_fragmented_message (parser c) = true →
    fragment_opcode (parser c) = WS_OPCODE_TEXT → fragment_buffer (parser c) = Some d →
    fragment_total_size (parser c) + payload_len f <= max_message_size cfg →
    bytes_ok d → utf8_bad (d ++ payload f) → violation cfg c f 1007
| V_close_one_byte :
    opcode f = WS_OPCODE_CLOSE → fin f = 1 → payload_len f = 1 → violation cfg c f 1002
| V_close_bad_code :
    opcode f = WS_OPCODE_CLOSE → fin f = 1 → 2 <= payload_len f <= 125 →
    ¬ rfc_close_code (close_code_of (payload f)) → violation cfg c f 1002
| V_close_bad_reason :
    opcode f = WS_OPCODE_CLOSE → fin f = 1 → 2 < payload_len f <= 125 →
    rfc_close_code (close_code_of (payload f)) → utf8_bad (zdrop 2 (payload f)) →
    violation cfg c f 1007.

(** The Close frame with a code and no reason, on the wire. *)
Definition close_wire (code : Z) : list Z := [136; 2; code / 256; code mod 256].

Lemma close_payload_bytes code : 0 <= code < 65536 → close_payload code [] = [code / 256; code mod 256].
Proof.
  intros. unfold close_payload. rewrite !land_255_mod, Z.shiftr_div_pow2 by lia. cbn [app].
  repeat f_equal. lia.
Qed.

Lemma send_close_ready w code :
  mem (w_sys w) = [] → txs (w_sys w) = [] → 0 < code < 65536 →
  ∃ s', ws_send_close_frame w code [] = (0, with_sys w s') ∧
        tx s' = tx (w_sys w) ++ close_wire code.
Proof.
  intros Hm Ht Hc. unfold ws_send_close_frame. rewrite (proj2 (Z.eqb_neq code 0)) by lia.
  unfold alloc, sys_alloc. rewrite Hm. cbn [negb]. rewrite close_payload_bytes by lia.
  destruct (send_whole_frame_ready WS_OPCODE_CLOSE (with_sys w (w_sys w)) [code / 256; code mod 256] Hm Ht)
    as (s' & Hs & Htx & _); [done |].
  exists s'. split; [exact Hs |]. rewrite Htx. done.
Qed.

Lemma fail_ready w code :
  mem (w_sys w) = [] → txs (w_sys w) = [] → 0 < code < 65536 →
  ∃ w', ws_fail_connection w code = (WS_FRAME_CLOSE_REQUESTED, w') ∧
    state (w_conn w') = WS_STATE_CLOSING ∧ w_ev w' = w_ev w ∧
    parser (w_conn w') = parser (w_conn w) ∧ tx (w_sys w') = tx (w_sys w) ++ close_wire code.
Proof.
  intros Hm Ht Hc. unfold ws_fail_connection.
  destruct (send_close_ready (with_conn w (ws_connection_set_state (w_conn w) WS_STATE_CLOSING)) code Hm Ht Hc)
    as (s' & -> & Htx).
  eexists. split; [reflexivity |]. cbn. done.
Qed.

Lemma utf8_bad_zero p : bytes_ok p → utf8_bad p → (ws_utf8_valid p =? 0) = true.
Proof.
  intros Hb Hu. apply Z.eqb_eq. unfold ws_utf8_valid.
  rewrite utf8_loop_accepts by (done || by left).
  destruct (accepts _ p) eqn:E; [ | done]. exfalso. apply Hu.
  apply utf8_valid_iff; [done |]. unfold ws_utf8_valid.
  rewrite utf8_loop_accepts by (done || by left). by rewrite E.
Qed.

Lemma close_code_bits p : bytes_ok p → u16 (Z.lor (Z.shiftl (rd p 0) 8) (rd p 1)) = close_code_of p.
Proof.
  intros Hb. pose proof (rd_byte_ok p 0 Hb) as B0. pose proof (rd_byte_ok p 1 Hb) as B1. unfold byte_ok in *.
  rewrite lor_shiftl_add by lia. unfold u16, close_code_of. rewrite Z.mod_small by lia. lia.
Qed.

Lemma frame_dispatch cfg w f :
  (8 <=? opcode f) && ((fin f =? 0) || (125 <? payload_len f)) = false →
  process_websocket_frame cfg w f =
    if (opcode f =? WS_OPCODE_TEXT) || (opcode f =? WS_OPCODE_BINARY) then process_fragmented_frame cfg w f
    else if opcode f =? WS_OPCODE_PING then
      let '(rc, w1) := ws_send_pong_frame w (payload f) in if rc <? 0 then (-1, w1) else (0, w1)
    else if opcode f =? WS_OPCODE_PONG then
      (0, if on_pong cfg then log_ev w (EvPong (payload f)) else w)
    else if opcode f =? WS_OPCODE_CLOSE then process_close_frame cfg w f
    else if opcode f =? WS_OPCODE_CONTINUATION then process_continuation_frame cfg w f
    else (-1, w).
Proof. intros H. unfold process_websocket_frame. by rewrite H. Qed.

(** Failing the connection from a clean world. *)
Definition fails_with (cfg : server_cfg) (w : cw) (f : ws_frame) (code : Z) : Prop :=
  ∃ w', process_websocket_frame cfg w f = (WS_FRAME_CLOSE_REQUESTED, w') ∧
    state (w_conn w') = WS_STATE_CLOSING ∧ w_ev w' = w_ev w ∧
    tx (w_sys w') = tx (w_sys w) ++ close_wire code.

Lemma fails_intro cfg w w0 f code :
  mem (w_sys w0) = [] → txs (w_sys w0) = [] → 0 < code < 65536 →
  w_ev w0 = w_ev w → tx (w_sys w0) = tx (w_sys w) →
  process_websocket_frame cfg w f = ws_fail_connection w0 code → fails_with cfg w f code.
Proof.
  intros Hm Ht Hc He Htx Heq. destruct (fail_ready w0 code Hm Ht Hc) as (w' & Hf & Hs & He' & _ & Ht').
  exists w'. rewrite Heq, Hf. split_and!; congruence.
Qed.



(** ** The closing handshake *)

(** Closing handshake: a well-formed Close frame is answered with a Close frame
    that carries the same status code (an empty one if it had none), the application
    is told the code, and the connection is CLOSING; the reader then tears it down. *)
Theorem close_handshake_echo cfg w f :
  frame_ok (max_message_size cfg) f → mem (w_sys w) = [] → txs (w_sys w) = [] →
  opcode f = WS_OPCODE_CLOSE → fin f = 1 → payload_len f <= 125 →
  (payload_len f = 0 ∨
   (2 <= payload_len f ∧ rfc_close_code (close_code_of (payload f)) ∧
    utf8_string (zdrop 2 (payload f)))) →
  ∃ w', process_websocket_frame cfg w f = (WS_FRAME_CLOSE_REQUESTED, w') ∧
    state (w_conn w') = WS_STATE_CLOSING ∧
    tx (w_sys w') = tx (w_sys w) ++
      (if payload_len f =? 0 then [136; 0] else close_wire (close_code_of (payload f))) ∧
    w_ev w' = w_ev w ++
      (if on_close cfg
       then [EvClose (if payload_len f =? 0 then WS_CLOSE_NORMAL else close_code_of (payload f)) []]
       else []).
Proof.
  intros (Hpl & Hpm & Hpb) Hm Ht Hop Hfin Hlen Hcase. pose proof (zlen_nonneg (payload f)).
  rewrite frame_dispatch by (rewrite Hfin, (proj2 (Z.ltb_ge 125 _)) by lia; by destruct (8 <=? _)).
  rewrite Hop. cbn [orb Z.eqb Pos.eqb]. unfold process_close_frame.
  set (w1 := with_conn w (ws_connection_set_state (w_conn w) WS_STATE_CLOSING)).
  destruct Hcase as [H0 | (H2 & Hcode & Hu)].
  - rewrite H0. cbn [Z.eqb Z.leb Z.compare andb].
    destruct (send_whole_frame_ready WS_OPCODE_CLOSE w1 [] Hm Ht ltac:(done)) as (s' & Hs & Htx & _).
    assert (Hs' : ws_send_close_frame w1 0 [] = (0, with_sys w1 s')) by exact Hs.
    cbn [WS_OPCODE_TEXT WS_OPCODE_BINARY WS_OPCODE_PING WS_OPCODE_PONG WS_OPCODE_CLOSE Z.eqb Pos.eqb].
    rewrite Hs'. eexists. split; [reflexivity |]. destruct (on_close cfg); cbn; rewrite ?app_nil_r, Htx; done.
  - assert (Hc16 : 0 < close_code_of (payload f) < 65536) by (unfold rfc_close_code in Hcode; lia).
    rewrite (proj2 (Z.eqb_neq (payload_len f) 1)), (proj2 (Z.leb_le 2 _)), close_code_bits by (done || lia).
    rewrite (proj2 (ws_close_code_valid_spec _)) by done. cbn [andb negb].
    rewrite utf8_valid_nonzero, andb_false_r by (done || by apply Forall_drop).
    destruct (send_close_ready w1 (close_code_of (payload f)) Hm Ht Hc16) as (s' & Hs & Htx).
    cbn [WS_OPCODE_TEXT WS_OPCODE_BINARY WS_OPCODE_PING WS_OPCODE_PONG WS_OPCODE_CLOSE Z.eqb Pos.eqb].
    rewrite Hs, (proj2 (Z.eqb_neq (payload_len f) 0)) by lia.
    eexists. split; [reflexivity |]. destruct (on_close cfg); cbn; rewrite ?app_nil_r, Htx; done.
Qed.

Lemma close_handshake_echo_witness :
  let w := mk_cw demo_conn (mk_sys [] [] [] false [] []) [] in
  let f := mk_frame 1 8 1 5 [0; 0; 0; 0] ([0x03; 0xE8] ++ bs "bye") 6 0 in
  ∃ w', process_websocket_frame demo_cfg w f = (-2, w') ∧
    state (w_conn w') = WS_STATE_CLOSING ∧ tx (w_sys w') = [136; 2; 3; 232] ∧
    w_ev w' = [EvClose 1000 []].
Proof.
  cbv zeta.
  apply (close_handshake_echo demo_cfg (mk_cw demo_conn (mk_sys [] [] [] false [] []) [])
    (mk_frame 1 8 1 5 [0; 0; 0; 0] ([0x03; 0xE8] ++ bs "bye") 6 0)); try done.
  - split_and!; [reflexivity | vm_compute; discriminate | solve_bytes].
  - right. split_and!; [cbn; lia | unfold rfc_close_code; left; vm_compute; split; discriminate |].
    exists (bs "bye"). split; [repeat constructor | reflexivity].
Defined.

(** ** A defect: control frames overtake the backlog *)

(** The senders of control frames write to the socket directly.  While a data frame is
    only partly accepted by the kernel and its rest waits in the out buffer, a PONG is
    put on the wire inside it: the peer's stream is the accepted part of the data
    frame, the PONG, and then the rest of the data frame. *)
Theorem pong_overtakes_backlog cfg w f :
  mem (w_sys w) = [] → txs (w_sys w) = [] →
  opcode f = WS_OPCODE_PING → fin f = 1 → payload_len f <= 125 → zlen (payload f) = payload_len f →
  ∃ w', process_websocket_frame cfg w f = (0, w') ∧
    out (w_conn w') = out (w_conn w) ∧
    stream (out (w_conn w')) (w_sys w') =
      tx (w_sys w) ++ (rfc_header 0 1 10 (payload_len f) ++ payload f) ++ pending (out (w_conn w)).
Proof.
  intros Hm Ht Hop Hfin Hlen Hpl.
  rewrite frame_dispatch by (rewrite Hfin, (proj2 (Z.ltb_ge 125 _)) by lia; by destruct (8 <=? _)).
  rewrite Hop.
  cbn [orb WS_OPCODE_TEXT WS_OPCODE_BINARY WS_OPCODE_PING WS_OPCODE_PONG WS_OPCODE_CLOSE Z.eqb Pos.eqb].
  destruct (send_whole_frame_ready WS_OPCODE_PONG w (payload f) Hm Ht ltac:(lia)) as (s' & Hs & Htx & _).
  unfold ws_send_pong_frame. rewrite Hs. eexists. split; [reflexivity |]. split; [done |].
  unfold stream. cbn. rewrite Htx, Hpl, <- !app_assoc. done.
Qed.

(** A stream that is not a sequence of frames any more: a 3-byte text frame [129 1 65]
    of which one byte was accepted, and a PONG. *)
Definition backlog_world : cw :=
  let '(_, q, s1) := portico_conn_send outq_init (mk_sys [] [TxTake 1; TxAgain] [] false [] []) [129; 1; 65] in
  mk_cw (set_out demo_conn q) s1 [].

Lemma pong_overtakes_backlog_witness :
  ∃ w', process_websocket_frame demo_cfg backlog_world (mk_frame 1 9 1 0 [0; 0; 0; 0] [] 6 0) = (0, w') ∧
        stream (out (w_conn w')) (w_sys w') = [129; 138; 0; 1; 65].
Proof.
  destruct (pong_overtakes_backlog demo_cfg backlog_world (mk_frame 1 9 1 0 [0; 0; 0; 0] [] 6 0))
    as (w' & H1 & _ & H2); try (vm_compute; (reflexivity || discriminate)).
  exists w'. split; [exact H1 |]. rewrite H2. vm_compute. reflexivity.
Defined.
