(* ===== verification/HttpRequest.v ===== *)
(** * HTTP requests (src/src/http/request.c)

    Header lookup, the smuggling-resistant resolution of the body framing, keep-alive
    tokens and [portico_http_parse].  The header tokenizer (picohttpparser) is vendored
    code: it is a parameter, with its documented contract as hypotheses. *)
From Stdlib Require Import ZArith Lia.
From stdpp Require Import base numbers list strings.
From S2P Require Import Prelude Cstr.
Open Scope Z_scope.

Definition PORTICO_MAX_BODY : Z := 16 * 1024 * 1024.
Definition PORTICO_MAX_HEADER_SIZE : Z := 32 * 1024.

(** [portico_header_t]. *)
Record header := mk_header { h_name : list Z; h_value : list Z }.

(** [portico_request_t]; [query = None] is NULL. *)
Record request := mk_request {
  method : list Z;
  path : list Z;
  query : option (list Z);
  minor_version : Z;
  headers : list header;
  body : list Z;
  keep_alive : bool;
  client_ip : list Z
}.

(** ** Header lookup *)

(** [h->name_len == n && strncasecmp(h->name, name, n) == 0]. *)
Definition name_is (h : header) (name : list Z) : bool :=
  (zlen (h_name h) =? zlen name) && (ws_strncasecmp (h_name h) name (length name) =? 0).

Definition portico_req_method_is (r : request) (m : list Z) : bool := bool_decide (method r = m).
Definition portico_req_path_is (r : request) (p : list Z) : bool := bool_decide (path r = p).

Fixpoint req_header (hs : list header) (name : list Z) : option (list Z) :=
  match hs with
  | [] => None
  | h :: t => if name_is h name then Some (h_value h) else req_header t name
  end.
Definition portico_req_header (r : request) (name : list Z) : option (list Z) :=
  req_header (headers r) name.

(** ** Body framing *)

Definition is_ows (c : Z) : bool := (c =? 32) || (c =? 9).

Fixpoint drop_ows (l : list Z) : list Z :=
  match l with
  | [] => []
  | c :: t => if is_ows c then drop_ows t else l
  end.

(** The two trimming loops around [[start, j)]. *)
Definition trim_ows (l : list Z) : list Z := rev (drop_ows (rev (drop_ows l))).

(** The elements between commas ([n] commas give [n + 1] elements). *)
Fixpoint split_comma (l cur : list Z) : list (list Z) :=
  match l with
  | [] => [rev cur]
  | c :: t => if c =? 44 then rev cur :: split_comma t [] else split_comma t (c :: cur)
  end.

(** The digit loop, with its overflow check. *)
Fixpoint digits_loop (l : list Z) (val : Z) : option Z :=
  match l with
  | [] => Some val
  | c :: t =>
      if (c <? 48) || (57 <? c) then None
      else if (LONG_MAX - (c - 48)) / 10 <? val then None
      else digits_loop t (val * 10 + (c - 48))
  end.

(** One element of a Content-Length value; the state is [have_clen], [agreed]. *)
Definition clen_element (e : list Z) (st : bool * Z) : option (bool * Z) :=
  let '(have_clen, agreed) := st in
  let x := trim_ows e in
  match x with
  | [] => None
  | _ =>
      match digits_loop x 0 with
      | None => None
      | Some val =>
          if have_clen && negb (val =? agreed) then None else Some (true, val)
      end
  end.

Fixpoint clen_elements (es : list (list Z)) (st : bool * Z) : option (bool * Z) :=
  match es with
  | [] => Some st
  | e :: t => match clen_element e st with None => None | Some st' => clen_elements t st' end
  end.

Definition TRANSFER_ENCODING : list Z := bs "Transfer-Encoding".
Definition CONTENT_LENGTH : list Z := bs "Content-Length".

(** The loop over the headers: an error code, or the final state. *)
Fixpoint framing_loop (hs : list header) (st : bool * Z) : Z + bool * Z :=
  match hs with
  | [] => inr st
  | h :: t =>
      if name_is h TRANSFER_ENCODING then inl (-3)
      else if negb (name_is h CONTENT_LENGTH) then framing_loop t st
      else
        match clen_elements (split_comma (h_value h) []) st with
        | None => inl (-1)
        | Some st' => framing_loop t st'
        end
  end.

Definition resolve_body_framing (hs : list header) : Z * Z :=
  match framing_loop hs (false, 0) with
  | inl rc => (rc, 0)
  | inr (have_clen, agreed) => (0, if have_clen then agreed else 0)
  end.

(** ** Connection tokens *)

Definition is_tok_delim (c : Z) : bool := (c =? 44) || (c =? 32) || (c =? 9).

Fixpoint skip_delims (v : list Z) : list Z :=
  match v with
  | [] => []
  | c :: t => if is_tok_delim c then skip_delims t else v
  end.

(** The bounds of the token at the cursor: the token and the rest. *)
Fixpoint take_token (v : list Z) : list Z * list Z :=
  match v with
  | [] => ([], [])
  | c :: t => if is_tok_delim c then ([], v) else let '(a, b) := take_token t in (c :: a, b)
  end.

(** [while (i < vlen)]; [fuel] is at least the number of tokens. *)
Fixpoint token_scan (fuel : nat) (v token : list Z) : bool :=
  match fuel with
  | O => false
  | S f =>
      match v with
      | [] => false
      | _ =>
          let '(tok, rest) := take_token (skip_delims v) in
          if (zlen tok =? zlen token) && (ws_strncasecmp tok token (length token) =? 0) then true
          else token_scan f rest token
      end
  end.

Definition header_token_present (hs : list header) (name token : list Z) : bool :=
  match req_header hs name with
  | None => false
  | Some v => token_scan (S (length v)) v token
  end.

(** ** Parsing *)

(** What picohttpparser reports of a complete head: bytes consumed, method, request
    target, minor version, headers. *)
Record phr_result := mk_phr {
  phr_len : Z;
  phr_method : list Z;
  phr_path : list Z;
  phr_minor : Z;
  phr_headers : list header
}.

(** The three outcomes of [phr_parse_request]. *)
Inductive phr_outcome := PhrIncomplete | PhrMalformed | PhrOk (r : phr_result).

(** [memchr(path, '?', path_len)]. *)
Fixpoint split_query (p : list Z) : list Z * option (list Z) :=
  match p with
  | [] => ([], None)
  | c :: t => if c =? 63 then ([], Some t) else let '(a, q) := split_query t in (c :: a, q)
  end.

Section Parse.
Context (phr_parse_request : list Z → phr_outcome).

(** [portico_http_parse]: the code and the request. *)
Definition portico_http_parse (buf : list Z) : Z * option request :=
  match phr_parse_request buf with
  | PhrIncomplete => (0, None)
  | PhrMalformed => (-1, None)
  | PhrOk r =>
      let '(p, q) := split_query (phr_path r) in
      let '(fr, clen) := resolve_body_framing (phr_headers r) in
      if negb (fr =? 0) then (fr, None)
      else if PORTICO_MAX_BODY <? clen then (-2, None)
      else
        let total := phr_len r + clen in
        if zlen buf <? total then (0, None)
        else
          let b := ztake clen (zdrop (phr_len r) buf) in
          let ka := if 1 <=? phr_minor r
                    then negb (header_token_present (phr_headers r) (bs "Connection") (bs "close"))
                    else header_token_present (phr_headers r) (bs "Connection") (bs "keep-alive") in
          (i32 total, Some (mk_request (phr_method r) p q (phr_minor r) (phr_headers r) b ka []))
  end.
End Parse.

(** ** Framing: soundness and completeness *)

(** Two names are the same up to ASCII case. *)
Definition same_name (a b : list Z) : Prop := map tolower a = map tolower b.

Lemma name_is_spec h name :
  cstr (h_name h) → cstr name → name_is h name = true ↔ same_name (h_name h) name.
Proof.
  intros H1 H2. unfold name_is, same_name. rewrite andb_true_iff, !Z.eqb_eq, strncasecmp_eq by done.
  unfold zlen. split.
  - intros [Hl He]. rewrite !take_ge in He by lia. done.
  - intros He. assert (Hl : length (h_name h) = length name)
      by (apply (f_equal length) in He; by rewrite !length_map in He).
    split; [by rewrite Hl | by rewrite !take_ge by lia].
Qed.

Definition is_digit (c : Z) : bool := (48 <=? c) && (c <=? 57).

(** The number a digit string denotes, unbounded. *)
Fixpoint dec_value (l : list Z) (acc : Z) : Z :=
  match l with
  | [] => acc
  | c :: t => dec_value t (acc * 10 + (c - 48))
  end.

Lemma dec_value_mono l acc : forallb is_digit l = true → 0 <= acc → acc <= dec_value l acc.
Proof.
  revert acc. induction l as [ | c t IH]; intros acc Hd Ha; cbn in *; [lia |].
  apply andb_prop in Hd as [Hc Hd]. unfold is_digit in Hc. zbool.
  specialize (IH (acc * 10 + (c - 48)) Hd ltac:(lia)). lia.
Qed.

(** The overflow check is exact: the loop fails on a digit string only if its value
    does not fit a [long]. *)
Lemma digits_loop_spec l acc v :
  0 <= acc →
  digits_loop l acc = Some v ↔
  forallb is_digit l = true ∧ v = dec_value l acc ∧ (l = [] ∨ dec_value l acc <= LONG_MAX).
Proof.
  revert acc. induction l as [ | c t IH]; intros acc Ha; cbn [digits_loop dec_value forallb].
  - split; [intros [= <-]; auto | intros (_ & -> & _); done].
  - unfold is_digit at 1. destruct ((c <? 48) || (57 <? c)) eqn:E.
    + split; [done |]. intros (Hd & _). apply andb_prop in Hd as [Hd _].
      rewrite andb_true_iff in Hd. apply orb_true_iff in E. exfalso. destruct E; zbool; lia.
    + zbool. rewrite (proj2 (Z.leb_le 48 c)), (proj2 (Z.leb_le c 57)) by lia. cbn [andb].
      destruct (_ <? acc) eqn:E2; zbool.
      * split; [done |]. intros (Hd & _ & [? | Hle]); [done |].
        pose proof (dec_value_mono t (acc * 10 + (c - 48)) Hd ltac:(lia)).
        unfold LONG_MAX in *. lia.
      * rewrite IH by lia. split.
        -- intros (Hd & -> & [-> | Hle]); split_and!; auto. right. cbn. unfold LONG_MAX in *. lia.
        -- intros (Hd & -> & [? | Hle]); [done |]. auto.
Qed.

(** An element of a Content-Length list with value [n]. *)
Definition clen_elem_ok (n : Z) (e : list Z) : Prop :=
  trim_ows e ≠ [] ∧ forallb is_digit (trim_ows e) = true ∧
  dec_value (trim_ows e) 0 = n ∧ n <= LONG_MAX.

Lemma clen_element_spec e st st' :
  clen_element e st = Some st' ↔
  st'.1 = true ∧ clen_elem_ok st'.2 e ∧ (st.1 = true → st.2 = st'.2).
Proof.
  unfold clen_element, clen_elem_ok. destruct st as [have agreed], st' as [have' v]. cbn [fst snd].
  destruct (trim_ows e) as [ | c t] eqn:Et.
  - split; [done |]. by intros (_ & (? & _) & _).
  - destruct (digits_loop (c :: t) 0) as [val | ] eqn:Ed.
    + apply digits_loop_spec in Ed as (Hd & -> & [? | Hle]); [done | | lia].
      destruct (have && negb (_ =? agreed)) eqn:E.
      * split; [done |]. intros (_ & (_ & _ & Hv & _) & Ha).
        zbool. subst. specialize (Ha eq_refl). congruence.
      * split.
        -- intros [= <- <-]. split_and!; try done. intros ->. cbn in E. zbool. done.
        -- intros (-> & (_ & _ & <- & _) & _). done.
    + split; [done |]. intros (_ & (_ & Hd & <- & Hle) & _). exfalso.
      enough (digits_loop (c :: t) 0 = Some (dec_value (c :: t) 0)) by congruence.
      apply digits_loop_spec; [lia |]. auto.
Qed.

Lemma clen_elements_spec es st st' :
  clen_elements es st = Some st' ↔
  (es = [] ∧ st' = st) ∨
  (es ≠ [] ∧ st'.1 = true ∧ Forall (clen_elem_ok st'.2) es ∧ (st.1 = true → st.2 = st'.2)).
Proof.
  revert st. induction es as [ | e t IH]; intros st; cbn [clen_elements].
  - split; [intros [= <-]; auto |]. intros [[_ ->] | [? _]]; done.
  - destruct (clen_element e st) as [s1 | ] eqn:E.
    + apply clen_element_spec in E as (H1 & He & Hs). rewrite IH. split.
      * intros [[-> ->] | (_ & H1' & Ht & Hs')]; right.
        -- split_and!; auto.
        -- specialize (Hs' H1). rewrite Hs' in *. split_and!; auto.
      * intros [[? _] | (_ & H1' & Ht & Hs')]; [done |].
        apply Forall_cons in Ht as [He' Ht].
        assert (Heq : s1.2 = st'.2) by (destruct He as (_ & _ & <- & _), He' as (_ & _ & <- & _); done).
        destruct t; [left; split; [done |] | right; split_and!; auto].
        destruct st', s1; cbn in *; congruence.
    + split; [done |]. intros [[? _] | (_ & H1' & Ht & Hs')]; [done |].
      apply Forall_cons in Ht as [He' _]. exfalso.
      enough (clen_element e st = Some st') by congruence. by apply clen_element_spec.
Qed.

Lemma split_comma_ne l cur : split_comma l cur ≠ [].
Proof. revert cur. induction l; intros; cbn; [done | split_if; done || auto]. Qed.

(** All elements of all Content-Length headers. *)
Fixpoint all_clens (hs : list header) : list (list Z) :=
  match hs with
  | [] => []
  | h :: t => (if name_is h CONTENT_LENGTH then split_comma (h_value h) [] else []) ++ all_clens t
  end.

Definition no_transfer_encoding (hs : list header) : Prop :=
  Forall (λ h, name_is h TRANSFER_ENCODING = false) hs.

Lemma framing_loop_spec hs st st' :
  framing_loop hs st = inr st' ↔
  no_transfer_encoding hs ∧
  ((all_clens hs = [] ∧ st' = st) ∨
   (all_clens hs ≠ [] ∧ st'.1 = true ∧ Forall (clen_elem_ok st'.2) (all_clens hs) ∧
    (st.1 = true → st.2 = st'.2))).
Proof.
  unfold no_transfer_encoding. revert st. induction hs as [ | h t IH]; intros st; cbn [framing_loop all_clens].
  - split; [intros [= <-]; auto |]. intros [_ [[_ ->] | [? _]]]; done.
  - rewrite Forall_cons. destruct (name_is h TRANSFER_ENCODING) eqn:ET; [split; [done | by intros [[? _] _]] |].
    destruct (name_is h CONTENT_LENGTH) eqn:EC; cbn [negb app].
    + pose proof (split_comma_ne (h_value h) []) as Hne.
      destruct (clen_elements (split_comma (h_value h) []) st) as [s1 | ] eqn:E.
      * apply clen_elements_spec in E as [[? _] | (_ & H1 & Hs1 & Hst)]; [done |].
        rewrite IH. split.
        -- intros (HT & Hcase). split; [done |]. right. split; [by intros [? _]%app_eq_nil |].
           destruct Hcase as [[-> ->] | (Hn & H1' & Hall & Heq)].
           ++ rewrite app_nil_r. auto.
           ++ specialize (Heq H1). rewrite Heq in *. split_and!; auto. by apply Forall_app.
        -- intros ([_ HT] & Hcase). split; [done |].
           destruct Hcase as [[[? _]%app_eq_nil _] | (_ & H1' & Hall & Heq)]; [done |].
           apply Forall_app in Hall as [Ha Hb].
           assert (Hv : s1.2 = st'.2).
           { destruct (split_comma (h_value h) []) as [ | e0 es0]; [done |].
             apply Forall_cons in Ha as [(_ & _ & <- & _) _]. by apply Forall_cons in Hs1 as [(_ & _ & <- & _) _]. }
           destruct (all_clens t); [left; split; [done |] | right; split_and!; auto].
           destruct st', s1; cbn in *; congruence.
      * split; [done |]. intros ([_ HT] & Hcase). exfalso.
        destruct Hcase as [[[? _]%app_eq_nil _] | (_ & H1' & Hall & Heq)]; [done |].
        apply Forall_app in Hall as [Ha _].
        enough (clen_elements (split_comma (h_value h) []) st = Some st') by congruence.
        apply clen_elements_spec. auto.
    + rewrite IH. split; intros (H1 & H2); split; tauto.
Qed.

Lemma framing_loop_codes hs st rc : framing_loop hs st = inl rc → rc = -1 ∨ rc = -3.
Proof.
  revert st. induction hs as [ | h t IH]; intros st; cbn [framing_loop]; [done |].
  split_if; [intros [= <-]; auto |]. split_if; [apply IH |].
  destruct (clen_elements _ st); [apply IH | intros [= <-]; auto].
Qed.

Lemma resolve_framing_spec hs n :
  resolve_body_framing hs = (0, n) ↔
  no_transfer_encoding hs ∧
  ((all_clens hs = [] ∧ n = 0) ∨ (all_clens hs ≠ [] ∧ Forall (clen_elem_ok n) (all_clens hs))).
Proof.
  unfold resolve_body_framing. destruct (framing_loop hs (false, 0)) as [rc | [have v]] eqn:E.
  - pose proof (framing_loop_codes _ _ _ E) as Hrc. split.
    + intros [= -> _]. lia.
    + intros (HT & Hcase). exfalso.
      assert (framing_loop hs (false, 0) = inr (match all_clens hs with [] => false | _ => true end, n)).
      { apply framing_loop_spec. split; [done |].
        destruct Hcase as [[Ha ->] | [Ha Hall]]; [left; by rewrite Ha | right].
        destruct (all_clens hs) eqn:E2; [done |]. split_and!; done. }
      congruence.
  - apply framing_loop_spec in E as (HT & Hcase). cbn [fst snd] in Hcase. split.
    + intros [= <-]. split; [done |].
      destruct Hcase as [[Ha [= -> ->]] | (Ha & -> & Hall & _)]; auto.
    + intros (_ & Hcase'). destruct Hcase as [[Ha [= -> ->]] | (Ha & -> & Hall & _)].
      * destruct Hcase' as [[_ ->] | [? _]]; done.
      * destruct Hcase' as [[? _] | [_ Hall']]; [done |]. do 2 f_equal.
        destruct (all_clens hs); [done |]. apply Forall_cons in Hall as [(_ & _ & <- & _) _].
        by apply Forall_cons in Hall' as [(_ & _ & <- & _) _].
Qed.

(** C16. Request smuggling: a body length is accepted exactly when there is no
    Transfer-Encoding header in any letter case and every element of every
    Content-Length header (they may repeat, or be comma lists) is a non-empty run of
    digits that denotes that same number, which fits a [long]; without any
    Content-Length the body is empty.  Anything else is refused, as 400 or 501. *)
Theorem resolve_body_framing_correct hs n :
  Forall (λ h, cstr (h_name h)) hs →
  (resolve_body_framing hs = (0, n) ↔
   Forall (λ h, ¬ same_name (h_name h) TRANSFER_ENCODING) hs ∧
   ((all_clens hs = [] ∧ n = 0) ∨ (all_clens hs ≠ [] ∧ Forall (clen_elem_ok n) (all_clens hs)))) ∧
  (∀ rc m, resolve_body_framing hs = (rc, m) → rc = 0 ∨ (m = 0 ∧ (rc = -1 ∨ rc = -3))).
Proof.
  intros Hc. split.
  - rewrite resolve_framing_spec. unfold no_transfer_encoding.
    assert (HTE : cstr TRANSFER_ENCODING) by solve_cstr.
    assert (Heq : Forall (λ h, name_is h TRANSFER_ENCODING = false) hs ↔
                  Forall (λ h, ¬ same_name (h_name h) TRANSFER_ENCODING) hs).
    { rewrite !Forall_forall in *. split; intros H h Hh; specialize (H h Hh); specialize (Hc h Hh).
      - intros Hs. apply name_is_spec in Hs; [congruence | done..].
      - destruct (name_is h TRANSFER_ENCODING) eqn:E; [ | done]. by apply name_is_spec in E. }
    tauto.
  - intros rc m. unfold resolve_body_framing.
    destruct (framing_loop hs (false, 0)) as [rc' | [have v]] eqn:E; intros [= <- <-]; [ | auto].
    right. split; [done | by eapply framing_loop_codes].
Qed.

Lemma resolve_body_framing_correct_witness :
  resolve_body_framing [mk_header (bs "content-length") (bs "5, 5"); mk_header (bs "X") (bs "y")] = (0, 5) ∧
  resolve_body_framing [mk_header (bs "Content-Length") (bs "+5")] = (-1, 0).
Proof.
  split; [ | reflexivity].
  assert (Hc : Forall (λ h, cstr (h_name h))
            [mk_header (bs "content-length") (bs "5, 5"); mk_header (bs "X") (bs "y")])
    by (repeat (apply List.Forall_cons; [solve_cstr |]); apply List.Forall_nil).
  destruct (resolve_body_framing_correct
    [mk_header (bs "content-length") (bs "5, 5"); mk_header (bs "X") (bs "y")] 5 Hc) as [[_ H] _].
  apply H. split.
  - repeat (apply Forall_cons; split; [vm_compute; discriminate |]). by apply Forall_nil.
  - right. split; [vm_compute; discriminate |].
    vm_compute all_clens. repeat (apply Forall_cons; split; [unfold clen_elem_ok; vm_compute; intuition discriminate |]).
    by apply Forall_nil.
Defined.

(** ** Tokens *)

Lemma take_token_len v : (length (take_token v).2 <= length v)%nat.
Proof.
  induction v as [ | c t IH]; cbn; [lia |]. split_if; [cbn; lia |].
  destruct (take_token t). cbn in *. lia.
Qed.

Lemma skip_delims_len v : (length (skip_delims v) <= length v)%nat.
Proof. induction v as [ | c t IH]; cbn; [lia |]. split_if; cbn; lia. Qed.

Lemma strtok_all_acc v cur :
  cur ≠ [] →
  strtok_all is_tok_delim v cur =
  (rev cur ++ (take_token v).1) :: strtok_all is_tok_delim (take_token v).2 [].
Proof.
  revert cur. induction v as [ | c t IH]; intros cur Hc; cbn [strtok_all take_token].
  - destruct cur; [done |]. cbn. by rewrite app_nil_r.
  - destruct (is_tok_delim c) eqn:E.
    + destruct cur; [done |]. cbn [fst snd strtok_all]. rewrite E, app_nil_r. done.
    + rewrite IH by done. destruct (take_token t) as [a b]. cbn [fst snd rev].
      by rewrite <- app_assoc.
Qed.

Lemma strtok_all_skip v :
  strtok_all is_tok_delim v [] =
  match skip_delims v with
  | [] => []
  | _ => (take_token (skip_delims v)).1 :: strtok_all is_tok_delim (take_token (skip_delims v)).2 []
  end.
Proof.
  induction v as [ | c t IH]; [done |]. cbn [strtok_all skip_delims].
  destruct (is_tok_delim c) eqn:E; [done |].
  rewrite strtok_all_acc by done. cbn [take_token]. rewrite E.
  destruct (take_token t) as [a b]. done.
Qed.

Lemma take_token_skip v : skip_delims v ≠ [] →
  (length (take_token (skip_delims v)).2 < length v)%nat.
Proof.
  intros H. pose proof (skip_delims_len v) as HL. 
  assert (∀ w, (∃ c t, w = c :: t ∧ is_tok_delim c = false) → (length (take_token w).2 < length w)%nat) as Hw.
  { intros w (c & t & -> & Hc). cbn. rewrite Hc. pose proof (take_token_len t).
    destruct (take_token t). cbn in *. lia. }
  enough (∃ c t, skip_delims v = c :: t ∧ is_tok_delim c = false) as Hx by (specialize (Hw _ Hx); lia).
  clear HL Hw. induction v as [ | c t IH]; [done |]. cbn in *. destruct (is_tok_delim c) eqn:E; [auto | eauto].
Qed.

Lemma token_scan_spec fuel v token :
  (length v < fuel)%nat → token ≠ [] →
  token_scan fuel v token =
  existsb (λ tok, (zlen tok =? zlen token) && (ws_strncasecmp tok token (length token) =? 0))
    (strtok_all is_tok_delim v []).
Proof.
  revert v. induction fuel as [ | f IH]; intros v Hf Ht; [lia |]. cbn [token_scan].
  destruct v as [ | c t]; [done |]. rewrite strtok_all_skip.
  destruct (decide (skip_delims (c :: t) = [])) as [E | Hne].
  - rewrite E. cbn [take_token existsb].
    assert ((zlen (@nil Z) =? zlen token) = false) as ->.
    { apply Z.eqb_neq. rewrite zlen_nil. intros H. symmetry in H. by apply zlen_0_nil in H. }
    cbn [andb]. destruct f; done.
  - pose proof (take_token_skip (c :: t) Hne) as Hlt.
    destruct (skip_delims (c :: t)) as [ | c' t'] eqn:E; [done |]. rewrite <- E in *.
    destruct (take_token (skip_delims (c :: t))) as [tok rest]. cbn [existsb fst snd] in *.
    destruct (_ && _); [done |]. cbn [orb]. rewrite IH by (done || lia).
    rewrite strtok_all_skip. done.
Qed.

(** Keep-alive tokens: a Connection header contains a token exactly when one of
    its maximal comma/space/tab-delimited pieces equals it up to letter case; a token
    is never found inside a longer word. *)
Theorem header_token_present_correct hs name token :
  token ≠ [] → cstr token → Forall (λ h, cstr (h_value h)) hs →
  header_token_present hs name token = true ↔
  ∃ v tok, req_header hs name = Some v ∧ tok ∈ strtok_all is_tok_delim v [] ∧ same_name tok token.
Proof.
  intros Hne Hct Hcv. unfold header_token_present.
  destruct (req_header hs name) as [v | ] eqn:E; [ | split; [done | by intros (? & ? & [=] & _)]].
  assert (Hv : cstr v).
  { revert E. induction Hcv as [ | h t Hh Ht IH]; cbn; [done |]. split_if; [by intros [= <-] | auto]. }
  assert (Htok : Forall cstr (strtok_all is_tok_delim v [])).
  { clear E. assert (H : ∀ cur, cstr cur → Forall cstr (strtok_all is_tok_delim v cur)); [ | by apply H, Forall_nil].
    induction Hv as [ | c t Hc Ht IH]; intros cur Hcur; cbn.
    - destruct cur; [by apply Forall_nil | apply Forall_cons; split; [by apply Forall_rev | by apply Forall_nil]].
    - split_if; [ | apply IH; by apply Forall_cons].
      destruct cur; [by apply IH, Forall_nil | apply Forall_cons; split; [by apply Forall_rev | by apply IH, Forall_nil]]. }
  rewrite token_scan_spec by (done || lia). rewrite existsb_exists. split.
  - intros (tok & Hin & Hb). exists v, tok. apply list_elem_of_In in Hin.
    rewrite Forall_forall in Htok. split_and!; [done | done |].
    apply (name_is_spec (mk_header tok [])); [by apply Htok | done | exact Hb].
  - intros (v' & tok & [= <-] & Hin & Hs). exists tok. split; [by apply list_elem_of_In |].
    rewrite Forall_forall in Htok. apply (name_is_spec (mk_header tok [])) in Hs; [exact Hs | by apply Htok | done].
Qed.

Lemma header_token_present_correct_witness :
  header_token_present [mk_header (bs "Connection") (bs "Upgrade, CLOSE")] (bs "connection") (bs "close") = true ∧
  header_token_present [mk_header (bs "Connection") (bs "not-close")] (bs "Connection") (bs "close") = false.
Proof.
  split; [ | reflexivity].
  apply (header_token_present_correct [mk_header (bs "Connection") (bs "Upgrade, CLOSE")]
           (bs "connection") (bs "close")).
  - discriminate.
  - solve_cstr.
  - apply Forall_cons. split; [solve_cstr | by apply Forall_nil].
  - exists (bs "Upgrade, CLOSE"), (bs "CLOSE"). split; [reflexivity |]. split; [right; left | reflexivity].
Defined.

(** ** Parsing and consuming *)

Section ParseSpec.
Context (phr_parse_request : list Z → phr_outcome).

(** The contract of the vendored tokenizer: it consumes a non-empty head that lies
    inside the buffer, and what it reports depends on that head only. *)
Definition phr_contract : Prop :=
  (∀ buf r, phr_parse_request buf = PhrOk r → 0 < phr_len r <= zlen buf) ∧
  (∀ buf r rest, phr_parse_request buf = PhrOk r →
     phr_parse_request (ztake (phr_len r) buf ++ rest) = PhrOk r).

Context (Hphr : phr_contract).

Lemma resolve_framing_nonneg hs n : resolve_body_framing hs = (0, n) → 0 <= n.
Proof.
  intros H. apply resolve_framing_spec in H as (_ & [[_ ->] | [Hne Hall]]); [lia |].
  destruct (all_clens hs) as [ | e t]; [done |]. apply Forall_cons in Hall as [(_ & Hd & <- & _) _].
  by apply dec_value_mono.
Qed.

Lemma resolve_framing_code hs fr n : resolve_body_framing hs = (fr, n) → fr = 0 ∨ fr = -1 ∨ fr = -3.
Proof.
  unfold resolve_body_framing. destruct (framing_loop hs (false, 0)) as [rc | [h v]] eqn:E; intros [= <- <-]; [ | auto].
  apply framing_loop_codes in E. tauto.
Qed.

(** A complete request: its total length and where its body lies. *)
Lemma http_parse_ok buf n r :
  zlen buf < 2 ^ 31 → portico_http_parse phr_parse_request buf = (n, Some r) →
  ∃ h, phr_parse_request buf = PhrOk h ∧ 0 < phr_len h <= n ∧ n <= zlen buf ∧
    n = phr_len h + zlen (body r) ∧ zlen (body r) <= PORTICO_MAX_BODY ∧
    resolve_body_framing (headers r) = (0, zlen (body r)) ∧
    body r = ztake (zlen (body r)) (zdrop (phr_len h) buf) ∧
    method r = phr_method h ∧ headers r = phr_headers h ∧ client_ip r = [].
Proof.
  intros Hl. unfold portico_http_parse. destruct (phr_parse_request buf) as [ | | h] eqn:EP; [done | done |].
  destruct (split_query (phr_path h)) as [p q].
  destruct (resolve_body_framing (phr_headers h)) as [fr clen] eqn:EF.
  destruct (fr =? 0) eqn:E1; cbn [negb]; [zbool; subst fr | done].
  destruct (_ <? clen) eqn:E2; [done |]. destruct (zlen buf <? _) eqn:E3; [done |]. zbool.
  pose proof (resolve_framing_nonneg _ _ EF) as Hn. pose proof (proj1 Hphr _ _ EP) as Hb.
  unfold PORTICO_MAX_BODY in *. rewrite i32_small by lia. intros [= <- <-]. exists h. cbn.
  assert (Hbl : zlen (ztake clen (zdrop (phr_len h) buf)) = clen)
    by (rewrite zlen_ztake; rewrite ?zlen_zdrop; lia).
  rewrite Hbl. split_and!; try done; lia.
Qed.

(** Parsing looks at the request's own bytes only. *)
Lemma http_parse_local buf n r rest :
  zlen buf < 2 ^ 31 → n + zlen rest < 2 ^ 31 → portico_http_parse phr_parse_request buf = (n, Some r) →
  portico_http_parse phr_parse_request (ztake n buf ++ rest) = (n, Some r).
Proof.
  intros Hl Hlr H. pose proof H as H1. apply http_parse_ok in H1 as (h & EP & Hh & Hn & Hnb & Hbl & HF & Hb & _); [ | done].
  revert H. unfold portico_http_parse. rewrite EP.
  assert (Hpre : ztake n buf ++ rest = ztake (phr_len h) buf ++ (ztake (zlen (body r)) (zdrop (phr_len h) buf) ++ rest)).
  { rewrite app_assoc. f_equal. unfold ztake, zdrop. rewrite take_take_drop. f_equal. pose proof (zlen_nonneg (body r)). lia. }
  rewrite Hpre, (proj2 Hphr _ _ _ EP).
  destruct (split_query (phr_path h)) as [p q].
  destruct (resolve_body_framing (phr_headers h)) as [fr clen] eqn:EF.
  destruct (fr =? 0) eqn:E1; cbn [negb]; [zbool; subst fr | done].
  destruct (_ <? clen) eqn:E2; [done |]. zbool.
  destruct (zlen buf <? _) eqn:E3; [done |]. zbool.
  pose proof (resolve_framing_nonneg _ _ EF) as Hcn.
  rewrite i32_small by (unfold PORTICO_MAX_BODY in *; lia). intros [= Hnn <-]. cbn in *.
  assert (Hcl : zlen (ztake clen (zdrop (phr_len h) buf)) = clen)
    by (rewrite zlen_ztake; rewrite ?zlen_zdrop; lia).
  rewrite Hcl in *. pose proof (zlen_nonneg rest).
  assert (Htl : zlen (ztake (phr_len h) buf) = phr_len h) by (rewrite zlen_ztake; lia).
  rewrite !zlen_app, Htl, Hcl, (proj2 (Z.ltb_ge _ _)) by lia.
  set (b := ztake clen (zdrop (phr_len h) buf)) in *. set (hd := ztake (phr_len h) buf) in *.
  assert (Hbody : ztake clen (zdrop (phr_len h) (hd ++ b ++ rest)) = b).
  { rewrite <- Htl, zdrop_app_exact, <- Hcl. apply ztake_app_exact. }
  by rewrite Hnn, Hbody.
Qed.
End ParseSpec.
