(* ===== verification/HttpResponse.v ===== *)
(** * HTTP responses (src/src/http/response.c)

    The response under construction, its header block with the fixed capacity, and the
    serializers. *)
From Stdlib Require Import ZArith Lia.
From stdpp Require Import base numbers list strings.
From S2P Require Import Prelude Cstr HttpRequest.
Open Scope Z_scope.

Definition PORTICO_RES_HEADERS_CAP : Z := 4096.
Definition CRLF : list Z := [13; 10].

(** [struct portico_response]; [res_headers] holds the first [headers_len] bytes. *)
Record response := mk_res {
  status : Z;
  res_headers : list Z;
  res_body : list Z;
  res_keep_alive : bool;
  content_type_set : bool;
  is_file : bool;
  file_fd : Z;
  file_offset : Z;
  file_size : Z;
  head_only : bool
}.

(** [memset(&res, 0, sizeof res); res.keep_alive = ...]. *)
Definition res_init (ka : bool) : response := mk_res 0 [] [] ka false false 0 0 0 false.

Definition portico_res_status (r : response) (st : Z) : response :=
  mk_res st (res_headers r) (res_body r) (res_keep_alive r) (content_type_set r)
    (is_file r) (file_fd r) (file_offset r) (file_size r) (head_only r).

(** ["%s: %s\r\n"]. *)
Definition header_line (name value : list Z) : list Z := name ++ bs ": " ++ value ++ CRLF.

(** [portico_res_header]: a line that does not fit (with its NUL) is dropped. *)
Definition portico_res_header (r : response) (name value : list Z) : response :=
  let line := header_line name value in
  let hs := if (0 <? zlen line) && (zlen line <? PORTICO_RES_HEADERS_CAP - zlen (res_headers r))
            then res_headers r ++ line else res_headers r in
  let ct := content_type_set r || (ws_strcasecmp name (bs "Content-Type") =? 0) in
  mk_res (status r) hs (res_body r) (res_keep_alive r) ct
    (is_file r) (file_fd r) (file_offset r) (file_size r) (head_only r).

Definition set_body (r : response) (b : list Z) : response :=
  mk_res (status r) (res_headers r) b (res_keep_alive r) (content_type_set r)
    (is_file r) (file_fd r) (file_offset r) (file_size r) (head_only r).

(** [portico_res_body]; on a failed allocation the body is empty. *)
Definition portico_res_body (malloc_ok : bool) (r : response) (data : list Z)
    (content_type : option (list Z)) : response :=
  if negb malloc_ok then set_body r []
  else
    let r1 := set_body r data in
    match content_type with
    | Some ct => if content_type_set r1 then r1 else portico_res_header r1 (bs "Content-Type") ct
    | None => r1
    end.

Definition portico_res_json (malloc_ok : bool) (r : response) (json : list Z) : response :=
  portico_res_body malloc_ok r json (Some (bs "application/json")).

Definition portico_res_text (malloc_ok : bool) (r : response) (st : Z) (text : list Z) : response :=
  portico_res_body malloc_ok (portico_res_status r st) text (Some (bs "text/plain; charset=utf-8")).

Definition portico_http_reason (st : Z) : list Z :=
  if st =? 200 then bs "OK"
  else if st =? 201 then bs "Created"
  else if st =? 204 then bs "No Content"
  else if st =? 206 then bs "Partial Content"
  else if st =? 301 then bs "Moved Permanently"
  else if st =? 304 then bs "Not Modified"
  else if st =? 400 then bs "Bad Request"
  else if st =? 401 then bs "Unauthorized"
  else if st =? 403 then bs "Forbidden"
  else if st =? 404 then bs "Not Found"
  else if st =? 405 then bs "Method Not Allowed"
  else if st =? 409 then bs "Conflict"
  else if st =? 413 then bs "Payload Too Large"
  else if st =? 414 then bs "URI Too Long"
  else if st =? 416 then bs "Range Not Satisfiable"
  else if st =? 431 then bs "Request Header Fields Too Large"
  else if st =? 500 then bs "Internal Server Error"
  else if st =? 501 then bs "Not Implemented"
  else bs "OK".

(** ["%d"], ["%zu"] and ["%lld"]: decimal digits, most significant first. *)
Fixpoint dec_digits (fuel : nat) (n : Z) (acc : list Z) : list Z :=
  match fuel with
  | O => acc
  | S f => let acc' := (48 + n mod 10) :: acc in
           if n <? 10 then acc' else dec_digits f (n / 10) acc'
  end.
Definition dec_string (n : Z) : list Z :=
  if n <? 0 then 45 :: dec_digits 20 (- n) [] else dec_digits 20 n [].

Definition connection_value (ka : bool) : list Z := if ka then bs "keep-alive" else bs "close".

(** The head both serializers print. *)
Definition response_head (st : Z) (hs : list Z) (clen : Z) (ka : bool) : list Z :=
  bs "HTTP/1.1 " ++ dec_string st ++ bs " " ++ portico_http_reason st ++ CRLF ++
  hs ++ bs "Content-Length: " ++ dec_string clen ++ CRLF ++
  bs "Connection: " ++ connection_value ka ++ CRLF ++ CRLF.

(** [portico_http_build_response]: [None] is -1 (head too long, or no memory). *)
Definition portico_http_build_response (malloc_ok : bool) (r : response) : option (list Z) :=
  let st := if status r =? 0 then 200 else status r in
  let clen := if head_only r then file_size r else zlen (res_body r) in
  let b := if head_only r then [] else res_body r in
  let head := response_head st (res_headers r) clen (res_keep_alive r) in
  if (zlen head <=? 0) || (PORTICO_RES_HEADERS_CAP + 256 <=? zlen head) then None
  else if negb malloc_ok then None
  else Some (head ++ b).

Definition portico_http_build_status (malloc_ok : bool) (st : Z) (ka : bool) : option (list Z) :=
  let tmp := response_head st [] 0 ka in
  if (zlen tmp <=? 0) || (160 <=? zlen tmp) then None
  else if negb malloc_ok then None
  else Some tmp.

(** ** Decimal printing *)

Lemma dec_value_app l k acc : dec_value (l ++ k) acc = dec_value k (dec_value l acc).
Proof. revert acc. induction l; intros; cbn; auto. Qed.

Lemma dec_digits_value fuel n acc :
  0 <= n < 10 ^ Z.of_nat fuel → (0 < fuel)%nat →
  dec_value (dec_digits fuel n acc) 0 = dec_value acc n.
Proof.
  revert n acc. induction fuel as [ | f IH]; intros n acc Hn Hf; [lia |]. cbn [dec_digits].
  destruct (n <? 10) eqn:E; zbool.
  - cbn [dec_value]. f_equal. lia.
  - destruct f as [ | f]; [cbn in Hn; lia |].
    rewrite IH; [ | rewrite Nat2Z.inj_succ, Z.pow_succ_r in Hn by lia; lia | lia].
    cbn [dec_value]. f_equal. lia.
Qed.

(** Printing then reading a length gives it back. *)
Lemma dec_string_value n : 0 <= n < 10 ^ 20 → dec_value (dec_string n) 0 = n.
Proof.
  intros Hn. unfold dec_string. rewrite (proj2 (Z.ltb_ge n 0)) by lia.
  by rewrite dec_digits_value by (change (Z.of_nat 20) with 20; lia).
Qed.

Lemma dec_digits_ok fuel n acc :
  forallb is_digit acc = true → 0 <= n → forallb is_digit (dec_digits fuel n acc) = true.
Proof.
  revert n acc. induction fuel as [ | f IH]; intros n acc Ha Hn; [done |]. cbn [dec_digits].
  assert (Hd : forallb is_digit ((48 + n mod 10) :: acc) = true).
  { cbn [forallb]. rewrite Ha, andb_true_r. unfold is_digit. rewrite andb_true_iff. lia. }
  split_if; [done | apply IH; [done | lia]].
Qed.

Lemma dec_string_digits n : 0 <= n → forallb is_digit (dec_string n) = true.
Proof. intros. unfold dec_string. rewrite (proj2 (Z.ltb_ge n 0)) by lia. by apply dec_digits_ok. Qed.

Lemma dec_digits_len fuel n acc : (length (dec_digits fuel n acc) <= fuel + length acc)%nat.
Proof.
  revert n acc. induction fuel as [ | f IH]; intros n acc; cbn [dec_digits]; [lia |].
  split_if; [cbn; lia |]. etransitivity; [apply IH | cbn; lia].
Qed.

Lemma dec_string_len n : zlen (dec_string n) <= 21.
Proof.
  unfold dec_string, zlen. split_if; cbn [length];
    [pose proof (dec_digits_len 20 (- n) []) | pose proof (dec_digits_len 20 n [])]; cbn in *; lia.
Qed.

Lemma dec_string_pos n : 0 < zlen (dec_string n).
Proof.
  unfold dec_string. assert (H : ∀ f k acc, acc ≠ [] → dec_digits f k acc ≠ []).
  { induction f; intros k acc Ha; cbn; [done |]. split_if; [done | by apply IHf]. }
  split_if; [rewrite zlen_cons; pose proof (zlen_nonneg (dec_digits 20 (- n) [])); lia |].
  destruct (dec_digits 20 n []) eqn:E2; [ | rewrite zlen_cons; pose proof (zlen_nonneg l); lia].
  exfalso. cbn [dec_digits] in E2. revert E2. split_if; [done | by apply (H 19%nat)].
Qed.

Lemma reason_len st : zlen (portico_http_reason st) <= 31.
Proof. unfold portico_http_reason. split_ifs; vm_compute; discriminate. Qed.

(** ** The header block *)

Definition res_ok (r : response) : Prop := zlen (res_headers r) < PORTICO_RES_HEADERS_CAP.

Lemma res_init_ok ka : res_ok (res_init ka).
Proof. done. Qed.

Lemma res_header_ok r name value : res_ok r → res_ok (portico_res_header r name value).
Proof.
  unfold res_ok, portico_res_header. cbn [res_headers]. intros H. split_if; [ | done].
  zbool. rewrite zlen_app. lia.
Qed.

Lemma res_body_ok ok r data ct : res_ok r → res_ok (portico_res_body ok r data ct).
Proof.
  intros H. unfold portico_res_body. split_if; [done |].
  destruct ct; [split_if; [done | by apply res_header_ok] | done].
Qed.

Lemma response_head_len st hs clen ka :
  0 < zlen (response_head st hs clen ka) ∧
  zlen (response_head st hs clen ka) <= zlen hs + 130.
Proof.
  unfold response_head. rewrite !zlen_app.
  change (zlen (bs "HTTP/1.1 ")) with 9. change (zlen (bs " ")) with 1.
  change (zlen (bs "Content-Length: ")) with 16. change (zlen (bs "Connection: ")) with 12.
  change (zlen CRLF) with 2.
  pose proof (dec_string_len st). pose proof (dec_string_len clen). pose proof (reason_len st).
  pose proof (zlen_nonneg hs). pose proof (zlen_nonneg (dec_string st)).
  pose proof (zlen_nonneg (dec_string clen)). pose proof (zlen_nonneg (portico_http_reason st)).
  assert (zlen (connection_value ka) <= 10 ∧ 0 <= zlen (connection_value ka))
    by (destruct ka; vm_compute; split; discriminate). lia.
Qed.

Lemma build_response_total r :
  res_ok r →
  portico_http_build_response true r =
  Some (response_head (if status r =? 0 then 200 else status r) (res_headers r)
          (if head_only r then file_size r else zlen (res_body r)) (res_keep_alive r) ++
        (if head_only r then [] else res_body r)).
Proof.
  unfold res_ok, PORTICO_RES_HEADERS_CAP. intros H. unfold portico_http_build_response.
  match goal with |- context [zlen (response_head ?a ?b ?c ?d)] =>
    pose proof (response_head_len a b c d) as [H1 H2] end.
  unfold PORTICO_RES_HEADERS_CAP.
  rewrite (proj2 (Z.leb_gt _ 0)), (proj2 (Z.leb_gt (4096 + 256) _)) by lia. done.
Qed.

(** Response framing: whatever headers the handler added (a header that does not
    fit the 4 KiB block is dropped, never cut), serialization succeeds and yields the
    head, with a Content-Length whose digits denote exactly the number of body bytes
    that follow, and then the body. *)
Theorem build_response_framing r names body ct :
  let r1 := fold_left (λ r nv, portico_res_header r nv.1 nv.2) names r in
  let r2 := portico_res_body true r1 body ct in
  res_ok r → head_only r = false → zlen body < 10 ^ 20 →
  portico_http_build_response true r2 =
    Some (response_head (if status r =? 0 then 200 else status r) (res_headers r2) (zlen body)
            (res_keep_alive r) ++ body) ∧
  zlen (res_headers r2) < PORTICO_RES_HEADERS_CAP ∧
  forallb is_digit (dec_string (zlen body)) = true ∧ dec_value (dec_string (zlen body)) 0 = zlen body.
Proof.
  intros r1 r2 Hok Hh Hl. pose proof (zlen_nonneg body).
  assert (Hr1 : res_ok r1 ∧ status r1 = status r ∧ head_only r1 = head_only r ∧ res_keep_alive r1 = res_keep_alive r).
  { unfold r1. clear -Hok. revert r Hok. induction names as [ | nv t IH]; intros r Hok; cbn [fold_left]; [done |].
    destruct (IH (portico_res_header r nv.1 nv.2)) as (? & ? & ? & ?); [by apply res_header_ok |]. done. }
  destruct Hr1 as (Hok1 & Hs1 & Hh1 & Hk1).
  assert (Hok2 : res_ok r2) by (by apply res_body_ok).
  assert (Hr2 : status r2 = status r1 ∧ head_only r2 = head_only r1 ∧
                res_keep_alive r2 = res_keep_alive r1 ∧ res_body r2 = body).
  { unfold r2, portico_res_body. cbn [negb]. destruct ct; [ | done]. split_if; done. }
  destruct Hr2 as (Hs2 & Hh2 & Hk2 & Hb2).
  rewrite build_response_total by done. rewrite Hh2, Hh1, Hh, Hs2, Hs1, Hk2, Hk1, Hb2.
  split_and!; [done | done | by apply dec_string_digits | by apply dec_string_value].
Qed.

Lemma build_response_framing_witness :
  portico_http_build_response true
    (portico_res_body true (portico_res_header (res_init true) (bs "X-A") (bs "1")) (bs "hello") (Some (bs "text/plain"))) =
  Some (bs "HTTP/1.1 200 OK" ++ CRLF ++ bs "X-A: 1" ++ CRLF ++ bs "Content-Type: text/plain" ++ CRLF ++
        bs "Content-Length: 5" ++ CRLF ++ bs "Connection: keep-alive" ++ CRLF ++ CRLF ++ bs "hello").
Proof.
  apply (build_response_framing (res_init true) [(bs "X-A", bs "1")] (bs "hello") (Some (bs "text/plain"))).
  - apply res_init_ok.
  - reflexivity.
  - vm_compute. reflexivity.
Defined.

(** 503 is sent by the file server but has no reason phrase of its own. *)
Example reason_503_says_ok : portico_http_reason 503 = bs "OK".
Proof. reflexivity. Qed.
