(* ===== verification/Handshake.v ===== *)
(** * The WebSocket handshake (src/src/ws/ws_handshake.c)

    Header search in the upgrade request, its validation, the 101 response and the
    error replies.  A request is a C string (its bytes up to the first NUL). *)
From Stdlib Require Import ZArith Lia.
From stdpp Require Import base numbers list strings.
From S2P Require Import Prelude Cstr Crypto Sys OutBuf Conn WsHandler HttpRequest HttpResponse.
Open Scope Z_scope.

(** [strncasecmp]-style prefix test of [strcasestr]. *)
Fixpoint ci_prefix (name s : list Z) : bool :=
  match name, s with
  | [], _ => true
  | _, [] => false
  | a :: n', b :: s' => (tolower a =? tolower b) && ci_prefix n' s'
  end.

(** The search loop of [find_header_value]: [p2 p1] are the two characters before the
    cursor ([-1] before the beginning), [start] says whether the cursor is at the
    beginning.  Every position is tried in order, as [strcasestr] and
    [search_pos++] do; the result is the text after the colon. *)
Fixpoint find_header (name s : list Z) (p2 p1 : Z) (start : bool) : option (list Z) :=
  match s with
  | [] => None
  | c :: t =>
      let here :=
        if ci_prefix name s && (start || ((p2 =? 13) && (p1 =? 10))) then
          match drop_ows (drop (length name) s) with
          | 58 :: v => Some v
          | _ => None
          end
        else None in
      match here with
      | Some v => Some v
      | None => find_header name t p1 c false
      end
  end.

(** The value up to CRLF. *)
Fixpoint until_crlf (s : list Z) : list Z :=
  match s with
  | [] => []
  | c :: t =>
      match t with
      | 10 :: _ => if c =? 13 then [] else c :: until_crlf t
      | _ => c :: until_crlf t
      end
  end.

Definition header_value (hs name : list Z) : option (list Z) :=
  match find_header name hs (-1) (-1) true with
  | None => None
  | Some s => Some (rev (drop_ows (rev (until_crlf (drop_ows s)))))
  end.

(** [find_header_value]: NULL also when the copy cannot be allocated. *)
Definition find_header_value (s : sys) (hs name : list Z) : option (list Z) * sys :=
  match header_value hs name with
  | None => (None, s)
  | Some v => let '(ok, s1) := sys_alloc s in ((if ok then Some v else None), s1)
  end.

(** [v && ws_string_contains_token(v, token)]; the token search duplicates [v]. *)
Definition opt_contains_token (s : sys) (v : option (list Z)) (token : list Z) : bool * sys :=
  match v with
  | None => (false, s)
  | Some x => let '(ok, s1) := sys_alloc s in (ws_string_contains_token ok x token, s1)
  end.

Definition validate_websocket_headers (s : sys) (hs : list Z) : bool * sys :=
  let '(upgrade, s1) := find_header_value s hs (bs "Upgrade") in
  let '(connection, s2) := find_header_value s1 hs (bs "Connection") in
  let '(ws_version, s3) := find_header_value s2 hs (bs "Sec-WebSocket-Version") in
  let '(b1, s4) := opt_contains_token s3 upgrade (bs "websocket") in
  if negb b1 then (false, s4)
  else
    let '(b2, s5) := opt_contains_token s4 connection (bs "upgrade") in
    if negb b2 then (false, s5)
    else (match ws_version with Some v => bool_decide (v = bs "13") | None => false end, s5).

(** [ws_handshake_info_t]. *)
Record handshake_info := mk_info {
  hi_path : list Z;
  hi_key : list Z;
  hi_protocol : list Z;
  hi_origin : list Z;
  hi_error : Z
}.

Definition info_error (code : Z) : handshake_info := mk_info [] [] [] [] code.

(** [strchr(path_start, ' ')]. *)
Fixpoint split_space (s : list Z) : option (list Z * list Z) :=
  match s with
  | [] => None
  | c :: t => if c =? 32 then Some ([], t)
              else match split_space t with Some (a, b) => Some (c :: a, b) | None => None end
  end.

Definition ws_parse_handshake_request (s : sys) (request : list Z) : Z * handshake_info * sys :=
  if negb (bool_decide (ztake 4 request = bs "GET ")) then (-1, info_error 405, s)
  else
    match split_space (zdrop 4 request) with
    | None => (-1, info_error 400, s)
    | Some (p, _) =>
        if 256 <=? zlen p then (-1, info_error 414, s)
        else
          let '(valid, s1) := validate_websocket_headers s request in
          if negb valid then (-1, mk_info p [] [] [] 400, s1)
          else
            let '(key, s2) := find_header_value s1 request (bs "Sec-WebSocket-Key") in
            match key with
            | None => (-1, mk_info p [] [] [] 400, s2)
            | Some k =>
                let '(proto, s3) := find_header_value s2 request (bs "Sec-WebSocket-Protocol") in
                let '(origin, s4) := find_header_value s3 request (bs "Origin") in
                (0, mk_info p (ztake 31 k) (ztake 255 (default [] proto))
                      (ztake 255 (default [] origin)) 0, s4)
            end
    end.

Definition response_lines (accept_key : list Z) : list Z :=
  bs "HTTP/1.1 101 Switching Protocols" ++ CRLF ++ bs "Upgrade: websocket" ++ CRLF ++
  bs "Connection: Upgrade" ++ CRLF ++ bs "Sec-WebSocket-Accept: " ++ accept_key ++ CRLF.

(** [ws_create_handshake_response]: [None] is -1. *)
Definition ws_create_handshake_response (malloc_ok : bool) (info : handshake_info)
    (selected_protocol : option (list Z)) (response_size : Z) : option (list Z) :=
  match ws_generate_accept_key malloc_ok (hi_key info) with
  | None => None
  | Some accept_key =>
      let r1 := response_lines accept_key in
      if response_size <=? zlen r1 then None
      else
        let proto := default [] selected_protocol in
        let p := if 0 <? zlen proto
                 then bs "Sec-WebSocket-Protocol: " ++ proto ++ CRLF else [] in
        if (0 <? zlen p) && (response_size - zlen r1 <=? zlen p) then None
        else
          let r2 := r1 ++ p in
          if response_size <=? zlen r2 + 2 then None
          else Some (r2 ++ CRLF)
  end.

(** [ws_send_handshake_error]: status line, text body. *)
Definition handshake_status (error_code : Z) : Z * list Z :=
  if error_code =? 400 then (400, bs "Bad Request")
  else if error_code =? 403 then (403, bs "Forbidden")
  else if error_code =? 405 then (405, bs "Method Not Allowed")
  else if error_code =? 414 then (414, bs "URI Too Long")
  else if error_code =? 426 then (426, bs "Upgrade Required")
  else if error_code =? 500 then (500, bs "Internal Server Error")
  else (400, bs "Bad Request").

Definition ws_send_handshake_error (w : cw) (error_code : Z) (error_message : option (list Z))
    : Z * cw :=
  let '(code, status_text) := handshake_status error_code in
  let msg := default status_text error_message in
  let response := bs "HTTP/1.1 " ++ dec_string code ++ bs " " ++ status_text ++ CRLF ++
    bs "Content-Type: text/plain" ++ CRLF ++
    bs "Content-Length: " ++ dec_string (zlen msg) ++ CRLF ++
    bs "Connection: close" ++ CRLF ++ CRLF ++ msg in
  let '(r, s1) := ws_conn_socket_write (w_sys w) response in
  ((if send_count r =? zlen response then 0 else -1), with_sys w s1).

(** The pointer to the slot's own [host] buffer. *)
Definition HOST_PTR : Z := 1.

(** [ws_process_handshake]; [on_handshake] is the application's callback, if any. *)
Definition ws_process_handshake
    (on_handshake : option (handshake_info → Z * option (list Z)))
    (w : cw) (request : list Z) : Z * cw :=
  let '(prc, info, s1) := ws_parse_handshake_request (w_sys w) request in
  let w1 := with_sys w s1 in
  if negb (prc =? 0) then
    let '(_, w2) := ws_send_handshake_error w1 (hi_error info) None in (-1, w2)
  else
    let '(result, selected_protocol) :=
      match on_handshake with Some cb => cb info | None => (0, None) end in
    if negb (result =? 0) then
      let '(_, w2) := ws_send_handshake_error w1 403 (Some (bs "Forbidden")) in (-1, w2)
    else
      let '(host', s2) := find_header_value (w_sys w1) request (bs "Host") in
      let c2 := match host' with
                | Some h => set_user_data (set_host (w_conn w1) (ztake 255 h)) HOST_PTR
                | None => w_conn w1
                end in
      let '(ok, s3) := sys_alloc s2 in
      let w3 := mk_cw c2 s3 (w_ev w1) in
      match ws_create_handshake_response ok info selected_protocol 1024 with
      | None =>
          let '(_, w4) := ws_send_handshake_error w3 500 (Some (bs "Internal Server Error")) in
          (-1, w4)
      | Some response =>
          let '(r, s4) := ws_conn_socket_write (w_sys w3) response in
          ((if negb (send_count r =? zlen response) then -1 else 0), with_sys w3 s4)
      end.

(** ** What the handshake accepts and answers *)

Lemma find_header_value_ready s hs name :
  mem s = [] → find_header_value s hs name = (header_value hs name, s).
Proof. intros H. unfold find_header_value, sys_alloc. rewrite H. by destruct (header_value hs name). Qed.

Lemma opt_contains_token_ready s v token :
  mem s = [] →
  opt_contains_token s v token =
  (match v with Some x => ws_string_contains_token true x token | None => false end, s).
Proof. intros H. unfold opt_contains_token, sys_alloc. rewrite H. by destruct v. Qed.

(** The conditions of RFC 6455 §4.2.1 the server checks. *)
Definition upgrade_ok (request : list Z) : Prop :=
  ∃ u c, header_value request (bs "Upgrade") = Some u ∧ ws_string_contains_token true u (bs "websocket") = true ∧
    header_value request (bs "Connection") = Some c ∧ ws_string_contains_token true c (bs "upgrade") = true ∧
    header_value request (bs "Sec-WebSocket-Version") = Some (bs "13").

Lemma validate_ready s request :
  mem s = [] →
  ∃ b, validate_websocket_headers s request = (b, s) ∧ (b = true ↔ upgrade_ok request).
Proof.
  intros Hm. unfold validate_websocket_headers.
  rewrite !find_header_value_ready by done. rewrite opt_contains_token_ready by done.
  rewrite opt_contains_token_ready by done. unfold upgrade_ok.
  destruct (header_value request (bs "Upgrade")) as [u | ] eqn:EU;
    [ | exists false; split; [done | split; [done | by intros (? & ? & ? & _)]]].
  destruct (ws_string_contains_token true u _) eqn:EU2; cbn [negb];
    [ | exists false; split; [done | split; [done | intros (u' & c & [= <-] & H & _); congruence]]].
  destruct (header_value request (bs "Connection")) as [c | ] eqn:EC;
    [ | exists false; split; [done | split; [done | by intros (? & ? & _ & _ & ? & _)]]].
  destruct (ws_string_contains_token true c _) eqn:EC2; cbn [negb];
    [ | exists false; split; [done | split; [done | intros (u' & c' & _ & _ & [= <-] & H & _); congruence]]].
  destruct (header_value request (bs "Sec-WebSocket-Version")) as [v | ] eqn:EV.
  - exists (bool_decide (v = bs "13")). split; [done |]. rewrite bool_decide_eq_true. split.
    + intros ->. eauto 10.
    + intros (_ & _ & _ & _ & _ & _ & [= ->]). done.
  - exists false. split; [done | split; [done | by intros (? & ? & _ & _ & _ & _ & ?)]].
Qed.

(** The request line. *)
Definition get_line (request p : list Z) : Prop :=
  ztake 4 request = bs "GET " ∧ ∃ rest, split_space (zdrop 4 request) = Some (p, rest).

(** The 101 response for a client key. *)
Definition switching_response (accept : list Z) : list Z := response_lines accept ++ CRLF.


Definition demo_sys : sys := mk_sys [] [] [] false [] [].

(** The example request of RFC 6455, section 1.3. *)
Definition demo_handshake : list Z :=
  bs "GET /chat HTTP/1.1" ++ CRLF ++ bs "Host: server.example.com" ++ CRLF ++
  bs "Upgrade: websocket" ++ CRLF ++ bs "Connection: keep-alive, Upgrade" ++ CRLF ++
  bs "Sec-WebSocket-Key: dGhlIHNhbXBsZSBub25jZQ==" ++ CRLF ++
  bs "Sec-WebSocket-Version: 13" ++ CRLF ++ CRLF.

