(* ===== verification/HttpConn.v ===== *)
(** * HTTP connections (src/src/http/connection.c)

    The HTTP side of the event loop: filling the receive buffer, classifying a new
    connection, the keep-alive and pipelining loop, error replies, the asynchronous
    single-read file response and the streamed (chunked) file response with its
    two-sided backpressure.

    The world is one connection slot with its socket, the heap of stream contexts, the
    submitted asynchronous reads and the log of the requests the application has
    answered.  What is outside the repository's own code is a parameter: the vendored
    tokenizer, [inet_pton], the text of the peer address, the contents of files
    ([pread]) and the application's handler, which may depend on all earlier requests. *)
From Stdlib Require Import ZArith Lia.
From stdpp Require Import base numbers list strings gmap.
From S2P Require Import Prelude Cstr Sys OutBuf Conn WsHandler HttpRequest HttpResponse Handshake.
Open Scope Z_scope.

(** ** Filling the receive buffer *)

Definition recv_hard_max : Z := PORTICO_MAX_HEADER_SIZE + PORTICO_MAX_BODY.

(** The growth step of [read_into_recv]: [inl rc] returns, [inr w] goes on reading. *)
Definition grow_http (w : cw) : Z * cw + cw :=
  let c := w_conn w in
  if recv_buffer_used c =? recv_buffer_capacity c then
    if recv_hard_max <=? recv_buffer_capacity c then inl (0, w)
    else
      let nc0 := if recv_buffer_capacity c =? 0 then 16384 else recv_buffer_capacity c * 2 in
      let nc := if recv_hard_max <? nc0 then recv_hard_max else nc0 in
      let '(ok, w1) := alloc w in
      if negb ok then inl (-1, w1)
      else inr (with_conn w1 (set_recv c (recv_buffer c) nc))
  else inr w.

Fixpoint read_into_loop (fuel : nat) (now : Z) (w : cw) : Z * cw :=
  match fuel with
  | O => (-1, w)
  | S n =>
      match grow_http w with
      | inl r => r
      | inr w1 =>
          let c := w_conn w1 in
          match sys_recv (w_sys w1) (recv_buffer_capacity c - recv_buffer_used c) with
          | (REof, s2) => (-1, with_sys w1 s2)
          | (RAgain, s2) => (0, with_sys w1 s2)
          | (RErr, s2) => (-1, with_sys w1 s2)
          | (RData b, s2) =>
              read_into_loop n now
                (mk_cw (ws_connection_add_bytes_received
                          (set_recv c (recv_buffer c ++ b) (recv_buffer_capacity c)) now)
                   s2 (w_ev w1))
          end
      end
  end.

(** Every iteration but the last takes bytes from the socket. *)
Definition read_into_recv (now : Z) (w : cw) : Z * cw :=
  read_into_loop (S (rx_size (rx (w_sys w)))) now w.

(** [strncasecmp(hay + i, needle, nlen) == 0] for some [i + nlen <= hlen]. *)
Fixpoint ci_scan (hay needle : list Z) : bool :=
  if zlen hay <? zlen needle then false
  else if ws_strncasecmp hay needle (length needle) =? 0 then true
  else match hay with [] => false | _ :: t => ci_scan t needle end.

Definition ci_contains (hay needle : list Z) : bool :=
  if (zlen needle =? 0) || (zlen hay <? zlen needle) then false else ci_scan hay needle.

(** [memmem]: the offset of the first occurrence. *)
Fixpoint memmem (hay needle : list Z) : option Z :=
  if bool_decide (take (length needle) hay = needle) then Some 0
  else match hay with
       | [] => None
       | _ :: t => match memmem t needle with Some i => Some (i + 1) | None => None end
       end.

(** A buffer read as a C string: up to its first NUL. *)
Fixpoint c_string (l : list Z) : list Z :=
  match l with
  | [] => []
  | c :: t => if c =? 0 then [] else c :: c_string t
  end.

Definition CRLFCRLF : list Z := [13; 10; 13; 10].

(** ** The world of one HTTP connection *)

Definition PORTICO_STREAM_CHUNK : Z := 1024 * 1024.
Definition PORTICO_SINGLE_MAX : Z := 4 * 1024 * 1024.

(** [http_stream_t]; the chunk buffer's contents travel with the completion. *)
Record http_stream := mk_stream {
  s_generation : Z;
  s_file_fd : Z;
  s_offset : Z;
  s_end : Z;
  s_keep_alive : bool;
  s_reading : bool
}.

Definition set_reading (s : http_stream) (b : bool) : http_stream :=
  mk_stream (s_generation s) (s_file_fd s) (s_offset s) (s_end s) (s_keep_alive s) b.
Definition advance_offset (s : http_stream) (n : Z) : http_stream :=
  mk_stream (s_generation s) (s_file_fd s) (s_offset s + n) (s_end s) (s_keep_alive s) (s_reading s).

(** [http_file_ctx_t]. *)
Record file_ctx := mk_ctx {
  c_generation : Z;
  c_file_fd : Z;
  c_size : Z;
  c_status : Z;
  c_keep_alive : bool;
  c_headers : list Z
}.

(** A submitted read: the completion's argument, and what is to be read. *)
Inductive aio_op :=
| AFile (ctx : file_ctx) (off : Z)
| AStream (p : Z) (fd len off : Z).

(** The connection, the heap of stream contexts (with the next fresh address), the
    reads in flight, the outcomes of later submits (none: accepted), the file
    descriptors closed so far and the requests given to the application. *)
Record hw := mk_hw {
  h_w : cw;
  h_heap : gmap Z http_stream;
  h_next : Z;
  h_aio : list aio_op;
  h_submit : list bool;
  h_closed : list Z;
  h_reqs : list request
}.

Definition h_conn (w : hw) : ws_connection := w_conn (h_w w).
Definition h_sys (w : hw) : sys := w_sys (h_w w).
Definition with_w (w : hw) (v : cw) : hw :=
  mk_hw v (h_heap w) (h_next w) (h_aio w) (h_submit w) (h_closed w) (h_reqs w).
Definition with_heap (w : hw) (v : gmap Z http_stream) : hw :=
  mk_hw (h_w w) v (h_next w) (h_aio w) (h_submit w) (h_closed w) (h_reqs w).
Definition with_aio (w : hw) (v : list aio_op) (sc : list bool) : hw :=
  mk_hw (h_w w) (h_heap w) (h_next w) v sc (h_closed w) (h_reqs w).
Definition close_file (w : hw) (fd : Z) : hw :=
  mk_hw (h_w w) (h_heap w) (h_next w) (h_aio w) (h_submit w) (h_closed w ++ [fd]) (h_reqs w).
Definition log_req (w : hw) (r : request) : hw :=
  mk_hw (h_w w) (h_heap w) (h_next w) (h_aio w) (h_submit w) (h_closed w) (h_reqs w ++ [r]).
Definition h_set (w : hw) (f : ws_connection → ws_connection) : hw :=
  with_w w (with_conn (h_w w) (f (h_conn w))).
Definition h_alloc (w : hw) : bool * hw :=
  let '(ok, v) := alloc (h_w w) in (ok, with_w w v).

(** [malloc(sizeof *s)]: a fresh address. *)
Definition new_stream (w : hw) (s : http_stream) : Z * hw :=
  (h_next w, mk_hw (h_w w) (<[h_next w := s]> (h_heap w)) (h_next w + 1) (h_aio w) (h_submit w)
               (h_closed w) (h_reqs w)).

(** [portico_aio_pread]: true if the backend accepts the read. *)
Definition portico_aio_pread (w : hw) (op : aio_op) : bool * hw :=
  match h_submit w with
  | false :: r => (false, with_aio w (h_aio w) r)
  | true :: r => (true, with_aio w (h_aio w ++ [op]) r)
  | [] => (true, with_aio w (h_aio w ++ [op]) [])
  end.

(** ** Sending *)

Definition h_send (w : hw) (buf : list Z) : Z * hw :=
  let '(rc, q, s) := portico_conn_send (out (h_conn w)) (h_sys w) buf in
  (rc, with_w w (mk_cw (set_out (h_conn w) q) s (w_ev (h_w w)))).

Definition http_send_owned (w : hw) (buf : list Z) : Z * hw := h_send w buf.

Definition http_reply_status (w : hw) (st : Z) : Z * hw :=
  let '(ok, w1) := h_alloc w in
  match portico_http_build_status ok st false with
  | None => (-1, w1)
  | Some b => http_send_owned w1 b
  end.

(** [http_finish_close] on the connection's own queue. *)
Definition h_finish_close (w : hw) : Z * hw :=
  let '(rc, q) := http_finish_close (out (h_conn w)) in (rc, h_set w (λ c, set_out c q)).

Definition http_error_close (w : hw) (st : Z) : Z * hw :=
  let '(rc, w1) := http_reply_status w st in
  if rc <? 0 then (-1, w1) else h_finish_close w1.

(** ** Dropping a consumed request *)

Definition consume_request (w : hw) (consumed : Z) : hw :=
  h_set w (λ c, set_recv c (if consumed <? recv_buffer_used c then zdrop consumed (recv_buffer c) else [])
                  (recv_buffer_capacity c)).

(** ** File responses *)

(** [stream_free]. *)
Definition stream_free (w : hw) (p : Z) : hw :=
  match h_heap w !! p with
  | None => w
  | Some s => with_heap (close_file w (s_file_fd s)) (delete p (h_heap w))
  end.

(** [portico_http_stream_abort], from the cleanup of the slot: a context whose read is
    in flight is left to its completion. *)
Definition portico_http_stream_abort (w : hw) : hw :=
  match file_stream (h_conn w) with
  | None => w
  | Some p =>
      let w1 := h_set w (λ c, set_stream c None) in
      match h_heap w !! p with
      | Some s => if s_reading s then w1 else stream_free w1 p
      | None => w1
      end
  end.

(** [ws_connection_cleanup] with its call of [portico_http_stream_abort]. *)
Definition http_connection_cleanup (w : hw) : hw :=
  let w1 := portico_http_stream_abort w in
  let '(c, s) := ws_connection_cleanup (h_conn w1) (h_sys w1) in
  with_w w1 (mk_cw c s (w_ev (h_w w1))).

Definition stream_fail (w : hw) (p : Z) : Z * hw :=
  let w1 := h_set w (λ c, set_inflight (set_stream c None) false) in
  (-1, stream_free w1 p).

(** What is outside the repository's own logic, and the server's settings: the vendored
    tokenizer, [inet_pton] for both families, the text of a peer address, [pread], the
    application's HTTP and handshake callbacks; [aio] says whether the thread has
    asynchronous I/O, [now] is [time(NULL)]. *)
Record http_env := mk_env {
  e_phr : list Z → phr_outcome;
  e_inet_pton4 : list Z → bool;
  e_inet_pton6 : list Z → bool;
  e_sockaddr_text : Z → list Z;
  e_pread : Z → Z → Z → option (list Z);
  e_on_http_request : option (list request → request → response → Z * response);
  e_on_handshake : option (handshake_info → Z * option (list Z));
  e_cfg : server_cfg;
  e_trust_proxy : bool;
  e_aio : bool;
  e_now : Z
}.

Section Http.
Context (E : http_env).
Local Abbreviation phr_parse_request := (e_phr E).
Local Abbreviation inet_pton4 := (e_inet_pton4 E).
Local Abbreviation inet_pton6 := (e_inet_pton6 E).
Local Abbreviation sockaddr_text := (e_sockaddr_text E).
Local Abbreviation pread := (e_pread E).
Local Abbreviation on_http_request := (e_on_http_request E).
Local Abbreviation on_handshake := (e_on_handshake E).
Local Abbreviation cfg := (e_cfg E).
Local Abbreviation trust_proxy := (e_trust_proxy E).
Local Abbreviation aio := (e_aio E).
Local Abbreviation now := (e_now E).

(** *** The client's address *)

Definition INET6_ADDRSTRLEN : Z := 46.

Definition valid_ip (s : list Z) : bool :=
  if (zlen s =? 0) || (INET6_ADDRSTRLEN <=? zlen s) then false
  else inet_pton4 (c_string s) || inet_pton6 (c_string s).

Definition set_client_ip (r : request) (ip : list Z) : request :=
  mk_request (method r) (path r) (query r) (minor_version r) (headers r) (body r) (keep_alive r) ip.

(** The part after the last comma. *)
Fixpoint until_comma (l : list Z) : list Z :=
  match l with
  | [] => []
  | c :: t => if c =? 44 then [] else c :: until_comma t
  end.
Definition last_element (v : list Z) : list Z :=
  drop_ows (rev (until_comma (drop_ows (rev v)))).

Definition resolve_client_ip (c : ws_connection) (r : request) : request :=
  let direct := set_client_ip r (sockaddr_text (client_addr c)) in
  if negb trust_proxy then direct
  else
    match portico_req_header r (bs "X-Real-IP") with
    | Some xr =>
        if valid_ip xr then set_client_ip r xr
        else match portico_req_header r (bs "X-Forwarded-For") with
             | Some xff => if (negb (zlen xff =? 0)) && valid_ip (last_element xff)
                           then set_client_ip r (last_element xff) else direct
             | None => direct
             end
    | None =>
        match portico_req_header r (bs "X-Forwarded-For") with
        | Some xff => if (negb (zlen xff =? 0)) && valid_ip (last_element xff)
                      then set_client_ip r (last_element xff) else direct
        | None => direct
        end
    end.

(** *** The single-read response *)

(** [file_emit]: [true] asks to close.  [nread] is the data, or [None] for an error. *)
Definition file_emit (w : hw) (ctx : file_ctx) (nread : option (list Z)) : bool * hw :=
  match nread with
  | None =>
      let '(ok, w1) := h_alloc w in
      match portico_http_build_status ok 500 false with
      | None => (true, w1)
      | Some b => let '(_, w2) := h_send w1 b in (true, w2)
      end
  | Some data =>
      let r := mk_res (c_status ctx) (c_headers ctx) data (c_keep_alive ctx) false false 0 0 0 false in
      let '(ok, w1) := h_alloc w in
      match portico_http_build_response ok r with
      | None => (true, w1)
      | Some resp =>
          let '(sent, w2) := h_send w1 resp in
          if negb (sent =? 0) then (true, w2) else (negb (c_keep_alive ctx), w2)
      end
  end.

Section Resume.
(** [process_http_buffer], which the stream functions call when a response is done. *)
Context (resume : hw → Z * hw).

Definition stream_finish (w : hw) (p : Z) : Z * hw :=
  match h_heap w !! p with
  | None => (-1, w)
  | Some s =>
      let w1 := stream_free (h_set w (λ c, set_inflight (set_stream c None) false)) p in
      if s_keep_alive s then resume w1
      else h_finish_close w1
  end.

(** [stream_advance]: each turn of the loop sends at least one byte of the file. *)
Fixpoint stream_advance_loop (fuel : nat) (w : hw) (p : Z) : Z * hw :=
  match fuel with
  | O => (-1, w)
  | S n =>
      match h_heap w !! p with
      | None => (-1, w)
      | Some s =>
          if backlogged (out (h_conn w)) then (0, w)
          else if s_end s <=? s_offset s then stream_finish w p
          else
            let want0 := s_end s - s_offset s in
            let want := if PORTICO_STREAM_CHUNK <? want0 then PORTICO_STREAM_CHUNK else want0 in
            let '(parked, w1) :=
              if aio then
                let w0 := with_heap w (<[p := set_reading s true]> (h_heap w)) in
                let '(ok, w1) := portico_aio_pread w0 (AStream p (s_file_fd s) want (s_offset s)) in
                if ok then (true, w1)
                else (false, with_heap w1 (<[p := set_reading s false]> (h_heap w1)))
              else (false, w) in
            if parked then (0, w1)
            else
              match pread (s_file_fd s) want (s_offset s) with
              | None | Some [] => stream_fail w1 p
              | Some data =>
                  let '(rc, w2) := h_send w1 data in
                  if negb (rc =? 0) then stream_fail w2 p
                  else
                    stream_advance_loop n
                      (with_heap w2 (<[p := advance_offset (set_reading s false) (zlen data)]> (h_heap w2))) p
              end
      end
  end.

Definition stream_fuel (s : http_stream) : nat := S (S (Z.to_nat (s_end s - s_offset s))).

Definition stream_advance (w : hw) (p : Z) : Z * hw :=
  match h_heap w !! p with
  | None => (-1, w)
  | Some s => if s_reading s then (0, w) else stream_advance_loop (stream_fuel s) w p
  end.

(** [stream_start]'s response head: the same format as the in-memory one. *)
Definition stream_head (r : response) : list Z :=
  response_head (status r) (res_headers r) (file_size r) (res_keep_alive r).

Definition stream_start (w : hw) (r : response) (consumed : Z) : Z * hw :=
  let '(ok1, w1) := h_alloc w in
  let '(ok2, w2) := if ok1 then h_alloc w1 else (false, w1) in
  if negb (ok1 && ok2) then http_error_close (close_file w2 (file_fd r)) 500
  else
    let '(p, w3) := new_stream w2
      (mk_stream (generation (h_conn w2)) (file_fd r) (file_offset r)
         (file_offset r + file_size r) (res_keep_alive r) false) in
    let w4 := consume_request w3 consumed in
    let hdr := stream_head r in
    if PORTICO_RES_HEADERS_CAP + 256 <=? zlen hdr then http_error_close (stream_free w4 p) 500
    else
      let w5 := h_set w4 (λ c, set_inflight (set_stream c (Some p)) true) in
      let '(rc, w6) := h_send w5 hdr in
      if negb (rc =? 0) then
        (-1, stream_free (h_set w6 (λ c, set_inflight (set_stream c None) false)) p)
      else
        let '(rc2, w7) := stream_advance w6 p in
        if rc2 <? 0 then
          h_finish_close w7
        else (0, w7).

(** [http_serve_file]: -1 close now, 0 parked or draining, 1 go on with the buffer. *)
Definition http_serve_file (w : hw) (r : response) (consumed : Z) : Z * hw :=
  if aio && (PORTICO_STREAM_CHUNK <? file_size r) then stream_start w r consumed
  else if PORTICO_SINGLE_MAX <? file_size r then
    http_error_close (consume_request (close_file w (file_fd r)) consumed) 503
  else
    let '(ok1, w1) := h_alloc w in
    let '(ok2, w2) := if ok1 then h_alloc w1 else (false, w1) in
    if negb (ok1 && ok2) then http_error_close (close_file w2 (file_fd r)) 500
    else
      let ctx := mk_ctx (generation (h_conn w2)) (file_fd r) (file_size r) (status r)
                   (res_keep_alive r) (res_headers r) in
      let w3 := consume_request w2 consumed in
      let '(parked, w4) :=
        if aio then
          let '(ok, w4) := portico_aio_pread (h_set w3 (λ c, set_inflight c true))
                             (AFile ctx (file_offset r)) in
          if ok then (true, w4) else (false, h_set w4 (λ c, set_inflight c false))
        else (false, w3) in
      if parked then (0, w4)
      else
        let '(close_it, w5) := file_emit w4 ctx (pread (file_fd r) (file_size r) (file_offset r)) in
        let w6 := close_file w5 (file_fd r) in
        if close_it then h_finish_close w6 else (1, w6).

End Resume.

(** *** The request loop *)

(** What follows the handler for an in-memory response: serialize, send, consume. *)
Definition respond (w : hw) (r : response) (consumed : Z) : option hw * hw :=
  let '(ok, w1) := h_alloc w in
  match portico_http_build_response ok r with
  | None => (None, w1)
  | Some resp =>
      let '(sent, w2) := http_send_owned w1 resp in
      if negb (sent =? 0) then (None, w2)
      else let w3 := consume_request w2 consumed in (Some w3, w3)
  end.

(** The response for a handler that failed: 500, no body, its file closed. *)
Definition failed_response (w : hw) (r : response) : response * hw :=
  (mk_res 500 (res_headers r) [] (res_keep_alive r) (content_type_set r) false (file_fd r)
     (file_offset r) (file_size r) (head_only r),
   if is_file r then close_file w (file_fd r) else w).

Fixpoint process_loop (fuel : nat) (w : hw) : Z * hw :=
  match fuel with
  | O => (-1, w)
  | S n =>
      let c := h_conn w in
      if recv_buffer_used c =? 0 then (0, w)
      else
        let '(total, oreq) := portico_http_parse phr_parse_request (recv_buffer c) in
        if total =? 0 then
          let headers_done := match memmem (recv_buffer c) CRLFCRLF with Some _ => true | None => false end in
          if negb headers_done && (PORTICO_MAX_HEADER_SIZE <? recv_buffer_used c)
          then http_error_close w 431
          else (0, w)
        else if total =? -1 then http_error_close w 400
        else if total =? -2 then http_error_close w 413
        else if total =? -3 then http_error_close w 501
        else
          match oreq with
          | None => (-1, w)
          | Some req0 =>
              let req := resolve_client_ip c req0 in
              let res0 := res_init (keep_alive req) in
              let go (w1 : hw) (res : response) : Z * hw :=
                match respond w1 res total with
                | (None, w2) => (-1, w2)
                | (Some w2, _) => if negb (keep_alive req) then h_finish_close w2 else process_loop n w2
                end in
              match on_http_request with
              | None => go w (portico_res_status res0 501)
              | Some handler =>
                  let '(hrc, res) := handler (h_reqs w) req res0 in
                  let w1 := log_req w req in
                  if negb (hrc =? 0) then
                    let '(res', w2) := failed_response w1 res in go w2 res'
                  else if is_file res then
                    let '(fr, w2) := http_serve_file (process_loop n) w1 res total in
                    if fr <=? 0 then (fr, w2) else process_loop n w2
                  else go w1 res
              end
          end
  end.

(** [process_http_buffer]: every turn consumes at least one byte of the buffer. *)
Definition process_http_buffer (w : hw) : Z * hw :=
  process_loop (S (length (recv_buffer (h_conn w)))) w.

(** *** Events *)

Definition portico_http_event (w : hw) : Z * hw :=
  if out_close_when_drained (out (h_conn w)) then (0, w)
  else
    let '(rc, v) := read_into_recv now (h_w w) in
    let w1 := with_w w v in
    if rc <? 0 then (-1, w1)
    else if http_async_inflight (h_conn w1) then (0, w1)
    else process_http_buffer w1.

Definition portico_conn_on_writable (w : hw) : Z * hw :=
  let '(r, q, s) := on_writable_drain (out (h_conn w)) (h_sys w) in
  let w1 := with_w w (mk_cw (set_out (h_conn w) q) s (w_ev (h_w w))) in
  match r with
  | Some rc => (rc, w1)
  | None =>
      match file_stream (h_conn w1) with
      | Some p => stream_advance process_http_buffer w1 p
      | None => ((if out_close_when_drained (out (h_conn w1)) then -1 else 0), w1)
      end
  end.

(** After a completion that asks to close: defer while output is queued, else
    [close_connection] (the returned [true]). *)
Definition completion_close (w : hw) : bool * hw :=
  if backlogged (out (h_conn w)) then
    (false, h_set w (λ c, set_out c (mk_outq (out_buffer (out c)) (out_sent (out c)) (out_capacity (out c)) true)))
  else (true, w).

Definition file_read_complete (w : hw) (ctx : file_ctx) (nread : option (list Z)) : bool * hw :=
  let '(b, w') :=
    if (generation (h_conn w) =? c_generation ctx) && (0 <=? i32 (fd (h_conn w))) &&
       (state (h_conn w) =? WS_STATE_HTTP)
    then
      let w1 := h_set w (λ c, set_inflight c false) in
      let '(close_it, w2) := file_emit w1 ctx nread in
      let '(close_it', w3) :=
        if close_it then (true, w2)
        else let '(rc, w3) := process_http_buffer w2 in (rc <? 0, w3) in
      if close_it' then completion_close w3 else (false, w3)
    else (false, w) in
  (b, close_file w' (c_file_fd ctx)).

Definition stream_chunk_complete (w : hw) (p : Z) (nread : option (list Z)) : bool * hw :=
  match h_heap w !! p with
  | None => (false, w)
  | Some s =>
      let w0 := with_heap w (<[p := set_reading s false]> (h_heap w)) in
      if negb ((generation (h_conn w) =? s_generation s) && (state (h_conn w) =? WS_STATE_HTTP) &&
               bool_decide (file_stream (h_conn w) = Some p))
      then (false, stream_free w0 p)
      else
        let w1 := h_set w0 (λ c, set_activity c (u32 now) (ping_sent_at c)) in
        let '(rc, w2) :=
          match nread with
          | None | Some [] => stream_fail w1 p
          | Some data =>
              let '(rc, w2) := h_send w1 data in
              if negb (rc =? 0) then stream_fail w2 p
              else
                let s' := advance_offset (set_reading s false) (zlen data) in
                let w3 := with_heap w2 (<[p := s']> (h_heap w2)) in
                if s_end s' <=? s_offset s' then stream_finish process_http_buffer w3 p
                else stream_advance process_http_buffer w3 p
          end in
        if rc <? 0 then completion_close w2 else (false, w2)
  end.

(** The completion of the [i]-th read in flight. *)
Definition aio_complete (w : hw) (i : nat) : bool * hw :=
  match h_aio w !! i with
  | None => (false, w)
  | Some op =>
      let w1 := with_aio w (delete i (h_aio w)) (h_submit w) in
      match op with
      | AFile ctx off => file_read_complete w1 ctx (pread (c_file_fd ctx) (c_size ctx) off)
      | AStream p fd len off => stream_chunk_complete w1 p (pread fd len off)
      end
  end.

(** The first read of a connection. *)
Definition portico_initial_dispatch (w : hw) : Z * hw :=
  let '(rc, v) := read_into_recv now (h_w w) in
  let w1 := with_w w v in
  if rc <? 0 then (-1, w1)
  else
    let buf := recv_buffer (h_conn w1) in
    match memmem buf CRLFCRLF with
    | None =>
        if PORTICO_MAX_HEADER_SIZE <? zlen buf then http_error_close w1 431 else (0, w1)
    | Some t =>
        let headers_len := t + 4 in
        if ci_contains (ztake headers_len buf) (bs "sec-websocket-key") then
          let '(ok, w2) := h_alloc w1 in
          if negb ok then (-1, w2)
          else
            let '(rc2, v2) := ws_process_handshake on_handshake (h_w w2) (c_string (ztake headers_len buf)) in
            let w3 := with_w w2 v2 in
            if negb (rc2 =? 0) then (-1, w3)
            else
              let w4 := h_set w3 (λ c, ws_connection_set_state c WS_STATE_OPEN) in
              let w5 := if on_connect cfg then with_w w4 (log_ev (h_w w4) EvConnect) else w4 in
              (0, consume_request w5 headers_len)
        else
          match on_http_request with
          | None => http_error_close w1 501
          | Some _ =>
              process_http_buffer (h_set w1 (λ c, ws_connection_set_state c WS_STATE_HTTP))
          end
    end.

End Http.
