(* ===== verification/WsReceive.v ===== *)
(** * The first frame dispatcher and handshake reader (src/src/ws/ws_frame.c, ws_connection_handler.c)

    [ws_process_received_frame] and [handle_websocket_handshake] are still exported, but the
    server calls [process_websocket_frame] ([WsHandler]) and [portico_initial_dispatch]
    ([HttpConn]) instead.  They are modelled to say where they agree with their successors
    and what they lack.  Allocations that are never freed are counted. *)
From Stdlib Require Import ZArith Lia.
From stdpp Require Import base numbers list strings.
From S2P Require Import Prelude Cstr Utf8 Frame Sys Conn WsHandler HttpRequest HttpResponse Handshake HttpConn.
Open Scope Z_scope.

Section Received.
Context (cfg : server_cfg) (cb : event → Z).  (* [cb]: what the application's callbacks return *)

(** A registered callback is called and its result returned. *)
Definition call_back (registered : bool) (e : event) (w : cw) : Z * cw :=
  if registered then (cb e, log_ev w e) else (0, w).

(** The Close case: the copied reason is freed if it is not the empty string.  The last
    component counts the copies left. *)
Definition received_close (w : cw) (f : ws_frame) : Z * cw * Z :=
  let close_code := if 2 <=? payload_len f then u16 (Z.lor (Z.shiftl (rd (payload f) 0) 8) (rd (payload f) 1)) else 1000 in
  let '(reason, w1) :=
    if 2 <? payload_len f
    then let '(ok, w1) := alloc w in ((if ok then Some (zdrop 2 (payload f)) else None), w1)
    else (None, w) in
  let close_reason := c_string (default [] reason) in
  let '(_, w2) := ws_send_close_frame w1 close_code close_reason in
  let '(rc, w3) := call_back (on_close cfg) (EvClose close_code close_reason) w2 in
  (rc, w3, match reason with Some _ => if 0 <? zlen close_reason then 0 else 1 | None => 0 end).

Definition ws_process_received_frame (w : cw) (f : ws_frame) : Z * cw * Z :=
  if opcode f =? WS_OPCODE_TEXT then
    if on_text_message cfg then
      let '(ok, w1) := alloc w in
      if negb ok then (-1, w1, 0) else (call_back true (EvText (payload f)) w1, 0)
    else (0, w, 0)
  else if opcode f =? WS_OPCODE_BINARY then (call_back (on_binary_message cfg) (EvBinary (payload f)) w, 0)
  else if opcode f =? WS_OPCODE_PING then
    let '(_, w1) := ws_send_pong_frame w (payload f) in (call_back (on_ping cfg) (EvPing (payload f)) w1, 0)
  else if opcode f =? WS_OPCODE_PONG then (call_back (on_pong cfg) (EvPong (payload f)) w, 0)
  else if opcode f =? WS_OPCODE_CLOSE then received_close w f
  else (-1, w, 0).

(** [ws_free_frame] on [owns_payload], the payload and its length: whether the payload is
    freed, and the three fields after. *)
Definition ws_free_frame (owns : bool) (p : option (list Z)) (len : Z) : bool * (bool * option (list Z) * Z) :=
  match p with
  | Some _ => if owns then (true, (false, None, 0)) else (false, (owns, p, len))
  | None => (false, (owns, p, len))
  end.

(** [handle_websocket_handshake]: one read of at most 4095 bytes must hold the request. *)
Definition handle_websocket_handshake (on_handshake : option (handshake_info → Z * option (list Z))) (w : cw) : Z * cw :=
  match sys_recv (w_sys w) 4095 with
  | (RData b, s1) =>
      let '(rc, w2) := ws_process_handshake on_handshake (with_sys w s1) (c_string b) in
      if rc =? 0 then
        let w3 := with_conn w2 (ws_connection_set_state (w_conn w2) WS_STATE_OPEN) in
        (0, if on_connect cfg then log_ev w3 EvConnect else w3)
      else (-1, w2)
  | (_, s1) => (-1, with_sys w s1)
  end.
End Received.

(** ** Agreement with the dispatcher in use *)

(** An unfragmented frame that the dispatcher in use accepts without a Close. *)
Definition plain (cfg : server_cfg) (w : cw) (f : ws_frame) : Prop :=
  fin f ≠ 0 ∧ in_fragmented_message (parser (w_conn w)) = false ∧
  ((opcode f = WS_OPCODE_TEXT ∧ ws_utf8_valid (payload f) ≠ 0) ∨ opcode f = WS_OPCODE_BINARY ∨
   (opcode f = WS_OPCODE_PONG ∧ payload_len f <= 125) ∨
   (opcode f = WS_OPCODE_PING ∧ payload_len f <= 125 ∧ on_ping cfg = false ∧ 0 <= (ws_send_pong_frame w (payload f)).1)).

(** On such frames, with callbacks that succeed, the two do the same. *)
Theorem received_agrees cfg cb w f :
  (∀ e, cb e = 0) → plain cfg w f → ws_process_received_frame cfg cb w f = (process_websocket_frame cfg w f, 0).
Proof.
  intros Hcb (Hfin & Hp & HO). apply Z.eqb_neq in Hfin. unfold ws_process_received_frame, process_websocket_frame, call_back.
  destruct HO as [[Hop Hu%Z.eqb_neq] | [Hop | [[Hop Hl] | (Hop & Hl & Hpi & Hpong)]]]; rewrite Hop.
  - change (8 <=? WS_OPCODE_TEXT) with false. cbn [andb orb Z.eqb Pos.eqb WS_OPCODE_TEXT]. unfold process_fragmented_frame.
    rewrite Hp, Hfin, Hop, Hu. cbn [andb Z.eqb Pos.eqb WS_OPCODE_TEXT WS_OPCODE_BINARY]. destruct (on_text_message cfg); [ | done].
    destruct (alloc w) as [[] w1]; cbn [negb]; [by rewrite Hcb | done].
  - change (8 <=? WS_OPCODE_BINARY) with false. cbn [andb orb Z.eqb Pos.eqb WS_OPCODE_TEXT WS_OPCODE_BINARY]. unfold process_fragmented_frame.
    rewrite Hp, Hfin, Hop. cbn [andb Z.eqb Pos.eqb WS_OPCODE_TEXT WS_OPCODE_BINARY]. destruct (on_binary_message cfg); [by rewrite Hcb | done].
  - rewrite Hfin, (proj2 (Z.ltb_ge _ _)) by lia. change (8 <=? WS_OPCODE_PONG) with true.
    cbn [andb orb Z.eqb Pos.eqb WS_OPCODE_TEXT WS_OPCODE_BINARY WS_OPCODE_PING WS_OPCODE_PONG]. destruct (on_pong cfg); [by rewrite Hcb | done].
  - rewrite Hfin, (proj2 (Z.ltb_ge _ _)), Hpi by lia. change (8 <=? WS_OPCODE_PING) with true.
    cbn [andb orb Z.eqb Pos.eqb WS_OPCODE_TEXT WS_OPCODE_BINARY WS_OPCODE_PING WS_OPCODE_PONG].
    destruct (ws_send_pong_frame w (payload f)) as [rc w1]. cbn [fst] in Hpong. by rewrite (proj2 (Z.ltb_ge _ _)) by lia.
Qed.

(** ** Where it falls short *)

(** The copy of a Close reason is left behind exactly when the reason begins with NUL. *)
Lemma close_reason_leaks cfg cb w f :
  opcode f = WS_OPCODE_CLOSE →
  (ws_process_received_frame cfg cb w f).2 =
    if (2 <? payload_len f) && (alloc w).1 && bool_decide (c_string (zdrop 2 (payload f)) = []) then 1 else 0.
Proof.
  intros Hop. unfold ws_process_received_frame. rewrite Hop. cbn [Z.eqb Pos.eqb WS_OPCODE_CLOSE WS_OPCODE_TEXT WS_OPCODE_BINARY WS_OPCODE_PING WS_OPCODE_PONG].
  unfold received_close. destruct (2 <? payload_len f).
  2: { destruct (ws_send_close_frame _ _ _), (call_back _ _ _ _). done. }
  destruct (alloc w) as [ok w1]. cbn [fst andb]. destruct ok; cbn [default]; destruct (ws_send_close_frame _ _ _), (call_back _ _ _ _); cbn [snd]; [ | done].
  change (id (zdrop 2 (payload f))) with (zdrop 2 (payload f)). destruct (c_string (zdrop 2 (payload f))) as [ | ch r]; [done |].
  rewrite bool_decide_eq_false_2 by done. pose proof (zlen_nonneg r). rewrite zlen_cons, (proj2 (Z.ltb_lt _ _)) by lia. done.
Qed.

(** A handshake succeeds on the first read alone, and turns the connection over to the
    frame protocol with what that read held beyond the request dropped. *)
Lemma handshake_one_read cfg on_handshake w b r :
  rx (w_sys w) = RxData b :: r → 0 < zlen b <= 4095 →
  handle_websocket_handshake cfg on_handshake w =
    let '(rc, w2) := ws_process_handshake on_handshake (with_sys w (set_rx (w_sys w) r)) (c_string b) in
    if rc =? 0
    then (0, (if on_connect cfg then λ v, log_ev v EvConnect else id) (with_conn w2 (ws_connection_set_state (w_conn w2) WS_STATE_OPEN)))
    else (-1, w2).
Proof.
  intros Hr Hl. unfold handle_websocket_handshake, sys_recv. rewrite Hr. destruct b as [ | c b]; [by destruct Hl |].
  rewrite (proj2 (Z.leb_le _ _)) by lia. destruct (ws_process_handshake _ _ _) as [rc w2]. destruct (rc =? 0); [ | done]. by destruct (on_connect cfg).
Qed.

Definition demo_frame (op : Z) (p : list Z) : ws_frame := mk_frame 1 op 1 (zlen p) [0; 0; 0; 0] p 6 0.
Definition demo_w : cw := mk_cw (zero_conn 1) (mk_sys [] [] [] false [] []) [].

Lemma received_agrees_witness :
  ws_process_received_frame demo_cfg (λ _, 0) demo_w (demo_frame 1 (bs "hi")) = (process_websocket_frame demo_cfg demo_w (demo_frame 1 (bs "hi")), 0) ∧
  w_ev (process_websocket_frame demo_cfg demo_w (demo_frame 1 (bs "hi"))).2 = [EvText (bs "hi")].
Proof.
  split; [ | vm_compute; reflexivity]. apply (received_agrees demo_cfg (λ _, 0) demo_w (demo_frame 1 (bs "hi"))); [done |].
  split; [done |]. split; [done |]. left. split; [done |]. vm_compute. discriminate.
Defined.

(** Text that is not UTF-8 is delivered, a status code that must not be sent is echoed, a
    fragment is delivered as a message, and a reason beginning with NUL is leaked. *)
Example received_unchecked :
  w_ev (ws_process_received_frame demo_cfg (λ _, 0) demo_w (demo_frame 1 [0xFF])).1.2 = [EvText [0xFF]] ∧
  tx (w_sys (ws_process_received_frame demo_cfg (λ _, 0) demo_w (demo_frame 8 [3; 237])).1.2) = [136; 2; 3; 237] ∧
  w_ev (ws_process_received_frame demo_cfg (λ _, 0) demo_w (mk_frame 0 2 1 1 [0; 0; 0; 0] [7] 6 0)).1.2 = [EvBinary [7]] ∧
  (ws_process_received_frame demo_cfg (λ _, 0) demo_w (demo_frame 8 [3; 232; 0; 65])).2 = 1.
Proof. by vm_compute. Qed.
