(* ===== verification/HttpServe.v ===== *)
(** * Pipelined HTTP responses in order (properties of HttpConn)

    For any interleaving of read, writable and completion events, with any behaviour of
    the socket, the allocator and the asynchronous reads: the requests given to the
    application are the ones the client sent, in order, and the bytes queued for the
    client are the answers to them, in order. *)
From Stdlib Require Import ZArith Lia.
From stdpp Require Import base numbers list strings gmap.
From S2P Require Import Prelude Cstr Sys OutBuf Conn WsHandler HttpRequest HttpResponse Handshake HttpConn.
Open Scope Z_scope.

(** ** Filling the receive buffer *)

(** Every byte of the inbound script, also those behind a would-block. *)
Fixpoint rx_all (l : list rx_ev) : list Z :=
  match l with
  | [] => []
  | RxData b :: r => b ++ rx_all r
  | _ :: r => rx_all r
  end.

Lemma sys_recv_all s space r s' :
  0 < space → sys_recv s space = (r, s') →
  rx_all (rx s) = (match r with RData b => b | _ => [] end) ++ rx_all (rx s') ∧
  txs s' = txs s ∧ tx s' = tx s ∧ epollout s' = epollout s ∧ ctl s' = ctl s ∧ mem s' = mem s.
Proof.
  intros Hs. unfold sys_recv.
  destruct (rx s) as [ | [ [ | x d] | | | ] t] eqn:E; try (intros [= <- <-]; cbn; rewrite ?E; done).
  destruct (_ <=? space) eqn:E1; zbool; intros [= <- <-]; cbn [rx set_rx rx_all]; [done |].
  by rewrite app_assoc, ztake_zdrop.
Qed.

Definition recv_ok (c : ws_connection) : Prop :=
  0 <= recv_buffer_capacity c ∧ recv_buffer_used c <= recv_buffer_capacity c <= recv_hard_max.

(** What filling the buffer leaves alone. *)
Definition recv_frame (w w' : cw) : Prop :=
  w_ev w' = w_ev w ∧ tx (w_sys w') = tx (w_sys w) ∧ txs (w_sys w') = txs (w_sys w) ∧
  epollout (w_sys w') = epollout (w_sys w) ∧
  ∃ b cap t p, w_conn w' = set_activity (set_recv (w_conn w) b cap) t p.

Lemma recv_frame_refl w : recv_frame w w.
Proof.
  split_and!; try done. exists (recv_buffer (w_conn w)), (recv_buffer_capacity (w_conn w)),
    (last_activity (w_conn w)), (ping_sent_at (w_conn w)). by destruct w as [[] ? ?].
Qed.

Lemma recv_frame_trans a b c : recv_frame a b → recv_frame b c → recv_frame a c.
Proof.
  intros (E1 & T1 & S1 & P1 & b1 & c1 & t1 & p1 & C1) (E2 & T2 & S2 & P2 & b2 & c2 & t2 & p2 & C2).
  split_and!; try congruence. exists b2, c2, t2, p2. by rewrite C2, C1.
Qed.

Lemma grow_http_spec w :
  recv_ok (w_conn w) →
  match grow_http w with
  | inl (rc, w') => recv_frame w w' ∧ recv_buffer (w_conn w') = recv_buffer (w_conn w) ∧
                    recv_ok (w_conn w') ∧ rx (w_sys w') = rx (w_sys w) ∧
                    (rc = -1 ∨ rc = 0 ∧ recv_buffer_used (w_conn w) = recv_hard_max)
  | inr w' => recv_frame w w' ∧ recv_buffer (w_conn w') = recv_buffer (w_conn w) ∧
              recv_ok (w_conn w') ∧ rx (w_sys w') = rx (w_sys w) ∧
              recv_buffer_used (w_conn w') < recv_buffer_capacity (w_conn w')
  end.
Proof.
  intros (H0 & H1 & H2). unfold grow_http. pose proof (recv_frame_refl w) as HR.
  destruct (_ =? _) eqn:E1; zbool; [ | split_and!; try done; lia].
  destruct (_ <=? _) eqn:E2; zbool; [split_and!; try done; right; split; [done | lia] |].
  set (nc := if recv_hard_max <? _ then recv_hard_max else _).
  assert (Hnc : recv_buffer_capacity (w_conn w) < nc <= recv_hard_max).
  { unfold nc, recv_hard_max, PORTICO_MAX_HEADER_SIZE, PORTICO_MAX_BODY in *. split_ifs; zbool; lia. }
  assert (Hset : ∀ s, tx s = tx (w_sys w) → txs s = txs (w_sys w) → epollout s = epollout (w_sys w) →
    recv_frame w (mk_cw (set_recv (w_conn w) (recv_buffer (w_conn w)) nc) s (w_ev w))).
  { intros s ? ? ?. split_and!; try done.
    exists (recv_buffer (w_conn w)), nc, (last_activity (w_conn w)), (ping_sent_at (w_conn w)).
    cbn. by destruct (w_conn w). }
  unfold alloc, sys_alloc. destruct (mem (w_sys w)) as [ | [ | ] t]; cbn [negb].
  - split_and!; [by apply Hset | done | | done | ]; unfold recv_ok, recv_buffer_used in *; cbn; lia.
  - split_and!; [by apply Hset | done | | done | ]; unfold recv_ok, recv_buffer_used in *; cbn; lia.
  - destruct HR as (_ & _ & _ & _ & b & cap & t' & p & HC).
    split; [split_and!; try done; by exists b, cap, t', p |]. split; [done |].
    split; [by split_and! |]. split; [done | by left].
Qed.

Lemma read_into_loop_spec now fuel : ∀ w rc w',
  recv_ok (w_conn w) → (rx_size (rx (w_sys w)) < fuel)%nat →
  read_into_loop fuel now w = (rc, w') →
  recv_frame w w' ∧ recv_ok (w_conn w') ∧
  recv_buffer (w_conn w') ++ rx_all (rx (w_sys w')) = recv_buffer (w_conn w) ++ rx_all (rx (w_sys w)) ∧
  (∃ b, recv_buffer (w_conn w') = recv_buffer (w_conn w) ++ b) ∧
  (rc = 0 ∨ rc = -1).
Proof.
  induction fuel as [ | n IH]; intros w rc w' Hok Hf; [lia |]. cbn [read_into_loop].
  pose proof (grow_http_spec w Hok) as Hg. destruct (grow_http w) as [[rc1 w1] | w1].
  { destruct Hg as (Hfr & Hb & Hok1 & Hrx & Hrc). intros [= <- <-]. rewrite Hb, Hrx.
    split_and!; try done; [exists []; by rewrite app_nil_r | lia]. }
  destruct Hg as (Hfr & Hb & Hok1 & Hrx & Hlt).
  destruct (sys_recv (w_sys w1) _) as [r s2] eqn:ER. pose proof ER as ER'.
  apply sys_recv_all in ER' as (Hall & Htxs & Htx & Hep & Hctl & Hmem); [ | lia].
  rewrite Hrx in Hall.
  assert (Hfr2 : recv_frame w (with_sys w1 s2)).
  { apply (recv_frame_trans w w1); [done |]. split_and!; try done.
    exists (recv_buffer (w_conn w1)), (recv_buffer_capacity (w_conn w1)), (last_activity (w_conn w1)),
      (ping_sent_at (w_conn w1)). cbn. by destruct (w_conn w1). }
  assert (Hstop : ∀ rc0, rc0 = 0 ∨ rc0 = -1 → (∀ b, r ≠ RData b) → (rc0, with_sys w1 s2) = (rc, w') →
    recv_frame w w' ∧ recv_ok (w_conn w') ∧
    recv_buffer (w_conn w') ++ rx_all (rx (w_sys w')) = recv_buffer (w_conn w) ++ rx_all (rx (w_sys w)) ∧
    (∃ b, recv_buffer (w_conn w') = recv_buffer (w_conn w) ++ b) ∧ (rc = 0 ∨ rc = -1)).
  { intros rc0 Hrc Hr [= <- <-]. cbn. rewrite Hb. split_and!; try done; [ | exists []; by rewrite app_nil_r].
    rewrite Hall. destruct r as [b0 | | | ]; [by destruct (Hr b0) | done..]. }
  destruct r as [b | | | ].
  2-4: intros H; eapply Hstop; [ | | exact H]; [auto | done].
  apply sys_recv_data in ER as (Hne & Hbl & _ & Hsz & _); [ | lia].
  intros H. apply IH in H as (Hfr3 & Hok3 & Heq & [b3 Hb3] & Hrc).
  - split_and!; try done.
    + eapply recv_frame_trans; [exact Hfr | eapply recv_frame_trans; [ | exact Hfr3]].
      split_and!; try done. eexists _, _, _, _. reflexivity.
    + rewrite Heq. cbn. by rewrite <- app_assoc, <- Hall, Hb.
    + exists (b ++ b3). rewrite Hb3. cbn. by rewrite Hb, app_assoc.
  - unfold recv_ok, recv_buffer_used in *. cbn. rewrite zlen_app. lia.
  - cbn [w_sys]. rewrite Hrx in Hsz. lia.
Qed.

(** Filling the receive buffer: no byte of the socket's stream is lost, duplicated
    or reordered (what is in the buffer followed by what the kernel still holds never
    changes), the buffer stays within its capacity and the capacity within the cap of
    header plus body size, and the outbound side is untouched. *)
Theorem read_into_recv_lossless now w rc w' :
  recv_ok (w_conn w) → read_into_recv now w = (rc, w') →
  recv_buffer (w_conn w') ++ rx_all (rx (w_sys w')) = recv_buffer (w_conn w) ++ rx_all (rx (w_sys w)) ∧
  recv_buffer_used (w_conn w') <= recv_buffer_capacity (w_conn w') <= recv_hard_max ∧
  recv_frame w w' ∧ (rc = 0 ∨ rc = -1).
Proof.
  intros Hok H. apply read_into_loop_spec in H as (? & Hok' & ? & _ & ?); [ | done | lia].
  destruct Hok'. tauto.
Qed.

(** ** What the outbound functions change *)

Definition hstream (w : hw) : list Z := stream (out (h_conn w)) (h_sys w).
Definition hout_ok (w : hw) : Prop := out_ok (out (h_conn w)) (h_sys w).
Definition flag (w : hw) : bool := out_close_when_drained (out (h_conn w)).
Definition hbounds (w : hw) : Prop := bounds (out (h_conn w)).

(** Everything but the output queue, the socket's outbound side and the allocator. *)
Record same_core (w w' : hw) : Prop := mk_core {
  core_recv : recv_buffer (h_conn w') = recv_buffer (h_conn w);
  core_cap : recv_buffer_capacity (h_conn w') = recv_buffer_capacity (h_conn w);
  core_state : state (h_conn w') = state (h_conn w);
  core_fd : fd (h_conn w') = fd (h_conn w);
  core_gen : generation (h_conn w') = generation (h_conn w);
  core_inflight : http_async_inflight (h_conn w') = http_async_inflight (h_conn w);
  core_stream : file_stream (h_conn w') = file_stream (h_conn w);
  core_aio : h_aio w' = h_aio w;
  core_heap : h_heap w' = h_heap w;
  core_next : h_next w' = h_next w;
  core_reqs : h_reqs w' = h_reqs w;
  core_rx : rx (h_sys w') = rx (h_sys w)
}.

#[export] Instance same_core_preorder : PreOrder same_core.
Proof.
  split; [by intros w; constructor |].
  intros a b c [] []. constructor; congruence.
Qed.

Ltac solve_core := constructor; reflexivity.

Lemma h_alloc_spec w ok w' :
  h_alloc w = (ok, w') →
  same_core w w' ∧ hstream w' = hstream w ∧ (hout_ok w → hout_ok w') ∧ flag w' = flag w ∧
  out (h_conn w') = out (h_conn w).
Proof.
  unfold h_alloc, alloc, sys_alloc.
  destruct (mem (w_sys (h_w w))); intros [= <- <-]; split_and!; try done; solve_core.
Qed.

Lemma h_send_spec w buf rc w' :
  hout_ok w → h_send w buf = (rc, w') →
  same_core w w' ∧ flag w' = flag w ∧ hbounds w' ∧ (rc = 0 ∨ rc = -1) ∧
  (rc = 0 → hstream w' = hstream w ++ buf ∧ hout_ok w') ∧
  (∃ x, hstream w' = hstream w ++ x).
Proof.
  intros Hok. unfold h_send.
  destruct (portico_conn_send _ _ _) as [[rc0 q] s] eqn:E.
  pose proof E as E'. apply conn_send_spec in E' as (Hb & Hf & Hrx & Hrc & H0 & H1); [ | done].
  intros [= <- <-]. split; [by constructor |]. split; [done |]. split; [done |]. split; [done |].
  split; [done |].
  destruct Hrc as [-> | ->]; [destruct (H0 eq_refl) as [H _] | destruct (H1 eq_refl) as [k H]];
    [by exists buf | by exists (take k buf)].
Qed.

Lemma h_finish_close_spec w rc w' :
  hbounds w → h_finish_close w = (rc, w') →
  same_core w w' ∧ hstream w' = hstream w ∧ hbounds w' ∧ (rc = 0 ∧ flag w' = true ∨ rc = -1).
Proof.
  intros Hb. unfold h_finish_close, http_finish_close.  destruct (backlogged _) eqn:E; intros [= <- <-]; split_and!; try done; try solve_core; auto.
Qed.

(** ** What the client is to receive *)

Section Serve.
Context (E : http_env) (handler : list request → request → response → Z * response).
Context (file_data : Z → list Z).

(** The application answers through the response API: its header block fits, and a
    file range is not negative. *)
Definition handler_ok : Prop :=
  ∀ L r ka, let res := (handler L r (res_init ka)).2 in
    res_ok res ∧ (is_file res = true → 0 <= file_offset res ∧ 0 <= file_size res).

(** A read gives bytes of the file from the offset on, at most as many as asked. *)
Definition pread_ok : Prop :=
  ∀ f len off d, 0 <= len → 0 <= off → e_pread E f len off = Some d →
    d = ztake (zlen d) (zdrop off (file_data f)) ∧ zlen d <= len.

Definition env_ok : Prop :=
  phr_contract (e_phr E) ∧ e_on_http_request E = Some handler ∧ handler_ok ∧ pread_ok.

Context (Henv : env_ok).

Definition slice (f off len : Z) : list Z := ztake len (zdrop off (file_data f)).
Definition serialized (r : response) : list Z := default [] (portico_http_build_response true r).
Definition status_reply (st : Z) : list Z := response_head st [] 0 false.

(** The whole answer to a parked single-read file. *)
Definition file_answer (ctx : file_ctx) (off : Z) : list Z :=
  match e_pread E (c_file_fd ctx) (c_size ctx) off with
  | Some d => serialized (mk_res (c_status ctx) (c_headers ctx) d (c_keep_alive ctx) false false 0 0 0 false)
  | None => status_reply 500
  end.

(** The answer to the request [r] after the requests [L]. *)
Definition answer (L : list request) (r : request) : list Z :=
  let '(hrc, res) := handler L r (res_init (keep_alive r)) in
  if negb (hrc =? 0) then
    serialized (mk_res 500 (res_headers res) [] (res_keep_alive res) (content_type_set res) false
                  (file_fd res) (file_offset res) (file_size res) (head_only res))
  else if is_file res then
    if e_aio E && (PORTICO_STREAM_CHUNK <? file_size res) then
      stream_head res ++ slice (file_fd res) (file_offset res) (file_size res)
    else if PORTICO_SINGLE_MAX <? file_size res then status_reply 503
    else file_answer (mk_ctx 0 (file_fd res) (file_size res) (status res) (res_keep_alive res) (res_headers res))
           (file_offset res)
  else serialized res.

(** The answers to [l], after the requests [past]. *)
Fixpoint answers_from (past l : list request) : list Z :=
  match l with
  | [] => []
  | r :: t => answer past r ++ answers_from (past ++ [r]) t
  end.

(** The answers to the log [L] of a slot, after those [FR] of its earlier users. *)
Definition answers (FR L : list request) : list Z := answers_from FR (drop (length FR) L).

Lemma answers_from_app past l1 : ∀ l2,
  answers_from past (l1 ++ l2) = answers_from past l1 ++ answers_from (past ++ l1) l2.
Proof.
  revert past. induction l1 as [ | r t IH]; intros past l2; cbn [answers_from app]; [by rewrite app_nil_r |].
  rewrite IH, <- !app_assoc. done.
Qed.

Lemma answers_own FR l : answers FR (FR ++ l) = answers_from FR l.
Proof. unfold answers. by rewrite drop_app_length. Qed.

Lemma answers_snoc FR L r : FR `prefix_of` L → answers FR (L ++ [r]) = answers FR L ++ answer L r.
Proof. intros [l ->]. rewrite <- app_assoc, !answers_own, answers_from_app. cbn. by rewrite app_nil_r. Qed.

(** ** Invariant *)

(** What the earlier users of the slot left: reads in flight, contexts they own, and
    their requests; stream contexts from [p_base] on belong to the connection with
    generation [p_gen]. *)
Record past := mk_past {
  p_gen : Z;
  p_base : Z;
  p_aio : list aio_op;
  p_heap : gmap Z http_stream;
  p_reqs : list request
}.

Definition stale_op (P : past) (op : aio_op) : Prop :=
  match op with AFile ctx _ => c_generation ctx ≠ p_gen P | AStream p _ _ _ => p < p_base P end.

Definition past_ok (P : past) : Prop :=
  Forall (stale_op P) (p_aio P) ∧ ∀ p s, p_heap P !! p = Some s → p < p_base P ∧ s_generation s ≠ p_gen P.

(** A slot nobody used before. *)
Definition no_past (gen : Z) : past := mk_past gen 0 [] ∅ [].

Lemma no_past_ok gen : past_ok (no_past gen).
Proof. split; [constructor |]. intros p s. cbn. by rewrite lookup_empty. Qed.

Section Past.
Context (P : past) (HP : past_ok P).

(** The wires of the requests so far. *)
Definition is_request (wire : list Z) (r : request) : Prop :=
  ∃ r0 ip, portico_http_parse (e_phr E) wire = (zlen wire, Some r0) ∧ r = set_client_ip r0 ip.

Definition dispatched (i : list Z) (reqs : list request) (rest : list Z) : Prop :=
  ∃ wires own, i = concat wires ++ rest ∧ Forall2 is_request wires own ∧ reqs = p_reqs P ++ own.

(** The connection is the one the past is relative to. *)
Definition mine (w : hw) : Prop := generation (h_conn w) = p_gen P ∧ p_base P <= h_next w.

Definition idle (w : hw) : Prop :=
  file_stream (h_conn w) = None ∧ http_async_inflight (h_conn w) = false ∧ h_aio w = p_aio P ∧
  h_heap w = p_heap P ∧ mine w.

Definition healthy (w : hw) : Prop :=
  hout_ok w ∧ recv_ok (h_conn w) ∧ state (h_conn w) = WS_STATE_HTTP ∧ 0 <= i32 (fd (h_conn w)) ∧ flag w = false.

(** No response under way: the output is exactly the answers. *)
Definition ready (i : list Z) (w : hw) : Prop :=
  healthy w ∧ idle w ∧ hstream w = answers (p_reqs P) (h_reqs w) ∧ dispatched i (h_reqs w) (recv_buffer (h_conn w)).

(** All requests but the last are answered in full. *)
Definition started (w : hw) : Prop := ∃ x, hstream w = answers (p_reqs P) (removelast (h_reqs w)) ++ x.

(** A single-read response whose read is in flight. *)
Definition parked (i : list Z) (w : hw) : Prop :=
  healthy w ∧ started w ∧ dispatched i (h_reqs w) (recv_buffer (h_conn w)) ∧
  file_stream (h_conn w) = None ∧ http_async_inflight (h_conn w) = true ∧ h_heap w = p_heap P ∧
  mine w ∧
  ∃ ctx off, h_aio w = p_aio P ++ [AFile ctx off] ∧ c_generation ctx = generation (h_conn w) ∧
             res_ok (mk_res 0 (c_headers ctx) [] false false false 0 0 0 false) ∧
             hstream w ++ file_answer ctx off = answers (p_reqs P) (h_reqs w).

Definition want (s : http_stream) : Z :=
  if PORTICO_STREAM_CHUNK <? s_end s - s_offset s then PORTICO_STREAM_CHUNK else s_end s - s_offset s.

(** A streamed response: everything up to the stream's offset is queued. *)
Definition stream_at (i : list Z) (w : hw) (p : Z) (s : http_stream) : Prop :=
  healthy w ∧ started w ∧ dispatched i (h_reqs w) (recv_buffer (h_conn w)) ∧
  file_stream (h_conn w) = Some p ∧ http_async_inflight (h_conn w) = true ∧ h_heap w = <[p := s]> (p_heap P) ∧
  s_generation s = generation (h_conn w) ∧ 0 <= s_offset s <= s_end s ∧
  hstream w ++ slice (s_file_fd s) (s_offset s) (s_end s - s_offset s) = answers (p_reqs P) (h_reqs w) ∧
  mine w ∧ p_base P <= p.

(** It is waiting for its read, or for the socket to drain. *)
Definition streaming (i : list Z) (w : hw) : Prop :=
  ∃ p s, stream_at i w p s ∧
    if s_reading s then s_offset s < s_end s ∧ h_aio w = p_aio P ++ [AStream p (s_file_fd s) (want s) (s_offset s)]
    else h_aio w = p_aio P ∧ backlogged (out (h_conn w)) = true.

Definition live (i : list Z) (w : hw) : Prop := ready i w ∨ parked i w ∨ streaming i w.

(** After a failure or a final response: no response under way. *)
Definition ended (i : list Z) (w : hw) : Prop :=
  hbounds w ∧ idle w ∧ started w ∧ ∃ rest, dispatched i (h_reqs w) rest.

Definition post (i : list Z) (rc : Z) (w : hw) : Prop :=
  (rc = 0 ∧ (live i w ∨ ended i w ∧ flag w = true)) ∨ (rc = -1 ∧ ended i w).

(** ** Frame lemmas *)

Lemma mine_core w w' : same_core w w' → mine w → mine w'.
Proof. intros [] [? ?]. split; [congruence | lia]. Qed.

Lemma idle_core w w' : same_core w w' → idle w → idle w'.
Proof. intros HC (? & ? & ? & ? & ?). split_and!; try (by destruct HC; congruence). by apply (mine_core w). Qed.

Lemma own_fresh p : p_base P <= p → p_heap P !! p = None.
Proof. intros H. destruct (p_heap P !! p) as [s | ] eqn:EP; [ | done]. apply (proj2 HP) in EP. lia. Qed.

Lemma own_freed p s : p_base P <= p → delete p (<[p := s]> (p_heap P)) = p_heap P.
Proof. intros H. by rewrite delete_insert_id by (by apply own_fresh). Qed.

Lemma started_grow w w' x : started w → h_reqs w' = h_reqs w → hstream w' = hstream w ++ x → started w'.
Proof. intros [y Hy] Hr Hs. exists (y ++ x). by rewrite Hs, Hy, Hr, app_assoc. Qed.

Lemma started_same w w' : started w → h_reqs w' = h_reqs w → hstream w' = hstream w → started w'.
Proof. intros H Hr Hs. eapply started_grow; [done | done |]. by rewrite Hs, app_nil_r. Qed.

Lemma healthy_core w w' :
  healthy w → same_core w w' → hout_ok w' → flag w' = flag w → healthy w'.
Proof.
  intros (_ & (H1 & H2 & H3) & H4 & H5 & H6) [] Ho Hf. unfold healthy, recv_ok, recv_buffer_used in *.
  split_and!; congruence || (rewrite ?core_cap0, ?core_recv0, ?core_fd0; done).
Qed.

Lemma ended_core i w w' x rest :
  idle w → started w → dispatched i (h_reqs w) rest →
  same_core w w' → hbounds w' → hstream w' = hstream w ++ x → ended i w'.
Proof.
  intros Hi Hs Hd HC Hb Hx. split; [done |]. split; [by eapply idle_core |].
  split; [eapply started_grow; [done | apply HC | exact Hx] |]. exists rest. by rewrite (core_reqs _ _ HC).
Qed.

Lemma answers_started own : let L := p_reqs P ++ own in ∃ x, answers (p_reqs P) L = answers (p_reqs P) (removelast L) ++ x.
Proof.
  cbv zeta. destruct (rev own) as [ | r t] eqn:H; apply (f_equal (@rev _)) in H; rewrite rev_involutive in H; subst own.
  - cbn. exists []. rewrite answers_own, app_nil_r. cbn. unfold answers. rewrite drop_ge; [done |].
    rewrite app_nil_r. generalize (p_reqs P) as l. induction l as [ | x [ | y l] IH]; cbn in *; lia.
  - change (rev (r :: t)) with (rev t ++ [r]). exists (answer (p_reqs P ++ rev t) r).
    rewrite app_assoc, removelast_last. by apply answers_snoc, prefix_app_r.
Qed.

Lemma ready_started i w : ready i w → started w.
Proof.
  intros (_ & _ & Hs & wires & own & _ & _ & Hr). unfold started. rewrite Hs, Hr. apply answers_started.
Qed.

Lemma out_ok_hbounds w : hout_ok w → hbounds w.
Proof. apply out_ok_bounds. Qed.

(** A status reply followed by the close decision ends the connection's service. *)
Lemma error_close_post i w st rc w' rest :
  hout_ok w → idle w → started w → dispatched i (h_reqs w) rest →
  http_error_close w st = (rc, w') → post i rc w'.
Proof.
  intros Ho Hi Hs Hd. unfold http_error_close, http_reply_status, http_send_owned.
  destruct (h_alloc w) as [ok w1] eqn:EA. apply h_alloc_spec in EA as (HC1 & Hst1 & Ho1 & Hf1 & _).
  specialize (Ho1 Ho).
  destruct (portico_http_build_status ok st false) as [b | ].
  - destruct (h_send w1 b) as [rc2 w2] eqn:ES. apply h_send_spec in ES as (HC2 & Hf2 & Hb2 & Hrc & _ & [x Hx]); [ | done].
    assert (He : ended i w2).
    { eapply ended_core; [exact Hi | exact Hs | exact Hd | by etransitivity | done | by rewrite Hx, Hst1]. }
    destruct (rc2 <? 0) eqn:E0; zbool; [intros [= <- <-]; by right |].
    intros HF. apply h_finish_close_spec in HF as (HC3 & Hst3 & Hb3 & Hrc3); [ | done].
    assert (He3 : ended i w').
    { eapply ended_core; [exact Hi | exact Hs | exact Hd | do 2 (etransitivity; [eassumption |]); eassumption | done |
        by rewrite Hst3, Hx, Hst1]. }
    destruct Hrc3 as [[-> Hfl] | ->]; [left | right]; auto.
  - cbn. intros [= <- <-]. right. split; [done |].
    eapply ended_core; [exact Hi | exact Hs | exact Hd | done | by apply out_ok_hbounds | by rewrite Hst1, app_nil_r].
Qed.

(** ** Answering one request *)

(** The request [r] has been given to the application, [n] of its bytes are still in
    the buffer, and nothing of its answer is queued. *)
Definition answering (i : list Z) (w : hw) (L : list request) (r : request) (n : Z) : Prop :=
  healthy w ∧ idle w ∧ h_reqs w = L ++ [r] ∧ p_reqs P `prefix_of` L ∧ hstream w = answers (p_reqs P) L ∧
  dispatched i (h_reqs w) (zdrop n (recv_buffer (h_conn w))) ∧ 0 < n <= recv_buffer_used (h_conn w).

Lemma answering_started i w L r n : answering i w L r n → started w.
Proof. intros (_ & _ & Hr & _ & Hs & _). exists []. by rewrite Hr, removelast_last, app_nil_r. Qed.

Lemma answering_core i w w' L r n :
  answering i w L r n → same_core w w' → hout_ok w' → flag w' = flag w → hstream w' = hstream w →
  answering i w' L r n.
Proof.
  intros (Hh & Hi & Hr & Hpre & Hs & Hd & Hn) HC Ho Hf Hst.
  unfold answering, recv_buffer_used in *. rewrite (core_reqs _ _ HC), (core_recv _ _ HC), Hst.
  split; [by apply (healthy_core w) |]. split; [by apply (idle_core w) |]. done.
Qed.

(** What consuming a request leaves. *)
Lemma consume_spec w n :
  0 < n <= recv_buffer_used (h_conn w) →
  recv_buffer (h_conn (consume_request w n)) = zdrop n (recv_buffer (h_conn w)) ∧
  (length (zdrop n (recv_buffer (h_conn w))) < length (recv_buffer (h_conn w)))%nat ∧
  (healthy w → healthy (consume_request w n)) ∧ hstream (consume_request w n) = hstream w.
Proof.
  intros Hn. unfold recv_buffer_used in Hn. split; [ | split; [ | split]].
  - cbn. unfold recv_buffer_used. split_if; zbool; [done |]. by rewrite zdrop_ge by lia.
  - unfold zdrop. rewrite length_drop. unfold zlen in Hn. lia.
  - intros (? & (? & ? & ?) & ? & ? & ?). split_and!; try done.
    unfold recv_buffer_used in *. cbn. unfold recv_buffer_used. split_if; zbool.
    all: unfold recv_ok, recv_buffer_used; cbn [recv_buffer recv_buffer_capacity set_recv].
    + rewrite zlen_zdrop by lia. lia.
    + change (zlen (@nil Z)) with 0. lia.
  - done.
Qed.

Lemma consumed_ready i w L r n :
  healthy w → idle w → h_reqs w = L ++ [r] → p_reqs P `prefix_of` L → hstream w = answers (p_reqs P) L ++ answer L r →
  dispatched i (h_reqs w) (zdrop n (recv_buffer (h_conn w))) → 0 < n <= recv_buffer_used (h_conn w) →
  ready i (consume_request w n).
Proof.
  intros Hh Hi Hr Hpre Hs Hd Hn. destruct (consume_spec w n Hn) as (H1 & _ & H2 & H3).
  split; [by apply H2 |]. split; [done |]. split; [rewrite H3, Hs; change (h_reqs (consume_request w n)) with (h_reqs w); by rewrite Hr, answers_snoc |].
  by rewrite H1.
Qed.

Lemma build_none ok r : ok = false → portico_http_build_response ok r = None.
Proof. intros ->. unfold portico_http_build_response. by destruct (_ || _). Qed.

Lemma respond_spec i w L r n res o w' :
  answering i w L r n → portico_http_build_response true res = Some (answer L r) →
  respond w res n = (o, w') →
  match o with
  | None => ended i w'
  | Some w2 => w2 = w' ∧ ready i w' ∧ (length (recv_buffer (h_conn w')) < length (recv_buffer (h_conn w)))%nat
  end.
Proof.
  intros Ha Hb. unfold respond, http_send_owned. pose proof (answering_started _ _ _ _ _ Ha) as Hst.
  destruct (h_alloc w) as [ok w1] eqn:EA. apply h_alloc_spec in EA as (HC1 & Hst1 & Ho1 & Hf1 & _).
  pose proof Ha as (Hh & Hi & Hr & Hpre & Hs & Hd & Hn). specialize (Ho1 (proj1 Hh)).
  destruct ok.
  - rewrite Hb. destruct (h_send w1 (answer L r)) as [rc w2] eqn:ES.
    apply h_send_spec in ES as (HC2 & Hf2 & Hb2 & Hrc & H0 & [x Hx]); [ | done].
    assert (HC : same_core w w2) by (by etransitivity).
    destruct (rc =? 0) eqn:E0; zbool; cbn [negb]; intros [= <- <-].
    + destruct (H0 ltac:(done)) as [Hs2 Ho2].
      assert (Hn2 : 0 < n <= recv_buffer_used (h_conn w2))
        by (unfold recv_buffer_used; rewrite (core_recv _ _ HC); done).
      split; [done |]. split.
      * eapply consumed_ready; [ | | | exact Hpre | | | done].
        -- apply (healthy_core w w2); try done. congruence.
        -- by apply (idle_core w).
        -- by rewrite (core_reqs _ _ HC).
        -- by rewrite Hs2, Hst1, Hs.
        -- by rewrite (core_reqs _ _ HC), (core_recv _ _ HC).
      * destruct (consume_spec w2 n Hn2) as (-> & Hlt & _). by rewrite (core_recv _ _ HC) in *.
    + eapply ended_core; [done | done | done | done | done | by rewrite Hx, Hst1].
  - rewrite build_none by done. intros [= <- <-].
    eapply ended_core; [done | done | done | done | by apply out_ok_hbounds | by rewrite Hst1, app_nil_r].
Qed.

(** ** The single-read file response *)

Lemma build_status_ok ok st b : portico_http_build_status ok st false = Some b → b = status_reply st.
Proof. unfold portico_http_build_status. destruct (_ || _); [done |]. by destruct ok; intros [= <-]. Qed.

Lemma build_serialized ok r resp : portico_http_build_response ok r = Some resp → resp = serialized r.
Proof.
  intros H. destruct ok; [ | by rewrite build_none in H].
  unfold serialized. by rewrite H.
Qed.

Lemma file_emit_spec w ctx off b w' :
  hout_ok w →
  file_emit w ctx (e_pread E (c_file_fd ctx) (c_size ctx) off) = (b, w') →
  same_core w w' ∧ hbounds w' ∧ flag w' = flag w ∧ (∃ x, hstream w' = hstream w ++ x) ∧
  (b = false → hstream w' = hstream w ++ file_answer ctx off ∧ hout_ok w').
Proof.
  intros Ho. unfold file_emit, file_answer. destruct (e_pread E _ _ _) as [d | ].
  - destruct (h_alloc w) as [ok w1] eqn:EA. apply h_alloc_spec in EA as (HC1 & Hst1 & Ho1 & Hf1 & _).
    specialize (Ho1 Ho).
    destruct (portico_http_build_response ok _) as [resp | ] eqn:EB; cycle 1.
    { intros [= <- <-]. split_and!; try done; [by apply out_ok_hbounds |]. exists []. by rewrite Hst1, app_nil_r. }
    apply build_serialized in EB as ->.
    destruct (h_send w1 _) as [sent w2] eqn:ES.
    apply h_send_spec in ES as (HC2 & Hf2 & Hb2 & Hrc & H0 & [x Hx]); [ | done].
    assert (HC : same_core w w2) by (by etransitivity).
    destruct (sent =? 0) eqn:E0; zbool; cbn [negb]; intros [= <- <-];
      (split; [done |]; split; [done |]; split; [congruence |]; split; [exists x; by rewrite Hx, Hst1 |]); [ | done].
    intros _. destruct (H0 E0) as [Hs2 Ho2]. by rewrite Hs2, Hst1.
  - destruct (h_alloc w) as [ok w1] eqn:EA. apply h_alloc_spec in EA as (HC1 & Hst1 & Ho1 & Hf1 & _).
    specialize (Ho1 Ho).
    destruct (portico_http_build_status ok 500 false) as [b0 | ] eqn:EB; cycle 1.
    { intros [= <- <-]. split_and!; try done; [by apply out_ok_hbounds |]. exists []. by rewrite Hst1, app_nil_r. }
    destruct (h_send w1 b0) as [sent w2] eqn:ES.
    apply h_send_spec in ES as (HC2 & Hf2 & Hb2 & Hrc & H0 & [x Hx]); [ | done].
    intros [= <- <-]. split; [by etransitivity |]. split; [done |]. split; [congruence |].
    split; [exists x; by rewrite Hx, Hst1 | done].
Qed.

(** ** The streamed file response *)

Lemma slice_step f off len d :
  0 <= off → zlen d <= len → d = ztake (zlen d) (zdrop off (file_data f)) →
  slice f off len = d ++ slice f (off + zlen d) (len - zlen d).
Proof.
  intros Ho Hl Hd. unfold slice. pose proof (zlen_nonneg d) as Hn. set (D := zdrop off (file_data f)) in *.
  assert (HD : D = d ++ zdrop (zlen d) D) by (rewrite Hd at 1; by rewrite ztake_zdrop).
  assert (zdrop (off + zlen d) (file_data f) = zdrop (zlen d) D) as ->.
  { unfold D, zdrop. rewrite drop_drop. f_equal. lia. }
  rewrite HD at 1. unfold ztake. rewrite take_app. f_equal.
  - apply take_ge. unfold zlen in *. lia.
  - f_equal. unfold zlen in *. lia.
Qed.

Lemma slice_nil f off len : len <= 0 → slice f off len = [].
Proof. intros H. unfold slice, ztake. by replace (Z.to_nat len) with 0%nat by lia. Qed.

(** The context's fields may change, the connection and its output do not. *)
Lemma stream_at_heap i w w' p s s' :
  stream_at i w p s → h_w w' = h_w w → h_reqs w' = h_reqs w → h_next w' = h_next w → h_heap w' = <[p := s']> (p_heap P) →
  s_generation s' = s_generation s → s_file_fd s' = s_file_fd s →
  s_offset s' = s_offset s → s_end s' = s_end s → stream_at i w' p s'.
Proof.
  intros H Hw Hr Hn Hh Hg Hf Ho He. unfold stream_at, healthy, hout_ok, flag, started, mine, hstream, h_conn, h_sys in *.
  rewrite Hw, Hr, Hn, Hg, Hf, Ho, He. tauto.
Qed.

(** Sending a chunk moves the offset. *)
Lemma stream_at_send i w w2 p s d :
  stream_at i w p s → same_core w w2 → hout_ok w2 → flag w2 = flag w → hstream w2 = hstream w ++ d →
  d = ztake (zlen d) (zdrop (s_offset s) (file_data (s_file_fd s))) → zlen d <= s_end s - s_offset s →
  stream_at i (with_heap w2 (<[p := advance_offset (set_reading s false) (zlen d)]> (h_heap w2))) p
    (advance_offset (set_reading s false) (zlen d)).
Proof.
  intros (Hh & Hst & Hd & Hfs & Hin & Hhp & Hg & Hoff & Hs & Hmi & Hpp) HC Ho2 Hf2 Hs2 Hdd Hl.
  pose proof (zlen_nonneg d).
  rewrite (slice_step _ _ _ d), app_assoc in Hs by (done || lia).
  assert (Hh2 : healthy w2) by (by apply (healthy_core w)).
  unfold stream_at. split; [exact Hh2 |].
  split; [apply (started_grow w _ d); [done | apply HC | done] |].
  split; [change (dispatched i (h_reqs w2) (recv_buffer (h_conn w2))); by rewrite (core_reqs _ _ HC), (core_recv _ _ HC) |].
  split; [by rewrite <- Hfs, <- (core_stream _ _ HC) |].
  split; [by rewrite <- Hin, <- (core_inflight _ _ HC) |].
  split; [cbn; by rewrite (core_heap _ _ HC), Hhp, insert_insert_eq |].
  split; [cbn; rewrite Hg, <- (core_gen _ _ HC); reflexivity |]. split; [cbn; lia |].
  split; [ | split; [exact (mine_core w w2 HC Hmi) | done]].
  cbn [s_file_fd s_offset s_end advance_offset set_reading].
  change (hstream (with_heap w2 _)) with (hstream w2).
  change (h_reqs (with_heap w2 _)) with (h_reqs w2).
  rewrite Hs2, (core_reqs _ _ HC). rewrite <- Hs. do 2 f_equal. lia.
Qed.

Lemma stream_fail_spec i w p s rest rc w' :
  hbounds w → started w → dispatched i (h_reqs w) rest → h_aio w = p_aio P → h_heap w = <[p := s]> (p_heap P) →
  mine w → p_base P <= p →
  stream_fail w p = (rc, w') → rc = -1 ∧ ended i w'.
Proof.
  intros Hb Hst Hd Ha Hh Hmi Hpp. unfold stream_fail, stream_free. cbn [h_heap h_set with_w].
  rewrite Hh, lookup_insert_eq. intros [= <- <-]. split; [done |].
  split; [done |]. split; [split_and!; try done; [by apply own_freed | apply Hmi..] |]. split; [done |].
  by exists rest.
Qed.

(** A stream that fails, possibly after a failed send. *)
Lemma stream_at_fail i w w2 p s x rc w' :
  stream_at i w p s → h_aio w = p_aio P → same_core w w2 → hbounds w2 → hstream w2 = hstream w ++ x →
  stream_fail w2 p = (rc, w') → post i rc w'.
Proof.
  intros (Hh & Hst & Hd & _ & _ & Hhp & _ & _ & _ & Hmi & Hpp) Ha HC Hb Hx HF.
  apply (stream_fail_spec i w2 p s (recv_buffer (h_conn w))) in HF as [-> ?]; [by right | done | | | | | | done].
  - eapply started_grow; [exact Hst | apply HC | exact Hx].
  - by rewrite (core_reqs _ _ HC).
  - by rewrite (core_aio _ _ HC).
  - by rewrite (core_heap _ _ HC).
  - by apply (mine_core w).
Qed.

Section Resume.
Context (i : list Z) (resume : hw → Z * hw) (N : nat).
Context (Hres : ∀ w, ready i w → (length (recv_buffer (h_conn w)) < N)%nat →
                     post i (resume w).1 (resume w).2).

Lemma stream_finish_spec w p s rc w' :
  stream_at i w p s → h_aio w = p_aio P → s_end s <= s_offset s → (length (recv_buffer (h_conn w)) < N)%nat →
  stream_finish resume w p = (rc, w') → post i rc w'.
Proof.
  intros (Hh & Hst & Hd & Hfs & Hin & Hhp & Hg & Hoff & Hs & Hmi & Hpp) Ha Hend HN.
  rewrite slice_nil, app_nil_r in Hs by lia.
  unfold stream_finish, stream_free. cbn [h_heap h_set with_w]. rewrite Hhp, !lookup_insert_eq.
  set (w1 := with_heap _ _).
  assert (Hidle : idle w1) by (split_and!; try done; [by apply own_freed | apply Hmi..]).
  destruct (s_keep_alive s).
  - intros H. specialize (Hres w1). rewrite H in Hres. apply Hres; [ | done].
    split; [exact Hh |]. split; [done |]. split; [exact Hs | exact Hd].
  - intros H. apply h_finish_close_spec in H as (HC & Hst' & Hb & Hrc); [ | apply out_ok_hbounds, Hh].
    assert (He : ended i w').
    { eapply (ended_core i w1 w' []); [done | done | exact Hd | done | done | by rewrite app_nil_r]. }
    destruct Hrc as [[-> Hf] | ->]; [left | right]; auto.
Qed.

Lemma want_bounds s : s_offset s < s_end s → 0 < want s <= s_end s - s_offset s.
Proof. intros H. unfold want, PORTICO_STREAM_CHUNK. split_if; zbool; lia. Qed.

Lemma stream_advance_loop_spec fuel : ∀ w p s rc w',
  stream_at i w p s → s_reading s = false → h_aio w = p_aio P →
  (Z.to_nat (s_end s - s_offset s) < fuel)%nat → (length (recv_buffer (h_conn w)) < N)%nat →
  stream_advance_loop E resume fuel w p = (rc, w') → post i rc w'.
Proof.
  induction fuel as [ | n IH]; intros w p s rc w' Hat Hnr Ha Hf HN; [lia |]. cbn [stream_advance_loop].
  pose proof Hat as (Hh & Hst & Hd & Hfs & Hin & Hhp & Hg & Hoff & Hs & Hmi & Hpp).
  rewrite Hhp, lookup_insert_eq.
  destruct (backlogged (out (h_conn w))) eqn:EB.
  { intros [= <- <-]. left. split; [done |]. left. right. right. exists p, s. by rewrite Hnr. }
  destruct (s_end s <=? s_offset s) eqn:EE; zbool; [by apply stream_finish_spec with (s := s) |].
  fold (want s). pose proof (want_bounds s EE) as Hw.
  assert (Hse : s = set_reading s false) by (destruct s; cbn in *; by subst).
  (* the inline read, from any state that differs only in the submit script *)
  assert (Hinline : ∀ w1, stream_at i w1 p s → h_aio w1 = p_aio P →
    recv_buffer (h_conn w1) = recv_buffer (h_conn w) →
    match e_pread E (s_file_fd s) (want s) (s_offset s) with
    | None | Some [] => stream_fail w1 p
    | Some data =>
        let '(rc, w2) := h_send w1 data in
        if negb (rc =? 0) then stream_fail w2 p
        else stream_advance_loop E resume n
               (with_heap w2 (<[p := advance_offset (set_reading s false) (zlen data)]> (h_heap w2))) p
    end = (rc, w') → post i rc w').
  { intros w1 Hat1 Ha1 Hrv. pose proof (proj1 Hat1) as Hh1.
    assert (Hfail : stream_fail w1 p = (rc, w') → post i rc w').
    { apply (stream_at_fail i w1 w1 p s []); try done; [by apply out_ok_hbounds, Hh1 | by rewrite app_nil_r]. }
    destruct (e_pread E _ _ _) as [[ | x d] | ] eqn:EP; [done | | done].
    apply (proj2 (proj2 (proj2 Henv))) in EP as [Hdd Hdl]; [ | lia | lia].
    set (dd := x :: d) in *. assert (0 < zlen dd) by (unfold dd; rewrite zlen_cons; pose proof (zlen_nonneg d); lia).
    destruct (h_send w1 dd) as [rc2 w2] eqn:ES.
    apply h_send_spec in ES as (HC2 & Hf2 & Hb2 & Hrc & H0 & [y Hx]); [ | apply Hh1].
    destruct (rc2 =? 0) eqn:E0; zbool; cbn [negb].
    - destruct (H0 E0) as [Hs2 Ho2]. apply IH with (s := advance_offset (set_reading s false) (zlen dd)).
      + by apply (stream_at_send i w1); try done; lia.
      + done.
      + cbn. by rewrite (core_aio _ _ HC2).
      + cbn. lia.
      + change (length (recv_buffer (h_conn w2)) < N)%nat. by rewrite (core_recv _ _ HC2), Hrv.
    - by apply (stream_at_fail i w1 w2 p s y). }
  destruct (e_aio E); [ | by apply Hinline].
  unfold portico_aio_pread. cbn [h_submit with_heap h_aio]. rewrite Ha.
  assert (Hpark : ∀ sc, post i 0 (with_aio (with_heap w (<[p := set_reading s true]> (h_heap w)))
                              (p_aio P ++ [AStream p (s_file_fd s) (want s) (s_offset s)]) sc)).
  { intros sc. left. split; [done |]. left. right. right. exists p, (set_reading s true). split; [ | done].
    eapply (stream_at_heap i w); try done. cbn. by rewrite Hhp, insert_insert_eq. }
  destruct (h_submit w) as [ | [ | ] t].
  - rewrite Hhp in Hpark. intros [= <- <-]. apply Hpark.
  - rewrite Hhp in Hpark. intros [= <- <-]. apply Hpark.
  - apply Hinline; [ | done | done].
    eapply (stream_at_heap i w _ p s s); try done. cbn. by rewrite !insert_insert_eq, <- Hse.
Qed.

Lemma stream_advance_spec w p s rc w' :
  stream_at i w p s → s_reading s = false → h_aio w = p_aio P → (length (recv_buffer (h_conn w)) < N)%nat →
  stream_advance E resume w p = (rc, w') → post i rc w'.
Proof.
  intros Hat Hnr Ha HN. unfold stream_advance. pose proof Hat as (_ & _ & _ & _ & _ & Hhp & _).
  rewrite Hhp, lookup_insert_eq, Hnr.
  apply (stream_advance_loop_spec _ w p s); try done. unfold stream_fuel. lia.
Qed.
(** The two allocations of a file response. *)
Definition alloc2 (w : hw) : bool * bool * hw :=
  let '(ok1, w1) := h_alloc w in
  let '(ok2, w2) := if ok1 then h_alloc w1 else (false, w1) in (ok1, ok2, w2).

Lemma alloc2_answering w L r n ok1 ok2 w2 :
  answering i w L r n → alloc2 w = (ok1, ok2, w2) →
  answering i w2 L r n ∧ recv_buffer (h_conn w2) = recv_buffer (h_conn w).
Proof.
  intros Ha. unfold alloc2. destruct (h_alloc w) as [b1 w1] eqn:E1.
  apply h_alloc_spec in E1 as (HC1 & Hst1 & Ho1 & Hf1 & _). pose proof (Ho1 (proj1 (proj1 Ha))) as Ho.
  assert (Ha1 : answering i w1 L r n) by (by apply (answering_core i w)).
  destruct b1; [ | intros [= <- <- <-]; split; [done | by rewrite (core_recv _ _ HC1)]].
  destruct (h_alloc w1) as [b2 w2'] eqn:E2. apply h_alloc_spec in E2 as (HC2 & Hst2 & Ho2 & Hf2 & _).
  intros [= <- <- <-]. split; [by apply (answering_core i w1); auto |].
  by rewrite (core_recv _ _ HC2), (core_recv _ _ HC1).
Qed.

Lemma answering_error w L r n st rc w' :
  answering i w L r n → http_error_close w st = (rc, w') → post i rc w'.
Proof.
  intros Ha. apply (error_close_post i w st rc w' (zdrop n (recv_buffer (h_conn w))));
    [apply Ha | apply Ha | by eapply answering_started | apply Ha].
Qed.

Lemma stream_start_spec w L r n res rc w' :
  answering i w L r n → handler L r (res_init (keep_alive r)) = (0, res) → is_file res = true →
  e_aio E = true → PORTICO_STREAM_CHUNK < file_size res → (length (recv_buffer (h_conn w)) <= N)%nat →
  stream_start E resume w res n = (rc, w') → post i rc w'.
Proof.
  intros Ha Hh Hfile Haio Hsz HN. unfold stream_start.
  destruct (proj1 (proj2 (proj2 Henv)) L r (keep_alive r)) as [Hrok Hrange]. rewrite Hh in Hrok, Hrange.
  cbn [snd] in Hrok, Hrange. specialize (Hrange Hfile). unfold res_ok in Hrok.
  assert (Hans : answer L r = stream_head res ++ slice (file_fd res) (file_offset res) (file_size res)).
  { unfold answer. rewrite Hh, Hfile, Haio. cbn. by rewrite (proj2 (Z.ltb_lt _ _)) by lia. }
  pose proof (alloc2_answering w L r n) as H2. unfold alloc2 in H2.
  destruct (h_alloc w) as [ok1 w1]. destruct (if ok1 then h_alloc w1 else (false, w1)) as [ok2 w2].
  destruct (H2 _ _ _ Ha eq_refl) as [Ha2 Hrv2]. clear H2.
  destruct (ok1 && ok2); cbn [negb]; [ | exact (answering_error (close_file w2 (file_fd res)) L r n 500 rc w' Ha2)].
  pose proof Ha2 as (Hh2 & (Hi1 & Hi2 & Hi3 & Hi4 & Hi5) & Hr2 & Hpre2 & Hs2 & Hd2 & Hn2).
  unfold new_stream. rewrite Hi4. set (s := mk_stream _ _ _ _ _ _). set (p := h_next w2).
  set (w3 := mk_hw _ _ _ _ _ _ _).
  assert (Hle : (PORTICO_RES_HEADERS_CAP + 256 <=? zlen (stream_head res)) = false).
  { apply Z.leb_gt. pose proof (proj2 (response_head_len (status res) (res_headers res) (file_size res)
      (res_keep_alive res))). unfold stream_head. lia. }
  rewrite Hle. set (w5 := h_set (consume_request w3 n) _).
  destruct (consume_spec w3 n Hn2) as (Hc1 & Hc2 & Hc3 & Hc4). specialize (Hc3 Hh2).
  destruct (h_send w5 (stream_head res)) as [rc6 w6] eqn:ES.
  apply h_send_spec in ES as (HC & Hf6 & Hb6 & Hrc6 & H0 & [x Hx]); [ | apply Hh2].
  assert (Hst6 : started w6).
  { exists x. rewrite Hx, (core_reqs _ _ HC). change (h_reqs w5) with (h_reqs w2).
    rewrite Hr2, removelast_last, <- Hs2. done. }
  assert (Hd6 : dispatched i (h_reqs w6) (recv_buffer (h_conn w6))).
  { rewrite (core_reqs _ _ HC), (core_recv _ _ HC). change (recv_buffer (h_conn w5)) with (recv_buffer (h_conn (consume_request w3 n))).
    rewrite Hc1. exact Hd2. }
  assert (Hheap6 : h_heap w6 = <[p := s]> (p_heap P)) by (by rewrite (core_heap _ _ HC)).
  assert (Haio6 : h_aio w6 = p_aio P) by (by rewrite (core_aio _ _ HC)).
  assert (Hmi6 : mine w6).
  { apply (mine_core w5); [done |]. destruct Hi5. split; [done |]. cbn. lia. }
  assert (Hpp : p_base P <= p) by apply Hi5.
  destruct (rc6 =? 0) eqn:E0; zbool; cbn [negb]; cycle 1.
  { intros HF. eapply (stream_fail_spec i w6 p s _ rc w') in HF as [-> He]; [by right | done | done | exact Hd6 | done..]. }
  destruct (H0 E0) as [Hs6 Ho6].
  assert (Hat : stream_at i w6 p s).
  { split; [apply (healthy_core w5); try done |]. split; [done |]. split; [done |].
    split; [by rewrite (core_stream _ _ HC) |]. split; [by rewrite (core_inflight _ _ HC) |].
    split; [done |]. split; [by rewrite (core_gen _ _ HC) |]. split; [cbn; lia |].
    rewrite Hs6, (core_reqs _ _ HC). change (h_reqs w5) with (h_reqs w2). change (hstream w5) with (hstream w2).
    split; [ | done]. rewrite Hr2, answers_snoc, Hans, Hs2, <- app_assoc by done. cbn [s s_file_fd s_offset s_end]. do 3 f_equal. lia. }
  destruct (stream_advance E resume w6 p) as [rc7 w7] eqn:EA.
  apply (stream_advance_spec w6 p s) in EA; [ | done | done | done |].
  2:{ rewrite (core_recv _ _ HC). change (recv_buffer (h_conn w5)) with (recv_buffer (h_conn (consume_request w3 n))).
      rewrite Hc1. change (recv_buffer (h_conn w3)) with (recv_buffer (h_conn w2)) in *. rewrite Hrv2 in *. lia. }
  destruct EA as [[-> Hpost] | [-> He]].
  - cbn. intros [= <- <-]. by left.
  - change (-1 <? 0) with true. cbv iota. intros HF. destruct He as (Hb7 & Hi7 & Hst7 & rest & Hd7).
    apply h_finish_close_spec in HF as (HC7 & Hst' & Hb' & Hrc); [ | done].
    assert (He : ended i w') by (eapply (ended_core i w7 w' []); eauto; by rewrite app_nil_r).
    destruct Hrc as [[-> Hf] | ->]; [left | right]; auto.
Qed.
(** The inline read, with the request consumed: the answer is queued, and the connection
    ends its service or goes on with the buffer. *)
Lemma inline_read_spec w4 L r ctx off f rc w' :
  healthy w4 → idle w4 → h_reqs w4 = L ++ [r] → p_reqs P `prefix_of` L → hstream w4 = answers (p_reqs P) L →
  dispatched i (h_reqs w4) (recv_buffer (h_conn w4)) → answer L r = file_answer ctx off →
  (let '(close_it, w5) := file_emit w4 ctx (e_pread E (c_file_fd ctx) (c_size ctx) off) in
   let w6 := close_file w5 f in
   if close_it then h_finish_close w6 else (1, w6)) = (rc, w') →
  post i rc w' ∨ rc = 1 ∧ ready i w' ∧ recv_buffer (h_conn w') = recv_buffer (h_conn w4).
Proof.
  intros Hh4 Hi Hreq4 Hpre Hst4 Hd4 Hans. destruct (file_emit w4 ctx _) as [b w5] eqn:EE.
  apply file_emit_spec in EE as (HC & Hb5 & Hf5 & [x Hx] & H0); [ | apply Hh4].
  destruct b.
  - intros H. left. apply h_finish_close_spec in H as (HC6 & Hst6 & Hb6 & Hrc); [ | exact Hb5].
    assert (He : ended i w').
    { apply (ended_core i w4 w' x (recv_buffer (h_conn w4))); [done | | done | | done | by rewrite Hst6].
      - exists []. by rewrite Hreq4, removelast_last, app_nil_r.
      - etransitivity; [exact HC |]. etransitivity; [ | exact HC6]. by constructor. }
    destruct Hrc as [[-> Hf] | ->]; [left | right]; auto.
  - intros [= <- <-]. right. destruct (H0 eq_refl) as [Hs5 Ho5]. split; [done |].
    assert (HC' : same_core w4 (close_file w5 f)) by (etransitivity; [exact HC | by constructor]).
    split; [split_and! | by rewrite (core_recv _ _ HC')].
    + apply (healthy_core w4); done.
    + by apply (idle_core w4).
    + change (hstream w5 = answers (p_reqs P) (h_reqs w5)). rewrite Hs5, Hst4, (core_reqs _ _ HC), Hreq4, answers_snoc by done.
      by rewrite Hans.
    + rewrite (core_reqs _ _ HC'), (core_recv _ _ HC'). done.
Qed.

Lemma serve_file_spec w L r n res rc w' :
  answering i w L r n → handler L r (res_init (keep_alive r)) = (0, res) → is_file res = true →
  (length (recv_buffer (h_conn w)) <= N)%nat →
  http_serve_file E resume w res n = (rc, w') →
  post i rc w' ∨ rc = 1 ∧ ready i w' ∧ (length (recv_buffer (h_conn w')) < length (recv_buffer (h_conn w)))%nat.
Proof.
  intros Ha Hh Hfile HN. unfold http_serve_file.
  destruct (e_aio E && (PORTICO_STREAM_CHUNK <? file_size res)) eqn:ESt.
  { apply andb_true_iff in ESt as [HA HS]. zbool. intros H. left. by eapply stream_start_spec. }
  destruct (PORTICO_SINGLE_MAX <? file_size res) eqn:EMax.
  { intros H. left. pose proof Ha as (Hh' & Hi & Hr & Hpre & Hs & Hd & Hn).
    apply (error_close_post i _ _ _ _ (zdrop n (recv_buffer (h_conn w)))) in H; try done; [apply Hh' |].
    by apply (answering_started i w L r n). }
  assert (Hans : ∀ g, answer L r = file_answer (mk_ctx g (file_fd res) (file_size res) (status res)
                             (res_keep_alive res) (res_headers res)) (file_offset res)).
  { intros g. unfold answer. by rewrite Hh, Hfile, ESt, EMax. }
  pose proof (alloc2_answering w L r n) as H2. unfold alloc2 in H2.
  destruct (h_alloc w) as [ok1 w1]. destruct (if ok1 then h_alloc w1 else (false, w1)) as [ok2 w2].
  destruct (H2 _ _ _ Ha eq_refl) as [Ha2 Hrv2]. clear H2.
  destruct (ok1 && ok2); cbn [negb]; cycle 1.
  { intros H. left. exact (answering_error (close_file w2 (file_fd res)) L r n 500 rc w' Ha2 H). }
  pose proof Ha2 as (Hh2 & (Hi1 & Hi2 & Hi3 & Hi4 & Hi5) & Hr2 & Hpre2 & Hs2 & Hd2 & Hn2).
  set (ctx := mk_ctx _ _ _ _ _ _). specialize (Hans (generation (h_conn w2))). fold ctx in Hans.
  set (w3 := consume_request w2 n). destruct (consume_spec w2 n Hn2) as (Hc1 & Hc2 & Hc3 & Hc4).
  fold w3 in Hc1, Hc2, Hc3, Hc4. specialize (Hc3 Hh2). rewrite <- Hc1 in Hc2.
  destruct (proj1 (proj2 (proj2 Henv)) L r (keep_alive r)) as [Hrok _]. rewrite Hh in Hrok. cbn [snd] in Hrok.
  (* the inline read, from any state with the request consumed *)
  assert (Hinline : ∀ w4, h_w w4 = h_w w3 → h_reqs w4 = h_reqs w3 → idle w4 →
    (let '(close_it, w5) := file_emit w4 ctx (e_pread E (file_fd res) (file_size res) (file_offset res)) in
     let w6 := close_file w5 (file_fd res) in
     if close_it then h_finish_close w6 else (1, w6)) = (rc, w') →
    post i rc w' ∨ rc = 1 ∧ ready i w' ∧ (length (recv_buffer (h_conn w')) < length (recv_buffer (h_conn w)))%nat).
  { intros w4 Hw4 Hr4 Hi HE. assert (Hh4 : healthy w4).
    { unfold healthy, hout_ok, flag, h_conn, h_sys in *. by rewrite Hw4. }
    assert (Hrv4 : recv_buffer (h_conn w4) = recv_buffer (h_conn w3)) by (unfold h_conn; by rewrite Hw4).
    destruct (inline_read_spec w4 L r ctx (file_offset res) (file_fd res) rc w' Hh4 Hi) as [H | (-> & Hr & Hrv)];
      [rewrite Hr4; exact Hr2 | done | unfold hstream, h_conn, h_sys; rewrite Hw4; exact Hs2 |
       rewrite Hrv4, Hc1, Hr4; exact Hd2 | done | exact HE | by left |].
    right. split; [done |]. split; [done |]. rewrite Hrv, Hrv4. rewrite Hrv2 in Hc2. lia. }
  destruct (e_aio E); [ | by apply Hinline].
  unfold portico_aio_pread. change (h_aio (h_set w3 _)) with (h_aio w2). change (h_submit (h_set w3 _)) with (h_submit w2).
  rewrite Hi3.
  assert (Hpark : ∀ sc, post i 0 (with_aio (h_set w3 (λ c, set_inflight c true)) (p_aio P ++ [AFile ctx (file_offset res)]) sc)).
  { intros sc. left. split; [done |]. left. right. left. split; [exact Hc3 |].
    split; [exists []; rewrite app_nil_r; cbn [h_reqs with_aio h_set with_w w3 consume_request];
            rewrite Hr2, removelast_last; exact Hs2 |].
    split; [change (dispatched i (h_reqs w2) (recv_buffer (h_conn w3))); rewrite Hc1; exact Hd2 |].
    split; [done |]. split; [done |]. split; [done |]. split; [done |]. exists ctx, (file_offset res). split_and!; try done.
    change (hstream w2 ++ file_answer ctx (file_offset res) = answers (p_reqs P) (h_reqs w2)).
    by rewrite Hr2, answers_snoc, Hs2, Hans. }
  destruct (h_submit w2) as [ | [ | ] t].
  - intros [= <- <-]. left. apply Hpark.
  - intros [= <- <-]. left. apply Hpark.
  - apply Hinline; [ | done | by split_and!].
    unfold w3, consume_request, h_set, with_aio, with_w, with_conn, h_conn. cbn.
    unfold h_conn in Hi2. f_equal. destruct (w_conn (h_w w2)). cbn in *. by rewrite Hi2.
Qed.
End Resume.

(** ** The request loop *)

Lemma resolve_client_ip_shape c r : ∃ ip, resolve_client_ip E c r = set_client_ip r ip.
Proof.
  unfold resolve_client_ip. repeat match goal with |- context [if ?b then _ else _] => destruct b end;
    repeat case_match; eauto.
Qed.

(** A complete request at the head of the buffer is the next dispatched one. *)
Lemma ready_answering i w n r0 :
  ready i w → portico_http_parse (e_phr E) (recv_buffer (h_conn w)) = (n, Some r0) →
  let r := resolve_client_ip E (h_conn w) r0 in
  answering i (log_req w r) (h_reqs w) r n.
Proof.
  intros (Hh & Hi & Hs & wires & own & Hin & Hall & Hown) HPr r. destruct Henv as (Hphr & _).
  pose proof (proj1 (proj2 Hh)) as (Hcap0 & Hcap1 & Hcap2).
  assert (Hlen : zlen (recv_buffer (h_conn w)) < 2 ^ 31).
  { unfold recv_buffer_used, recv_hard_max, PORTICO_MAX_HEADER_SIZE, PORTICO_MAX_BODY in *. lia. }
  pose proof (http_parse_ok _ Hphr _ _ _ Hlen HPr) as (h & _ & Hn1 & Hn2 & _).
  pose proof (http_parse_local _ Hphr (recv_buffer (h_conn w)) n r0 [] Hlen ltac:(rewrite zlen_nil; lia) HPr) as HL.
  rewrite app_nil_r in HL.
  split; [done |]. split; [done |]. split; [done |]. split; [by exists own |].
  split; [exact Hs |]. split; [ | change (0 < n <= zlen (recv_buffer (h_conn w))); lia].
  exists (wires ++ [ztake n (recv_buffer (h_conn w))]), (own ++ [r]). split; [ | split].
  - rewrite concat_app. cbn [concat]. rewrite app_nil_r, <- app_assoc.
    change (recv_buffer (h_conn (log_req w r))) with (recv_buffer (h_conn w)). by rewrite ztake_zdrop.
  - apply Forall2_app; [done |]. constructor; [ | constructor].
    destruct (resolve_client_ip_shape (h_conn w) r0) as [ip Hip]. exists r0, ip. split; [ | exact Hip].
    rewrite zlen_ztake by lia. exact HL.
  - cbn [h_reqs log_req]. by rewrite Hown, app_assoc.
Qed.

Lemma parse_positive i w n r0 :
  ready i w → portico_http_parse (e_phr E) (recv_buffer (h_conn w)) = (n, Some r0) → 0 < n.
Proof. intros Hr HPr. apply (ready_answering _ _ _ _ Hr HPr). Qed.

Lemma process_loop_spec i fuel : ∀ w,
  ready i w → (length (recv_buffer (h_conn w)) < fuel)%nat →
  post i (process_loop E fuel w).1 (process_loop E fuel w).2.
Proof.
  induction fuel as [ | n IH]; intros w Hr Hf; [lia |]. cbn [process_loop].
  pose proof Hr as (Hh & Hi & Hs & Hd). pose proof (ready_started _ _ Hr) as Hst.
  assert (Hlive : post i 0 w) by (left; split; [done | left; by left]).
  assert (Herr : ∀ st, post i (http_error_close w st).1 (http_error_close w st).2).
  { intros st. destruct (http_error_close w st) as [rc w'] eqn:EC. cbn.
    by eapply (error_close_post i w st rc w' _ (proj1 Hh) Hi Hst Hd). }
  destruct (recv_buffer_used (h_conn w) =? 0); [done |].
  destruct (portico_http_parse (e_phr E) (recv_buffer (h_conn w))) as [total oreq] eqn:EP.
  destruct (total =? 0); [cbv zeta; by destruct (_ && _) |].
  destruct (total =? -1); [done |]. destruct (total =? -2); [done |]. destruct (total =? -3); [done |].
  destruct oreq as [r0 | ].
  2:{ cbn. right. split; [done |]. split; [apply out_ok_hbounds, Hh |]. eauto. }
  pose proof (ready_answering i w total r0 Hr EP) as Ha. cbv zeta in Ha.
  set (r := resolve_client_ip E (h_conn w) r0) in *.
  destruct Henv as (_ & Hon & Hhok & _). rewrite Hon.
  destruct (handler (h_reqs w) r (res_init (keep_alive r))) as [hrc res] eqn:EH.
  assert (Hresok : res_ok res) by (generalize (proj1 (Hhok (h_reqs w) r (keep_alive r))); by rewrite EH).
  assert (Hgo : ∀ w1 res', answering i w1 (h_reqs w) r total →
    recv_buffer (h_conn w1) = recv_buffer (h_conn w) →
    portico_http_build_response true res' = Some (answer (h_reqs w) r) →
    let p := match respond w1 res' total with
             | (None, w2) => (-1, w2)
             | (Some w2, _) => if negb (keep_alive r) then h_finish_close w2 else process_loop E n w2
             end in post i p.1 p.2).
  { intros w1 res' Ha1 Hrv HB. destruct (respond w1 res' total) as [o w2] eqn:ER.
    apply (respond_spec i w1 (h_reqs w) r total) in ER; [ | done | done].
    destruct o as [w2' | ]; [ | by right]. destruct ER as (-> & Hr2 & Hlt).
    destruct (keep_alive r); cbn [negb]; [apply IH; [done | rewrite Hrv in Hlt; lia] |].
    destruct (h_finish_close w2) as [rc w3] eqn:EF. cbn.
    apply h_finish_close_spec in EF as (HC & Hst3 & Hb3 & Hrc); [ | apply out_ok_hbounds, Hr2].
    assert (He : ended i w3).
    { eapply (ended_core i w2 w3 []); [apply Hr2 | by eapply ready_started | apply Hr2 | done | done |
        by rewrite app_nil_r]. }
    destruct Hrc as [[-> Hfl] | ->]; [left | right]; auto. }
  assert (Hans := eq_refl (answer (h_reqs w) r)). unfold answer in Hans at 2. rewrite EH in Hans.
  assert (Hser : ∀ res', res_ok res' → portico_http_build_response true res' = Some (serialized res')).
  { intros res' H. unfold serialized. by rewrite build_response_total. }
  destruct (hrc =? 0) eqn:E0; cbn [negb] in *; cycle 1.
  - unfold failed_response. destruct (is_file res); apply Hgo; try done; rewrite Hans; by apply Hser.
  - apply Z.eqb_eq in E0 as ->.
    destruct (is_file res) eqn:EF; [ | apply Hgo; try done; rewrite Hans; by apply Hser].
    destruct (http_serve_file E (process_loop E n) (log_req w r) res total) as [fr w2] eqn:ES.
    eapply (serve_file_spec i (process_loop E n) n) in ES as [Hp | (-> & Hr2 & Hlt)]; try done.
    + destruct Hp as [[-> Hp] | [-> Hp]]; cbn; [left | right]; done.
    + cbn. apply IH; [done |]. change (recv_buffer (h_conn (log_req w r))) with (recv_buffer (h_conn w)) in Hlt. lia.
    + change (recv_buffer (h_conn (log_req w r))) with (recv_buffer (h_conn w)). lia.
Qed.

Lemma process_http_buffer_spec i w :
  ready i w → post i (process_http_buffer E w).1 (process_http_buffer E w).2.
Proof. intros H. apply process_loop_spec; [done | lia]. Qed.

(** ** Events *)

(** The bytes a read event appends to the receive buffer (none once the connection is
    only draining its last response). *)
Definition appended (w : hw) (b : list Z) : Prop :=
  if flag w then b = []
  else recv_buffer (w_conn (read_into_recv (e_now E) (h_w w)).2) = recv_buffer (h_conn w) ++ b.

(** Between events the world may change what the socket, the allocator, [epoll_ctl] and
    the asynchronous backend will do next. *)
Definition rescript (w : hw) (rx' : list rx_ev) (txs' : list tx_ev) (ctl' mem' sub' : list bool) : hw :=
  mk_hw (mk_cw (h_conn w) (mk_sys rx' txs' (tx (h_sys w)) (epollout (h_sys w)) ctl' mem') (w_ev (h_w w)))
    (h_heap w) (h_next w) (h_aio w) sub' (h_closed w) (h_reqs w).

Lemma live_flag i w : live i w → flag w = false.
Proof. intros [(H & _) | [(H & _) | (p & s & (H & _) & _)]]; apply H. Qed.

(** Reading more input, whatever is under way. *)
Lemma live_read i w b w1 :
  live i w → h_w w1 = (read_into_recv (e_now E) (h_w w)).2 →
  h_heap w1 = h_heap w → h_aio w1 = h_aio w → h_reqs w1 = h_reqs w → h_next w1 = h_next w →
  recv_buffer (h_conn w1) = recv_buffer (h_conn w) ++ b →
  live (i ++ b) w1 ∧ http_async_inflight (h_conn w1) = http_async_inflight (h_conn w).
Proof.
  intros Hl Hw Hhp Ha Hr Hnx Hb. destruct (read_into_recv (e_now E) (h_w w)) as [rc v] eqn:ER. cbn in Hw.
  assert (Hh : healthy w) by (by destruct Hl as [(H & _) | [(H & _) | (p & s & (H & _) & _)]]).
  apply read_into_loop_spec in ER as ((Hev & Htx & Htxs & Hep & bb & cap & t & pp & HC) & Hok & _); [ | apply Hh | lia].
  assert (HC1 : h_conn w1 = set_activity (set_recv (h_conn w) bb cap) t pp) by (unfold h_conn at 1; by rewrite Hw).
  assert (Hst : hstream w1 = hstream w).
  { unfold hstream, stream, h_sys. rewrite HC1, Hw, Htx. done. }
  assert (Hd : ∀ reqs, dispatched i reqs (recv_buffer (h_conn w)) → dispatched (i ++ b) reqs (recv_buffer (h_conn w1))).
  { intros reqs (wires & own & -> & HF & Hown). exists wires, own. by rewrite Hb, app_assoc. }
  assert (Hmi : mine w → mine w1) by (unfold mine; by rewrite HC1, Hnx).
  assert (Hh1 : healthy w1).
  { destruct Hh as (Ho & _ & Hs & Hf & Hfl). unfold healthy, hout_ok, out_ok, flag, h_sys in *.
    split; [rewrite HC1, Hw, Hep; exact Ho |].
    split; [unfold h_conn; rewrite Hw; exact Hok |]. by rewrite HC1. }
  split; [ | by rewrite HC1].
  assert (Hstd : started w → started w1) by (intros H; by apply (started_same w)).
  destruct Hl as [(_ & (I1 & I2 & I3 & I4 & I5) & Hs & Hdd)
      | [(_ & Hs0 & Hdd & H1 & H2 & H3 & H3' & ctx & off & H4 & H5 & H6 & H7)
      | (p & s & (_ & Hs0 & Hdd & H1 & H2 & H3 & H4 & H5 & H6 & H6' & H6'') & H7)]].
  - left. split; [done |]. split; [split; [by rewrite HC1 |]; split; [by rewrite HC1 |]; split; [congruence |]; split; [congruence | by apply Hmi] |].
    split; [by rewrite Hst, Hr | rewrite Hr; by apply Hd].
  - right. left. split; [done |]. split; [auto |]. split; [rewrite Hr; by apply Hd |].
    split; [by rewrite HC1 |]. split; [by rewrite HC1 |]. split; [congruence |]. split; [by apply Hmi |].
    exists ctx, off. split; [congruence |]. split; [by rewrite HC1 |]. split; [done |]. by rewrite Hst, Hr.
  - right. right. exists p, s. split; [ | by rewrite Ha, HC1].
    split; [done |]. split; [auto |]. split; [rewrite Hr; by apply Hd |].
    split; [by rewrite HC1 |]. split; [by rewrite HC1 |]. split; [congruence |].
    split; [by rewrite HC1 |]. split; [done |]. split; [by rewrite Hst, Hr |]. split; [by apply Hmi | done].
Qed.

Lemma live_idle_ready i w : live i w → http_async_inflight (h_conn w) = false → ready i w.
Proof.
  intros [H | [(_ & _ & _ & _ & H & _) | (p & s & (_ & _ & _ & _ & H & _) & _)]]; [done | congruence..].
Qed.

Lemma post_open i rc w : post i rc w → (rc <? 0) = false → post i 0 w.
Proof. by intros [[-> H] | [-> H]]; [left |]. Qed.

Lemma http_event_spec i w b rc w' :
  live i w → appended w b → portico_http_event E w = (rc, w') → (rc <? 0) = false → post (i ++ b) 0 w'.
Proof.
  intros Hl. unfold appended, portico_http_event. pose proof (live_flag _ _ Hl) as Hf. rewrite Hf.
  unfold flag in Hf. rewrite Hf. intros Hb.
  pose proof (live_read i w b (with_w w (read_into_recv (e_now E) (h_w w)).2) Hl eq_refl eq_refl eq_refl eq_refl eq_refl Hb)
    as [Hl1 Hin].
  destruct (read_into_recv (e_now E) (h_w w)) as [rc0 v]. cbn [snd] in *.
  destruct (rc0 <? 0); [by intros [= <- <-] |]. rewrite Hin.
  destruct (http_async_inflight (h_conn w)) eqn:EI; [intros [= <- <-] _; left; auto |].
  intros H. pose proof (process_http_buffer_spec (i ++ b) (with_w w v) (live_idle_ready _ _ Hl1 Hin)) as Hp.
  rewrite H in Hp. by apply post_open.
Qed.

Lemma on_writable_core i w rc w' :
  live i w ∨ ended i w ∧ flag w = true →
  portico_conn_on_writable E w = (rc, w') → (rc <? 0) = false → post i 0 w'.
Proof.
  intros Hl. unfold portico_conn_on_writable.
  destruct (on_writable_drain (out (h_conn w)) (h_sys w)) as [[r q] s] eqn:EW.
  assert (Ho : hbounds w).
  { destruct Hl as [[(H & _) | [(H & _) | (p & s0 & (H & _) & _)]] | [(H & _) _]]; try apply out_ok_hbounds, H.
    apply H. }
  pose proof (on_writable_bounds _ _ _ _ _ Ho EW) as (Hb & Hst & Hrx & Hfl & Hr).
  set (w1 := with_w w _). assert (HC : same_core w w1) by (by constructor).
  assert (Hst1 : hstream w1 = hstream w) by exact Hst.
  assert (Hf1 : flag w1 = flag w) by exact Hfl.
  (* draining keeps every case of the invariant that does not wait for the socket *)
  assert (Hready : ready i w → hout_ok w1 → ready i w1).
  { intros (A & B & C & D) Ho1. split; [by apply (healthy_core w) |]. split; [by apply (idle_core w) |].
    split; [by rewrite Hst1 |]. exact D. }
  assert (Hparked : parked i w → hout_ok w1 → parked i w1).
  { intros (A & B & C & D) Ho1. split; [by apply (healthy_core w) |]. split; [by apply (started_same w) |].
    split; [exact C |]. rewrite Hst1. exact D. }
  assert (Hat : ∀ p s0, stream_at i w p s0 → hout_ok w1 → stream_at i w1 p s0).
  { intros p s0 (A & B & C & D) Ho1. split; [by apply (healthy_core w) |]. split; [by apply (started_same w) |].
    split; [exact C |]. rewrite Hst1. exact D. }
  assert (Hended : ended i w → ended i w1).
  { intros (A & B & C & rest & D). eapply (ended_core i w w1 []); eauto. by rewrite app_nil_r. }
  destruct r as [rc0 | ].
  - intros [= <- <-]. destruct Hr as [(-> & Hbl & Ho1) | [-> _]]; [intros _ | done].
    destruct Hl as [[Hl | [Hl | (p & s0 & Hl & Hsh)]] | [Hl Hf]]; left; (split; [done |]).
    + left. left. exact (Hready Hl (Ho1 (proj1 (proj1 Hl)))).
    + left. right. left. exact (Hparked Hl (Ho1 (proj1 (proj1 Hl)))).
    + left. right. right. exists p, s0. split; [exact (Hat p s0 Hl (Ho1 (proj1 (proj1 Hl)))) |]. destruct (s_reading s0); [exact Hsh |].
      split; [apply Hsh | exact Hbl].
    + right. split; [auto | congruence].
  - destruct Hr as (Hnb & _ & Ho1).
    destruct Hl as [[Hl | [Hl | (p & s0 & Hl & Hsh)]] | [Hl Hf]].
    + rewrite (core_stream _ _ HC), (proj1 (proj1 (proj2 Hl))).
      fold (flag w1). rewrite Hf1, (proj2 (proj2 (proj2 (proj2 (proj1 Hl))))). intros [= <- <-] _.
      left. split; [done |]. left. left. auto.
    + assert (file_stream (h_conn w) = None) as Hn by apply Hl. rewrite (core_stream _ _ HC), Hn.
      fold (flag w1). rewrite Hf1, (proj2 (proj2 (proj2 (proj2 (proj1 Hl))))). intros [= <- <-] _.
      left. split; [done |]. left. right. left. auto.
    + assert (file_stream (h_conn w) = Some p) as Hp by apply Hl. rewrite (core_stream _ _ HC), Hp.
      destruct (s_reading s0) eqn:ERd.
      * unfold stream_advance. assert (h_heap w1 = <[p := s0]> (p_heap P)) as -> by apply Hl.
        rewrite lookup_insert_eq, ERd. intros [= <- <-] _. left. split; [done |]. left. right. right.
        exists p, s0. rewrite ERd. split; [auto | exact Hsh].
      * intros H Hrc. eapply post_open; [| exact Hrc]. eapply (stream_advance_spec i (process_http_buffer E) (S (length (recv_buffer (h_conn w1))))
                    _ w1 p s0); try done; [auto | apply Hsh | lia].
    + assert (file_stream (h_conn w) = None) as Hn by apply Hl. rewrite (core_stream _ _ HC), Hn.
      fold (flag w1). rewrite Hf1, Hf. by intros [= <- <-].
  Unshelve. intros w2 Hr2 _. by apply process_http_buffer_spec.
Qed.

(** ** Completions *)

Lemma completion_close_spec i w w' :
  ended i w → completion_close w = (false, w') → ended i w' ∧ flag w' = true.
Proof.
  intros (Hb & Hi & Hs & Hd). unfold completion_close. destruct (backlogged _); [ | done].
  intros [= <-]. split; [ | done]. split; [exact Hb |]. split; [exact Hi |]. split; [exact Hs | exact Hd].
Qed.

(** The tail of both completions: a failed step is closed or deferred. *)
Lemma completion_post i rc w2 w' :
  post i rc w2 → (if rc <? 0 then completion_close w2 else (false, w2)) = (false, w') → post i 0 w'.
Proof.
  intros [[-> Hp] | [-> He]].
  - cbn. intros [= <-]. by left.
  - change (-1 <? 0) with true. cbv iota. intros H. left. split; [done |]. right.
    by apply (completion_close_spec i w2).
Qed.

Lemma file_complete_spec i w ctx off w' :
  healthy w → started w → dispatched i (h_reqs w) (recv_buffer (h_conn w)) → mine w →
  file_stream (h_conn w) = None → h_heap w = p_heap P → h_aio w = p_aio P →
  c_generation ctx = generation (h_conn w) → hstream w ++ file_answer ctx off = answers (p_reqs P) (h_reqs w) →
  file_read_complete E w ctx (e_pread E (c_file_fd ctx) (c_size ctx) off) = (false, w') → post i 0 w'.
Proof.
  intros Hh Hst Hd Hmi Hfs Hhp Ha Hg Hs. unfold file_read_complete.
  pose proof Hh as (Ho & Hrv & Hstate & Hfd & Hfl).
  rewrite Hg, Z.eqb_refl, (proj2 (Z.leb_le 0 _) Hfd), (proj2 (Z.eqb_eq _ _) Hstate). cbn [andb].
  set (w1 := h_set w _). assert (Hi1 : idle w1) by (by split_and!).
  destruct (file_emit w1 ctx _) as [b w2] eqn:EE.
  apply file_emit_spec in EE as (HC & Hb2 & Hf2 & [x Hx] & H0); [ | exact Ho].
  destruct b.
  - destruct (completion_close w2) as [b' w3] eqn:ECl. intros [= -> <-]. left. split; [done |]. right.
    change (ended i w3 ∧ flag w3 = true). apply (completion_close_spec i w2); [ | done].
    apply (ended_core i w1 w2 x (recv_buffer (h_conn w))); try done.
  - destruct (H0 eq_refl) as [Hs2 Ho2].
    assert (Hr2 : ready i w2).
    { split; [by apply (healthy_core w1) |]. split; [by apply (idle_core w1) |].
      split; [by rewrite Hs2, (core_reqs _ _ HC) |]. by rewrite (core_reqs _ _ HC), (core_recv _ _ HC). }
    pose proof (process_http_buffer_spec i w2 Hr2) as Hp.
    destruct (process_http_buffer E w2) as [rc w3]. cbn [fst snd] in Hp.
    destruct (if rc <? 0 then completion_close w3 else (false, w3)) as [b' w4] eqn:ECl.
    intros [= -> <-]. exact (completion_post i rc w3 w4 Hp ECl).
Qed.

Lemma chunk_complete_spec i w p s w' :
  stream_at i w p s → h_aio w = p_aio P → s_offset s < s_end s →
  stream_chunk_complete E w p (e_pread E (s_file_fd s) (want s) (s_offset s)) = (false, w') → post i 0 w'.
Proof.
  intros Hat Ha Hlt. unfold stream_chunk_complete.
  pose proof Hat as (Hh & Hst & Hd & Hfs & Hin & Hhp & Hg & Hoff & Hs & Hmi & Hpp).
  rewrite Hhp, lookup_insert_eq, Hg, Z.eqb_refl, (proj2 (Z.eqb_eq _ _) (proj1 (proj2 (proj2 Hh)))).
  rewrite bool_decide_true by done. cbn [andb negb].
  set (s0 := set_reading s false). set (w1 := h_set _ _).
  assert (Hat1 : stream_at i w1 p s0).
  { assert (stream_at i (with_heap w (<[p := s0]> (p_heap P))) p s0) as H by (by eapply (stream_at_heap i w)).
    destruct H as (A & B & C & D & E1 & F & G). split; [exact A |]. split; [exact B |]. split; [exact C |].
    split; [exact D |]. split; [exact E1 |].
    split; [apply insert_insert_eq | exact G]. }
  assert (Ha1 : h_aio w1 = p_aio P) by done. pose proof (want_bounds s Hlt) as Hw.
  pose proof (proj1 Hat1) as Hh1.
  match goal with |- (let '(_, _) := ?t in _) = _ → _ => destruct t as [rc w2] eqn:ET end.
  apply completion_post. revert ET.
  assert (Hfail : stream_fail w1 p = (rc, w2) → post i rc w2).
  { apply (stream_at_fail i w1 w1 p s0 []); try done; [by apply out_ok_hbounds, Hh1 | by rewrite app_nil_r]. }
  destruct (e_pread E _ _ _) as [[ | y d] | ] eqn:EP; [done | | done].
  apply (proj2 (proj2 (proj2 Henv))) in EP as [Hdd Hdl]; [ | lia | lia].
  set (dd := y :: d) in *.
  destruct (h_send w1 dd) as [rc2 w3] eqn:ES.
  apply h_send_spec in ES as (HC & Hf3 & Hb3 & Hrc & H0 & [x Hx]); [ | apply Hh1].
  destruct (rc2 =? 0) eqn:E0; zbool; cbn [negb]; cycle 1.
  { by apply (stream_at_fail i w1 w3 p s0 x). }
  destruct (H0 E0) as [Hs3 Ho3].
  assert (Hat3 : stream_at i (with_heap w3 (<[p := advance_offset s0 (zlen dd)]> (h_heap w3))) p (advance_offset s0 (zlen dd))).
  { apply (stream_at_send i w1 w3 p s0 dd); try done. cbn. lia. }
  assert (Ha3 : h_aio (with_heap w3 (<[p := advance_offset s0 (zlen dd)]> (h_heap w3))) = p_aio P)
    by (cbn; by rewrite (core_aio _ _ HC)).
  set (w4 := with_heap w3 _) in *.
  destruct (_ <=? _) eqn:EE; zbool; intros HF.
  - eapply (stream_finish_spec i (process_http_buffer E) (S (length (recv_buffer (h_conn w4)))));
      [intros w5 Hr5 _; by apply process_http_buffer_spec | exact Hat3 | done | done | lia | done].
  - eapply (stream_advance_spec i (process_http_buffer E) (S (length (recv_buffer (h_conn w4)))));
      [intros w5 Hr5 _; by apply process_http_buffer_spec | exact Hat3 | done | done | lia | done].
Qed.

(** The completion of a read of the connection. *)
Lemma own_complete_spec i w k w' :
  live i w ∨ ended i w ∧ flag w = true → (length (p_aio P) <= k)%nat →
  aio_complete E w k = (false, w') → post i 0 w'.
Proof.
  intros Hl Hk. unfold aio_complete.
  assert (Hsame : h_aio w = p_aio P → h_aio w !! k = None) by (intros ->; by apply lookup_ge_None).
  assert (Hkeep : post i 0 w) by (left; split; [done | tauto]).
  assert (Hone : ∀ op, (p_aio P ++ [op]) !! k = if (k =? length (p_aio P))%nat then Some op else None).
  { intros op. rewrite lookup_app_r by done. destruct (Nat.eqb_spec k (length (p_aio P))) as [-> | Hne].
    - by rewrite Nat.sub_diag.
    - apply lookup_ge_None. cbn. lia. }
  assert (Hdel : ∀ op, delete (length (p_aio P)) (p_aio P ++ [op]) = p_aio P).
  { intros op. by rewrite delete_middle, app_nil_r. }
  destruct Hl as [[Hl | [Hl | (p & s & Hl & Hsh)]] | [Hl Hf]].
  - rewrite Hsame by apply Hl. by intros [= <-].
  - destruct Hl as (Hh & Hst & Hd & Hfs & Hin & Hhp & Hmi & ctx & off & Ha & Hg & Hok & Hs).
    rewrite Ha, Hone. destruct (Nat.eqb_spec k (length (p_aio P))) as [-> | ]; [ | by intros [= <-]].
    rewrite Hdel. by apply (file_complete_spec i (with_aio w (p_aio P) (h_submit w)) ctx off).
  - destruct (s_reading s) eqn:ER; [ | rewrite Hsame by apply Hsh; by intros [= <-]].
    destruct Hsh as [Hlt Ha]. rewrite Ha, Hone.
    destruct (Nat.eqb_spec k (length (p_aio P))) as [-> | ]; [ | by intros [= <-]].
    rewrite Hdel. by apply (chunk_complete_spec i (with_aio w (p_aio P) (h_submit w)) p s).
  - rewrite Hsame by apply Hl. by intros [= <-].
Qed.

Lemma ended_flag_generation i w : live i w ∨ ended i w ∧ flag w = true → generation (h_conn w) = p_gen P.
Proof.
  intros [[Hl | [Hl | (p & s & Hl & _)]] | [Hl _]]; apply Hl.
Qed.

(** ** What the client sees *)

(** The read is one of the connection's own. *)
Definition own_op (w : hw) (op : aio_op) : Prop :=
  match op with
  | AFile ctx _ => c_generation ctx = generation (h_conn w)
  | AStream p _ _ _ => file_stream (h_conn w) = Some p
  end.

(** The connection in slot [w], in use after the requests [FR], has been sent [i]: the
    requests given to the application are the leading ones of [i], in order and each
    once; all but the last are answered in full and in order before anything else is
    queued; while it stays in service the output is a prefix of the answers, complete if
    no file response is under way, and one that is under way waits for a read in flight
    or for a socket with EPOLLOUT armed. *)
Definition served (FR : list request) (i : list Z) (w : hw) : Prop :=
  ∃ own wires rest,
    h_reqs w = FR ++ own ∧ i = concat wires ++ rest ∧ Forall2 is_request wires own ∧
    (∃ x, hstream w = answers_from FR (removelast own) ++ x) ∧
    (flag w = false →
       rest = recv_buffer (h_conn w) ∧
       (∃ y, hstream w ++ y = answers_from FR own) ∧
       (http_async_inflight (h_conn w) = false → hstream w = answers_from FR own) ∧
       (http_async_inflight (h_conn w) = true →
          (∃ old op, h_aio w = old ++ [op] ∧ own_op w op) ∨
          backlogged (out (h_conn w)) = true ∧ epollout (h_sys w) = true)).

Lemma started_own w own :
  started w → h_reqs w = p_reqs P ++ own → ∃ x, hstream w = answers_from (p_reqs P) (removelast own) ++ x.
Proof.
  intros [x Hx] Hr. rewrite Hr in Hx. destruct own as [ | r t]; [by exists (hstream w) |].
  rewrite removelast_app in Hx by done. rewrite answers_own in Hx. by exists x.
Qed.

Lemma invariant_served i w : live i w ∨ ended i w ∧ flag w = true → served (p_reqs P) i w.
Proof.
  intros [[Hl | [(Hh & Hst & (wires & own & Hin & Hall & Hown) & H1 & H2 & H3 & H3' & ctx & off & H4 & H5 & H6 & H7)
                 | (p & s & (Hh & Hst & (wires & own & Hin & Hall & Hown) & H1 & H2 & H3 & H4 & H5 & H6 & _) & H7)]]
         | [(_ & _ & Hst & rest & wires & own & Hin & Hall & Hown) Hf]].
  - pose proof (ready_started _ _ Hl) as Hst. destruct Hl as (Hh & (I1 & I2 & I3 & I4 & _) & Hs & wires & own & Hin & Hall & Hown).
    rewrite Hown, answers_own in Hs.
    exists own, wires, (recv_buffer (h_conn w)). split_and!; [done.. | by apply started_own |]. intros _.
    split; [done |]. split; [exists []; by rewrite app_nil_r |]. split; [done | congruence].
  - rewrite Hown, answers_own in H7. exists own, wires, (recv_buffer (h_conn w)).
    split_and!; [done.. | by apply started_own |]. intros _.
    split; [done |]. split; [eauto |]. split; [congruence |]. left. by exists (p_aio P), (AFile ctx off).
  - rewrite Hown, answers_own in H6. exists own, wires, (recv_buffer (h_conn w)).
    split_and!; [done.. | by apply started_own |]. intros _.
    split; [done |]. split; [eauto |]. split; [congruence |]. intros _.
    destruct (s_reading s); [left; destruct H7; by eexists _, _ |]. right. destruct H7 as [_ Hb]. split; [done |].
    by apply Hh.
  - exists own, wires, rest. split_and!; [done.. | by apply started_own |]. congruence.
Qed.
End Past.

(** ** Completions of reads of earlier users *)

Definition with_leftovers (P : past) (a : list aio_op) (h : gmap Z http_stream) : past :=
  mk_past (p_gen P) (p_base P) a h (p_reqs P).

(** Only the leftovers of earlier users change. *)
Record leftover_step (P P' : past) (w w' : hw) : Prop := mk_left {
  ls_gen : p_gen P' = p_gen P;
  ls_base : p_base P' = p_base P;
  ls_reqs : p_reqs P' = p_reqs P;
  ls_w : h_w w' = h_w w;
  ls_next : h_next w' = h_next w;
  ls_log : h_reqs w' = h_reqs w;
  ls_aio : ∀ l, h_aio w = p_aio P ++ l → h_aio w' = p_aio P' ++ l;
  ls_heap : h_heap w = p_heap P → h_heap w' = p_heap P';
  ls_own : ∀ p s, p_base P <= p → h_heap w = <[p := s]> (p_heap P) → h_heap w' = <[p := s]> (p_heap P')
}.

Lemma leftover_idle P P' w w' : leftover_step P P' w w' → idle P w → idle P' w'.
Proof.
  intros [Eg Eb Er Hw Hn Hr Ha Hh Hi] (H1 & H2 & H3 & H4 & H5 & H6). specialize (Ha []). rewrite !app_nil_r in Ha.
  unfold idle, mine, h_conn in *. rewrite Hw, Hn, Eg, Eb. split_and!; auto.
Qed.

Lemma leftovers_inv P P' i w w' :
  leftover_step P P' w w' →
  live P i w ∨ ended P i w ∧ flag w = true → live P' i w' ∨ ended P' i w' ∧ flag w' = true.
Proof.
  intros HL. pose proof (leftover_idle _ _ _ _ HL) as Hidle. destruct HL as [Eg Eb Er Hw Hn Hr Ha Hh Hi].
  assert (Hst : started P w → started P' w').
  { unfold started, hstream, h_conn, h_sys. by rewrite Hw, Hr, Er. }
  assert (Hd : ∀ rest, dispatched P i (h_reqs w) rest → dispatched P' i (h_reqs w') rest).
  { intros rest. unfold dispatched. by rewrite Hr, Er. }
  assert (Hm : mine P w → mine P' w') by (unfold mine, h_conn; by rewrite Hw, Hn, Eg, Eb).
  assert (Ha0 : h_aio w = p_aio P → h_aio w' = p_aio P').
  { intros H. specialize (Ha []). rewrite !app_nil_r in Ha. by apply Ha. }
  assert (Hhe : healthy w → healthy w') by (unfold healthy, hout_ok, flag, h_conn, h_sys; by rewrite Hw).
  intros [[(H1 & H2 & H3 & H4) | [(H1 & H2 & H3 & H4 & H5 & H6 & H7 & ctx & off & H8 & H9 & H10 & H11)
                                 | (p & s & (H1 & H2 & H3 & H4 & H5 & H6 & H7 & H8 & H9 & H10 & H11) & H12)]]
         | [(H1 & H2 & H3 & rest & H4) H5]].
  - left. left. split; [auto |]. split; [auto |].
    unfold hstream, h_conn, h_sys in *. rewrite Hw, Er, Hr in *. split; [exact H3 |]. by apply Hd.
  - left. right. left. split; [auto |]. split; [auto |]. unfold hstream, h_conn, h_sys in *. rewrite Hw.
    split; [by apply Hd |]. split; [done |]. split; [done |]. split; [auto |]. split; [by apply Hm |].
    exists ctx, off. split; [auto |]. split; [done |]. split; [done |]. by rewrite Er, Hr.
  - left. right. right. exists p, s. unfold stream_at, hstream, h_conn, h_sys in *. rewrite Hw. split.
    + split; [auto |]. split; [auto |]. split; [by apply Hd |]. split; [done |]. split; [done |].
      split; [auto |]. split; [done |]. split; [done |]. rewrite Er, Hr, Eb. split; [done |]. split; [by apply Hm | done].
    + destruct (s_reading s); [split; [apply H12 | apply Ha, H12] | split; [apply Ha0, H12 | apply H12]].
  - right. unfold flag, hbounds, h_conn in *. rewrite Hw. split; [ | done]. split; [unfold hbounds, h_conn; by rewrite Hw |].
    split; [auto |]. split; [auto |]. exists rest. by apply Hd.
Qed.

(** What a completion of an earlier user's read needs to know. *)
Definition keeps_past (P : past) (w : hw) : Prop :=
  generation (h_conn w) = p_gen P ∧ (∃ l, h_aio w = p_aio P ++ l) ∧
  ∀ q, q < p_base P → h_heap w !! q = p_heap P !! q.

Lemma idle_past P w : idle P w → keeps_past P w.
Proof.
  intros (_ & _ & Ha & Hh & Hg & _). split; [done |]. split; [exists []; by rewrite app_nil_r |].
  intros q _. by rewrite Hh.
Qed.

Lemma served_past P i w : live P i w ∨ ended P i w ∧ flag w = true → keeps_past P w.
Proof.
  intros [[Hl | [Hl | (p & s & Hl & Hsh)]] | [Hl _]]; [apply idle_past, Hl | | | apply idle_past, Hl].
  - destruct Hl as (_ & _ & _ & _ & _ & Hh & [Hg _] & ctx & off & Ha & _). split; [done |]. split; [eauto |].
    intros q _. by rewrite Hh.
  - destruct Hl as (_ & _ & _ & _ & _ & Hh & _ & _ & _ & [Hg _] & Hp). split; [done |]. split.
    + destruct (s_reading s); [destruct Hsh; eauto |]. exists []. rewrite app_nil_r. apply Hsh.
    + intros q Hq. by rewrite Hh, lookup_insert_ne by lia.
Qed.

(** A completion of an earlier user's read leaves the connection alone. *)
Lemma stale_complete P w k b w' :
  past_ok P → keeps_past P w → (k < length (p_aio P))%nat → aio_complete E w k = (b, w') →
  b = false ∧ ∃ P', past_ok P' ∧ leftover_step P P' w w'.
Proof.
  intros [HA HH] (Hg & [l Hl] & Hheap) Hk. unfold aio_complete.
  destruct (lookup_lt_is_Some_2 (p_aio P) k Hk) as [op Hop].
  pose proof (Forall_lookup_1 _ _ _ _ HA Hop) as Hst.
  assert (Hlook : h_aio w !! k = Some op) by (by rewrite Hl, lookup_app_l).
  assert (Haio : ∀ l, h_aio w = p_aio P ++ l → delete k (h_aio w) = delete k (p_aio P) ++ l).
  { intros l0 ->. rewrite <- (take_drop_middle _ _ _ Hop), <- app_assoc. cbn [app].
    assert (length (take k (p_aio P)) = k) as EL by (rewrite length_take; lia).
    rewrite <- EL at 1 4. by rewrite !delete_middle, app_assoc. }
  assert (HA' : Forall (stale_op P) (delete k (p_aio P))) by (by apply Forall_delete).
  assert (Hsame : ∀ w2, h_w w2 = h_w w → h_next w2 = h_next w → h_reqs w2 = h_reqs w → h_heap w2 = h_heap w →
    h_aio w2 = delete k (h_aio w) →
    ∃ P', past_ok P' ∧ leftover_step P P' w w2).
  { intros w2 Hw Hn Hr Hhp Ha. exists (with_leftovers P (delete k (p_aio P)) (p_heap P)). split; [done |].
    constructor; try done; rewrite ?Ha, ?Hhp; try done. }
  rewrite Hlook. destruct op as [ctx off | p fdd len off]; cbn in Hst.
  - unfold file_read_complete. change (h_conn (with_aio w _ _)) with (h_conn w).
    rewrite (proj2 (Z.eqb_neq (generation (h_conn w)) (c_generation ctx))) by congruence. cbn [andb].
    intros [= <- <-]. split; [done |]. by apply Hsame.
  - unfold stream_chunk_complete. cbn [h_heap with_aio]. rewrite Hheap by done.
    destruct (p_heap P !! p) as [s | ] eqn:ES; cycle 1.
    { intros [= <- <-]. split; [done |]. by apply Hsame. }
    change (h_conn (with_aio w _ _)) with (h_conn w).
    rewrite (proj2 (Z.eqb_neq (generation (h_conn w)) (s_generation s))) by (rewrite Hg; apply not_eq_sym; by apply (HH p s)).
    cbn [andb negb]. unfold stream_free. cbn [h_heap with_heap]. rewrite lookup_insert_eq.
    intros [= <- <-]. split; [done |].
    exists (with_leftovers P (delete k (p_aio P)) (delete p (p_heap P))). split.
    { split; [done |]. intros q s' Hq. cbn [p_heap with_leftovers] in Hq. apply lookup_delete_Some in Hq as [_ Hq]. by apply (HH q s'). }
    constructor; try done.
    + intros H. cbn. by rewrite H, delete_insert_eq.
    + intros q s' Hq H. cbn. rewrite H, delete_insert_eq, delete_insert_ne; [done |]. lia.
Qed.

(** ** Histories *)

(** The history of a connection that is kept open, in a slot whose earlier users made the
    requests [FR] and may have left reads in flight: [hrun FR i w] says that [w] is
    reached after reading the bytes [i]. *)
Inductive hrun (FR : list request) : list Z → hw → Prop :=
| run_init P w :
    past_ok P → p_reqs P = FR → ready P [] w → hrun FR [] w
| run_env i w rx' txs' ctl' mem' sub' :
    hrun FR i w → hrun FR i (rescript w rx' txs' ctl' mem' sub')
| run_read i w b w' :
    hrun FR i w → appended w b → portico_http_event E w = (0, w') → hrun FR (i ++ b) w'
| run_writable i w w' :
    hrun FR i w → portico_conn_on_writable E w = (0, w') → hrun FR i w'
| run_completion i w k w' :
    hrun FR i w → aio_complete E w k = (false, w') → hrun FR i w'.

Lemma post_cases P i w : post P i 0 w → live P i w ∨ ended P i w ∧ flag w = true.
Proof. intros [[_ ?] | [? _]]; done. Qed.

Lemma hrun_invariant FR i w :
  hrun FR i w → ∃ P, past_ok P ∧ p_reqs P = FR ∧ (live P i w ∨ ended P i w ∧ flag w = true).
Proof.
  induction 1 as [P w HP HF H | i w rx' txs' ctl' mem' sub' _ IH | i w b w' _ IH Hb H | i w w' _ IH H | i w k w' _ IH H].
  - exists P. split; [done |]. split; [done |]. left. by left.
  - exact IH.
  - destruct IH as (P & HP & HF & IH). exists P. split; [done |]. split; [done |].
    destruct IH as [IH | [He Hf]]; [by apply post_cases, (http_event_spec P HP i w b 0) |].
    unfold appended, portico_http_event in *. rewrite Hf in Hb. unfold flag in Hf. rewrite Hf in H.
    injection H as <-. subst b. rewrite app_nil_r. by right.
  - destruct IH as (P & HP & HF & IH). exists P. split; [done |]. split; [done |].
    by apply post_cases, (on_writable_core P HP i w 0).
  - destruct IH as (P & HP & HF & IH). destruct (Nat.lt_ge_cases k (length (p_aio P))) as [Hk | Hk].
    + pose proof (stale_complete P w k false w' HP (served_past P i w IH) Hk H) as (_ & P' & HP' & HL).
      exists P'. split; [done |]. split; [by rewrite (ls_reqs _ _ _ _ HL) | by eapply leftovers_inv].
    + exists P. split; [done |]. split; [done |]. by apply post_cases, (own_complete_spec P HP i w k).
Qed.
End Serve.

Lemma http_pipeline_in_order_core E handler file_data FR i w :
  env_ok E handler file_data → hrun E handler file_data FR i w → served E handler file_data FR i w.
Proof.
  intros Henv H. eapply hrun_invariant in H as (P & HP & <- & H); [ | done]. by apply invariant_served.
Qed.

(** C4. Pipelined HTTP service: in every history of read, writable and completion
    events of a connection, with every behaviour of the socket, the allocator and the
    asynchronous file reads, and whatever reads earlier users of its slot left in flight:
    the requests handed to the application are exactly the leading requests of the bytes
    received, in order, and each once.  All of them but the last are answered in full and
    in order before anything else is queued; while the connection stays in service the
    output is a prefix of the answers, it is complete whenever no file response is under
    way, and a file response under way is always waiting for a read of its own in flight
    or for a socket with EPOLLOUT armed, so it is never stranded. *)
Theorem http_pipeline_in_order E handler file_data FR i w :
  env_ok E handler file_data → hrun E handler file_data FR i w → served E handler file_data FR i w.
Proof. apply http_pipeline_in_order_core. Qed.

(** A tokenizer for one fixed head, a handler that answers the first request with text
    and the others with a small file, and a file. *)
Definition demo_head : list Z := bs "GET / HTTP/1.1" ++ CRLF ++ CRLF.
Definition demo_phr (buf : list Z) : phr_outcome :=
  if bool_decide (ztake (zlen demo_head) buf = demo_head)
  then PhrOk (mk_phr (zlen demo_head) (bs "GET") (bs "/") 1 []) else PhrIncomplete.
Definition demo_handler (L : list request) (r : request) (res : response) : Z * response :=
  match L with
  | [] => (0, portico_res_text true res 200 (bs "hi"))
  | _ => (0, mk_res 200 [] [] (res_keep_alive res) false true 7 0 3 false)
  end.
Definition demo_env : http_env :=
  mk_env demo_phr (λ _, false) (λ _, false) (λ _, bs "10.0.0.1")
    (λ _ len off, Some (ztake len (zdrop off (bs "abc")))) (Some demo_handler) None
    (mk_cfg false false false false false false 0) false true 100.
Definition demo_world : hw :=
  mk_hw (mk_cw (set_recv (set_state (set_ref_count (zero_conn 1) 1) WS_STATE_HTTP) [] 16384)
           (mk_sys [] [] [] false [] []) []) ∅ 1 [] [] [] [].

Lemma demo_env_ok : env_ok demo_env demo_handler (λ _, bs "abc").
Proof.
  split_and!.
  - split; cbn; unfold demo_phr.
    + intros buf r. case_bool_decide as H; intros [= <-]. cbn [phr_len].
      pose proof (f_equal zlen H) as Hl. unfold ztake in Hl. unfold zlen in *. rewrite length_take in Hl.
      split; [by vm_compute | lia].
    + intros buf r rest. case_bool_decide as H; intros [= <-]. cbn [phr_len].
      rewrite H, ztake_app_exact. by rewrite bool_decide_true.
  - done.
  - intros L r ka. destruct L; cbn; split; try done; vm_compute; congruence.
  - intros f len off d Hl Ho. cbn. intros [= <-]. set (D := zdrop off _).
    assert (zlen (ztake len D) <= len) by (unfold zlen, ztake; rewrite length_take; lia).
    split; [ | done]. destruct (decide (len <= zlen D)).
    + by rewrite zlen_ztake by (pose proof (zlen_nonneg D); lia).
    + by rewrite (ztake_ge len), (ztake_ge (zlen D)) by lia.
Qed.

(** Two pipelined requests read at once over a socket that takes five bytes and then
    blocks; the socket drains, then the file read completes. *)
Lemma http_pipeline_in_order_witness :
  ∃ w, hrun demo_env demo_handler (λ _, bs "abc") [] (demo_head ++ demo_head) w ∧
       length (h_reqs w) = 2%nat ∧
       hstream w = answers demo_env demo_handler (λ _, bs "abc") [] (h_reqs w).
Proof.
  set (w1 := rescript demo_world [RxData (demo_head ++ demo_head)] [TxTake 5; TxAgain] [] [] []).
  set (w2 := (portico_http_event demo_env w1).2).
  set (w3 := (portico_conn_on_writable demo_env w2).2).
  set (w4 := (aio_complete demo_env w3 0).2).
  assert (H0 : hrun demo_env demo_handler (λ _, bs "abc") [] [] demo_world).
  { apply (run_init _ _ _ _ (no_past 1)); [apply no_past_ok | done |].
    split; [split; [apply outq_init_ok | split_and!; vm_compute; done || discriminate] |].
    split; [by split_and! |].
    split; [reflexivity |]. by exists [], []. }
  assert (H1 : hrun demo_env demo_handler (λ _, bs "abc") [] [] w1) by (by apply run_env).
  assert (H2 : hrun demo_env demo_handler (λ _, bs "abc") [] ([] ++ (demo_head ++ demo_head)) w2).
  { eapply run_read; [exact H1 | |]; vm_compute; reflexivity. }
  assert (H3 : hrun demo_env demo_handler (λ _, bs "abc") [] ([] ++ (demo_head ++ demo_head)) w3).
  { eapply run_writable; [exact H2 |]; vm_compute; reflexivity. }
  assert (H4 : hrun demo_env demo_handler (λ _, bs "abc") [] ([] ++ (demo_head ++ demo_head)) w4).
  { eapply run_completion with (k := 0%nat); [exact H3 |]. vm_compute. reflexivity. }
  exists w4. split; [exact H4 |]. split; [vm_compute; reflexivity |].
  destruct (http_pipeline_in_order demo_env demo_handler (λ _, bs "abc") [] _ w4 demo_env_ok H4)
    as (own & wires & rest & -> & _ & _ & _ & H). apply H; vm_compute; reflexivity.
Defined.

Lemma read_into_recv_lossless_witness :
  ∃ w', read_into_recv 100 (h_w (rescript demo_world [RxData [1; 2; 3]; RxData [4]] [] [] [] [])) = (0, w') ∧
        recv_buffer (w_conn w') ++ rx_all (rx (w_sys w')) = [1; 2; 3; 4].
Proof.
  destruct (read_into_recv 100 _) as [rc w'] eqn:ER.
  pose proof (read_into_recv_lossless 100 (h_w (rescript demo_world [RxData [1; 2; 3]; RxData [4]] [] [] [] []))
    rc w' ltac:(split_and!; vm_compute; done) ER) as (Heq & _).
  exists w'. split; [vm_compute in ER; injection ER as <- <-; vm_compute; reflexivity | exact Heq].
Defined.

(** ** Rejected requests *)

Definition error_status (rc : Z) : Z := if rc =? -1 then 400 else if rc =? -2 then 413 else 501.

(** A socket that takes everything, with nothing queued before. *)
Definition writable (w : hw) : Prop :=
  txs (h_sys w) = [] ∧ mem (h_sys w) = [] ∧ backlogged (out (h_conn w)) = false.

Lemma error_close_writable w st rc w' :
  writable w → 0 <= st < 1000 → http_error_close w st = (rc, w') →
  rc = -1 ∧ tx (h_sys w') = tx (h_sys w) ++ status_reply st ∧ h_reqs w' = h_reqs w ∧
  backlogged (out (h_conn w')) = false.
Proof.
  intros (Ht & Hm & Hb) Hst. unfold http_error_close, http_reply_status, h_alloc, alloc, sys_alloc, http_send_owned.
  unfold h_sys in Hm, Ht. rewrite Hm. unfold portico_http_build_status. fold (status_reply st).
  pose proof (response_head_len st [] 0 false) as [H1 H2]. change (zlen (@nil Z)) with 0 in H2. fold (status_reply st) in H1, H2.
  rewrite (proj2 (Z.leb_gt _ 0)), (proj2 (Z.leb_gt 160 _)) by lia. cbn [orb negb].
  unfold h_send, portico_conn_send. change (h_conn (with_w w _)) with (h_conn w). change (h_sys (with_w w _)) with (w_sys (h_w w)).
  rewrite Hb. unfold send_fuel. rewrite Ht. cbn [length]. unfold send_loop.
  change (zdrop 0 (status_reply st)) with (status_reply st).
  rewrite (proj2 (Z.ltb_lt 0 (zlen (status_reply st)))) by lia. unfold sys_send. rewrite Ht. cbn [txs set_tx].
  rewrite (proj2 (Z.ltb_lt 0 (zlen (status_reply st)))) by lia.
  rewrite (proj2 (Z.ltb_ge (0 + zlen (status_reply st)) (zlen (status_reply st)))) by lia.
  change (0 <? 0) with false. cbv iota. unfold h_finish_close, http_finish_close. cbn [h_conn h_w with_w w_conn out set_out].
  rewrite Hb. intros [= <- <-]. split_and!; try done.
Qed.

(** A request the parser rejects never reaches the application: it is answered
    with 400 (malformed head or framing), 413 (body over the limit) or 501 (transfer
    coding), with Connection: close, and the connection is closed. *)
Theorem rejected_request_closes E w rc :
  writable w → recv_buffer (h_conn w) ≠ [] →
  portico_http_parse (e_phr E) (recv_buffer (h_conn w)) = (rc, None) → rc ∈ [-1; -2; -3] →
  ∃ w', process_http_buffer E w = (-1, w') ∧
        tx (h_sys w') = tx (h_sys w) ++ status_reply (error_status rc) ∧ h_reqs w' = h_reqs w.
Proof.
  intros Hw Hne HP Hrc. unfold process_http_buffer. cbn [process_loop].
  assert (Hu : (recv_buffer_used (h_conn w) =? 0) = false).
  { apply Z.eqb_neq. unfold recv_buffer_used. by intros ?%zlen_0_nil. }
  rewrite Hu, HP. unfold error_status.
  rewrite !elem_of_cons in Hrc. destruct Hrc as [-> | [-> | [-> | Hf]]]; [ | | | by apply not_elem_of_nil in Hf].
  all: match goal with |- context [http_error_close ?w0 ?st] =>
         destruct (http_error_close w0 st) as [r w'] eqn:EC;
         apply error_close_writable in EC as (-> & Htx & Hr & _); [ | done | lia]; by exists w' end.
Qed.

Definition reject_env : http_env :=
  mk_env (λ _, PhrMalformed) (λ _, false) (λ _, false) (λ _, []) (λ _ _ _, None) (Some demo_handler) None
    (mk_cfg false false false false false false 0) false true 100.

Lemma rejected_request_closes_witness :
  ∃ w', process_http_buffer reject_env (h_set demo_world (λ c, set_recv c (bs "???") 16384)) = (-1, w') ∧
        tx (h_sys w') = status_reply 400.
Proof.
  destruct (rejected_request_closes reject_env (h_set demo_world (λ c, set_recv c (bs "???") 16384)) (-1))
    as (w' & H1 & H2 & _); [by split_and! | done | reflexivity | constructor |].
  by exists w'.
Defined.

(** ** Slot reuse *)

Definition op_fd (op : aio_op) : Z := match op with AFile ctx _ => c_file_fd ctx | AStream _ fd _ _ => fd end.

(** The reads in flight belong to the slot's present user. *)
Definition inflight_ok (w : hw) : Prop :=
  ∀ k op, h_aio w !! k = Some op →
    match op with
    | AFile ctx _ => c_generation ctx = generation (h_conn w)
    | AStream p f _ _ => ∃ s, h_heap w !! p = Some s ∧ s_reading s = true ∧
                              s_generation s = generation (h_conn w) ∧ s_file_fd s = f
    end.

(** The slot is closed and given to a new connection. *)
Definition reuse_slot (w : hw) (now fd' tid idx : Z) : hw :=
  let w1 := http_connection_cleanup w in
  let '(c, s) := ws_connection_init (h_conn w1) (h_sys w1) now fd' tid idx in
  with_w w1 (mk_cw c s (w_ev (h_w w1))).

Lemma stream_free_facts w p :
  h_aio (stream_free w p) = h_aio w ∧ h_w (stream_free w p) = h_w w ∧
  ∀ q, q ≠ p → h_heap (stream_free w p) !! q = h_heap w !! q.
Proof.
  unfold stream_free. destruct (h_heap w !! p); split_and!; try done.
  intros q Hq. cbn. by rewrite lookup_delete_ne.
Qed.

Lemma abort_facts w :
  let w1 := portico_http_stream_abort w in
  h_aio w1 = h_aio w ∧ generation (h_conn w1) = generation (h_conn w) ∧
  ∀ p s, h_heap w !! p = Some s → s_reading s = true → h_heap w1 !! p = Some s.
Proof.
  unfold portico_http_stream_abort. destruct (file_stream (h_conn w)) as [p | ]; [ | done].
  destruct (h_heap w !! p) as [s | ] eqn:EH; [ | done]. destruct (s_reading s) eqn:ER; [done |].
  set (w0 := h_set w _). destruct (stream_free_facts w0 p) as (H1 & H2 & H3).
  split; [by rewrite H1 |]. split; [unfold h_conn; by rewrite H2 |].
  intros q s' Hq Hr. rewrite H3; [done |]. intros ->. congruence.
Qed.

Lemma cleanup_generation c s : generation (ws_connection_cleanup c s).1 = generation c.
Proof.
  unfold ws_connection_cleanup, ws_connection_cleanup_write_buffer, ws_connection_flush_write_buffer.
  destruct (write_buffer c) as [wb | ]; [ | done]. cbn [default].
  destruct (0 <? zlen (id wb)); [ | done]. destruct (zlen wb =? 0); [done |].
  destruct (ws_conn_socket_write s wb) as [[n | | ] s1]; [destruct (n <? zlen wb) | | ]; done.
Qed.

Lemma reuse_facts w now fd' tid idx :
  let w1 := reuse_slot w now fd' tid idx in
  h_aio w1 = h_aio w ∧ generation (h_conn w1) = u32 (generation (h_conn w) + 1) ∧
  ∀ p s, h_heap w !! p = Some s → s_reading s = true → h_heap w1 !! p = Some s.
Proof.
  unfold reuse_slot, http_connection_cleanup. destruct (abort_facts w) as (H1 & H2 & H3).
  set (w1 := portico_http_stream_abort w) in *.
  pose proof (cleanup_generation (h_conn w1) (h_sys w1)) as Hg.
  destruct (ws_connection_cleanup _ _) as [c s]. cbn [fst] in Hg.
  unfold ws_connection_init. change (h_conn (with_w w1 (mk_cw c s _))) with c.
  change (h_sys (with_w w1 (mk_cw c s _))) with s.
  destruct (sys_alloc s) as [ok s1]. split; [done |]. split; [cbn; by rewrite Hg, H2 |]. done.
Qed.

(** Slot reuse: after a connection with file reads in flight is closed and its
    slot is given to a new connection, the completion of any of those reads, whatever
    the new connection [v] has done by then, leaves the new connection, its socket and
    its output alone, does not ask to close it, and closes the file it was reading (and,
    for a stream, frees the context it owns). *)
Theorem slot_reuse_guard E w k op now fd' tid idx v :
  inflight_ok w → 0 <= generation (h_conn w) < 2 ^ 32 → h_aio w !! k = Some op →
  generation (w_conn v) = generation (h_conn (reuse_slot w now fd' tid idx)) →
  let w1 := with_w (reuse_slot w now fd' tid idx) v in
  ∃ w', aio_complete E w1 k = (false, w') ∧ h_w w' = h_w w1 ∧ h_reqs w' = h_reqs w1 ∧
        h_closed w' = h_closed w1 ++ [op_fd op] ∧ h_aio w' = delete k (h_aio w1) ∧
        match op with AFile _ _ => h_heap w' = h_heap w1 | AStream p _ _ _ => h_heap w' = delete p (h_heap w1) end.
Proof.
  intros Hok Hg Hk Hv w1. destruct (reuse_facts w now fd' tid idx) as (Ha0 & Hgen & Hheap0).
  assert (Ha : h_aio w1 = h_aio w) by exact Ha0.
  assert (Hheap : ∀ p s, h_heap w !! p = Some s → s_reading s = true → h_heap w1 !! p = Some s) by exact Hheap0.
  assert (Hne : (generation (h_conn w1) =? generation (h_conn w)) = false).
  { apply Z.eqb_neq. change (h_conn w1) with (w_conn v). rewrite Hv, Hgen. unfold u32. lia. }
  unfold aio_complete. rewrite Ha, Hk. pose proof (Hok _ _ Hk) as Hop.
  destruct op as [ctx off | p f len off].
  - unfold file_read_complete. change (h_conn (with_aio w1 _ _)) with (h_conn w1). rewrite Hop, Hne. cbn [andb].
    eexists. split; [reflexivity |]. rewrite <- Ha. by split_and!.
  - destruct Hop as (s & Hs & Hr & Hsg & Hsf). apply Hheap in Hs; [ | done].
    unfold stream_chunk_complete. change (h_heap (with_aio w1 _ _)) with (h_heap w1). rewrite Hs.
    change (h_conn (with_aio w1 _ _)) with (h_conn w1). rewrite Hsg, Hne. cbn [andb negb].
    unfold stream_free. cbn [h_heap with_heap]. rewrite lookup_insert_eq.
    eexists. split; [reflexivity |]. rewrite <- Ha. cbn [s_file_fd set_reading op_fd]. rewrite Hsf.
    split_and!; try done. cbn [h_heap with_heap close_file with_aio]. by rewrite delete_insert_eq.
Qed.

(** The parked file read of the pipelining example: its client goes away, and a new
    connection is already serving HTTP in the slot when the read completes. *)
Lemma slot_reuse_guard_witness :
  let w := (portico_http_event demo_env
              (rescript demo_world [RxData (demo_head ++ demo_head)] [] [] [] [])).2 in
  let w0 := reuse_slot w 200 9 0 0 in
  let w1 := h_set w0 (λ c, set_state c WS_STATE_HTTP) in
  ∃ w', aio_complete demo_env w1 0 = (false, w') ∧ h_w w' = h_w w1 ∧ h_closed w' = [7].
Proof.
  intros w w0 w1.
  destruct (slot_reuse_guard demo_env w 0 (AFile (mk_ctx 1 7 3 200 true []) 0) 200 9 0 0 (h_w w1))
    as (w' & H1 & H2 & _ & H3 & _).
  - intros [ | k] op; vm_compute; [intros [= <-]; reflexivity | done].
  - vm_compute. split; [discriminate | reflexivity].
  - vm_compute. reflexivity.
  - vm_compute. reflexivity.
  - exists w'. split; [exact H1 |]. split; [exact H2 |]. rewrite H3. vm_compute. reflexivity.
Defined.
