(* ===== verification/HttpStatic.v ===== *)
(** * Static files and virtual hosts (src/src/http/connection.c, src/src/config/portico_router.c)

    Path decoding, byte ranges, validators, content negotiation, [portico_res_static]
    with its docroot confinement, [portico_res_vhost] and the hot-swappable router.
    The file system is a parameter ([realpath], [open], [fstat], [pread]), as are
    [strptime]/[timegm]; the descriptors opened and closed are recorded. *)
From Stdlib Require Import ZArith Lia.
From stdpp Require Import base numbers list strings.
From S2P Require Import Prelude Cstr HttpRequest HttpResponse.
Open Scope Z_scope.

Definition PATH_MAX : Z := 4096.
Definition PORTICO_FILE_MAX : Z := 2 * 1024 * 1024 * 1024.

(** ** Content types *)

(** [strrchr(path, c)]: the text after the last [c]. *)
Fixpoint after_last (c : Z) (s : list Z) : option (list Z) :=
  match s with
  | [] => None
  | x :: t => match after_last c t with
              | Some r => Some r
              | None => if x =? c then Some t else None
              end
  end.

Definition content_types : list (list Z * list Z) :=
  [ (bs "html", bs "text/html; charset=utf-8"); (bs "htm", bs "text/html; charset=utf-8");
    (bs "css", bs "text/css; charset=utf-8"); (bs "txt", bs "text/plain; charset=utf-8");
    (bs "xml", bs "application/xml"); (bs "pdf", bs "application/pdf");
    (bs "csv", bs "text/csv; charset=utf-8"); (bs "md", bs "text/markdown; charset=utf-8");
    (bs "js", bs "text/javascript; charset=utf-8"); (bs "mjs", bs "text/javascript; charset=utf-8");
    (bs "json", bs "application/json"); (bs "map", bs "application/json");
    (bs "wasm", bs "application/wasm");
    (bs "webmanifest", bs "application/manifest+json"); (bs "manifest", bs "application/manifest+json");
    (bs "svg", bs "image/svg+xml"); (bs "png", bs "image/png"); (bs "jpg", bs "image/jpeg");
    (bs "jpeg", bs "image/jpeg"); (bs "gif", bs "image/gif"); (bs "ico", bs "image/x-icon");
    (bs "webp", bs "image/webp"); (bs "avif", bs "image/avif"); (bs "bmp", bs "image/bmp");
    (bs "woff2", bs "font/woff2"); (bs "woff", bs "font/woff"); (bs "ttf", bs "font/ttf");
    (bs "otf", bs "font/otf"); (bs "eot", bs "application/vnd.ms-fontobject");
    (bs "mp4", bs "video/mp4"); (bs "webm", bs "video/webm"); (bs "mov", bs "video/quicktime");
    (bs "mp3", bs "audio/mpeg"); (bs "ogg", bs "audio/ogg"); (bs "wav", bs "audio/wav");
    (bs "m4a", bs "audio/mp4"); (bs "flac", bs "audio/flac") ].

Fixpoint lookup_ext (ext : list Z) (m : list (list Z * list Z)) : list Z :=
  match m with
  | [] => bs "application/octet-stream"
  | (e, ct) :: t => if ws_strcasecmp ext e =? 0 then ct else lookup_ext ext t
  end.

Definition content_type_for (path : list Z) : list Z :=
  match after_last 46 path with
  | None => bs "application/octet-stream"
  | Some ext => lookup_ext ext content_types
  end.

(** ** Percent decoding *)

Definition hex_val (c : Z) : option Z :=
  if (48 <=? c) && (c <=? 57) then Some (c - 48)
  else if (65 <=? c) && (c <=? 70) then Some (c - 55)
  else if (97 <=? c) && (c <=? 102) then Some (c - 87)
  else None.

(** [url_decode_path]: [room] is the number of output bytes still allowed ([cap - 1 - o]). *)
Fixpoint url_decode (s : list Z) (room : nat) : list Z :=
  match room, s with
  | O, _ => []
  | _, [] => []
  | S k, c :: t =>
      match t with
      | a :: b :: t' =>
          match hex_val a, hex_val b with
          | Some x, Some y =>
              if c =? 37 then u8 (16 * x + y) :: url_decode t' k else c :: url_decode t k
          | _, _ => c :: url_decode t k
          end
      | _ => c :: url_decode t k
      end
  end.
Definition url_decode_path (s : list Z) (cap : Z) : list Z := url_decode s (Z.to_nat (cap - 1)).

(** ** Dates and validators *)

Definition pad_dec (width : Z) (n : Z) : list Z :=
  let d := dec_string n in replicate (Z.to_nat (width - zlen d)) 48 ++ d.

(** The civil date of a day number (days since 1970-01-01), as [gmtime_r] computes it. *)
Definition civil_from_days (z0 : Z) : Z * Z * Z :=
  let z := z0 + 719468 in
  let era := z / 146097 in
  let doe := z - era * 146097 in
  let yoe := (doe - doe / 1460 + doe / 36524 - doe / 146096) / 365 in
  let doy := doe - (365 * yoe + yoe / 4 - yoe / 100) in
  let mp := (5 * doy + 2) / 153 in
  let d := doy - (153 * mp + 2) / 5 + 1 in
  let m := if mp <? 10 then mp + 3 else mp - 9 in
  ((yoe + era * 400) + (if m <=? 2 then 1 else 0), m, d).

Definition day_names : list (list Z) :=
  [bs "Sun"; bs "Mon"; bs "Tue"; bs "Wed"; bs "Thu"; bs "Fri"; bs "Sat"].
Definition month_names : list (list Z) :=
  [bs "Jan"; bs "Feb"; bs "Mar"; bs "Apr"; bs "May"; bs "Jun";
   bs "Jul"; bs "Aug"; bs "Sep"; bs "Oct"; bs "Nov"; bs "Dec"].

Definition http_date (t cap : Z) : list Z :=
  let days := t / 86400 in
  let secs := t mod 86400 in
  let '(y, m, d) := civil_from_days days in
  ztake (cap - 1)
    (default [] (day_names !! Z.to_nat ((days + 4) mod 7)) ++ bs ", " ++ pad_dec 2 d ++ bs " " ++
     default [] (month_names !! Z.to_nat (m - 1)) ++ bs " " ++ pad_dec 4 y ++ bs " " ++
     pad_dec 2 (secs / 3600) ++ bs ":" ++ pad_dec 2 (secs / 60 mod 60) ++ bs ":" ++
     pad_dec 2 (secs mod 60) ++ bs " GMT").

(** ["%llx"]. *)
Definition hex_digit (n : Z) : Z := if n <? 10 then 48 + n else 87 + n.
Fixpoint hex_digits (fuel : nat) (n : Z) (acc : list Z) : list Z :=
  match fuel with
  | O => acc
  | S f => let acc' := hex_digit (n mod 16) :: acc in
           if n <? 16 then acc' else hex_digits f (n / 16) acc'
  end.
Definition hex_string (n : Z) : list Z := hex_digits 16 (u64 n) [].

(** [struct stat], as far as it is read. *)
Record stat := mk_stat {
  st_isdir : bool;
  st_isreg : bool;
  st_size : Z;
  st_mtime : Z;
  st_mtime_nsec : Z
}.

Definition file_etag (st : stat) (cap : Z) : list Z :=
  ztake (cap - 1)
    (34 :: hex_string (st_mtime st) ++ bs "-" ++ hex_string (st_mtime_nsec st) ++ bs "-" ++
     hex_string (st_size st) ++ [34]).

(** [etag_matches]; every turn of the loop passes at least one character. *)
Fixpoint skip_etag_delims (s : list Z) : list Z :=
  match s with
  | c :: t => if (c =? 32) || (c =? 44) || (c =? 9) then skip_etag_delims t else s
  | [] => []
  end.
Fixpoint to_comma (s : list Z) : list Z :=
  match s with
  | c :: t => if c =? 44 then s else to_comma t
  | [] => []
  end.
Definition skip_weak (s : list Z) : list Z :=
  match s with
  | 87 :: 47 :: t => t
  | _ => s
  end.
Fixpoint etag_loop (fuel : nat) (p etag : list Z) : bool :=
  match fuel with
  | O => false
  | S n =>
      match p with
      | [] => false
      | _ =>
          let p1 := skip_weak (skip_etag_delims p) in
          match p1 with
          | [] => false
          | _ => if bool_decide (take (length etag) p1 = etag) then true
                 else etag_loop n (to_comma p1) etag
          end
      end
  end.
Definition etag_matches (hdr etag : list Z) : bool :=
  if bool_decide (42 ∈ hdr) then true else etag_loop (S (length hdr)) hdr etag.

(** ** Byte ranges *)

Definition LLONG_MAX : Z := 2 ^ 63 - 1.
Definition LLONG_MIN : Z := - 2 ^ 63.

Fixpoint take_digits (s : list Z) (acc : Z) : Z * list Z :=
  match s with
  | c :: t => if is_digit c then take_digits t (acc * 10 + (c - 48)) else (acc, s)
  | [] => (acc, [])
  end.

(** [strtoll(s, &end, 10)]: the value and the text at [end] (all of [s] if there is no
    number). *)
Definition strtoll (s : list Z) : Z * list Z :=
  let t := drop_spaces s in
  let '(neg, u) := match t with
                   | 45 :: u => (true, u)
                   | 43 :: u => (false, u)
                   | _ => (false, t)
                   end in
  match u with
  | c :: _ =>
      if is_digit c then
        let '(n, rest) := take_digits u 0 in
        ((if neg then Z.max LLONG_MIN (- n) else Z.min LLONG_MAX n), rest)
      else (0, s)
  | [] => (0, s)
  end.

(** [strchr(v, '-')]: the text before and after the first dash. *)
Fixpoint split_dash (s : list Z) : option (list Z * list Z) :=
  match s with
  | [] => None
  | c :: t => if c =? 45 then Some ([], t)
              else match split_dash t with Some (a, b) => Some (c :: a, b) | None => None end
  end.

(** The last lines of [parse_range]. *)
Definition range_result (size s e : Z) : Z * Z * Z :=
  if (size =? 0) || (size <=? s) || (e <? s) then (1, 0, 0) else (0, s, e - s + 1).

(** [parse_range]: 0 with start and length, 1 (416), or -1 (serve the whole file). *)
Definition parse_range (v : list Z) (size : Z) : Z * Z * Z :=
  if negb (bool_decide (take 6 v = bs "bytes=")) then (-1, 0, 0)
  else
    let v := drop 6 v in
    if bool_decide (44 ∈ v) then (-1, 0, 0)
    else
      match split_dash v with
      | None => (-1, 0, 0)
      | Some (before, after) =>
          match before with
          | [] =>
              let '(suf, rest) := strtoll after in
              if bool_decide (rest = after) || negb (bool_decide (rest = [])) || (suf <=? 0) then (-1, 0, 0)
              else
                let suf := if size <? suf then size else suf in
                range_result size (size - suf) (size - 1)
          | _ =>
              let '(s, rest) := strtoll v in
              if negb (bool_decide (rest = 45 :: after)) || (s <? 0) then (-1, 0, 0)
              else
                match after with
                | [] => range_result size s (size - 1)
                | _ =>
                    let '(e, rest2) := strtoll after in
                    if negb (bool_decide (rest2 = [])) || (e <? 0) then (-1, 0, 0)
                    else range_result size s (if size <=? e then size - 1 else e)
                end
          end
      end.

(** [req_header_copy]: the value, if present, not empty and shorter than the buffer. *)
Definition req_header_copy (r : request) (name : list Z) (cap : Z) : option (list Z) :=
  match portico_req_header r name with
  | None => None
  | Some v => if (zlen v =? 0) || (cap <=? zlen v) then None else Some v
  end.

Definition PORTICO_MULTIPART_MAX_RANGES : Z := 16.
Definition PORTICO_MULTIPART_MAX_BYTES : Z := 1024 * 1024.

(** The ranges that can be served: [None] when the header must be ignored (a spec too
    long for its buffer, or too many ranges). *)
Fixpoint collect_parts (toks : list (list Z)) (total : Z) (parts : list (Z * Z)) : option (list (Z * Z)) :=
  match toks with
  | [] => Some parts
  | tok :: t =>
      let spec := bs "bytes=" ++ drop_ows tok in
      if 80 <=? zlen spec then None
      else
        let '(rc, s, l) := parse_range spec total in
        if rc =? 0 then
          if PORTICO_MULTIPART_MAX_RANGES <=? zlen parts then None
          else collect_parts t total (parts ++ [(s, l)])
        else collect_parts t total parts
  end.

Definition strip_quote (s : list Z) : list Z := match s with 34 :: t => t | _ => s end.
Fixpoint until_quote (s : list Z) : list Z :=
  match s with
  | c :: t => if c =? 34 then [] else c :: until_quote t
  | [] => []
  end.
Definition mp_boundary (etag : list Z) : list Z :=
  until_quote (ztake 95 (bs "PORTICO_BYTERANGE_" ++ strip_quote etag)).

Definition part_head (boundary ctype : list Z) (start len total : Z) : list Z :=
  bs "--" ++ boundary ++ CRLF ++ bs "Content-Type: " ++ ctype ++ CRLF ++
  bs "Content-Range: bytes " ++ dec_string start ++ bs "-" ++ dec_string (start + len - 1) ++
  bs "/" ++ dec_string total ++ CRLF ++ CRLF.

(** The size reserved for boundaries and part headers. *)
Definition mp_overhead (np blen ctlen : Z) : Z := np * (blen + ctlen + 160) + blen + 16.

Definition sum_lens (parts : list (Z * Z)) : Z := fold_right (λ p acc, p.2 + acc) 0 parts.

(** ** The file system *)

Inductive open_res := Opened (fd : Z) | OpenDenied | OpenFailed.

Record fs_env := mk_fs {
  fs_realpath : list Z → option (list Z);
  fs_open : nat → list Z → open_res;   (* the outcome may depend on how many opens came before *)
  fs_stat : Z → option stat;
  fs_pread : Z → Z → Z → option (list Z);
  fs_strptime : list Z → option Z
}.

(** Descriptors opened (with their paths) and closed. *)
Record fsw := mk_fsw { f_opened : list (list Z * Z); f_closed : list Z }.
Definition fs_close (w : fsw) (fd : Z) : fsw := mk_fsw (f_opened w) (f_closed w ++ [fd]).

(** ** Options *)

Record static_opts := mk_opts {
  o_docroot : list Z;
  o_url_prefix : option (list Z);
  o_index : option (list Z);
  o_precompressed : bool;
  o_cache_control : option (list Z);
  o_spa_fallback : option (list Z);
  o_dir_redirect : bool
}.

Section Static.
Context (F : fs_env).

Definition do_open (w : fsw) (path : list Z) : open_res * fsw :=
  match fs_open F (length (f_opened w)) path with
  | Opened fd => (Opened fd, mk_fsw (f_opened w ++ [(path, fd)]) (f_closed w))
  | r => (r, w)
  end.

(** [strncmp(resolved, rootreal, rl) == 0 && (resolved[rl] is '/' or NUL)]. *)
Definition within (resolved rootreal : list Z) : bool :=
  bool_decide (take (length rootreal) resolved = rootreal) &&
  match drop (length rootreal) resolved with [] => true | c :: _ => c =? 47 end.

(** The multipart body: [None] when a read comes up short. *)
Fixpoint mp_body (fd : Z) (parts : list (Z * Z)) (boundary ctype : list Z) (total : Z) : option (list Z) :=
  match parts with
  | [] => Some (bs "--" ++ boundary ++ bs "--" ++ CRLF)
  | (s, l) :: t =>
      match fs_pread F fd l s with
      | None => None
      | Some d =>
          if negb (zlen d =? l) then None
          else match mp_body fd t boundary ctype total with
               | None => None
               | Some rest => Some (part_head boundary ctype s l total ++ d ++ CRLF ++ rest)
               end
      end
  end.

Definition serve_byteranges (malloc_ok : bool) (res : response) (fd : Z) (rangehdr : list Z)
    (total : Z) (ctype etag lastmod : list Z) : Z * response :=
  if negb (bool_decide (take 6 rangehdr = bs "bytes=")) then (1, res)
  else if 512 <=? zlen rangehdr then (1, res)
  else
    match collect_parts (strtok_all (λ c, c =? 44) (drop 6 rangehdr) []) total [] with
    | None => (1, res)
    | Some parts =>
        let np := zlen parts in
        if np =? 0 then (-1, res)
        else if np =? 1 then (1, res)
        else
          let boundary := mp_boundary etag in
          let overhead := mp_overhead np (zlen boundary) (zlen ctype) in
          if PORTICO_MULTIPART_MAX_BYTES <? sum_lens parts + overhead then (1, res)
          else if negb malloc_ok then (1, res)
          else
            match mp_body fd parts boundary ctype total with
            | None => (1, res)
            | Some b =>
                let r1 := portico_res_header res (bs "Content-Type")
                            (ztake 159 (bs "multipart/byteranges; boundary=" ++ boundary)) in
                let r2 := portico_res_header r1 (bs "Accept-Ranges") (bs "bytes") in
                let r3 := portico_res_header r2 (bs "ETag") etag in
                let r4 := portico_res_header r3 (bs "Last-Modified") lastmod in
                (0, mk_res 206 (res_headers r4) b (res_keep_alive r4) (content_type_set r4) false
                      (file_fd r4) (file_offset r4) (file_size r4) (head_only r4))
            end
    end.

(** [accepts_encoding]. *)
Fixpoint skip_enc_delims (s : list Z) : list Z :=
  match s with
  | c :: t => if (c =? 32) || (c =? 44) then skip_enc_delims t else s
  | [] => []
  end.
Fixpoint enc_token (s : list Z) : list Z :=
  match s with
  | c :: t => if (c =? 44) || (c =? 59) || (c =? 32) then [] else c :: enc_token t
  | [] => []
  end.
Fixpoint encoding_loop (fuel : nat) (p name : list Z) : bool :=
  match fuel with
  | O => false
  | S n =>
      match p with
      | [] => false
      | _ =>
          let p1 := skip_enc_delims p in
          let tok := enc_token p1 in
          if (zlen tok =? zlen name) && (ws_strncasecmp tok name (length name) =? 0) then true
          else encoding_loop n (to_comma (drop (length tok) p1)) name
      end
  end.
Definition accepts_encoding (ae name : list Z) : bool := encoding_loop (S (length ae)) ae name.

(** [try_precompressed]: the sibling replaces the open file, or nothing changes. *)
Definition try_precompressed (w : fsw) (base suffix rootreal : list Z) (fd : Z)
    : option (Z * stat) * fsw :=
  if PATH_MAX <=? zlen (base ++ suffix) then (None, w)
  else
    match fs_realpath F (base ++ suffix) with
    | None => (None, w)
    | Some vr =>
        if negb (within vr rootreal) then (None, w)
        else
          match do_open w vr with
          | (Opened nfd, w1) =>
              match fs_stat F nfd with
              | None => (None, fs_close w1 nfd)
              | Some ns => if negb (st_isreg ns) then (None, fs_close w1 nfd)
                           else (Some (nfd, ns), fs_close w1 fd)
              end
          | (_, w1) => (None, w1)
          end
    end.

(** URL-prefix stripping: the path below the mount, or nothing (404). *)
Definition strip_prefix (opts : static_opts) (p : list Z) : option (list Z) :=
  match o_url_prefix opts with
  | None | Some [] => Some p
  | Some pre =>
      if (zlen p <? zlen pre) || negb (bool_decide (take (length pre) p = pre)) then None
      else match drop (length pre) p with
           | [] => Some [47]
           | c :: t => if c =? 47 then Some (c :: t) else None
           end
  end.

(** [docroot] and the resolved target of the URL path, or the error status. *)
Definition resolve_target (opts : static_opts) (req : request) (upath : list Z)
    : Z + (list Z * list Z) :=
  let decoded := url_decode_path upath PATH_MAX in
  if (zlen decoded =? 0) || negb (chr decoded =? 47) || bool_decide (0 ∈ decoded) then inl 400
  else
    let candidate := o_docroot opts ++ decoded in
    if PATH_MAX <=? zlen candidate then inl 414
    else
      match fs_realpath F (o_docroot opts) with
      | None => inl 500
      | Some rootreal =>
          match fs_realpath F candidate with
          | Some resolved => inr (rootreal, resolved)
          | None =>
              match o_spa_fallback opts with
              | None | Some [] => inl 404
              | Some f =>
                  let cand2 := o_docroot opts ++ bs "/" ++ f in
                  if (portico_req_method_is req (bs "GET") || portico_req_method_is req (bs "HEAD")) &&
                     (zlen cand2 <? PATH_MAX)
                  then match fs_realpath F cand2 with
                       | Some resolved => inr (rootreal, resolved)
                       | None => inl 404
                       end
                  else inl 404
              end
          end
      end.

(** What opening the target gives: an error status, a redirect, or a file. *)
Inductive target := TError (st : Z) | TRedirect (loc : list Z) | TFile (fd : Z) (st : stat) (path : list Z).

Definition open_index (opts : static_opts) (w : fsw) (rootreal resolved : list Z) : target * fsw :=
  let index := default (bs "index.html") (o_index opts) in
  if zlen index =? 0 then (TError 403, w)
  else
    let ipath := resolved ++ bs "/" ++ index in
    if PATH_MAX <=? zlen ipath then (TError 414, w)
    else
      match fs_realpath F ipath with
      | None => (TError 403, w)
      | Some r2 =>
          if negb (within r2 rootreal) then (TError 403, w)
          else
            match do_open w r2 with
            | (Opened fd, w1) =>
                match fs_stat F fd with
                | None => (TError 403, fs_close w1 fd)
                | Some st => if negb (st_isreg st) then (TError 403, fs_close w1 fd)
                             else (TFile fd st r2, w1)
                end
            | (_, w1) => (TError 403, w1)
            end
      end.

Definition open_target (opts : static_opts) (req : request) (w : fsw) (rootreal resolved : list Z)
    : target * fsw :=
  if negb (within resolved rootreal) then (TError 403, w)
  else
    match do_open w resolved with
    | (OpenDenied, w1) => (TError 403, w1)
    | (OpenFailed, w1) => (TError 404, w1)
    | (Opened fd, w1) =>
        match fs_stat F fd with
        | None => (TError 404, fs_close w1 fd)
        | Some st =>
            if st_isdir st then
              let w2 := fs_close w1 fd in
              let loc := path req ++ [47] in
              if o_dir_redirect opts &&
                 ((zlen (path req) =? 0) || negb (rd (path req) (zlen (path req) - 1) =? 47)) &&
                 (zlen loc <? PATH_MAX)
              then (TRedirect loc, w2)
              else open_index opts w2 rootreal resolved
            else (TFile fd st resolved, w1)
        end
    end.

(** The last checks on the file. *)
Definition check_file (t : target) (w : fsw) : target * fsw :=
  match t with
  | TFile fd st p =>
      if negb (st_isreg st) then (TError 404, fs_close w fd)
      else if PORTICO_FILE_MAX <? st_size st then (TError 413, fs_close w fd)
      else (t, w)
  | _ => (t, w)
  end.

(** Precompressed variants: brotli, then gzip. *)
Definition negotiate (opts : static_opts) (req : request) (w : fsw) (rootreal resolved : list Z)
    (fd : Z) (st : stat) : option (list Z) * Z * stat * fsw :=
  if negb (o_precompressed opts) then (None, fd, st, w)
  else
    match req_header_copy req (bs "Accept-Encoding") 256 with
    | None => (None, fd, st, w)
    | Some ae =>
        let '(br, w1) := if accepts_encoding ae (bs "br")
                         then try_precompressed w resolved (bs ".br") rootreal fd else (None, w) in
        match br with
        | Some (fd1, st1) => (Some (bs "br"), fd1, st1, w1)
        | None =>
            let '(gz, w2) := if accepts_encoding ae (bs "gzip")
                             then try_precompressed w1 resolved (bs ".gz") rootreal fd else (None, w1) in
            match gz with
            | Some (fd2, st2) => (Some (bs "gzip"), fd2, st2, w2)
            | None => (None, fd, st, w2)
            end
        end
    end.

(** Conditional requests (RFC 7232). *)
Definition not_modified (req : request) (etag : list Z) (st : stat) : bool :=
  match req_header_copy req (bs "If-None-Match") 256 with
  | Some h => etag_matches h etag
  | None =>
      match req_header_copy req (bs "If-Modified-Since") 256 with
      | Some h => match fs_strptime F h with
                  | Some ims => negb (ims =? -1) && (st_mtime st <=? ims)
                  | None => false
                  end
      | None => false
      end
  end.

(** [strstr(hay, needle) != NULL]. *)
Fixpoint has_sub (hay needle : list Z) : bool :=
  bool_decide (take (length needle) hay = needle) ||
  match hay with [] => false | _ :: t => has_sub t needle end.

(** If-Range: is the Range header to be honoured? *)
Definition range_honored (req : request) (etag : list Z) (st : stat) : bool :=
  match req_header_copy req (bs "If-Range") 256 with
  | None => true
  | Some ir =>
      if (chr ir =? 34) || bool_decide (take 2 ir = bs "W/") then has_sub ir etag
      else match fs_strptime F ir with
           | Some d => negb (d =? -1) && (st_mtime st <=? d)
           | None => false
           end
  end.

(** What the Range header comes to: an early answer, a range, or the whole file. *)
Inductive range_choice := RFinal (rc : Z) (res : response) | RRange (start len : Z) | RWhole.

Definition res_416 (res : response) (total : Z) : response :=
  let r1 := portico_res_header res (bs "Content-Range") (bs "bytes */" ++ dec_string total) in
  let r2 := portico_res_header r1 (bs "Accept-Ranges") (bs "bytes") in
  mk_res 416 (res_headers r2) (res_body r2) (res_keep_alive r2) (content_type_set r2) false
    (file_fd r2) (file_offset r2) (file_size r2) (head_only r2).

Definition choose_range (malloc_ok : bool) (res : response) (req : request) (fd : Z) (st : stat)
    (resolved etag lastmod : list Z) (is_head : bool) : range_choice :=
  match req_header_copy req (bs "Range") 256 with
  | None => RWhole
  | Some h =>
      if negb (range_honored req etag st) then RWhole
      else if negb is_head && bool_decide (44 ∈ h) then
        let '(mr, r) := serve_byteranges malloc_ok res fd h (st_size st) (content_type_for resolved) etag lastmod in
        if mr =? 0 then RFinal 0 r
        else if mr =? -1 then RFinal (-1) (res_416 r (st_size st))
        else RWhole
      else
        let '(rr, s, l) := parse_range h (st_size st) in
        if rr =? 0 then RRange s l
        else if rr =? 1 then RFinal (-1) (res_416 res (st_size st))
        else RWhole
  end.

Definition opt_header (r : response) (name : list Z) (v : option (list Z)) : response :=
  match v with Some x => portico_res_header r name x | None => r end.

(** The final response for the file: headers, status, and the file or a HEAD. *)
Definition file_response (opts : static_opts) (res : response) (ctype etag lastmod : list Z)
    (enc : option (list Z)) (rng : option (Z * Z)) (total fd : Z) (is_head : bool) : response :=
  let '(start, length) := default (0, total) rng in
  let r1 := portico_res_header res (bs "Content-Type") ctype in
  let r2 := portico_res_header r1 (bs "Accept-Ranges") (bs "bytes") in
  let r3 := portico_res_header r2 (bs "ETag") etag in
  let r4 := portico_res_header r3 (bs "Last-Modified") lastmod in
  let r5 := opt_header r4 (bs "Content-Encoding") enc in
  let r6 := if o_precompressed opts then portico_res_header r5 (bs "Vary") (bs "Accept-Encoding") else r5 in
  let r7 := opt_header r6 (bs "Cache-Control") (o_cache_control opts) in
  let r8 := match rng with
            | Some _ => portico_res_header r7 (bs "Content-Range")
                          (bs "bytes " ++ dec_string start ++ bs "-" ++ dec_string (start + length - 1) ++
                           bs "/" ++ dec_string total)
            | None => r7
            end in
  let code := match rng with Some _ => 206 | None => 200 end in
  if is_head
  then mk_res code (res_headers r8) (res_body r8) (res_keep_alive r8) (content_type_set r8) false
         (file_fd r8) (file_offset r8) length true
  else mk_res code (res_headers r8) (res_body r8) (res_keep_alive r8) (content_type_set r8) true
         fd start length (head_only r8).

Definition no_file (r : response) (code : Z) : response :=
  mk_res code (res_headers r) (res_body r) (res_keep_alive r) (content_type_set r) false
    (file_fd r) (file_offset r) (file_size r) (head_only r).

(** [portico_res_static]. *)
Definition portico_res_static (malloc_ok : bool) (w : fsw) (res : response) (req : request)
    (opts : static_opts) : Z * response * fsw :=
  match strip_prefix opts (path req) with
  | None => (-1, portico_res_status res 404, w)
  | Some upath =>
      match resolve_target opts req upath with
      | inl code => (-1, portico_res_status res code, w)
      | inr (rootreal, resolved0) =>
          let '(t0, w0) := open_target opts req w rootreal resolved0 in
          let '(t1, w1) := check_file t0 w0 in
          match t1 with
          | TError code => (-1, portico_res_status res code, w1)
          | TRedirect loc => (0, no_file (portico_res_header res (bs "Location") loc) 301, w1)
          | TFile fd0 st0 resolved =>
              let ctype := content_type_for resolved in
              let '(enc, fd, st, w2) := negotiate opts req w1 rootreal resolved fd0 st0 in
              let etag := file_etag st 64 in
              let lastmod := http_date (st_mtime st) 40 in
              if not_modified req etag st then
                let r1 := portico_res_header res (bs "ETag") etag in
                let r2 := portico_res_header r1 (bs "Last-Modified") lastmod in
                let r3 := opt_header r2 (bs "Cache-Control") (o_cache_control opts) in
                (0, no_file r3 304, fs_close w2 fd)
              else
                let is_head := portico_req_method_is req (bs "HEAD") in
                let finish rng :=
                  (0, file_response opts res ctype etag lastmod enc rng (st_size st) fd is_head,
                   if is_head then fs_close w2 fd else w2) in
                match choose_range malloc_ok res req fd st resolved etag lastmod is_head with
                | RFinal rc r => (rc, r, fs_close w2 fd)
                | RRange s l => finish (Some (s, l))
                | RWhole => finish None
                end
          end
      end
  end.

Definition portico_res_file (malloc_ok : bool) (w : fsw) (res : response) (req : request)
    (docroot : list Z) : Z * response * fsw :=
  portico_res_static malloc_ok w res req (mk_opts docroot None None false None None false).

(** ** Virtual hosts *)

Record vhost := mk_vhost { vh_host : option (list Z); vh_opts : static_opts }.

(** [strchr(host, '.')]. *)
Fixpoint after_first (c : Z) (s : list Z) : option (list Z) :=
  match s with
  | [] => None
  | x :: t => if x =? c then Some t else after_first c t
  end.

Definition vhost_match (pat host : list Z) : bool :=
  match pat with
  | 42 :: 46 :: p => match after_first 46 host with
                     | Some d => ws_strcasecmp p d =? 0
                     | None => false
                     end
  | _ => ws_strcasecmp pat host =? 0
  end.

(** The text before the last [c]. *)
Fixpoint before_last (c : Z) (s : list Z) : list Z :=
  match s with
  | [] => []
  | x :: t => if (x =? c) && negb (bool_decide (c ∈ t)) then [] else x :: before_last c t
  end.

(** The host of the Host header, with a numeric port dropped. *)
Definition request_host (req : request) : list Z :=
  match portico_req_header req (bs "Host") with
  | None => []
  | Some hv =>
      if (zlen hv =? 0) || (256 <=? zlen hv) then []
      else match after_last 58 hv with
           | Some (c :: p) => if forallb is_digit (c :: p) then before_last 58 hv else hv
           | _ => hv
           end
  end.

(** The first matching entry, else the first default one. *)
Fixpoint find_vhost (vs : list vhost) (host : list Z) (def : option vhost) : option vhost :=
  match vs with
  | [] => def
  | v :: t =>
      match vh_host v with
      | None => find_vhost t host (match def with Some d => Some d | None => Some v end)
      | Some pat => if negb (zlen host =? 0) && vhost_match pat host then Some v
                    else find_vhost t host def
      end
  end.

Definition portico_res_vhost (malloc_ok : bool) (w : fsw) (res : response) (req : request)
    (vhosts : list vhost) : Z * response * fsw :=
  match find_vhost vhosts (request_host req) None with
  | None => (-1, portico_res_status res 404, w)
  | Some v => portico_res_static malloc_ok w res req (vh_opts v)
  end.

(** ** The router *)

(** The live table and the retired one; [None] is NULL. *)
Record router := mk_router { current : option (list vhost); retired : option (list vhost) }.
Definition portico_router_create : router := mk_router None None.
Definition portico_router_set (malloc_ok : bool) (r : router) (vhosts : list vhost) : router :=
  if malloc_ok then mk_router (Some vhosts) (current r) else r.
Definition portico_router_handle (malloc_ok : bool) (w : fsw) (r : router) (req : request)
    (res : response) : Z * response * fsw :=
  match current r with
  | None | Some [] => (0, portico_res_text malloc_ok res 503 (bs "no sites configured" ++ [10]), w)
  | Some vhosts =>
      let '(_, res', w') := portico_res_vhost malloc_ok w res req vhosts in (0, res', w')
  end.

End Static.
