(* ===== verification/StaticSpec.v ===== *)
(** * Properties of static file serving (HttpStatic)

    Byte ranges, percent decoding, docroot confinement, descriptor accounting, the
    multipart buffer and virtual-host selection. *)
From Stdlib Require Import ZArith Lia.
From stdpp Require Import base numbers list strings.
From S2P Require Import Prelude Cstr HttpRequest HttpResponse HttpStatic.
Open Scope Z_scope.

Example http_date_rfc : http_date 784111777 40 = bs "Sun, 06 Nov 1994 08:49:37 GMT".
Proof. vm_compute. reflexivity. Qed.

(** ** Byte ranges *)

Lemma range_result_sound size s e rc st ln :
  0 <= s → e <= size - 1 → range_result size s e = (rc, st, ln) →
  (rc = 0 ∧ st = s ∧ ln = e - s + 1 ∧ 0 <= st ∧ 1 <= ln ∧ st + ln <= size) ∨ (rc = 1 ∧ (size = 0 ∨ size <= s ∨ e < s)).
Proof. intros Hs He. unfold range_result. split_if; intros [= <- <- <-]; zbool; [right | left]; lia. Qed.

Lemma parse_range_sound v size rc s l :
  0 <= size → parse_range v size = (rc, s, l) →
  (rc = 0 ∧ 0 <= s ∧ 1 <= l ∧ s + l <= size) ∨ rc = 1 ∨ rc = -1.
Proof.
  intros Hsz. unfold parse_range.
  repeat first [ case_match | progress (intros [= <- <- <-]) | progress zbool ]; simplify_eq; try lia.
  all: intros H'; apply range_result_sound in H'; zbool; try lia; try (split_ifs; zbool; lia).
Qed.

(** Digits followed by something that is not a digit. *)
Lemma take_digits_app ds rest acc :
  forallb is_digit ds = true → (match rest with c :: _ => is_digit c = false | [] => True end) →
  take_digits (ds ++ rest) acc = (dec_value ds acc, rest).
Proof.
  revert acc. induction ds as [ | c t IH]; intros acc Hd Hr; cbn.
  - destruct rest as [ | c r]; cbn; [done | by rewrite Hr].
  - cbn in Hd. apply andb_true_iff in Hd as [Hc Ht]. rewrite Hc. rewrite IH by done. done.
Qed.

Lemma dec_digits_all n : 0 <= n → ∃ c t, dec_string n = c :: t ∧ forallb is_digit (c :: t) = true.
Proof.
  intros Hn. pose proof (dec_string_pos n) as Hp. pose proof (dec_string_digits n Hn) as Hd.
  destruct (dec_string n) as [ | c t]; [done | eauto].
Qed.

Lemma is_digit_facts c : is_digit c = true → isspace c = false ∧ c ≠ 45 ∧ c ≠ 43 ∧ c ≠ 44.
Proof.
  unfold is_digit, isspace. rewrite andb_true_iff, orb_false_iff, andb_false_iff, !Z.leb_le, !Z.leb_gt, Z.eqb_neq. lia.
Qed.

Lemma strtoll_dec n rest :
  0 <= n < 2 ^ 63 → (match rest with c :: _ => is_digit c = false | [] => True end) →
  strtoll (dec_string n ++ rest) = (n, rest).
Proof.
  intros Hn Hr. destruct (dec_digits_all n ltac:(lia)) as (c & t & He & Hd). pose proof Hd as Hd'.
  cbn in Hd'. apply andb_true_iff in Hd' as [Hc _]. destruct (is_digit_facts c Hc) as (H1 & H2 & H3 & _).
  unfold strtoll. rewrite He. cbn [app drop_spaces]. rewrite H1.
  assert (Hm : ∀ u, match c :: u with 45 :: v => (true, v) | 43 :: v => (false, v) | _ => (false, c :: u) end = (false, c :: u)).
  { intros u. destruct c as [ | p | p]; try done.
    do 6 (destruct p; try done). }
  rewrite Hm, Hc. change (c :: t ++ rest) with ((c :: t) ++ rest). rewrite take_digits_app by done.
  rewrite <- He, dec_string_value by lia. f_equal. unfold LLONG_MAX. lia.
Qed.

Lemma split_dash_app a b : 45 ∉ a → split_dash (a ++ 45 :: b) = Some (a, b).
Proof.
  induction a as [ | c t IH]; intros H; cbn; [done |]. apply not_elem_of_cons in H as [Hc Ht].
  rewrite (proj2 (Z.eqb_neq c 45)) by done. by rewrite IH.
Qed.

Lemma digits_not_in l x : forallb is_digit l = true → is_digit x = false → x ∉ l.
Proof.
  intros H Hx. induction l as [ | c t IH]; [by intros ?%elem_of_nil |]. cbn in H.
  apply andb_true_iff in H as [Hc Ht]. apply not_elem_of_cons. split; [ | by apply IH].
  intros ->. congruence.
Qed.

Lemma range_result_if size s e :
  0 <= s → range_result size s e = if (s <? size) && (s <=? e) then (0, s, e - s + 1) else (1, 0, 0).
Proof.
  intros Hs. unfold range_result.
  destruct (Z.eqb_spec size 0), (Z.leb_spec size s), (Z.ltb_spec s size), (Z.ltb_spec e s), (Z.leb_spec s e);
    cbn; done || lia.
Qed.

Lemma bytes_eq_prefix v :
  take 6 (bs "bytes=" ++ v) = bs "bytes=" ∧ drop 6 (bs "bytes=" ++ v) = v.
Proof. done. Qed.

(** Byte ranges: whatever the header says, a satisfiable range lies inside the
    file and is not empty; and the three well-formed forms mean what RFC 7233 says:
    "a-b" is the bytes from a to the smaller of b and the last one, "a-" is the rest
    from a, "-n" is the last n bytes (the whole file if it is shorter), each
    unsatisfiable (416) exactly when it starts beyond the end or is empty. *)
Theorem parse_range_correct size a b n :
  0 <= size → 0 <= a < 2 ^ 63 → 0 <= b < 2 ^ 63 → 0 < n < 2 ^ 63 →
  (∀ v rc s l, parse_range v size = (rc, s, l) →
     (rc = 0 ∧ 0 <= s ∧ 1 <= l ∧ s + l <= size) ∨ rc = 1 ∨ rc = -1) ∧
  parse_range (bs "bytes=" ++ dec_string a ++ 45 :: dec_string b) size =
    (if (a <? size) && (a <=? b) then (0, a, Z.min b (size - 1) - a + 1) else (1, 0, 0)) ∧
  parse_range (bs "bytes=" ++ dec_string a ++ [45]) size =
    (if a <? size then (0, a, size - a) else (1, 0, 0)) ∧
  parse_range (bs "bytes=" ++ 45 :: dec_string n) size =
    (if 0 <? size then (0, size - Z.min n size, Z.min n size) else (1, 0, 0)).
Proof.
  intros Hsz Ha Hb Hn. split; [intros v rc s l; by apply parse_range_sound |].
  assert (Hcomma : ∀ x, 0 <= x → (44 ∉ dec_string x) ∧ (45 ∉ dec_string x)).
  { intros x Hx. split; (apply digits_not_in; [by apply dec_string_digits | done]). }
  assert (Hnum : ∀ x, 0 <= x < 2 ^ 63 → (strtoll (dec_string x)) = (x, [])).
  { intros x Hx. rewrite <- (app_nil_r (dec_string x)) at 1. by rewrite strtoll_dec. }
  assert (Hcons : ∀ x, 0 <= x → ∃ c t, dec_string x = c :: t).
  { intros x Hx. destruct (dec_digits_all x Hx) as (c & t & ? & _). eauto. }
  unfold parse_range. destruct (Hcomma a ltac:(lia)) as [Ca Da]. destruct (Hcomma b ltac:(lia)) as [Cb _].
  destruct (Hcomma n ltac:(lia)) as [Cn _].
  destruct (Hcons a ltac:(lia)) as (ca & ta & Ea). destruct (Hcons b ltac:(lia)) as (cb & tb & Eb).
  destruct (Hcons n ltac:(lia)) as (cn & tn & En).
  split_and!.
  all: match goal with |- context [take 6 (bs "bytes=" ++ ?v)] => destruct (bytes_eq_prefix v) as [-> ->] end.
  all: rewrite (bool_decide_true (bs "bytes=" = bs "bytes=")) by done; cbn [negb].
  - rewrite bool_decide_false by (by rewrite not_elem_of_app, not_elem_of_cons).
    rewrite split_dash_app by done. rewrite strtoll_dec by done. rewrite (Hnum b) by done. rewrite Ea, Eb.
    rewrite bool_decide_true by done. cbn [negb orb bool_decide].
    rewrite (proj2 (Z.ltb_ge a 0)), (proj2 (Z.ltb_ge b 0)) by lia. cbn [orb].
    rewrite range_result_if by lia.
    destruct (Z.leb_spec size b), (Z.ltb_spec a size), (Z.leb_spec a b), (Z.leb_spec a (size - 1));
      cbn [andb]; try done; try lia; do 2 f_equal; lia.
  - rewrite bool_decide_false by (rewrite not_elem_of_app, not_elem_of_cons; split; [done | split; [done | apply not_elem_of_nil]]).
    rewrite split_dash_app by done. rewrite strtoll_dec by done. rewrite Ea.
    rewrite bool_decide_true by done. cbn [negb orb].
    rewrite (proj2 (Z.ltb_ge a 0)) by lia. rewrite range_result_if by lia.
    destruct (Z.ltb_spec a size), (Z.leb_spec a (size - 1)); cbn [andb]; try done; try lia; do 2 f_equal; lia.
  - rewrite bool_decide_false by (by rewrite not_elem_of_cons). cbn [split_dash Z.eqb Pos.eqb].
    rewrite (Hnum n) by lia. rewrite En. rewrite bool_decide_false by done. rewrite bool_decide_true by done.
    cbn [negb orb]. rewrite (proj2 (Z.leb_gt n 0)) by lia.
    rewrite range_result_if by (split_if; zbool; lia).
    destruct (Z.ltb_spec size n), (Z.ltb_spec 0 size); cbn [andb]; split_ifs; zbool;
      rewrite ?andb_true_iff, ?andb_false_iff in *; zbool; try lia; try done; repeat f_equal; lia.
Qed.

Lemma parse_range_correct_witness : parse_range (bs "bytes=2-9") 5 = (0, 2, 3).
Proof.
  destruct (parse_range_correct 5 2 9 1) as (_ & H & _); [lia | lia | lia | lia |].
  change (bs "bytes=2-9") with (bs "bytes=" ++ dec_string 2 ++ 45 :: dec_string 9). rewrite H. reflexivity.
Defined.

(** ** Docroot confinement and descriptors *)

(** A path inside a directory: the directory itself, or below it. *)
Definition inside (root p : list Z) : Prop := p = root ∨ ∃ t, p = root ++ 47 :: t.

Lemma within_inside p root : within p root = true → inside root p.
Proof.
  unfold within. rewrite andb_true_iff, bool_decide_eq_true. intros [H1 H2].
  rewrite <- (take_drop (length root) p), H1. destruct (drop (length root) p) as [ | c t]; [left; by rewrite app_nil_r |].
  apply Z.eqb_eq in H2 as ->. right. by exists t.
Qed.

(** Every path opened is inside the root; the descriptors opened are those closed and
    those still held. *)
Definition good (root : list Z) (w : fsw) (held : list Z) : Prop :=
  Forall (λ pf, inside root pf.1) (f_opened w) ∧ (f_opened w).*2 ≡ₚ held ++ f_closed w.

Lemma close_good root w fd held : good root w (fd :: held) → good root (fs_close w fd) held.
Proof.
  intros [H1 H2]. split; [done |]. cbn. rewrite H2, app_assoc, (comm (++) (held ++ f_closed w)). done.
Qed.

Section Confine.
Context (F : fs_env).

Lemma do_open_good root w held path r w1 :
  good root w held → inside root path → do_open F w path = (r, w1) →
  match r with Opened fd => good root w1 (fd :: held) | _ => w1 = w end.
Proof.
  intros [H1 H2] Hp. unfold do_open. destruct (fs_open F _ path) as [fd | | ]; intros [= <- <-]; try done.
  split; cbn.
  - apply Forall_app. split; [done |]. by apply Forall_singleton.
  - rewrite fmap_app, H2. cbn. by rewrite Permutation_app_comm.
Qed.

(** What the stages of [portico_res_static] hand on. *)
Definition target_good (root : list Z) (t : target) (w : fsw) : Prop :=
  match t with
  | TFile fd st p => good root w [fd] ∧ fs_stat F fd = Some st
  | _ => good root w []
  end.

Lemma open_index_good opts root resolved w t w' :
  good root w [] → open_index F opts w root resolved = (t, w') → target_good root t w'.
Proof.
  intros Hg. unfold open_index. split_if; [by intros [= <- <-] |]. split_if; [by intros [= <- <-] |].
  destruct (fs_realpath F _) as [r2 | ]; [ | by intros [= <- <-]].
  destruct (within r2 root) eqn:EW; cbn [negb]; [ | by intros [= <- <-]].
  destruct (do_open F w r2) as [r w1] eqn:EO.
  apply (do_open_good root) with (held := []) in EO; [ | done | by apply within_inside].
  destruct r as [fd | | ]; [ | subst; by intros [= <- <-]..].
  destruct (fs_stat F fd) as [st | ] eqn:ES; [ | intros [= <- <-]; by apply close_good].
  destruct (st_isreg st) eqn:ER; cbn [negb]; intros [= <- <-]; [done | by apply close_good].
Qed.

Lemma open_target_good opts req root resolved w t w' :
  good root w [] → open_target F opts req w root resolved = (t, w') → target_good root t w'.
Proof.
  intros Hg. unfold open_target. destruct (within resolved root) eqn:EW; cbn [negb]; [ | by intros [= <- <-]].
  destruct (do_open F w resolved) as [r w1] eqn:EO.
  apply (do_open_good root) with (held := []) in EO; [ | done | by apply within_inside].
  destruct r as [fd | | ]; [ | subst; by intros [= <- <-]..].
  destruct (fs_stat F fd) as [st | ] eqn:ES; [ | intros [= <- <-]; by apply close_good].
  destruct (st_isdir st).
  - split_if; [intros [= <- <-]; by apply close_good | apply open_index_good; by apply close_good].
  - by intros [= <- <-].
Qed.

Lemma check_file_good root t w t' w' :
  target_good root t w → check_file t w = (t', w') →
  target_good root t' w' ∧ (∀ fd st p, t' = TFile fd st p → st_isreg st = true).
Proof.
  unfold check_file. intros H. destruct t as [c | l | fd st p].
  - intros [= <- <-]. by split.
  - intros [= <- <-]. by split.
  - destruct H as [H HS]. destruct (st_isreg st) eqn:ER; cbn [negb]; [split_if |]; intros [= <- <-];
      (split; [try (by apply close_good); try done | try done]); intros; by simplify_eq.
Qed.

Lemma try_precompressed_good root base suffix fd w r w' :
  good root w [fd] → try_precompressed F w base suffix root fd = (r, w') →
  match r with
  | Some (nfd, ns) => good root w' [nfd] ∧ fs_stat F nfd = Some ns ∧ st_isreg ns = true
  | None => good root w' [fd]
  end.
Proof.
  intros Hg. unfold try_precompressed. split_if; [by intros [= <- <-] |].
  destruct (fs_realpath F _) as [vr | ]; [ | by intros [= <- <-]].
  destruct (within vr root) eqn:EW; cbn [negb]; [ | by intros [= <- <-]].
  destruct (do_open F w vr) as [o w1] eqn:EO.
  apply (do_open_good root) with (held := [fd]) in EO; [ | done | by apply within_inside].
  destruct o as [nfd | | ]; [ | subst; by intros [= <- <-]..].
  destruct (fs_stat F nfd) as [ns | ] eqn:ES; [ | intros [= <- <-]; by apply close_good].
  destruct (st_isreg ns) eqn:ER; cbn [negb]; intros [= <- <-]; [ | by apply close_good].
  split; [ | done]. apply close_good. destruct EO as [H1 H2]. split; [done |]. rewrite H2.
  by rewrite (Permutation_swap fd nfd).
Qed.

Lemma negotiate_good opts req root resolved fd st w enc fd' st' w' :
  good root w [fd] → fs_stat F fd = Some st → st_isreg st = true →
  negotiate F opts req w root resolved fd st = (enc, fd', st', w') →
  good root w' [fd'] ∧ fs_stat F fd' = Some st' ∧ st_isreg st' = true.
Proof.
  intros Hg HS HR. unfold negotiate. split_if; [by intros [= <- <- <- <-] |].
  destruct (req_header_copy req _ _) as [ae | ]; [ | by intros [= <- <- <- <-]].
  destruct (if accepts_encoding ae (bs "br") then _ else _) as [br w1] eqn:E1.
  assert (H1 : match br with Some (nfd, ns) => good root w1 [nfd] ∧ fs_stat F nfd = Some ns ∧ st_isreg ns = true
               | None => good root w1 [fd] end).
  { destruct (accepts_encoding ae (bs "br")); [by eapply try_precompressed_good | by simplify_eq]. }
  destruct br as [[f1 s1] | ]; [by intros [= <- <- <- <-] |].
  destruct (if accepts_encoding ae (bs "gzip") then _ else _) as [gz w2] eqn:E2.
  assert (H2 : match gz with Some (nfd, ns) => good root w2 [nfd] ∧ fs_stat F nfd = Some ns ∧ st_isreg ns = true
               | None => good root w2 [fd] end).
  { destruct (accepts_encoding ae (bs "gzip")); [by eapply try_precompressed_good | by simplify_eq]. }
  destruct gz as [[f2 s2] | ]; by intros [= <- <- <- <-].
Qed.

(** Range handling hands out no file of its own. *)
Lemma serve_byteranges_file ok res fd h total ct etag lm rc r :
  is_file res = false → serve_byteranges F ok res fd h total ct etag lm = (rc, r) → is_file r = false.
Proof.
  intros Hf. unfold serve_byteranges.
  repeat first [case_match | progress (intros [= <- <-])]; try done.
Qed.

Lemma choose_range_file ok res req fd st resolved etag lm hd rc r :
  is_file res = false → choose_range F ok res req fd st resolved etag lm hd = RFinal rc r → is_file r = false.
Proof.
  intros Hf. unfold choose_range. destruct (req_header_copy req _ _); [ | done]. split_if; [done |].
  destruct (negb hd && _).
  - destruct (serve_byteranges F _ _ _ _ _ _ _ _) as [mr r0] eqn:EB. split_ifs; try done; intros [= <- <-]; [ | done].
    by eapply serve_byteranges_file.
  - destruct (parse_range _ _) as [[rr s0] l0]. split_ifs; try done. by intros [= <- <-].
Qed.

Lemma choose_range_bounds ok res req fd st resolved etag lm hd s l :
  0 <= st_size st → choose_range F ok res req fd st resolved etag lm hd = RRange s l →
  0 <= s ∧ 1 <= l ∧ s + l <= st_size st.
Proof.
  intros Hs. unfold choose_range. destruct (req_header_copy req _ _); [ | done]. split_if; [done |].
  destruct (negb hd && _).
  - destruct (serve_byteranges F _ _ _ _ _ _ _ _) as [mr r0] eqn:EB. split_ifs; done.
  - destruct (parse_range _ _) as [[rr s1] l1] eqn:EP. split_ifs; try done. intros [= <- <-]. zbool. subst.
    apply parse_range_sound in EP; [ | done]. lia.
Qed.

(** What [portico_res_static] leaves behind. *)
Definition static_outcome (root : list Z) (res : response) (w : fsw) : Prop :=
  if is_file res then
    good root w [file_fd res] ∧
    ∃ st, fs_stat F (file_fd res) = Some st ∧ st_isreg st = true ∧
          (0 <= st_size st → 0 <= file_offset res ∧ 0 <= file_size res ∧
                             file_offset res + file_size res <= st_size st)
  else good root w [].

Lemma file_response_fields opts res ct etag lm enc rng total fd hd :
  let r := file_response opts res ct etag lm enc rng total fd hd in
  is_file r = negb hd ∧
  (hd = false → file_fd r = fd ∧ file_offset r = (default (0, total) rng).1 ∧
                file_size r = (default (0, total) rng).2).
Proof. unfold file_response. destruct (default (0, total) rng) as [s l]. by destruct hd. Qed.

Lemma res_static_outcome ok res req opts rc res' w' :
  is_file res = false → portico_res_static F ok (mk_fsw [] []) res req opts = (rc, res', w') →
  match fs_realpath F (o_docroot opts) with
  | Some root => static_outcome root res' w'
  | None => f_opened w' = [] ∧ f_closed w' = [] ∧ is_file res' = false
  end.
Proof.
  intros Hf. unfold portico_res_static.
  assert (Hnone : ∀ r, is_file r = false →
    match fs_realpath F (o_docroot opts) with
    | Some root => static_outcome root r (mk_fsw [] [])
    | None => f_opened (mk_fsw [] []) = [] ∧ f_closed (mk_fsw [] []) = [] ∧ is_file r = false
    end).
  { intros r Hr. destruct (fs_realpath F _); [ | done]. unfold static_outcome. rewrite Hr. by split. }
  destruct (strip_prefix opts (path req)) as [upath | ]; [ | intros [= <- <- <-]; by apply Hnone].
  destruct (resolve_target F opts req upath) as [code | [root resolved0]] eqn:ER;
    [intros [= <- <- <-]; by apply Hnone |].
  assert (fs_realpath F (o_docroot opts) = Some root) as ->.
  { revert ER. unfold resolve_target. repeat case_match; try done; intros; by simplify_eq. }
  destruct (open_target F opts req (mk_fsw [] []) root resolved0) as [t0 w0] eqn:EO.
  apply open_target_good in EO; [ | by split].
  destruct (check_file t0 w0) as [t1 w1] eqn:EC. apply (check_file_good root) in EC as [Hg Hreg]; [ | done].
  destruct t1 as [code | loc | fd0 st0 resolved].
  - intros [= <- <- <-]. unfold static_outcome. cbn. by rewrite Hf.
  - intros [= <- <- <-]. done.
  - destruct Hg as [Hg HS]. specialize (Hreg _ _ _ eq_refl).
    destruct (negotiate F opts req w1 root resolved fd0 st0) as [[[enc fd] st] w2] eqn:EN.
    apply negotiate_good in EN as (Hg2 & HS2 & HR2); try done.
    destruct (not_modified F req _ st); [intros [= <- <- <-]; by apply close_good |].
    set (hd := portico_req_method_is req _).
    assert (Hfin : ∀ rng r w, (match rng with Some (s, l) => 0 <= st_size st → 0 <= s ∧ 1 <= l ∧ s + l <= st_size st | None => True end) →
      r = file_response opts res (content_type_for resolved) (file_etag st 64) (http_date (st_mtime st) 40) enc rng (st_size st) fd hd →
      w = (if hd then fs_close w2 fd else w2) → static_outcome root r w).
    { intros rng r w Hrng -> ->. unfold static_outcome.
      destruct (file_response_fields opts res (content_type_for resolved) (file_etag st 64)
        (http_date (st_mtime st) 40) enc rng (st_size st) fd hd) as [-> HF].
      destruct hd; cbn [negb]; [by apply close_good |]. destruct (HF eq_refl) as (-> & -> & ->).
      split; [done |]. exists st. split; [done |]. split; [done |]. intros Hsz.
      destruct rng as [[s l] | ]; cbn; [specialize (Hrng Hsz); lia | lia]. }
    destruct (choose_range F ok res req fd st resolved _ _ hd) as [rc0 r0 | s l | ] eqn:ECh.
    + intros [= <- <- <-]. apply choose_range_file in ECh; [ | done]. unfold static_outcome. rewrite ECh.
      by apply close_good.
    + intros [= <- <- <-]. eapply (Hfin (Some (s, l))); try done. intros. by eapply choose_range_bounds.
    + intros [= <- <- <-]. by eapply (Hfin None).
Qed.
End Confine.

(** C11. Docroot confinement: whatever the request and the file system, every path that
    serving a static file opens is the real docroot or lies below it, every descriptor
    opened is closed exactly once or is the one handed to the response, and a response
    that carries a file serves a range that lies inside that regular file. *)
Theorem docroot_confinement F ok res req opts rc res' w' root :
  is_file res = false → fs_realpath F (o_docroot opts) = Some root →
  portico_res_static F ok (mk_fsw [] []) res req opts = (rc, res', w') →
  (∀ p fd, (p, fd) ∈ f_opened w' → p = root ∨ ∃ t, p = root ++ 47 :: t) ∧
  (f_opened w').*2 ≡ₚ (if is_file res' then [file_fd res'] else []) ++ f_closed w' ∧
  (is_file res' = true →
     ∃ st, fs_stat F (file_fd res') = Some st ∧ st_isreg st = true ∧
           (0 <= st_size st → 0 <= file_offset res' ∧ 0 <= file_size res' ∧
                              file_offset res' + file_size res' <= st_size st)).
Proof.
  intros Hf Hr H. apply res_static_outcome in H; [ | done]. rewrite Hr in H. unfold static_outcome in H.
  assert (Hin : ∀ held, good root w' held → ∀ p fd, (p, fd) ∈ f_opened w' → p = root ∨ ∃ t, p = root ++ 47 :: t).
  { intros held [HF _] p fd Hp. rewrite Forall_forall in HF. by apply (HF _ Hp). }
  destruct (is_file res').
  - destruct H as [Hg Hst]. split; [by eapply Hin |]. split; [apply Hg | done].
  - split; [by eapply Hin |]. split; [apply H | done].
Qed.

(** A docroot with one file behind an encoded path, and a client that asks for a range. *)
Definition demo_fs : fs_env :=
  mk_fs (λ p, if bool_decide (p = bs "/srv/www/a.txt") then Some (bs "/srv/www/a.txt")
              else if bool_decide (p = bs "/srv/www") then Some (bs "/srv/www") else None)
    (λ _ _, Opened 5) (λ _, Some (mk_stat false true 10 0 0)) (λ _ _ _, None) (λ _, None).
Definition demo_req : request :=
  mk_request (bs "GET") (bs "/%61.txt") None 1 [mk_header (bs "Range") (bs "bytes=2-4")] [] true [].

Lemma docroot_confinement_witness :
  ∃ res' w', portico_res_static demo_fs true (mk_fsw [] []) (res_init true) demo_req
               (mk_opts (bs "/srv/www") None None false None None false) = (0, res', w') ∧
             is_file res' = true ∧ status res' = 206 ∧ file_offset res' = 2 ∧ file_size res' = 3 ∧
             ∀ p fd, (p, fd) ∈ f_opened w' → p = bs "/srv/www" ∨ ∃ t, p = bs "/srv/www" ++ 47 :: t.
Proof.
  destruct (portico_res_static _ _ _ _ _ _) as [[rc res'] w'] eqn:E. exists res', w'.
  pose proof (docroot_confinement demo_fs true (res_init true) demo_req
    (mk_opts (bs "/srv/www") None None false None None false) rc res' w' (bs "/srv/www")
    eq_refl eq_refl E) as (H & _).
  vm_compute in E. injection E as <- <- <-. split_and!; try (vm_compute; reflexivity). exact H.
Defined.

(** ** Percent decoding *)

Definition hex_upper (n : Z) : Z := if n <? 10 then 48 + n else 55 + n.

(** An encoder that keeps the characters [lit] as they are and escapes the others. *)
Definition encode_byte (lit : Z → bool) (b : Z) : list Z :=
  if lit b then [b] else [37; hex_upper (b / 16); hex_upper (b mod 16)].
Definition percent_encode (lit : Z → bool) (p : list Z) : list Z := p ≫= encode_byte lit.

Lemma hex_val_upper n : 0 <= n < 16 → hex_val (hex_upper n) = Some n.
Proof.
  intros H. unfold hex_upper, hex_val. split_if; zbool.
  - rewrite (proj2 (Z.leb_le 48 _)), (proj2 (Z.leb_le _ 57)) by lia. cbn. f_equal. lia.
  - rewrite (proj2 (Z.leb_gt (55 + n) 57)), andb_false_r by lia.
    rewrite (proj2 (Z.leb_le 65 _)), (proj2 (Z.leb_le _ 70)) by lia. cbn. f_equal. lia.
Qed.

Lemma url_decode_literal c t k : c ≠ 37 → url_decode (c :: t) (S k) = c :: url_decode t k.
Proof.
  intros Hc. cbn [url_decode]. destruct t as [ | a [ | b t']]; [done | done |].
  rewrite (proj2 (Z.eqb_neq c 37)) by done. by destruct (hex_val a), (hex_val b).
Qed.

Lemma url_decode_escape x y t k :
  0 <= x < 16 → 0 <= y < 16 →
  url_decode (37 :: hex_upper x :: hex_upper y :: t) (S k) = (16 * x + y) :: url_decode t k.
Proof.
  intros Hx Hy. cbn [url_decode]. rewrite !hex_val_upper by done. cbn. f_equal. apply u8_small. lia.
Qed.

Lemma url_decode_len s : ∀ room, (length (url_decode s room) <= room)%nat ∧ (bytes_ok s → bytes_ok (url_decode s room)).
Proof.
  induction s as [s IH] using (induction_ltof1 _ (@length Z)). unfold ltof in IH. intros [ | k].
  { split; [by destruct s | intros _; destruct s; constructor]. }
  destruct s as [ | c t]; [cbn; split; [lia | constructor] |].
  assert (Hplain : (length (c :: url_decode t k) <= S k)%nat ∧ (bytes_ok (c :: t) → bytes_ok (c :: url_decode t k))).
  { destruct (IH t ltac:(cbn; lia) k) as [H1 H2]. split; [cbn; lia |].
    intros Hb. apply Forall_cons in Hb as [Hc Ht]. apply Forall_cons. split; [done | by apply H2]. }
  cbn [url_decode]. destruct t as [ | a [ | b t']]; try exact Hplain.
  destruct (hex_val a) as [x | ]; [ | exact Hplain]. destruct (hex_val b) as [y | ]; [ | exact Hplain].
  destruct (c =? 37); [ | exact Hplain]. destruct (IH t' ltac:(cbn; lia) k) as [H1 H2]. split; [cbn; lia |].
  intros Hb. apply Forall_cons in Hb as [_ Hb]. apply Forall_cons in Hb as [_ Hb]. apply Forall_cons in Hb as [_ Hb].
  apply Forall_cons. split; [apply u8_range | by apply H2].
Qed.

Lemma url_decode_encode lit p : ∀ room,
  lit 37 = false → bytes_ok p → (length p <= room)%nat → url_decode (percent_encode lit p) room = p.
Proof.
  unfold percent_encode. induction p as [ | b t IH]; intros room Hlit Hb Hr; [by destruct room |].
  apply Forall_cons in Hb as [Hb Ht]. destruct room as [ | k]; [cbn in Hr; lia |]. cbn in Hr.
  cbn [mbind list_bind]. unfold encode_byte at 1. destruct (lit b) eqn:EL; cbn [app].
  - rewrite url_decode_literal by congruence. f_equal. apply IH; [done | done | lia].
  - unfold byte_ok in Hb. rewrite url_decode_escape by lia. rewrite IH by (done || lia). f_equal. lia.
Qed.

(** Percent decoding: any path, escaped by any encoder that escapes at least the
    percent sign, decodes to itself if it fits the buffer; and whatever the input, the
    output is shorter than the buffer (so the NUL fits) and consists of bytes. *)
Theorem url_decode_path_roundtrip lit p s cap :
  lit 37 = false → bytes_ok p → zlen p < cap → 0 < cap →
  url_decode_path (percent_encode lit p) cap = p ∧
  zlen (url_decode_path s cap) < cap ∧ (bytes_ok s → bytes_ok (url_decode_path s cap)).
Proof.
  intros Hl Hb Hp Hc. unfold url_decode_path. destruct (url_decode_len s (Z.to_nat (cap - 1))) as [H1 H2].
  split; [apply url_decode_encode; try done; unfold zlen in Hp; lia |]. split; [unfold zlen; lia | done].
Qed.

Lemma url_decode_path_roundtrip_witness :
  url_decode_path (bs "/%2E%2E/x") PATH_MAX = bs "/../x".
Proof.
  destruct (url_decode_path_roundtrip (λ c, negb ((c =? 37) || (c =? 46))) (bs "/../x") [] PATH_MAX) as (H & _).
  - reflexivity.
  - apply bs_bytes_ok.
  - vm_compute. reflexivity.
  - vm_compute. reflexivity.
  - exact H.
Defined.

(** ** The multipart buffer *)

Lemma part_head_len b ct s l t :
  zlen (part_head b ct s l t) <= zlen b + zlen ct + 112.
Proof.
  unfold part_head. rewrite !zlen_app. pose proof (dec_string_len s). pose proof (dec_string_len (s + l - 1)).
  pose proof (dec_string_len t). change (zlen (bs "--")) with 2. change (zlen CRLF) with 2.
  change (zlen (bs "Content-Type: ")) with 14. change (zlen (bs "Content-Range: bytes ")) with 21.
  change (zlen (bs "-")) with 1. change (zlen (bs "/")) with 1. lia.
Qed.

Lemma mp_body_len F fd b ct total parts body :
  mp_body F fd parts b ct total = Some body →
  zlen body <= sum_lens parts + zlen parts * (zlen b + zlen ct + 114) + zlen b + 6.
Proof.
  revert body. induction parts as [ | [s l] t IH]; intros body; cbn [mp_body].
  - intros Hb. assert (body = bs "--" ++ b ++ bs "--" ++ CRLF) as -> by congruence. rewrite !zlen_app.
    change (zlen (bs "--")) with 2. change (zlen CRLF) with 2. change (zlen (@nil (Z * Z))) with 0.
    change (sum_lens []) with 0. lia.
  - destruct (fs_pread F fd l s) as [d | ]; [ | done]. destruct (zlen d =? l) eqn:E; cbn [negb]; [ | done].
    destruct (mp_body F fd t b ct total) as [rest | ]; [ | done]. intros Hb. specialize (IH rest eq_refl). zbool.
    assert (body = part_head b ct s l total ++ d ++ CRLF ++ rest) as -> by congruence.
    rewrite !zlen_app, (zlen_cons (s, l)). pose proof (part_head_len b ct s l total). change (zlen CRLF) with 2.
    change (sum_lens ((s, l) :: t)) with (l + sum_lens t). lia.
Qed.

Lemma collect_parts_spec toks total : ∀ parts r,
  0 <= total → collect_parts toks total parts = Some r →
  Forall (λ p, 0 <= p.1 ∧ 1 <= p.2 ∧ p.1 + p.2 <= total) parts → zlen parts <= 16 →
  Forall (λ p, 0 <= p.1 ∧ 1 <= p.2 ∧ p.1 + p.2 <= total) r ∧ zlen r <= 16.
Proof.
  induction toks as [ | tok t IH]; intros parts r Ht; cbn [collect_parts]; [by intros [= <-] |].
  split_if; [done |]. destruct (parse_range _ total) as [[rc s] l] eqn:EP. intros H HF Hl.
  destruct (rc =? 0) eqn:E0; [ | by apply (IH parts)].
  destruct (_ <=? zlen parts) eqn:E1; [done |]. zbool. subst rc.
  apply parse_range_sound in EP; [ | done]. apply IH in H; [done | done | |].
  - apply Forall_app. split; [done |]. apply Forall_singleton. cbn. lia.
  - rewrite zlen_app. change (zlen [(s, l)]) with 1. unfold PORTICO_MULTIPART_MAX_RANGES in *. lia.
Qed.

(** Multi-range responses: a served multipart body holds between two and sixteen
    ranges, each inside the file, is exactly the parts with their heads and the closing
    boundary, and with its terminating NUL fits the buffer allocated for it, which is at
    most 1 MiB: the size estimate covers every head. *)
Theorem multipart_fits F ok res fd h total ct etag lm r :
  0 <= total → serve_byteranges F ok res fd h total ct etag lm = (0, r) →
  ∃ parts, 2 <= zlen parts <= 16 ∧
    Forall (λ p, 0 <= p.1 ∧ 1 <= p.2 ∧ p.1 + p.2 <= total) parts ∧
    mp_body F fd parts (mp_boundary etag) ct total = Some (res_body r) ∧
    zlen (res_body r) + 1 <= sum_lens parts + mp_overhead (zlen parts) (zlen (mp_boundary etag)) (zlen ct) ∧
    sum_lens parts + mp_overhead (zlen parts) (zlen (mp_boundary etag)) (zlen ct) <= PORTICO_MULTIPART_MAX_BYTES ∧
    status r = 206 ∧ is_file r = false.
Proof.
  intros Ht. unfold serve_byteranges. split_if; [done |]. split_if; [done |].
  destruct (collect_parts _ total []) as [parts | ] eqn:EC; [ | done].
  apply collect_parts_spec in EC as [HF Hl]; [ | done | by apply Forall_nil | done].
  split_if; [done |]. split_if; [done |]. split_if; [done |]. split_if; [done |].
  destruct (mp_body F fd parts _ ct total) as [b | ] eqn:EM; [ | done]. intros [= <-]. cbn [res_body status is_file].
  exists parts. zbool. pose proof (zlen_nonneg parts). pose proof (mp_body_len _ _ _ _ _ _ _ EM) as Hlen.
  split_and!; try done; try lia. unfold mp_overhead. pose proof (zlen_nonneg ct).
  pose proof (zlen_nonneg (mp_boundary etag)). nia.
Qed.

Lemma multipart_fits_witness :
  ∃ r, serve_byteranges
         (mk_fs (λ _, None) (λ _ _, OpenFailed) (λ _, None)
            (λ _ len off, Some (ztake len (zdrop off (bs "0123456789")))) (λ _, None))
         true (res_init true) 5 (bs "bytes=0-1, -3") 10 (bs "text/plain") (bs "e") [] = (0, r) ∧
       ∃ parts, 2 <= zlen parts <= 16 ∧
         mp_body (mk_fs (λ _, None) (λ _ _, OpenFailed) (λ _, None)
            (λ _ len off, Some (ztake len (zdrop off (bs "0123456789")))) (λ _, None))
            5 parts (mp_boundary (bs "e")) (bs "text/plain") 10 = Some (res_body r).
Proof.
  eexists. split; [vm_compute; reflexivity |].
  match goal with |- context [res_body ?r] =>
    destruct (multipart_fits (mk_fs (λ _, None) (λ _ _, OpenFailed) (λ _, None)
            (λ _ len off, Some (ztake len (zdrop off (bs "0123456789")))) (λ _, None))
         true (res_init true) 5 (bs "bytes=0-1, -3") 10 (bs "text/plain") (bs "e") [] r) as (parts & H1 & _ & H2 & _)
  end; [lia | vm_compute; reflexivity |].
  exists parts. split; [exact H1 | exact H2].
Defined.

(** ** Virtual hosts *)

(** An exact host, ignoring case, or "*." and exactly one more label. *)
Definition host_matches (pat host : list Z) : Prop :=
  if bool_decide (take 2 pat = [42; 46])
  then ∃ label d, host = label ++ 46 :: d ∧ (46 ∉ label) ∧ same_name (drop 2 pat) d
  else same_name pat host.

Lemma after_first_spec c s d :
  after_first c s = Some d ↔ ∃ l, s = l ++ c :: d ∧ (c ∉ l).
Proof.
  revert d. induction s as [ | x t IH]; intros d; cbn.
  - split; [done |]. intros ([ | ? ?] & H & _); discriminate H.
  - destruct (Z.eqb_spec x c) as [-> | Hx].
    + split; [intros [= <-]; exists []; split; [done | apply not_elem_of_nil] |].
      intros ([ | y l] & H & Hl); [cbn in H; by injection H as -> |].
      cbn in H. injection H as -> _.
      by apply not_elem_of_cons in Hl as [? _].
    + rewrite IH. split.
      * intros (l & -> & Hl). exists (x :: l). split; [done |]. by apply not_elem_of_cons.
      * intros ([ | y l] & H & Hl); [cbn in H; by injection H as ? _ |].
        cbn in H. injection H as -> ->.
        apply not_elem_of_cons in Hl as [_ Hl]. eauto.
Qed.

Lemma take2_cases (pat : list Z) :
  (∃ p, pat = 42 :: 46 :: p) ∨ take 2 pat ≠ [42; 46].
Proof.
  destruct pat as [ | a [ | b p]]; [by right | by right |].
  destruct (decide (a = 42 ∧ b = 46)) as [[-> ->] | H]; [left; eauto |]. right. cbn. intros [= -> ->]. by apply H.
Qed.

Lemma vhost_match_spec pat host :
  cstr pat → cstr host → vhost_match pat host = true ↔ host_matches pat host.
Proof.
  intros Hp Hh. unfold host_matches. destruct (take2_cases pat) as [[p ->] | Hne].
  - rewrite bool_decide_true by done. cbn [vhost_match drop].
    destruct (after_first 46 host) as [d | ] eqn:EA.
    + apply after_first_spec in EA as (l & -> & Hl). apply Forall_cons in Hp as [_ Hp]. apply Forall_cons in Hp as [_ Hp].
      apply Forall_app in Hh as [_ Hd]. apply Forall_cons in Hd as [_ Hd].
      rewrite Z.eqb_eq, strcasecmp_eq by done. split; [intros; by exists l, d |].
      intros (l' & d' & He & Hl' & Hs).
      assert (after_first 46 (l ++ 46 :: d) = Some d) as H1 by (apply after_first_spec; eauto).
      assert (after_first 46 (l ++ 46 :: d) = Some d') as H2 by (apply after_first_spec; eauto).
      rewrite H1 in H2. by injection H2 as ->.
    + split; [done |]. intros (l & d & -> & Hl & _).
      assert (after_first 46 (l ++ 46 :: d) = Some d) as H1 by (apply after_first_spec; eauto). congruence.
  - rewrite bool_decide_false by done. unfold same_name.
    assert (vhost_match pat host = (ws_strcasecmp pat host =? 0)) as ->.
    { unfold vhost_match. destruct pat as [ | a [ | b p]]; [done | by repeat case_match |].
      repeat case_match; try done; subst; by destruct Hne. }
    rewrite Z.eqb_eq. by apply strcasecmp_eq.
Qed.

Definition vhost_named (host : list Z) (v : vhost) : Prop :=
  ∃ pat, vh_host v = Some pat ∧ host ≠ [] ∧ host_matches pat host.

Definition vhosts_ok (vs : list vhost) : Prop :=
  Forall (λ v, match vh_host v with Some p => cstr p | None => True end) vs.

Lemma find_vhost_spec vs host def :
  vhosts_ok vs → cstr host →
  match find_vhost vs host def with
  | Some v =>
      (∃ l k, vs = l ++ v :: k ∧ vhost_named host v ∧ Forall (λ u, ¬ vhost_named host u) l) ∨
      (Forall (λ u, ¬ vhost_named host u) vs ∧
       (def = Some v ∨ def = None ∧ ∃ l k, vs = l ++ v :: k ∧ vh_host v = None ∧ Forall (λ u, vh_host u ≠ None) l))
  | None => Forall (λ u, ¬ vhost_named host u) vs ∧ def = None ∧ Forall (λ u, vh_host u ≠ None) vs
  end.
Proof.
  intros Hok Hh. revert def. induction vs as [ | v t IH]; intros def; cbn [find_vhost].
  - destruct def; [right; split; [by apply Forall_nil | by left] | split_and!; try done; by apply Forall_nil].
  - apply Forall_cons in Hok as [Hv Hok]. specialize (IH Hok).
    destruct (vh_host v) as [pat | ] eqn:EV.
    + assert (Hm : negb (zlen host =? 0) && vhost_match pat host = true ↔ vhost_named host v).
      { unfold vhost_named. rewrite EV, andb_true_iff, negb_true_iff, Z.eqb_neq, vhost_match_spec by done. split.
        - intros [H1 H2]. exists pat. split_and!; try done. by intros ->.
        - intros (p & [= <-] & H1 & H2). split; [ | done]. by intros ?%zlen_0_nil. }
      destruct (negb _ && _) eqn:EM.
      * left. exists [], t. split; [done |]. split; [by apply Hm | by apply Forall_nil].
      * assert (Hno : ¬ vhost_named host v) by (rewrite <- Hm; done).
        specialize (IH def). destruct (find_vhost t host def) as [u | ].
        -- destruct IH as [(l & k & -> & H1 & H2) | [H1 [H2 | (H2 & l & k & -> & H3 & H4)]]].
           ++ left. exists (v :: l), k. split; [done |]. split; [done |]. by apply Forall_cons.
           ++ right. split; [by apply Forall_cons | by left].
           ++ right. split; [by apply Forall_cons |]. right. split; [done |]. exists (v :: l), k.
              split; [done |]. split; [done |]. apply Forall_cons. split; [congruence | done].
        -- destruct IH as (H1 & H2 & H3). split; [by apply Forall_cons |]. split; [done |]. apply Forall_cons. split; [congruence | done].
    + assert (Hno : ¬ vhost_named host v) by (intros (p & Hp & _); congruence).
      specialize (IH (match def with Some d => Some d | None => Some v end)).
      destruct (find_vhost t host _) as [u | ].
      * destruct IH as [(l & k & -> & H1 & H2) | [H1 [H2 | (H2 & _)]]].
        -- left. exists (v :: l), k. split; [done |]. split; [done |]. by apply Forall_cons.
        -- right. split; [by apply Forall_cons |]. destruct def; [by left |]. injection H2 as <-.
           right. split; [done |]. exists [], t. split; [done |]. split; [done | by apply Forall_nil].
        -- by destruct def.
      * destruct IH as (_ & H2 & _). by destruct def.
Qed.

(** Virtual hosts: the request is served from the first vhost whose pattern matches
    its host (case-insensitively; a leading "*." stands for exactly one label), else
    from the first default vhost; with neither it is refused with 404 and no file is
    touched, so a host that is not configured is never served. *)
Theorem vhost_selection F ok w res req vs :
  vhosts_ok vs → cstr (request_host req) →
  (∃ v, portico_res_vhost F ok w res req vs = portico_res_static F ok w res req (vh_opts v) ∧
     ((∃ l k, vs = l ++ v :: k ∧ vhost_named (request_host req) v ∧
              Forall (λ u, ¬ vhost_named (request_host req) u) l) ∨
      (Forall (λ u, ¬ vhost_named (request_host req) u) vs ∧
       ∃ l k, vs = l ++ v :: k ∧ vh_host v = None ∧ Forall (λ u, vh_host u ≠ None) l))) ∨
  (Forall (λ u, ¬ vhost_named (request_host req) u) vs ∧ Forall (λ u, vh_host u ≠ None) vs ∧
   portico_res_vhost F ok w res req vs = (-1, portico_res_status res 404, w)).
Proof.
  intros Hok Hh. pose proof (find_vhost_spec vs (request_host req) None Hok Hh) as H. unfold portico_res_vhost.
  destruct (find_vhost vs (request_host req) None) as [v | ].
  - left. exists v. split; [done |]. destruct H as [H | [H1 [H2 | [_ H2]]]]; [by left | done | by right].
  - right. destruct H as (H1 & _ & H3). done.
Qed.

Definition demo_vhosts : list vhost :=
  [ mk_vhost (Some (bs "*.example.com")) (mk_opts (bs "/srv/a") None None false None None false);
    mk_vhost (Some (bs "example.org")) (mk_opts (bs "/srv/b") None None false None None false) ].
Definition demo_host_req (h : list Z) : request :=
  mk_request (bs "GET") (bs "/") None 1 [mk_header (bs "Host") h] [] true [].

Lemma vhost_selection_witness :
  portico_res_vhost demo_fs true (mk_fsw [] []) (res_init true)
    (demo_host_req (bs "a.b.example.com:8443")) demo_vhosts =
  (-1, portico_res_status (res_init true) 404, mk_fsw [] []).
Proof.
  destruct (vhost_selection demo_fs true (mk_fsw [] []) (res_init true)
    (demo_host_req (bs "a.b.example.com:8443")) demo_vhosts) as [(v & H & _) | (_ & _ & H)].
  - repeat constructor; vm_compute; reflexivity.
  - vm_compute. repeat constructor.
  - vm_compute. reflexivity.
  - exact H.
Defined.

(** ** What the static handlers promise the connection *)

Section HandlerOk.
Context (F : fs_env) (Hsize : ∀ fd st, fs_stat F fd = Some st → 0 <= st_size st).

Lemma opt_header_ok r n v : res_ok r → res_ok (opt_header r n v).
Proof. intros H. destruct v; [by apply res_header_ok | done]. Qed.

Lemma res_416_ok r total : res_ok r → res_ok (res_416 r total).
Proof. intros H. unfold res_416, res_ok. cbn [res_headers]. by do 2 apply res_header_ok. Qed.

Lemma serve_byteranges_ok ok res fd h total ct etag lm rc r :
  res_ok res → serve_byteranges F ok res fd h total ct etag lm = (rc, r) → res_ok r.
Proof.
  intros H. unfold serve_byteranges. repeat case_match; intros Heq; pose proof (f_equal snd Heq) as Hr;
    cbn [snd] in Hr; subst r; try done.
  unfold res_ok. cbn [res_headers]. by do 4 apply res_header_ok.
Qed.

Lemma choose_range_ok ok res req fd st resolved etag lm hd rc r :
  res_ok res → choose_range F ok res req fd st resolved etag lm hd = RFinal rc r → res_ok r.
Proof.
  intros H. unfold choose_range. destruct (req_header_copy req _ _); [ | done]. split_if; [done |].
  destruct (negb hd && _).
  - destruct (serve_byteranges F _ _ _ _ _ _ _ _) as [mr r0] eqn:EB. apply serve_byteranges_ok in EB; [ | done].
    split_ifs; try done; intros [= <- <-]; [done | by apply res_416_ok].
  - destruct (parse_range _ _) as [[rr s1] l1]. split_ifs; try done. intros [= <- <-]. by apply res_416_ok.
Qed.

Lemma res_static_ok ok res req opts rc res' w' :
  is_file res = false → res_ok res →
  portico_res_static F ok (mk_fsw [] []) res req opts = (rc, res', w') →
  res_ok res' ∧ (is_file res' = true → 0 <= file_offset res' ∧ 0 <= file_size res').
Proof.
  intros Hf Hok H. split.
  - revert H. unfold portico_res_static.
    destruct (strip_prefix _ _); [ | by intros [= <- <- <-]].
    destruct (resolve_target _ _ _ _) as [ | [root r0]]; [by intros [= <- <- <-] |].
    destruct (open_target _ _ _ _ _ _) as [t0 w0]. destruct (check_file t0 w0) as [t1 w1].
    destruct t1 as [c | loc | fd0 st0 rs]; [by intros [= <- <- <-] | intros [= <- <- <-]; by apply res_header_ok |].
    destruct (negotiate _ _ _ _ _ _ _ _) as [[[enc fd] st] w2].
    destruct (not_modified _ _ _ _).
    { intros [= <- <- <-]. by apply (opt_header_ok), res_header_ok, res_header_ok. }
    assert (Hfr : ∀ rng hd ct et lm, res_ok (file_response opts res ct et lm enc rng (st_size st) fd hd)).
    { intros rng hd ct et lm. unfold file_response. destruct (default _ rng) as [s0 l0].
      assert (Hl : res_ok (opt_header (if o_precompressed opts
        then portico_res_header (opt_header (portico_res_header (portico_res_header (portico_res_header
             (portico_res_header res (bs "Content-Type") ct) (bs "Accept-Ranges") (bs "bytes")) (bs "ETag") et)
             (bs "Last-Modified") lm) (bs "Content-Encoding") enc) (bs "Vary") (bs "Accept-Encoding")
        else opt_header (portico_res_header (portico_res_header (portico_res_header
             (portico_res_header res (bs "Content-Type") ct) (bs "Accept-Ranges") (bs "bytes")) (bs "ETag") et)
             (bs "Last-Modified") lm) (bs "Content-Encoding") enc) (bs "Cache-Control") (o_cache_control opts))).
      { apply opt_header_ok. destruct (o_precompressed opts); try apply res_header_ok; apply opt_header_ok;
          by do 4 apply res_header_ok. }
      destruct hd, rng; cbn [res_ok]; unfold res_ok; cbn [res_headers]; try apply Hl; by apply res_header_ok. }
    destruct (choose_range _ _ _ _ _ _ _ _ _ _) as [rc0 r1 | s1 l1 | ] eqn:EC; [ | intros [= <- <- <-]; apply Hfr ..].
    intros [= <- <- <-]. by eapply choose_range_ok.
  - intros Hfile. apply res_static_outcome in H; [ | done].
    destruct (fs_realpath F _) as [root | ]; [ | by destruct H as (_ & _ & H); congruence].
    unfold static_outcome in H. rewrite Hfile in H. destruct H as (_ & st & HS & _ & Hb).
    specialize (Hb (Hsize _ _ HS)). lia.
Qed.

Lemma router_handle_ok ok r req res :
  is_file res = false → res_ok res →
  let '(rc, res', w') := portico_router_handle F ok (mk_fsw [] []) r req res in
  res_ok res' ∧ (is_file res' = true → 0 <= file_offset res' ∧ 0 <= file_size res').
Proof.
  intros Hf Hok. unfold portico_router_handle.
  assert (Htext : ∀ st b, let r' := portico_res_text ok res st b in res_ok r' ∧ is_file r' = false).
  { intros st b. unfold portico_res_text. split; [by apply res_body_ok |].
    unfold portico_res_body. destruct ok; [ | done]. cbn [negb]. by split_if. }
  destruct (current r) as [[ | v vs] | ].
  - destruct (Htext 503 (bs "no sites configured" ++ [10])). split; [done | congruence].
  - destruct (portico_res_vhost F ok (mk_fsw [] []) res req (v :: vs)) as [[rc res'] w'] eqn:EV.
    unfold portico_res_vhost in EV. destruct (find_vhost _ _ _) as [u | ]; [by eapply res_static_ok |].
    injection EV as <- <- <-. split; [done |]. cbn. congruence.
  - destruct (Htext 503 (bs "no sites configured" ++ [10])). split; [done | congruence].
Qed.
End HandlerOk.

(** ** Observations *)

(** A file system where a.txt has a brotli sibling, and a client that accepts brotli and
    asks for two ranges. *)
Definition br_fs : fs_env :=
  mk_fs (λ p, Some p) (λ n _, Opened (Z.of_nat n)) (λ _, Some (mk_stat false true 10 0 0))
    (λ fd len off, Some (ztake len (zdrop off (if fd =? 0 then bs "plain-text" else bs "br-encoded"))))
    (λ _, None).
Definition br_req (range : list Z) : request :=
  mk_request (bs "GET") (bs "/a.txt") None 1
    [mk_header (bs "Accept-Encoding") (bs "br"); mk_header (bs "Range") range] [] true [].
Definition br_opts : static_opts := mk_opts (bs "/srv") None None true None None false.

(** The multipart answer is cut from the compressed sibling but carries no
    Content-Encoding (nor Vary), unlike every other answer from it. *)
Example multipart_drops_content_encoding :
  let '(rc, r, _) := portico_res_static br_fs true (mk_fsw [] []) (res_init true) (br_req (bs "bytes=0-1,3-4")) br_opts in
  rc = 0 ∧ status r = 206 ∧ has_sub (res_body r) (bs "br") = true ∧
  has_sub (res_headers r) (bs "Content-Encoding") = false ∧ has_sub (res_headers r) (bs "Vary") = false.
Proof. vm_compute. split_and!; reflexivity. Qed.

(** A range list with one satisfiable range is answered with the whole file. *)
Example one_of_two_ranges_is_ignored :
  let '(rc, r, _) := portico_res_static br_fs true (mk_fsw [] []) (res_init true)
    (mk_request (bs "GET") (bs "/a.txt") None 1 [mk_header (bs "Range") (bs "bytes=0-1,50-60")] [] true []) br_opts in
  rc = 0 ∧ status r = 200 ∧ file_size r = 10.
Proof. vm_compute. split_and!; reflexivity. Qed.
