(* ===== verification/Ident.v ===== *)
(** * What a connection keeps

    Every handler of a connection keeps its descriptor, its place in the pool and its
    generation, and the bookkeeping of its reads and stream contexts: addresses are below
    the next fresh one and generations are not above the slot's.  These are the lemmas
    the event thread's slot accounting is built on. *)
From Stdlib Require Import ZArith Lia.
From stdpp Require Import base numbers list strings gmap.
From S2P Require Import Prelude Cstr Frame Sys OutBuf Conn WsHandler HttpRequest HttpResponse Handshake HttpConn.
Open Scope Z_scope.

Definition cid (c : ws_connection) : Z * Z * Z := (fd c, pool_index c, generation c).

(** Every stream context and every read in flight is known to the slot. *)
Definition op_tame (gen next : Z) (op : aio_op) : Prop :=
  match op with AFile ctx _ => c_generation ctx <= gen | AStream p _ _ _ => p < next end.
Record tame (w : hw) : Prop := mk_tame {
  tame_heap : ∀ p s, h_heap w !! p = Some s → p < h_next w ∧ s_generation s <= generation (h_conn w);
  tame_aio : Forall (op_tame (generation (h_conn w)) (h_next w)) (h_aio w)
}.

(** Keeping the identity, for the two kinds of world. *)
Definition keeps (w w' : cw) : Prop := cid (w_conn w') = cid (w_conn w).
Definition hkeeps (w w' : hw) : Prop := cid (h_conn w') = cid (h_conn w) ∧ (tame w → tame w').

(** An HTTP handler keeps the connection's state as well. *)
Definition stays (w w' : cw) : Prop := keeps w w' ∧ state (w_conn w') = state (w_conn w).
Definition hstays (w w' : hw) : Prop := hkeeps w w' ∧ state (h_conn w') = state (h_conn w).

#[export] Instance keeps_preorder : PreOrder keeps.
Proof. split; [by intros w | intros a b c; unfold keeps; congruence]. Qed.
#[export] Instance hkeeps_preorder : PreOrder hkeeps.
Proof. split; [by intros w | intros a b c [H1 H2] [H3 H4]; split; [congruence | auto]]. Qed.

#[export] Instance stays_preorder : PreOrder stays.
Proof. split; [by intros w | intros a b c [H1 H2] [H3 H4]; split; [by transitivity b | congruence]]. Qed.
#[export] Instance hstays_preorder : PreOrder hstays.
Proof. split; [by intros w | intros a b c [H1 H2] [H3 H4]; split; [by transitivity b | congruence]]. Qed.

(** Changing the connection, keeping its identity. *)
Lemma hkeeps_w w w' :
  cid (h_conn w') = cid (h_conn w) → h_heap w' = h_heap w → h_next w' = h_next w → h_aio w' = h_aio w → hkeeps w w'.
Proof.
  intros Hc Hh Hn Ha. split; [done |]. injection Hc as _ _ Hg. intros [H1 H2].
  constructor; [rewrite Hh, Hn, Hg | rewrite Ha, Hn, Hg]; done.
Qed.

Lemma hstays_w w w' :
  cid (h_conn w') = cid (h_conn w) → state (h_conn w') = state (h_conn w) →
  h_heap w' = h_heap w → h_next w' = h_next w → h_aio w' = h_aio w → hstays w w'.
Proof. intros. split; [by apply hkeeps_w | done]. Qed.

Lemma with_w_keeps w v : keeps (h_w w) v → hkeeps w (with_w w v).
Proof. intros H. by apply hkeeps_w. Qed.

(** Updating a context in place. *)
Lemma put_stream_keeps w p s s' :
  h_heap w !! p = Some s → s_generation s' = s_generation s → hstays w (with_heap w (<[p := s']> (h_heap w))).
Proof.
  intros Hp Hg. split; [split; [done |] | done]. intros [H1 H2]. constructor; [ | exact H2]. cbn. intros q t.
  rewrite lookup_insert_Some. intros [[<- <-] | [_ Hq]]; [ | by apply H1]. rewrite Hg. by apply (H1 p s).
Qed.

(** Freeing contexts and completing reads. *)
Lemma shrink_keeps w w' :
  cid (h_conn w') = cid (h_conn w) → state (h_conn w') = state (h_conn w) →
  h_next w' = h_next w → h_heap w' ⊆ h_heap w → h_aio w' ⊆ h_aio w → hstays w w'.
Proof.
  intros Hc Hs Hn Hh Ha. split; [split; [done |] | done]. injection Hc as _ _ Hg. intros [H1 H2]. constructor.
  - intros p s Hp. rewrite Hn, Hg. apply H1. by eapply lookup_weaken.
  - rewrite Hn, Hg. apply Forall_forall. intros op Hop. rewrite Forall_forall in H2. by apply H2, Ha.
Qed.

Lemma new_stream_keeps w s : s_generation s <= generation (h_conn w) → hstays w (new_stream w s).2.
Proof.
  intros Hg. split; [split; [done |] | done]. intros [H1 H2]. constructor; cbn.
  - intros q t. rewrite lookup_insert_Some. intros [[<- <-] | [_ Hq]]; [split; [lia | done] |].
    destruct (H1 q t Hq). split; [lia | done].
  - eapply Forall_impl; [exact H2 |]. intros [ctx off | p f len off]; cbn; [done | lia].
Qed.

(** Case analysis on the program until every branch is a sequence of known steps. *)
Ltac keep_cases :=
  repeat first [ progress simplify_eq | case_match ]; simplify_eq.

(** Use the lemmas of the calls made. *)
Ltac keep_solve :=
  unfold keeps, h_conn in *; cbn [w_conn with_conn with_sys log_ev h_w with_w with_heap with_aio close_file log_req h_set] in *;
  unfold h_conn in *; cbn in *; try congruence; try done.

Lemma alloc_keeps w ok w' : alloc w = (ok, w') → keeps w w'.
Proof. unfold alloc. destruct (sys_alloc _). by intros [= <- <-]. Qed.

Lemma send_whole_frame_keeps op w d r w' : send_whole_frame op w d = (r, w') → keeps w w'.
Proof.
  unfold send_whole_frame. destruct (alloc w) as [ok w1] eqn:EA. apply alloc_keeps in EA.
  destruct (ws_encode_frame ok op d); [ | by intros [= <- <-]].
  destruct (ws_conn_socket_write _ _). by intros [= <- <-].
Qed.

Lemma send_close_keeps w code reason r w' : ws_send_close_frame w code reason = (r, w') → keeps w w'.
Proof.
  unfold ws_send_close_frame. split_if; [apply send_whole_frame_keeps |].
  destruct (alloc w) as [ok w1] eqn:EA. apply alloc_keeps in EA. split_if; [by intros [= <- <-] |].
  intros H%send_whole_frame_keeps. by transitivity w1.
Qed.

Lemma fail_keeps w code r w' : ws_fail_connection w code = (r, w') → keeps w w'.
Proof.
  unfold ws_fail_connection. destruct (ws_send_close_frame _ _ _) as [r0 w2] eqn:E. apply send_close_keeps in E.
  intros [= <- <-]. exact E.
Qed.

Lemma fragmented_keeps cfg w f r w' : process_fragmented_frame cfg w f = (r, w') → keeps w w'.
Proof.
  unfold process_fragmented_frame. intros H. keep_cases;
    repeat match goal with
    | H : alloc _ = _ |- _ => apply alloc_keeps in H
    | H : ws_fail_connection _ _ = _ |- _ => apply fail_keeps in H
    end; keep_solve.
Qed.

Lemma continuation_keeps cfg w f r w' : process_continuation_frame cfg w f = (r, w') → keeps w w'.
Proof.
  unfold process_continuation_frame. intros H. keep_cases;
    repeat match goal with
    | H : alloc _ = _ |- _ => apply alloc_keeps in H
    | H : ws_fail_connection _ _ = _ |- _ => apply fail_keeps in H
    end; keep_solve.
Qed.

Lemma close_frame_keeps cfg w f r w' : process_close_frame cfg w f = (r, w') → keeps w w'.
Proof.
  unfold process_close_frame. cbv zeta. intros H. keep_cases;
    repeat match goal with
    | H : ws_send_close_frame _ _ _ = _ |- _ => apply send_close_keeps in H
    | H : ws_fail_connection _ _ = _ |- _ => apply fail_keeps in H
    end; keep_solve.
Qed.

Lemma frame_keeps cfg w f r w' : process_websocket_frame cfg w f = (r, w') → keeps w w'.
Proof.
  unfold process_websocket_frame.
  split_if; [apply fail_keeps |]. split_if; [apply fragmented_keeps |].
  split_if.
  { destruct (ws_send_pong_frame w (payload f)) as [rc w1] eqn:EPong. apply send_whole_frame_keeps in EPong.
    split_if; by intros [= <- <-]. }
  split_if; [intros [= <- <-]; by split_if |].
  split_if; [apply close_frame_keeps |]. split_if; [apply continuation_keeps |]. by intros [= <- <-].
Qed.

Lemma frames_loop_keeps cpu cfg fuel : ∀ w off r w', frames_loop cpu cfg fuel w off = (r, w') → keeps w w'.
Proof.
  induction fuel as [ | n IH]; intros w off r w'; cbn [frames_loop]; [by intros [= <- <-] |].
  split_if.
  - destruct (ws_parse_frame _ _ _) as [[pr f] d]. split_if; [by intros [= <- <-] |].
    split_if; [intros [= <- <-]; by split_if |].
    destruct (process_websocket_frame cfg _ f) as [proc w2] eqn:EP. apply frame_keeps in EP.
    assert (keeps w w2) as Hk by exact EP.
    split_if; [by intros [= <- <-] |]. split_if; [by intros [= <- <-] |].
    intros H%IH. by transitivity w2.
  - intros [= <- <-]. unfold consume. by split_ifs.
Qed.

Lemma read_loop_keeps cpu cfg now fuel : ∀ hm w r w', read_loop cpu cfg now fuel hm w = (r, w') → keeps w w'.
Proof.
  induction fuel as [ | n IH]; intros hm w r w'; cbn [read_loop]; [by intros [= <- <-] |].
  destruct (grow_recv hm w) as [o w1] eqn:EG.
  assert (Hg : keeps w w1 ∧ (∀ x, o = Some x → keeps w x)).
  { revert EG. unfold grow_recv. split_if; [ | intros [= <- <-]; split; [done | by intros x [= <-]]].
    split_if; [by intros [= <- <-] |]. destruct (alloc w) as [ok wa] eqn:EA. apply alloc_keeps in EA.
    split_if; [by intros [= <- <-] |]. intros [= <- <-]. split; [done | by intros x [= <-]]. }
  destruct Hg as [Hg1 Hg2]. destruct o as [x | ]; [ | by intros [= <- <-]]. specialize (Hg2 x eq_refl).
  destruct (sys_recv _ _) as [[b | | | ] s2]; try (intros [= <- <-]; exact Hg2).
  match goal with |- context [frames_loop ?a ?b ?c ?d ?e] => destruct (frames_loop a b c d e) as [[rc | ] w3] eqn:EF end;
    apply frames_loop_keeps in EF.
  - intros [= <- <-]. etransitivity; [exact Hg2 | exact EF].
  - intros H%IH. etransitivity; [exact Hg2 | etransitivity; [exact EF | exact H]].
Qed.

Lemma ws_frames_keeps cpu cfg now w r w' : handle_websocket_frames cpu cfg now w = (r, w') → keeps w w'.
Proof. unfold handle_websocket_frames. split_if; [by intros [= <- <-] | apply read_loop_keeps]. Qed.

(** ** Handshake and reading *)

Lemma hs_error_keeps w code msg r w' : ws_send_handshake_error w code msg = (r, w') → keeps w w'.
Proof.
  unfold ws_send_handshake_error. destruct (handshake_status code), (ws_conn_socket_write _ _). by intros [= <- <-].
Qed.

Lemma handshake_keeps cb w req r w' : ws_process_handshake cb w req = (r, w') → keeps w w'.
Proof.
  unfold ws_process_handshake. destruct (ws_parse_handshake_request _ _) as [[prc info] s1].
  split_if.
  { destruct (ws_send_handshake_error _ _ _) as [r2 w2] eqn:EX. apply hs_error_keeps in EX. intros [= <- <-]. exact EX. }
  destruct (match cb with Some f => f info | None => (0, None) end) as [res sel].
  split_if.
  { destruct (ws_send_handshake_error _ _ _) as [r2 w2] eqn:EX. apply hs_error_keeps in EX. intros [= <- <-]. exact EX. }
  destruct (find_header_value _ _ _) as [host' s2]. destruct (sys_alloc s2) as [ok s3].
  assert (Hc : ∀ c, c = match host' with Some h => set_user_data (set_host (w_conn (with_sys w s1)) (ztake 255 h)) HOST_PTR
                      | None => w_conn (with_sys w s1) end → cid c = cid (w_conn w)) by (intros c ->; by destruct host').
  specialize (Hc _ eq_refl).
  destruct (ws_create_handshake_response _ _ _ _).
  - destruct (ws_conn_socket_write _ _). intros [= <- <-]. exact Hc.
  - destruct (ws_send_handshake_error _ _ _) as [r2 w2] eqn:EX. apply hs_error_keeps in EX. intros [= <- <-].
    unfold keeps in *. rewrite EX. exact Hc.
Qed.

Lemma grow_http_keeps w : match grow_http w with inl (_, w') => stays w w' | inr w' => stays w w' end.
Proof.
  unfold grow_http. split_if; [ | done]. split_if; [done |].
  unfold alloc. destruct (sys_alloc _) as [ok s]. by split_if.
Qed.

Lemma read_into_keeps now fuel : ∀ w r w', read_into_loop fuel now w = (r, w') → stays w w'.
Proof.
  induction fuel as [ | n IH]; intros w r w'; cbn [read_into_loop]; [by intros [= <- <-] |].
  pose proof (grow_http_keeps w) as Hg. destruct (grow_http w) as [[rc w1] | w1].
  - by intros [= <- <-].
  - destruct (sys_recv _ _) as [[b | | | ] s2]; try (intros [= <- <-]; exact Hg).
    intros H%IH. etransitivity; [exact Hg | exact H].
Qed.

(** ** HTTP *)

Lemma h_alloc_keeps w ok w' : h_alloc w = (ok, w') → hstays w w'.
Proof. unfold h_alloc, alloc. destruct (sys_alloc _) as [b v]. intros [= <- <-]. by apply hstays_w. Qed.

Lemma h_send_keeps w b r w' : h_send w b = (r, w') → hstays w w'.
Proof. unfold h_send. destruct (portico_conn_send _ _ _) as [[rc q] s]. intros [= <- <-]. by apply hstays_w. Qed.

Lemma h_send_heap w b r w' : h_send w b = (r, w') → h_heap w' = h_heap w.
Proof. unfold h_send. destruct (portico_conn_send _ _ _) as [[rc q] s]. by intros [= <- <-]. Qed.

Lemma h_finish_keeps w r w' : h_finish_close w = (r, w') → hstays w w'.
Proof. unfold h_finish_close. destruct (http_finish_close _). intros [= <- <-]. by apply hstays_w. Qed.

Lemma error_close_keeps w st r w' : http_error_close w st = (r, w') → hstays w w'.
Proof.
  unfold http_error_close, http_reply_status, http_send_owned. destruct (h_alloc w) as [ok w1] eqn:EA.
  apply h_alloc_keeps in EA. destruct (portico_http_build_status ok st false).
  - destruct (h_send w1 _) as [r2 w2] eqn:ES. apply h_send_keeps in ES.
    split_if; [intros [= <- <-]; by transitivity w1 |]. intros H%h_finish_keeps. by do 2 (etransitivity; [eassumption |]).
  - cbn. by intros [= <- <-].
Qed.

Lemma stream_free_keeps w p : hstays w (stream_free w p).
Proof.
  unfold stream_free. destruct (h_heap w !! p) as [s | ]; [ | done]. apply shrink_keeps; try done. apply delete_subseteq.
Qed.

Lemma stream_fail_keeps w p r w' : stream_fail w p = (r, w') → hstays w w'.
Proof. unfold stream_fail. intros [= <- <-]. etransitivity; [ | apply stream_free_keeps]. by apply hstays_w. Qed.

Lemma aio_pread_keeps w op ok w' :
  (tame w → op_tame (generation (h_conn w)) (h_next w) op) → portico_aio_pread w op = (ok, w') →
  hstays w w' ∧ h_heap w' = h_heap w.
Proof.
  intros Hop. assert (Hadd : ∀ sc, hstays w (with_aio w (h_aio w ++ [op]) sc)).
  { intros sc. split; [split; [done |] | done]. intros Ht. pose proof (Hop Ht). destruct Ht as [H1 H2]. constructor; [exact H1 |].
    apply Forall_app. split; [done |]. by constructor. }
  unfold portico_aio_pread. destruct (h_submit w) as [ | [ | ] t]; intros [= <- <-]; (split; [ | done]);
    [apply Hadd.. |]. by apply hstays_w.
Qed.

Section Env.
Context (E : http_env).

Lemma file_emit_keeps w ctx d r w' : file_emit w ctx d = (r, w') → hstays w w'.
Proof.
  unfold file_emit. destruct (h_alloc w) as [ok w1] eqn:EA. apply h_alloc_keeps in EA. destruct d.
  - destruct (portico_http_build_response _ _); [ | by intros [= <- <-]].
    destruct (h_send w1 _) as [r2 w2] eqn:ES. apply h_send_keeps in ES. split_if; intros [= <- <-]; by transitivity w1.
  - destruct (portico_http_build_status _ _ _); [ | by intros [= <- <-]].
    destruct (h_send w1 _) as [r2 w2] eqn:ES. apply h_send_keeps in ES. intros [= <- <-]; by transitivity w1.
Qed.

Section Resume.
Context (resume : hw → Z * hw) (Hres : ∀ w r w', resume w = (r, w') → hstays w w').

Lemma stream_finish_keeps w p r w' : stream_finish resume w p = (r, w') → hstays w w'.
Proof.
  unfold stream_finish. destruct (h_heap w !! p) as [s | ]; [ | by intros [= <- <-]].
  set (w1 := stream_free _ _). assert (hstays w w1) by (etransitivity; [ | apply stream_free_keeps]; by apply hstays_w).
  split_if; [intros H1%Hres | intros H1%h_finish_keeps]; by transitivity w1.
Qed.

Lemma stream_loop_keeps fuel : ∀ w p r w', stream_advance_loop E resume fuel w p = (r, w') → hstays w w'.
Proof.
  induction fuel as [ | n IH]; intros w p r w'; cbn [stream_advance_loop]; [by intros [= <- <-] |].
  destruct (h_heap w !! p) as [s | ] eqn:EH; [ | by intros [= <- <-]]. split_if; [by intros [= <- <-] |].
  split_if; [apply stream_finish_keeps |].
  match goal with |- (let '(_, _) := ?t in _) = _ → _ => destruct t as [pk w1] eqn:EP end.
  assert (H1 : hstays w w1 ∧ ∃ s1, h_heap w1 !! p = Some s1 ∧ s_generation s1 = s_generation s).
  { revert EP. split_if; [ | intros [= <- <-]; split; [done | by exists s]].
    set (w0 := with_heap w (<[p:=set_reading s true]> (h_heap w))).
    assert (H0 : hstays w w0) by (by eapply put_stream_keeps).
    destruct (portico_aio_pread _ _) as [ok wa] eqn:EA. apply aio_pread_keeps in EA as [HA Hh].
    2:{ intros [Ht _]. apply (Ht p (set_reading s true) (lookup_insert_eq _ _ _)). }
    assert (Ha : h_heap wa !! p = Some (set_reading s true)) by (rewrite Hh; apply lookup_insert_eq).
    split_if; intros [= <- <-].
    - split; [by transitivity w0 | by exists (set_reading s true)].
    - split; [transitivity w0; [done |]; etransitivity; [exact HA | by eapply put_stream_keeps] |].
      exists (set_reading s false). cbn. by rewrite lookup_insert_eq. }
  destruct H1 as (H1 & s1 & Hs1 & Hg1). split_if; [by intros [= <- <-] |].
  destruct (e_pread E _ _ _) as [[ | x d] | ]; [intros H2%stream_fail_keeps; by transitivity w1 | |
    intros H2%stream_fail_keeps; by transitivity w1].
  destruct (h_send w1 (x :: d)) as [rc w2] eqn:ES. pose proof (h_send_heap _ _ _ _ ES) as Hh2. apply h_send_keeps in ES.
  split_if; [intros H2%stream_fail_keeps | intros H2%IH]; (etransitivity; [exact H1 |]);
    (etransitivity; [exact ES | try exact H2]).
  etransitivity; [ | exact H2]. eapply put_stream_keeps; [by rewrite Hh2 | by rewrite Hg1].
Qed.

Lemma stream_advance_keeps w p r w' : stream_advance E resume w p = (r, w') → hstays w w'.
Proof.
  unfold stream_advance. destruct (h_heap w !! p) as [s | ]; [ | by intros [= <- <-]].
  split_if; [by intros [= <- <-] | apply stream_loop_keeps].
Qed.

Lemma stream_start_keeps w res n r w' : stream_start E resume w res n = (r, w') → hstays w w'.
Proof.
  unfold stream_start. destruct (h_alloc w) as [ok1 w1] eqn:EA1. apply h_alloc_keeps in EA1.
  destruct (if ok1 then h_alloc w1 else (false, w1)) as [ok2 w2] eqn:EA2.
  assert (H2 : hstays w w2).
  { destruct ok1; [apply h_alloc_keeps in EA2; by transitivity w1 | by simplify_eq]. }
  split_if; [intros H%error_close_keeps; etransitivity; [exact H2 |]; etransitivity; [ | exact H]; by apply hstays_w |].
  pose proof (new_stream_keeps w2 (mk_stream (generation (h_conn w2)) (file_fd res) (file_offset res)
    (file_offset res + file_size res) (res_keep_alive res) false) (Z.le_refl _)) as HN.
  unfold new_stream in *. cbn [snd] in HN. set (w4 := consume_request _ n).
  assert (H4 : hstays w w4) by (etransitivity; [exact H2 |]; etransitivity; [exact HN | by apply hstays_w]).
  split_if.
  { intros H%error_close_keeps. etransitivity; [exact H4 |]. etransitivity; [apply stream_free_keeps | exact H]. }
  destruct (h_send _ _) as [rc w6] eqn:ES. apply h_send_keeps in ES.
  assert (H6 : hstays w w6) by (etransitivity; [exact H4 |]; etransitivity; [ | exact ES]; by apply hstays_w).
  split_if; [intros [= <- <-]; etransitivity; [exact H6 | etransitivity; [ | apply stream_free_keeps]; by apply hstays_w] |].
  destruct (stream_advance E resume w6 _) as [rc2 w7] eqn:EA. apply stream_advance_keeps in EA.
  split_if; [intros H%h_finish_keeps | intros [= <- <-]]; (etransitivity; [exact H6 |]); [by transitivity w7 | done].
Qed.

Lemma serve_file_keeps w res n r w' : http_serve_file E resume w res n = (r, w') → hstays w w'.
Proof.
  unfold http_serve_file. split_if; [apply stream_start_keeps |].
  split_if; [intros H%error_close_keeps; etransitivity; [ | exact H]; by apply hstays_w |].
  destruct (h_alloc w) as [ok1 w1] eqn:EA1. apply h_alloc_keeps in EA1.
  destruct (if ok1 then h_alloc w1 else (false, w1)) as [ok2 w2] eqn:EA2.
  assert (H2 : hstays w w2).
  { destruct ok1; [apply h_alloc_keeps in EA2; by transitivity w1 | by simplify_eq]. }
  split_if; [intros H%error_close_keeps; etransitivity; [exact H2 |]; etransitivity; [ | exact H]; by apply hstays_w |].
  match goal with |- (let '(_, _) := ?t in _) = _ → _ => destruct t as [pk w4] eqn:EP end.
  assert (H4 : hstays w w4).
  { etransitivity; [exact H2 |]. revert EP. split_if; [ | intros [= <- <-]; by apply hstays_w].
    destruct (portico_aio_pread _ _) as [ok wa] eqn:EA. apply aio_pread_keeps in EA as [EA _]; [ | cbn; lia].
    split_if; intros [= <- <-]; (etransitivity; [ | etransitivity; [exact EA |]]); by apply hstays_w. }
  split_if; [by intros [= <- <-] |].
  destruct (file_emit w4 _ _) as [b w5] eqn:EE. apply file_emit_keeps in EE.
  split_if; [intros H%h_finish_keeps | intros [= <- <-]]; (etransitivity; [exact H4 |]); (etransitivity; [exact EE |]);
    [etransitivity; [ | exact H] | ]; by apply hstays_w.
Qed.
End Resume.

Lemma respond_keeps w res n o w' : respond w res n = (o, w') → hstays w w' ∧ (∀ x, o = Some x → x = w').
Proof.
  unfold respond, http_send_owned. destruct (h_alloc w) as [ok w1] eqn:EA. apply h_alloc_keeps in EA.
  destruct (portico_http_build_response _ _); [ | by intros [= <- <-]].
  destruct (h_send w1 _) as [rc w2] eqn:ES. apply h_send_keeps in ES.
  split_if; intros [= <- <-]; (split; [transitivity w1; [done |]; etransitivity; [exact ES | by apply hstays_w] | ]);
    [done | by intros x [= <-]].
Qed.

Lemma process_loop_keeps fuel : ∀ w r w', process_loop E fuel w = (r, w') → hstays w w'.
Proof.
  induction fuel as [ | n IH]; intros w r w'; cbn [process_loop]; [by intros [= <- <-] |].
  split_if; [by intros [= <- <-] |].
  destruct (portico_http_parse _ _) as [total oreq]. cbv zeta.
  split_if; [destruct (_ && _); [apply error_close_keeps | by intros [= <- <-]] |].
  do 3 (split_if; [apply error_close_keeps |]).
  destruct oreq as [r0 | ]; [ | by intros [= <- <-]].
  set (req := resolve_client_ip E (h_conn w) r0).
  assert (Hgo : ∀ w1 res, hstays w w1 →
    match respond w1 res total with
    | (None, w2) => (-1, w2)
    | (Some w2, _) => if negb (keep_alive req) then h_finish_close w2 else process_loop E n w2
    end = (r, w') → hstays w w').
  { intros w1 res H1. destruct (respond w1 res total) as [o w2] eqn:ER. apply respond_keeps in ER as [H2 H3].
    destruct o as [x | ]; [ | intros [= <- <-]; by transitivity w1]. rewrite (H3 x eq_refl).
    split_if; [intros H4%h_finish_keeps | intros H4%IH]; (etransitivity; [exact H1 |]); by transitivity w2. }
  destruct (e_on_http_request E) as [h | ]; [ | by apply Hgo].
  destruct (h (h_reqs w) req _) as [hrc res].
  assert (Hlog : hstays w (log_req w req)) by (by apply hstays_w).
  split_if; [unfold failed_response; destruct (is_file res); apply Hgo; try done; by apply hstays_w |].
  split_if; [ | by apply Hgo].
  destruct (http_serve_file E _ _ _ _) as [fr w2] eqn:ES. apply serve_file_keeps in ES; [ | exact IH].
  split_if; [intros [= <- <-] | intros H2%IH]; (etransitivity; [exact Hlog |]); [exact ES |]. by etransitivity.
Qed.

Lemma http_buffer_keeps w r w' : process_http_buffer E w = (r, w') → hstays w w'.
Proof. apply process_loop_keeps. Qed.

Lemma http_event_keeps w r w' : portico_http_event E w = (r, w') → hstays w w'.
Proof.
  unfold portico_http_event. split_if; [by intros [= <- <-] |].
  destruct (read_into_recv _ _) as [rc v] eqn:ER. apply read_into_keeps in ER as [ER1 ER2].
  assert (H1 : hstays w (with_w w v)) by (by apply hstays_w).
  split_if; [by intros [= <- <-] |]. split_if; [by intros [= <- <-] |].
  intros H2%http_buffer_keeps. by etransitivity.
Qed.

Lemma on_writable_keeps w r w' : portico_conn_on_writable E w = (r, w') → hstays w w'.
Proof.
  unfold portico_conn_on_writable. destruct (on_writable_drain _ _) as [[o q] s].
  cbv zeta. match goal with |- context [with_w w ?v] => set (w1 := with_w w v) end.
  assert (H1 : hstays w w1) by (by apply hstays_w).
  destruct o as [rc | ]; [by intros [= <- <-] |].
  destruct (file_stream _); [ | by intros [= <- <-]].
  intros H%stream_advance_keeps; [ | apply http_buffer_keeps]. by transitivity w1.
Qed.

Lemma completion_close_keeps w b w' : completion_close w = (b, w') → hstays w w'.
Proof. unfold completion_close. split_if; intros [= <- <-]; [by apply hstays_w | done]. Qed.

Lemma file_complete_keeps w ctx d b w' : file_read_complete E w ctx d = (b, w') → hstays w w'.
Proof.
  unfold file_read_complete.
  match goal with |- (let '(_, _) := ?t in _) = _ → _ => destruct t as [b1 w1] eqn:ET end.
  intros [= <- <-]. transitivity w1; [ | by apply hstays_w]. revert ET. split_if; [ | by intros [= <- <-]].
  destruct (file_emit _ _ _) as [c w2] eqn:EE. apply file_emit_keeps in EE.
  destruct (if c then (true, w2) else _) as [c2 w3] eqn:EC.
  assert (H3 : hstays w w3).
  { etransitivity; [ | etransitivity; [exact EE |]]; [by apply hstays_w |]. destruct c; [by simplify_eq |].
    destruct (process_http_buffer E w2) as [rc w4] eqn:EP. apply http_buffer_keeps in EP. by simplify_eq. }
  split_if; [intros H%completion_close_keeps | intros [= <- <-]]; [by transitivity w3 | done].
Qed.

Lemma chunk_complete_keeps w p d b w' : stream_chunk_complete E w p d = (b, w') → hstays w w'.
Proof.
  unfold stream_chunk_complete. destruct (h_heap _ !! p) as [s | ] eqn:EH; [ | by intros [= <- <-]].
  set (w0 := with_heap w (<[p:=set_reading s false]> (h_heap w))).
  assert (H0 : hstays w w0) by (by eapply put_stream_keeps).
  split_if; [intros [= <- <-]; transitivity w0; [done | apply stream_free_keeps] |].
  set (w1 := h_set w0 _). assert (H1 : hstays w w1) by (transitivity w0; [done | by apply hstays_w]).
  match goal with |- (let '(_, _) := ?t in _) = _ → _ => destruct t as [rc w2] eqn:ET end.
  assert (H2 : hstays w w2).
  { transitivity w1; [done |]. revert ET.
    destruct d as [[ | x d] | ]; [apply stream_fail_keeps | | apply stream_fail_keeps].
    destruct (h_send _ _) as [rc1 w3] eqn:ES. pose proof (h_send_heap _ _ _ _ ES) as Hh. apply h_send_keeps in ES.
    split_if; [intros H%stream_fail_keeps; by transitivity w3 |]. cbv zeta.
    set (w4 := with_heap w3 _). assert (H4 : hstays w1 w4).
    { transitivity w3; [done |]. apply (put_stream_keeps w3 p (set_reading s false)); [ | done]. rewrite Hh. apply lookup_insert_eq. }
    split_if; [intros H%stream_finish_keeps | intros H%stream_advance_keeps];
      try apply http_buffer_keeps; by transitivity w4. }
  split_if; [intros H%completion_close_keeps | intros [= <- <-]]; [by transitivity w2 | done].
Qed.

Lemma aio_complete_keeps w k b w' : aio_complete E w k = (b, w') → hstays w w'.
Proof.
  unfold aio_complete. destruct (h_aio w !! k) as [op | ] eqn:EK; [ | by intros [= <- <-]].
  set (w1 := with_aio w _ _).
  assert (H1 : hstays w w1).
  { apply shrink_keeps; try done. cbn. intros x. rewrite delete_take_drop. intros [Hx | Hx]%elem_of_app;
      [by eapply subseteq_take | by eapply subseteq_drop]. }
  destruct op as [ctx off | p f len off];
    [intros H%file_complete_keeps | intros H%chunk_complete_keeps]; by transitivity w1.
Qed.

Lemma initial_dispatch_keeps w r w' : portico_initial_dispatch E w = (r, w') → hkeeps w w'.
Proof.
  unfold portico_initial_dispatch. destruct (read_into_recv _ _) as [rc v] eqn:ER. apply read_into_keeps in ER as [ER _].
  assert (H1 : hkeeps w (with_w w v)) by (by apply with_w_keeps). set (w1 := with_w w v) in *.
  split_if; [by intros [= <- <-] |].
  destruct (memmem _ _) as [t | ].
  - split_if.
    + destruct (h_alloc w1) as [ok w2] eqn:EA. apply h_alloc_keeps in EA as [EA _].
      assert (H2 : hkeeps w w2) by (by transitivity w1). split_if; [by intros [= <- <-] |].
      destruct (ws_process_handshake _ _ _) as [rc2 v2] eqn:EH. apply handshake_keeps in EH.
      assert (H3 : hkeeps w (with_w w2 v2)) by (etransitivity; [exact H2 | by apply with_w_keeps]).
      split_if; [by intros [= <- <-] |]. intros [= <- <-].
      etransitivity; [exact H3 |]. destruct (on_connect (e_cfg E)); by apply hkeeps_w.
    + destruct (e_on_http_request E); [intros [H _]%http_buffer_keeps | intros [H _]%error_close_keeps];
        (etransitivity; [exact H1 |]); [etransitivity; [ | exact H]; by apply hkeeps_w | exact H].
  - split_if; [intros [H _]%error_close_keeps; etransitivity; [exact H1 | exact H] | by intros [= <- <-]].
Qed.
End Env.
