(* ===== verification/Thread.v ===== *)
(** * Event threads (src/src/ws/ws_event_thread.c, ws_message_processor.c, ws_connection_handler.c)

    A thread's pool of connection slots, its descriptor map, free stack and epoll set;
    accepting and closing connections, dispatching socket events to the handlers by
    connection state, the outbound messages and the idle reaper.

    A slot carries the world of its connection (HttpConn): the connection, its socket,
    its stream contexts and its reads in flight. *)
From Stdlib Require Import ZArith Lia.
From stdpp Require Import base numbers list strings gmap.
From S2P Require Import Prelude Cstr Frame Sys OutBuf Conn ConnHash WsHandler HttpRequest HttpResponse Handshake HttpConn Ident.
Open Scope Z_scope.

(** [ws_event_thread_t].  [t_fd_map] is [fd_to_conn_map] (absent is NULL, the value is a
    slot); [t_free] is the live part of [free_connection_stack] from the top down;
    [t_hash] is the server's global table, where a connection is named by its slot;
    [t_closed] lists the [close(2)] calls and [t_down] the [shutdown(2)] calls. *)
Record ethread := mk_thread {
  t_slots : list hw;
  t_fd_map : gmap Z nat;
  t_fd_map_size : Z;
  t_free : list nat;
  t_active : Z;
  t_hash : conn_hash;
  t_epoll : gset Z;
  t_closed : list Z;
  t_down : list Z;
  t_events : list (Z * event);
  t_running : bool
}.

Definition set_slots (t : ethread) v := mk_thread v (t_fd_map t) (t_fd_map_size t) (t_free t) (t_active t)
  (t_hash t) (t_epoll t) (t_closed t) (t_down t) (t_events t) (t_running t).
Definition set_fd_map (t : ethread) v := mk_thread (t_slots t) v (t_fd_map_size t) (t_free t) (t_active t)
  (t_hash t) (t_epoll t) (t_closed t) (t_down t) (t_events t) (t_running t).
Definition set_free (t : ethread) v := mk_thread (t_slots t) (t_fd_map t) (t_fd_map_size t) v (t_active t)
  (t_hash t) (t_epoll t) (t_closed t) (t_down t) (t_events t) (t_running t).
Definition set_active (t : ethread) v := mk_thread (t_slots t) (t_fd_map t) (t_fd_map_size t) (t_free t) v
  (t_hash t) (t_epoll t) (t_closed t) (t_down t) (t_events t) (t_running t).
Definition set_hash (t : ethread) v := mk_thread (t_slots t) (t_fd_map t) (t_fd_map_size t) (t_free t) (t_active t)
  v (t_epoll t) (t_closed t) (t_down t) (t_events t) (t_running t).
Definition set_epoll_set (t : ethread) v := mk_thread (t_slots t) (t_fd_map t) (t_fd_map_size t) (t_free t) (t_active t)
  (t_hash t) v (t_closed t) (t_down t) (t_events t) (t_running t).
Definition os_close (t : ethread) (fd : Z) := mk_thread (t_slots t) (t_fd_map t) (t_fd_map_size t) (t_free t) (t_active t)
  (t_hash t) (t_epoll t) (t_closed t ++ [fd]) (t_down t) (t_events t) (t_running t).
Definition os_shutdown (t : ethread) (fd : Z) := mk_thread (t_slots t) (t_fd_map t) (t_fd_map_size t) (t_free t) (t_active t)
  (t_hash t) (t_epoll t) (t_closed t) (t_down t ++ [fd]) (t_events t) (t_running t).
Definition t_log (t : ethread) (fd : Z) (e : event) := mk_thread (t_slots t) (t_fd_map t) (t_fd_map_size t) (t_free t) (t_active t)
  (t_hash t) (t_epoll t) (t_closed t) (t_down t) (t_events t ++ [(fd, e)]) (t_running t).
Definition t_stop (t : ethread) := mk_thread (t_slots t) (t_fd_map t) (t_fd_map_size t) (t_free t) (t_active t)
  (t_hash t) (t_epoll t) (t_closed t) (t_down t) (t_events t) false.

Definition max_connections (t : ethread) : nat := length (t_slots t).
Definition put_slot (t : ethread) (i : nat) (w : hw) : ethread := set_slots t (<[i := w]> (t_slots t)).

(** ** Descriptor map *)

Definition ws_register_fd (t : ethread) (fd : Z) (i : nat) : ethread :=
  if fd <? 0 then t
  else if fd <? t_fd_map_size t then set_fd_map t (<[fd := i]> (t_fd_map t)) else t.

Definition ws_unregister_fd (t : ethread) (fd : Z) : ethread :=
  if (0 <=? fd) && (fd <? t_fd_map_size t) then set_fd_map t (delete fd (t_fd_map t)) else t.

(** The linear search for descriptors beyond the map. *)
Fixpoint find_slot (l : list hw) (fd0 : Z) : option nat :=
  match l with
  | [] => None
  | w :: r => if fd (h_conn w) =? u32 fd0 then Some O else S <$> find_slot r fd0
  end.

Definition ws_find_connection_by_fd (t : ethread) (fd : Z) : option nat :=
  if (0 <=? fd) && (fd <? t_fd_map_size t) then t_fd_map t !! fd else find_slot (t_slots t) fd.

(** ** Start *)

(** The slot part of [ws_init_event_thread]: all slots free, slot 0 on top. *)
Definition init_slot (idle_sys : sys) (tid : Z) (i : nat) : hw :=
  mk_hw (mk_cw (mk_conn (u32 (-1)) WS_STATE_CLOSED 0 0 0 0 tid (Z.of_nat i) 0 0 parser_init [] 0 None 0
                  outq_init false None 0 [] false) idle_sys []) ∅ 1 [] [] [] [].

Definition ws_init_event_thread (idle_sys : sys) (tid : Z) (max : nat) (map_size : Z) : ethread :=
  mk_thread (init_slot idle_sys tid <$> seq 0 max) ∅ map_size (seq 0 max) 0 ws_connection_hash_create ∅ [] [] [] true.

(** ** Accepting *)

(** The slot handed to a new connection: [ws_connection_init] on the old contents, with
    the new socket [s]; the reads in flight of the slot's former user stay in flight. *)
Definition init_conn (w : hw) (s : sys) (now fd' tid : Z) (i : nat) : hw :=
  let '(c, s1) := ws_connection_init (h_conn w) s now fd' tid (Z.of_nat i) in
  with_w w (mk_cw (ws_connection_set_state c WS_STATE_CONNECTING) s1 []).

(** [process_new_connection].  [tls]: no TLS context, or whether [ws_tls_conn_new]
    succeeds; [hash_ok]: allocation in the hash table; [epoll_ok]: EPOLL_CTL_ADD. *)
Definition process_new_connection (t : ethread) (s : sys) (now tid fd' addr : Z)
    (tls : option bool) (hash_ok epoll_ok : bool) : Z * ethread :=
  if fd' <? 0 then (-1, t)
  else
    match t_free t with
    | [] => (-1, os_close t fd')
    | i :: rest =>
        let t1 := set_free t rest in
        match t_slots t1 !! i with
        | None => (-1, t1)
        | Some w0 =>
            let w1 := init_conn w0 s now fd' tid i in
            match tls with
            | Some false => (-1, os_close (put_slot t1 i (http_connection_cleanup w1)) fd')
            | _ =>
                let w2 := match tls with
                          | Some _ => h_set w1 (λ c, ws_connection_set_state (set_ssl c true) WS_STATE_TLS_HANDSHAKE)
                          | None => w1
                          end in
                let t2 := ws_register_fd t1 fd' i in
                let w3 := h_set w2 (λ c, set_client_addr c addr) in
                let t3 := put_slot t2 i w3 in
                let '(_, h) := ws_connection_hash_insert hash_ok (t_hash t3) fd' (Z.of_nat i) in
                let t4 := set_hash t3 h in
                if negb epoll_ok then
                  (-1, os_close (put_slot t4 i (http_connection_cleanup w3)) fd')
                else (0, set_active (set_epoll_set t4 ({[fd']} ∪ t_epoll t4)) (u32 (t_active t4 + 1)))
            end
        end
    end.

(** ** Closing *)

(** Release the slot's own reference: clean it up and return it to the free stack, or
    leave it to the holders of other references. *)
Definition release_slot (t : ethread) (i : nat) (w : hw) : ethread :=
  let idx := pool_index (h_conn w) in
  let '(last, c) := ws_connection_unref (h_conn w) in
  let w1 := with_w w (with_conn (h_w w) c) in
  if last then
    let t1 := put_slot t i (http_connection_cleanup w1) in
    if (length (t_free t1) <? max_connections t1)%nat
    then set_free t1 (Z.to_nat idx :: t_free t1) else t1
  else put_slot t i (h_set w1 (λ c, ws_connection_set_state c WS_STATE_CLOSED)).

Definition close_connection (on_disconnect : bool) (t : ethread) (fd' : Z) : ethread :=
  if fd' <? 0 then t
  else
    let o := ws_find_connection_by_fd t fd' in
    let t1 := ws_unregister_fd t fd' in
    let t2 := os_close (set_epoll_set t1 (t_epoll t1 ∖ {[fd']})) fd' in
    match o with
    | None => t2
    | Some i =>
        match t_slots t2 !! i with
        | None => t2
        | Some w =>
            let t3 := set_active t2 (u32 (t_active t2 - 1)) in
            let t4 := if on_disconnect then t_log t3 fd' EvDisconnect else t3 in
            let w1 := h_set w cleanup_fragmentation_state in
            let '(_, h) := ws_connection_hash_remove (t_hash t4) fd' in
            release_slot (set_hash t4 h) i w1
        end
    end.

(** ** Outbound messages *)

(** Run a connection-level sender on a slot. *)
Definition on_slot (t : ethread) (fd' : Z) (f : hw → Z * hw) : Z * ethread :=
  match ws_find_connection_by_fd t fd' with
  | None => (-1, t)
  | Some i =>
      match t_slots t !! i with
      | None => (-1, t)
      | Some w => let '(rc, w') := f w in (rc, put_slot t i w')
      end
  end.

Definition lift_cw (f : cw → Z * cw) (w : hw) : Z * hw :=
  let '(rc, v) := f (h_w w) in (rc, with_w w v).

Definition ws_buffered_data_send (t : ethread) (fd' opcode : Z) (data : list Z) : Z * ethread :=
  match ws_find_connection_by_fd t fd' with
  | None => (-1, t)
  | Some i =>
      match t_slots t !! i with
      | None => (-1, t)
      | Some w =>
          if negb (state (h_conn w) =? WS_STATE_OPEN) then (0, t)
          else
            let '(ok, w1) := h_alloc w in
            match ws_encode_frame ok opcode data with
            | None => (-1, put_slot t i w1)
            | Some frame =>
                let '(rc, w2) := h_send w1 frame in
                if rc <? 0 then
                  (rc, os_shutdown (put_slot t i (h_set w2 (λ c, ws_connection_set_state c WS_STATE_CLOSING))) fd')
                else (rc, put_slot t i w2)
            end
      end
  end.

Definition process_text_message (t : ethread) (fd' : Z) (data : list Z) : Z * ethread :=
  if fd' <? 0 then (-1, t)
  else let '(rc, t') := ws_buffered_data_send t fd' WS_OPCODE_TEXT data in ((if rc <? 0 then -1 else 0), t').
Definition process_binary_message (t : ethread) (fd' : Z) (data : list Z) : Z * ethread :=
  if fd' <? 0 then (-1, t)
  else let '(rc, t') := ws_buffered_data_send t fd' WS_OPCODE_BINARY data in ((if rc <? 0 then -1 else 0), t').
Definition process_ping_message (t : ethread) (fd' : Z) (data : list Z) : Z * ethread :=
  if fd' <? 0 then (-1, t)
  else let '(rc, t') := on_slot t fd' (lift_cw (λ v, ws_send_ping_frame v data)) in ((if rc <? 0 then -1 else 0), t').
Definition process_pong_message (t : ethread) (fd' : Z) (data : list Z) : Z * ethread :=
  if fd' <? 0 then (-1, t)
  else let '(rc, t') := on_slot t fd' (lift_cw (λ v, ws_send_pong_frame v data)) in ((if rc <? 0 then -1 else 0), t').
Definition process_user_data_update (t : ethread) (fd' v : Z) : Z * ethread :=
  if fd' <? 0 then (-1, t) else on_slot t fd' (λ w, (0, h_set w (λ c, set_user_data c v))).
Definition process_shutdown_signal (t : ethread) : Z * ethread := (0, t_stop t).

Definition process_close_message (on_close_cb : bool) (t : ethread) (fd' code : Z) (reason : list Z) : Z * ethread :=
  if fd' <? 0 then (-1, t)
  else
    match ws_find_connection_by_fd t fd' with
    | None => (0, t)
    | Some i =>
        match t_slots t !! i with
        | None => (0, t)
        | Some w =>
            let '(_, v) := ws_send_close_frame (h_w w) (u16 code) reason in
            let w1 := with_w w v in
            let t1 := set_epoll_set t (t_epoll t ∖ {[fd']}) in
            let t2 := if on_close_cb then t_log t1 fd' (EvClose code reason) else t1 in
            let '(_, h) := ws_connection_hash_remove (t_hash t2) fd' in
            let t3 := os_close (ws_unregister_fd (set_hash t2 h) fd') fd' in
            let t4 := release_slot t3 i w1 in
            (0, set_active t4 (u32 (t_active t4 - 1)))
        end
    end.

(** ** Message dispatch *)

(** What the system does when a connection is accepted: its socket, the clock, the
    thread, and the outcomes of TLS set-up, hash insertion and EPOLL_CTL_ADD. *)
Record accept_env := mk_accept {
  a_sys : sys;
  a_now : Z;
  a_tid : Z;
  a_tls : option bool;
  a_hash_ok : bool;
  a_epoll_ok : bool
}.

(** The queue's messages.  A new connection carries what the system will do when it is
    set up.  The connection of a data message is named by its slot, with the generation it
    had when the message was queued; [None] is a NULL connection. *)
Inductive out_msg :=
| MNew (fd' addr : Z) (a : accept_env)
| MText (fd' : Z) (conn : option nat) (gen : Z) (data : list Z)
| MBinary (fd' : Z) (conn : option nat) (gen : Z) (data : list Z)
| MPing (fd' : Z) (data : list Z)
| MPong (fd' : Z) (data : list Z)
| MClose (fd' code : Z) (reason : list Z)
| MUserData (fd' v : Z)
| MShutdown.

(** The guard of the data messages: the slot still holds that connection, and it is
    open. *)
Definition same_connection (t : ethread) (conn : option nat) (gen : Z) : bool :=
  match conn with
  | None => false
  | Some i =>
      match t_slots t !! i with
      | None => false
      | Some w => (generation (h_conn w) =? gen) && (state (h_conn w) =? WS_STATE_OPEN)
      end
  end.

(** The switch of [ws_mpsc_process_messages]. *)
Definition dispatch_message (on_close_cb : bool) (t : ethread) (m : out_msg) : Z * ethread :=
  match m with
  | MNew fd' addr a =>
      process_new_connection t (a_sys a) (a_now a) (a_tid a) fd' addr (a_tls a) (a_hash_ok a) (a_epoll_ok a)
  | MText fd' conn gen data =>
      if same_connection t conn gen then process_text_message t fd' data else (0, t)
  | MBinary fd' conn gen data =>
      if same_connection t conn gen then process_binary_message t fd' data else (0, t)
  | MPing fd' data => process_ping_message t fd' data
  | MPong fd' data => process_pong_message t fd' data
  | MClose fd' code reason => process_close_message on_close_cb t fd' code reason
  | MUserData fd' v => process_user_data_update t fd' v
  | MShutdown => process_shutdown_signal t
  end.

(** [ws_mpsc_process_messages] on the queued messages [q]: the number processed, the
    messages left and the thread.  A shutdown message ends the batch. *)
Fixpoint ws_mpsc_process_messages (on_close_cb : bool) (max_messages : nat)
    (t : ethread) (q : list out_msg) : nat * list out_msg * ethread :=
  match max_messages, q with
  | O, _ | _, [] => (O, q, t)
  | S k, m :: r =>
      let t' := (dispatch_message on_close_cb t m).2 in
      match m with
      | MShutdown => (1%nat, r, t')
      | _ => let '(n, rest, t2) := ws_mpsc_process_messages on_close_cb k t' r in (S n, rest, t2)
      end
  end.

(** The drain on a wakeup: batches of 256 until one is empty.  Every batch but the last
    takes a message, so [length q + 1] rounds are enough. *)
Fixpoint drain_loop (on_close_cb : bool) (fuel : nat) (t : ethread) (q : list out_msg) : list out_msg * ethread :=
  match fuel with
  | O => (q, t)
  | S k =>
      let '(batch, rest, t') := ws_mpsc_process_messages on_close_cb 256 t q in
      if (0 <? batch)%nat then drain_loop on_close_cb k t' rest else (rest, t')
  end.
Definition drain_messages (on_close_cb : bool) (t : ethread) (q : list out_msg) : list out_msg * ethread :=
  drain_loop on_close_cb (S (length q)) t q.

(** ** Socket events *)

Section Events.
Context (E : http_env) (cpu0 : cpu).
Context (on_disconnect on_close_cb : bool).

(** The outcomes of [ws_tls_do_handshake]. *)
Inductive tls_step := TlsDone | TlsWantRead | TlsWantWrite | TlsFailed.

Definition handle_tls_handshake (st : tls_step) (w : hw) : Z * hw :=
  let arm b := with_w w (with_sys (h_w w) (sys_epoll_mod (h_sys w) b).2) in
  match st with
  | TlsDone => portico_initial_dispatch E (h_set (arm false) (λ c, ws_connection_set_state c WS_STATE_CONNECTING))
  | TlsWantRead => (0, arm false)
  | TlsWantWrite => (0, arm true)
  | TlsFailed => (-1, w)
  end.

(** The dispatch of [handle_connection_read] by state. *)
Definition read_slot (st : tls_step) (w : hw) : Z * hw :=
  let s := state (h_conn w) in
  if s =? WS_STATE_TLS_HANDSHAKE then handle_tls_handshake st w
  else if s =? WS_STATE_CONNECTING then portico_initial_dispatch E w
  else if s =? WS_STATE_OPEN then lift_cw (handle_websocket_frames cpu0 (e_cfg E) (e_now E)) w
  else if s =? WS_STATE_HTTP then portico_http_event E w
  else (-1, w).

Definition handle_connection_read (st : tls_step) (t : ethread) (fd' : Z) : Z * ethread :=
  if fd' <? 0 then (-1, t) else on_slot t fd' (read_slot st).

Definition write_slot (st : tls_step) (w : hw) : Z * hw :=
  if state (h_conn w) =? WS_STATE_TLS_HANDSHAKE then handle_tls_handshake st w
  else portico_conn_on_writable E w.

Definition handle_connection_write (st : tls_step) (t : ethread) (fd' : Z) : Z * ethread :=
  if fd' <? 0 then (-1, t)
  else
    match ws_find_connection_by_fd t fd' with
    | None => (-1, t)
    | Some _ =>
        let '(rc, t1) := on_slot t fd' (write_slot st) in
        if rc <? 0 then (-1, close_connection on_disconnect t1 fd') else (0, t1)
    end.

(** One entry of [epoll_wait]'s result for a connection: the flags in order, and
    nothing more once the descriptor is closed. *)
Definition connection_event (st1 st2 : tls_step) (t : ethread) (fd' : Z) (ein eout ehup : bool) : ethread :=
  let '(closed1, t1) :=
    if ein then
      let '(rc, t1) := handle_connection_read st1 t fd' in
      if rc <? 0 then (true, close_connection on_disconnect t1 fd') else (false, t1)
    else (false, t) in
  let '(closed2, t2) :=
    if negb closed1 && eout then
      let '(rc, t2) := handle_connection_write st2 t1 fd' in (rc <? 0, t2)
    else (closed1, t1) in
  if negb closed2 && ehup then close_connection on_disconnect t2 fd' else t2.

(** A completed file read of slot [i]; the completion may close the connection. *)
Definition slot_completion (t : ethread) (i k : nat) : ethread :=
  match t_slots t !! i with
  | None => t
  | Some w =>
      let '(close_it, w') := aio_complete E w k in
      let t1 := put_slot t i w' in
      if close_it then close_connection on_disconnect t1 (i32 (fd (h_conn w'))) else t1
  end.

(** ** The reaper *)

Record timeouts := mk_timeouts { handshake_timeout : Z; ping_interval : Z; pong_timeout : Z }.
Definition or10 (z : Z) : Z := if z =? 0 then 10 else z.

(** What the reaper decides for a connection. *)
Inductive verdict := VKeep | VClose | VPing.

Definition reap_verdict (cfg : timeouts) (now : Z) (c : ws_connection) : verdict :=
  if i32 (fd c) <? 0 then VKeep
  else if (state c =? WS_STATE_CONNECTING) || (state c =? WS_STATE_TLS_HANDSHAKE) then
    if connect_time c =? 0 then VKeep
    else if or10 (handshake_timeout cfg) <=? now - connect_time c then VClose else VKeep
  else if (ping_interval cfg =? 0) || (last_activity c =? 0) then VKeep
  else
    let idle := now - last_activity c in
    if state c =? WS_STATE_OPEN then
      if negb (ping_sent_at c =? 0) then
        if or10 (pong_timeout cfg) <=? now - ping_sent_at c then VClose else VKeep
      else if ping_interval cfg <=? idle then VPing else VKeep
    else if state c =? WS_STATE_HTTP then
      if ping_interval cfg + or10 (pong_timeout cfg) <=? idle then VClose else VKeep
    else VKeep.

Definition reap_slot (cfg : timeouts) (now : Z) (t : ethread) (i : nat) : ethread :=
  match t_slots t !! i with
  | None => t
  | Some w =>
      match reap_verdict cfg now (h_conn w) with
      | VKeep => t
      | VClose => close_connection on_disconnect t (i32 (fd (h_conn w)))
      | VPing =>
          let '(rc, w1) := lift_cw (λ v, ws_send_ping_frame v []) w in
          if rc =? 0 then put_slot t i (h_set w1 (λ c, set_ping_sent c (u32 now)))
          else close_connection on_disconnect (put_slot t i w1) (i32 (fd (h_conn w1)))
      end
  end.

Definition reap_stale_connections (cfg : timeouts) (now : Z) (t : ethread) : ethread :=
  fold_left (reap_slot cfg now) (seq 0 (max_connections t)) t.

(** ** The event loop *)

(** One entry of [epoll_wait]'s result: the wakeup descriptor, the completions of the
    asynchronous backend (slot and index of the read), or a connection with its flags. *)
Inductive ep_event :=
| EpWakeup
| EpAio (done_ : list (nat * nat))
| EpConn (fd' : Z) (ein eout ehup : bool) (st1 st2 : tls_step).

Record loop_state := mk_loop { l_thread : ethread; l_queue : list out_msg; l_last_reap : Z }.

Definition ep_step (s : loop_state) (ev : ep_event) : loop_state :=
  match ev with
  | EpWakeup =>
      let '(q, t) := drain_messages on_close_cb (l_thread s) (l_queue s) in mk_loop t q (l_last_reap s)
  | EpAio done_ =>
      mk_loop (fold_left (λ t '(i, k), slot_completion t i k) done_ (l_thread s)) (l_queue s) (l_last_reap s)
  | EpConn fd' ein eout ehup st1 st2 =>
      mk_loop (connection_event st1 st2 (l_thread s) fd' ein eout ehup) (l_queue s) (l_last_reap s)
  end.

(** One turn of the loop of [ws_event_thread_worker]: the batch [evs] returned by
    [epoll_wait] (empty on a timeout), then the reaper, at most once per second. *)
Definition worker_turn (cfg : timeouts) (now : Z) (evs : list ep_event) (s : loop_state) : loop_state :=
  let s1 := match evs with
            | [] => let '(_, q, t) := ws_mpsc_process_messages on_close_cb 10 (l_thread s) (l_queue s) in
                    mk_loop t q (l_last_reap s)
            | _ => fold_left ep_step evs s
            end in
  if now =? l_last_reap s1 then s1
  else mk_loop (reap_stale_connections cfg now (l_thread s1)) (l_queue s1) now.

End Events.
