(* ===== verification/ThreadInv.v ===== *)
(** * Slot accounting of an event thread (properties of Thread)

    In every history of an event thread a slot is never given to two connections, and
    every open descriptor leads to the slot of its own connection. *)
From Stdlib Require Import ZArith Lia.
From stdpp Require Import base numbers list strings gmap.
From S2P Require Import Prelude Cstr Frame Sys OutBuf Conn ConnHash WsHandler HttpRequest HttpResponse Handshake HttpConn Ident Thread.
Open Scope Z_scope.

Lemma i32_lt z : i32 z < 2 ^ 31.
Proof. unfold i32. lia. Qed.

Definition NO_FD : Z := u32 (-1).

(** A descriptor the map covers: below the process limit the map was sized with. *)
Definition fd_in (t : ethread) (f : Z) : Prop := 0 <= f < t_fd_map_size t.

Record slots_inv (t : ethread) : Prop := mk_inv {
  inv_size : 0 < t_fd_map_size t <= 2 ^ 31;
  inv_nodup : NoDup (t_free t);
  inv_free : ∀ i, i ∈ t_free t → (i < max_connections t)%nat;
  inv_map : ∀ f i, t_fd_map t !! f = Some i →
    fd_in t f ∧ (i ∉ t_free t) ∧
    ∃ w, t_slots t !! i = Some w ∧ fd (h_conn w) = f ∧ pool_index (h_conn w) = Z.of_nat i;
  inv_fds : ∀ i w, t_slots t !! i = Some w → fd_in t (fd (h_conn w)) ∨ fd (h_conn w) = NO_FD
}.

(** No two descriptors share a slot. *)
Lemma map_injective t f1 f2 i :
  slots_inv t → t_fd_map t !! f1 = Some i → t_fd_map t !! f2 = Some i → f1 = f2.
Proof.
  intros Hi H1 H2. apply (inv_map t Hi) in H1 as (_ & _ & w1 & Hw1 & <- & _).
  apply (inv_map t Hi) in H2 as (_ & _ & w2 & Hw2 & <- & _). congruence.
Qed.

(** The fields the invariant is about. *)
Definition same_tables (t t' : ethread) : Prop :=
  t_slots t' = t_slots t ∧ t_fd_map t' = t_fd_map t ∧ t_fd_map_size t' = t_fd_map_size t ∧ t_free t' = t_free t.

Lemma inv_same t t' : slots_inv t → same_tables t t' → slots_inv t'.
Proof.
  intros [] (E1 & E2 & E3 & E4). unfold fd_in, max_connections in *.
  constructor; unfold fd_in, max_connections; rewrite ?E1, ?E2, ?E3, ?E4; done.
Qed.

(** ** Handlers *)

Lemma put_slot_inv t i w w' :
  slots_inv t → t_slots t !! i = Some w → hkeeps w w' → slots_inv (put_slot t i w').
Proof.
  intros Hi Hw Hk. destruct Hk as [Hk _]. injection Hk as Hf Hp _. pose proof (lookup_lt_Some _ _ _ Hw) as Hlt.
  constructor; cbn.
  - apply Hi.
  - apply Hi.
  - intros j Hj. unfold max_connections. cbn. rewrite length_insert. by apply (inv_free t Hi).
  - intros f j Hj. destruct (inv_map t Hi f j Hj) as (H1 & H2 & w0 & H3 & H4 & H5).
    split; [done |]. split; [done |]. destruct (decide (i = j)) as [<- | Hne].
    + exists w'. rewrite list_lookup_insert_eq by done. rewrite Hw in H3. injection H3 as <-. by rewrite Hf, Hp.
    + exists w0. by rewrite list_lookup_insert_ne.
  - intros j w0 Hj. destruct (decide (i = j)) as [<- | Hne].
    + rewrite list_lookup_insert_eq in Hj by done. injection Hj as <-. rewrite Hf. by apply (inv_fds t Hi i w).
    + rewrite list_lookup_insert_ne in Hj by done. by apply (inv_fds t Hi j w0).
Qed.

Lemma on_slot_inv t f g rc t' :
  slots_inv t → (∀ w r w', g w = (r, w') → hkeeps w w') → on_slot t f g = (rc, t') → slots_inv t'.
Proof.
  intros Hi Hg. unfold on_slot. destruct (ws_find_connection_by_fd t f) as [i | ]; [ | by intros [= <- <-]].
  destruct (t_slots t !! i) as [w | ] eqn:EW; [ | by intros [= <- <-]].
  destruct (g w) as [r w'] eqn:EG. intros [= <- <-]. by eapply put_slot_inv, Hg.
Qed.

Lemma lift_keeps g w r w' :
  (∀ v r v', g v = (r, v') → keeps v v') → lift_cw g w = (r, w') → hkeeps w w'.
Proof.
  intros Hg. unfold lift_cw. destruct (g (h_w w)) as [rc v] eqn:EG. intros [= <- <-]. exact (with_w_keeps w v (Hg _ _ _ EG)).
Qed.

Lemma lift_frame_keeps op d w r w' : lift_cw (λ v, send_whole_frame op v d) w = (r, w') → hkeeps w w'.
Proof. intros H. eapply lift_keeps; [ | exact H]. intros v x v'. apply send_whole_frame_keeps. Qed.

(** ** Closing *)

Lemma abort_keeps w : hkeeps w (portico_http_stream_abort w).
Proof.
  unfold portico_http_stream_abort. destruct (file_stream (h_conn w)) as [p | ]; [ | done].
  assert (H1 : hkeeps w (h_set w (λ c, set_stream c None))) by (by apply hkeeps_w).
  destruct (h_heap w !! p) as [s | ]; [ | done]. destruct (s_reading s); [done |].
  etransitivity; [exact H1 | apply (stream_free_keeps _ _)].
Qed.

Lemma cleanup_fd w : fd (h_conn (http_connection_cleanup w)) = 0.
Proof.
  unfold http_connection_cleanup. destruct (ws_connection_cleanup _ _) as [c s] eqn:EC. cbn.
  unfold ws_connection_cleanup in EC. destruct (ws_connection_cleanup_write_buffer _ _). by simplify_eq.
Qed.

(** Replacing a slot that no descriptor leads to. *)
Lemma put_unmapped_inv t i w' :
  slots_inv t → (∀ f, t_fd_map t !! f ≠ Some i) → (fd_in t (fd (h_conn w')) ∨ fd (h_conn w') = NO_FD) →
  slots_inv (put_slot t i w').
Proof.
  intros Hi Hno Hfd. constructor; cbn.
  - apply Hi.
  - apply Hi.
  - intros j Hj. unfold max_connections. cbn. rewrite length_insert. by apply (inv_free t Hi).
  - intros f j Hj. destruct (inv_map t Hi f j Hj) as (H1 & H2 & w0 & H3 & H4 & H5).
    split; [done |]. split; [done |]. exists w0. rewrite list_lookup_insert_ne; [done |]. intros ->. by apply (Hno f).
  - intros j w0 Hj. destruct (decide (i = j)) as [<- | Hne].
    + destruct (decide (i < length (t_slots t))%nat).
      * rewrite list_lookup_insert_eq in Hj by done. by injection Hj as <-.
      * rewrite list_insert_ge in Hj by lia. by apply (inv_fds t Hi i w0).
    + rewrite list_lookup_insert_ne in Hj by done. by apply (inv_fds t Hi j w0).
Qed.

(** Pushing a slot that is neither free nor in use. *)
Lemma push_free_inv t i :
  slots_inv t → (∀ f, t_fd_map t !! f ≠ Some i) → i ∉ t_free t → (i < max_connections t)%nat →
  slots_inv (set_free t (i :: t_free t)).
Proof.
  intros Hi Hno Hf Hlt. constructor; cbn.
  - apply Hi.
  - constructor; [done | apply Hi].
  - intros j Hj. apply elem_of_cons in Hj as [-> | Hj]; [done | by apply (inv_free t Hi)].
  - intros f j Hj. destruct (inv_map t Hi f j Hj) as (H1 & H2 & H3). split; [done |]. split; [ | done].
    apply not_elem_of_cons. split; [ | done]. intros ->. by apply (Hno f).
  - apply Hi.
Qed.

Lemma release_slot_inv t i w0 w :
  slots_inv t → t_slots t !! i = Some w0 → hkeeps w0 w → pool_index (h_conn w0) = Z.of_nat i →
  (∀ f, t_fd_map t !! f ≠ Some i) → i ∉ t_free t → slots_inv (release_slot t i w).
Proof.
  intros Hi Hw Hk Hp Hno Hf. pose proof (lookup_lt_Some _ _ _ Hw) as Hlt. destruct Hk as [Hk _]. injection Hk as Hk1 Hk2 _.
  unfold release_slot, ws_connection_unref. rewrite Hk2, Hp, Nat2Z.id. destruct (_ =? 1).
  - set (w2 := http_connection_cleanup _).
    assert (Hput : slots_inv (put_slot t i w2)).
    { apply put_unmapped_inv; [done | done |]. left. unfold w2. rewrite cleanup_fd.
      pose proof (inv_size t Hi). unfold fd_in. lia. }
    destruct (_ <? _)%nat; [ | done]. apply push_free_inv; try done.
    unfold max_connections. cbn. by rewrite length_insert.
  - apply put_unmapped_inv; [done | done |]. cbn. unfold h_conn in *. rewrite Hk1. by apply (inv_fds t Hi i w0).
Qed.

(** Forgetting a descriptor. *)
Lemma unregister_inv t f : slots_inv t → slots_inv (ws_unregister_fd t f).
Proof.
  intros Hi. unfold ws_unregister_fd. destruct (_ && _); [ | done]. constructor; cbn; try apply Hi.
  intros g j. rewrite lookup_delete_Some. intros [_ Hj]. by apply (inv_map t Hi).
Qed.

Lemma unregister_unmaps t f i :
  slots_inv t → t_fd_map t !! f = Some i → ∀ g, t_fd_map (ws_unregister_fd t f) !! g ≠ Some i.
Proof.
  intros Hi Hf g. pose proof (inv_map t Hi f i Hf) as ((H1 & H2) & _). unfold ws_unregister_fd.
  rewrite (proj2 (Z.leb_le 0 f)), (proj2 (Z.ltb_lt f _)) by lia. cbn. rewrite lookup_delete_Some.
  intros [Hne Hg]. by apply Hne, (map_injective t f g i).
Qed.

Lemma unregister_fields t f :
  t_slots (ws_unregister_fd t f) = t_slots t ∧ t_free (ws_unregister_fd t f) = t_free t ∧
  t_fd_map_size (ws_unregister_fd t f) = t_fd_map_size t.
Proof. unfold ws_unregister_fd. by destruct (_ && _). Qed.

Lemma find_in_map t f : fd_in t f → ws_find_connection_by_fd t f = t_fd_map t !! f.
Proof.
  intros [H1 H2]. unfold ws_find_connection_by_fd.
  by rewrite (proj2 (Z.leb_le 0 f)), (proj2 (Z.ltb_lt f _)) by lia.
Qed.

(** The common part of the two ways to close: the descriptor is forgotten and the
    slot released. *)
Lemma forget_release_inv t f i w w1 t1 :
  slots_inv t → t_fd_map t !! f = Some i → t_slots t !! i = Some w → hkeeps w w1 →
  same_tables (ws_unregister_fd t f) t1 → slots_inv (release_slot t1 i w1).
Proof.
  intros Hi Hm Hw Hk HS. pose proof (inv_map t Hi f i Hm) as (_ & Hnf & w' & Hw' & _ & Hp).
  rewrite Hw in Hw'. injection Hw' as <-.
  pose proof (inv_same _ _ (unregister_inv t f Hi) HS) as Hi1.
  destruct HS as (S1 & S2 & S3 & S4). destruct (unregister_fields t f) as (U1 & U2 & _).
  apply (release_slot_inv t1 i w); try done.
  - by rewrite S1, U1.
  - intros g. rewrite S2. by apply unregister_unmaps.
  - by rewrite S4, U2.
Qed.

Lemma close_connection_inv cb t f :
  slots_inv t → fd_in t f ∨ f < 0 → slots_inv (close_connection cb t f).
Proof.
  intros Hi Hf. unfold close_connection. destruct (f <? 0) eqn:E0; [done |]. zbool.
  destruct Hf as [Hf | ?]; [ | lia]. rewrite find_in_map by done.
  assert (Hclosed : ∀ t2, same_tables (ws_unregister_fd t f) t2 → slots_inv t2).
  { intros t2 HS. eapply inv_same; [by apply unregister_inv | exact HS]. }
  destruct (t_fd_map t !! f) as [i | ] eqn:EM; [ | by apply Hclosed].
  cbn [t_slots os_close set_epoll_set]. destruct (unregister_fields t f) as (U1 & _). rewrite U1.
  destruct (t_slots t !! i) as [w | ] eqn:EW; [ | by apply Hclosed].
  destruct (ws_connection_hash_remove _ f) as [rc h].
  eapply (forget_release_inv t f i w); [done | done | done | by apply hkeeps_w |]. by destruct cb.
Qed.

Lemma close_message_inv cb t f code reason rc t' :
  slots_inv t → fd_in t f → process_close_message cb t f code reason = (rc, t') → slots_inv t'.
Proof.
  intros Hi Hf. unfold process_close_message. split_if; [by intros [= <- <-] |]. rewrite find_in_map by done.
  destruct (t_fd_map t !! f) as [i | ] eqn:EM; [ | by intros [= <- <-]].
  destruct (t_slots t !! i) as [w | ] eqn:EW; [ | by intros [= <- <-]].
  destruct (ws_send_close_frame (h_w w) (u16 code) reason) as [r v] eqn:EC. apply send_close_keeps in EC.
  destruct (ws_connection_hash_remove _ f) as [r2 h]. intros [= <- <-].
  eapply inv_same with (t := release_slot _ i (with_w w v)); [ | by split_and!].
  eapply (forget_release_inv t f i w); [done | done | done | by apply with_w_keeps |].
  unfold ws_unregister_fd. by destruct cb; cbn; destruct (_ && _).
Qed.

(** ** Accepting *)

Lemma new_connection_inv t s now tid f addr tls hok rc t' :
  slots_inv t → fd_in t f → t_fd_map t !! f = None →
  process_new_connection t s now tid f addr tls hok true = (rc, t') → slots_inv t'.
Proof.
  intros Hi Hf Hnone. unfold process_new_connection. split_if; [by intros [= <- <-] |].
  destruct (t_free t) as [ | i rest] eqn:EF; [intros [= <- <-]; by apply (inv_same t) |].
  pose proof (inv_nodup t Hi) as HN. rewrite EF in HN. apply NoDup_cons in HN as [Hni HN].
  assert (Hfree : i ∈ t_free t) by (rewrite EF; apply elem_of_cons; by left).
  assert (Hnomap : ∀ g, t_fd_map t !! g ≠ Some i).
  { intros g Hg. by apply (inv_map t Hi) in Hg as (_ & Hn & _). }
  assert (Hi1 : slots_inv (set_free t rest)).
  { constructor; cbn; try apply Hi; try done.
    - intros j Hj. apply (inv_free t Hi). rewrite EF. apply elem_of_cons. by right.
    - intros g j Hj. destruct (inv_map t Hi g j Hj) as (A & B & C). split; [done |]. split; [ | done].
      rewrite EF in B. by apply not_elem_of_cons in B as [_ B]. }
  cbn [t_slots set_free]. destruct (t_slots t !! i) as [w0 | ] eqn:EW; [ | by intros [= <- <-]].
  pose proof (lookup_lt_Some _ _ _ EW) as Hlt.
  set (w1 := init_conn w0 s now f tid i).
  assert (Hid : fd (h_conn w1) = f ∧ pool_index (h_conn w1) = Z.of_nat i).
  { unfold w1, init_conn, ws_connection_init. destruct (sys_alloc s). cbn. split; [ | done].
    apply u32_small. pose proof (inv_size t Hi). unfold fd_in in Hf. lia. }
  assert (Hgood : ∀ w3 h e a, fd (h_conn w3) = f → pool_index (h_conn w3) = Z.of_nat i →
    slots_inv (set_active (set_epoll_set (set_hash (put_slot (ws_register_fd (set_free t rest) f i) i w3) h) e) a)).
  { intros w3 h e a Hw1 Hw2. eapply inv_same with (t := put_slot (ws_register_fd (set_free t rest) f i) i w3); [ | by split_and!].
    assert (HR : ws_register_fd (set_free t rest) f i = set_fd_map (set_free t rest) (<[f := i]> (t_fd_map t))).
    { unfold ws_register_fd. destruct Hf. rewrite (proj2 (Z.ltb_ge f 0)) by lia. cbn.
      by rewrite (proj2 (Z.ltb_lt f _)) by lia. }
    rewrite HR. constructor; cbn; try apply Hi1.
    - intros j Hj. unfold max_connections. cbn. rewrite length_insert. by apply (inv_free _ Hi1).
    - intros g j Hj. apply lookup_insert_Some in Hj as [[<- <-] | [Hne Hj]].
      + split; [done |]. split; [done |]. exists w3. by rewrite list_lookup_insert_eq.
      + destruct (inv_map _ Hi1 g j Hj) as (A & B & w & C & D). split; [done |]. split; [done |]. exists w.
        rewrite list_lookup_insert_ne; [done |]. intros ->. by apply (Hnomap g).
    - intros j w Hj. destruct (decide (i = j)) as [<- | Hne].
      + rewrite list_lookup_insert_eq in Hj by done. injection Hj as <-. left. by rewrite Hw1.
      + rewrite list_lookup_insert_ne in Hj by done. by apply (inv_fds t Hi j w). }
  destruct tls as [[ | ] | ].
  - destruct (ws_connection_hash_insert _ _ _ _) as [r h]. cbn [negb]. intros [= <- <-]. apply Hgood; apply Hid.
  - intros [= <- <-]. eapply inv_same with (t := put_slot (set_free t rest) i (http_connection_cleanup w1)); [ | by split_and!].
    apply put_unmapped_inv; [done | done |]. left. rewrite cleanup_fd. pose proof (inv_size t Hi). unfold fd_in. cbn. lia.
  - destruct (ws_connection_hash_insert _ _ _ _) as [r h]. cbn [negb]. intros [= <- <-]. apply Hgood; apply Hid.
Qed.

(** ** Outbound messages *)

Lemma data_send_inv t f op d rc t' :
  slots_inv t → ws_buffered_data_send t f op d = (rc, t') → slots_inv t'.
Proof.
  intros Hi. unfold ws_buffered_data_send. destruct (ws_find_connection_by_fd t f) as [i | ]; [ | by intros [= <- <-]].
  destruct (t_slots t !! i) as [w | ] eqn:EW; [ | by intros [= <- <-]]. split_if; [by intros [= <- <-] |].
  destruct (h_alloc w) as [ok w1] eqn:EA. apply h_alloc_keeps in EA as [EA _].
  destruct (ws_encode_frame ok op d) as [fr | ]; [ | intros [= <- <-]; by eapply put_slot_inv].
  destruct (h_send w1 fr) as [r w2] eqn:ES. apply h_send_keeps in ES as [ES _].
  assert (Hk : hkeeps w w2) by (by transitivity w1).
  split_if; intros [= <- <-]; [ | by eapply put_slot_inv].
  eapply inv_same with (t := put_slot t i _); [ | by split_and!].
  eapply put_slot_inv; [done | done |]. etransitivity; [exact Hk | by apply hkeeps_w].
Qed.


(** ** Every operation *)

(** A C [int] descriptor that is beyond the map is the descriptor of no slot. *)
Lemma find_beyond t f : slots_inv t → t_fd_map_size t <= f < 2 ^ 31 → ws_find_connection_by_fd t f = None.
Proof.
  intros Hi Hf. pose proof (inv_size t Hi) as Hs. unfold ws_find_connection_by_fd.
  rewrite (proj2 (Z.ltb_ge f _)), andb_false_r by lia.
  assert (H : ∀ w, w ∈ t_slots t → fd (h_conn w) ≠ f).
  { intros w [i Hw]%list_elem_of_lookup. destruct (inv_fds t Hi i w Hw) as [[? ?] | ->]; [lia |].
    unfold NO_FD. change (u32 (-1)) with (2 ^ 32 - 1). lia. }
  clear Hi. revert H. generalize (t_slots t) as l. induction l as [ | w l IH]; intros H; [done |]. cbn.
  rewrite u32_small by lia. rewrite (proj2 (Z.eqb_neq _ _)); [ | apply H, elem_of_cons; by left].
  rewrite IH; [done |]. intros w' Hw'. apply H, elem_of_cons. by right.
Qed.

Lemma close_any_inv cb t f : slots_inv t → f < 2 ^ 31 → slots_inv (close_connection cb t f).
Proof.
  intros Hi Hf. pose proof (inv_size t Hi).
  destruct (decide (f < t_fd_map_size t)) as [Hlt | Hge].
  - apply close_connection_inv; [done |]. unfold fd_in. lia.
  - unfold close_connection. split_if; [done |]. rewrite find_beyond by (done || lia).
    eapply inv_same; [by apply (unregister_inv t f) | by split_and!].
Qed.

Lemma close_msg_any_inv cb t f code reason rc t' :
  slots_inv t → f < 2 ^ 31 → process_close_message cb t f code reason = (rc, t') → slots_inv t'.
Proof.
  intros Hi Hf. pose proof (inv_size t Hi).
  destruct (decide (0 <= f < t_fd_map_size t)) as [Hin | Hout]; [by apply close_message_inv |].
  unfold process_close_message. split_if; [by intros [= <- <-] |].
  rewrite find_beyond by (done || lia). by intros [= <- <-].
Qed.

(** The descriptor a message names. *)
Definition msg_fd (m : out_msg) : Z :=
  match m with
  | MNew f _ _ | MText f _ _ _ | MBinary f _ _ _ | MPing f _ | MPong f _ | MClose f _ _ | MUserData f _ => f
  | MShutdown => 0
  end.

(** What the kernel guarantees for an accepted descriptor: it is within the limit the map
    was sized with, and it is not in use.  The registration with epoll succeeds. *)
Definition accept_ok (t : ethread) (m : out_msg) : Prop :=
  match m with
  | MNew f _ a => fd_in t f ∧ t_fd_map t !! f = None ∧ a_epoll_ok a = true
  | _ => msg_fd m < 2 ^ 31
  end.

Lemma dispatch_inv cb t m rc t' :
  slots_inv t → accept_ok t m → dispatch_message cb t m = (rc, t') → slots_inv t'.
Proof.
  intros Hi Ha. destruct m; cbn in Ha |- *.
  - destruct Ha as (H1 & H2 & ->). by apply new_connection_inv.
  - split_if; [ | by intros [= <- <-]]. unfold process_text_message. split_if; [by intros [= <- <-] |].
    destruct (ws_buffered_data_send _ _ _ _) eqn:ED. intros [= <- <-]. by eapply data_send_inv.
  - split_if; [ | by intros [= <- <-]]. unfold process_binary_message. split_if; [by intros [= <- <-] |].
    destruct (ws_buffered_data_send _ _ _ _) eqn:ED. intros [= <- <-]. by eapply data_send_inv.
  - unfold process_ping_message. split_if; [by intros [= <- <-] |].
    destruct (on_slot _ _ _) eqn:EO. intros [= <- <-]. eapply on_slot_inv; [done | | exact EO]. apply lift_frame_keeps.
  - unfold process_pong_message. split_if; [by intros [= <- <-] |].
    destruct (on_slot _ _ _) eqn:EO. intros [= <- <-]. eapply on_slot_inv; [done | | exact EO]. apply lift_frame_keeps.
  - by apply close_msg_any_inv.
  - unfold process_user_data_update. split_if; [by intros [= <- <-] |]. intros EO.
    eapply on_slot_inv; [done | | exact EO]. intros w r w' [= <- <-]. by apply hkeeps_w.
  - intros [= <- <-]. by apply (inv_same t).
Qed.

Section Steps.
Context (E : http_env) (cpu0 : cpu) (on_disconnect on_close_cb : bool).

Lemma tls_keeps st w r w' : handle_tls_handshake E st w = (r, w') → hkeeps w w'.
Proof.
  destruct st; cbn; [ | intros [= <- <-]; by apply hkeeps_w.. ]. intros H%initial_dispatch_keeps.
  etransitivity; [ | exact H]. by apply hkeeps_w.
Qed.

Lemma read_slot_keeps st w r w' : read_slot E cpu0 st w = (r, w') → hkeeps w w'.
Proof.
  unfold read_slot. split_if; [apply tls_keeps |]. split_if; [apply initial_dispatch_keeps |].
  split_if; [intros H; eapply lift_keeps; [ | exact H]; apply ws_frames_keeps |].
  split_if; [intros HE; by apply (http_event_keeps E) in HE as [HE _] | by intros [= <- <-]].
Qed.

Lemma write_slot_keeps st w r w' : write_slot E st w = (r, w') → hkeeps w w'.
Proof. unfold write_slot. split_if; [apply tls_keeps | intros H; by apply (on_writable_keeps E) in H as [H _]]. Qed.

Lemma read_inv st t f rc t' :
  slots_inv t → handle_connection_read E cpu0 st t f = (rc, t') → slots_inv t'.
Proof.
  intros Hi. unfold handle_connection_read. split_if; [by intros [= <- <-] |].
  apply on_slot_inv; [done | apply read_slot_keeps].
Qed.

Lemma write_inv st t f rc t' :
  slots_inv t → f < 2 ^ 31 → handle_connection_write E on_disconnect st t f = (rc, t') → slots_inv t'.
Proof.
  intros Hi Hf. unfold handle_connection_write. split_if; [by intros [= <- <-] |].
  destruct (ws_find_connection_by_fd t f); [ | by intros [= <- <-]].
  destruct (on_slot t f _) as [r t1] eqn:EO.
  apply on_slot_inv in EO; [ | done | apply write_slot_keeps].
  split_if; intros [= <- <-]; [by apply close_any_inv | done].
Qed.

Lemma event_inv st1 st2 t f a b c :
  slots_inv t → f < 2 ^ 31 → slots_inv (connection_event E cpu0 on_disconnect st1 st2 t f a b c).
Proof.
  intros Hi Hf. unfold connection_event.
  assert (H1 : ∀ x, (if a then let '(rc, t1) := handle_connection_read E cpu0 st1 t f in
      if rc <? 0 then (true, close_connection on_disconnect t1 f) else (false, t1) else (false, t)) = x → slots_inv x.2).
  { intros x <-. destruct a; [ | done]. destruct (handle_connection_read _ _ _ _ _) as [rc t1] eqn:ER.
    apply read_inv in ER; [ | done]. destruct (rc <? 0); [by apply close_any_inv | done]. }
  destruct (if a then _ else _) as [closed1 t1]. specialize (H1 _ eq_refl). cbn in H1.
  assert (H2 : ∀ x, (if negb closed1 && b then let '(rc, t2) := handle_connection_write E on_disconnect st2 t1 f in
      (rc <? 0, t2) else (closed1, t1)) = x → slots_inv x.2).
  { intros x <-. destruct (negb closed1 && b); [ | done]. destruct (handle_connection_write _ _ _ _ _) as [rc t2] eqn:EW.
    by apply write_inv in EW. }
  destruct (if negb closed1 && b then _ else _) as [closed2 t2]. specialize (H2 _ eq_refl). cbn in H2.
  destruct (negb closed2 && c); [by apply close_any_inv | done].
Qed.

Lemma completion_inv t i k : slots_inv t → slots_inv (slot_completion E on_disconnect t i k).
Proof.
  intros Hi. unfold slot_completion. destruct (t_slots t !! i) as [w | ] eqn:EW; [ | done].
  destruct (aio_complete E w k) as [b w'] eqn:EA. apply (aio_complete_keeps E) in EA as [EA _].
  pose proof (put_slot_inv t i w w' Hi EW EA) as H1. destruct b; [ | done].
  apply close_any_inv; [done | apply i32_lt].
Qed.

Lemma reap_slot_inv cfg now t i : slots_inv t → slots_inv (reap_slot on_disconnect cfg now t i).
Proof.
  intros Hi. unfold reap_slot. destruct (t_slots t !! i) as [w | ] eqn:EW; [ | done].
  destruct (reap_verdict cfg now (h_conn w)); [done | apply close_any_inv; [done | apply i32_lt] |].
  destruct (lift_cw _ w) as [rc w1] eqn:EL.
  apply lift_frame_keeps in EL as Hk.
  destruct (rc =? 0).
  { eapply put_slot_inv; [done | done |]. etransitivity; [exact Hk | by apply hkeeps_w]. }
  apply close_any_inv; [by eapply put_slot_inv | apply i32_lt].
Qed.

Lemma reap_inv cfg now t : slots_inv t → slots_inv (reap_stale_connections on_disconnect cfg now t).
Proof.
  unfold reap_stale_connections. generalize (seq 0 (max_connections t)) as l. intros l. revert t.
  induction l as [ | i l IH]; intros t Hi; [done |]. cbn. by apply IH, reap_slot_inv.
Qed.
End Steps.
