(* ===== verification/ThreadSpec.v ===== *)
(** * Histories of an event thread (properties of Thread)

    Every history of a thread, made of queued messages, socket events, file-read
    completions, reaper passes and the references other threads take: slots are never
    shared, the thread's tables agree with each other, and a data message never reaches a
    later user of the slot it was queued for. *)
From Stdlib Require Import ZArith Lia.
From stdpp Require Import base numbers list strings gmap.
From S2P Require Import Prelude Cstr Frame Sys OutBuf Conn ConnHash WsHandler HttpRequest HttpResponse Handshake HttpConn HttpServe Ident Thread ThreadInv.
Open Scope Z_scope.

(** ** Generations *)

Definition gen_of (t : ethread) (i : nat) : option Z := (λ w, generation (h_conn w)) <$> t_slots t !! i.

Definition slot_tame (t : ethread) (i : nat) : Prop := ∀ w, t_slots t !! i = Some w → tame w.

(** The slot keeps its generation, and its reads and contexts stay accounted for. *)
Definition kept (w w' : hw) : Prop := generation (h_conn w') = generation (h_conn w) ∧ (tame w → tame w').

Lemma hkeeps_kept w w' : hkeeps w w' → kept w w'.
Proof. intros [H1 H2]. split; [by injection H1 | done]. Qed.

(** All slots are kept. *)
Definition gens_kept (t t' : ethread) : Prop := ∀ j, gen_of t' j = gen_of t j ∧ (slot_tame t j → slot_tame t' j).
#[export] Instance gens_kept_preorder : PreOrder gens_kept.
Proof. split; [by intros t j | intros a b c H1 H2 j]. destruct (H1 j), (H2 j). split; [congruence | auto]. Qed.

Lemma gens_slots t t' : t_slots t' = t_slots t → gens_kept t t'.
Proof. intros H j. unfold gen_of, slot_tame. by rewrite H. Qed.

Lemma put_gens t i w w' : t_slots t !! i = Some w → kept w w' → gens_kept t (put_slot t i w').
Proof.
  intros Hw [Hg Ht] j. unfold gen_of, slot_tame. cbn. destruct (decide (i = j)) as [<- | Hne].
  - rewrite list_lookup_insert_eq by (by eapply lookup_lt_Some). rewrite Hw; cbn; rewrite Hg.
    split; [done |]. intros H v [= <-]. by apply Ht, H.
  - by rewrite list_lookup_insert_ne.
Qed.

Lemma http_cleanup_kept w : kept w (http_connection_cleanup w).
Proof.
  unfold http_connection_cleanup. set (w1 := portico_http_stream_abort w).
  assert (Hk : hkeeps w w1) by apply abort_keeps.
  pose proof (cleanup_generation (h_conn w1) (h_sys w1)) as Hg.
  destruct (ws_connection_cleanup _ _) as [c s]. cbn in Hg. destruct Hk as [Hk1 Hk2]. injection Hk1 as _ _ Hk1.
  split; [cbn; congruence |]. intros Hw. destruct (Hk2 Hw) as [H1 H2]. constructor; cbn; rewrite Hg; done.
Qed.

Lemma http_cleanup_gen w : generation (h_conn (http_connection_cleanup w)) = generation (h_conn w).
Proof. apply http_cleanup_kept. Qed.

Lemma on_slot_gens t f g rc t' :
  (∀ w r w', g w = (r, w') → hkeeps w w') → on_slot t f g = (rc, t') → gens_kept t t'.
Proof.
  intros Hg. unfold on_slot. destruct (ws_find_connection_by_fd t f) as [i | ]; [ | by intros [= <- <-]].
  destruct (t_slots t !! i) as [w | ] eqn:EW; [ | by intros [= <- <-]].
  destruct (g w) as [r w'] eqn:EG. intros [= <- <-]. eapply put_gens; [done |]. by eapply hkeeps_kept, Hg.
Qed.

Lemma release_gens t i w0 w :
  t_slots t !! i = Some w0 → kept w0 w → gens_kept t (release_slot t i w).
Proof.
  intros Hw Hg. assert (Href : ∀ c, cid c = cid (h_conn w) → kept w0 (with_w w (with_conn (h_w w) c))).
  { intros c Hc. destruct Hg as [H1 H2], (hkeeps_kept w (with_w w (with_conn (h_w w) c))) as [H3 H4]; [by apply hkeeps_w |].
    split; [congruence | auto]. } unfold release_slot, ws_connection_unref. destruct (_ =? 1).
  - set (w2 := http_connection_cleanup _).
    assert (H : gens_kept t (put_slot t i w2)).
    { eapply put_gens; [done |]. destruct (Href (set_ref_count (h_conn w) (u32 (ref_count (h_conn w) - 1))) eq_refl) as [H1 H2].
      destruct (http_cleanup_kept (with_w w (with_conn (h_w w) (set_ref_count (h_conn w) (u32 (ref_count (h_conn w) - 1)))))) as [H3 H4].
      split; [by etransitivity | auto]. }
    destruct (_ <? _)%nat; [ | done]. etransitivity; [exact H | by apply gens_slots].
  - eapply put_gens; [done |]. by apply Href.
Qed.

Lemma close_gens cb t f : gens_kept t (close_connection cb t f).
Proof.
  unfold close_connection. split_if; [done |]. destruct (unregister_fields t f) as (U1 & _).
  destruct (ws_find_connection_by_fd t f) as [i | ]; [ | by apply gens_slots].
  cbn [t_slots os_close set_epoll_set]. rewrite U1.
  destruct (t_slots t !! i) as [w | ] eqn:EW; [ | by apply gens_slots].
  destruct (ws_connection_hash_remove _ f) as [rc h]. etransitivity; [ | eapply release_gens with (w0 := w)].
  - apply gens_slots. by destruct cb.
  - destruct cb; cbn; by rewrite U1.
  - by apply hkeeps_kept, hkeeps_w.
Qed.

Lemma close_message_gens cb t f code reason rc t' :
  process_close_message cb t f code reason = (rc, t') → gens_kept t t'.
Proof.
  unfold process_close_message. split_if; [by intros [= <- <-] |].
  destruct (ws_find_connection_by_fd t f) as [i | ]; [ | by intros [= <- <-]].
  destruct (t_slots t !! i) as [w | ] eqn:EW; [ | by intros [= <- <-]].
  destruct (ws_send_close_frame (h_w w) (u16 code) reason) as [r v] eqn:EC. apply send_close_keeps in EC.
  destruct (ws_connection_hash_remove _ f) as [r2 h]. intros [= <- <-].
  set (t3 := os_close _ f).
  assert (HS : t_slots t3 = t_slots t).
  { unfold t3. cbn. destruct (unregister_fields (set_hash (if cb then t_log (set_epoll_set t (t_epoll t ∖ {[f]})) f (EvClose code reason)
      else set_epoll_set t (t_epoll t ∖ {[f]})) h) f) as (-> & _). by destruct cb. }
  etransitivity; [by apply (gens_slots t t3) |].
  etransitivity; [eapply (release_gens t3 i w (with_w w v)); [by rewrite HS | by apply hkeeps_kept, with_w_keeps] |].
  by apply gens_slots.
Qed.

Lemma data_send_gens t f op d rc t' : ws_buffered_data_send t f op d = (rc, t') → gens_kept t t'.
Proof.
  unfold ws_buffered_data_send. destruct (ws_find_connection_by_fd t f) as [i | ]; [ | by intros [= <- <-]].
  destruct (t_slots t !! i) as [w | ] eqn:EW; [ | by intros [= <- <-]]. split_if; [by intros [= <- <-] |].
  destruct (h_alloc w) as [ok w1] eqn:EA. apply h_alloc_keeps in EA as [EA _].
  destruct (ws_encode_frame ok op d) as [fr | ]; [ | intros [= <- <-]; eapply put_gens; [done | by apply hkeeps_kept]].
  destruct (h_send w1 fr) as [r w2] eqn:ES. apply h_send_keeps in ES as [ES _].
  assert (Hk : hkeeps w w2) by (by transitivity w1).
  split_if; intros [= <- <-]; [ | by eapply put_gens, hkeeps_kept].
  set (w3 := h_set w2 _). transitivity (put_slot t i w3); [ | by apply gens_slots].
  eapply put_gens; [done |]. apply hkeeps_kept. etransitivity; [exact Hk | by apply hkeeps_w].
Qed.

(** Accepting moves the generation of the slot handed out, and no other. *)
Definition handed_out (t : ethread) (f : Z) : option nat := if f <? 0 then None else head (t_free t).

Lemma init_conn_gen w s now f tid i :
  generation (h_conn (init_conn w s now f tid i)) = u32 (generation (h_conn w) + 1).
Proof. unfold init_conn, ws_connection_init. by destruct (sys_alloc s). Qed.

Lemma put_gen_of t i w j :
  gen_of (put_slot t i w) j = if decide (j = i) then (λ _, generation (h_conn w)) <$> gen_of t j else gen_of t j.
Proof.
  unfold gen_of. cbn. destruct (decide (j = i)) as [-> | Hne].
  - destruct (t_slots t !! i) as [w0 | ] eqn:EW.
    + rewrite list_lookup_insert_eq by (by eapply lookup_lt_Some). done.
    + rewrite list_insert_ge by (by apply lookup_ge_None). by rewrite EW.
  - by rewrite list_lookup_insert_ne.
Qed.

Lemma register_slots t f i : t_slots (ws_register_fd t f i) = t_slots t.
Proof. unfold ws_register_fd. by repeat destruct (_ <? _). Qed.

Lemma new_gens t s now tid f addr tls hok eok rc t' j :
  process_new_connection t s now tid f addr tls hok eok = (rc, t') →
  gen_of t' j = if decide (handed_out t f = Some j) then (λ g, u32 (g + 1)) <$> gen_of t j else gen_of t j.
Proof.
  unfold process_new_connection, handed_out. destruct (f <? 0); [by intros [= <- <-] |].
  destruct (t_free t) as [ | i rest]; [by intros [= <- <-] |]. cbn [head].
  cbn [t_slots set_free]. destruct (t_slots t !! i) as [w0 | ] eqn:EW.
  2:{ intros [= <- <-]. case_decide as HD; [ | done]. injection HD as <-. unfold gen_of. cbn. by rewrite EW. }
  set (w1 := init_conn w0 s now f tid i).
  assert (H1 : generation (h_conn w1) = u32 (generation (h_conn w0) + 1)) by apply init_conn_gen.
  assert (Hput : ∀ t1 w, t_slots t1 = t_slots t → generation (h_conn w) = u32 (generation (h_conn w0) + 1) →
    gen_of (put_slot t1 i w) j = if decide (Some i = Some j) then (λ g, u32 (g + 1)) <$> gen_of t j else gen_of t j).
  { intros t1 w HS Hg. rewrite put_gen_of, Hg. unfold gen_of. rewrite HS.
    destruct (decide (j = i)) as [-> | Hne]; [by rewrite EW, decide_True | by rewrite decide_False by congruence]. }
  assert (Hput2 : ∀ t1 w w', t_slots t1 = t_slots t → generation (h_conn w') = u32 (generation (h_conn w0) + 1) →
    gen_of (put_slot (put_slot t1 i w) i w') j = if decide (Some i = Some j) then (λ g, u32 (g + 1)) <$> gen_of t j else gen_of t j).
  { intros t1 w w' HS Hg. rewrite <- (Hput t1 w' HS Hg). unfold gen_of. cbn. by rewrite list_insert_insert_eq. }
  assert (Htail : ∀ w3, generation (h_conn w3) = u32 (generation (h_conn w0) + 1) →
    (let '(_, h) := ws_connection_hash_insert hok (t_hash (put_slot (ws_register_fd (set_free t rest) f i) i w3)) f (Z.of_nat i) in
     let t4 := set_hash (put_slot (ws_register_fd (set_free t rest) f i) i w3) h in
     if negb eok then (-1, os_close (put_slot t4 i (http_connection_cleanup w3)) f)
     else (0, set_active (set_epoll_set t4 ({[f]} ∪ t_epoll t4)) (u32 (t_active t4 + 1)))) = (rc, t') →
    gen_of t' j = if decide (Some i = Some j) then (λ g, u32 (g + 1)) <$> gen_of t j else gen_of t j).
  { intros w3 Hg3. destruct (ws_connection_hash_insert _ _ _ _) as [r h]. destruct eok; cbn [negb]; intros [= <- <-].
    - rewrite <- (Hput (ws_register_fd (set_free t rest) f i) w3); [done | exact (register_slots (set_free t rest) f i) | done].
    - rewrite <- (Hput2 (ws_register_fd (set_free t rest) f i) w3 (http_connection_cleanup w3));
        [done | exact (register_slots (set_free t rest) f i) | by rewrite http_cleanup_gen]. }
  destruct tls as [[ | ] | ]; [by apply Htail | | by apply Htail].
  intros [= <- <-]. rewrite <- (Hput (set_free t rest) (http_connection_cleanup w1)); [done | done | by rewrite http_cleanup_gen].
Qed.

(** ** The thread's tables agree *)

(** The connection counter counts the mapped descriptors, and exactly these are in the
    epoll set. *)
Definition acct (t : ethread) : Prop :=
  t_active t = u32 (Z.of_nat (size (t_fd_map t))) ∧ t_epoll t = dom (t_fd_map t).

Definition size_of (t : ethread) : nat := size (t_fd_map t).

Definition tabs (t : ethread) : gmap Z nat * Z * gset Z := (t_fd_map t, t_active t, t_epoll t).
Lemma acct_tabs t t' : acct t → tabs t' = tabs t → acct t'.
Proof. intros [H1 H2] [= E1 E2 E3]. split; by rewrite ?E1, ?E2, ?E3. Qed.

Lemma release_tabs t i w : tabs (release_slot t i w) = tabs t.
Proof. unfold release_slot, ws_connection_unref. destruct (_ =? 1); [ | done]. by destruct (_ <? _)%nat. Qed.

(** The bookkeeping of a removed descriptor. *)
Lemma acct_remove t f i t' :
  acct t → t_fd_map t !! f = Some i →
  tabs t' = (delete f (t_fd_map t), u32 (t_active t - 1), t_epoll t ∖ {[f]}) → acct t'.
Proof.
  intros [H1 H2] Hf [= E1 E2 E3]. split; rewrite ?E1, ?E2, ?E3.
  - pose proof (map_size_delete_Some f (t_fd_map t) (ltac:(by eexists))) as Hs. rewrite H1, Hs.
    assert (size (t_fd_map t) ≠ 0%nat). { intros Hz%map_size_empty_inv. by rewrite Hz in Hf. }
    unfold u32. lia.
  - by rewrite dom_delete_L, H2.
Qed.

Lemma unregister_in t f : fd_in t f → ws_unregister_fd t f = set_fd_map t (delete f (t_fd_map t)).
Proof.
  intros [H1 H2]. unfold ws_unregister_fd. by rewrite (proj2 (Z.leb_le 0 f)), (proj2 (Z.ltb_lt f _)) by lia.
Qed.

(** Closing a descriptor that leads nowhere leaves the tables as they are. *)
Lemma acct_forget t f t' :
  acct t → t_fd_map t !! f = None → tabs t' = (t_fd_map (ws_unregister_fd t f), t_active t, t_epoll t ∖ {[f]}) → acct t'.
Proof.
  intros [H1 H2] Hf HT.
  assert (E0 : t_fd_map (ws_unregister_fd t f) = t_fd_map t).
  { unfold ws_unregister_fd. destruct (_ && _); [cbn; by apply delete_id | done]. }
  injection HT as E1 E2 E3. split; rewrite ?E1, ?E2, ?E3, E0; [done |].
  rewrite H2. apply not_elem_of_dom in Hf. apply difference_disjoint_L. by apply disjoint_singleton_r.
Qed.

Lemma unmapped_beyond t f : slots_inv t → t_fd_map_size t <= f → t_fd_map t !! f = None.
Proof.
  intros Hi Hf. destruct (t_fd_map t !! f) as [i | ] eqn:EM; [ | done].
  apply (inv_map t Hi) in EM as ([_ Hlt] & _). lia.
Qed.

Lemma close_acct cb t f : slots_inv t → f < 2 ^ 31 → acct t → acct (close_connection cb t f).
Proof.
  intros Hi Hf Ha. unfold close_connection. destruct (f <? 0) eqn:E0; [done |]. zbool.
  destruct (decide (f < t_fd_map_size t)) as [Hlt | Hge].
  - assert (Hin : fd_in t f) by (unfold fd_in; lia). rewrite find_in_map by done.
    destruct (t_fd_map t !! f) as [i | ] eqn:EM.
    + pose proof (inv_map t Hi f i EM) as (_ & _ & w & Hw & _). rewrite unregister_in by done. cbn [t_slots os_close set_epoll_set set_fd_map].
      rewrite Hw. destruct (ws_connection_hash_remove _ f) as [rc h].
      apply (acct_remove t f i); [done | done |]. rewrite release_tabs. by destruct cb.
    + eapply acct_forget; [done | done |]. unfold ws_unregister_fd. by destruct (_ && _).
  - rewrite find_beyond by (done || lia). eapply (acct_forget t f); [done | apply unmapped_beyond; [done | lia] |].
    unfold ws_unregister_fd. by destruct (_ && _).
Qed.

Lemma close_message_acct cb t f code reason rc t' :
  slots_inv t → f < 2 ^ 31 → acct t → process_close_message cb t f code reason = (rc, t') → acct t'.
Proof.
  intros Hi Hf Ha. unfold process_close_message. destruct (f <? 0) eqn:E0; [by intros [= <- <-] |]. zbool.
  destruct (decide (f < t_fd_map_size t)) as [Hlt | Hge].
  2:{ rewrite find_beyond by (done || lia). by intros [= <- <-]. }
  assert (Hin : fd_in t f) by (unfold fd_in; lia). rewrite find_in_map by done.
  destruct (t_fd_map t !! f) as [i | ] eqn:EM; [ | by intros [= <- <-]].
  destruct (t_slots t !! i) as [w | ]; [ | by intros [= <- <-]].
  destruct (ws_send_close_frame (h_w w) (u16 code) reason) as [r v].
  destruct (ws_connection_hash_remove _ f) as [r2 h]. intros [= <- <-].
  set (t1 := set_hash _ h). rewrite (unregister_in t1) by (unfold t1; by destruct cb).
  apply (acct_remove t f i); [done | done |]. set (t2 := release_slot _ i _).
  assert (HT : tabs t2 = (delete f (t_fd_map t), t_active t, t_epoll t ∖ {[f]})).
  { unfold t2. rewrite release_tabs. unfold t1. by destruct cb. }
  clearbody t2. injection HT as E1 E2 E3. unfold tabs. cbn. by rewrite E1, E2, E3.
Qed.

Lemma new_acct t s now tid f addr tls hok rc t' :
  fd_in t f → t_fd_map t !! f = None → acct t →
  process_new_connection t s now tid f addr tls hok true = (rc, t') → acct t'.
Proof.
  intros [Hf1 Hf2] Hnone Ha. unfold process_new_connection. split_if; [by intros [= <- <-] |].
  destruct (t_free t) as [ | i rest]; [by intros [= <- <-] |]. cbn [t_slots set_free].
  destruct (t_slots t !! i) as [w0 | ]; [ | by intros [= <- <-]].
  assert (HR : ws_register_fd (set_free t rest) f i = set_fd_map (set_free t rest) (<[f := i]> (t_fd_map t))).
  { unfold ws_register_fd. rewrite (proj2 (Z.ltb_ge f 0)) by lia. cbn. by rewrite (proj2 (Z.ltb_lt f _)) by lia. }
  assert (Hok : ∀ t', tabs t' = (<[f := i]> (t_fd_map t), u32 (t_active t + 1), {[f]} ∪ t_epoll t) → acct t').
  { intros t2 [= E1 E2 E3]. destruct Ha as [H1 H2]. split; rewrite ?E1, ?E2, ?E3.
    - rewrite map_size_insert_None by done. rewrite H1. unfold u32. lia.
    - by rewrite dom_insert_L, H2. }
  rewrite HR. destruct tls as [[ | ] | ]; [ | by intros [= <- <-] | ];
    destruct (ws_connection_hash_insert _ _ _ _) as [r h]; cbn [negb]; intros [= <- <-]; by apply Hok.
Qed.

Lemma on_slot_tabs t f g rc t' : on_slot t f g = (rc, t') → tabs t' = tabs t.
Proof. unfold on_slot. intros H. by repeat case_match; simplify_eq. Qed.
Lemma data_send_tabs t f op d rc t' : ws_buffered_data_send t f op d = (rc, t') → tabs t' = tabs t.
Proof. unfold ws_buffered_data_send. intros H. by repeat case_match; simplify_eq. Qed.

Lemma dispatch_acct cb t m rc t' :
  slots_inv t → accept_ok t m → acct t → dispatch_message cb t m = (rc, t') → acct t'.
Proof.
  intros Hi Hm Ha. destruct m; cbn in Hm |- *.
  - destruct Hm as (H1 & H2 & ->). by apply new_acct.
  - unfold process_text_message. destruct (ws_buffered_data_send _ _ _ _) eqn:EB. apply data_send_tabs, (acct_tabs t) in EB; [ | done].
    intros ED. by repeat case_match; simplify_eq.
  - unfold process_binary_message. destruct (ws_buffered_data_send _ _ _ _) eqn:EB. apply data_send_tabs, (acct_tabs t) in EB; [ | done].
    intros ED. by repeat case_match; simplify_eq.
  - unfold process_ping_message. destruct (on_slot _ _ _) eqn:EO. apply on_slot_tabs, (acct_tabs t) in EO; [ | done].
    intros ED. by repeat case_match; simplify_eq.
  - unfold process_pong_message. destruct (on_slot _ _ _) eqn:EO. apply on_slot_tabs, (acct_tabs t) in EO; [ | done].
    intros ED. by repeat case_match; simplify_eq.
  - by apply close_message_acct.
  - unfold process_user_data_update. split_if; [by intros [= <- <-] |]. intros EO%on_slot_tabs. by eapply acct_tabs.
  - intros [= <- <-]. by apply (acct_tabs t).
Qed.

(** ** Histories *)

Section Histories.
Context (E : http_env) (cpu0 : cpu) (on_disconnect on_close_cb : bool).

(** What happens to a thread: a message is taken from its queue, a connection has an
    event, a file read of slot [i] completes, the reaper runs, another thread takes or
    drops a reference to the connection of slot [i], or the world of slot [i] decides what
    its next system calls will do. *)
Inductive tlabel :=
| LMsg (m : out_msg)
| LConn (f : Z) (ein eout ehup : bool) (st1 st2 : tls_step)
| LAio (i k : nat)
| LReap (cfg : timeouts) (now : Z)
| LRef (i : nat)
| LUnref (i : nat)
| LEnv (i : nat) (rx' : list rx_ev) (txs' : list tx_ev) (ctl' mem' sub' : list bool).

Definition upd_slot (t : ethread) (i : nat) (g : hw → hw) : ethread :=
  match t_slots t !! i with None => t | Some w => put_slot t i (g w) end.

Definition tdo (t : ethread) (l : tlabel) : ethread :=
  match l with
  | LMsg m => (dispatch_message on_close_cb t m).2
  | LConn f ein eout ehup st1 st2 => connection_event E cpu0 on_disconnect st1 st2 t f ein eout ehup
  | LAio i k => slot_completion E on_disconnect t i k
  | LReap cfg now => reap_stale_connections on_disconnect cfg now t
  | LRef i => upd_slot t i (λ w, h_set w ws_connection_ref)
  | LUnref i => upd_slot t i (λ w, h_set w (λ c, (ws_connection_unref c).2))
  | LEnv i rx' txs' ctl' mem' sub' => upd_slot t i (λ w, rescript w rx' txs' ctl' mem' sub')
  end.

(** Descriptors are C ints, and accepted ones are as the kernel gives them. *)
Definition tlabel_ok (t : ethread) (l : tlabel) : Prop :=
  match l with
  | LMsg m => accept_ok t m
  | LConn f _ _ _ _ _ => f < 2 ^ 31
  | _ => True
  end.

Fixpoint tvalid (t : ethread) (ls : list tlabel) : Prop :=
  match ls with [] => True | l :: r => tlabel_ok t l ∧ tvalid (tdo t l) r end.
Definition thistory (t : ethread) (ls : list tlabel) : ethread := fold_left tdo ls t.

Lemma upd_slot_inv t i g : slots_inv t → (∀ w, hkeeps w (g w)) → slots_inv (upd_slot t i g).
Proof.
  intros Hi Hg. unfold upd_slot. destruct (t_slots t !! i) as [w | ] eqn:EW; [ | done]. by eapply put_slot_inv.
Qed.

Lemma tdo_inv t l : slots_inv t → tlabel_ok t l → slots_inv (tdo t l).
Proof.
  intros Hi Hl. destruct l; cbn in Hl |- *.
  - destruct (dispatch_message on_close_cb t m) as [rc t'] eqn:ED. by eapply dispatch_inv.
  - by apply event_inv.
  - by apply completion_inv.
  - by apply reap_inv.
  - apply upd_slot_inv; [done |]. intros w. by apply hkeeps_w.
  - apply upd_slot_inv; [done |]. intros w. by apply hkeeps_w.
  - apply upd_slot_inv; [done |]. intros w. by apply hkeeps_w.
Qed.

Lemma history_inv ls : ∀ t, slots_inv t → tvalid t ls → slots_inv (thistory t ls).
Proof.
  induction ls as [ | l r IH]; intros t Hi Hv; [done |]. destruct Hv as [Hl Hr].
  apply IH; [by apply tdo_inv | done].
Qed.

Lemma init_inv s tid max size : 0 < size <= 2 ^ 31 → slots_inv (ws_init_event_thread s tid max size).
Proof.
  intros Hs. constructor; cbn; [done | apply NoDup_seq | | done |].
  - intros i Hi. apply elem_of_seq in Hi. unfold max_connections. cbn. rewrite length_fmap, length_seq. lia.
  - intros i w Hw. right. apply list_lookup_fmap_Some in Hw as (k & -> & _). done.
Qed.

Lemma event_acct st1 st2 t f a b c :
  slots_inv t → f < 2 ^ 31 → acct t → acct (connection_event E cpu0 on_disconnect st1 st2 t f a b c).
Proof.
  intros Hi Hf Ha. unfold connection_event.
  destruct (if a then _ else _) as [closed1 t1] eqn:E1. assert (H1 : slots_inv t1 ∧ acct t1).
  { destruct a; [ | by simplify_eq]. destruct (handle_connection_read _ _ _ _ _) as [rc t0] eqn:ER.
    assert (Hi0 : slots_inv t0) by (by eapply read_inv).
    assert (Ha0 : acct t0).
    { unfold handle_connection_read in ER. destruct (f <? 0); [by simplify_eq |].
      apply on_slot_tabs in ER. by eapply acct_tabs. }
    destruct (rc <? 0); simplify_eq; [ | done]. split; [by apply close_any_inv | by apply close_acct]. }
  destruct H1 as [Hi1 Ha1].
  destruct (if negb closed1 && b then _ else _) as [closed2 t2] eqn:E2. assert (H2 : slots_inv t2 ∧ acct t2).
  { destruct (negb closed1 && b); [ | by simplify_eq]. destruct (handle_connection_write _ _ _ _ _) as [rc t0] eqn:EW.
    simplify_eq. split; [by eapply write_inv |]. unfold handle_connection_write in EW.
    destruct (f <? 0); [by simplify_eq |]. destruct (ws_find_connection_by_fd t1 f); [ | by simplify_eq].
    destruct (on_slot t1 f _) as [r t3] eqn:EO. pose proof (acct_tabs _ _ Ha1 (on_slot_tabs _ _ _ _ _ EO)) as HT.
    apply on_slot_inv in EO; [ | done | apply write_slot_keeps].
    destruct (r <? 0); simplify_eq; [by apply close_acct | done]. }
  destruct H2 as [Hi2 Ha2]. destruct (negb closed2 && c); [by apply close_acct | done].
Qed.

Lemma completion_acct t i k : slots_inv t → acct t → acct (slot_completion E on_disconnect t i k).
Proof.
  intros Hi Ha. unfold slot_completion. destruct (t_slots t !! i) as [w | ] eqn:EW; [ | done].
  destruct (aio_complete E w k) as [b w'] eqn:EA. apply (aio_complete_keeps E) in EA as [EA _].
  destruct b; [ | done]. apply close_acct; [by eapply put_slot_inv | apply i32_lt | done].
Qed.

Lemma reap_acct cfg now t : slots_inv t → acct t → acct (reap_stale_connections on_disconnect cfg now t).
Proof.
  unfold reap_stale_connections. generalize (seq 0 (max_connections t)) as l. intros l. revert t.
  induction l as [ | i l IH]; intros t Hi Ha; [done |]. cbn. apply IH; [by apply reap_slot_inv |]. clear IH.
  unfold reap_slot. destruct (t_slots t !! i) as [w | ] eqn:EW; [ | done].
  destruct (reap_verdict cfg now (h_conn w)); [done | apply close_acct; [done | apply i32_lt | done] |].
  destruct (lift_cw _ w) as [rc w1] eqn:EL. apply lift_frame_keeps in EL.
  destruct (rc =? 0); [done |]. apply close_acct; [by eapply put_slot_inv | apply i32_lt | done].
Qed.

Lemma tdo_acct t l : slots_inv t → tlabel_ok t l → acct t → acct (tdo t l).
Proof.
  intros Hi Hl Ha. destruct l; cbn in Hl |- *; try (unfold upd_slot; by case_match).
  - destruct (dispatch_message on_close_cb t m) as [rc t'] eqn:ED. by eapply dispatch_acct.
  - by apply event_acct.
  - by apply completion_acct.
  - by apply reap_acct.
Qed.

Lemma history_acct ls : ∀ t, slots_inv t → acct t → tvalid t ls → acct (thistory t ls).
Proof.
  induction ls as [ | l r IH]; intros t Hi Ha Hv; [done |]. destruct Hv as [Hl Hr].
  apply IH; [by apply tdo_inv | by apply tdo_acct | done].
Qed.

(** ** Generations through a history *)

Lemma read_gens st t f rc t' : handle_connection_read E cpu0 st t f = (rc, t') → gens_kept t t'.
Proof.
  unfold handle_connection_read. split_if; [by intros [= <- <-] |]. apply on_slot_gens, read_slot_keeps.
Qed.

Lemma write_gens st t f rc t' : handle_connection_write E on_disconnect st t f = (rc, t') → gens_kept t t'.
Proof.
  unfold handle_connection_write. split_if; [by intros [= <- <-] |].
  destruct (ws_find_connection_by_fd t f); [ | by intros [= <- <-]].
  destruct (on_slot t f _) as [r t1] eqn:EO. apply on_slot_gens in EO; [ | apply write_slot_keeps].
  split_if; intros [= <- <-]; [ | done]. etransitivity; [exact EO | apply close_gens].
Qed.

Lemma event_gens st1 st2 t f a b c : gens_kept t (connection_event E cpu0 on_disconnect st1 st2 t f a b c).
Proof.
  unfold connection_event.
  destruct (if a then _ else _) as [closed1 t1] eqn:E1. assert (H1 : gens_kept t t1).
  { destruct a; [ | by simplify_eq]. destruct (handle_connection_read _ _ _ _ _) as [rc t0] eqn:ER. apply read_gens in ER.
    destruct (rc <? 0); simplify_eq; [ | done]. etransitivity; [exact ER | apply close_gens]. }
  destruct (if negb closed1 && b then _ else _) as [closed2 t2] eqn:E2. assert (H2 : gens_kept t t2).
  { destruct (negb closed1 && b); [ | by simplify_eq]. destruct (handle_connection_write _ _ _ _ _) as [rc t0] eqn:EW.
    apply write_gens in EW. simplify_eq. by transitivity t1. }
  destruct (negb closed2 && c); [etransitivity; [exact H2 | apply close_gens] | done].
Qed.

Lemma completion_gens t i k : gens_kept t (slot_completion E on_disconnect t i k).
Proof.
  unfold slot_completion. destruct (t_slots t !! i) as [w | ] eqn:EW; [ | done].
  destruct (aio_complete E w k) as [b w'] eqn:EA. apply (aio_complete_keeps E) in EA as [EA%hkeeps_kept _].
  pose proof (put_gens t i w w' EW EA) as H1. destruct b; [etransitivity; [exact H1 | apply close_gens] | done].
Qed.

Lemma reap_gens cfg now t : gens_kept t (reap_stale_connections on_disconnect cfg now t).
Proof.
  unfold reap_stale_connections. generalize (seq 0 (max_connections t)) as l. intros l. revert t.
  induction l as [ | i l IH]; intros t; [done |]. cbn. etransitivity; [ | apply IH]. clear IH.
  unfold reap_slot. destruct (t_slots t !! i) as [w | ] eqn:EW; [ | done].
  destruct (reap_verdict cfg now (h_conn w)); [done | apply close_gens |].
  destruct (lift_cw _ w) as [rc w1] eqn:EL.
  apply lift_frame_keeps in EL as Hk. destruct (rc =? 0).
  - eapply put_gens; [done |]. apply hkeeps_kept. etransitivity; [exact Hk | by apply hkeeps_w].
  - etransitivity; [by eapply put_gens, hkeeps_kept | apply close_gens].
Qed.

Lemma upd_gens t i g : (∀ w, hkeeps w (g w)) → gens_kept t (upd_slot t i g).
Proof.
  intros Hg. unfold upd_slot. destruct (t_slots t !! i) as [w | ] eqn:EW; [ | done].
  eapply put_gens; [done |]. apply hkeeps_kept, Hg.
Qed.

(** The slot a step hands to a new connection. *)
Definition hands (t : ethread) (l : tlabel) : option nat :=
  match l with LMsg (MNew f _ _) => handed_out t f | _ => None end.

Lemma message_gens t m : hands t (LMsg m) = None → gens_kept t (dispatch_message on_close_cb t m).2.
Proof.
  intros Hh. destruct (dispatch_message on_close_cb t m) as [rc t'] eqn:ED. cbn. destruct m; cbn in *.
  - unfold handed_out in Hh. unfold process_new_connection in ED. destruct (_ <? 0); [by simplify_eq |].
    destruct (t_free t); [simplify_eq; by apply gens_slots | done].
  - destruct (same_connection t conn gen); [ | by simplify_eq]. unfold process_text_message in ED.
    destruct (_ <? 0); [by simplify_eq |]. destruct (ws_buffered_data_send _ _ _ _) eqn:EB. apply data_send_gens in EB. by simplify_eq.
  - destruct (same_connection t conn gen); [ | by simplify_eq]. unfold process_binary_message in ED.
    destruct (_ <? 0); [by simplify_eq |]. destruct (ws_buffered_data_send _ _ _ _) eqn:EB. apply data_send_gens in EB. by simplify_eq.
  - unfold process_ping_message in ED. destruct (_ <? 0); [by simplify_eq |]. destruct (on_slot _ _ _) eqn:EO.
    apply on_slot_gens in EO; [by simplify_eq | apply lift_frame_keeps].
  - unfold process_pong_message in ED. destruct (_ <? 0); [by simplify_eq |]. destruct (on_slot _ _ _) eqn:EO.
    apply on_slot_gens in EO; [by simplify_eq | apply lift_frame_keeps].
  - by apply close_message_gens in ED.
  - unfold process_user_data_update in ED. destruct (_ <? 0); [by simplify_eq |]. apply on_slot_gens in ED; [done |]. intros w r w' [= <- <-]. by apply hkeeps_w.
  - injection ED as <- <-. by apply gens_slots.
Qed.

Lemma tdo_gens t l j :
  gen_of (tdo t l) j = if decide (hands t l = Some j) then (λ g, u32 (g + 1)) <$> gen_of t j else gen_of t j.
Proof.
  destruct l as [m | f a b c st1 st2 | i k | cfg now | i | i | i rx' txs' ctl' mem' sub']; cbn [tdo hands];
    rewrite ?decide_False by done.
  - destruct m as [f addr a | | | | | | | ]; [ | rewrite decide_False by done; by apply message_gens.. ].
    cbn. destruct (process_new_connection _ _ _ _ _ _ _ _ _) as [rc t'] eqn:EN. by eapply new_gens.
  - by apply event_gens.
  - by apply completion_gens.
  - by apply reap_gens.
  - apply upd_gens. intros w. by apply hkeeps_w.
  - apply upd_gens. intros w. by apply hkeeps_w.
  - apply upd_gens. intros w. by apply hkeeps_w.
Qed.

(** How often a history hands out slot [i]. *)
Fixpoint handouts (i : nat) (t : ethread) (ls : list tlabel) : nat :=
  match ls with
  | [] => O
  | l :: r => ((if decide (hands t l = Some i) then 1 else 0) + handouts i (tdo t l) r)%nat
  end.

Lemma history_gens i ls : ∀ t g,
  gen_of t i = Some g → 0 <= g < 2 ^ 32 →
  gen_of (thistory t ls) i = Some (u32 (g + Z.of_nat (handouts i t ls))).
Proof.
  induction ls as [ | l r IH]; intros t g Hg Hr; cbn [thistory fold_left handouts].
  { rewrite Hg. f_equal. rewrite u32_small; lia. }
  pose proof (tdo_gens t l i) as Hd. change (fold_left tdo r (tdo t l)) with (thistory (tdo t l) r).
  destruct (decide (hands t l = Some i)) as [Hh | Hh].
  - rewrite Hg in Hd. cbn in Hd. rewrite (IH _ _ Hd) by (unfold u32; lia). f_equal. unfold u32. lia.
  - rewrite Hg in Hd. rewrite (IH _ _ Hd Hr). done.
Qed.

(** ** Closing, seen from one descriptor *)

Lemma release_closed t i w : t_closed (release_slot t i w) = t_closed t.
Proof. unfold release_slot, ws_connection_unref. destruct (_ =? 1); [ | done]. by destruct (_ <? _)%nat. Qed.

Lemma release_map t i w : t_fd_map (release_slot t i w) = t_fd_map t.
Proof. exact (f_equal (λ x, x.1.1) (release_tabs t i w)). Qed.

(** A descriptor stays forgotten, and the log of closed descriptors only grows. *)
Lemma close_forgets t f g : t_fd_map t !! f = None → t_fd_map (close_connection on_disconnect t g) !! f = None.
Proof.
  intros Hf. unfold close_connection. split_if; [done |].
  assert (HU : t_fd_map (ws_unregister_fd t g) !! f = None).
  { unfold ws_unregister_fd. destruct (_ && _); [ | done]. cbn. by rewrite lookup_delete_None; right. }
  destruct (ws_find_connection_by_fd t g) as [j | ]; [ | done]. cbn [t_slots os_close set_epoll_set].
  destruct (_ !! j) as [w | ]; [ | done]. destruct (ws_connection_hash_remove _ g) as [rc h].
  rewrite release_map.
  by destruct on_disconnect.
Qed.

Lemma close_closed t f : 0 <= f → t_closed (close_connection on_disconnect t f) = t_closed t ++ [f].
Proof.
  intros Hf. unfold close_connection. rewrite (proj2 (Z.ltb_ge f 0)) by done.
  assert (HU : t_closed (ws_unregister_fd t f) = t_closed t) by (unfold ws_unregister_fd; by destruct (_ && _)).
  destruct (ws_find_connection_by_fd t f) as [j | ]; [ | cbn; by rewrite HU]. cbn [t_slots os_close set_epoll_set].
  destruct (_ !! j) as [w | ]; [ | cbn; by rewrite HU]. destruct (ws_connection_hash_remove _ f) as [rc h].
  rewrite release_closed. destruct on_disconnect; cbn; by rewrite HU.
Qed.

Lemma close_self t f : slots_inv t → fd_in t f → t_fd_map (close_connection on_disconnect t f) !! f = None.
Proof.
  intros Hi Hf. unfold close_connection. rewrite (proj2 (Z.ltb_ge f 0)) by (destruct Hf; lia).
  rewrite unregister_in by done. destruct (ws_find_connection_by_fd t f) as [j | ]; [ | apply lookup_delete_eq].
  cbn [t_slots os_close set_epoll_set set_fd_map].
  destruct (_ !! j) as [w | ]; [ | apply lookup_delete_eq]. destruct (ws_connection_hash_remove _ f) as [rc h].
  rewrite release_map.
  destruct on_disconnect; apply lookup_delete_eq.
Qed.

Lemma release_other t i j w : i ≠ j → t_slots (release_slot t j w) !! i = t_slots t !! i.
Proof.
  intros Hne. unfold release_slot, ws_connection_unref. destruct (_ =? 1); [ | by cbn; rewrite list_lookup_insert_ne].
  destruct (_ <? _)%nat; cbn; by rewrite list_lookup_insert_ne.
Qed.

(** Closing one descriptor leaves the connection of another alone. *)
Lemma close_other t f g i :
  slots_inv t → t_fd_map t !! f = Some i → g ≠ f → g < 2 ^ 31 →
  let t' := close_connection on_disconnect t g in
  t_fd_map t' !! f = Some i ∧ t_slots t' !! i = t_slots t !! i.
Proof.
  intros Hi Hf Hne Hg. unfold close_connection. destruct (g <? 0) eqn:E0; [done |]. zbool.
  destruct (unregister_fields t g) as (U1 & _).
  assert (HU : t_fd_map (ws_unregister_fd t g) !! f = Some i).
  { unfold ws_unregister_fd. destruct (_ && _); [ | done]. cbn. by rewrite lookup_delete_ne. }
  destruct (ws_find_connection_by_fd t g) as [j | ] eqn:EF; [ | cbn; by rewrite U1]. cbn [t_slots os_close set_epoll_set].
  rewrite U1. destruct (t_slots t !! j) as [w | ] eqn:EW; [ | cbn; by rewrite U1].
  destruct (ws_connection_hash_remove _ g) as [rc h].
  assert (Hij : i ≠ j).
  { intros <-. apply Hne. destruct (decide (g < t_fd_map_size t)) as [Hlt | Hge].
    - rewrite find_in_map in EF by (unfold fd_in; lia). by apply (map_injective t g f i).
    - by rewrite find_beyond in EF by (done || lia). }
  split.
  - rewrite release_map.
    by destruct on_disconnect.
  - rewrite release_other by done. by destruct on_disconnect; cbn; rewrite U1.
Qed.

(** ** The reaper *)

(** The connections the reaper owes a close: a handshake that takes too long, a PING
    unanswered for too long, an HTTP connection idle for too long. *)
Definition overdue (cfg : timeouts) (now : Z) (c : ws_connection) : Prop :=
  ((state c = WS_STATE_CONNECTING ∨ state c = WS_STATE_TLS_HANDSHAKE) ∧
     connect_time c ≠ 0 ∧ or10 (handshake_timeout cfg) <= now - connect_time c) ∨
  (ping_interval cfg ≠ 0 ∧ last_activity c ≠ 0 ∧
     ((state c = WS_STATE_OPEN ∧ ping_sent_at c ≠ 0 ∧ or10 (pong_timeout cfg) <= now - ping_sent_at c) ∨
      (state c = WS_STATE_HTTP ∧ ping_interval cfg + or10 (pong_timeout cfg) <= now - last_activity c))).

Lemma overdue_closed cfg now c : 0 <= fd c < 2 ^ 31 → overdue cfg now c → reap_verdict cfg now c = VClose.
Proof.
  intros Hf Ho. unfold reap_verdict. rewrite i32_small by lia. rewrite (proj2 (Z.ltb_ge (fd c) 0)) by lia.
  destruct Ho as [([-> | ->] & H1 & H2) | (H1 & H2 & [(-> & H3 & H4) | (-> & H3)])]; cbn;
    rewrite ?(proj2 (Z.eqb_neq _ 0) H1), ?(proj2 (Z.eqb_neq _ 0) H2); cbn.
  - by rewrite (proj2 (Z.leb_le _ _) H2).
  - by rewrite (proj2 (Z.leb_le _ _) H2).
  - rewrite (proj2 (Z.eqb_neq _ 0) H3); cbn. by rewrite (proj2 (Z.leb_le _ _) H4).
  - by rewrite (proj2 (Z.leb_le _ _) H3).
Qed.

(** One slot of the pass, seen from the descriptor [f] of slot [i]. *)
Lemma reap_slot_seen cfg now t f i w j :
  slots_inv t → t_fd_map t !! f = Some i → t_slots t !! i = Some w → overdue cfg now (h_conn w) →
  let t' := reap_slot on_disconnect cfg now t j in
  (t_fd_map t' !! f = None ∧ f ∈ t_closed t') ∨
  (j ≠ i ∧ t_fd_map t' !! f = Some i ∧ t_slots t' !! i = Some w).
Proof.
  intros Hi Hf Hw Ho. pose proof (inv_map t Hi f i Hf) as ((Hf1 & Hf2) & _ & w' & Hw' & Hfd & _).
  rewrite Hw in Hw'. injection Hw' as <-. pose proof (inv_size t Hi) as Hs.
  assert (Hclose : ∀ t0 g, slots_inv t0 → t_fd_map_size t0 = t_fd_map_size t → t_fd_map t0 !! f = Some i → t_slots t0 !! i = Some w →
    g < 2 ^ 31 → let t' := close_connection on_disconnect t0 g in
    (t_fd_map t' !! f = None ∧ f ∈ t_closed t') ∨ (g ≠ f ∧ t_fd_map t' !! f = Some i ∧ t_slots t' !! i = Some w)).
  { intros t0 g Hi0 Hsz Hf0 Hw0 Hg. destruct (decide (g = f)) as [-> | Hne].
    - left. split; [apply close_self; [done | unfold fd_in; lia] |]. rewrite close_closed by done.
      apply elem_of_app. right. apply elem_of_cons. by left.
    - right. split; [done |]. rewrite <- Hw0. by apply close_other. }
  unfold reap_slot. destruct (decide (j = i)) as [-> | Hne].
  - rewrite Hw. rewrite overdue_closed by (done || lia). rewrite Hfd, i32_small by lia.
    destruct (Hclose t f Hi eq_refl Hf Hw ltac:(lia)) as [H | (H & _)]; [by left | done].
  - destruct (t_slots t !! j) as [wj | ] eqn:EJ; [ | by right].
    destruct (reap_verdict cfg now (h_conn wj)); [by right | | ].
    + destruct (Hclose t (i32 (fd (h_conn wj))) Hi eq_refl Hf Hw ltac:(apply i32_lt)) as [H | (_ & H)]; [by left | by right].
    + destruct (lift_cw _ wj) as [rc w1] eqn:EL. apply lift_frame_keeps in EL.
      assert (Hput : ∀ x, t_slots (put_slot t j x) !! i = Some w) by (intros x; cbn; by rewrite list_lookup_insert_ne).
      destruct (rc =? 0); [right; by rewrite Hput |].
      destruct (Hclose (put_slot t j w1) (i32 (fd (h_conn w1)))) as [H | (_ & H)];
        [by eapply put_slot_inv | done | done | apply Hput | apply i32_lt | by left | by right].
Qed.

Lemma reap_slot_forgets cfg now t f j :
  t_fd_map t !! f = None ∧ f ∈ t_closed t →
  let t' := reap_slot on_disconnect cfg now t j in t_fd_map t' !! f = None ∧ f ∈ t_closed t'.
Proof.
  intros [Hf Hc]. unfold reap_slot. destruct (t_slots t !! j) as [w | ]; [ | done].
  assert (Hclose : ∀ t0 g, t_fd_map t0 !! f = None → f ∈ t_closed t0 →
    let t' := close_connection on_disconnect t0 g in t_fd_map t' !! f = None ∧ f ∈ t_closed t').
  { intros t0 g H1 H2. split; [by apply close_forgets |]. destruct (decide (0 <= g)).
    - rewrite close_closed by done. apply elem_of_app. by left.
    - unfold close_connection. by rewrite (proj2 (Z.ltb_lt g 0)) by lia. }
  destruct (reap_verdict cfg now (h_conn w)); [done | by apply Hclose |].
  destruct (lift_cw _ w) as [rc w1]. destruct (rc =? 0); [done | by apply Hclose].
Qed.

Lemma reap_pass cfg now f i w l : ∀ t,
  slots_inv t → i ∈ l →
  (t_fd_map t !! f = None ∧ f ∈ t_closed t) ∨
  (t_fd_map t !! f = Some i ∧ t_slots t !! i = Some w ∧ overdue cfg now (h_conn w)) →
  let t' := fold_left (reap_slot on_disconnect cfg now) l t in t_fd_map t' !! f = None ∧ f ∈ t_closed t'.
Proof.
  assert (Hdone : ∀ l t, t_fd_map t !! f = None ∧ f ∈ t_closed t →
    let t' := fold_left (reap_slot on_disconnect cfg now) l t in t_fd_map t' !! f = None ∧ f ∈ t_closed t').
  { clear. induction l as [ | j l IH]; intros t H; [done |]. cbn. by apply IH, reap_slot_forgets. }
  induction l as [ | j l IH]; intros t Hi Hin H; [by apply elem_of_nil in Hin |]. cbn.
  destruct H as [H | (Hf & Hw & Ho)]; [by apply Hdone, reap_slot_forgets |].
  destruct (reap_slot_seen cfg now t f i w j Hi Hf Hw Ho) as [H | (Hne & H1 & H2)]; [by apply Hdone |].
  apply IH; [by apply reap_slot_inv | | right; by split_and!].
  apply elem_of_cons in Hin as [-> | ?]; done.
Qed.

(** ** Draining the queue *)

Lemma batch_fold max : ∀ t q n rest t',
  ws_mpsc_process_messages on_close_cb max t q = (n, rest, t') →
  ∃ q1, q = q1 ++ rest ∧ length q1 = n ∧ t' = fold_left (λ t m, (dispatch_message on_close_cb t m).2) q1 t ∧
        ((0 < max)%nat → q ≠ [] → (0 < n)%nat).
Proof.
  induction max as [ | k IH]; intros t q n rest t'; cbn [ws_mpsc_process_messages].
  { intros [= <- <- <-]. exists []. by split_and!. }
  destruct q as [ | m r]; [intros [= <- <- <-]; by exists [] |].
  assert (Hstep : ∀ n rest t', ws_mpsc_process_messages on_close_cb k (dispatch_message on_close_cb t m).2 r = (n, rest, t') →
    ∃ q1, m :: r = q1 ++ rest ∧ length q1 = S n ∧ t' = fold_left (λ t m, (dispatch_message on_close_cb t m).2) q1 t).
  { intros n0 rest0 t0 HB. apply IH in HB as (q1 & -> & <- & -> & _). by exists (m :: q1). }
  set (t1 := (dispatch_message on_close_cb t m).2) in *.
  destruct (ws_mpsc_process_messages on_close_cb k t1 r) as [[n0 rest0] t0] eqn:EB.
  destruct (Hstep _ _ _ eq_refl) as (q1 & Hq & Hn & Ht).
  destruct m as [ | | | | | | | ]; intros [= <- <- <-];
    lazymatch goal with
    | |- ∃ _, MShutdown :: _ = _ ∧ _ => exists [MShutdown]
    | _ => exists q1
    end; split_and!; try done; lia.
Qed.

(** ** Theorems *)


(** C22. A data message is never delivered to a later user of its slot: if a text or binary
    message was queued for the connection that slot [i] held in state [t], and the thread
    has since given the slot to new connections (fewer than 2^32 times, the range of the
    generation counter), then processing the message does nothing at all. *)
Theorem stale_send_dropped t ls i g f d :
  gen_of t i = Some g → 0 <= g < 2 ^ 32 → 0 < Z.of_nat (handouts i t ls) < 2 ^ 32 →
  dispatch_message on_close_cb (thistory t ls) (MText f (Some i) g d) = (0, thistory t ls) ∧
  dispatch_message on_close_cb (thistory t ls) (MBinary f (Some i) g d) = (0, thistory t ls).
Proof.
  intros Hg Hr Hn. pose proof (history_gens i ls t g Hg Hr) as H.
  assert (HS : same_connection (thistory t ls) (Some i) g = false).
  { unfold same_connection, gen_of in *. destruct (t_slots (thistory t ls) !! i) as [w | ]; [ | done].
    injection H as ->. rewrite (proj2 (Z.eqb_neq _ _)); [done |]. unfold u32. lia. }
  unfold dispatch_message. by rewrite HS.
Qed.


(** A wakeup leaves nothing behind: however many messages are queued, also after a
    shutdown message in the middle, the drain in batches of 256 processes all of them,
    each once and in order, and ends with an empty queue. *)
Theorem wakeup_drains_queue t q :
  drain_messages on_close_cb t q = ([], fold_left (λ t m, (dispatch_message on_close_cb t m).2) q t).
Proof.
  unfold drain_messages. assert (H : ∀ fuel t q, (length q < fuel)%nat →
    drain_loop on_close_cb fuel t q = ([], fold_left (λ t m, (dispatch_message on_close_cb t m).2) q t)).
  { induction fuel as [ | k IH]; intros t0 q0 Hl; [lia |]. cbn [drain_loop].
    destruct (ws_mpsc_process_messages on_close_cb 256 t0 q0) as [[n rest] t1] eqn:EB.
    apply batch_fold in EB as (q1 & -> & <- & -> & Hpos). rewrite length_app in Hl.
    destruct q1 as [ | m q1].
    - destruct rest as [ | m r]; [done |]. exfalso. cut (0 < length (@nil out_msg))%nat; [cbn; lia |]. apply Hpos; [lia | done].
    - cbn [length Nat.ltb Nat.leb]. rewrite fold_left_app. apply IH. cbn in Hl. lia. }
  apply H. lia.
Qed.
End Histories.

(** ** Witnesses and observations *)

Definition demo_sys : sys := mk_sys [] [] [] false [] [].
Definition demo_accept : accept_env := mk_accept demo_sys 100 0 None true true.
Definition demo_thread : ethread := ws_init_event_thread demo_sys 0 2 1024.
Definition demo_cpu : cpu := mk_cpu false false.
Abbreviation demo_run := (thistory demo_env demo_cpu true true).

(** Two connections, the first hangs up, and its descriptor and slot are used again. *)
Definition demo_labels : list tlabel :=
  [LMsg (MNew 5 0 demo_accept); LMsg (MNew 6 0 demo_accept); LConn 5 false false true TlsDone TlsDone;
   LRef 1; LMsg (MNew 5 0 demo_accept)].

Lemma demo_valid : tvalid demo_env demo_cpu true true demo_thread demo_labels.
Proof. cbn [tvalid demo_labels]. split_and!; vm_compute; done. Qed.


(** A message queued for the first connection is dropped when the second one holds the
    slot. *)
Lemma stale_send_dropped_witness :
  let t := demo_run demo_thread (take 1 demo_labels) in
  let t' := demo_run t (drop 1 demo_labels) in
  dispatch_message true t' (MText 5 (Some 0%nat) 1 (bs "secret")) = (0, t').
Proof.
  intros t t'.
  refine (proj1 (stale_send_dropped demo_env demo_cpu true true t (drop 1 demo_labels) 0 1 5 (bs "secret") _ _ _));
    [vm_compute; reflexivity | lia | vm_compute; by split].
Defined.


(** A defect made precise: a close request is queued for descriptor 5 and the same
    [epoll_wait] batch also carries an event for 5.  The wakeup entry closes 5; the entry
    for 5 then finds no connection, and the loop closes 5 a second time, when the number
    may already belong to a connection accepted by another thread. *)
Example stale_event_closes_twice :
  let s := mk_loop (demo_run demo_thread (take 2 demo_labels)) [MClose 5 1000 []] 100 in
  let s' := worker_turn demo_env demo_cpu true true (mk_timeouts 10 30 10) 100
              [EpWakeup; EpConn 5 true false false TlsDone TlsDone] s in
  t_closed (l_thread s) = [] ∧ t_closed (l_thread s') = [5; 5] ∧ t_fd_map (l_thread s') !! 5 = None.
Proof. vm_compute. done. Qed.
