(* ===== verification/HttpLife.v ===== *)
(** * The life of an HTTP connection (properties of HttpConn and Thread)

    From the accepted socket on: the TLS handshake, the first read, and the events and
    completions of a connection that turns out to be plain HTTP.  [in_phase] is the
    invariant of such a connection; it extends the invariant of HttpServe back to the
    moment the slot is handed out. *)
From Stdlib Require Import ZArith Lia.
From stdpp Require Import base numbers list strings gmap.
From S2P Require Import Prelude Cstr Frame Sys OutBuf Conn WsHandler HttpRequest HttpResponse Handshake HttpConn HttpServe Ident Thread.
Open Scope Z_scope.

Section Life.
Context (E : http_env) (cpu0 : cpu) (handler : list request → request → response → Z * response) (file_data : Z → list Z).
Context (Henv : env_ok E handler file_data).

(** ** What a handler reads *)

(** Not yet classified: the TLS handshake and the wait for a complete header block. *)
Definition pre_http (w : hw) : bool :=
  (state (h_conn w) =? WS_STATE_CONNECTING) || (state (h_conn w) =? WS_STATE_TLS_HANDSHAKE).

(** In HTTP service, or still able to enter it: a connection refused before it is
    classified only drains its status reply. *)
Definition watched (w : hw) : bool :=
  (state (h_conn w) =? WS_STATE_HTTP) || (pre_http w && negb (flag w)).

(** The bytes one call of [read_into_recv] appends to the receive buffer. *)
Definition read_bytes (w : hw) : list Z :=
  zdrop (recv_buffer_used (h_conn w)) (recv_buffer (w_conn (read_into_recv (e_now E) (h_w w)).2)).

(** A connection whose TLS handshake has just succeeded. *)
Definition tls_done (w : hw) : hw :=
  h_set (with_w w (with_sys (h_w w) (sys_epoll_mod (h_sys w) false).2)) (λ c, ws_connection_set_state c WS_STATE_CONNECTING).

Definition tls_bytes (st : tls_step) (w : hw) : list Z :=
  match st with TlsDone => read_bytes (tls_done w) | _ => [] end.

(** The bytes the read handler, or the write handler, takes from the socket. *)
Definition input_of_read (st : tls_step) (w : hw) : list Z :=
  if state (h_conn w) =? WS_STATE_TLS_HANDSHAKE then tls_bytes st w
  else if flag w then [] else read_bytes w.
Definition input_of_write (st : tls_step) (w : hw) : list Z :=
  if state (h_conn w) =? WS_STATE_TLS_HANDSHAKE then tls_bytes st w else [].

(** ** Invariant *)

Section Phase.
Context (P : past) (HP : past_ok P).

(** Accepted, and no complete header block yet: everything read is in the buffer. *)
Definition greeting (inp : list Z) (w : hw) : Prop :=
  idle P w ∧ pre_http w = true ∧ recv_ok (h_conn w) ∧ recv_buffer (h_conn w) = inp ∧
  h_reqs w = p_reqs P ∧ out (h_conn w) = outq_init ∧ tx (h_sys w) = [] ∧ 0 <= i32 (fd (h_conn w)).

Definition in_phase (inp : list Z) (w : hw) : Prop :=
  greeting inp w ∨ live E handler file_data P inp w ∨ ended E handler file_data P inp w ∧ flag w = true.

Lemma greeting_served inp w : greeting inp w → served E handler file_data (p_reqs P) inp w.
Proof.
  intros (Hi & _ & _ & Hb & Hr & Ho & Ht & _).
  assert (Hs : hstream w = []) by (unfold hstream, stream; by rewrite Ho, Ht).
  exists [], [], inp. rewrite Hs, app_nil_r. split_and!; [done | done | constructor | by exists [] |].
  intros _. split; [done |]. split; [by exists [] |]. split; [done |].
  destruct Hi as (_ & Hi & _). congruence.
Qed.

Lemma phase_served inp w : in_phase inp w → served E handler file_data (p_reqs P) inp w.
Proof. intros [H | H]; [by apply greeting_served | by apply invariant_served]. Qed.

Lemma phase_past inp w : in_phase inp w → keeps_past P w.
Proof. intros [H | H]; [by apply idle_past, H | by eapply served_past]. Qed.

(** The part of the state the output machinery is in. *)
Lemma live_http inp w : live E handler file_data P inp w → state (h_conn w) = WS_STATE_HTTP.
Proof. intros [(H & _) | [(H & _) | (p & s & (H & _) & _)]]; apply H. Qed.

Lemma pre_watched w : pre_http w = true → watched w = true → flag w = false.
Proof.
  unfold watched, pre_http. intros Hp. destruct (flag w); [ | done].
  destruct (Z.eqb_spec (state (h_conn w)) WS_STATE_HTTP) as [E0 | _]; [by rewrite E0 in Hp | by rewrite Hp].
Qed.

(** ** The first read *)

Lemma read_spec w :
  recv_ok (h_conn w) → let v := (read_into_recv (e_now E) (h_w w)).2 in
  recv_buffer (w_conn v) = recv_buffer (h_conn w) ++ read_bytes w ∧ recv_ok (w_conn v) ∧ recv_frame (h_w w) v.
Proof.
  intros Hok v. unfold read_bytes, v.
  destruct (read_into_recv (e_now E) (h_w w)) as [rc v0] eqn:ER. cbn.
  apply read_into_loop_spec in ER as (HF & Hok' & Hall & [b Hb] & _); [ | done | lia].
  split; [ | done]. rewrite Hb. f_equal. unfold recv_buffer_used. by rewrite zdrop_app_exact.
Qed.

(** A greeting stays one when only the socket's script and the armed events change. *)
Lemma greeting_w inp w v st :
  greeting inp w → tx (w_sys v) = [] →
  w_conn v = ws_connection_set_state (h_conn w) st → st = WS_STATE_CONNECTING ∨ st = WS_STATE_TLS_HANDSHAKE →
  greeting inp (with_w w v).
Proof.
  intros ((I1 & I2 & I3 & I4 & I5) & _ & Hok & Hb & Hr & Ho & Ht & Hf) Hv Hc Hs.
  unfold greeting, idle, mine, recv_ok, pre_http, h_conn, h_sys in *. cbn [h_w with_w h_aio h_heap h_next h_reqs]. rewrite Hc.
  cbn. split_and!; try done; try apply I5; try apply Hok. by destruct Hs as [-> | ->].
Qed.

Lemma arm_tx s b : tx (sys_epoll_mod s b).2 = tx s.
Proof. unfold sys_epoll_mod. by destruct (ctl s) as [ | [] ?]. Qed.

Lemma greeting_done inp w : greeting inp w → greeting inp (tls_done w).
Proof.
  intros Hg. unfold tls_done, h_set.
  apply (greeting_w inp w (with_conn (with_sys (h_w w) (sys_epoll_mod (h_sys w) false).2)
    (ws_connection_set_state (h_conn w) WS_STATE_CONNECTING)) WS_STATE_CONNECTING); [done | | done | by left].
  cbn. rewrite arm_tx. apply Hg.
Qed.

Lemma greeting_arm inp w b : greeting inp w → greeting inp (with_w w (with_sys (h_w w) (sys_epoll_mod (h_sys w) b).2)).
Proof.
  intros Hg. apply (greeting_w inp w _ (state (h_conn w))); [done | cbn; rewrite arm_tx; apply Hg | |].
  - cbn. by destruct w as [[[] ? ?] ? ? ? ? ? ?].
  - destruct Hg as (_ & Hp & _). unfold pre_http in Hp. apply orb_true_iff in Hp as [Hp | Hp]; zbool; auto.
Qed.

(** Reading while the header block is incomplete. *)
Lemma greeting_read inp w :
  greeting inp w → greeting (inp ++ read_bytes w) (with_w w (read_into_recv (e_now E) (h_w w)).2).
Proof.
  intros ((I1 & I2 & I3 & I4 & I5) & Hp & Hok & Hb & Hr & Ho & Ht & Hf).
  destruct (read_spec w Hok) as (Hrb & Hok' & _ & Htx & _ & _ & b & cap & t & pp & HC).
  set (v := (read_into_recv (e_now E) (h_w w)).2) in *.
  unfold greeting, idle, mine, pre_http, h_conn, h_sys in *. cbn [h_w with_w h_aio h_heap h_next h_reqs].
  split; [ | split; [by rewrite HC | split; [done | split; [by rewrite Hrb, Hb | split; [done | split; [by rewrite HC | split; [congruence | by rewrite HC]]]]]]].
  split; [by rewrite HC |]. split; [by rewrite HC |]. split; [done |]. split; [done |]. by rewrite HC.
Qed.

(** The end of the greeting: plain HTTP. *)
Lemma greeting_ready inp w :
  greeting inp w → flag w = false →
  ready E handler file_data P inp (h_set w (λ c, ws_connection_set_state c WS_STATE_HTTP)).
Proof.
  intros ((I1 & I2 & I3 & I4 & I5) & Hp & Hok & Hb & Hr & Ho & Ht & Hf) Hfl.
  assert (Hs : hstream w = []) by (unfold hstream, stream; by rewrite Ho, Ht).
  split; [ | split; [done | split]].
  - split; [ | split; [exact Hok | split; [done | split; [exact Hf | exact Hfl]]]].
    unfold hout_ok. change (out (h_conn _)) with (out (h_conn w)). rewrite Ho. apply outq_init_ok.
  - change (hstream _) with (hstream w). change (h_reqs (h_set _ _)) with (h_reqs w). rewrite Hs, Hr.
    pose proof (answers_own E handler file_data (p_reqs P) []) as H. rewrite app_nil_r in H. by rewrite H.
  - change (recv_buffer _) with (recv_buffer (h_conn w)). change (h_reqs (h_set _ _)) with (h_reqs w).
    exists [], []. rewrite Hr, Hb, app_nil_r. split; [done |]. by split; [constructor |].
Qed.

(** A status reply before the connection is classified: it only drains. *)
Lemma refused_unwatched w st rc w' :
  hout_ok w → pre_http w = true → http_error_close w st = (rc, w') → (rc <? 0) = false → watched w' = false.
Proof.
  intros Ho Hp. unfold http_error_close, http_reply_status, http_send_owned.
  destruct (h_alloc w) as [ok w1] eqn:EA. apply h_alloc_spec in EA as (HC1 & _ & Ho1 & _ & _).
  specialize (Ho1 Ho). destruct (portico_http_build_status ok st false) as [b | ]; [ | by cbn; intros [= <- <-]].
  destruct (h_send w1 b) as [rc2 w2] eqn:ES. apply h_send_spec in ES as (HC2 & _ & Hb2 & _); [ | done].
  destruct (rc2 <? 0) eqn:E0; [by intros [= <- <-] |].
  intros HF Hrc. apply h_finish_close_spec in HF as (HC3 & _ & _ & Hrc3); [ | done].
  destruct Hrc3 as [[-> Hfl] | ->]; [ | done].
  assert (HS : state (h_conn w') = state (h_conn w)).
  { rewrite (core_state _ _ HC3), (core_state _ _ HC2), (core_state _ _ HC1). done. }
  unfold watched, pre_http in *. rewrite HS, Hfl. cbn [negb]. rewrite andb_false_r, orb_false_r.
  destruct (Z.eqb_spec (state (h_conn w)) WS_STATE_HTTP) as [E1 | _]; [by rewrite E1 in Hp | done].
Qed.

Lemma post_phase inp w : post E handler file_data P inp 0 w → in_phase inp w.
Proof. intros [[_ H] | [H _]]; [by right | done]. Qed.

(** [portico_initial_dispatch] of a connection that stays watched. *)
Lemma dispatch_phase inp w rc w' :
  greeting inp w → portico_initial_dispatch E w = (rc, w') → (rc <? 0) = false → watched w' = true →
  in_phase (inp ++ read_bytes w) w'.
Proof.
  intros Hg. pose proof (greeting_read inp w Hg) as Hg1. unfold portico_initial_dispatch.
  destruct (read_into_recv (e_now E) (h_w w)) as [rc0 v] eqn:ER. cbn [snd] in Hg1.
  destruct (rc0 <? 0); [by intros [= <- <-] |]. set (w1 := with_w w v) in *.
  pose proof Hg1 as (_ & Hp1 & _ & _ & _ & Ho1 & _).
  assert (Hok1 : hout_ok w1) by (unfold hout_ok; rewrite Ho1; apply outq_init_ok).
  assert (Hf1 : flag w1 = false) by (unfold flag; by rewrite Ho1).
  assert (Href : ∀ st, http_error_close w1 st = (rc, w') → (rc <? 0) = false → watched w' = true → in_phase (inp ++ read_bytes w) w').
  { intros st HE Hrc Hw. by rewrite (refused_unwatched w1 st rc w' Hok1 Hp1 HE Hrc) in Hw. }
  destruct (memmem (recv_buffer (h_conn w1)) CRLFCRLF) as [t | ]; cycle 1.
  { destruct (PORTICO_MAX_HEADER_SIZE <? _); [apply Href |]. intros [= <- <-] _ _. by left. }
  destruct (ci_contains _ _).
  - destruct (h_alloc w1) as [ok w2]. destruct ok; cbn [negb]; [ | by intros [= <- <-]].
    destruct (ws_process_handshake _ (h_w w2) _) as [rc2 v2]. destruct (rc2 =? 0); cbn [negb]; [ | by intros [= <- <-]].
    intros [= <- <-] _ Hw. exfalso. revert Hw.
    assert (HO : ∀ x, state (h_conn x) = WS_STATE_OPEN → watched (consume_request x (t + 4)) = true → False).
    { intros x Hx. assert (HS : state (h_conn (consume_request x (t + 4))) = state (h_conn x)) by done.
      unfold watched, pre_http. by rewrite HS, Hx. }
    apply HO. by destruct (on_connect _).
  - destruct (e_on_http_request E) as [hd | ]; [ | apply Href].
    intros HB Hrc _. apply post_phase. eapply post_open; [ | exact Hrc].
    pose proof (process_http_buffer_spec E handler file_data Henv P HP _ _ (greeting_ready _ _ Hg1 Hf1)) as Hp. by rewrite HB in Hp.
Qed.

(** ** Events *)

Lemma tls_phase st inp w rc w' :
  greeting inp w → handle_tls_handshake E st w = (rc, w') → (rc <? 0) = false → watched w' = true →
  in_phase (inp ++ tls_bytes st w) w'.
Proof.
  intros Hg. unfold handle_tls_handshake. destruct st; cbn [tls_bytes].
  - apply (dispatch_phase inp (tls_done w)). by apply greeting_done.
  - intros [= <- <-] _ _. rewrite app_nil_r. left. by apply greeting_arm.
  - intros [= <- <-] _ _. rewrite app_nil_r. left. by apply greeting_arm.
  - by intros [= <- <-].
Qed.

Lemma phase_cases inp w :
  in_phase inp w → watched w = true →
  greeting inp w ∨
  state (h_conn w) = WS_STATE_HTTP ∧ (live E handler file_data P inp w ∨ ended E handler file_data P inp w ∧ flag w = true).
Proof.
  intros [H | [H | [H Hf]]] Hw; [by left | right; split; [by eapply live_http | by left] |].
  right. split; [ | by right]. unfold watched in Hw. rewrite Hf, andb_false_r, orb_false_r in Hw. by apply Z.eqb_eq.
Qed.

Lemma read_phase st inp w rc w' :
  in_phase inp w → watched w = true → read_slot E cpu0 st w = (rc, w') → (rc <? 0) = false → watched w' = true →
  in_phase (inp ++ input_of_read st w) w'.
Proof.
  intros Hi Hw. destruct (phase_cases inp w Hi Hw) as [Hg | [Hs Hl]]; unfold read_slot, input_of_read.
  - destruct (Z.eqb_spec (state (h_conn w)) WS_STATE_TLS_HANDSHAKE) as [_ | Hne]; [by apply tls_phase |].
    pose proof Hg as (_ & Hp & _). unfold pre_http in Hp. rewrite (proj2 (Z.eqb_neq _ _) Hne), orb_false_r in Hp.
    rewrite Hp, (pre_watched w) by (done || apply Hg). by apply dispatch_phase.
  - rewrite Hs. cbn [Z.eqb]. intros HE Hrc _. destruct Hl as [Hl | [He Hf]].
    + rewrite (live_flag _ _ _ _ _ _ Hl). apply post_phase.
      assert (recv_ok (h_conn w)) as Hok by (destruct Hl as [(H & _) | [(H & _) | (p & s & (H & _) & _)]]; apply H).
      eapply (http_event_spec E handler file_data Henv P HP inp w _ rc w'); [done | | exact HE | exact Hrc].
      unfold appended. rewrite (live_flag _ _ _ _ _ _ Hl). by apply (read_spec w Hok).
    + rewrite Hf, app_nil_r. change (portico_http_event E w = (rc, w')) in HE. unfold portico_http_event in HE.
      unfold flag in Hf. rewrite Hf in HE. injection HE as <- <-. right. by right.
Qed.

Lemma drain_init s : ∃ s', on_writable_drain outq_init s = (None, outq_init, s') ∧ tx s' = tx s.
Proof.
  exists (sys_epoll_mod s false).2. split; [ | apply arm_tx].
  unfold on_writable_drain. change (conn_out_drain outq_init s) with (0, outq_init, s). cbn.
  unfold conn_set_epollout. by destruct (sys_epoll_mod s false).
Qed.

Lemma write_phase st inp w rc w' :
  in_phase inp w → watched w = true → write_slot E st w = (rc, w') → (rc <? 0) = false → watched w' = true →
  in_phase (inp ++ input_of_write st w) w'.
Proof.
  intros Hi Hw. destruct (phase_cases inp w Hi Hw) as [Hg | [Hs Hl]]; unfold write_slot, input_of_write.
  - destruct (Z.eqb_spec (state (h_conn w)) WS_STATE_TLS_HANDSHAKE) as [_ | Hne]; [by apply tls_phase |].
    rewrite app_nil_r. unfold portico_conn_on_writable. pose proof Hg as ((Hn & _) & _ & _ & _ & _ & Ho & Ht & _).
    rewrite Ho. destruct (drain_init (h_sys w)) as (s' & -> & Hs'). rewrite <- Ho.
    set (w1 := with_w w _).
    assert (Hg1 : greeting inp w1).
    { apply (greeting_w inp w _ (state (h_conn w))); [done | cbn; congruence | cbn; by destruct w as [[[] ? ?] ? ? ? ? ? ?] |].
      destruct Hg as (_ & Hp & _). unfold pre_http in Hp. apply orb_true_iff in Hp as [Hp | Hp]; zbool; auto. }
    change (file_stream (h_conn w1)) with (file_stream (h_conn w)). rewrite Hn.
    change (out (h_conn w1)) with (out (h_conn w)). rewrite Ho. intros [= <- <-] _ _. by left.
  - rewrite Hs. cbn [Z.eqb]. rewrite app_nil_r. intros HE Hrc _. apply post_phase.
    by eapply (on_writable_core E handler file_data Henv P HP inp w rc w').
Qed.
End Phase.

(** A completion: of the connection's own read, or of one an earlier user left. *)
Lemma aio_phase P inp w k w' :
  past_ok P → in_phase P inp w → aio_complete E w k = (false, w') →
  ∃ P', past_ok P' ∧ p_reqs P' = p_reqs P ∧ in_phase P' inp w'.
Proof.
  intros HP Hi HE. destruct (Nat.lt_ge_cases k (length (p_aio P))) as [Hk | Hk].
  - destruct (stale_complete E P w k false w' HP (phase_past P inp w Hi) Hk HE) as (_ & P' & HP' & HL).
    exists P'. split; [done |]. split; [apply (ls_reqs _ _ _ _ HL) |].
    destruct Hi as [Hg | Hi]; [left | right; by eapply leftovers_inv].
    pose proof Hg as (Hid & Hp & Hok & Hb & Hr & Ho & Ht & Hf).
    pose proof (leftover_idle _ _ _ _ HL Hid) as Hid'. destruct HL as [Eg Eb Er Hw Hn Hlog _ _ _].
    unfold greeting, pre_http, h_conn, h_sys in *. rewrite Hw, Hlog, Er. by split.
  - exists P. split; [done |]. split; [done |]. destruct Hi as [Hg | Hi].
    + left. revert HE. unfold aio_complete. destruct Hg as ((I1 & I2 & I3 & I4) & Hg).
      rewrite (lookup_ge_None_2 (h_aio w)) by (rewrite I3; lia). intros [= <-]. by split.
    + apply post_phase. by eapply (own_complete_spec E handler file_data Henv P HP inp w k w').
Qed.
End Life.

(** A defect made precise: the first read does not look at the close decision.  Here the
    server has no HTTP handler, the first request is refused with a 501 that cannot be
    sent yet, and the next byte of the client makes the server refuse it once more. *)
Definition refuse_env : http_env :=
  mk_env demo_phr (λ _, false) (λ _, false) (λ _, []) (λ _ _ _, None) None None
    (mk_cfg false false false false false false 0) false false 100.
Example refused_twice :
  let w0 := rescript (h_set demo_world (λ c, ws_connection_set_state c WS_STATE_CONNECTING))
              [RxData demo_head; RxAgain; RxData [65]] [TxAgain; TxAgain] [] [] [] in
  let '(rc1, w1) := portico_initial_dispatch refuse_env w0 in
  let '(rc2, w2) := portico_initial_dispatch refuse_env w1 in
  (rc1, rc2, flag w1) = (0, 0, true) ∧ hstream w1 = status_reply 501 ∧ hstream w2 = status_reply 501 ++ status_reply 501.
Proof. vm_compute. done. Qed.
