(* ===== verification/HttpThread.v ===== *)
(** * HTTP connections of an event thread (properties of Thread and HttpServe)

    The composition: a connection is accepted into a slot of an event thread, which other
    connections used before, while the thread serves its other slots, drains its queue,
    runs the reaper, and completes reads that earlier users of the slot left behind.  The
    history of the thread, seen from the slot, is a run of the connection, so its client
    gets the answers of HttpServe. *)
From Stdlib Require Import ZArith Lia.
From stdpp Require Import base numbers list strings gmap.
From S2P Require Import Prelude Cstr Frame Sys OutBuf Conn ConnHash WsHandler HttpRequest HttpResponse Handshake HttpConn HttpServe Ident Thread ThreadInv ThreadSpec HttpLife.
Open Scope Z_scope.

(** ** Slots in use *)

(** Descriptor [f] leads to slot [i], which holds [w]. *)
Definition held (t : ethread) (f : Z) (i : nat) (w : hw) : Prop := t_fd_map t !! f = Some i ∧ t_slots t !! i = Some w.

(** No descriptor leads to slot [i]. *)
Definition gone (t : ethread) (i : nat) : Prop := ∀ f, t_fd_map t !! f ≠ Some i.

(** The connection of slot [i], if it is in use and in HTTP service or on its way there. *)
Definition tracked (t : ethread) (i : nat) : option hw :=
  match t_slots t !! i with
  | Some w => if bool_decide (t_fd_map t !! fd (h_conn w) = Some i) && watched w then Some w else None
  | None => None
  end.

Lemma tracked_gone t i : gone t i → tracked t i = None.
Proof.
  intros H. unfold tracked. destruct (t_slots t !! i) as [w | ]; [ | done].
  by rewrite bool_decide_eq_false_2 by apply H.
Qed.

Lemma tracked_some t i w : tracked t i = Some w → held t (fd (h_conn w)) i w ∧ watched w = true.
Proof.
  unfold tracked. destruct (t_slots t !! i) as [w0 | ] eqn:EW; [ | done].
  destruct (bool_decide _ && watched w0) eqn:EB; [ | done]. intros [= ->].
  apply andb_prop in EB as [E1%bool_decide_eq_true E2]. done.
Qed.

Lemma tracked_held t f i w w' : held t f i w → tracked t i = Some w' → w' = w ∧ watched w = true.
Proof. intros [_ Hw] [[_ Hw'] Hs]%tracked_some. rewrite Hw in Hw'. by injection Hw' as ->. Qed.

Lemma held_in t f i w : slots_inv t → held t f i w → fd_in t f ∧ 0 <= f < 2 ^ 31 ∧ ws_find_connection_by_fd t f = Some i.
Proof.
  intros Hi [Hf _]. pose proof (inv_map t Hi f i Hf) as (Hin & _). pose proof (inv_size t Hi).
  split; [done |]. split; [unfold fd_in in Hin; lia |]. by rewrite find_in_map.
Qed.

Lemma held_put t f i w w' : held t f i w → held (put_slot t i w') f i w'.
Proof. intros [Hf Hw]. split; [done |]. apply list_lookup_insert_eq. by eapply lookup_lt_Some. Qed.

Lemma held_put_other t f i w j w' : held t f i w → j ≠ i → held (put_slot t j w') f i w.
Proof. intros [Hf Hw] Hne. split; [done |]. cbn. by rewrite list_lookup_insert_ne. Qed.

(** Another descriptor leads elsewhere. *)
Lemma find_other t f g i w : slots_inv t → held t f i w → g ≠ f → 0 <= g < 2 ^ 31 → ws_find_connection_by_fd t g ≠ Some i.
Proof.
  intros Hi [Hf _] Hne Hg. destruct (decide (g < t_fd_map_size t)) as [Hlt | Hge].
  - rewrite find_in_map by (unfold fd_in; lia). intros H. by apply Hne, (map_injective t g f i).
  - by rewrite find_beyond by (done || lia).
Qed.

Section Threads.
Context (E : http_env) (cpu0 : cpu) (on_disconnect on_close_cb : bool).

(** ** Closing *)

Lemma close_map t g :
  t_fd_map (close_connection on_disconnect t g) = if g <? 0 then t_fd_map t else t_fd_map (ws_unregister_fd t g).
Proof.
  unfold close_connection. destruct (g <? 0); [done |].
  destruct (ws_find_connection_by_fd t g) as [j | ]; [ | done]. cbn [t_slots os_close set_epoll_set].
  destruct (_ !! j) as [w | ]; [ | done]. destruct (ws_connection_hash_remove _ g) as [rc h].
  rewrite release_map. by destruct on_disconnect.
Qed.

Lemma unregister_gone t g i : gone t i → ∀ f, t_fd_map (ws_unregister_fd t g) !! f ≠ Some i.
Proof.
  intros H f. unfold ws_unregister_fd. destruct (_ && _); [ | apply H]. cbn. rewrite lookup_delete_Some. intros [_ Hf]. by apply (H f).
Qed.

Lemma gone_close t g i : gone t i → gone (close_connection on_disconnect t g) i.
Proof. intros H f. rewrite close_map. destruct (g <? 0); [apply H | by apply unregister_gone]. Qed.

Lemma close_held t g f i w :
  slots_inv t → held t f i w → g < 2 ^ 31 →
  if decide (g = f) then gone (close_connection on_disconnect t g) i
  else held (close_connection on_disconnect t g) f i w.
Proof.
  intros Hi Hh Hg. destruct (held_in t f i w Hi Hh) as (_ & Hf & _). destruct (decide (g = f)) as [-> | Hne].
  - intros g. rewrite close_map, (proj2 (Z.ltb_ge f 0)) by lia. by apply unregister_unmaps; [ | apply Hh].
  - destruct Hh as [H1 H2]. destruct (close_other on_disconnect t f g i Hi H1 Hne Hg) as [H3 H4]. split; [done | congruence].
Qed.

Lemma close_either t g f i w :
  slots_inv t → held t f i w → g < 2 ^ 31 →
  gone (close_connection on_disconnect t g) i ∨ held (close_connection on_disconnect t g) f i w.
Proof. intros Hi Hh Hg. pose proof (close_held t g f i w Hi Hh Hg) as H. case_decide; auto. Qed.

(** ** Handlers run on a slot *)

Lemma on_slot_self t f i w h rc w' :
  slots_inv t → held t f i w → h w = (rc, w') → on_slot t f h = (rc, put_slot t i w').
Proof.
  intros Hi Hh Hw. destruct (held_in t f i w Hi Hh) as (_ & _ & HF). unfold on_slot. destruct Hh as [_ Hs].
  by rewrite HF, Hs, Hw.
Qed.

Lemma on_slot_held t f i w g h rc t' :
  held t f i w → ws_find_connection_by_fd t g ≠ Some i → on_slot t g h = (rc, t') → held t' f i w.
Proof.
  intros Hh Hne. unfold on_slot. destruct (ws_find_connection_by_fd t g) as [j | ]; [ | by intros [= <- <-]].
  destruct (t_slots t !! j) as [wj | ]; [ | by intros [= <- <-]]. destruct (h wj) as [r w']. intros [= <- <-].
  apply held_put_other; congruence.
Qed.

(** An event of another descriptor. *)
Lemma event_other st1 st2 t f i w g a b c :
  slots_inv t → held t f i w → g ≠ f → g < 2 ^ 31 →
  held (connection_event E cpu0 on_disconnect st1 st2 t g a b c) f i w.
Proof.
  intros Hi Hh Hne Hg.
  assert (Hcl : ∀ t0, slots_inv t0 → held t0 f i w → held (close_connection on_disconnect t0 g) f i w).
  { intros t0 H0 Hh0. pose proof (close_held t0 g f i w H0 Hh0 Hg) as H. by rewrite decide_False in H. }
  unfold connection_event.
  destruct (if a then _ else _) as [closed1 t1] eqn:E1. assert (H1 : slots_inv t1 ∧ held t1 f i w).
  { destruct a; [ | by simplify_eq]. destruct (handle_connection_read _ _ _ _ _) as [rc t0] eqn:ER.
    pose proof (read_inv _ _ _ _ _ _ _ Hi ER) as Hi0. unfold handle_connection_read in ER.
    assert (Hh0 : held t0 f i w).
    { destruct (Z.ltb_spec g 0); [by simplify_eq |]. eapply on_slot_held; [exact Hh | | exact ER]. eapply find_other; eauto. }
    destruct (rc <? 0); simplify_eq; [split; [by apply close_any_inv | by apply Hcl] | done]. }
  destruct H1 as [Hi1 Hh1].
  destruct (if negb closed1 && b then _ else _) as [closed2 t2] eqn:E2. assert (H2 : slots_inv t2 ∧ held t2 f i w).
  { destruct (negb closed1 && b); [ | by simplify_eq]. destruct (handle_connection_write _ _ _ _ _) as [rc t0] eqn:EW.
    simplify_eq. split; [by eapply write_inv |]. unfold handle_connection_write in EW.
    destruct (Z.ltb_spec g 0); [by simplify_eq |]. destruct (ws_find_connection_by_fd t1 g) eqn:EF; [ | by simplify_eq].
    destruct (on_slot t1 g _) as [r t3] eqn:EO.
    assert (Hh3 : held t3 f i w) by (eapply on_slot_held; [exact Hh1 | | exact EO]; eapply find_other; eauto).
    apply on_slot_inv in EO; [ | done | apply write_slot_keeps].
    destruct (r <? 0); simplify_eq; [by apply Hcl | done]. }
  destruct H2 as [Hi2 Hh2]. destruct (negb closed2 && c); [by apply Hcl | done].
Qed.

(** An event of the descriptor itself: the handlers run on the slot, in order, until one
    of them closes it. *)
Lemma event_self st1 st2 t f i w a b c :
  slots_inv t → held t f i w →
  let t' := connection_event E cpu0 on_disconnect st1 st2 t f a b c in
  gone t' i ∨
  ∃ rc1 w1 rc2 w2,
    (if a then read_slot E cpu0 st1 w else (0, w)) = (rc1, w1) ∧ (rc1 <? 0) = false ∧
    (if b then write_slot E st2 w1 else (0, w1)) = (rc2, w2) ∧ (rc2 <? 0) = false ∧ held t' f i w2.
Proof.
  intros Hi Hh. destruct (held_in t f i w Hi Hh) as (_ & Hf & HF).
  assert (Hcl : ∀ t0 w0, slots_inv t0 → held t0 f i w0 → gone (close_connection on_disconnect t0 f) i).
  { intros t0 w0 H0 Hh0. pose proof (close_held t0 f f i w0 H0 Hh0 ltac:(lia)) as H. by rewrite decide_True in H. }
  unfold connection_event, handle_connection_read. rewrite (proj2 (Z.ltb_ge f 0)) by lia.
  destruct (if a then read_slot E cpu0 st1 w else (0, w)) as [rc1 w1] eqn:ER.
  assert (Hk1 : hkeeps w w1) by (destruct a; [by eapply read_slot_keeps | by simplify_eq]).
  set (t1 := put_slot t i w1).
  assert (Hi1 : slots_inv t1) by (apply (put_slot_inv t i w w1); [done | apply Hh | done]).
  assert (Hh1 : held t1 f i w1) by (by eapply held_put).
  assert (Ht1 : a = false → t1 = t).
  { intros ->. injection ER as _ <-. unfold t1, put_slot, set_slots. destruct Hh as [_ Hw].
    rewrite list_insert_id by done. by destruct t. }
  assert (E1 : (if a then let '(rc, t1) := on_slot t f (read_slot E cpu0 st1) in
                 if rc <? 0 then (true, close_connection on_disconnect t1 f) else (false, t1) else (false, t)) =
               if rc1 <? 0 then (true, close_connection on_disconnect t1 f) else (false, t1)).
  { destruct a.
    - by rewrite (on_slot_self t f i w _ rc1 w1).
    - rewrite Ht1 by done. by injection ER as <- <-. }
  rewrite E1. clear E1. destruct (rc1 <? 0) eqn:E1; cbn [negb andb]; [left; by eapply Hcl |].
  unfold handle_connection_write. rewrite (proj2 (Z.ltb_ge f 0)) by lia.
  destruct (held_in t1 f i w1 Hi1 Hh1) as (_ & _ & HF1). rewrite HF1.
  destruct (if b then write_slot E st2 w1 else (0, w1)) as [rc2 w2] eqn:EW.
  assert (Hk2 : hkeeps w1 w2) by (destruct b; [by eapply write_slot_keeps | by simplify_eq]).
  set (t2 := put_slot t1 i w2).
  assert (Hi2 : slots_inv t2) by (apply (put_slot_inv t1 i w1 w2); [done | apply Hh1 | done]).
  assert (Hh2 : held t2 f i w2) by (by eapply held_put).
  assert (E2 : (if b then let '(rc, t2) := let '(rc, t1) := on_slot t1 f (write_slot E st2) in
                   if rc <? 0 then (-1, close_connection on_disconnect t1 f) else (0, t1) in (rc <? 0, t2) else (false, t1)) =
               if rc2 <? 0 then (true, close_connection on_disconnect t2 f) else (false, t2)).
  { destruct b.
    - rewrite (on_slot_self t1 f i w1 _ rc2 w2) by done. by destruct (rc2 <? 0).
    - injection EW as <- <-. cbn. unfold t2, t1, put_slot, set_slots. cbn. by rewrite list_insert_insert_eq. }
  rewrite E2. clear E2. destruct (rc2 <? 0) eqn:E2; cbn [negb andb]; [left; by eapply Hcl |].
  destruct c; [left; by eapply Hcl |]. right. by exists rc1, w1, rc2, w2.
Qed.
(** ** Completions and the reaper *)

Lemma completion_seen t j k f i w :
  slots_inv t → held t f i w →
  let t' := slot_completion E on_disconnect t j k in
  gone t' i ∨ held t' f i w ∧ j ≠ i ∨ j = i ∧ ∃ w', aio_complete E w k = (false, w') ∧ held t' f i w'.
Proof.
  intros Hi Hh. unfold slot_completion. destruct (t_slots t !! j) as [wj | ] eqn:EJ.
  2:{ right. left. split; [done |]. intros ->. destruct Hh as [_ Hw]. congruence. }
  destruct (aio_complete E wj k) as [cl wj'] eqn:EA. pose proof EA as HK. apply (aio_complete_keeps E) in HK as [HK _].
  assert (Hi' : slots_inv (put_slot t j wj')) by (by eapply put_slot_inv). destruct (decide (j = i)) as [-> | Hne].
  - assert (wj = w) as -> by (destruct Hh as [_ Hw]; congruence).
    assert (Hh' : held (put_slot t i wj') f i wj') by (by eapply held_put).
    destruct cl; [ | right; right; eauto]. left.
    destruct (held_in t f i w Hi Hh) as (_ & Hf & _).
    assert (Hfd : i32 (fd (h_conn wj')) = f).
    { destruct HK as [HK _]. injection HK as -> _ _. destruct Hh as [Hm Hw].
      pose proof (inv_map t Hi f i Hm) as (_ & _ & w0 & Hw0 & <- & _). rewrite Hw in Hw0. injection Hw0 as <-. apply i32_small. lia. }
    rewrite Hfd. pose proof (close_held _ f f i wj' Hi' Hh' ltac:(lia)) as H. by rewrite decide_True in H.
  - assert (Hh' : held (put_slot t j wj') f i w) by (by apply held_put_other).
    destruct cl; [ | by right; left]. destruct (close_either _ (i32 (fd (h_conn wj'))) f i w Hi' Hh' (i32_lt _)); auto.
Qed.

(** The reaper closes a watched connection or leaves it alone. *)
Lemma reap_slot_held cfg now t j f i w :
  slots_inv t → gone t i ∨ held t f i w ∧ state (h_conn w) ≠ WS_STATE_OPEN →
  let t' := reap_slot on_disconnect cfg now t j in gone t' i ∨ held t' f i w ∧ state (h_conn w) ≠ WS_STATE_OPEN.
Proof.
  intros Hi H. unfold reap_slot. destruct (t_slots t !! j) as [wj | ] eqn:EJ; [ | done].
  assert (Hcl : ∀ t0 g, slots_inv t0 → g < 2 ^ 31 → gone t0 i ∨ held t0 f i w ∧ state (h_conn w) ≠ WS_STATE_OPEN →
    gone (close_connection on_disconnect t0 g) i ∨ held (close_connection on_disconnect t0 g) f i w ∧ state (h_conn w) ≠ WS_STATE_OPEN).
  { intros t0 g H0 Hg [Hgo | [Hh Hs]]; [left; by apply gone_close |].
    destruct (close_either t0 g f i w H0 Hh Hg); auto. }
  destruct (reap_verdict cfg now (h_conn wj)) eqn:EV; [done | apply Hcl; [done | apply i32_lt | done] |].
  destruct (lift_cw _ wj) as [rc w1] eqn:EL. apply lift_frame_keeps in EL.
  assert (Hput : ∀ x, gone (put_slot t j x) i ∨ held (put_slot t j x) f i w ∧ state (h_conn w) ≠ WS_STATE_OPEN).
  { intros x. destruct H as [Hgo | [Hh Hs]]; [by left |]. right. split; [ | done]. apply held_put_other; [done |].
    intros ->. apply Hs. destruct Hh as [_ Hw]. assert (wj = w) as -> by congruence. revert EV. unfold reap_verdict.
    destruct (_ <? 0); [done |]. destruct (_ || _); [by repeat case_match |]. destruct (_ || _); [done |].
    destruct (Z.eqb_spec (state (h_conn w)) WS_STATE_OPEN); [done |]. by repeat case_match. }
  destruct (rc =? 0); [apply Hput | apply Hcl; [by eapply put_slot_inv | apply i32_lt | apply Hput]].
Qed.

Lemma reap_held cfg now t f i w :
  slots_inv t → held t f i w → state (h_conn w) ≠ WS_STATE_OPEN →
  let t' := reap_stale_connections on_disconnect cfg now t in gone t' i ∨ held t' f i w.
Proof.
  intros Hi Hh Hs. unfold reap_stale_connections. generalize (seq 0 (max_connections t)) as l. intros l.
  cut (∀ t0, slots_inv t0 → gone t0 i ∨ held t0 f i w ∧ state (h_conn w) ≠ WS_STATE_OPEN →
    let t' := fold_left (reap_slot on_disconnect cfg now) l t0 in gone t' i ∨ held t' f i w ∧ state (h_conn w) ≠ WS_STATE_OPEN).
  { intros H. destruct (H t Hi ltac:(auto)) as [? | [? _]]; auto. }
  induction l as [ | j l IH]; intros t0 H0 H; [done |]. cbn. apply IH; [by apply reap_slot_inv | by apply reap_slot_held].
Qed.

(** ** Messages *)

Lemma close_message_seen t g code reason f i w :
  slots_inv t → held t f i w → g < 2 ^ 31 →
  let t' := (process_close_message on_close_cb t g code reason).2 in gone t' i ∨ held t' f i w.
Proof.
  intros Hi Hh Hg. unfold process_close_message. destruct (Z.ltb_spec g 0); [by right |].
  destruct (ws_find_connection_by_fd t g) as [j | ] eqn:EF; [ | by right].
  destruct (t_slots t !! j) as [wj | ] eqn:EJ; [ | by right].
  destruct (ws_send_close_frame (h_w wj) (u16 code) reason) as [r v].
  destruct (ws_connection_hash_remove _ g) as [r2 h]. cbn [snd].
  set (t1 := set_hash _ h). set (t3 := os_close (ws_unregister_fd t1 g) g).
  assert (HM : t_fd_map (set_active (release_slot t3 j (with_w wj v)) (u32 (t_active (release_slot t3 j (with_w wj v)) - 1))) =
               t_fd_map (ws_unregister_fd t g)).
  { cbn [t_fd_map set_active]. rewrite release_map. unfold t3, t1, ws_unregister_fd. destruct on_close_cb; cbn; by destruct (_ && _). }
  destruct (decide (g = f)) as [-> | Hne].
  - left. intros g. rewrite HM. apply unregister_unmaps; [done | apply Hh].
  - right. pose proof (find_other t f g i w Hi Hh Hne ltac:(lia)) as Hji. destruct Hh as [Hm Hw]. split.
    + rewrite HM. unfold ws_unregister_fd. destruct (_ && _); [ | done]. cbn. by rewrite lookup_delete_ne.
    + cbn [t_slots set_active]. rewrite release_other by congruence. unfold t3. cbn [t_slots os_close].
      destruct (unregister_fields t1 g) as (-> & _). unfold t1. by destruct on_close_cb.
Qed.

(** Data messages go to open WebSockets. *)
Lemma data_send_held t g op d f i w rc t' :
  held t f i w → state (h_conn w) ≠ WS_STATE_OPEN → ws_buffered_data_send t g op d = (rc, t') → held t' f i w.
Proof.
  intros Hh Hs. unfold ws_buffered_data_send. destruct (ws_find_connection_by_fd t g) as [j | ]; [ | by intros [= <- <-]].
  destruct (t_slots t !! j) as [wj | ] eqn:EJ; [ | by intros [= <- <-]].
  destruct (Z.eqb_spec (state (h_conn wj)) WS_STATE_OPEN) as [E0 | _]; cbn [negb]; [ | by intros [= <- <-]].
  assert (j ≠ i) as Hne by (intros ->; destruct Hh as [_ Hw]; congruence).
  destruct (h_alloc wj) as [ok w1]. destruct (ws_encode_frame ok op d) as [fr | ]; [ | intros [= <- <-]; by apply held_put_other].
  destruct (h_send w1 fr) as [r w2]. destruct (r <? 0); intros [= <- <-]; [ | by apply held_put_other].
  apply (held_put_other t f i w j _ Hh Hne).
Qed.

(** A new connection in another slot. *)
Lemma new_held t s now tid g addr tls hok f i w rc t' :
  held t f i w → t_fd_map t !! g = None → fd_in t g → head (t_free t) ≠ Some i →
  process_new_connection t s now tid g addr tls hok true = (rc, t') → held t' f i w.
Proof.
  intros [Hm Hw] Hn [Hg1 Hg2] Hne. unfold process_new_connection. destruct (Z.ltb_spec g 0); [by intros [= <- <-] |].
  destruct (t_free t) as [ | j rest]; [by intros [= <- <-] |]. cbn [t_slots set_free].
  destruct (t_slots t !! j) as [w0 | ]; [ | by intros [= <- <-]]. cbn in Hne.
  assert (Hmap : t_fd_map (ws_register_fd (set_free t rest) g j) = <[g := j]> (t_fd_map t)).
  { unfold ws_register_fd. rewrite (proj2 (Z.ltb_ge g 0)) by lia. cbn. by rewrite (proj2 (Z.ltb_lt g _)) by lia. }
  assert (Hok : ∀ w3 h e a, held (set_active (set_epoll_set (set_hash (put_slot (ws_register_fd (set_free t rest) g j) j w3) h) e) a) f i w).
  { intros w3 h e a. split; cbn.
    - rewrite Hmap, lookup_insert_ne; [done | congruence].
    - rewrite list_lookup_insert_ne by congruence. by rewrite register_slots. }
  destruct tls as [[ | ] | ].
  - destruct (ws_connection_hash_insert _ _ _ _) as [r h]. cbn [negb]. intros [= <- <-]. apply Hok.
  - intros [= <- <-]. split; [done |]. cbn. by rewrite list_lookup_insert_ne by congruence.
  - destruct (ws_connection_hash_insert _ _ _ _) as [r h]. cbn [negb]. intros [= <- <-]. apply Hok.
Qed.

Lemma watched_closed w : watched w = true → state (h_conn w) ≠ WS_STATE_OPEN.
Proof. unfold watched, pre_http. intros H E0. by rewrite E0 in H. Qed.

(** A control frame the application sends on the connection of slot [i]. *)
Definition control_frame (t : ethread) (m : out_msg) (i : nat) : bool :=
  match m with
  | MPing f _ | MPong f _ => bool_decide (t_fd_map t !! f = Some i)
  | _ => false
  end.

Definition with_user_data (w : hw) (v : Z) : hw := h_set w (λ c, set_user_data c v).

Lemma control_held t g h f i w rc t' :
  slots_inv t → held t f i w → bool_decide (t_fd_map t !! g = Some i) = false → 0 <= g < 2 ^ 31 →
  on_slot t g h = (rc, t') → held t' f i w.
Proof.
  intros Hi Hh Hb%bool_decide_eq_false Hg HE. eapply on_slot_held; [exact Hh | | exact HE].
  eapply find_other; [done | exact Hh | | done]. intros ->. by apply Hb, Hh.
Qed.

Lemma message_seen t m f i w :
  slots_inv t → held t f i w → watched w = true → accept_ok t m → hands t (LMsg m) ≠ Some i →
  control_frame t m i = false →
  let t' := (dispatch_message on_close_cb t m).2 in
  gone t' i ∨ held t' f i w ∨ ∃ v, held t' f i (with_user_data w v).
Proof.
  intros Hi Hh Hw Hm Hn Hc. apply watched_closed in Hw as Hs.
  destruct (dispatch_message on_close_cb t m) as [rc t'] eqn:ED. cbn [snd].
  destruct m as [g addr a | g conn gen d | g conn gen d | g d | g d | g code reason | g v | ]; cbn [dispatch_message] in ED.
  - right. left. destruct Hm as (Hg & Hnone & Hep). rewrite Hep in ED. eapply new_held; [exact Hh | exact Hnone | exact Hg | | exact ED].
    cbn in Hn. unfold handed_out in Hn. by rewrite (proj2 (Z.ltb_ge g 0)) in Hn by (unfold fd_in in Hg; lia).
  - right. left. destruct (same_connection t conn gen); [ | by simplify_eq]. unfold process_text_message in ED.
    destruct (g <? 0); [by simplify_eq |]. destruct (ws_buffered_data_send _ _ _ _) eqn:EB. simplify_eq. by eapply data_send_held.
  - right. left. destruct (same_connection t conn gen); [ | by simplify_eq]. unfold process_binary_message in ED.
    destruct (g <? 0); [by simplify_eq |]. destruct (ws_buffered_data_send _ _ _ _) eqn:EB. simplify_eq. by eapply data_send_held.
  - right. left. unfold process_ping_message in ED. destruct (Z.ltb_spec g 0); [by simplify_eq |].
    destruct (on_slot _ _ _) eqn:EO. simplify_eq. cbn in Hm, Hc. eapply control_held; [done | exact Hh | exact Hc | lia | exact EO].
  - right. left. unfold process_pong_message in ED. destruct (Z.ltb_spec g 0); [by simplify_eq |].
    destruct (on_slot _ _ _) eqn:EO. simplify_eq. cbn in Hm, Hc. eapply control_held; [done | exact Hh | exact Hc | lia | exact EO].
  - cbn in Hm. pose proof (close_message_seen t g code reason f i w Hi Hh Hm) as H. rewrite ED in H. destruct H; auto.
  - unfold process_user_data_update in ED. destruct (Z.ltb_spec g 0); [simplify_eq; auto |]. cbn in Hm.
    destruct (decide (g = f)) as [-> | Hne].
    + rewrite (on_slot_self t f i w _ 0 (with_user_data w v)) in ED by done. simplify_eq.
      right. right. exists v. by eapply held_put.
    + right. left. eapply on_slot_held; [exact Hh | | exact ED]. eapply find_other; eauto.
  - injection ED as <- <-. right. left. exact Hh.
Qed.

(** ** The connection of a slot *)

(** What a step of the thread takes from the socket of the connection [w] in slot [i];
    [None] if the application sends a control frame on it, or if a handler of the step
    takes it out of HTTP. *)
Definition step_input (t : ethread) (l : tlabel) (i : nat) (w : hw) : option (list Z) :=
  match l with
  | LMsg m => if control_frame t m i then None else Some []
  | LConn f ein eout _ st1 st2 =>
      if bool_decide (t_fd_map t !! f = Some i) then
        let w1 := if ein then (read_slot E cpu0 st1 w).2 else w in
        if watched w1
        then Some ((if ein then input_of_read E st1 w else []) ++ (if eout then input_of_write E st2 w1 else []))
        else None
      else Some []
  | _ => Some []
  end.

(** The slot's connection, as a history goes on: the requests made in the slot before it,
    and the bytes read from its socket.  [None] while the slot has no HTTP connection. *)
Definition connection_step (i : nat) (t : ethread) (l : tlabel) (g : option (list request * list Z)) :
    option (list request * list Z) :=
  let t' := tdo E cpu0 on_disconnect on_close_cb t l in
  match tracked t' i with
  | None => None
  | Some w' =>
      if decide (hands t l = Some i) then Some (h_reqs w', [])
      else
        match g, t_slots t !! i with
        | Some (FR, inp), Some w => (λ b, (FR, inp ++ b)) <$> step_input t l i w
        | _, _ => None
        end
  end.

Fixpoint connection_of (i : nat) (t : ethread) (ls : list tlabel) (g : option (list request * list Z)) :
    option (list request * list Z) :=
  match ls with
  | [] => g
  | l :: r => connection_of i (tdo E cpu0 on_disconnect on_close_cb t l) r (connection_step i t l g)
  end.

(** An accepted socket has sent nothing yet. *)
Definition fresh_label (l : tlabel) : Prop :=
  match l with LMsg (MNew _ _ a) => tx (a_sys a) = [] | _ => True end.

Context (handler : list request → request → response → Z * response) (file_data : Z → list Z).
Context (Henv : env_ok E handler file_data).

(** The invariant of the slot's connection. *)
Definition phase_at (t : ethread) (i : nat) (FR : list request) (inp : list Z) : Prop :=
  ∃ f w P, held t f i w ∧ watched w = true ∧ past_ok P ∧ p_reqs P = FR ∧ in_phase E handler file_data P inp w.

(** *** A new connection *)

(** What the new user of a slot finds there. *)
Definition past_of (w : hw) : past := mk_past (generation (h_conn w) + 1) (h_next w) (h_aio w) (h_heap w) (h_reqs w).

Lemma past_of_ok w : tame w → past_ok (past_of w).
Proof.
  intros [H1 H2]. split.
  - eapply Forall_impl; [exact H2 |]. intros [ctx off | p f len off]; cbn; lia.
  - intros p s Hp. destruct (H1 p s Hp). cbn. split; [done | lia].
Qed.

Lemma recv_initial_ok (b : bool) : 0 <= (if b then WS_RECV_INITIAL else 0) <= recv_hard_max.
Proof. unfold WS_RECV_INITIAL, recv_hard_max, PORTICO_MAX_HEADER_SIZE, PORTICO_MAX_BODY. destruct b; lia. Qed.

(** The slot of a connection that has just been accepted. *)
Definition accepted (w0 : hw) (f addr : Z) (a : accept_env) (i : nat) : hw :=
  let w1 := init_conn w0 (a_sys a) (a_now a) f (a_tid a) i in
  let w2 := match a_tls a with
            | Some _ => h_set w1 (λ c, ws_connection_set_state (set_ssl c true) WS_STATE_TLS_HANDSHAKE)
            | None => w1
            end in
  h_set w2 (λ c, set_client_addr c addr).

Lemma accepted_held t f addr a i :
  slots_inv t → accept_ok t (MNew f addr a) → hands t (LMsg (MNew f addr a)) = Some i →
  let t' := tdo E cpu0 on_disconnect on_close_cb t (LMsg (MNew f addr a)) in
  0 <= f < 2 ^ 31 ∧ (gone t' i ∨ ∃ w0, t_slots t !! i = Some w0 ∧ held t' f i (accepted w0 f addr a i)).
Proof.
  intros Hi (Hin & Hnone & Hep) Hh. cbn [hands] in Hh. pose proof (inv_size t Hi) as Hsz.
  assert (Hf : 0 <= f < 2 ^ 31) by (unfold fd_in in Hin; lia). split; [done |].
  unfold handed_out in Hh. rewrite (proj2 (Z.ltb_ge f 0)) in Hh by lia.
  destruct (t_free t) as [ | j rest] eqn:EF; [done |]. injection Hh as ->.
  assert (Hfree : gone t i).
  { intros g Hgm. apply (inv_map t Hi) in Hgm as (_ & Hn & _). apply Hn. rewrite EF. apply elem_of_cons. by left. }
  cbn [tdo dispatch_message]. unfold process_new_connection. rewrite (proj2 (Z.ltb_ge f 0)), EF by lia. cbn [t_slots set_free].
  destruct (t_slots t !! i) as [w0 | ] eqn:EW; [ | left; exact Hfree].
  assert (HR : ws_register_fd (set_free t rest) f i = set_fd_map (set_free t rest) (<[f := i]> (t_fd_map t))).
  { unfold ws_register_fd. rewrite (proj2 (Z.ltb_ge f 0)) by lia. cbn. destruct Hin. by rewrite (proj2 (Z.ltb_lt f _)) by lia. }
  assert (Hgood : ∀ w3 h e ac,
    held (set_active (set_epoll_set (set_hash (put_slot (ws_register_fd (set_free t rest) f i) i w3) h) e) ac) f i w3).
  { intros w3 h e ac. split; cbn; rewrite HR; cbn; [apply lookup_insert_eq |]. apply list_lookup_insert_eq. by eapply lookup_lt_Some. }
  unfold accepted. destruct (a_tls a) as [[ | ] | ]; [ | left; exact Hfree | ];
    rewrite Hep; destruct (ws_connection_hash_insert _ _ _ _) as [r h]; right; exists w0; (split; [done | apply Hgood]).
Qed.

Lemma accepted_greeting w0 f addr a i :
  tx (a_sys a) = [] → 0 <= f < 2 ^ 31 → 0 <= generation (h_conn w0) < 2 ^ 32 - 1 →
  greeting (past_of w0) [] (accepted w0 f addr a i) ∧ h_reqs (accepted w0 f addr a i) = h_reqs w0.
Proof.
  intros Ht Hf Hg. pose proof recv_initial_ok as HR.
  assert (Hu : u32 (generation (h_conn w0) + 1) = generation (h_conn w0) + 1) by (apply u32_small; lia).
  assert (Hfd : i32 (u32 f) = f) by (rewrite u32_small by lia; apply i32_small; lia).
  unfold accepted, init_conn, ws_connection_init. destruct (sys_alloc (a_sys a)) as [ok s1] eqn:EA.
  assert (Ht1 : tx s1 = []) by (revert EA; unfold sys_alloc; destruct (mem (a_sys a)); by intros [= <- <-]).
  specialize (HR ok). unfold greeting, idle, mine, recv_ok, pre_http.
  destruct (a_tls a); cbn -[recv_hard_max WS_RECV_INITIAL]; rewrite Hu, Hfd; split_and!; try done; try lia; apply HR.
Qed.

Lemma new_phase t l i w' :
  slots_inv t → tlabel_ok t l → fresh_label l → hands t l = Some i → slot_tame t i →
  (∀ g, gen_of t i = Some g → 0 <= g < 2 ^ 32 - 1) →
  tracked (tdo E cpu0 on_disconnect on_close_cb t l) i = Some w' →
  phase_at (tdo E cpu0 on_disconnect on_close_cb t l) i (h_reqs w') [].
Proof.
  intros Hi Hl Hfr Hh Ht Hg Htr. destruct l as [m | | | | | | ]; try done. destruct m as [f addr a | | | | | | | ]; try done.
  destruct (accepted_held t f addr a i Hi Hl Hh) as [Hf [Hgo | (w0 & Hw0 & Hh')]]; [by rewrite tracked_gone in Htr |].
  destruct (accepted_greeting w0 f addr a i Hfr Hf) as [Hgr Hr]; [apply Hg; unfold gen_of; by rewrite Hw0 |].
  destruct (tracked_held _ _ _ _ _ Hh' Htr) as [-> Hw]. exists f, (accepted w0 f addr a i), (past_of w0).
  split; [done |]. split; [done |]. split; [by apply past_of_ok, Ht |]. split; [by rewrite Hr | by left].
Qed.

(** *** The other steps *)

Lemma phase_same t i f w FR inp P :
  held t f i w → watched w = true → past_ok P → p_reqs P = FR → in_phase E handler file_data P inp w → phase_at t i FR inp.
Proof. intros. by exists f, w, P. Qed.

Lemma step_phase t l i FR inp b w w' :
  slots_inv t → tlabel_ok t l → hands t l ≠ Some i → phase_at t i FR inp →
  t_slots t !! i = Some w → step_input t l i w = Some b →
  tracked (tdo E cpu0 on_disconnect on_close_cb t l) i = Some w' →
  phase_at (tdo E cpu0 on_disconnect on_close_cb t l) i FR (inp ++ b).
Proof.
  intros Hi Hl Hn (f & w0 & P & Hh & Hw & HP & HF & Hph) Hs Hb Htr.
  assert (w0 = w) as -> by (destruct Hh as [_ Hh]; congruence).
  set (t' := tdo E cpu0 on_disconnect on_close_cb t l) in *.
  assert (Hgone : ¬ gone t' i) by (intros H; by rewrite tracked_gone in Htr).
  assert (Hkeep : b = [] → held t' f i w → phase_at t' i FR (inp ++ b)).
  { intros -> H. rewrite app_nil_r. by eapply phase_same. }
  assert (Hupd : ∀ g, b = [] → t' = upd_slot t i g → (in_phase E handler file_data P inp (g w)) → watched (g w) = true → phase_at t' i FR (inp ++ b)).
  { intros g -> HT HG HW. rewrite app_nil_r. eapply phase_same; [ | exact HW | exact HP | exact HF | exact HG].
    rewrite HT. unfold upd_slot. destruct Hh as [Hm Hsl]. rewrite Hsl. by eapply held_put. }
  assert (Hupd2 : ∀ j g, b = [] → t' = upd_slot t j g → j ≠ i → phase_at t' i FR (inp ++ b)).
  { intros j g Hb0 HT Hne. apply Hkeep; [done |]. rewrite HT. unfold upd_slot.
    destruct (t_slots t !! j); [by apply held_put_other | done]. }
  destruct l as [m | g a c d st1 st2 | j k | cfg now | j | j | j rx' txs' ctl' mem' sub'].
  - cbn [step_input] in Hb. destruct (control_frame t m i) eqn:EC; [done |]. injection Hb as <-.
    destruct (message_seen t m f i w Hi Hh Hw Hl Hn EC) as [H | [H | [v H]]]; [done | by apply Hkeep |].
    rewrite app_nil_r. eapply phase_same; [exact H | exact Hw | exact HP | exact HF | exact Hph].
  - cbn [step_input] in Hb. cbn [tlabel_ok] in Hl. destruct (bool_decide (t_fd_map t !! g = Some i)) eqn:EB; cycle 1.
    { injection Hb as <-. apply bool_decide_eq_false in EB. apply Hkeep; [done |].
      apply event_other; [done | done | | done]. intros ->. by apply EB, Hh. }
    apply bool_decide_eq_true in EB. assert (g = f) as -> by (by apply (map_injective t g f i); [ | | apply Hh]).
    destruct (event_self st1 st2 t f i w a c d Hi Hh) as [H | (rc1 & w1 & rc2 & w2 & ER & Hr1 & EW & Hr2 & H)]; [done |].
    destruct (tracked_held _ _ _ _ _ H Htr) as [_ Hw2].
    assert (Hw1 : (if a then (read_slot E cpu0 st1 w).2 else w) = w1).
    { destruct a; [by rewrite ER | by injection ER as _ <-]. }
    rewrite Hw1 in Hb. destruct (watched w1) eqn:EW1; [ | done]. injection Hb as <-.
    eapply phase_same; [exact H | exact Hw2 | exact HP | exact HF |]. rewrite app_assoc.
    assert (Hph1 : in_phase E handler file_data P (inp ++ (if a then input_of_read E st1 w else [])) w1).
    { destruct a; [by eapply read_phase | injection ER as _ <-; by rewrite app_nil_r]. }
    destruct c; [by eapply write_phase | injection EW as _ <-; by rewrite app_nil_r].
  - injection Hb as <-. destruct (completion_seen t j k f i w Hi Hh) as [H | [[H Hne] | (-> & w2 & HE & H)]];
      [done | by apply Hkeep |].
    destruct (aio_phase E handler file_data Henv P inp w k w2 HP Hph HE) as (P' & HP' & HF' & Hph').
    destruct (tracked_held _ _ _ _ _ H Htr) as [_ Hw2]. rewrite app_nil_r.
    eapply phase_same; [exact H | exact Hw2 | exact HP' | congruence | exact Hph'].
  - injection Hb as <-. destruct (reap_held cfg now t f i w Hi Hh (watched_closed w Hw)) as [H | H]; [done | by apply Hkeep].
  - injection Hb as <-. destruct (decide (j = i)) as [-> | Hne]; [by eapply Hupd | by eapply Hupd2].
  - injection Hb as <-. destruct (decide (j = i)) as [-> | Hne]; [by eapply Hupd | by eapply Hupd2].
  - injection Hb as <-. destruct (decide (j = i)) as [-> | Hne]; [by eapply Hupd | by eapply Hupd2].
Qed.

(** *** Histories *)

Definition phase_opt (t : ethread) (i : nat) (g : option (list request * list Z)) : Prop :=
  match g with None => True | Some (FR, inp) => phase_at t i FR inp end.

Lemma connection_step_phase i t l g :
  slots_inv t → tlabel_ok t l → fresh_label l → slot_tame t i →
  (hands t l = Some i → ∀ n, gen_of t i = Some n → 0 <= n < 2 ^ 32 - 1) →
  phase_opt t i g → phase_opt (tdo E cpu0 on_disconnect on_close_cb t l) i (connection_step i t l g).
Proof.
  intros Hi Hl Hf Ht Hg Hp. unfold connection_step.
  destruct (tracked (tdo E cpu0 on_disconnect on_close_cb t l) i) as [w' | ] eqn:ET; [ | done].
  case_decide as Hh; [by apply new_phase; auto |].
  destruct g as [[FR inp] | ]; [ | done]. destruct (t_slots t !! i) as [w | ] eqn:EW; [ | done].
  destruct (step_input t l i w) as [b | ] eqn:EB; [ | done]. cbn. by eapply step_phase.
Qed.

(** Handing out a slot keeps its reads and contexts below its generation. *)
Lemma init_tame w0 s now f tid i :
  tame w0 → 0 <= generation (h_conn w0) < 2 ^ 32 - 1 → tame (init_conn w0 s now f tid i).
Proof.
  intros [H1 H2] Hg. pose proof (init_conn_gen w0 s now f tid i) as HG. rewrite u32_small in HG by lia.
  assert (HE : h_heap (init_conn w0 s now f tid i) = h_heap w0 ∧ h_next (init_conn w0 s now f tid i) = h_next w0 ∧
    h_aio (init_conn w0 s now f tid i) = h_aio w0) by (unfold init_conn; by destruct (ws_connection_init _ _ _ _ _ _)).
  destruct HE as (E1 & E2 & E3). constructor; rewrite ?E1, ?E2, ?E3, HG.
  - intros p st Hp. destruct (H1 p st Hp). split; [done | lia].
  - eapply Forall_impl; [exact H2 |]. intros [ctx off | p fd len off]; cbn; lia.
Qed.

Lemma put_tame t i j w : slot_tame t i → (j = i → tame w) → slot_tame (put_slot t j w) i.
Proof.
  intros Ht Hw w0. cbn. destruct (decide (j = i)) as [-> | Hne]; [ | rewrite list_lookup_insert_ne by done; apply Ht].
  intros H. destruct (decide (i < length (t_slots t))%nat) as [Hlt | Hge].
  - rewrite list_lookup_insert_eq in H by done. injection H as <-. by apply Hw.
  - rewrite list_insert_ge in H by lia. by apply Ht.
Qed.

Lemma new_tame t s now tid f addr tls hok eok i :
  slot_tame t i → (∀ n, handed_out t f = Some i → gen_of t i = Some n → 0 <= n < 2 ^ 32 - 1) →
  slot_tame (process_new_connection t s now tid f addr tls hok eok).2 i.
Proof.
  intros Ht Hg. unfold process_new_connection, handed_out in *. destruct (f <? 0); [exact Ht |].
  destruct (t_free t) as [ | j rest]; [exact Ht |]. cbn [t_slots set_free]. cbn in Hg.
  destruct (t_slots t !! j) as [w0 | ] eqn:EW; [ | exact Ht].
  assert (Hput : ∀ t1 k, t_slots t1 = t_slots t →
    (∀ w, hkeeps w (k w)) → slot_tame (put_slot t1 j (k (init_conn w0 s now f tid j))) i ∧
      slot_tame (put_slot t1 j (http_connection_cleanup (k (init_conn w0 s now f tid j)))) i).
  { intros t1 k HS Hk. assert (HT1 : slot_tame t1 i) by (unfold slot_tame; by rewrite HS).
    assert (HT : j = i → tame (k (init_conn w0 s now f tid j))).
    { intros ->. apply Hk. apply init_tame; [by apply Ht |]. apply Hg; [done |]. unfold gen_of. by rewrite EW. }
    split; apply put_tame; auto. intros Hj. by apply http_cleanup_kept, HT. }
  assert (Hreg : t_slots (ws_register_fd (set_free t rest) f j) = t_slots t) by (exact (register_slots (set_free t rest) f j)).
  set (tlsk := λ w, h_set (h_set w (λ c, ws_connection_set_state (set_ssl c true) WS_STATE_TLS_HANDSHAKE)) (λ c, set_client_addr c addr)).
  set (plain := λ w, h_set w (λ c, set_client_addr c addr)).
  destruct tls as [[ | ] | ].
  - destruct (Hput (ws_register_fd (set_free t rest) f j) tlsk Hreg) as [H1 H2]; [intros w; by apply hkeeps_w |].
    destruct (ws_connection_hash_insert _ _ _ _) as [r h]. destruct eok; cbn [negb snd]; [exact H1 |].
    change (slot_tame (put_slot (put_slot (ws_register_fd (set_free t rest) f j) j (tlsk (init_conn w0 s now f tid j))) j
      (http_connection_cleanup (tlsk (init_conn w0 s now f tid j)))) i).
    unfold slot_tame, put_slot in H2 |- *. cbn in H2 |- *. by rewrite list_insert_insert_eq.
  - destruct (Hput (set_free t rest) (λ w, w) eq_refl) as [_ H2]; [done |]. exact H2.
  - destruct (Hput (ws_register_fd (set_free t rest) f j) plain Hreg) as [H1 H2]; [intros w; by apply hkeeps_w |].
    destruct (ws_connection_hash_insert _ _ _ _) as [r h]. destruct eok; cbn [negb snd]; [exact H1 |].
    change (slot_tame (put_slot (put_slot (ws_register_fd (set_free t rest) f j) j (plain (init_conn w0 s now f tid j))) j
      (http_connection_cleanup (plain (init_conn w0 s now f tid j)))) i).
    unfold slot_tame, put_slot in H2 |- *. cbn in H2 |- *. by rewrite list_insert_insert_eq.
Qed.

Lemma tdo_tame t l i :
  slot_tame t i → (hands t l = Some i → ∀ n, gen_of t i = Some n → 0 <= n < 2 ^ 32 - 1) →
  slot_tame (tdo E cpu0 on_disconnect on_close_cb t l) i.
Proof.
  intros Ht Hg. destruct l as [m | f a b c st1 st2 | j k | cfg now | j | j | j rx' txs' ctl' mem' sub']; cbn [tdo].
  - destruct m as [f addr a | | | | | | | ]; [by apply new_tame; auto | by apply message_gens..].
  - by apply event_gens.
  - by apply completion_gens.
  - by apply reap_gens.
  - apply upd_gens; [ | done]. intros w. by apply hkeeps_w.
  - apply upd_gens; [ | done]. intros w. by apply hkeeps_w.
  - apply upd_gens; [ | done]. intros w. by apply hkeeps_w.
Qed.

Lemma connection_of_phase i ls : ∀ t n g,
  slots_inv t → tvalid E cpu0 on_disconnect on_close_cb t ls → Forall fresh_label ls → slot_tame t i →
  gen_of t i = Some n → 0 <= n → n + Z.of_nat (handouts E cpu0 on_disconnect on_close_cb i t ls) < 2 ^ 32 →
  phase_opt t i g →
  phase_opt (thistory E cpu0 on_disconnect on_close_cb t ls) i (connection_of i t ls g).
Proof.
  induction ls as [ | l r IH]; intros t n g Hi Hv Hf Ht Hg Hn Hc Hp; [done |].
  destruct Hv as [Hl Hv]. apply Forall_cons in Hf as [Hf1 Hf]. cbn [handouts] in Hc.
  cbn [thistory fold_left connection_of].
  change (fold_left (tdo E cpu0 on_disconnect on_close_cb) r (tdo E cpu0 on_disconnect on_close_cb t l))
    with (thistory E cpu0 on_disconnect on_close_cb (tdo E cpu0 on_disconnect on_close_cb t l) r).
  assert (Hb : hands t l = Some i → ∀ m, gen_of t i = Some m → 0 <= m < 2 ^ 32 - 1).
  { intros Hh m Hm. rewrite decide_True in Hc by done. rewrite Hg in Hm. injection Hm as <-. lia. }
  pose proof (tdo_gens E cpu0 on_disconnect on_close_cb t l i) as Hgen. rewrite Hg in Hgen.
  assert (H : ∃ m, gen_of (tdo E cpu0 on_disconnect on_close_cb t l) i = Some m ∧ 0 <= m ∧
    m + Z.of_nat (handouts E cpu0 on_disconnect on_close_cb i (tdo E cpu0 on_disconnect on_close_cb t l) r) < 2 ^ 32).
  { case_decide as Hh.
    - exists (n + 1). cbn in Hgen. rewrite Hgen. specialize (Hb Hh n Hg). rewrite u32_small by lia. split; [done |]. lia.
    - exists n. split; [done |]. lia. }
  destruct H as (m & Hm1 & Hm2 & Hm3). eapply IH; [by apply tdo_inv | done | done | by apply tdo_tame | exact Hm1 | done | done |].
  by apply connection_step_phase.
Qed.

Lemma init_tame_slots s tid max size i : slot_tame (ws_init_event_thread s tid max size) i.
Proof.
  intros w Hw. apply list_lookup_fmap_Some in Hw as (k & -> & _). constructor; cbn; [ | constructor].
  intros p st. by rewrite lookup_empty.
Qed.

Lemma init_gen s tid max size i w : t_slots (ws_init_event_thread s tid max size) !! i = Some w → generation (h_conn w) = 0.
Proof. intros Hw. by apply list_lookup_fmap_Some in Hw as (k & -> & _). Qed.

Lemma phase_at_served t i FR inp :
  phase_at t i FR inp → ∃ w, t_slots t !! i = Some w ∧ served E handler file_data FR inp w.
Proof. intros (f & w & P & [_ Hs] & _ & HP & <- & Hph). exists w. split; [done |]. by apply phase_served. Qed.

End Threads.

(** ** The property *)

Lemma thread_serves_core E cpu0 on_disconnect on_close_cb handler file_data s tid max size ls i FR inp :
  env_ok E handler file_data → 0 < size <= 2 ^ 31 →
  let t0 := ws_init_event_thread s tid max size in
  tvalid E cpu0 on_disconnect on_close_cb t0 ls → Forall fresh_label ls →
  Z.of_nat (handouts E cpu0 on_disconnect on_close_cb i t0 ls) < 2 ^ 32 →
  connection_of E cpu0 on_disconnect on_close_cb i t0 ls None = Some (FR, inp) →
  ∃ w, t_slots (thistory E cpu0 on_disconnect on_close_cb t0 ls) !! i = Some w ∧
       served E handler file_data FR inp w.
Proof.
  intros Henv Hs t0 Hv Hf Hn Hc. destruct (gen_of t0 i) as [n | ] eqn:EG; cycle 1.
  { exfalso. revert Hc. assert (HN : ∀ ls t g, gen_of t i = None → connection_of E cpu0 on_disconnect on_close_cb i t ls g = Some (FR, inp) → g = Some (FR, inp)).
    { clear. induction ls as [ | l r IH]; intros t g HG; cbn; [done |]. intros H.
      assert (HG' : gen_of (tdo E cpu0 on_disconnect on_close_cb t l) i = None) by (rewrite tdo_gens, HG; by case_decide).
      apply IH in H; [ | done]. revert H. unfold connection_step, tracked. unfold gen_of in HG'.
      by destruct (t_slots _ !! i). }
    intros H. by apply HN in H. }
  assert (n = 0) as ->.
  { unfold gen_of in EG. destruct (t_slots t0 !! i) as [w | ] eqn:EW; [ | done]. injection EG as <-. by eapply init_gen. }
  eapply phase_at_served.
  pose proof (connection_of_phase E cpu0 on_disconnect on_close_cb handler file_data Henv i ls t0 0 None) as H.
  rewrite Hc in H. apply H; try done; [by apply init_inv | apply init_tame_slots].
Qed.


(** Two connections use the only slot in turn.  The first makes two requests and hangs up
    while the file for its second answer is being read; the second connection's request is
    read, then the read of the first one completes, then its own. *)
Definition reuse_accept (rx' : list rx_ev) : accept_env := mk_accept (mk_sys rx' [] [] false [] []) 100 0 None true true.
Definition reuse_labels : list tlabel :=
  [LMsg (MNew 5 0 (reuse_accept [RxData (demo_head ++ demo_head)])); LConn 5 true false false TlsDone TlsDone;
   LConn 5 false false true TlsDone TlsDone;
   LMsg (MNew 6 0 (reuse_accept [RxData demo_head])); LConn 6 true true false TlsDone TlsDone; LAio 0 0; LAio 0 0].
Definition reuse_thread : ethread := ws_init_event_thread demo_sys 0 1 1024.
Definition reuse_end : ethread := thistory demo_env demo_cpu true true reuse_thread reuse_labels.
Definition reuse_reqs : list request :=
  match t_slots (thistory demo_env demo_cpu true true reuse_thread (take 3 reuse_labels)) with w :: _ => h_reqs w | [] => [] end.

