(* ===== verification/WsLife.v ===== *)
(** * The life of a WebSocket connection (properties of WsHandler, HttpConn and Thread)

    From the accepted socket on: what the bytes of a client mean to the application, and
    that the handlers of a connection deliver exactly that.  [receive] is the meaning of
    one frame: the message being assembled, and the calls made.  [ws_phase] is the
    invariant of a connection on its way to WebSocket service or in it. *)
From Stdlib Require Import ZArith Lia.
From stdpp Require Import base numbers list strings gmap.
From S2P Require Import Prelude Cstr Frame Sys Utf8 OutBuf Conn WsHandler HttpRequest HttpResponse Handshake HttpConn HttpServe Ident Thread HttpLife.
Open Scope Z_scope.

(** ** The meaning of a frame *)

(** The call that delivers a message. *)
Definition message_calls (cfg : server_cfg) (op : Z) (d : list Z) : list event :=
  if (op =? WS_OPCODE_TEXT) && on_text_message cfg then [EvText d]
  else if (op =? WS_OPCODE_BINARY) && on_binary_message cfg then [EvBinary d] else [].

(** A message that is complete: text must be UTF-8. *)
Definition complete (cfg : server_cfg) (op : Z) (d : list Z) : option (option (Z * list Z) * list event) :=
  if (op =? WS_OPCODE_TEXT) && (ws_utf8_valid d =? 0) then None else Some (None, message_calls cfg op d).

(** A frame that arrives while [m] is being assembled: what is being assembled then, and
    the calls; [None] if the frame ends the connection. *)
Definition receive (cfg : server_cfg) (m : option (Z * list Z)) (f : ws_frame) :
    option (option (Z * list Z) * list event) :=
  if 8 <=? opcode f then
    if (fin f =? 0) || (125 <? zlen (payload f)) then None
    else if opcode f =? WS_OPCODE_PING then Some (m, [])
    else if opcode f =? WS_OPCODE_PONG then Some (m, if on_pong cfg then [EvPong (payload f)] else [])
    else None
  else if (opcode f =? WS_OPCODE_TEXT) || (opcode f =? WS_OPCODE_BINARY) then
    match m with
    | Some _ => None
    | None => if fin f =? 0 then Some (Some (opcode f, payload f), []) else complete cfg (opcode f) (payload f)
    end
  else if opcode f =? WS_OPCODE_CONTINUATION then
    match m with
    | None => None
    | Some (op, d) =>
        let d' := d ++ payload f in
        if max_message_size cfg <? zlen d' then None
        else if fin f =? 0 then Some (Some (op, d'), []) else complete cfg op d'
    end
  else None.

Fixpoint receive_all (cfg : server_cfg) (m : option (Z * list Z)) (fs : list ws_frame) :
    option (option (Z * list Z) * list event) :=
  match fs with
  | [] => Some (m, [])
  | f :: r =>
      match receive cfg m f with
      | None => None
      | Some (m1, e1) =>
          match receive_all cfg m1 r with
          | None => None
          | Some (m2, e2) => Some (m2, e1 ++ e2)
          end
      end
  end.

Lemma receive_all_app cfg fs gs : ∀ m m1 e1 m2 e2,
  receive_all cfg m fs = Some (m1, e1) → receive_all cfg m1 gs = Some (m2, e2) →
  receive_all cfg m (fs ++ gs) = Some (m2, e1 ++ e2).
Proof.
  induction fs as [ | f fs IH]; intros m m1 e1 m2 e2; cbn; [by intros [= <- <-] |].
  destruct (receive cfg m f) as [[ma ea] | ]; [ | done].
  destruct (receive_all cfg ma fs) as [[mb eb] | ] eqn:EB; [ | done]. intros [= <- <-] H.
  by rewrite (IH ma mb eb m2 e2 EB H), app_assoc.
Qed.

(** ** Frames in a byte stream *)

Section Cut.
Context (cpu0 : cpu) (cfg : server_cfg) (Hmax : 0 <= max_message_size cfg < 2 ^ 31 - 14).
Local Abbreviation max := (max_message_size cfg).

(** [l] starts with the frames [fs], and [rest] is what follows them. *)
Inductive cut : list Z → list ws_frame → list Z → Prop :=
| cut_none l : cut l [] l
| cut_frame l n f l' fs rest :
    ws_parse_frame cpu0 l max = (n, f, l') → 0 < n → cut (zdrop n l) fs rest → cut l (f :: fs) rest.

(** No complete frame at the front of [l], and nothing wrong with it so far. *)
Definition incomplete (l : list Z) : Prop := l = [] ∨ (ws_parse_frame cpu0 l max).1.1 = 0.

Lemma cut_app a fs b gs c : cut a fs b → cut b gs c → cut a (fs ++ gs) c.
Proof. induction 1 as [ | l n f l' fs rest Hp Hn _ IH]; [done |]. intros H. cbn. by eapply cut_frame; [ | | apply IH]. Qed.

Lemma zdrop_app_le {A} n (l x : list A) : 0 <= n <= zlen l → zdrop n (l ++ x) = zdrop n l ++ x.
Proof. intros Hn. unfold zdrop, zlen in *. apply drop_app_le. lia. Qed.
Lemma ztake_app_le {A} n (l x : list A) : n <= zlen l → ztake n (l ++ x) = ztake n l.
Proof. intros Hn. unfold ztake, zlen in *. apply take_app_le. lia. Qed.

Lemma zdrop_app_at {A} n (l x : list A) : zlen l = n → zdrop n (l ++ x) = x.
Proof. intros <-. apply zdrop_app_exact. Qed.

(** The header parser looks at the header only. *)
Lemma parse_header_extend l x hl g :
  bytes_ok l → ws_parse_frame_header l max = (hl, g) → 0 < hl → ws_parse_frame_header (l ++ x) max = (hl, g).
Proof.
  intros Hb. unfold ws_parse_frame_header. rewrite zlen_app. pose proof (zlen_nonneg x).
  destruct (Z.ltb_spec (zlen l) 2); [intros [= <- <-]; lia |].
  rewrite (proj2 (Z.ltb_ge _ 2)), !rd_app_l by lia.
  destruct (negb _); [done |]. destruct (_ =? 0); [done |].
  destruct (parse_payload_len l (zlen l) _) as [[plen hlen] | ] eqn:EP; [ | intros [= <- <-]; lia].
  pose proof (parse_payload_len_bound _ _ _ _ EP ltac:(lia)) as Hh.
  apply (parse_payload_len_mono l x) in EP. rewrite zlen_app in EP. rewrite EP.
  destruct (max <? plen); [done |]. destruct (Z.ltb_spec (zlen l) (hlen + 4)); [intros [= <- <-]; lia |].
  rewrite (proj2 (Z.ltb_ge _ (hlen + 4))) by lia. intros HE _. rewrite <- HE. do 2 f_equal.
  rewrite zdrop_app_le, ztake_app_le by (rewrite ?zlen_zdrop; lia). done.
Qed.

(** A frame that is there stays the same whatever follows it. *)
Lemma parse_frame_extend l x n f l' :
  bytes_ok l → bytes_ok x → ws_parse_frame cpu0 l max = (n, f, l') → 0 < n →
  ∃ l2, ws_parse_frame cpu0 (l ++ x) max = (n, f, l2) ∧ n <= zlen l.
Proof.
  intros Hb Hx HP Hn. pose proof (zlen_nonneg x). pose proof (zlen_nonneg l).
  destruct (parse_frame_safe _ _ _ _ _ _ Hb Hmax HP) as [[? _] | [[? _] | (HN & Hh & Hp & Hle & _)]]; [lia.. |].
  revert HP. unfold ws_parse_frame. rewrite zlen_app.
  destruct (Z.eqb_spec (zlen l) 0); [intros [= <- <- <-]; lia |]. rewrite (proj2 (Z.eqb_neq _ 0)) by lia.
  destruct (ws_parse_frame_header l max) as [hl g] eqn:EH. pose proof EH as EH'.
  apply parse_header_inv in EH' as [-> | [-> | (H1 & H2 & -> & H4 & H5 & _)]]; [ | | | done | lia].
  1,2: cbn; intros [= <- <- <-]; lia.
  rewrite (parse_header_extend l x _ _ Hb EH) by lia.
  rewrite (proj2 (Z.eqb_neq _ 0)), (proj2 (Z.ltb_ge _ 0)), u64_small by lia.
  destruct (Z.ltb_spec (zlen l) (header_len g + payload_len g)); [intros [= <- <- <-]; lia |].
  rewrite (proj2 (Z.ltb_ge _ (header_len g + payload_len g))) by lia.
  assert (HE : ztake (payload_len g) (zdrop (header_len g) (l ++ x)) = ztake (payload_len g) (zdrop (header_len g) l)).
  { rewrite zdrop_app_le, ztake_app_le by (rewrite ?zlen_zdrop; lia). done. }
  rewrite HE. destruct (0 <? payload_len g); intros [= <- <- <-]; eauto.
Qed.

Lemma cut_extend l fs rest x : cut l fs rest → bytes_ok l → bytes_ok x → cut (l ++ x) fs (rest ++ x).
Proof.
  induction 1 as [ | l n f l' fs rest HP Hn _ IH]; intros Hb Hx; [apply cut_none |].
  destruct (parse_frame_extend l x n f l' Hb Hx HP Hn) as (l2 & HP2 & Hle).
  eapply cut_frame; [exact HP2 | done |]. rewrite zdrop_app_le by lia. apply IH; [by apply Forall_drop | done].
Qed.

(** Every frame takes bytes. *)
Lemma cut_len l fs rest : cut l fs rest → bytes_ok l → zlen rest + Z.of_nat (length fs) <= zlen l.
Proof.
  induction 1 as [ | l n f l' fs rest HP Hn _ IH]; intros Hb; cbn [length]; [lia |].
  destruct (parse_frame_extend l [] n f l' Hb ltac:(constructor) HP Hn) as (_ & _ & Hle).
  specialize (IH ltac:(by apply Forall_drop)). rewrite zlen_zdrop in IH by lia. lia.
Qed.

Lemma cut_same l fs : cut l fs l → bytes_ok l → fs = [].
Proof. intros H Hb. apply cut_len in H; [ | done]. destruct fs; [done | cbn in H; lia]. Qed.

(** A client that sends frames: the stream is cut where the client cut it. *)
Lemma cut_client fs part gs rest :
  Forall (cf_ok max) fs → partial max part →
  cut (wires fs ++ part) gs rest → incomplete rest → gs = parsed <$> fs ∧ rest = part.
Proof.
  revert gs. induction fs as [ | f fs IH]; intros gs Hfs Hp HC Hi.
  - change (wires [] ++ part) with part in HC. inversion HC as [ | l n f l' gs' rest' HP Hn HC']; subst; [done |]. exfalso.
    destruct (decide (part = [])) as [-> | Hne]; [by injection HP as <- <- <- |].
    destruct (parse_partial cpu0 cfg Hmax part Hp Hne) as [g Hg]. rewrite Hg in HP. injection HP as <- _ _. lia.
  - apply Forall_cons in Hfs as [Hf Hfs]. pose proof (wire_len _ f Hf) as [Hw _].
    pose proof (parse_wire cpu0 cfg Hmax f (wires fs ++ part) Hf) as HW. rewrite app_assoc in HW.
    change (wires (f :: fs)) with (wire f ++ wires fs) in HC. inversion HC as [ | l n g l' gs' rest' HP Hn HC']; subst.
    + exfalso. destruct Hi as [Hi | Hi]; [ | rewrite HW in Hi; cbn in Hi; lia].
      apply (f_equal zlen) in Hi. rewrite !zlen_app, zlen_nil in Hi. pose proof (zlen_nonneg (wires fs)). pose proof (zlen_nonneg part). lia.
    + rewrite HW in HP. injection HP as <- <- _. rewrite <- app_assoc, zdrop_app_exact in HC'.
      destruct (IH gs' Hfs Hp HC' Hi) as [-> ->]. done.
Qed.
End Cut.

(** ** The handlers of frames do what the frames mean *)

(** The message the reassembly buffer holds. *)
Definition in_progress (p : frame_parser) : option (Z * list Z) :=
  if in_fragmented_message p then Some (fragment_opcode p, default [] (fragment_buffer p)) else None.

(** What reading leaves alone. *)
Definition mode (c : ws_connection) : Z * option Z := (state c, file_stream c).

(** From [w] to [w'] the connection has received [fs]: the buffer holds what they leave,
    and their calls have been made; a message whose copy could not be allocated is lost. *)
Definition received (cfg : server_cfg) (w w' : cw) (fs : list ws_frame) : Prop :=
  mode (w_conn w') = mode (w_conn w) ∧ mem_ok w w' ∧
  ∃ evs got, receive_all cfg (in_progress (parser (w_conn w))) fs = Some (in_progress (parser (w_conn w')), evs) ∧
    w_ev w' = w_ev w ++ got ∧ got `sublist_of` evs ∧ (mem (w_sys w) = [] → got = evs).

Lemma received_none cfg w w' :
  mode (w_conn w') = mode (w_conn w) → parser (w_conn w') = parser (w_conn w) → w_ev w' = w_ev w → mem_ok w w' →
  received cfg w w' [].
Proof.
  intros Hs Hp He Hm. split; [done |]. split; [done |]. exists [], []. rewrite Hp, He, app_nil_r. by split_and!.
Qed.

Lemma received_trans cfg w1 w2 w3 fs gs : received cfg w1 w2 fs → received cfg w2 w3 gs → received cfg w1 w3 (fs ++ gs).
Proof.
  intros (S1 & M1 & e1 & g1 & R1 & E1 & L1 & A1) (S2 & M2 & e2 & g2 & R2 & E2 & L2 & A2).
  split; [congruence |]. split; [by intros ?%M1%M2 |]. exists (e1 ++ e2), (g1 ++ g2).
  split; [by eapply receive_all_app |]. split; [by rewrite E2, E1, app_assoc |]. split; [by apply sublist_app |].
  intros H. rewrite (A1 H), (A2 (M1 H)). done.
Qed.

(** One frame, received without allocating anything for its calls. *)
Lemma received_one cfg w w' f m evs :
  mode (w_conn w') = mode (w_conn w) → mem_ok w w' →
  receive cfg (in_progress (parser (w_conn w))) f = Some (m, evs) → in_progress (parser (w_conn w')) = m →
  w_ev w' = w_ev w ++ evs → received cfg w w' [f].
Proof.
  intros Hs Hm HR <- He. split; [done |]. split; [done |]. exists evs, evs. cbn. rewrite HR, app_nil_r. by split_and!.
Qed.

Section Frames.
Context (cfg : server_cfg) (Hmax : 0 <= max_message_size cfg < 2 ^ 31 - 14).
Local Abbreviation max := (max_message_size cfg).

Lemma fragmented_received w f rc w' :
  parser_ok max (parser (w_conn w)) → frame_ok max f → (8 <=? opcode f) = false →
  (opcode f =? WS_OPCODE_TEXT) || (opcode f =? WS_OPCODE_BINARY) = true →
  process_fragmented_frame cfg w f = (rc, w') → 0 <= rc → received cfg w w' [f].
Proof.
  intros Hp (Hl & Hb & _) H8 Hop HE Hrc. pose proof (process_frame_mem cfg w f) as HM.
  assert (HR : ∀ m, receive cfg m f = match m with
    | Some _ => None
    | None => if fin f =? 0 then Some (Some (opcode f, payload f), []) else complete cfg (opcode f) (payload f) end).
  { intros m. unfold receive. by rewrite H8, Hop. }
  revert HE. unfold process_fragmented_frame, in_progress in *.
  destruct (in_fragmented_message (parser (w_conn w))) eqn:EF; [intros [= <- <-]; lia |].
  destruct (fin f =? 0) eqn:EFin.
  - destruct (alloc w) as [ok w1] eqn:EA. pose proof (alloc_mem w) as HA. rewrite EA in HA.
    apply alloc_same in EA as ([Hc He] & _). destruct ok; cbn [negb]; intros [= <- <-]; [ | lia].
    eapply received_one; [done | exact HA | unfold in_progress; rewrite EF, HR; done | done | cbn; by rewrite app_nil_r].
  - assert (HD : ∀ w1 evs, w_conn w1 = w_conn w → mem_ok w w1 → w_ev w1 = w_ev w ++ evs →
      (opcode f =? WS_OPCODE_TEXT) && (ws_utf8_valid (payload f) =? 0) = false →
      message_calls cfg (opcode f) (payload f) = evs → received cfg w w1 [f]).
    { intros w1 evs Hc Hm He Hu <-. eapply received_one; [by rewrite Hc | done | | | exact He].
      - unfold in_progress. rewrite EF, HR. unfold complete. by rewrite Hu.
      - unfold in_progress. by rewrite Hc, EF. }
    destruct (_ && (_ =? 0)) eqn:EU; [intros H; apply ws_fail_connection_spec in H as (-> & _); by cbn in Hrc |].
    unfold message_calls in HD. destruct (_ && on_text_message cfg) eqn:ET.
    + destruct (alloc w) as [ok w1] eqn:EA. pose proof (alloc_mem w) as HA. rewrite EA in HA.
      apply alloc_same in EA as ([Hc He] & _). destruct ok; cbn [negb]; intros [= <- <-]; [ | lia].
      eapply HD; [done | exact HA | cbn; by rewrite He | done | done].
    + destruct (_ && on_binary_message cfg); intros [= <- <-]; (eapply HD; [done | by intros ? | | done | reflexivity]);
        [done | by rewrite app_nil_r].
Qed.

(** The allocation of the reassembly buffer, if it has to grow. *)
Lemma grow_fragment w (b : bool) size ok size' w1 :
  (if b then let '(ok, w1) := alloc w in (ok, size, w1) else (true, fragment_buffer_size (parser (w_conn w)), w)) = (ok, size', w1) →
  same_but_sys w w1 ∧ mem_ok w w1.
Proof.
  destruct b; [ | intros [= <- <- <-]; split; [done | by intros ?]]. destruct (alloc w) as [ok1 w2] eqn:EA. pose proof (alloc_mem w) as HA.
  rewrite EA in HA. apply alloc_same in EA as (HS & _). intros [= <- <- <-]. by split.
Qed.

Lemma continuation_received w f rc w' :
  parser_ok max (parser (w_conn w)) → frame_ok max f → opcode f = WS_OPCODE_CONTINUATION →
  process_continuation_frame cfg w f = (rc, w') → 0 <= rc → received cfg w w' [f].
Proof.
  intros Hp (Hl & Hb & _) Hop. unfold process_continuation_frame, parser_ok in *.
  destruct (in_fragmented_message (parser (w_conn w))) eqn:EF; cbn [negb]; [ | intros [= <- <-]; lia].
  destruct Hp as (d & Hd & Hdl & Ht & _ & _). rewrite Hd. cbn [default].
  pose proof (zlen_nonneg d). pose proof (zlen_nonneg (payload f)). rewrite u64_small by lia.
  set (op := fragment_opcode (parser (w_conn w))).
  assert (HR : receive cfg (in_progress (parser (w_conn w))) f =
    if max <? zlen (d ++ payload f) then None
    else if fin f =? 0 then Some (Some (op, d ++ payload f), []) else complete cfg op (d ++ payload f)).
  { unfold receive, in_progress. by rewrite Hop, EF, Hd. }
  destruct (Z.ltb_spec (max - fragment_total_size (parser (w_conn w))) (payload_len f)) as [_ | Hle].
  { intros H1; apply ws_fail_connection_spec in H1 as (-> & _). by cbn. }
  rewrite (proj2 (Z.ltb_ge max _)) in HR by (rewrite zlen_app; lia).
  destruct (if fragment_buffer_size _ <? _ then _ else _) as [[ok size'] w1] eqn:EG.
  apply grow_fragment in EG as [[Hc He] HM]. destruct ok; cbn [negb]; [ | intros [= <- <-]; lia].
  destruct (fin f =? 0).
  { intros [= <- <-] _. eapply received_one; [done | exact HM | exact HR | done | cbn; by rewrite He, app_nil_r]. }
  unfold complete in HR. destruct (_ && (_ =? 0)); [intros H1; apply ws_fail_connection_spec in H1 as (-> & _); by cbn |].
  set (w2 := with_conn w1 _). set (w3 := if _ && on_text_message cfg then _ else _). intros [= <- <-] _.
  assert (H3 : mode (w_conn w3) = mode (w_conn w) ∧ mem_ok w w3 ∧ ∃ got, w_ev w3 = w_ev w ++ got ∧
    got `sublist_of` message_calls cfg op (d ++ payload f) ∧ (mem (w_sys w) = [] → got = message_calls cfg op (d ++ payload f))).
  { unfold w3, message_calls. fold op. destruct (_ && on_text_message cfg).
    - destruct (alloc w2) as [ok2 w4] eqn:EA. pose proof (alloc_mem w2) as HA. rewrite EA in HA.
      apply alloc_same in EA as ([Hc4 He4] & _ & _ & _ & Hok). destruct ok2.
      + split; [cbn; by rewrite Hc4 |]. split; [by intros ?%HM%HA |]. eexists. split; [cbn; rewrite He4; cbn; by rewrite He | done].
      + split; [cbn; by rewrite Hc4 |]. split; [by intros ?%HM%HA |]. exists []. rewrite app_nil_r. split; [rewrite He4; cbn; by rewrite He |].
        split; [by apply sublist_nil_l |]. intros Hm. by destruct (Hok (HM Hm)).
    - destruct (_ && on_binary_message cfg); (split; [done |]; split; [exact HM |]).
      + eexists. split; [cbn; by rewrite He | done].
      + exists []. by rewrite app_nil_r. }
  destruct H3 as (H3 & HM3 & got & He3 & HL & HG). split; [exact H3 |]. split; [exact HM3 |].
  exists (message_calls cfg op (d ++ payload f)), got. cbn [receive_all]. rewrite HR, app_nil_r. by split_and!.
Qed.

(** What [process_websocket_frame] lets pass has been received. *)
Lemma frame_received w f rc w' :
  parser_ok max (parser (w_conn w)) → frame_ok max f →
  process_websocket_frame cfg w f = (rc, w') → 0 <= rc → received cfg w w' [f].
Proof.
  intros Hp Hf HE Hrc. pose proof (process_frame_mem cfg w f) as HM. rewrite HE in HM. revert HE.
  unfold process_websocket_frame. destruct Hf as (Hl & Hb & Hby) eqn:EHf. clear EHf.
  assert (HR : ∀ m, (8 <=? opcode f) = true → receive cfg m f =
    if (fin f =? 0) || (125 <? payload_len f) then None
    else if opcode f =? WS_OPCODE_PING then Some (m, [])
    else if opcode f =? WS_OPCODE_PONG then Some (m, if on_pong cfg then [EvPong (payload f)] else [])
    else None) by (intros m H8; unfold receive; by rewrite H8, Hl).
  destruct (8 <=? opcode f) eqn:E8; cbn [andb].
  - specialize (HR (in_progress (parser (w_conn w))) eq_refl).
    destruct (_ || _); [intros H; apply ws_fail_connection_spec in H as (-> & _); by cbn in Hrc |]. zbool.
    rewrite (proj2 (orb_false_iff _ _)) by (split; apply Z.eqb_neq; unfold WS_OPCODE_TEXT, WS_OPCODE_BINARY; lia).
    destruct (opcode f =? WS_OPCODE_PING) eqn:EP.
    { destruct (ws_send_pong_frame w (payload f)) as [r w1] eqn:ES. apply send_whole_frame_same in ES as [[Hc He] _].
      split_if; intros [= <- <-]; [lia |]. eapply received_one; [by rewrite Hc | done | exact HR | by rewrite Hc | by rewrite app_nil_r]. }
    destruct (opcode f =? WS_OPCODE_PONG).
    { intros [= <- <-]. eapply received_one; [by destruct (on_pong cfg) | done | exact HR | by destruct (on_pong cfg) |].
      destruct (on_pong cfg); [done | by rewrite app_nil_r]. }
    destruct (opcode f =? WS_OPCODE_CLOSE).
    { intros H. exfalso. revert H Hrc. unfold process_close_frame.
      assert (HF : ∀ code r v, ws_fail_connection w code = (r, v) → 0 <= r → False).
      { intros code r v H. apply ws_fail_connection_spec in H as (-> & _). by cbn. }
      destruct (_ =? 1); [apply HF |]. destruct (_ && negb _); [apply HF |]. destruct (_ && (_ =? 0)); [apply HF |].
      match goal with |- (let '(_, _) := ?t in _) = _ → _ => destruct t as [r2 w2] end.
      intros [= <- <-]. by cbn. }
    rewrite (proj2 (Z.eqb_neq _ WS_OPCODE_CONTINUATION)) by (unfold WS_OPCODE_CONTINUATION; lia). intros [= <- <-]. lia.
  - destruct ((opcode f =? WS_OPCODE_TEXT) || (opcode f =? WS_OPCODE_BINARY)) eqn:EO.
    { intros H. by eapply fragmented_received. }
    zbool. rewrite !(proj2 (Z.eqb_neq (opcode f) _)) by (unfold WS_OPCODE_PING, WS_OPCODE_PONG, WS_OPCODE_CLOSE; lia).
    destruct (Z.eqb_spec (opcode f) WS_OPCODE_CONTINUATION); [ | intros [= <- <-]; lia].
    intros HE. by eapply continuation_received.
Qed.

(** ** The read loop *)

Context (cpu0 : cpu) (now : Z).

(** From [w] to [w'] the connection has taken the bytes [x] and kept [y] of them. *)
Definition took (w w' : cw) (x y : list Z) : Prop := ∃ fs, cut cpu0 cfg x fs y ∧ received cfg w w' fs.

Lemma took_trans w1 w2 w3 x y z : took w1 w2 x y → took w2 w3 y z → took w1 w3 x z.
Proof. intros (fs & C1 & R1) (gs & C2 & R2). exists (fs ++ gs). split; [by eapply cut_app | by eapply received_trans]. Qed.

Lemma took_extend w w' x y b : bytes_ok x → bytes_ok b → took w w' x y → took w w' (x ++ b) (y ++ b).
Proof. intros Hx Hb (fs & C & R). exists fs. split; [by apply cut_extend | done]. Qed.

(** Changes that receive nothing. *)
Lemma took_none w w' x :
  mode (w_conn w') = mode (w_conn w) → parser (w_conn w') = parser (w_conn w) → w_ev w' = w_ev w → mem_ok w w' →
  took w w' x x.
Proof. intros. exists []. split; [apply cut_none | by apply received_none]. Qed.

Lemma frames_loop_took hard_max fuel : ∀ w offset w',
  conn_bounded cfg hard_max w → 0 <= offset <= recv_buffer_used (w_conn w) →
  frames_loop cpu0 cfg fuel w offset = (None, w') →
  took w w' (zdrop offset (recv_buffer (w_conn w))) (recv_buffer (w_conn w')) ∧
  incomplete cpu0 cfg (recv_buffer (w_conn w')).
Proof.
  induction fuel as [ | n IH]; intros w offset w' (Hb & Hu & Hp) Ho; cbn [frames_loop]; [done |].
  unfold recv_buffer_used in *. pose proof (zlen_nonneg (recv_buffer (w_conn w))) as H0.
  destruct (Z.ltb_spec offset (zlen (recv_buffer (w_conn w)))) as [Hlt | Hge]; cycle 1.
  { intros [= <-]. assert (HE : recv_buffer (consume (w_conn w) offset) = []).
    { unfold consume, recv_buffer_used. destruct (Z.ltb_spec 0 offset); [by rewrite (proj2 (Z.ltb_ge offset _)) by lia |].
      apply zlen_0_nil. lia. }
    cbn [w_conn with_conn]. rewrite HE, zdrop_ge by lia. split; [ | by left].
    apply took_none; [by unfold consume; split_ifs.. | done | by intros ?]. }
  set (data := zdrop offset (recv_buffer (w_conn w))).
  assert (Hdb : bytes_ok data) by (by apply Forall_drop).
  destruct (ws_parse_frame cpu0 data max) as [[pr f] data'] eqn:EP. pose proof EP as EP'.
  apply (parse_frame_safe _ _ _ _ _ _ Hdb Hmax) in EP' as [[-> _] | [[-> ->] | (Hpr & Hh & Hpl & Hle & Hlen & Hk & Hpay & Hd')]];
    [done | cbn [Z.ltb Z.eqb] | ].
  { intros [= <-]. assert (HE : recv_buffer (if 0 <? offset then set_recv (set_recv (w_conn w) (ztake offset (recv_buffer (w_conn w)) ++ data) (recv_buffer_capacity (w_conn w)))
        (zdrop offset (ztake offset (recv_buffer (w_conn w)) ++ data)) (recv_buffer_capacity (w_conn w))
      else set_recv (w_conn w) (ztake offset (recv_buffer (w_conn w)) ++ data) (recv_buffer_capacity (w_conn w))) = data).
    { unfold data. rewrite ztake_zdrop. destruct (Z.ltb_spec 0 offset); [done |]. cbn. by replace offset with 0 by lia. }
    change (w_conn (with_conn w ?c)) with c. rewrite HE. split; [ | right; by rewrite EP].
    apply took_none; [by split_if.. | done | by intros ?]. }
  rewrite (proj2 (Z.ltb_ge pr 0)), (proj2 (Z.eqb_neq pr 0)) by lia.
  set (w1 := with_conn w _). destruct (process_websocket_frame cfg w1 f) as [proc w2] eqn:EQ. pose proof EQ as EQ'.
  pose proof (parse_frame_bytes cpu0 cfg Hmax data pr f data' Hdb EP) as (Hb' & Hl' & [? | [? | (_ & Hfok)]]); [lia.. |].
  apply process_frame_inv in EQ' as (Hp2 & Hr2 & Hc2 & _); [ | done | done | lia].
  destruct (proc =? WS_FRAME_CLOSE_REQUESTED); [done |]. destruct (Z.ltb_spec proc 0); [done |].
  apply frame_received in EQ as HR; [ | done | done | lia].
  assert (Hbuf : recv_buffer (w_conn w2) = ztake offset (recv_buffer (w_conn w)) ++ data') by done.
  assert (Hz : zlen data = zlen (recv_buffer (w_conn w)) - offset) by (unfold data; by rewrite zlen_zdrop by lia).
  assert (HB2 : conn_bounded cfg hard_max w2).
  { unfold conn_bounded, recv_buffer_used. rewrite Hc2, Hbuf, bytes_ok_app, zlen_app, zlen_ztake by lia.
    split_and!; [by apply Forall_take | done | | cbn; lia | done]. cbn. lia. }
  intros HL. apply IH in HL as [HT HI]; [ | done | rewrite Hbuf, zlen_app, zlen_ztake by lia; lia]. split; [ | done].
  assert (HZ : zdrop (offset + pr) (recv_buffer (w_conn w2)) = zdrop pr data).
  { rewrite <- zdrop_zdrop, Hbuf by lia. rewrite (zdrop_app_at offset) by (rewrite zlen_ztake by lia; lia).
    rewrite Hd', app_assoc, (zdrop_app_at pr); [done | ]. rewrite zlen_app, zlen_ztake by lia. lia. }
  rewrite HZ in HT. eapply took_trans; [ | exact HT]. exists [f]. split; [ | exact HR].
  eapply cut_frame; [exact EP | lia | apply cut_none].
Qed.

(** The frame loop stops the handler only to close the connection. *)
Lemma frames_loop_stop fuel : ∀ w offset rc w', frames_loop cpu0 cfg fuel w offset = (Some rc, w') → rc < 0.
Proof.
  induction fuel as [ | n IH]; intros w offset rc w'; cbn [frames_loop]; [by intros [= <- <-] |].
  destruct (_ <? _); [ | done]. destruct (ws_parse_frame _ _ _) as [[pr f] data'].
  destruct (pr <? 0); [by intros [= <- <-] |]. destruct (pr =? 0); [done |].
  destruct (process_websocket_frame cfg _ f) as [proc w2].
  destruct (proc =? _); [by intros [= <- <-] |]. destruct (proc <? 0); [by intros [= <- <-] | apply IH].
Qed.

Lemma grow_recv_took hard_max w o w1 :
  conn_bounded cfg hard_max w → 0 < recv_buffer_capacity (w_conn w) → grow_recv hard_max w = (Some o, w1) →
  w1 = o ∧ conn_bounded cfg hard_max o ∧ took w o (recv_buffer (w_conn w)) (recv_buffer (w_conn o)) ∧
  recv_buffer (w_conn o) = recv_buffer (w_conn w) ∧ rx (w_sys o) = rx (w_sys w) ∧
  recv_buffer_used (w_conn o) < recv_buffer_capacity (w_conn o).
Proof.
  intros (Hb & Hu & Hp) Hcap. unfold grow_recv. destruct (Z.eqb_spec (recv_buffer_used (w_conn w)) (recv_buffer_capacity (w_conn w))).
  - destruct (Z.leb_spec hard_max (recv_buffer_capacity (w_conn w))); [done |].
    destruct (alloc w) as [ok wa] eqn:EA. pose proof (alloc_mem w) as HA. rewrite EA in HA.
    apply alloc_same in EA as ([Hc He] & _ & _ & Hr & _). destruct ok; cbn [negb]; [ | done]. intros [= <- <-].
    assert (0 <= recv_buffer_used (w_conn w)) by apply zlen_nonneg.
    split; [done |]. split; [ | split; [by apply took_none | split; [done | split; [done |]]]].
    + unfold conn_bounded. cbn. split; [done |]. split; [ | done]. unfold recv_buffer_used in *. cbn. split_if; zbool; lia.
    + unfold recv_buffer_used in *. cbn. split_if; zbool; lia.
  - intros [= <- <-]. split; [done |]. split; [done |]. split; [apply took_none; [done.. | by intros ?] |]. split_and!; [done | done | lia].
Qed.

Lemma read_loop_took hard_max fuel : ∀ w rc w',
  conn_bounded cfg hard_max w → 0 < recv_buffer_capacity (w_conn w) → bytes_ok (rx_all (rx (w_sys w))) →
  read_loop cpu0 cfg now fuel hard_max w = (rc, w') → 0 <= rc →
  ∃ b, rx_all (rx (w_sys w)) = b ++ rx_all (rx (w_sys w')) ∧ conn_bounded cfg hard_max w' ∧
    took w w' (recv_buffer (w_conn w) ++ b) (recv_buffer (w_conn w')) ∧
    (b = [] ∧ recv_buffer (w_conn w') = recv_buffer (w_conn w) ∨ incomplete cpu0 cfg (recv_buffer (w_conn w'))).
Proof.
  induction fuel as [ | n IH]; intros w rc w' HB Hcap Hrx; cbn [read_loop]; [intros [= <- <-] ?; lia |].
  destruct (grow_recv hard_max w) as [[w1 | ] wg] eqn:EG; [ | intros [= <- <-] ?; lia].
  apply grow_recv_took in EG as (-> & HB1 & HT1 & Hb1 & Hr1 & Hlt); [ | done | done].
  assert (Hcap1 : 0 < recv_buffer_capacity (w_conn w1)) by (pose proof (zlen_nonneg (recv_buffer (w_conn w1))); unfold recv_buffer_used in Hlt; lia).
  destruct (sys_recv (w_sys w1) _) as [r s2] eqn:ER. pose proof ER as ER'.
  apply sys_recv_all in ER' as (Hall & _ & _ & _ & _ & Hmem); [ | lia]. rewrite Hr1 in Hall.
  assert (Hm : ∀ c e, mem_ok w1 (mk_cw c s2 e)) by (intros c e H; cbn; congruence).
  destruct r as [b | | | ]; [ | by intros [= <- <-] | | by intros [= <- <-]].
  2:{ intros [= <- <-] _. exists []. cbn [w_sys w_conn with_sys]. split; [by rewrite Hall |]. split; [exact HB1 |]. split; [ | left; by rewrite Hb1].
      rewrite app_nil_r. eapply took_trans; [exact HT1 |]. apply took_none; [done.. | apply Hm]. }
  set (c2 := ws_connection_add_bytes_received _ now). set (w2 := mk_cw c2 s2 (w_ev w1)).
  rewrite Hall, bytes_ok_app in Hrx. destruct Hrx as [Hbb Hrx].
  apply sys_recv_data in ER as (_ & Hbl & _); [ | lia].
  assert (HB2 : conn_bounded cfg hard_max w2).
  { destruct HB1 as (H1 & H2 & H3). unfold conn_bounded, recv_buffer_used in *. cbn. rewrite bytes_ok_app, zlen_app. split_and!; try done; lia. }
  assert (HT2 : took w w2 (recv_buffer (w_conn w) ++ b) (recv_buffer (w_conn w2))).
  { change (recv_buffer (w_conn w2)) with (recv_buffer (w_conn w1) ++ b).
    eapply took_trans; [apply took_extend; [apply HB | done | exact HT1] |]. apply took_none; [done.. | apply Hm]. }
  destruct (frames_loop cpu0 cfg _ w2 0) as [[rc3 | ] w3] eqn:EF.
  { apply frames_loop_stop in EF. intros [= <- <-] ?. lia. }
  pose proof EF as EF'. apply (frames_loop_bounded cpu0 cfg Hmax hard_max) in EF' as (HB3 & Hr3 & Hcap3); [ | done | split; [done | apply zlen_nonneg]].
  apply (frames_loop_took hard_max) in EF as [HT3 HI3]; [ | done | split; [done | apply zlen_nonneg]]. rewrite zdrop_0 in HT3.
  intros HL Hrc. apply IH in HL as (b' & Hall' & HB' & HT' & HI'); [ | done | by rewrite Hcap3 | by rewrite Hr3 | done].
  exists (b ++ b'). split; [by rewrite Hall, <- app_assoc, <- Hall', Hr3 |]. split; [done |]. split.
  - rewrite app_assoc. eapply took_trans; [ | exact HT']. apply took_extend.
    + rewrite bytes_ok_app. split; [apply HB | done].
    + rewrite Hr3 in Hall'. change (rx (w_sys w2)) with (rx s2) in Hall'. rewrite Hall', bytes_ok_app in Hrx. apply Hrx.
    + by eapply took_trans.
  - destruct HI' as [[-> ->] | HI']; by right.
Qed.
End Frames.

(** ** What senders leave alone *)

(** The inbound side of a connection: its buffer, the message in progress, the calls made
    so far, and the socket's script. *)
Definition inbound (w : cw) : (Z * option Z) * list Z * Z * frame_parser * list event * list rx_ev :=
  (mode (w_conn w), recv_buffer (w_conn w), recv_buffer_capacity (w_conn w), parser (w_conn w), w_ev w, rx (w_sys w)).
Definition quiet (w w' : cw) : Prop := inbound w' = inbound w ∧ mem_ok w w'.

#[export] Instance quiet_preorder : PreOrder quiet.
Proof. split; [by intros w; split; [ | intros ?] | intros a b c [H1 M1] [H2 M2]; split; [congruence | by intros ?%M1%M2]]. Qed.

Lemma quiet_rx w w' : quiet w w' → rx (w_sys w') = rx (w_sys w).
Proof. unfold quiet, inbound, mode. by intros [[= _ _ _ _ _ _ ->] _]. Qed.
Lemma quiet_state w w' : quiet w w' → state (w_conn w') = state (w_conn w).
Proof. unfold quiet, inbound, mode. by intros [[= -> _ _ _ _ _ _] _]. Qed.

Lemma quiet_sys w s : inert (w_sys w) s → quiet w (with_sys w s).
Proof. intros [Hr Hm]. split; [ | exact Hm]. unfold inbound. cbn. by rewrite Hr. Qed.

Lemma quiet_same w w' : same_but_sys w w' → rx (w_sys w') = rx (w_sys w) → mem_ok w w' → quiet w w'.
Proof. intros [Hc He] Hr Hm. split; [ | done]. unfold inbound. by rewrite Hc, He, Hr. Qed.

Lemma alloc_quiet w ok w' : alloc w = (ok, w') → quiet w w'.
Proof. unfold alloc. destruct (sys_alloc _) as [b s] eqn:EA. apply sys_alloc_inert in EA. intros [= <- <-]. by apply quiet_sys. Qed.

Lemma send_frame_quiet op w d rc w' : send_whole_frame op w d = (rc, w') → quiet w w'.
Proof.
  intros H. pose proof (send_whole_frame_mem op w d) as HM. rewrite H in HM.
  apply send_whole_frame_same in H as [Hs Hr]. by apply quiet_same.
Qed.

Lemma hs_error_quiet w code msg rc w' : ws_send_handshake_error w code msg = (rc, w') → quiet w w'.
Proof.
  unfold ws_send_handshake_error. destruct (handshake_status code). destruct (ws_conn_socket_write _ _) as [r s] eqn:ES.
  apply sys_send_inert in ES. intros [= <- <-]. by apply quiet_sys.
Qed.

Lemma h_send_quiet w b rc w' : h_send w b = (rc, w') → quiet (h_w w) (h_w w').
Proof.
  unfold h_send. destruct (portico_conn_send _ _ _) as [[rc1 q] s] eqn:ES. apply conn_send_inert in ES as [Hr Hm].
  intros [= <- <-]. split; [ | exact Hm]. unfold inbound. cbn. by rewrite Hr.
Qed.

Lemma h_alloc_quiet w ok w' : h_alloc w = (ok, w') → quiet (h_w w) (h_w w').
Proof. unfold h_alloc. destruct (alloc (h_w w)) as [b v] eqn:EA. apply alloc_quiet in EA. by intros [= <- <-]. Qed.

Lemma h_finish_quiet w rc w' : h_finish_close w = (rc, w') → quiet (h_w w) (h_w w').
Proof. unfold h_finish_close. destruct (http_finish_close _). intros [= <- <-]. by split; [ | intros ?]. Qed.

Lemma error_close_quiet w st rc w' : http_error_close w st = (rc, w') → quiet (h_w w) (h_w w').
Proof.
  unfold http_error_close, http_reply_status, http_send_owned. destruct (h_alloc w) as [ok w1] eqn:EA. apply h_alloc_quiet in EA.
  destruct (portico_http_build_status ok st false); [ | by cbn; intros [= <- <-]].
  destruct (h_send w1 _) as [r2 w2] eqn:ES. apply h_send_quiet in ES.
  split_if; [intros [= <- <-]; by transitivity (h_w w1) |]. intros H%h_finish_quiet. transitivity (h_w w1); [done | by transitivity (h_w w2)].
Qed.

(** ** The upgrade *)

Lemma find_header_sound s hs name o s1 :
  find_header_value s hs name = (o, s1) → inert s s1 ∧ (∀ v, o = Some v → header_value hs name = Some v).
Proof.
  unfold find_header_value. destruct (header_value hs name) as [v | ]; [ | by intros [= <- <-]].
  destruct (sys_alloc s) as [ok s2] eqn:EA. apply sys_alloc_inert in EA. intros [= <- <-]. split; [done |]. by destruct ok.
Qed.

Lemma contains_token_sound s v token b s1 :
  opt_contains_token s v token = (b, s1) →
  inert s s1 ∧ (b = true → ∃ x, v = Some x ∧ ws_string_contains_token true x token = true).
Proof.
  unfold opt_contains_token. destruct v as [x | ]; [ | by intros [= <- <-]].
  destruct (sys_alloc s) as [ok s2] eqn:EA. apply sys_alloc_inert in EA. intros [= <- <-]. split; [done |].
  destruct ok; [by eexists | by destruct x].
Qed.

(** The request this server upgrades. *)
Definition upgrade_request (request : list Z) : Prop :=
  ∃ p k, get_line request p ∧ zlen p < 256 ∧ upgrade_ok request ∧ header_value request (bs "Sec-WebSocket-Key") = Some k.

Lemma validate_sound s request b s1 :
  validate_websocket_headers s request = (b, s1) → inert s s1 ∧ (b = true → upgrade_ok request).
Proof.
  unfold validate_websocket_headers. destruct (find_header_value s _ _) as [u s2] eqn:E1. apply find_header_sound in E1 as [I1 H1].
  destruct (find_header_value s2 _ _) as [c s3] eqn:E2. apply find_header_sound in E2 as [I2 H2].
  destruct (find_header_value s3 _ _) as [v s4] eqn:E3. apply find_header_sound in E3 as [I3 H3].
  destruct (opt_contains_token s4 u _) as [b1 s5] eqn:E4. apply contains_token_sound in E4 as [I4 H4].
  assert (I : inert s s5) by (do 3 (etransitivity; [eassumption |]); done).
  destruct b1; cbn [negb]; [ | by intros [= <- <-]]. destruct (H4 eq_refl) as (x & -> & Hx).
  destruct (opt_contains_token s5 c _) as [b2 s6] eqn:E5. apply contains_token_sound in E5 as [I5 H5].
  assert (I' : inert s s6) by (by transitivity s5).
  destruct b2; cbn [negb]; [ | by intros [= <- <-]]. destruct (H5 eq_refl) as (y & -> & Hy).
  intros [= <- <-]. split; [done |]. destruct v as [v | ]; [ | done]. intros ->%bool_decide_eq_true.
  exists x, y. split_and!; auto.
Qed.

Lemma handshake_request_sound s request rc info s1 :
  ws_parse_handshake_request s request = (rc, info, s1) → inert s s1 ∧ (rc = 0 → upgrade_request request).
Proof.
  unfold ws_parse_handshake_request. destruct (bool_decide (ztake 4 request = bs "GET ")) eqn:EG; cbn [negb]; [ | by intros [= <- <- <-]].
  apply bool_decide_eq_true in EG. destruct (split_space _) as [[p rest] | ] eqn:ESp; [ | by intros [= <- <- <-]].
  destruct (Z.leb_spec 256 (zlen p)); [by intros [= <- <- <-] |].
  destruct (validate_websocket_headers s request) as [b s2] eqn:EV. apply validate_sound in EV as [I2 H2].
  destruct b; cbn [negb]; [ | by intros [= <- <- <-]]. destruct (find_header_value s2 _ _) as [k s3] eqn:EK.
  apply find_header_sound in EK as [I3 H3]. assert (I : inert s s3) by (by transitivity s2).
  destruct k as [k | ]; [ | by intros [= <- <- <-]].
  destruct (find_header_value s3 _ _) as [pr s4] eqn:E4. apply find_header_sound in E4 as [I4 _].
  destruct (find_header_value s4 _ _) as [og s5] eqn:E5. apply find_header_sound in E5 as [I5 _].
  intros [= <- <- <-]. split; [do 2 (etransitivity; [eassumption |]); done |]. intros _. exists p, k.
  split; [by split; [ | exists rest] |]. split; [done |]. split; [by apply H2 | by apply H3].
Qed.

Lemma process_handshake_sound cb w request rc w' :
  ws_process_handshake cb w request = (rc, w') → quiet w w' ∧ (rc = 0 → upgrade_request request).
Proof.
  unfold ws_process_handshake. destruct (ws_parse_handshake_request _ _) as [[prc info] s1] eqn:EP.
  apply handshake_request_sound in EP as [I1 H1].
  assert (Hfail : ∀ v code msg, quiet w v → (let '(_, w2) := ws_send_handshake_error v code msg in (-1, w2)) = (rc, w') →
    quiet w w' ∧ (rc = 0 → upgrade_request request)).
  { intros v code msg Hv. destruct (ws_send_handshake_error v code msg) as [r w2] eqn:EE. apply hs_error_quiet in EE.
    intros [= <- <-]. split; [by transitivity v | done]. }
  assert (Q1 : quiet w (with_sys w s1)) by (by apply quiet_sys).
  destruct (Z.eqb_spec prc 0) as [-> | _]; cbn [negb]; [ | by apply Hfail].
  destruct (match cb with Some f => f info | None => (0, None) end) as [res sel]. destruct (negb (res =? 0)); [by apply Hfail |].
  destruct (find_header_value _ _ _) as [host' s2] eqn:EH. apply find_header_sound in EH as [I2 _].
  destruct (sys_alloc s2) as [ok s3] eqn:EA. apply sys_alloc_inert in EA.
  assert (Q3 : quiet w (mk_cw (match host' with Some h => set_user_data (set_host (w_conn (with_sys w s1)) (ztake 255 h)) HOST_PTR
    | None => w_conn (with_sys w s1) end) s3 (w_ev (with_sys w s1)))).
  { assert (I : inert (w_sys w) s3) by (etransitivity; [exact I1 | by transitivity s2]).
    destruct I as [Ir Im]. split; [ | exact Im]. unfold inbound. cbn. rewrite Ir. by destruct host'. }
  destruct (ws_create_handshake_response _ _ _ _); [ | by apply Hfail].
  destruct (ws_conn_socket_write _ _) as [r s4] eqn:ES. apply sys_send_inert in ES. intros [= <- <-]. split; [ | by intros _; apply H1].
  etransitivity; [exact Q3 |]. by apply quiet_sys.
Qed.

(** ** The invariant of a connection *)

(** Finding a block does not look behind it. *)
Lemma memmem_block hay needle t :
  needle ≠ [] → memmem hay needle = Some t →
  0 <= t ∧ t + zlen needle <= zlen hay ∧ memmem (ztake (t + zlen needle) hay) needle = Some t.
Proof.
  intros Hne. assert (Hn : 0 < zlen needle) by (destruct needle; [done | rewrite zlen_cons; pose proof (zlen_nonneg needle); lia]).
  revert t. induction hay as [ | c r IH]; intros t; cbn [memmem].
  - destruct (bool_decide _) eqn:EB; [ | done]. apply bool_decide_eq_true in EB. rewrite take_nil in EB. by subst.
  - destruct (bool_decide (take (length needle) (c :: r) = needle)) eqn:EB.
    + intros [= <-]. apply bool_decide_eq_true in EB.
      assert (HL : zlen needle <= zlen (c :: r)) by (rewrite <- EB; unfold zlen; rewrite length_take; lia).
      split; [done |]. split; [lia |]. rewrite Z.add_0_l. unfold ztake, zlen. rewrite Nat2Z.id, EB.
      destruct needle as [ | x n]; [done |]. cbn [memmem]. by rewrite bool_decide_eq_true_2 by apply firstn_all.
    + destruct (memmem r needle) as [i | ] eqn:EM; [ | done]. intros [= <-].
      destruct (IH i eq_refl) as (H0 & H1 & H2). rewrite zlen_cons. split; [lia |]. split; [lia |].
      replace (i + 1 + zlen needle) with (Z.succ (i + zlen needle)) by lia.
      unfold ztake in *. rewrite Z2Nat.inj_succ by lia. cbn [take memmem]. rewrite H2.
      rewrite bool_decide_eq_false_2; [done |]. intros HE. apply bool_decide_eq_false in EB. apply EB.
      rewrite <- HE at 2. destruct needle as [ | x n]; [done |]. cbn [length take]. f_equal.
      rewrite take_take. f_equal. unfold zlen in *. cbn [length] in *. lia.
Qed.

Lemma memmem_extend hay needle t x : needle ≠ [] → memmem hay needle = Some t → memmem (hay ++ x) needle = Some t.
Proof.
  intros Hne. revert t. induction hay as [ | c r IH]; intros t Ht; destruct (memmem_block _ _ _ Hne Ht) as (H0 & HL & _).
  - rewrite zlen_nil in HL. destruct needle; [done |]. rewrite zlen_cons in HL. pose proof (zlen_nonneg needle). lia.
  - assert (HE : take (length needle) ((c :: r) ++ x) = take (length needle) (c :: r)) by (apply take_app_le; unfold zlen in HL; lia).
    revert Ht. change ((c :: r) ++ x) with (c :: (r ++ x)) in *. cbn [memmem]. rewrite HE. destruct (bool_decide _); [done |].
    destruct (memmem r needle) as [i | ] eqn:EM; [ | done]. by rewrite (IH i eq_refl).
Qed.

(** A stream has one header block. *)
Lemma memmem_unique needle a b x y :
  needle ≠ [] → memmem a needle = Some (zlen a - zlen needle) → memmem b needle = Some (zlen b - zlen needle) →
  a ++ x = b ++ y → a = b ∧ x = y.
Proof.
  intros Hne Ha Hb He. apply (memmem_extend _ _ _ x Hne) in Ha. apply (memmem_extend _ _ _ y Hne) in Hb.
  rewrite He, Hb in Ha. apply app_inj_1; [ | done]. injection Ha as Ha. unfold zlen in *. lia.
Qed.

Lemma read_into_mem now fuel : ∀ w rc w', read_into_loop fuel now w = (rc, w') → mem_ok w w'.
Proof.
  induction fuel as [ | n IH]; intros w rc w'; cbn [read_into_loop]; [intros [= <- <-]; by intros ? |].
  assert (Hg : match grow_http w with inl (_, v) => mem_ok w v | inr v => mem_ok w v end).
  { pose proof (alloc_mem w) as HA. unfold grow_http. destruct (alloc w) as [ok wa]. split_ifs; first [exact HA | by intros ?]. }
  destruct (grow_http w) as [[rc1 w1] | w1]; [by intros [= <- <-] |].
  destruct (sys_recv (w_sys w1) _) as [r s2] eqn:ER.
  assert (Hm : mem s2 = mem (w_sys w1)).
  { revert ER. unfold sys_recv. destruct (rx (w_sys w1)) as [ | [[ | x d] | | | ] t]; try (by intros [= <- <-]). by split_if; intros [= <- <-]. }
  destruct r as [b | | | ]; [intros H1%IH H; apply H1; cbn; rewrite Hm; by apply Hg | intros [= <- <-] H; cbn; rewrite Hm; by apply Hg..].
Qed.

Section Phase.
Context (E : http_env) (cpu0 : cpu) (Hmax : 0 <= max_message_size (e_cfg E) < 2 ^ 31 - 14).
(** Whether memory never runs out. *)
Context (plenty : Prop).

(** On its way to WebSocket service, or in it. *)
Definition pre_ws (c : ws_connection) : bool := (state c =? WS_STATE_CONNECTING) || (state c =? WS_STATE_TLS_HANDSHAKE).
Definition ws_bound (c : ws_connection) : bool := pre_ws c || (state c =? WS_STATE_OPEN).

Definition hello : list event := if on_connect (e_cfg E) then [EvConnect] else [].

(** The bytes [inp] of a client, read so far, have been received: an upgrade request, and
    frames whose calls have been made.  The frames stop at the first one that is not
    complete, except that frames that came with the upgrade request wait for more input. *)
Definition delivered (inp : list Z) (w : cw) : Prop :=
  ∃ head lead more fs evs got,
    inp = head ++ lead ++ more ∧ memmem head CRLFCRLF = Some (zlen head - 4) ∧ upgrade_request (c_string head) ∧
    cut cpu0 (e_cfg E) (lead ++ more) fs (recv_buffer (w_conn w)) ∧
    receive_all (e_cfg E) None fs = Some (in_progress (parser (w_conn w)), evs) ∧
    w_ev w = hello ++ got ∧ got `sublist_of` evs ∧ (plenty → got = evs) ∧
    (more = [] ∧ fs = [] ∨ incomplete cpu0 (e_cfg E) (recv_buffer (w_conn w))).

Definition sound_script (w : cw) : Prop :=
  bytes_ok (rx_all (rx (w_sys w))) ∧ (plenty → mem (w_sys w) = []) ∧ file_stream (w_conn w) = None.

Definition waiting (inp : list Z) (w : cw) : Prop :=
  sound_script w ∧ pre_ws (w_conn w) = true ∧ recv_ok (w_conn w) ∧ recv_buffer (w_conn w) = inp ∧ bytes_ok inp ∧
  parser (w_conn w) = parser_init ∧ w_ev w = [].

Definition upgraded (inp : list Z) (w : cw) : Prop :=
  sound_script w ∧ state (w_conn w) = WS_STATE_OPEN ∧
  bytes_ok (recv_buffer (w_conn w)) ∧ recv_buffer_used (w_conn w) <= recv_buffer_capacity (w_conn w) ∧
  parser_ok (max_message_size (e_cfg E)) (parser (w_conn w)) ∧ bytes_ok inp ∧ delivered inp w.

Definition ws_phase (inp : list Z) (w : cw) : Prop := waiting inp w ∨ upgraded inp w.

(** What is quiet keeps the phase. *)
Lemma sound_quiet w w' : quiet w w' → sound_script w → sound_script w'.
Proof.
  unfold quiet, inbound, mode. intros [[= Hs Hf Hb Hc Hp He Hr] Hm] (S1 & S2 & S3). unfold sound_script.
  rewrite Hr, Hf. split_and!; [done | by intros ?%S2%Hm | done].
Qed.

Lemma waiting_quiet inp w w' : quiet w w' → waiting inp w → waiting inp w'.
Proof.
  intros Hq (HS & H1 & H2 & H3 & H4 & H5 & H6). pose proof (sound_quiet w w' Hq HS) as HS'.
  destruct Hq as [Hq _]. unfold inbound, mode in Hq. injection Hq as Hs Hf Hb Hc Hp He Hr.
  unfold waiting, pre_ws, recv_ok, recv_buffer_used in *. rewrite Hs, Hb, Hc, Hp, He. exact (conj HS' (conj H1 (conj H2 (conj H3 (conj H4 (conj H5 H6)))))).
Qed.

Lemma phase_quiet inp w w' : quiet w w' → ws_phase inp w → ws_phase inp w'.
Proof.
  intros Hq [Hw | (HS & H1 & H2 & H3 & H4 & H5 & H6)]; [left; by eapply waiting_quiet |]. right.
  pose proof (sound_quiet w w' Hq HS) as HS'. destruct Hq as [Hq _]. unfold inbound, mode in Hq. injection Hq as Hs Hf Hb Hc Hp He Hr.
  unfold upgraded, delivered, recv_buffer_used in *. rewrite Hs, Hb, Hc, Hp, He. exact (conj HS' (conj H1 (conj H2 (conj H3 (conj H4 (conj H5 H6)))))).
Qed.

(** *** Reading *)

(** The first read: bytes move from the socket to the buffer. *)
Lemma waiting_read inp w rc v :
  waiting inp w → read_into_recv (e_now E) w = (rc, v) →
  ∃ b, rx_all (rx (w_sys w)) = b ++ rx_all (rx (w_sys v)) ∧ waiting (inp ++ b) v.
Proof.
  intros ((S1 & S2 & S3) & H1 & H2 & H3 & H4 & H5 & H6) ER. pose proof ER as EM. apply read_into_mem in EM.
  apply read_into_loop_spec in ER as ((HE & _ & _ & _ & b0 & cap & ta & pa & HC) & Hok & Hall & [b Hb] & _); [ | done | lia].
  rewrite Hb, <- app_assoc in Hall. apply app_inv_head in Hall. exists b. split; [done |].
  rewrite <- Hall, bytes_ok_app in S1. destruct S1 as [Sb Sr].
  split; [split_and!; [done | by intros ?%S2%EM | by rewrite HC] |].
  split; [unfold pre_ws; by rewrite HC |]. split; [done |]. split; [congruence |]. split; [by rewrite bytes_ok_app |].
  split; [by rewrite HC | congruence].
Qed.

(** A read event of an open connection. *)
Lemma upgraded_read inp w rc v :
  upgraded inp w → handle_websocket_frames cpu0 (e_cfg E) (e_now E) w = (rc, v) → 0 <= rc →
  ∃ b, rx_all (rx (w_sys w)) = b ++ rx_all (rx (w_sys v)) ∧ upgraded (inp ++ b) v.
Proof.
  intros ((S1 & S2 & S3) & Hs & Hbuf & Hu & Hp & Hib & HD). unfold handle_websocket_frames.
  destruct (Z.eqb_spec (recv_buffer_capacity (w_conn w)) 0); [intros [= <- <-]; lia |]. intros HR Hrc.
  pose proof (zlen_nonneg (recv_buffer (w_conn w))) as H0. unfold recv_buffer_used in Hu.
  apply (read_loop_took _ Hmax) in HR as (b & Hall & (Hbuf' & [Hu' _] & Hp') & (gs & HC & Hm & HM & evs2 & got2 & HA2 & He2 & HL2 & HG2) & HI); [ | | lia | done | done].
  2:{ unfold conn_bounded, recv_buffer_used. split_and!; [done | done | split_if; zbool; lia | done]. }
  unfold mode in Hm. injection Hm as Hs' Hf'. exists b. split; [done |]. rewrite Hall, bytes_ok_app in S1. destruct S1 as [Sb Sr].
  split; [split_and!; [done | by intros ?%S2%HM | congruence] |]. split; [congruence |]. split; [done |]. split; [done |]. split; [done |].
  split; [by rewrite bytes_ok_app |].
  destruct HD as (head & lead & more & fs & evs & got & -> & Hh & Hup & HC1 & HA1 & He1 & HL1 & HG1 & HI1).
  assert (Hlm : bytes_ok (lead ++ more)) by (by apply bytes_ok_app in Hib as [_ ?]).
  exists head, lead, (more ++ b), (fs ++ gs), (evs ++ evs2), (got ++ got2).
  split; [by rewrite <- !app_assoc |]. split; [done |]. split; [done |].
  split. { rewrite app_assoc. eapply cut_app; [by apply (cut_extend cpu0 (e_cfg E) Hmax) | exact HC]. }
  split; [by eapply receive_all_app |]. split; [by rewrite He2, He1, app_assoc |]. split; [by apply sublist_app |].
  split; [intros Hpl; rewrite HG1, HG2; auto |].
  destruct HI as [[-> HIe] | HI]; [ | by right]. rewrite app_nil_r. destruct HI1 as [[-> ->] | HI1]; [ | right; by rewrite HIe].
  rewrite app_nil_r in HC. rewrite HIe in HC. left. split; [done |]. by eapply (cut_same cpu0 (e_cfg E) Hmax).
Qed.

(** *** Events *)

(** What a handler does with a connection that is not closed: it takes bytes from the
    socket and stays in phase, or the connection leaves WebSocket service. *)
Definition steps (inp : list Z) (w w' : hw) : Prop :=
  ws_bound (h_conn w') = false ∨
  ∃ b, rx_all (rx (h_sys w)) = b ++ rx_all (rx (h_sys w')) ∧ ws_phase (inp ++ b) (h_w w').

Lemma steps_quiet inp w w' : ws_phase inp (h_w w) → quiet (h_w w) (h_w w') → steps inp w w'.
Proof.
  intros Hp Hq. right. exists []. rewrite app_nil_r. split; [ | by eapply phase_quiet].
  unfold h_sys. by rewrite (quiet_rx _ _ Hq).
Qed.

(** Quiet steps before and after. *)
Lemma steps_mono inp w0 w w' w2 :
  rx (h_sys w) = rx (h_sys w0) → quiet (h_w w') (h_w w2) → steps inp w w' → steps inp w0 w2.
Proof.
  intros Hr Hq [Hn | (b & Hb & Hp)].
  - left. revert Hn. unfold ws_bound, pre_ws, h_conn. by rewrite (quiet_state _ _ Hq).
  - right. exists b. split; [ | by eapply phase_quiet]. rewrite <- Hr, Hb. f_equal.
    unfold h_sys. by rewrite (quiet_rx _ _ Hq).
Qed.

(** The upgrade: what came behind the request is kept for later. *)
Lemma upgrade_phase inp w t :
  waiting inp (h_w w) → memmem inp CRLFCRLF = Some t → upgrade_request (c_string (ztake (t + 4) inp)) →
  let w1 := h_set w (λ c, ws_connection_set_state c WS_STATE_OPEN) in
  let w2 := if on_connect (e_cfg E) then with_w w1 (log_ev (h_w w1) EvConnect) else w1 in
  ws_phase inp (h_w (consume_request w2 (t + 4))).
Proof.
  intros (HS & _ & Hok & Hb & Hi & Hp & He) Ht Hup w1 w2. right.
  destruct (memmem_block inp CRLFCRLF t ltac:(done) Ht) as (H0 & HL & HM). change (zlen CRLFCRLF) with 4 in *.
  assert (HW : sound_script (h_w w2) ∧ state (h_conn w2) = WS_STATE_OPEN ∧ recv_buffer (h_conn w2) = inp ∧
    recv_buffer_capacity (h_conn w2) = recv_buffer_capacity (h_conn w) ∧ parser (h_conn w2) = parser_init ∧ w_ev (h_w w2) = hello).
  { unfold w2, hello, h_conn in *. destruct (on_connect (e_cfg E)); cbn; rewrite ?He; by split_and!. }
  destruct HW as (HS2 & Hs2 & Hb2 & Hc2 & Hp2 & He2). clearbody w2.
  set (v := consume_request w2 (t + 4)).
  assert (Hbv : recv_buffer (h_conn v) = zdrop (t + 4) inp).
  { unfold v, consume_request. cbn. rewrite Hb2. unfold recv_buffer_used. rewrite Hb2. split_if; zbool; [done |]. by rewrite zdrop_ge by lia. }
  split; [exact HS2 |]. split; [exact Hs2 |].
  split; [change (bytes_ok (recv_buffer (h_conn v))); rewrite Hbv; by apply Forall_drop |].
  split. { change (recv_buffer_used (h_conn v) <= recv_buffer_capacity (h_conn w2)). rewrite Hc2. unfold recv_buffer_used. rewrite Hbv, zlen_zdrop by lia.
    destruct Hok as (_ & Hok & _). unfold recv_buffer_used, h_conn in *. rewrite Hb in Hok. lia. }
  split; [change (parser_ok (max_message_size (e_cfg E)) (parser (h_conn w2))); by rewrite Hp2 |]. split; [done |].
  exists (ztake (t + 4) inp), (zdrop (t + 4) inp), [], [], [], [].
  split; [by rewrite app_nil_r, ztake_zdrop |].
  split; [rewrite HM, zlen_ztake by lia; f_equal; lia |]. split; [done |].
  split; [change (cut cpu0 (e_cfg E) (zdrop (t + 4) inp ++ []) [] (recv_buffer (h_conn v))); rewrite Hbv, app_nil_r; apply cut_none |].
  split; [change (Some (None, @nil event) = Some (in_progress (parser (h_conn w2)), [])); by rewrite Hp2 |].
  split; [change (w_ev (h_w w2) = hello ++ []); by rewrite app_nil_r |]. split; [done |]. split; [done | by left].
Qed.

Lemma dispatch_steps inp w rc w' :
  waiting inp (h_w w) → portico_initial_dispatch E w = (rc, w') → 0 <= rc → steps inp w w'.
Proof.
  intros Hw. unfold portico_initial_dispatch. destruct (read_into_recv (e_now E) (h_w w)) as [rc0 v] eqn:ER.
  destruct (waiting_read inp (h_w w) rc0 v Hw ER) as (b & Hb & Hv). set (w1 := with_w w v).
  destruct (rc0 <? 0); [intros [= <- <-]; lia |].
  assert (Hq : ∀ w2, quiet (h_w w1) (h_w w2) → steps inp w w2).
  { intros w2 Hq. eapply (steps_mono inp w w w1); [done | exact Hq |]. right. exists b. split; [done | by left]. }
  assert (He : ∀ st, http_error_close w1 st = (rc, w') → 0 <= rc → steps inp w w').
  { intros st HE _. apply error_close_quiet in HE. by apply Hq. }
  change (h_conn w1) with (w_conn v). pose proof Hv as (_ & _ & _ & Hbuf & _). rewrite Hbuf.
  destruct (memmem (inp ++ b) CRLFCRLF) as [t | ] eqn:EM; [ | split_if; [apply He | intros [= <- <-] _; by apply Hq]].
  destruct (ci_contains _ _).
  - destruct (h_alloc w1) as [ok w2] eqn:EA. apply h_alloc_quiet in EA. destruct ok; cbn [negb]; [ | intros [= <- <-]; lia].
    destruct (ws_process_handshake _ (h_w w2) _) as [rc2 v2] eqn:EH. apply process_handshake_sound in EH as [QH Hup].
    destruct (Z.eqb_spec rc2 0) as [-> | _]; cbn [negb]; [ | intros [= <- <-]; lia]. intros [= <- <-] _.
    assert (Q : quiet v v2) by (by transitivity (h_w w2)).
    right. exists b. split.
    + pose proof (quiet_rx _ _ Q) as Qr. unfold h_sys at 1. rewrite Hb. f_equal.
      rewrite <- Qr. unfold h_sys. by destruct (on_connect (e_cfg E)).
    + apply (upgrade_phase (inp ++ b) (with_w w2 v2) t); [by eapply waiting_quiet | done | by apply Hup].
  - destruct (e_on_http_request E) as [hd | ]; [ | apply He]. intros HB _. left.
    apply (http_buffer_keeps E) in HB as [_ HS]. unfold ws_bound, pre_ws. by rewrite HS.
Qed.

Lemma tls_steps st inp w rc w' :
  waiting inp (h_w w) → handle_tls_handshake E st w = (rc, w') → 0 <= rc → steps inp w w'.
Proof.
  intros Hw. unfold handle_tls_handshake.
  assert (Harm : ∀ b, quiet (h_w w) (with_sys (h_w w) (sys_epoll_mod (h_sys w) b).2)).
  { intros b. destruct (sys_epoll_mod (h_sys w) b) as [r s] eqn:ES. apply sys_epoll_inert in ES. by apply quiet_sys. }
  destruct st; [ | intros [= <- <-] _; apply steps_quiet; [by left | apply Harm].. | intros [= <- <-]; lia].
  intros HE Hrc. pose proof (waiting_quiet _ _ _ (Harm false) Hw) as (S & _ & H).
  eapply (steps_mono inp w); [ | reflexivity | eapply dispatch_steps; [ | exact HE | exact Hrc]].
  - exact (quiet_rx _ _ (Harm false)).
  - split; [exact S |]. split; [done | exact H].
Qed.

Lemma ws_phase_cases inp w :
  ws_phase inp w → (waiting inp w ∧ pre_ws (w_conn w) = true ∧ (state (w_conn w) =? WS_STATE_OPEN) = false) ∨
                   (upgraded inp w ∧ state (w_conn w) = WS_STATE_OPEN).
Proof.
  intros [H | H]; [left | right; split; [done | apply H]]. pose proof H as (_ & Hp & _). split; [done |]. split; [done |].
  unfold pre_ws in Hp. apply orb_true_iff in Hp as [Hp | Hp]; apply Z.eqb_eq in Hp; by rewrite Hp.
Qed.

(** The read handler and the write handler, on any connection in phase. *)
Lemma read_slot_steps st inp w rc w' :
  ws_phase inp (h_w w) → read_slot E cpu0 st w = (rc, w') → 0 <= rc → steps inp w w'.
Proof.
  intros Hp. unfold read_slot. destruct (ws_phase_cases _ _ Hp) as [(Hw & Hs & _) | [Hu Hs]]; unfold h_conn in *.
  - destruct (state (w_conn (h_w w)) =? WS_STATE_TLS_HANDSHAKE) eqn:ET; [by apply tls_steps |].
    unfold pre_ws in Hs. rewrite ET, orb_false_r in Hs. rewrite Hs. by apply dispatch_steps.
  - rewrite Hs. cbn [Z.eqb Pos.eqb WS_STATE_OPEN WS_STATE_TLS_HANDSHAKE WS_STATE_CONNECTING]. unfold lift_cw.
    destruct (handle_websocket_frames _ _ _ (h_w w)) as [r v] eqn:EH. intros [= <- <-] Hrc.
    destruct (upgraded_read inp (h_w w) r v Hu EH Hrc) as (b & Hb & Hv). right. exists b. split; [done | by right].
Qed.

Lemma write_slot_steps st inp w rc w' :
  ws_phase inp (h_w w) → write_slot E st w = (rc, w') → 0 <= rc → steps inp w w'.
Proof.
  intros Hp. unfold write_slot. destruct (Z.eqb_spec (state (h_conn w)) WS_STATE_TLS_HANDSHAKE) as [Es | _].
  { destruct (ws_phase_cases _ _ Hp) as [(Hw & _) | [_ Hs]]; [by apply tls_steps | unfold h_conn in Es; by rewrite Hs in Es]. }
  unfold portico_conn_on_writable. destruct (on_writable_drain _ _) as [[o q] s] eqn:ED. apply writable_drain_inert in ED as [Hr Hm].
  set (w1 := with_w w _). assert (Q : quiet (h_w w) (h_w w1)) by (split; [unfold inbound; cbn; by rewrite Hr | exact Hm]).
  assert (HF : file_stream (h_conn w1) = None).
  { change (file_stream (h_conn w1)) with (file_stream (h_conn w)). by destruct Hp as [((_ & _ & ?) & _) | ((_ & _ & ?) & _)]. }
  destruct o as [r | ]; [intros [= <- <-] _; by apply steps_quiet |]. rewrite HF. intros [= <- <-] _. by apply steps_quiet.
Qed.

(** A connection that has left WebSocket service does not come back. *)
Lemma write_slot_unbound st w rc w' :
  ws_bound (h_conn w) = false → write_slot E st w = (rc, w') → ws_bound (h_conn w') = false.
Proof.
  intros Hn. unfold write_slot. destruct (Z.eqb_spec (state (h_conn w)) WS_STATE_TLS_HANDSHAKE) as [Es | _].
  - unfold ws_bound, pre_ws in Hn. by rewrite Es in Hn.
  - intros [_ H]%(on_writable_keeps E). unfold ws_bound, pre_ws in *. by rewrite H.
Qed.

(** Completions are for HTTP connections. *)
Lemma aio_quiet w k b w' : ws_bound (h_conn w) = true → aio_complete E w k = (b, w') → b = false ∧ h_w w' = h_w w.
Proof.
  intros Hb. assert (Hs : (state (h_conn w) =? WS_STATE_HTTP) = false).
  { unfold ws_bound, pre_ws in Hb. rewrite !orb_true_iff in Hb. destruct Hb as [[H | H] | H]; apply Z.eqb_eq in H; by rewrite H. }
  unfold aio_complete. destruct (h_aio w !! k) as [op | ]; [ | by intros [= <- <-]].
  destruct op as [ctx off | p f len off].
  - unfold file_read_complete. change (h_conn (with_aio _ _ _)) with (h_conn w). rewrite Hs, andb_false_r. by intros [= <- <-].
  - unfold stream_chunk_complete. destruct (h_heap _ !! p) as [s | ]; [ | by intros [= <- <-]].
    change (h_conn (with_aio _ _ _)) with (h_conn w). rewrite Hs, andb_false_r. cbn [negb andb]. intros [= <- <-].
    split; [done |]. unfold stream_free. by destruct (h_heap _ !! p).
Qed.
End Phase.

(** A finding made precise: a text message in one frame closes the connection when its
    copy cannot be allocated; a text message in fragments is dropped, and
    the connection goes on. *)
Example reassembled_text_lost :
  let w := mk_cw (set_parser demo_conn (mk_parser true WS_OPCODE_TEXT (Some (bs "hel")) 65536 3)) (mk_sys [] [] [] false [] [false]) [] in
  let v := mk_cw demo_conn (mk_sys [] [] [] false [] [false]) [] in
  let last := mk_frame 1 WS_OPCODE_CONTINUATION 1 2 [0; 0; 0; 0] (bs "lo") 6 0 in
  let whole := mk_frame 1 WS_OPCODE_TEXT 1 5 [0; 0; 0; 0] (bs "hello") 6 0 in
  (process_websocket_frame demo_cfg v whole).1 = -1 ∧
  (process_websocket_frame demo_cfg w last).1 = 0 ∧ w_ev (process_websocket_frame demo_cfg w last).2 = [] ∧
  receive demo_cfg (Some (WS_OPCODE_TEXT, bs "hel")) last = Some (None, [EvText (bs "hello")]).
Proof. vm_compute. done. Qed.
