(* ===== verification/WsThread.v ===== *)
(** * WebSocket connections of an event thread (properties of Thread and WsHandler)

    The history of a thread seen from the slot of a WebSocket client, as HttpThread does
    it for HTTP: whatever the thread does with its other slots, its queue, the reaper and
    the reads of earlier users of the slot, the application gets the messages in the bytes
    this client sent. *)
From Stdlib Require Import ZArith Lia.
From stdpp Require Import base numbers list strings gmap.
From S2P Require Import Prelude Cstr Frame Sys Utf8 OutBuf Conn ConnHash WsHandler HttpRequest HttpResponse Handshake HttpConn HttpServe Ident Thread ThreadInv ThreadSpec HttpLife HttpThread WsLife.
Open Scope Z_scope.

(** The connection of slot [i], if it is in use and in WebSocket service or on its way
    there. *)
Definition ws_tracked (t : ethread) (i : nat) : option hw :=
  match t_slots t !! i with
  | Some w => if bool_decide (t_fd_map t !! fd (h_conn w) = Some i) && ws_bound (h_conn w) then Some w else None
  | None => None
  end.

Lemma ws_tracked_gone t i : gone t i → ws_tracked t i = None.
Proof.
  intros H. unfold ws_tracked. destruct (t_slots t !! i) as [w | ]; [ | done].
  by rewrite bool_decide_eq_false_2 by apply H.
Qed.

Lemma ws_tracked_held t f i w w' : held t f i w → ws_tracked t i = Some w' → w' = w ∧ ws_bound (h_conn w) = true.
Proof.
  intros [_ Hw]. unfold ws_tracked. rewrite Hw. destruct (bool_decide _ && ws_bound (h_conn w)) eqn:EB; [ | done].
  intros [= <-]. by apply andb_prop in EB as [_ ?].
Qed.

(** The bytes taken from a socket between two of its states. *)
Definition taken (s s' : sys) : list Z := take (length (rx_all (rx s)) - length (rx_all (rx s'))) (rx_all (rx s)).

Lemma taken_eq s s' b : rx_all (rx s) = b ++ rx_all (rx s') → taken s s' = b.
Proof. intros H. unfold taken. rewrite H, length_app. apply take_app_length'. lia. Qed.

Section Threads.
Context (E : http_env) (cpu0 : cpu) (on_disconnect on_close_cb : bool).
Local Abbreviation tdo := (tdo E cpu0 on_disconnect on_close_cb).

(** ** What other steps do to the connection *)

(** The slot's connection is closed, or untouched on its inbound side, or no longer in
    WebSocket service. *)
Definition left_alone (w w' : hw) : Prop := quiet (h_w w) (h_w w') ∨ ws_bound (h_conn w') = false.
Definition seen (t' : ethread) (f : Z) (i : nat) (w : hw) : Prop := gone t' i ∨ ∃ w', held t' f i w' ∧ left_alone w w'.

Lemma seen_held t' f i w : held t' f i w → seen t' f i w.
Proof. intros H. right. exists w. split; [done | by left]. Qed.

Lemma close_seen t g f i w w' :
  slots_inv t → held t f i w' → left_alone w w' → g < 2 ^ 31 → seen (close_connection on_disconnect t g) f i w.
Proof. intros Hi Hh Hl Hg. destruct (close_either on_disconnect t g f i w' Hi Hh Hg) as [H | H]; [by left | right; eauto]. Qed.

(** A handler that leaves the inbound side alone, run for some descriptor. *)
Lemma on_slot_seen t g h f i w rc t' :
  held t f i w → (∀ w r w', h w = (r, w') → quiet (h_w w) (h_w w')) → on_slot t g h = (rc, t') → seen t' f i w.
Proof.
  intros Hh Hq. unfold on_slot. destruct (ws_find_connection_by_fd t g) as [j | ]; [ | intros [= <- <-]; by apply seen_held].
  destruct (t_slots t !! j) as [wj | ] eqn:EJ; [ | intros [= <- <-]; by apply seen_held].
  destruct (h wj) as [r w'] eqn:EH. intros [= <- <-]. destruct (decide (j = i)) as [-> | Hne].
  - right. exists w'. assert (wj = w) as -> by (destruct Hh; congruence). split; [by eapply held_put | left; by eapply Hq].
  - by apply seen_held, held_put_other.
Qed.

Lemma data_send_seen t g op d f i w rc t' :
  held t f i w → ws_buffered_data_send t g op d = (rc, t') → seen t' f i w.
Proof.
  intros Hh. unfold ws_buffered_data_send. destruct (ws_find_connection_by_fd t g) as [j | ]; [ | intros [= <- <-]; by apply seen_held].
  destruct (t_slots t !! j) as [wj | ] eqn:EJ; [ | intros [= <- <-]; by apply seen_held].
  destruct (negb _); [intros [= <- <-]; by apply seen_held |].
  assert (Hput : ∀ w', (j = i → left_alone w w') → seen (put_slot t j w') f i w).
  { intros w' Hl. destruct (decide (j = i)) as [-> | Hne]; [ | by apply seen_held, held_put_other].
    right. exists w'. split; [by eapply held_put | by apply Hl]. }
  assert (HJ : j = i → wj = w) by (intros ->; destruct Hh; congruence).
  destruct (h_alloc wj) as [ok w1] eqn:EA. apply h_alloc_quiet in EA.
  destruct (ws_encode_frame ok op d) as [fr | ]; [ | intros [= <- <-]; apply Hput; intros Hj; left; by rewrite <- (HJ Hj)].
  destruct (h_send w1 fr) as [r w2] eqn:ES. apply h_send_quiet in ES.
  destruct (r <? 0); intros [= <- <-].
  - change (seen (put_slot t j (h_set w2 (λ c, ws_connection_set_state c WS_STATE_CLOSING))) f i w). apply Hput. by right.
  - apply Hput. intros Hj. left. rewrite <- (HJ Hj). by transitivity (h_w w1).
Qed.

Lemma lift_frame_quiet op d w r w' : lift_cw (λ v, send_whole_frame op v d) w = (r, w') → quiet (h_w w) (h_w w').
Proof. unfold lift_cw. destruct (send_whole_frame op (h_w w) d) as [r1 v] eqn:ES. apply send_frame_quiet in ES. by intros [= <- <-]. Qed.

Lemma ws_message_seen t m f i w :
  slots_inv t → held t f i w → accept_ok t m → hands t (LMsg m) ≠ Some i → seen (tdo t (LMsg m)) f i w.
Proof.
  intros Hi Hh Hm Hn. cbn [ThreadSpec.tdo]. destruct (dispatch_message on_close_cb t m) as [rc t'] eqn:ED. cbn [snd].
  destruct m as [g addr a | g conn gen d | g conn gen d | g d | g d | g code reason | g v | ]; cbn [dispatch_message] in ED.
  - apply seen_held. destruct Hm as (Hg & Hnone & Hep). rewrite Hep in ED. eapply new_held; [exact Hh | exact Hnone | exact Hg | | exact ED].
    cbn in Hn. unfold handed_out in Hn. by rewrite (proj2 (Z.ltb_ge g 0)) in Hn by (unfold fd_in in Hg; lia).
  - destruct (same_connection t conn gen); [ | simplify_eq; by apply seen_held]. unfold process_text_message in ED.
    destruct (g <? 0); [simplify_eq; by apply seen_held |]. destruct (ws_buffered_data_send _ _ _ _) eqn:EB. simplify_eq. by eapply data_send_seen.
  - destruct (same_connection t conn gen); [ | simplify_eq; by apply seen_held]. unfold process_binary_message in ED.
    destruct (g <? 0); [simplify_eq; by apply seen_held |]. destruct (ws_buffered_data_send _ _ _ _) eqn:EB. simplify_eq. by eapply data_send_seen.
  - unfold process_ping_message in ED. destruct (g <? 0); [simplify_eq; by apply seen_held |].
    destruct (on_slot _ _ _) eqn:EO. simplify_eq. eapply on_slot_seen; [exact Hh | apply lift_frame_quiet | exact EO].
  - unfold process_pong_message in ED. destruct (g <? 0); [simplify_eq; by apply seen_held |].
    destruct (on_slot _ _ _) eqn:EO. simplify_eq. eapply on_slot_seen; [exact Hh | apply lift_frame_quiet | exact EO].
  - cbn in Hm. pose proof (close_message_seen on_close_cb t g code reason f i w Hi Hh Hm) as H. rewrite ED in H.
    destruct H; [by left | by apply seen_held].
  - unfold process_user_data_update in ED. destruct (g <? 0); [simplify_eq; by apply seen_held |].
    eapply on_slot_seen; [exact Hh | | exact ED]. intros w0 r w' [= <- <-]. by split; [ | intros ?].
  - injection ED as <- <-. by apply seen_held.
Qed.

(** The reaper closes, or sends a ping. *)
Lemma reap_slot_left cfg now t j f i w : slots_inv t → seen t f i w → seen (reap_slot on_disconnect cfg now t j) f i w.
Proof.
  intros Hi [Hgo | (w' & Hh & Hl)].
  { left. unfold reap_slot. destruct (t_slots t !! j) as [wj | ]; [ | done].
    destruct (reap_verdict cfg now (h_conn wj)); [done | by apply gone_close |].
    destruct (lift_cw _ wj) as [rc w1]. destruct (rc =? 0); [exact Hgo | by apply gone_close]. }
  assert (Hself : seen t f i w) by (right; eauto). unfold reap_slot. destruct (t_slots t !! j) as [wj | ] eqn:EJ; [ | done].
  destruct (reap_verdict cfg now (h_conn wj)) eqn:EV; [done | by apply (close_seen t _ f i w w'); [ | | | apply i32_lt] |].
  destruct (lift_cw _ wj) as [rc w1] eqn:EL. pose proof EL as EK. apply lift_frame_keeps in EK. apply lift_frame_quiet in EL.
  assert (Hput : ∀ x, quiet (h_w w1) (h_w x) → ∃ w2, held (put_slot t j x) f i w2 ∧ left_alone w w2).
  { intros x Hx. destruct (decide (j = i)) as [-> | Hne].
    - assert (wj = w') as -> by (destruct Hh; congruence). exists x. split; [by eapply held_put |]. destruct Hl as [Hl | Hl].
      + left. transitivity (h_w w'); [done | by transitivity (h_w w1)].
      + exfalso. revert EV. unfold reap_verdict. unfold ws_bound, pre_ws in Hl. apply orb_false_iff in Hl as [Hl1 Hl2]. rewrite Hl1, Hl2.
        repeat case_match; done.
    - exists w'. split; [by apply held_put_other | done]. }
  destruct (rc =? 0).
  - right. apply Hput. by split; [ | intros ?].
  - destruct (Hput w1 ltac:(reflexivity)) as (w2 & Hw2 & Hl2). eapply close_seen; [by eapply put_slot_inv | exact Hw2 | exact Hl2 | apply i32_lt].
Qed.

Lemma ws_reap_seen cfg now t f i w :
  slots_inv t → held t f i w → seen (reap_stale_connections on_disconnect cfg now t) f i w.
Proof.
  intros Hi Hh%seen_held. unfold reap_stale_connections. generalize (seq 0 (max_connections t)) as l. intros l. revert t Hi Hh.
  induction l as [ | j l IH]; intros t Hi Hs; [done |]. cbn. apply IH; [by apply reap_slot_inv | by apply reap_slot_left].
Qed.

(** ** The client of a slot *)

(** The bytes read from the socket of the slot's connection since it was accepted, as a
    history goes on; [None] while the slot has no connection bound for WebSocket service. *)
Definition socket_step (i : nat) (t : ethread) (l : tlabel) (g : option (list Z)) : option (list Z) :=
  match ws_tracked (tdo t l) i with
  | None => None
  | Some w' =>
      if decide (hands t l = Some i) then Some []
      else
        match g, t_slots t !! i, l with
        | Some inp, Some w, LEnv _ _ _ _ _ _ => Some inp
        | Some inp, Some w, _ => Some (inp ++ taken (h_sys w) (h_sys w'))
        | _, _, _ => None
        end
  end.

Fixpoint socket_of (i : nat) (t : ethread) (ls : list tlabel) (g : option (list Z)) : option (list Z) :=
  match ls with
  | [] => g
  | l :: r => socket_of i (tdo t l) r (socket_step i t l g)
  end.

(** What sockets deliver are bytes. *)
Definition bytes_label (l : tlabel) : Prop :=
  match l with
  | LMsg (MNew _ _ a) => bytes_ok (rx_all (rx (a_sys a)))
  | LEnv _ rx' _ _ _ _ => bytes_ok (rx_all rx')
  | _ => True
  end.

(** Memory does not run out. *)
Definition plenty_label (l : tlabel) : Prop :=
  match l with
  | LMsg (MNew _ _ a) => mem (a_sys a) = []
  | LEnv _ _ _ _ mem' _ => mem' = []
  | _ => True
  end.

Context (Hmax : 0 <= max_message_size (e_cfg E) < 2 ^ 31 - 14) (plenty : Prop).

Definition ws_at (t : ethread) (i : nat) (inp : list Z) : Prop :=
  ∃ f w, held t f i w ∧ ws_phase E cpu0 plenty inp (h_w w).

Lemma accepted_waiting w0 f addr a i :
  bytes_ok (rx_all (rx (a_sys a))) → (plenty → mem (a_sys a) = []) → waiting plenty [] (h_w (accepted w0 f addr a i)).
Proof.
  intros Hb Hm. pose proof recv_initial_ok as HR. unfold accepted, init_conn, ws_connection_init.
  destruct (sys_alloc (a_sys a)) as [ok s1] eqn:EA. apply sys_alloc_inert in EA as [Hr Hm1]. specialize (HR ok).
  unfold waiting, sound_script, recv_ok, pre_ws.
  destruct (a_tls a); cbn -[recv_hard_max WS_RECV_INITIAL]; rewrite Hr; split_and!; try done; try apply HR;
    first [constructor | by intros ?%Hm%Hm1].
Qed.

(** A step that is not the connection's own. *)
Lemma seen_at t t' f i inp w w' :
  held t f i w → ws_phase E cpu0 plenty inp (h_w w) → seen t' f i w → ws_tracked t' i = Some w' →
  ws_at t' i (inp ++ taken (h_sys w) (h_sys w')).
Proof.
  intros Hh Hp [Hgo | (w2 & Hh2 & Hl)] Htr; [by rewrite ws_tracked_gone in Htr |].
  destruct (ws_tracked_held _ _ _ _ _ Hh2 Htr) as [-> Hb]. destruct Hl as [Hq | Hn]; [ | congruence].
  rewrite (taken_eq _ _ []), app_nil_r by (unfold h_sys; by rewrite (quiet_rx _ _ Hq)).
  exists f, w2. split; [done |]. by eapply phase_quiet.
Qed.

(** An event of the connection. *)
Lemma event_at st1 st2 t f i inp w w' a b c :
  slots_inv t → held t f i w → ws_phase E cpu0 plenty inp (h_w w) →
  let t' := connection_event E cpu0 on_disconnect st1 st2 t f a b c in
  ws_tracked t' i = Some w' → ws_at t' i (inp ++ taken (h_sys w) (h_sys w')).
Proof.
  intros Hi Hh Hp t' Htr.
  destruct (event_self E cpu0 on_disconnect st1 st2 t f i w a b c Hi Hh) as [H | (rc1 & w1 & rc2 & w2 & ER & Hr1 & EW & Hr2 & H)];
    [by rewrite ws_tracked_gone in Htr |].
  destruct (ws_tracked_held _ _ _ _ _ H Htr) as [-> Hb]. zbool.
  assert (S1 : steps E cpu0 plenty inp w w1).
  { destruct a; [by eapply read_slot_steps | injection ER as _ <-; by apply steps_quiet]. }
  destruct S1 as [Hn | (b1 & Hb1 & Hp1)].
  { destruct b; [ | injection EW as _ <-; congruence]. apply write_slot_unbound in EW; [congruence | done]. }
  assert (S2 : steps E cpu0 plenty (inp ++ b1) w1 w2).
  { destruct b; [by eapply write_slot_steps | injection EW as _ <-; by apply steps_quiet]. }
  destruct S2 as [Hn | (b2 & Hb2 & Hp2)]; [congruence |].
  rewrite (taken_eq _ _ (b1 ++ b2)) by (by rewrite Hb1, Hb2, app_assoc). rewrite app_assoc. by exists f, w2.
Qed.

Lemma socket_step_at t l i inp w w' g :
  slots_inv t → tlabel_ok t l → bytes_label l → (plenty → plenty_label l) → hands t l ≠ Some i →
  ws_at t i inp → ws_tracked (tdo t l) i = Some w' → t_slots t !! i = Some w →
  match l with LEnv _ _ _ _ _ _ => Some inp | _ => Some (inp ++ taken (h_sys w) (h_sys w')) end = Some g →
  ws_at (tdo t l) i g.
Proof.
  intros Hi Hl Hb Hm Hn (f & w0 & Hh & Hp) Htr Hs.
  assert (w0 = w) as -> by (destruct Hh; congruence).
  assert (Hupd : ∀ j g, tdo t l = upd_slot t j g → (∀ v, quiet (h_w v) (h_w (g v))) → seen (tdo t l) f i w).
  { intros j h -> Hq. unfold upd_slot. destruct (t_slots t !! j) as [wj | ] eqn:EJ; [ | by apply seen_held].
    destruct (decide (j = i)) as [-> | Hne]; [ | by apply seen_held, held_put_other].
    assert (wj = w) as -> by congruence. right. exists (h w). split; [by eapply held_put | left; apply Hq]. }
  destruct l as [m | g' a c d st1 st2 | j k | cfg now | j | j | j rx' txs' ctl' mem' sub']; intros [= <-].
  - eapply seen_at; [done | done | by apply ws_message_seen | done].
  - cbn [ThreadSpec.tdo] in *. destruct (decide (g' = f)) as [-> | Hne]; [by eapply event_at |].
    eapply seen_at; [done | done | | done]. apply seen_held. by apply event_other.
  - cbn [ThreadSpec.tdo] in *. pose proof (completion_seen E on_disconnect t j k f i w Hi Hh) as [H | [[H _] | (-> & w2 & HE & H)]].
    + by rewrite ws_tracked_gone in Htr.
    + eapply seen_at; [done | done | by apply seen_held | done].
    + eapply seen_at; [done | done | | done]. right. exists w2. split; [done |]. left.
      assert (Hbd : ws_bound (h_conn w) = true).
      { unfold ws_bound. destruct (ws_phase_cases _ _ _ _ _ Hp) as [(_ & H1 & _) | [_ H1]]; unfold h_conn; [by rewrite H1 | by rewrite H1, orb_true_r]. }
      apply aio_quiet in HE as [_ ->]; [reflexivity | done].
  - eapply seen_at; [done | done | by apply ws_reap_seen | done].
  - eapply seen_at; [done | done | | done]. eapply Hupd; [reflexivity |]. intros v. by split; [ | intros ?].
  - eapply seen_at; [done | done | | done]. eapply Hupd; [reflexivity |]. intros v. by split; [ | intros ?].
  - cbn [ThreadSpec.tdo]. unfold upd_slot. destruct (decide (j = i)) as [-> | Hne]; cycle 1.
    { exists f, w. split; [ | done]. destruct (t_slots t !! j); [by apply held_put_other | done]. }
    rewrite Hs. exists f, (rescript w rx' txs' ctl' mem' sub'). split; [by eapply held_put |].
    destruct Hp as [((_ & _ & H3) & H) | ((_ & _ & H3) & H)]; [left | right]; (split; [split_and!; [exact Hb | exact Hm | exact H3] | exact H]).
Qed.

Definition ws_opt (t : ethread) (i : nat) (g : option (list Z)) : Prop := match g with None => True | Some inp => ws_at t i inp end.

Lemma socket_step_opt i t l g :
  slots_inv t → tlabel_ok t l → bytes_label l → (plenty → plenty_label l) → ws_opt t i g →
  ws_opt (tdo t l) i (socket_step i t l g).
Proof.
  intros Hi Hl Hb Hm Hp. unfold socket_step. destruct (ws_tracked (tdo t l) i) as [w' | ] eqn:ET; [ | done].
  case_decide as Hh.
  - destruct l as [m | | | | | | ]; try done. destruct m as [f addr a | | | | | | | ]; try done.
    destruct (accepted_held E cpu0 on_disconnect on_close_cb t f addr a i Hi Hl Hh) as [_ [Hgo | (w0 & _ & Hh')]]; [by rewrite ws_tracked_gone in ET |].
    exists f, (accepted w0 f addr a i). split; [done |]. left. by apply accepted_waiting.
  - destruct g as [inp | ]; [ | done]. destruct (t_slots t !! i) as [w | ] eqn:EW; [ | done].
    assert (H : ∀ g, match l with LEnv _ _ _ _ _ _ => Some inp | _ => Some (inp ++ taken (h_sys w) (h_sys w')) end = Some g →
      ws_at (tdo t l) i g) by (intros g; by eapply socket_step_at).
    destruct l; by apply H.
Qed.

Lemma socket_of_at i ls : ∀ t g,
  slots_inv t → tvalid E cpu0 on_disconnect on_close_cb t ls → Forall bytes_label ls → (plenty → Forall plenty_label ls) →
  ws_opt t i g → ws_opt (thistory E cpu0 on_disconnect on_close_cb t ls) i (socket_of i t ls g).
Proof.
  induction ls as [ | l r IH]; intros t g Hi Hv Hb Hm Hp; [done |]. destruct Hv as [Hl Hv]. apply Forall_cons in Hb as [Hb1 Hb].
  apply IH; [by apply tdo_inv | done | done | by intros [_ ?]%Hm%Forall_cons |].
  apply socket_step_opt; try done. by intros [? _]%Hm%Forall_cons.
Qed.
End Threads.

(** ** The property *)

Lemma thread_delivers_core E cpu0 on_disconnect on_close_cb s tid max size ls i inp :
  0 <= max_message_size (e_cfg E) < 2 ^ 31 - 14 → 0 < size <= 2 ^ 31 →
  let t0 := ws_init_event_thread s tid max size in
  tvalid E cpu0 on_disconnect on_close_cb t0 ls → Forall bytes_label ls →
  socket_of E cpu0 on_disconnect on_close_cb i t0 ls None = Some inp →
  ∃ w, t_slots (thistory E cpu0 on_disconnect on_close_cb t0 ls) !! i = Some w ∧
    ws_phase E cpu0 (Forall plenty_label ls) inp (h_w w).
Proof.
  intros Hmax Hs t0 Hv Hb HS.
  pose proof (socket_of_at E cpu0 on_disconnect on_close_cb Hmax (Forall plenty_label ls) i ls t0 None) as H.
  rewrite HS in H. destruct H as (f & w & [_ Hw] & Hp); try done; [by apply init_inv |]. by exists w.
Qed.


(** Seen by a client: if it sent an upgrade request and the frames [fs], the calls are
    those of [fs]. *)
Theorem client_delivered E cpu0 plenty w head fs part :
  0 <= max_message_size (e_cfg E) < 2 ^ 31 - 14 →
  delivered E cpu0 plenty (head ++ wires fs ++ part) w → memmem head CRLFCRLF = Some (zlen head - 4) →
  Forall (cf_ok (max_message_size (e_cfg E))) fs → partial (max_message_size (e_cfg E)) part →
  incomplete cpu0 (e_cfg E) (recv_buffer (w_conn w)) →
  recv_buffer (w_conn w) = part ∧
  ∃ m evs got, receive_all (e_cfg E) None (parsed <$> fs) = Some (m, evs) ∧ w_ev w = hello E ++ got ∧
    got `sublist_of` evs ∧ (plenty → got = evs).
Proof.
  intros Hmax (head' & lead & more & gs & evs & got & Heq & Hh' & _ & HC & HR & He & HL & HG & _) Hh Hfs Hp Hi.
  assert (head' = head ∧ lead ++ more = wires fs ++ part) as [-> HE] by (apply (memmem_unique CRLFCRLF); [done | exact Hh' | exact Hh | by rewrite Heq]).
  rewrite HE in HC. destruct (cut_client cpu0 (e_cfg E) Hmax fs part gs _ Hfs Hp HC Hi) as [-> ->].
  split; [done |]. by exists (in_progress (parser (w_conn w))), evs, got.
Qed.

(** An HTTP client asks for a file and hangs up while it is read; a WebSocket client gets
    the slot.  Its first read ends inside the upgrade request, its second inside a frame;
    the application sends it a ping, the read of the first client completes, the reaper
    runs, and the rest arrives. *)
Definition chat_env : http_env :=
  mk_env demo_phr (λ _, false) (λ _, false) (λ _, bs "10.0.0.1")
    (λ _ len off, Some (ztake len (zdrop off (bs "abc")))) (Some demo_handler) None demo_cfg false true 100.
Definition chat_bytes : list Z := demo_handshake ++ wires demo_frames.
Definition chat_labels : list tlabel :=
  [LMsg (MNew 5 0 (reuse_accept [RxData (demo_head ++ demo_head)])); LConn 5 true false false TlsDone TlsDone;
   LConn 5 false false true TlsDone TlsDone;
   LMsg (MNew 6 0 (reuse_accept [RxData (take 100 chat_bytes); RxAgain; RxData (take 80 (drop 100 chat_bytes)); RxAgain; RxData (drop 180 chat_bytes)]));
   LConn 6 true true false TlsDone TlsDone; LConn 6 true false false TlsDone TlsDone; LMsg (MPing 6 [1]); LAio 0 0;
   LReap (mk_timeouts 10 30 10) 101; LConn 6 true false false TlsDone TlsDone].
Definition chat_thread : ethread := ws_init_event_thread demo_sys 0 1 1024.
Definition chat_end : ethread := thistory chat_env demo_cpu true true chat_thread chat_labels.


(** A finding made precise: frames that come with the upgrade request are kept, but the
    event that reads them does not process them, and no event is due until the client
    sends more. *)
Example frames_behind_upgrade_wait :
  let w := rescript (h_set demo_world (λ c, ws_connection_set_state c WS_STATE_CONNECTING)) [RxData chat_bytes] [] [] [] [] in
  let '(rc, w1) := portico_initial_dispatch chat_env w in
  rc = 0 ∧ w_ev (h_w w1) = [EvConnect] ∧ recv_buffer (h_conn w1) = wires demo_frames ∧ rx (h_sys w1) = [].
Proof. vm_compute. done. Qed.
