(* ===== verification/Site.v ===== *)
(** * A configured site as the application of an HTTP server

    The connection layer (HttpServe) and the event thread above it (HttpThread) are proved
    for any application that keeps the handler contract.  Here the contract is the
    interface [HttpHandler], the router of HttpStatic is an instance of it, and the
    thread's theorem is instantiated with a configured site. *)
From Stdlib Require Import ZArith Lia.
From stdpp Require Import base numbers list strings gmap.
From S2P Require Import Prelude Cstr Sys OutBuf Conn WsHandler HttpRequest HttpResponse Handshake HttpConn HttpServe HttpStatic StaticSpec Thread ThreadSpec HttpThread.
Open Scope Z_scope.

(** What the connection layer relies on. *)
Class HttpHandler (h : list request → request → response → Z * response) : Prop :=
  http_handler_ok : handler_ok h.

(** [portico_router_handle] as the server's [on_http_request]; every request starts
    with no descriptor of its own. *)
Definition router_handler (F : fs_env) (r : router)
    (L : list request) (req : request) (res : response) : Z * response :=
  let '(rc, res', _) := portico_router_handle F true (mk_fsw [] []) r req res in (rc, res').

(** Files have sizes. *)
Class SaneSizes (F : fs_env) : Prop := sane_sizes : ∀ fd st, fs_stat F fd = Some st → 0 <= st_size st.

#[export] Instance router_http_handler F r `{!SaneSizes F} : HttpHandler (router_handler F r).
Proof.
  intros L req ka. unfold router_handler.
  pose proof (router_handle_ok F sane_sizes true r req (res_init ka) eq_refl (res_init_ok ka)) as H.
  by destruct (portico_router_handle F true (mk_fsw [] []) r req (res_init ka)) as [[rc res'] w'].
Qed.

(** A site served over a connection: the environment is good for the router. *)
Lemma site_env_ok E F r (file_data : Z → list Z) `{!SaneSizes F} :
  phr_contract (e_phr E) → pread_ok E file_data → e_on_http_request E = Some (router_handler F r) →
  env_ok E (router_handler F r) file_data.
Proof. intros H1 H2 H3. split; [done |]. split; [done |]. split; [apply http_handler_ok | done]. Qed.


(** A server with an empty site table. *)
Definition site_env : http_env :=
  mk_env demo_phr (λ _, false) (λ _, false) (λ _, []) (λ _ len off, Some (ztake len (zdrop off (bs "abc"))))
    (Some (router_handler demo_fs portico_router_create)) None
    (mk_cfg false false false false false false 0) false true 100.
Definition site_labels : list tlabel :=
  [LMsg (MNew 5 0 (reuse_accept [RxData demo_head])); LConn 5 true false false TlsDone TlsDone].

