(* ===== verification/Worker.v ===== *)
(** * The event loop's thread (src/src/ws/ws_event_thread.c, ws_event_thread_worker)

    The function each event thread runs: it binds itself to a CPU, marks itself running,
    waits for events and handles them until it is told to stop.  Other threads act between
    its steps: they queue messages, take references, and ask it to stop.  Every run of the
    worker is a history of its thread, so what is proved of histories holds of the loop;
    it ends when it is told to, and only then; and a request to stop that comes before it
    has marked itself running is lost. *)
From Stdlib Require Import ZArith Lia.
From stdpp Require Import base numbers list strings gmap.
From S2P Require Import Prelude Cstr Frame Sys OutBuf Conn ConnHash WsHandler HttpRequest HttpResponse Handshake HttpConn HttpServe Ident Thread ThreadInv ThreadSpec.
Open Scope Z_scope.

(** Where the worker is: before [running = true], at the loop's test, at [epoll_wait],
    or returned. *)
Inductive wpc := PStart | PTest | PWait | PDone.
#[export] Instance wpc_eq_dec : EqDecision wpc.
Proof. solve_decision. Defined.

(** What [epoll_wait] gives. *)
Inductive wait := WaitIntr | WaitFail | WaitEvents (evs : list ep_event).

(** The worker's own state.  [thread->running] is written [true] only at the start, so it
    is kept in two halves: [k_run] for the start, the end and other threads, and
    [t_running] of the thread for the shutdown message. *)
Record worker := mk_worker {
  k_loop : loop_state;
  k_run : bool;
  k_paused : bool;
  k_pc : wpc;
  k_cpu : option Z;
  k_events : Z;
  k_activity : Z
}.

Definition running (k : worker) : bool := k_run k && t_running (l_thread (k_loop k)).
Definition k_set_loop (k : worker) v := mk_worker v (k_run k) (k_paused k) (k_pc k) (k_cpu k) (k_events k) (k_activity k).
Definition k_set_run (k : worker) v := mk_worker (k_loop k) v (k_paused k) (k_pc k) (k_cpu k) (k_events k) (k_activity k).
Definition k_goto (k : worker) v := mk_worker (k_loop k) (k_run k) (k_paused k) v (k_cpu k) (k_events k) (k_activity k).

(** After [ws_init_event_thread], with messages already queued. *)
Definition worker_init (t : ethread) (q : list out_msg) : worker :=
  mk_worker (mk_loop t q 0) false false PStart None 0 0.

Definition is_conn (ev : ep_event) : bool := match ev with EpConn _ _ _ _ _ _ => true | _ => false end.

Section Worker.
Context (E : http_env) (cpu0 : cpu) (on_disconnect on_close_cb : bool) (cfg : timeouts).
(** [thread->cpu_affinity], and whether [pthread_setaffinity_np] succeeds. *)
Context (cpu_affinity : Z) (affinity_ok : bool).

(** The statements before the loop. *)
Definition worker_start (now : Z) (k : worker) : worker :=
  let cpu := if (0 <=? cpu_affinity) && affinity_ok then Some cpu_affinity else k_cpu k in
  mk_worker (mk_loop (l_thread (k_loop k)) (l_queue (k_loop k)) now) true (k_paused k) PTest cpu (k_events k) now.

(** The worker's next step: the start, the loop's test, or a wait and what follows it. *)
Definition worker_step (now : Z) (r : wait) (k : worker) : worker :=
  match k_pc k with
  | PStart => worker_start now k
  | PTest => if running k && negb (k_paused k) then k_goto k PWait else k_goto (k_set_run k false) PDone
  | PWait =>
      match r with
      | WaitIntr => k_goto k PTest
      | WaitFail => k_goto (k_set_run k false) PDone
      | WaitEvents evs =>
          mk_worker (worker_turn E cpu0 on_disconnect on_close_cb cfg now evs (k_loop k)) (k_run k) (k_paused k) PTest (k_cpu k)
            (u64 (k_events k + zlen (filter is_conn evs))) (if (0 <? zlen evs) then now else k_activity k)
      end
  | PDone => k
  end.

(** What can happen next: a step of the worker, [running = false] by ws_server.c, a
    message queued by any thread, or another thread (or the world) at a slot. *)
Inductive wlabel :=
| WRun (now : Z) (r : wait)
| WStop
| WPost (m : out_msg)
| WRef (i : nat)
| WUnref (i : nat)
| WEnv (i : nat) (rx' : list rx_ev) (txs' : list tx_ev) (ctl' mem' sub' : list bool).

Definition foreign (l : wlabel) : option tlabel :=
  match l with
  | WRef i => Some (LRef i)
  | WUnref i => Some (LUnref i)
  | WEnv i a b c d e => Some (LEnv i a b c d e)
  | _ => None
  end.

Abbreviation tdo := (tdo E cpu0 on_disconnect on_close_cb).
Abbreviation thistory := (thistory E cpu0 on_disconnect on_close_cb).

Definition worker_do (k : worker) (l : wlabel) : worker :=
  match l with
  | WRun now r => worker_step now r k
  | WStop => k_set_run k false
  | WPost m => k_set_loop k (mk_loop (l_thread (k_loop k)) (l_queue (k_loop k) ++ [m]) (l_last_reap (k_loop k)))
  | _ =>
      match foreign l with
      | Some tl => k_set_loop k (mk_loop (tdo (l_thread (k_loop k)) tl) (l_queue (k_loop k)) (l_last_reap (k_loop k)))
      | None => k
      end
  end.
Definition worker_run (k : worker) (ls : list wlabel) : worker := fold_left worker_do ls k.

(** ** Every run is a history of the thread *)

(** The steps of the thread in one entry of the batch. *)
Definition event_labels (q : list out_msg) (ev : ep_event) : list tlabel :=
  match ev with
  | EpWakeup => LMsg <$> q
  | EpAio done_ => (λ ik, LAio ik.1 ik.2) <$> done_
  | EpConn f a b c st1 st2 => [LConn f a b c st1 st2]
  end.

Fixpoint batch_labels (s : loop_state) (evs : list ep_event) : list tlabel :=
  match evs with
  | [] => []
  | ev :: r => event_labels (l_queue s) ev ++ batch_labels (ep_step E cpu0 on_disconnect on_close_cb s ev) r
  end.

Definition turn_labels (now : Z) (evs : list ep_event) (s : loop_state) : list tlabel :=
  (match evs with
   | [] => LMsg <$> take (ws_mpsc_process_messages on_close_cb 10 (l_thread s) (l_queue s)).1.1 (l_queue s)
   | _ => batch_labels s evs
   end) ++ (if now =? l_last_reap s then [] else [LReap cfg now]).

Definition wlabel_labels (k : worker) (l : wlabel) : list tlabel :=
  match l with
  | WRun now (WaitEvents evs) => if decide (k_pc k = PWait) then turn_labels now evs (k_loop k) else []
  | _ => match foreign l with Some tl => [tl] | None => [] end
  end.

Fixpoint run_labels (k : worker) (ls : list wlabel) : list tlabel :=
  match ls with [] => [] | l :: r => wlabel_labels k l ++ run_labels (worker_do k l) r end.

Lemma history_app t l1 l2 : thistory t (l1 ++ l2) = thistory (thistory t l1) l2.
Proof. apply fold_left_app. Qed.

Lemma history_msgs q : ∀ t, thistory t (LMsg <$> q) = fold_left (λ t m, (dispatch_message on_close_cb t m).2) q t.
Proof. induction q as [ | m q IH]; intros t; [done |]. cbn. apply IH. Qed.

Lemma ep_step_history s ev :
  l_thread (ep_step E cpu0 on_disconnect on_close_cb s ev) = thistory (l_thread s) (event_labels (l_queue s) ev).
Proof.
  destruct ev as [ | done_ | f a b c st1 st2]; cbn [ep_step event_labels].
  - rewrite wakeup_drains_queue, history_msgs. done.
  - cbn [l_thread]. generalize (l_thread s) as t. induction done_ as [ | [i k] l IH]; intros t; [done |]. cbn. apply IH.
  - done.
Qed.

Lemma batch_history evs : ∀ s,
  l_thread (fold_left (ep_step E cpu0 on_disconnect on_close_cb) evs s) = thistory (l_thread s) (batch_labels s evs).
Proof.
  induction evs as [ | ev r IH]; intros s; [done |]. cbn [fold_left batch_labels].
  by rewrite history_app, <- ep_step_history, IH.
Qed.

Lemma last_reap_kept evs : ∀ s, l_last_reap (fold_left (ep_step E cpu0 on_disconnect on_close_cb) evs s) = l_last_reap s.
Proof.
  induction evs as [ | ev r IH]; intros s; [done |]. cbn [fold_left]. rewrite IH.
  destruct ev as [ | done_ | f a b c st1 st2]; cbn [ep_step]; [by destruct (drain_messages _ _ _) | done | done].
Qed.

Lemma turn_history now evs s :
  l_thread (worker_turn E cpu0 on_disconnect on_close_cb cfg now evs s) = thistory (l_thread s) (turn_labels now evs s).
Proof.
  unfold worker_turn, turn_labels. rewrite history_app.
  set (s1 := match evs with [] => _ | _ => _ end).
  assert (H : l_thread s1 = thistory (l_thread s) (match evs with
      | [] => LMsg <$> take (ws_mpsc_process_messages on_close_cb 10 (l_thread s) (l_queue s)).1.1 (l_queue s)
      | _ => batch_labels s evs end) ∧ l_last_reap s1 = l_last_reap s).
  { unfold s1. destruct evs as [ | ev r]; [ | split; [apply batch_history | apply last_reap_kept]].
    destruct (ws_mpsc_process_messages on_close_cb 10 (l_thread s) (l_queue s)) as [[n q] t] eqn:EB.
    apply batch_fold in EB as (q1 & -> & <- & -> & _). cbn [fst l_thread l_last_reap].
    split; [ | reflexivity]. by rewrite take_app_length, history_msgs. }
  destruct H as [H1 H2]. rewrite H2, <- H1. by destruct (now =? l_last_reap s).
Qed.

Lemma worker_do_history k l :
  l_thread (k_loop (worker_do k l)) = thistory (l_thread (k_loop k)) (wlabel_labels k l).
Proof.
  destruct l as [now r | | m | i | i | i a b c d e]; try done. cbn [worker_do]. unfold worker_step, wlabel_labels.
  destruct (k_pc k) eqn:EP; destruct r as [ | | evs]; rewrite ?decide_False by done; try done;
    try (by destruct (running k && negb (k_paused k))).
  rewrite decide_True by done. apply turn_history.
Qed.

(** What is proved of the histories of a thread holds in every run of its worker: the
    thread of the run is the end of the history [run_labels] computes. *)
Theorem worker_refines_history ls : ∀ k,
  l_thread (k_loop (worker_run k ls)) = thistory (l_thread (k_loop k)) (run_labels k ls).
Proof.
  induction ls as [ | l r IH]; intros k; [done |]. cbn [worker_run fold_left run_labels].
  rewrite history_app, <- worker_do_history. apply IH.
Qed.

(** ** When it ends *)

Definition is_shutdown (l : tlabel) : bool := match l with LMsg MShutdown => true | _ => false end.

Lemma on_slot_running t f g rc t' : on_slot t f g = (rc, t') → t_running t' = t_running t.
Proof. unfold on_slot. intros H. by repeat case_match; simplify_eq. Qed.

Lemma release_running t i w : t_running (release_slot t i w) = t_running t.
Proof. unfold release_slot, ws_connection_unref. destruct (_ =? 1); [ | done]. by destruct (_ <? _)%nat. Qed.

Lemma unregister_running t f : t_running (ws_unregister_fd t f) = t_running t.
Proof. unfold ws_unregister_fd. by destruct (_ && _). Qed.

Lemma register_running t f i : t_running (ws_register_fd t f i) = t_running t.
Proof. unfold ws_register_fd. by repeat destruct (_ <? _). Qed.

Lemma close_running t f : t_running (close_connection on_disconnect t f) = t_running t.
Proof.
  unfold close_connection. destruct (f <? 0); [done |].
  destruct (ws_find_connection_by_fd t f) as [j | ]; [ | apply unregister_running]. cbn [t_slots os_close set_epoll_set].
  destruct (_ !! j) as [w | ]; [ | apply unregister_running]. destruct (ws_connection_hash_remove _ f) as [rc h].
  rewrite release_running. destruct on_disconnect; apply unregister_running.
Qed.

Lemma data_send_running t f op d rc t' : ws_buffered_data_send t f op d = (rc, t') → t_running t' = t_running t.
Proof. unfold ws_buffered_data_send. intros H. by repeat case_match; simplify_eq. Qed.

Lemma new_running t s now tid f addr tls hok eok :
  t_running (process_new_connection t s now tid f addr tls hok eok).2 = t_running t.
Proof.
  unfold process_new_connection. destruct (f <? 0); [done |]. destruct (t_free t) as [ | j rest]; [done |]. cbn [t_slots set_free].
  destruct (t_slots t !! j) as [w0 | ]; [ | done].
  destruct tls as [[ | ] | ]; [ | done | ]; destruct (ws_connection_hash_insert _ _ _ _) as [r h]; destruct eok; cbn;
    apply (register_running (set_free t rest)).
Qed.

Lemma dispatch_running t m :
  t_running (dispatch_message on_close_cb t m).2 = t_running t && negb (is_shutdown (LMsg m)).
Proof.
  destruct m as [f addr a | f conn gen d | f conn gen d | f d | f d | f code reason | f v | ]; cbn [is_shutdown negb];
    rewrite ?andb_true_r; cbn [dispatch_message].
  - apply new_running.
  - destruct (same_connection t conn gen); [ | done]. unfold process_text_message. destruct (f <? 0); [done |].
    destruct (ws_buffered_data_send _ _ _ _) eqn:EB. by eapply data_send_running.
  - destruct (same_connection t conn gen); [ | done]. unfold process_binary_message. destruct (f <? 0); [done |].
    destruct (ws_buffered_data_send _ _ _ _) eqn:EB. by eapply data_send_running.
  - unfold process_ping_message. destruct (f <? 0); [done |]. destruct (on_slot _ _ _) eqn:EO. by eapply on_slot_running.
  - unfold process_pong_message. destruct (f <? 0); [done |]. destruct (on_slot _ _ _) eqn:EO. by eapply on_slot_running.
  - unfold process_close_message. destruct (f <? 0); [done |]. destruct (ws_find_connection_by_fd t f) as [j | ]; [ | done].
    destruct (t_slots t !! j) as [w | ]; [ | done]. destruct (ws_send_close_frame _ _ _) as [r v].
    destruct (ws_connection_hash_remove _ f) as [r2 h]. cbn [snd t_running set_active]. rewrite release_running. cbn.
    rewrite unregister_running. by destruct on_close_cb.
  - unfold process_user_data_update. destruct (f <? 0); [done |]. destruct (on_slot _ _ _) eqn:EO. by eapply on_slot_running.
  - by rewrite andb_false_r.
Qed.

Lemma event_running st1 st2 t f a b c : t_running (connection_event E cpu0 on_disconnect st1 st2 t f a b c) = t_running t.
Proof.
  unfold connection_event.
  destruct (if a then _ else _) as [closed1 t1] eqn:E1. assert (H1 : t_running t1 = t_running t).
  { destruct a; [ | by simplify_eq]. unfold handle_connection_read in E1. destruct (f <? 0); [cbn in E1; simplify_eq; apply close_running |].
    destruct (on_slot _ _ _) as [rc t0] eqn:EO. apply on_slot_running in EO.
    destruct (rc <? 0); simplify_eq; [by rewrite close_running | done]. }
  destruct (if negb closed1 && b then _ else _) as [closed2 t2] eqn:E2. assert (H2 : t_running t2 = t_running t).
  { destruct (negb closed1 && b); [ | by simplify_eq]. unfold handle_connection_write in E2. destruct (f <? 0); [by simplify_eq |].
    destruct (ws_find_connection_by_fd t1 f); [ | by simplify_eq]. destruct (on_slot _ _ _) as [rc t0] eqn:EO. apply on_slot_running in EO.
    destruct (rc <? 0); simplify_eq; [rewrite close_running |]; congruence. }
  destruct (negb closed2 && c); [by rewrite close_running | done].
Qed.

Lemma reap_running c now t : t_running (reap_stale_connections on_disconnect c now t) = t_running t.
Proof.
  unfold reap_stale_connections. generalize (seq 0 (max_connections t)) as l. intros l. revert t.
  induction l as [ | i l IH]; intros t; [done |]. cbn [fold_left]. rewrite IH. unfold reap_slot.
  destruct (t_slots t !! i) as [w | ]; [ | done]. destruct (reap_verdict _ _ _); [done | apply close_running |].
  destruct (lift_cw _ w) as [rc w1]. destruct (rc =? 0); [done | apply (close_running (put_slot t i w1))].
Qed.

(** Only a shutdown message stops a thread from inside. *)
Lemma tdo_running t l : t_running (tdo t l) = t_running t && negb (is_shutdown l).
Proof.
  destruct l as [m | f a b c st1 st2 | i k | c now | i | i | i rx' txs' ctl' mem' sub']; cbn [ThreadSpec.tdo];
    [apply dispatch_running | rewrite andb_true_r..].
  - apply event_running.
  - unfold slot_completion. destruct (t_slots t !! i) as [w | ]; [ | done]. destruct (aio_complete _ _ _) as [b w'].
    destruct b; [apply (close_running (put_slot t i w')) | done].
  - apply reap_running.
  - unfold upd_slot. by destruct (t_slots t !! i).
  - unfold upd_slot. by destruct (t_slots t !! i).
  - unfold upd_slot. by destruct (t_slots t !! i).
Qed.

Lemma history_running ls : ∀ t, t_running (thistory t ls) = t_running t && forallb (λ l, negb (is_shutdown l)) ls.
Proof.
  induction ls as [ | l r IH]; intros t; cbn [ThreadSpec.thistory fold_left forallb]; [by rewrite andb_true_r |].
  change (fold_left tdo r (tdo t l)) with (thistory (tdo t l) r). by rewrite IH, tdo_running, andb_assoc.
Qed.

(** Told to stop: past the start, and not running. *)
Definition told (k : worker) : Prop := k_pc k ≠ PStart ∧ running k = false.

Lemma told_do k l : told k → told (worker_do k l).
Proof.
  intros [Hpc Hr]. unfold told, running. rewrite worker_do_history, history_running. unfold running in Hr.
  assert (H : k_pc (worker_do k l) ≠ PStart ∧ (k_run k = false → k_run (worker_do k l) = false)).
  { destruct l as [now r | | m | i | i | i a b c d e]; try done. cbn [worker_do]. unfold worker_step.
    destruct (k_pc k) eqn:EP; try done; [by destruct (running k && negb (k_paused k)) | by destruct r | by rewrite EP]. }
  destruct H as [H1 H2]. split; [done |]. destruct (k_run k) eqn:EK; [ | by rewrite H2].
  cbn in Hr. rewrite Hr. by rewrite andb_false_r.
Qed.

(** The worker's own steps left. *)
Definition steps_left (p : wpc) : nat := match p with PDone => 0 | PTest => 1 | _ => 2 end.
Definition own_step (l : wlabel) : bool := match l with WRun _ _ => true | _ => false end.

Lemma told_progress k l :
  told k → (steps_left (k_pc (worker_do k l)) <= steps_left (k_pc k) - (if own_step l then 1 else 0))%nat.
Proof.
  intros [Hpc Hr]. destruct l as [now r | | m | i | i | i a b c d e]; cbn [own_step]; try (cbn; lia).
  cbn [worker_do]. unfold worker_step. destruct (k_pc k) eqn:EP; try done.
  - by rewrite Hr.
  - destruct r; cbn; lia.
  - rewrite EP. cbn. lia.
Qed.

Lemma told_ends ls : ∀ k, told k → (2 <= length (filter own_step ls))%nat → k_pc (worker_run k ls) = PDone.
Proof.
  cut (∀ ls k, told k → (steps_left (k_pc k) <= length (filter own_step ls))%nat → k_pc (worker_run k ls) = PDone).
  { intros H k Hk Hl. apply H; [done |]. etransitivity; [ | exact Hl]. by destruct (k_pc k); cbn; lia. }
  clear. induction ls as [ | l r IH]; intros k Hk Hl; cbn [worker_run fold_left].
  - cbn in Hl. by destruct (k_pc k); cbn in Hl; lia || done.
  - apply IH; [by apply told_do |]. pose proof (told_progress k l Hk) as Hp. rewrite filter_cons in Hl.
    destruct (own_step l) eqn:EO.
    + rewrite decide_True in Hl by done. cbn in Hl. lia.
    + rewrite decide_False in Hl by (by intros []). lia.
Qed.

(** Nothing tells it to stop: no request, no shutdown message, no failed wait. *)
Definition calm (l : wlabel) : Prop :=
  match l with WStop => False | WPost m => m ≠ MShutdown | WRun _ r => r ≠ WaitFail | _ => True end.

(** Running, or about to; no shutdown message is queued. *)
Definition going (k : worker) : Prop :=
  k_paused k = false ∧ t_running (l_thread (k_loop k)) = true ∧ Forall (λ m, m ≠ MShutdown) (l_queue (k_loop k)) ∧
  (k_pc k = PStart ∨ (k_pc k = PTest ∨ k_pc k = PWait) ∧ k_run k = true).

Lemma queue_shrinks k now r :
  Forall (λ m, m ≠ MShutdown) (l_queue (k_loop k)) →
  Forall (λ m, m ≠ MShutdown) (l_queue (k_loop (worker_step now r k))) ∧
  forallb (λ l, negb (is_shutdown l)) (wlabel_labels k (WRun now r)) = true.
Proof.
  intros HQ. unfold worker_step, wlabel_labels.
  destruct (k_pc k) eqn:EP; destruct r as [ | | evs]; rewrite ?decide_False by done; try done;
    try (by destruct (running k && negb (k_paused k))).
  rewrite decide_True by done. cbn [k_loop]. unfold worker_turn, turn_labels. rewrite forallb_app.
  assert (Hmsgs : ∀ q, Forall (λ m, m ≠ MShutdown) q → forallb (λ l, negb (is_shutdown l)) (LMsg <$> q) = true).
  { induction q as [ | m q IH]; intros H; [done |]. apply Forall_cons in H as [Hm H]. cbn. rewrite IH by done. by destruct m. }
  set (s1 := match evs with [] => _ | _ => _ end).
  cut (Forall (λ m, m ≠ MShutdown) (l_queue s1) ∧ forallb (λ l, negb (is_shutdown l)) (match evs with
      | [] => LMsg <$> take (ws_mpsc_process_messages on_close_cb 10 (l_thread (k_loop k)) (l_queue (k_loop k))).1.1 (l_queue (k_loop k))
      | _ => batch_labels (k_loop k) evs end) = true).
  { intros [H1 ->]. split; [by destruct (now =? l_last_reap s1) |]. by destruct (now =? l_last_reap (k_loop k)). }
  unfold s1. clear s1. destruct evs as [ | ev evs].
  - destruct (ws_mpsc_process_messages on_close_cb 10 _ _) as [[n q] t] eqn:EB.
    apply batch_fold in EB as (q1 & Hq & <- & _). rewrite Hq in HQ |- *. cbn [l_queue fst]. apply Forall_app in HQ as [HQ1 HQ2].
    rewrite take_app_length. split; [done | by apply Hmsgs].
  - generalize (ev :: evs) as l. clear ev evs. intros l. generalize dependent (k_loop k). clear EP.
    induction l as [ | ev l IH]; intros s HQ; [done |]. cbn [fold_left batch_labels]. rewrite forallb_app.
    assert (Hs : Forall (λ m, m ≠ MShutdown) (l_queue (ep_step E cpu0 on_disconnect on_close_cb s ev))).
    { destruct ev; cbn [ep_step]; [ | done | done]. rewrite wakeup_drains_queue. constructor. }
    destruct (IH _ Hs) as [H1 H2]. split; [done |]. rewrite H2, andb_true_r.
    destruct ev as [ | done_ | f a b c st1 st2]; cbn [event_labels]; [by apply Hmsgs | | done].
    clear. induction done_ as [ | x d IHd]; [done | exact IHd].
Qed.

Lemma going_do k l : going k → calm l → going (worker_do k l).
Proof.
  intros (Hp & Hr & HQ & Hpc) Hl.
  assert (Hf : ∀ tl, foreign l = Some tl → forallb (λ l, negb (is_shutdown l)) (wlabel_labels k l) = true).
  { intros tl. by destruct l; cbn; intros [= <-]. }
  assert (Hrun : forallb (λ l, negb (is_shutdown l)) (wlabel_labels k l) = true →
    t_running (l_thread (k_loop (worker_do k l))) = true).
  { intros H. by rewrite worker_do_history, history_running, Hr, H. }
  destruct l as [now r | | m | i | i | i a b c d e]; cbn [calm] in Hl; try done.
  - destruct (queue_shrinks k now r HQ) as [HQ' HL]. cbn [worker_do] in *. unfold going.
    assert (H : k_paused (worker_step now r k) = false ∧
      (k_pc (worker_step now r k) = PTest ∨ k_pc (worker_step now r k) = PWait) ∧ k_run (worker_step now r k) = true).
    { unfold worker_step. destruct Hpc as [-> | [[HP | HP] HK]]; [by auto | |]; rewrite HP.
      - unfold running. rewrite HK, Hr, Hp. by auto.
      - destruct r; [by auto | done | by auto]. }
    destruct H as (H1 & H2 & H3). split; [done |]. split; [by apply Hrun |]. split; [done |]. by right.
  - split; [done |]. split; [exact Hr |]. split; [ | exact Hpc]. cbn. apply Forall_app. split; [done |].
    by apply Forall_cons.
  - split; [done |]. split; [by apply Hrun, (Hf (LRef i)) |]. split; [exact HQ | exact Hpc].
  - split; [done |]. split; [by apply Hrun, (Hf (LUnref i)) |]. split; [exact HQ | exact Hpc].
  - split; [done |]. split; [by apply Hrun, (Hf (LEnv i a b c d e)) |]. split; [exact HQ | exact Hpc].
Qed.

Lemma going_run ls : ∀ k, going k → Forall calm ls → k_pc (worker_run k ls) ≠ PDone.
Proof.
  induction ls as [ | l r IH]; intros k Hk Hl; cbn [worker_run fold_left].
  { by destruct Hk as (_ & _ & _ & [-> | [[-> | ->] _]]). }
  apply Forall_cons in Hl as [Hl Hr]. apply IH; [by apply going_do | done].
Qed.

End Worker.

(** The start of a thread with nothing queued, and the request lost. *)
Example stop_lost_at_start :
  let k0 := worker_init demo_thread [] in
  let tick := WRun 100 (WaitEvents []) in
  k_pc (worker_run demo_env demo_cpu true true (mk_timeouts 10 30 10) (-1) true k0
          [WStop; tick; tick; tick; tick; tick; tick; tick]) ≠ PDone ∧
  k_pc (worker_run demo_env demo_cpu true true (mk_timeouts 10 30 10) (-1) true k0 [tick; WStop; tick]) = PDone.
Proof. vm_compute. done. Qed.

