(* ===== verification/Mpsc.v ===== *)
(** * The message queue between threads (src/src/ws/ws_mpsc.c)

    The multi-producer single-consumer queue and its pool of nodes, at the granularity of
    its atomic operations: every load, store, exchange and compare-and-swap on shared
    memory is one step, and the critical sections of the free list, which a mutex
    protects, are one step each.  Any number of producers and the consumer interleave
    freely.

    Memory is sequentially consistent.  A node is named by its index in [node_pool].  The
    stores a producer makes to a node it alone holds are part of the step that takes the
    node.  The statistics counters and the failures of creation are left out. *)
From Stdlib Require Import ZArith Lia.
From stdpp Require Import base numbers list gmap.
From S2P Require Import Prelude.

Section Queue.
Context {M : Type}.

(** Where a producer is: outside, holding a node it has filled
    ([ws_mpsc_queue_get_node] up to the exchange), or between the exchange of [tail] and
    the link of its node behind [prev_tail]. *)
Inductive producer :=
| POut
| PFilled (node : nat)
| PLinking (node : nat) (prev_tail : option nat).

(** Where the consumer is in [ws_mpsc_queue_dequeue]: the states are the points between
    its atomic operations. [CHas h]: [h] is returned and being processed. *)
Inductive consumer :=
| COut
| CHead (head : nat)              (* head loaded, head->next not yet *)
| CNoNext (head : nat)            (* head->next was NULL *)
| CSpin (head : nat)              (* a producer is mid-enqueue *)
| CAdvance (head next : nat)      (* there is a successor *)
| CLast (head : nat)              (* head == tail was seen *)
| CCas (head : nat)               (* queue->head stored NULL *)
| CSpinLast (head : nat)          (* the swap of tail failed *)
| CRepublish (head next : nat)
| CHas (head : nat).

(** [ws_mpsc_queue_t] with the [next] and [data] fields of the nodes (absent is NULL),
    and where the threads are.  [q_sent] and [q_recv] record the messages in the order of
    the exchanges of [tail] and of the returns of the consumer. *)
Record queue := mk_queue {
  q_head : option nat;
  q_tail : option nat;
  q_free : option nat;
  q_next : gmap nat nat;
  q_data : gmap nat M;
  q_prod : gmap nat producer;
  q_cons : consumer;
  q_sent : list M;
  q_recv : list M
}.

Definition prod_of (s : queue) (p : nat) : producer := default POut (q_prod s !! p).

Definition set_next (nx : gmap nat nat) (n : nat) (v : option nat) : gmap nat nat :=
  match v with Some x => <[n := x]> nx | None => delete n nx end.

(** [ws_mpsc_queue_create]: node [i] is linked to node [i + 1]. *)
Definition ws_mpsc_queue_create (node_pool_size : nat) : queue :=
  let size := match node_pool_size with O => 1024%nat | S _ => node_pool_size end in
  mk_queue None None (Some 0%nat) (list_to_map ((λ i, (i, S i)) <$> seq 0 (pred size))) ∅ ∅ COut [] [].

(** ** Producers *)

(** [ws_mpsc_queue_get_node], and the message written into the node, which nobody else
    can see yet.  [None]: the pool is exhausted, or the caller is busy. *)
Definition ws_mpsc_queue_get_node (s : queue) (p : nat) (m : M) : option queue :=
  match prod_of s p, q_free s with
  | POut, Some n =>
      Some (mk_queue (q_head s) (q_tail s) (q_next s !! n) (delete n (q_next s)) (<[n := m]> (q_data s))
              (<[p := PFilled n]> (q_prod s)) (q_cons s) (q_sent s) (q_recv s))
  | _, _ => None
  end.

(** The message could not be allocated: the node goes back. *)
Definition give_back (s : queue) (p : nat) : option queue :=
  match prod_of s p with
  | PFilled n =>
      Some (mk_queue (q_head s) (q_tail s) (Some n) (set_next (q_next s) n (q_free s)) (delete n (q_data s))
              (<[p := POut]> (q_prod s)) (q_cons s) (q_sent s) (q_recv s))
  | _ => None
  end.

(** The two steps of [ws_mpsc_queue_enqueue]. *)
Definition enqueue_exchange (s : queue) (p : nat) : option queue :=
  match prod_of s p with
  | PFilled n =>
      Some (mk_queue (q_head s) (Some n) (q_free s) (delete n (q_next s)) (q_data s)
              (<[p := PLinking n (q_tail s)]> (q_prod s)) (q_cons s)
              (q_sent s ++ match q_data s !! n with Some m => [m] | None => [] end) (q_recv s))
  | _ => None
  end.

Definition enqueue_link (s : queue) (p : nat) : option queue :=
  match prod_of s p with
  | PLinking n (Some prev) =>
      Some (mk_queue (q_head s) (q_tail s) (q_free s) (<[prev := n]> (q_next s)) (q_data s)
              (<[p := POut]> (q_prod s)) (q_cons s) (q_sent s) (q_recv s))
  | PLinking n None =>
      Some (mk_queue (Some n) (q_tail s) (q_free s) (q_next s) (q_data s)
              (<[p := POut]> (q_prod s)) (q_cons s) (q_sent s) (q_recv s))
  | _ => None
  end.

(** ** The consumer *)

Definition at_ (s : queue) (c : consumer) : queue :=
  mk_queue (q_head s) (q_tail s) (q_free s) (q_next s) (q_data s) (q_prod s) c (q_sent s) (q_recv s).
Definition with_head (s : queue) (h : option nat) : queue :=
  mk_queue h (q_tail s) (q_free s) (q_next s) (q_data s) (q_prod s) (q_cons s) (q_sent s) (q_recv s).
Definition with_tail (s : queue) (t : option nat) : queue :=
  mk_queue (q_head s) t (q_free s) (q_next s) (q_data s) (q_prod s) (q_cons s) (q_sent s) (q_recv s).

(** The return of [head]: its message is received. *)
Definition return_head (s : queue) (h : nat) : queue :=
  mk_queue (q_head s) (q_tail s) (q_free s) (q_next s) (q_data s) (q_prod s) (CHas h) (q_sent s)
    (q_recv s ++ match q_data s !! h with Some m => [m] | None => [] end).

(** [ws_mpsc_queue_return_node]. *)
Definition ws_mpsc_queue_return_node (s : queue) (h : nat) : queue :=
  mk_queue (q_head s) (q_tail s) (Some h) (set_next (q_next s) h (q_free s)) (delete h (q_data s))
    (q_prod s) COut (q_sent s) (q_recv s).

(** The next atomic operation of the consumer. *)
Definition consumer_step (s : queue) : queue :=
  match q_cons s with
  | COut => match q_head s with None => s | Some h => at_ s (CHead h) end
  | CHead h => match q_next s !! h with Some x => at_ s (CAdvance h x) | None => at_ s (CNoNext h) end
  | CNoNext h => if decide (q_tail s = Some h) then at_ s (CLast h) else at_ s (CSpin h)
  | CSpin h => match q_next s !! h with Some x => at_ s (CAdvance h x) | None => s end
  | CAdvance h x => return_head (with_head s (Some x)) h
  | CLast h => at_ (with_head s None) (CCas h)
  | CCas h => if decide (q_tail s = Some h) then return_head (with_tail s None) h else at_ s (CSpinLast h)
  | CSpinLast h => match q_next s !! h with Some x => at_ s (CRepublish h x) | None => s end
  | CRepublish h x => return_head (with_head s (Some x)) h
  | CHas h => ws_mpsc_queue_return_node s h
  end.

(** One step of the system. *)
Inductive qstep (s : queue) : queue → Prop :=
| st_get p m s' : ws_mpsc_queue_get_node s p m = Some s' → qstep s s'
| st_give_back p s' : give_back s p = Some s' → qstep s s'
| st_exchange p s' : enqueue_exchange s p = Some s' → qstep s s'
| st_link p s' : enqueue_link s p = Some s' → qstep s s'
| st_consumer : qstep s (consumer_step s).

(** ** Invariant *)

(** [a] is waiting for [b] to be linked behind it. *)
Definition pending (s : queue) (a b : nat) : Prop := ∃ p, prod_of s p = PLinking b (Some a).

(** The nodes of the queue, oldest first: each is linked to the next one, or its producer
    is about to link it; the last one is linked to nothing. *)
Fixpoint linked (nx : gmap nat nat) (pend : nat → nat → Prop) (Q : list nat) : Prop :=
  match Q with
  | [] => True
  | a :: r => match r with
              | [] => nx !! a = None
              | b :: _ => (nx !! a = Some b ∨ nx !! a = None ∧ pend a b) ∧ linked nx pend r
              end
  end.

(** The free list. *)
Fixpoint free_chain (nx : gmap nat nat) (fh : option nat) (F : list nat) : Prop :=
  match F with [] => fh = None | a :: r => fh = Some a ∧ free_chain nx (nx !! a) r end.

(** What the consumer's position says about the queue [Q]. *)
Definition consumer_ok (s : queue) (Q : list nat) : Prop :=
  match q_cons s with
  | COut | CHas _ =>
      match Q with
      | [] => q_head s = None
      | q :: _ => q_head s = Some q ∨ q_head s = None ∧ ∃ p, prod_of s p = PLinking q None
      end
  | CHead h | CNoNext h | CLast h => q_head s = Some h ∧ ∃ r, Q = h :: r
  | CSpin h => q_head s = Some h ∧ ∃ x r, Q = h :: x :: r
  | CAdvance h x => q_head s = Some h ∧ q_next s !! h = Some x ∧ ∃ r, Q = h :: x :: r
  | CCas h => q_head s = None ∧ ∃ r, Q = h :: r
  | CSpinLast h => q_head s = None ∧ ∃ x r, Q = h :: x :: r
  | CRepublish h x => q_head s = None ∧ q_next s !! h = Some x ∧ ∃ r, Q = h :: x :: r
  end.

(** The nodes nobody but one thread knows. *)
Definition held (s : queue) (n : nat) : Prop :=
  (∃ p, prod_of s p = PFilled n) ∨ q_cons s = CHas n.

(** Ownership: a node is in the free list [F], in the queue [Q], or held by one thread. *)
Record qown (s : queue) (Q F : list nat) : Prop := mk_qown {
  qo_nodup : NoDup (F ++ Q);
  qo_held : ∀ n, held s n → n ∉ F ++ Q;
  qo_cons : ∀ n p, q_cons s = CHas n → prod_of s p ≠ PFilled n;
  qo_excl : ∀ p1 p2 n, prod_of s p1 = PFilled n → prod_of s p2 = PFilled n → p1 = p2;
  qo_filled : ∀ p n, prod_of s p = PFilled n → is_Some (q_data s !! n);
  qo_free : free_chain (q_next s) (q_free s) F
}.

(** Structure: the queue holds the messages [ms], sent and not yet received. *)
Record qstr (s : queue) (Q : list nat) (ms : list M) : Prop := mk_qstr {
  qs_linked : linked (q_next s) (pending s) Q;
  qs_tail : q_tail s = last Q;
  qs_data : Forall2 (λ n m, q_data s !! n = Some m) Q ms;
  qs_msgs : q_sent s = q_recv s ++ ms;
  qs_link : ∀ p b a, prod_of s p = PLinking b (Some a) →
    q_next s !! a = None ∧ ∃ Q1 Q2, Q = Q1 ++ a :: b :: Q2;
  qs_first : ∀ p b, prod_of s p = PLinking b None →
    q_head s = None ∧ (∃ r, Q = b :: r) ∧ (q_cons s = COut ∨ ∃ h, q_cons s = CHas h);
  qs_excl : ∀ p1 p2 b v1 v2, prod_of s p1 = PLinking b v1 → prod_of s p2 = PLinking b v2 → p1 = p2;
  qs_consumer : consumer_ok s Q
}.

Definition qinv (s : queue) : Prop := ∃ Q F ms, qown s Q F ∧ qstr s Q ms.

(** ** Lemmas on chains *)

Lemma linked_ext nx nx' (pend pend' : nat → nat → Prop) Q :
  (∀ a, a ∈ Q → nx' !! a = nx !! a) → (∀ a b, a ∈ Q → pend a b → pend' a b) →
  linked nx pend Q → linked nx' pend' Q.
Proof.
  induction Q as [ | a r IH]; [done |]. intros Hn Hp. destruct r as [ | b r]; cbn.
  - by rewrite Hn by (apply elem_of_cons; by left).
  - intros [H1 H2]. split.
    + rewrite Hn by (apply elem_of_cons; by left). destruct H1 as [? | [? ?]]; [by left | right].
      split; [done | apply Hp; [apply elem_of_cons; by left | done]].
    + apply IH; [ | | exact H2].
      * intros c Hc. apply Hn, elem_of_cons. by right.
      * intros c d Hc. apply Hp, elem_of_cons. by right.
Qed.

Lemma linked_snoc nx (pend : nat → nat → Prop) Q n :
  linked nx pend Q → nx !! n = None → (∀ a, last Q = Some a → pend a n) → linked nx pend (Q ++ [n]).
Proof.
  intros HL Hn Hp. induction Q as [ | a r IH]; [done |]. destruct r as [ | b r]; cbn in *.
  - split; [right; split; [done | by apply Hp] | done].
  - destruct HL as [H1 H2]. split; [done |]. by apply IH.
Qed.

Lemma linked_app nx (pend : nat → nat → Prop) Q1 Q2 : linked nx pend (Q1 ++ Q2) → linked nx pend Q2.
Proof.
  induction Q1 as [ | a r IH]; [done |]. cbn. destruct (r ++ Q2) as [ | b l] eqn:ER.
  - apply app_eq_nil in ER as [-> ->]. done.
  - intros [_ H]. by apply IH.
Qed.

Lemma linked_last nx (pend : nat → nat → Prop) Q q : linked nx pend Q → last Q = Some q → nx !! q = None.
Proof. intros HL [l ->]%last_Some. by apply linked_app in HL. Qed.

(** The link [a -> b] is stored. *)
Lemma linked_set nx (pend pend' : nat → nat → Prop) Q Q1 Q2 a b :
  NoDup Q → Q = Q1 ++ a :: b :: Q2 → linked nx pend Q →
  (∀ c d, c ≠ a → pend c d → pend' c d) → linked (<[a := b]> nx) pend' Q.
Proof.
  intros HN -> HL Hp. apply NoDup_app in HN as (HN1 & HD & HN2).
  assert (Ha : a ∉ Q1). { intros Hin. apply (HD a Hin), elem_of_cons. by left. }
  apply NoDup_cons in HN2 as [HN2 _]. clear HD HN1.
  assert (Htail : linked (<[a := b]> nx) pend' (b :: Q2)).
  { apply linked_app in HL. destruct HL as [_ HL]. apply (linked_ext nx _ pend); [ | | exact HL].
    - intros c Hc. rewrite lookup_insert_ne; [done |]. by intros ->.
    - intros c d Hc. apply Hp. by intros ->. }
  induction Q1 as [ | c r IH]; [by split; [left; rewrite lookup_insert_eq |] |].
  apply not_elem_of_cons in Ha as [Hc Ha]. destruct r as [ | d r]; cbn in HL |- *; destruct HL as [H1 H2].
  - split; [ | by apply IH]. rewrite lookup_insert_ne by done.
    destruct H1 as [? | [? ?]]; [by left | right; split; [done | by apply Hp]].
  - split; [ | by apply IH]. rewrite lookup_insert_ne by done.
    destruct H1 as [? | [? ?]]; [by left | right; split; [done | by apply Hp]].
Qed.

Lemma chain_ext nx nx' fh F : (∀ a, a ∈ F → nx' !! a = nx !! a) → free_chain nx fh F → free_chain nx' fh F.
Proof.
  revert fh. induction F as [ | a r IH]; intros fh Hn; [done |]. intros [H1 H2]. split; [done |].
  rewrite Hn by (apply elem_of_cons; by left). apply IH; [ | done]. intros c Hc. apply Hn, elem_of_cons. by right.
Qed.

Lemma prod_upd (pr : gmap nat producer) p v p' :
  default POut (<[p := v]> pr !! p') = if decide (p = p') then v else default POut (pr !! p').
Proof. destruct (decide (p = p')) as [<- | Hne]; [by rewrite lookup_insert_eq | by rewrite lookup_insert_ne]. Qed.

(** ** Ownership *)

(** A thread takes the first free node. *)
Lemma own_pop s s' Q F n p :
  qown s Q (n :: F) → prod_of s p = POut → q_cons s' = q_cons s →
  (∀ p', prod_of s' p' = if decide (p = p') then PFilled n else prod_of s p') →
  q_free s' = q_next s !! n → (∀ a, a ≠ n → q_next s' !! a = q_next s !! a) →
  is_Some (q_data s' !! n) → (∀ a, a ≠ n → q_data s' !! a = q_data s !! a) → qown s' Q F.
Proof.
  intros Ho EP EC HP HF Hnx Hdn Hd. pose proof (qo_nodup _ _ _ Ho) as HN. cbn in HN. apply NoDup_cons in HN as [Hn HN].
  assert (Hfree : ∀ x, held s x → x ≠ n ∧ (x ∉ F ++ Q)).
  { intros x Hx%(qo_held _ _ _ Ho). by apply not_elem_of_cons in Hx. }
  constructor.
  - done.
  - intros x [[p' Hx] | Hx].
    + rewrite HP in Hx. case_decide; [by injection Hx as <- |]. apply Hfree. left. by exists p'.
    + rewrite EC in Hx. apply Hfree. by right.
  - intros x p' Hx. rewrite EC in Hx. rewrite HP. case_decide; [ | by apply (qo_cons _ _ _ Ho)].
    intros [= <-]. by destruct (Hfree n (or_intror Hx)).
  - intros p1 p2 x. rewrite !HP. repeat case_decide; [congruence | | | by apply (qo_excl _ _ _ Ho)].
    + intros [= <-] Hx. destruct (Hfree n) as [? _]; [left; by exists p2 | done].
    + intros Hx [= <-]. destruct (Hfree n) as [? _]; [left; by exists p1 | done].
  - intros p' x. rewrite HP. case_decide; [by intros [= <-] |].
    intros Hx. destruct (decide (x = n)) as [-> | Hne]; [done |]. rewrite Hd by done. by apply (qo_filled _ _ _ Ho p').
  - rewrite HF. apply (chain_ext (q_next s)); [ | apply (qo_free _ _ _ Ho)].
    intros x Hx. apply Hnx. intros ->. by apply Hn, elem_of_app; left.
Qed.

(** A thread gives the node it held back to the free list. *)
Lemma own_push s s' Q F n :
  qown s Q F → held s n →
  (∀ x, held s' x → held s x ∧ x ≠ n) → (∀ p x, prod_of s' p = PFilled x → prod_of s p = PFilled x) →
  (∀ x, q_cons s' = CHas x → q_cons s = CHas x) →
  q_free s' = Some n → q_next s' !! n = q_free s → (∀ a, a ≠ n → q_next s' !! a = q_next s !! a) →
  (∀ a, a ≠ n → q_data s' !! a = q_data s !! a) → qown s' Q (n :: F).
Proof.
  intros Ho Hn Hh Hp Hc HF Hnn Hnx Hd. pose proof (qo_held _ _ _ Ho n Hn) as HnF.
  constructor.
  - cbn. constructor; [done | apply Ho].
  - intros x Hx. destruct (Hh x Hx) as [Hx1 Hx2]. cbn. apply not_elem_of_cons. split; [done | by apply Ho].
  - intros x p Hx Hp'. apply Hc in Hx. apply Hp in Hp'. by apply (qo_cons _ _ _ Ho x p).
  - intros p1 p2 x H1%Hp H2%Hp. by apply (qo_excl _ _ _ Ho p1 p2 x).
  - intros p x Hx. rewrite Hd; [apply Hp in Hx; by apply (qo_filled _ _ _ Ho p) |].
    apply Hh. left. by exists p.
  - split; [done |]. rewrite Hnn. apply (chain_ext (q_next s)); [ | apply Ho].
    intros x Hx. apply Hnx. intros ->. by apply HnF, elem_of_app; left.
Qed.

(** Nodes move between the queue and the threads. *)
Lemma own_move s s' Q Q' F :
  qown s Q F → NoDup (F ++ Q') → (∀ n, held s' n → n ∉ F ++ Q') →
  (∀ n p, q_cons s' = CHas n → prod_of s' p ≠ PFilled n) →
  (∀ p n, prod_of s' p = PFilled n → prod_of s p = PFilled n) →
  q_free s' = q_free s → (∀ a, a ∈ F → q_next s' !! a = q_next s !! a) → q_data s' = q_data s → qown s' Q' F.
Proof.
  intros Ho HN Hh Hc Hp HF Hnx Hd. constructor; [done | done | done | | | ].
  - intros p1 p2 n H1%Hp H2%Hp. by apply (qo_excl _ _ _ Ho p1 p2 n).
  - intros p n Hn%Hp. rewrite Hd. by apply (qo_filled _ _ _ Ho p).
  - rewrite HF. by apply (chain_ext (q_next s)); [ | apply Ho].
Qed.

(** ** Structure *)

Lemma data_ext (d d' : gmap nat M) Q ms :
  (∀ a, a ∈ Q → d' !! a = d !! a) → Forall2 (λ n m, d !! n = Some m) Q ms → Forall2 (λ n m, d' !! n = Some m) Q ms.
Proof.
  intros He HF. induction HF as [ | n m Q ms Hn HF IH]; constructor.
  - by rewrite He by (apply elem_of_cons; by left).
  - apply IH. intros a Ha. apply He, elem_of_cons. by right.
Qed.

(** What the consumer knows survives steps that keep the links and the first producer. *)
Lemma consumer_mono s s' Q :
  consumer_ok s Q → q_head s' = q_head s → q_cons s' = q_cons s →
  (∀ h x, h ∈ Q → q_next s !! h = Some x → q_next s' !! h = Some x) →
  (∀ q, (∃ p, prod_of s p = PLinking q None) → ∃ p, prod_of s' p = PLinking q None) → consumer_ok s' Q.
Proof.
  unfold consumer_ok. intros HC -> -> Hn Hp.
  destruct (q_cons s); try done.
  - destruct Q as [ | q Q]; [done |]. destruct HC as [HC | [HC Hq]]; [by left | right; auto].
  - destruct HC as (H1 & H2 & r & ->). split_and!; [done | apply Hn; [apply elem_of_cons; by left | done] | by exists r].
  - destruct HC as (H1 & H2 & r & ->). split_and!; [done | apply Hn; [apply elem_of_cons; by left | done] | by exists r].
  - destruct Q as [ | q Q]; [done |]. destruct HC as [HC | [HC Hq]]; [by left | right; auto].
Qed.

(** Steps that leave the queue, the messages and the linking producers alone. *)
Lemma str_frame s s' Q ms :
  qstr s Q ms → q_head s' = q_head s → q_tail s' = q_tail s → q_sent s' = q_sent s → q_recv s' = q_recv s →
  (∀ a, a ∈ Q → q_next s' !! a = q_next s !! a) → (∀ a, a ∈ Q → q_data s' !! a = q_data s !! a) →
  (∀ p b v, prod_of s' p = PLinking b v ↔ prod_of s p = PLinking b v) →
  (q_cons s' = q_cons s ∨ ∃ h, q_cons s = CHas h ∧ q_cons s' = COut) → qstr s' Q ms.
Proof.
  intros Hs Eh Et Es Er Hn Hd Hp Hc. constructor.
  - apply (linked_ext (q_next s) _ (pending s)); [done | | apply Hs]. intros a b _ [p Hb]. exists p. by apply Hp.
  - rewrite Et. apply Hs.
  - apply (data_ext (q_data s)); [done | apply Hs].
  - rewrite Es, Er. apply Hs.
  - intros p b a Hb%Hp. destruct (qs_link _ _ _ Hs p b a Hb) as (H1 & Q1 & Q2 & HQ). rewrite Hn; [eauto |].
    rewrite HQ. apply elem_of_app. right. apply elem_of_cons. by left.
  - intros p b Hb%Hp. destruct (qs_first _ _ _ Hs p b Hb) as (H1 & H2 & H3). rewrite Eh. split_and!; [done | done |].
    destruct Hc as [-> | (h & _ & ->)]; [done | by left].
  - intros p1 p2 b v1 v2 H1%Hp H2%Hp. by apply (qs_excl _ _ _ Hs p1 p2 b v1 v2).
  - assert (Hf : ∀ q, (∃ p, prod_of s p = PLinking q None) → ∃ p, prod_of s' p = PLinking q None).
    { intros q [p Hq]. exists p. by apply Hp. }
    pose proof (qs_consumer _ _ _ Hs) as HC. destruct Hc as [Hc | (h & HC1 & HC2)].
    + apply (consumer_mono s); [done | done | done | | done]. intros a x Ha Hx. by rewrite Hn.
    + unfold consumer_ok in *. rewrite HC1 in HC. rewrite HC2, Eh. destruct Q as [ | q Q]; [done |].
      destruct HC as [HC | [HC Hq]]; [by left | right; auto].
Qed.

(** ** Producer steps *)

Lemma set_next_eq (nx : gmap nat nat) n v : set_next nx n v !! n = v.
Proof. destruct v; cbn; [by rewrite lookup_insert_eq | by rewrite lookup_delete_eq]. Qed.
Lemma set_next_ne (nx : gmap nat nat) n v a : a ≠ n → set_next nx n v !! a = nx !! a.
Proof. intros Hne. destruct v; cbn; [by rewrite lookup_insert_ne | by rewrite lookup_delete_ne]. Qed.

Lemma get_inv s p m s' : qinv s → ws_mpsc_queue_get_node s p m = Some s' → qinv s'.
Proof.
  intros (Q & F & ms & Ho & Hs). unfold ws_mpsc_queue_get_node. destruct (prod_of s p) eqn:EP; [ | done..].
  destruct (q_free s) as [n | ] eqn:EF; [ | done]. intros [= <-].
  destruct F as [ | a F]; [by rewrite (qo_free _ _ _ Ho) in EF |].
  destruct (qo_free _ _ _ Ho) as [HF1 _]. rewrite EF in HF1. injection HF1 as <-.
  assert (HnQ : n ∉ Q).
  { pose proof (qo_nodup _ _ _ Ho) as HN. cbn in HN. apply NoDup_cons in HN as [HN _]. by apply not_elem_of_app in HN as [_ HN]. }
  exists Q, F, ms. split.
  - eapply own_pop; [exact Ho | exact EP | done | intros p'; apply prod_upd | done | | | ]; cbn.
    + intros a Ha. by rewrite lookup_delete_ne.
    + by rewrite lookup_insert_eq.
    + intros a Ha. by rewrite lookup_insert_ne.
  - eapply (str_frame s); try done; cbn.
    + intros a Ha. rewrite lookup_delete_ne; [done |]. by intros ->.
    + intros a Ha. rewrite lookup_insert_ne; [done |]. by intros ->.
    + intros p' b v. unfold prod_of at 1. cbn. rewrite prod_upd. case_decide; [subst; by rewrite EP | done].
    + by left.
Qed.

Lemma give_back_inv s p s' : qinv s → give_back s p = Some s' → qinv s'.
Proof.
  intros (Q & F & ms & Ho & Hs). unfold give_back. destruct (prod_of s p) as [ | n | ] eqn:EP; [done | | done].
  intros [= <-]. assert (Hn : held s n) by (left; by exists p).
  pose proof (qo_held _ _ _ Ho n Hn) as HnQ. apply not_elem_of_app in HnQ as [_ HnQ].
  exists Q, (n :: F), ms. split.
  - apply (own_push s _ Q F n Ho Hn); cbn.
    + intros x [[p' Hx] | Hx].
      * unfold prod_of in Hx. cbn in Hx. rewrite prod_upd in Hx. case_decide as Hpp; [done |].
        split; [left; by exists p' |]. intros ->. apply Hpp. by apply (qo_excl _ _ _ Ho p p' n).
      * split; [by right |]. intros ->. by apply (qo_cons _ _ _ Ho n p).
    + intros p' x Hx. unfold prod_of in Hx. cbn in Hx. rewrite prod_upd in Hx. by case_decide.
    + done.
    + done.
    + apply set_next_eq.
    + intros a. apply set_next_ne.
    + intros a Ha. by rewrite lookup_delete_ne.
  - eapply (str_frame s); try done; cbn.
    + intros a Ha. apply set_next_ne. by intros ->.
    + intros a Ha. rewrite lookup_delete_ne; [done |]. by intros ->.
    + intros p' b v. unfold prod_of at 1. cbn. rewrite prod_upd. case_decide; [subst; by rewrite EP | done].
    + by left.
Qed.

(** The consumer does not notice a node added at the end. *)
Lemma consumer_snoc s s' Q n p :
  consumer_ok s Q → q_head s' = q_head s → q_cons s' = q_cons s → (∀ a, a ∈ Q → q_next s' !! a = q_next s !! a) →
  (∀ p' b, prod_of s p' = PLinking b None → prod_of s' p' = PLinking b None) →
  (Q = [] → prod_of s' p = PLinking n None) → consumer_ok s' (Q ++ [n]).
Proof.
  unfold consumer_ok. intros HC -> -> Hn Hp H0.
  assert (Hidle : match Q with [] => q_head s = None
      | q :: _ => q_head s = Some q ∨ q_head s = None ∧ ∃ p, prod_of s p = PLinking q None end →
    match Q ++ [n] with [] => q_head s = None
      | q :: _ => q_head s = Some q ∨ q_head s = None ∧ ∃ p, prod_of s' p = PLinking q None end).
  { destruct Q as [ | q Q]; cbn; [intros H; right; split; [done |]; exists p; by apply H0 |].
    intros [H | [H [p' Hp']]]; [by left | right; split; [done |]]. exists p'. by apply Hp. }
  destruct (q_cons s); try (by apply Hidle).
  - destruct HC as (H1 & r & ->). by split; [ | exists (r ++ [n])].
  - destruct HC as (H1 & r & ->). by split; [ | exists (r ++ [n])].
  - destruct HC as (H1 & x & r & ->). by split; [ | exists x, (r ++ [n])].
  - destruct HC as (H1 & H2 & r & ->). rewrite Hn by (apply elem_of_cons; by left). by split; [ | split; [ | exists (r ++ [n])]].
  - destruct HC as (H1 & r & ->). by split; [ | exists (r ++ [n])].
  - destruct HC as (H1 & r & ->). by split; [ | exists (r ++ [n])].
  - destruct HC as (H1 & x & r & ->). by split; [ | exists x, (r ++ [n])].
  - destruct HC as (H1 & H2 & r & ->). rewrite Hn by (apply elem_of_cons; by left). by split; [ | split; [ | exists (r ++ [n])]].
Qed.

Lemma consumer_empty s : consumer_ok s [] → q_head s = None ∧ (q_cons s = COut ∨ ∃ h, q_cons s = CHas h).
Proof.
  unfold consumer_ok. destruct (q_cons s); try (intros H; by split; eauto); intros H; exfalso;
    repeat match goal with H : _ ∧ _ |- _ => destruct H | H : ∃ _, _ |- _ => destruct H end; done.
Qed.

(** The nodes a linking producer knows are in the queue. *)
Lemma linking_in s Q ms p b v :
  qstr s Q ms → prod_of s p = PLinking b v → b ∈ Q ∧ (∀ a, v = Some a → a ∈ Q).
Proof.
  intros Hs Hp. destruct v as [a | ].
  - destruct (qs_link _ _ _ Hs p b a Hp) as (_ & Q1 & Q2 & ->). split.
    + apply elem_of_app. right. apply elem_of_cons. right. apply elem_of_cons. by left.
    + intros ? [= <-]. apply elem_of_app. right. apply elem_of_cons. by left.
  - destruct (qs_first _ _ _ Hs p b Hp) as (_ & [r ->] & _). split; [apply elem_of_cons; by left | done].
Qed.

(** The exchange appends the node to the queue. *)
Lemma exchange_own s s' Q F p n :
  qown s Q F → prod_of s p = PFilled n → q_cons s' = q_cons s → q_free s' = q_free s → q_data s' = q_data s →
  (∀ p', prod_of s' p' = if decide (p = p') then PLinking n (q_tail s) else prod_of s p') →
  (∀ a, a ≠ n → q_next s' !! a = q_next s !! a) → qown s' (Q ++ [n]) F.
Proof.
  intros Ho EP EC EF ED HP Hnx. assert (Hn : held s n) by (left; by exists p).
  pose proof (qo_held _ _ _ Ho n Hn) as HnFQ. apply not_elem_of_app in HnFQ as HnQ'. destruct HnQ' as [HnF HnQ].
  assert (Hh : ∀ x, held s' x → held s x ∧ x ≠ n).
  { intros x [[p' Hx] | Hx].
    - rewrite HP in Hx. case_decide as Hpp; [done |]. split; [left; by exists p' |].
      intros ->. apply Hpp. by apply (qo_excl _ _ _ Ho p p' n).
    - rewrite EC in Hx. split; [by right |]. intros ->. by apply (qo_cons _ _ _ Ho n p). }
  apply (own_move s s' Q); try done.
  - rewrite app_assoc. apply NoDup_app. split; [apply Ho |]. split; [ | apply NoDup_singleton].
    intros x Hx Hin. by apply list_elem_of_singleton in Hin as ->.
  - intros x Hx. destruct (Hh x Hx) as [Hx1 Hx2]. rewrite app_assoc. apply not_elem_of_app. split; [by apply Ho |].
    by rewrite list_elem_of_singleton.
  - intros x p' Hx. rewrite EC in Hx. rewrite HP. case_decide; [done | by apply (qo_cons _ _ _ Ho)].
  - intros p' x. rewrite HP. by case_decide.
  - intros a Ha. apply Hnx. by intros ->.
Qed.

Lemma exchange_str s s' Q ms p n m :
  qstr s Q ms → prod_of s p = PFilled n → n ∉ Q → q_data s !! n = Some m →
  q_cons s' = q_cons s → q_head s' = q_head s → q_tail s' = Some n → q_data s' = q_data s →
  q_sent s' = q_sent s ++ [m] → q_recv s' = q_recv s →
  (∀ p', prod_of s' p' = if decide (p = p') then PLinking n (q_tail s) else prod_of s p') →
  q_next s' !! n = None → (∀ a, a ∈ Q → q_next s' !! a = q_next s !! a) → qstr s' (Q ++ [n]) (ms ++ [m]).
Proof.
  intros Hs EP HnQ Hm EC EH ET ED ES ER HP Hn0 HnxQ.
  assert (Hold : ∀ p' b v, prod_of s p' = PLinking b v → prod_of s' p' = PLinking b v).
  { intros p' b v Hp'. rewrite HP. case_decide; [by subst; rewrite EP in Hp' | done]. }
  constructor.
  - apply linked_snoc; [ | done |].
    + apply (linked_ext (q_next s) _ (pending s)); [done | | apply Hs]. intros a b _ [p' Hp']. exists p'. by apply Hold.
    + intros a Ha. exists p. rewrite HP, decide_True by done. by rewrite (qs_tail _ _ _ Hs), Ha.
  - by rewrite ET, last_snoc.
  - rewrite ED. apply Forall2_app; [apply Hs | by constructor].
  - rewrite ES, ER, (qs_msgs _ _ _ Hs). by rewrite app_assoc.
  - intros p' b a. rewrite HP. case_decide as Hpp.
    + intros [= <- Ht]. rewrite (qs_tail _ _ _ Hs) in Ht.
      assert (HnN : q_next s !! a = None) by (by apply (linked_last _ (pending s) Q); [apply Hs |]).
      apply last_Some in Ht as [l ->]. rewrite HnxQ by (apply elem_of_app; right; by apply list_elem_of_singleton).
      split; [done |]. exists l, []. by rewrite <- app_assoc.
    + intros Hp'. destruct (linking_in s Q ms p' b _ Hs Hp') as [_ Ha]. rewrite HnxQ by (by apply Ha).
      destruct (qs_link _ _ _ Hs p' b a Hp') as (H1 & Q1 & Q2 & HQ). split; [done |].
      exists Q1, (Q2 ++ [n]). rewrite HQ. by rewrite <- app_assoc.
  - intros p' b. rewrite HP, EH, EC. case_decide as Hpp.
    + intros [= <- Ht]. rewrite (qs_tail _ _ _ Hs) in Ht. apply last_None in Ht as ->.
      destruct (consumer_empty s (qs_consumer _ _ _ Hs)) as [H1 H2]. split_and!; [done | by exists [] | done].
    + intros Hp'. destruct (qs_first _ _ _ Hs p' b Hp') as (H1 & [r ->] & H3). split; [done |]. by split; [exists (r ++ [n]) |].
  - intros p1 p2 b v1 v2. rewrite !HP. repeat case_decide; [congruence | | | by apply (qs_excl _ _ _ Hs)].
    + intros [= <- _] Hx. by destruct (linking_in s Q ms _ _ _ Hs Hx).
    + intros Hx [= <- _]. by destruct (linking_in s Q ms _ _ _ Hs Hx).
  - eapply (consumer_snoc s s' Q n p); [apply Hs | done | done | done | intros p' b; apply Hold |].
    intros ->. rewrite HP, decide_True by done. by rewrite (qs_tail _ _ _ Hs).
Qed.

Lemma exchange_inv s p s' : qinv s → enqueue_exchange s p = Some s' → qinv s'.
Proof.
  intros (Q & F & ms & Ho & Hs). unfold enqueue_exchange. destruct (prod_of s p) as [ | n | ] eqn:EP; [done | | done].
  destruct (qo_filled _ _ _ Ho p n EP) as [m Hm]. rewrite Hm. intros [= <-].
  assert (HnQ : n ∉ Q).
  { assert (Hn : held s n) by (left; by exists p). apply (qo_held _ _ _ Ho) in Hn. by apply not_elem_of_app in Hn as [_ Hn]. }
  exists (Q ++ [n]), F, (ms ++ [m]). split.
  - eapply exchange_own; [exact Ho | exact EP | done | done | done | intros p'; apply prod_upd |].
    intros a Ha. cbn. by rewrite lookup_delete_ne.
  - eapply exchange_str; [exact Hs | exact EP | done | exact Hm | done | done | done | done | done | done | intros p'; apply prod_upd | |]; cbn.
    + by rewrite lookup_delete_eq.
    + intros a Ha. rewrite lookup_delete_ne; [done |]. by intros ->.
Qed.

(** In a queue without duplicates a node has one successor. *)
Lemma one_successor (Q1 Q2 Q1' Q2' : list nat) a b b' :
  NoDup (Q1 ++ a :: b :: Q2) → Q1 ++ a :: b :: Q2 = Q1' ++ a :: b' :: Q2' → b = b'.
Proof.
  intros HN HE.
  assert (H1 : (Q1 ++ a :: b :: Q2) !! length Q1 = Some a) by (by rewrite list_lookup_middle).
  assert (H2 : (Q1 ++ a :: b :: Q2) !! length Q1' = Some a) by (rewrite HE; by rewrite list_lookup_middle).
  pose proof (NoDup_lookup _ _ _ _ HN H1 H2) as HL.
  apply app_inj_1 in HE as [_ HE]; [congruence | done].
Qed.

(** Storing [prev_tail->next]. *)
Lemma link_next_inv s p s' b a : qinv s → prod_of s p = PLinking b (Some a) → enqueue_link s p = Some s' → qinv s'.
Proof.
  intros (Q & F & ms & Ho & Hs) EP. unfold enqueue_link. rewrite EP. intros [= <-]. set (s' := mk_queue _ _ _ _ _ _ _ _ _).
  destruct (qs_link _ _ _ Hs p b a EP) as (Hna & Q1 & Q2 & HQ).
  pose proof (qo_nodup _ _ _ Ho) as HN. apply NoDup_app in HN as (_ & HD & HN).
  assert (HaQ : a ∈ Q) by (by apply (linking_in s Q ms p b (Some a) Hs)).
  assert (HP : ∀ p', prod_of s' p' = if decide (p = p') then POut else prod_of s p') by (intros p'; apply prod_upd).
  exists Q, F, ms. split.
  - apply (own_move s s' Q); try done; [apply Ho | | | | ].
    + intros n [[p' Hn] | Hn]; apply Ho; [left; exists p'; rewrite HP in Hn; by case_decide | by right].
    + intros n p' Hn. rewrite HP. case_decide; [done | by apply (qo_cons _ _ _ Ho)].
    + intros p' n. rewrite HP. by case_decide.
    + intros x Hx. cbn. rewrite lookup_insert_ne; [done |]. intros <-. by apply (HD a).
  - constructor; try apply Hs.
    + eapply linked_set; [exact HN | exact HQ | apply Hs |]. intros c d Hc [p' Hp']. exists p'. rewrite HP.
      case_decide; [subst; rewrite EP in Hp'; congruence | done].
    + intros p' b' a'. rewrite HP. case_decide as Hpp; [done |]. intros Hp'.
      destruct (qs_link _ _ _ Hs p' b' a' Hp') as (H1 & H2). split; [ | done]. cbn.
      rewrite lookup_insert_ne; [done |]. intros <-. destruct H2 as (Q1' & Q2' & HQ'). rewrite HQ in HN, HQ'.
      pose proof (one_successor _ _ _ _ _ _ _ HN HQ') as <-. apply Hpp. by apply (qs_excl _ _ _ Hs p p' b _ _ EP Hp').
    + intros p' b'. rewrite HP. case_decide; [done |]. apply (qs_first _ _ _ Hs).
    + intros p1 p2 c v1 v2. rewrite !HP. repeat case_decide; try done. apply (qs_excl _ _ _ Hs).
    + apply (consumer_mono s); [apply Hs | done | done | | ].
      * intros h x _ Hx. cbn. rewrite lookup_insert_ne; [done |]. intros <-. congruence.
      * intros q [p' Hq]. exists p'. rewrite HP. case_decide; [subst; by rewrite EP in Hq | done].
Qed.

(** Storing [queue->head] when the queue was empty. *)
Lemma link_head_inv s p s' b : qinv s → prod_of s p = PLinking b None → enqueue_link s p = Some s' → qinv s'.
Proof.
  intros (Q & F & ms & Ho & Hs) EP. unfold enqueue_link. rewrite EP. intros [= <-]. set (s' := mk_queue _ _ _ _ _ _ _ _ _).
  destruct (qs_first _ _ _ Hs p b EP) as (Hh & [r ->] & Hc).
  assert (HP : ∀ p', prod_of s' p' = if decide (p = p') then POut else prod_of s p') by (intros p'; apply prod_upd).
  exists (b :: r), F, ms. split.
  - apply (own_move s s' (b :: r)); try done; [apply Ho | | | ].
    + intros n [[p' Hn] | Hn]; apply Ho; [left; exists p'; rewrite HP in Hn; by case_decide | by right].
    + intros n p' Hn. rewrite HP. case_decide; [done | by apply (qo_cons _ _ _ Ho)].
    + intros p' n. rewrite HP. by case_decide.
  - constructor; try apply Hs.
    + apply (linked_ext (q_next s) _ (pending s)); [done | | apply Hs]. intros c d _ [p' Hp']. exists p'. rewrite HP.
      case_decide; [subst; by rewrite EP in Hp' | done].
    + intros p' b' a'. rewrite HP. case_decide; [done |]. apply (qs_link _ _ _ Hs).
    + intros p' b'. rewrite HP. case_decide as Hpp; [done |]. intros Hp'.
      destruct (qs_first _ _ _ Hs p' b' Hp') as (_ & [r' [= <- _]] & _). exfalso. apply Hpp. by apply (qs_excl _ _ _ Hs p p' b _ _ EP Hp').
    + intros p1 p2 c v1 v2. rewrite !HP. repeat case_decide; try done. apply (qs_excl _ _ _ Hs).
    + unfold consumer_ok. change (q_cons s') with (q_cons s). destruct Hc as [-> | [h ->]]; by left.
Qed.

Lemma link_inv s p s' : qinv s → enqueue_link s p = Some s' → qinv s'.
Proof.
  intros Hi Hl. destruct (prod_of s p) as [ | n | n [a | ]] eqn:EP.
  - unfold enqueue_link in Hl. by rewrite EP in Hl.
  - unfold enqueue_link in Hl. by rewrite EP in Hl.
  - by eapply link_next_inv.
  - by eapply link_head_inv.
Qed.

(** ** Consumer steps *)

(** No producer is between an exchange on the empty queue and the store of [head]. *)
Definition no_first (s : queue) : Prop := ∀ p b, prod_of s p ≠ PLinking b None.

Definition returned (c : consumer) : Prop := match c with CHas _ => True | _ => False end.

(** The consumer moves on, possibly after a store to [head]. *)
Lemma move_inv s Q F ms c v :
  qown s Q F → qstr s Q ms → no_first s → ¬ returned (q_cons s) → ¬ returned c →
  consumer_ok (at_ (with_head s v) c) Q → qinv (at_ (with_head s v) c).
Proof.
  intros Ho Hs Hf Hr1 Hr2 HC. exists Q, F, ms. split.
  - apply (own_move s _ Q); try done; [apply Ho | | ].
    + intros n [[p Hn] | Hn]; [apply Ho; left; by exists p | cbn in Hn; subst; by destruct Hr2].
    + intros n p Hn. cbn in Hn. subst. by destruct Hr2.
  - constructor; try apply Hs; [ | done]. intros p b Hp. by destruct (Hf p b).
Qed.

(** The consumer returns the first node of the queue. *)
Lemma return_own s Q F h s0 :
  qown s (h :: Q) F → ¬ returned (q_cons s) → q_next s0 = q_next s → q_data s0 = q_data s → q_free s0 = q_free s →
  q_prod s0 = q_prod s → qown (return_head s0 h) Q F.
Proof.
  intros Ho Hr E1 E2 E3 E4. pose proof (qo_nodup _ _ _ Ho) as HN. apply NoDup_app in HN as (HN1 & HD & HN).
  apply NoDup_cons in HN as [Hh HN].
  assert (HP : ∀ p, prod_of (return_head s0 h) p = prod_of s p) by (intros p; unfold prod_of; cbn; by rewrite E4).
  assert (Hsub : ∀ x, x ∉ F ++ h :: Q → x ∉ F ++ Q).
  { intros x Hx. apply not_elem_of_app in Hx as [Hx1 Hx2]. apply not_elem_of_cons in Hx2 as [_ Hx2]. by apply not_elem_of_app. }
  apply (own_move s _ (h :: Q)); try done.
  - apply NoDup_app. split_and!; [done | | done]. intros x Hx Hin. apply (HD x Hx), elem_of_cons. by right.
  - intros n [[p Hn] | Hn].
    + apply Hsub, Ho. left. exists p. by rewrite <- HP.
    + cbn in Hn. injection Hn as <-. apply not_elem_of_app. split; [ | done]. intros Hin. apply (HD h Hin), elem_of_cons. by left.
  - intros n p Hn. cbn in Hn. injection Hn as <-. rewrite HP. intros Hp.
    assert (Hn : held s h) by (left; by exists p). apply (qo_held _ _ _ Ho) in Hn. apply not_elem_of_app in Hn as [_ Hn].
    by apply not_elem_of_cons in Hn as [Hn _].
  - intros p n. by rewrite HP.
  - intros a _. cbn. by rewrite E1.
Qed.

Lemma return_str s Q ms h s0 :
  qstr s (h :: Q) ms → no_first s → (∀ p b, prod_of s p ≠ PLinking b (Some h)) →
  q_next s0 = q_next s → q_data s0 = q_data s → q_prod s0 = q_prod s → q_sent s0 = q_sent s → q_recv s0 = q_recv s →
  q_tail s0 = last Q → q_head s0 = head Q → ∃ ms', qstr (return_head s0 h) Q ms'.
Proof.
  intros Hs Hf Hnp E1 E2 E3 E4 E5 ET EH.
  assert (HP : ∀ p, prod_of (return_head s0 h) p = prod_of s p) by (intros p; unfold prod_of; cbn; by rewrite E3).
  pose proof (qs_data _ _ _ Hs) as HD. apply Forall2_cons_inv_l in HD as (m & ms' & Hm & HD & ->). exists ms'. constructor.
  - cbn. rewrite E1. pose proof (qs_linked _ _ _ Hs) as HL. destruct Q as [ | x Q]; [done |]. destruct HL as [_ HL].
    apply (linked_ext (q_next s) _ (pending s)); [done | | exact HL]. intros a b _ [p Hp]. exists p. by rewrite HP.
  - done.
  - cbn. by rewrite E2.
  - cbn. rewrite E2, E4, E5, Hm, (qs_msgs _ _ _ Hs). by rewrite <- app_assoc.
  - intros p b a. rewrite HP. intros Hp. destruct (qs_link _ _ _ Hs p b a Hp) as (H1 & Q1 & Q2 & HQ). cbn. rewrite E1.
    split; [done |]. destruct Q1 as [ | q Q1]; [injection HQ as <- _; by destruct (Hnp p b) |].
    injection HQ as <- HQ. by exists Q1, Q2.
  - intros p b. rewrite HP. intros Hp. by destruct (Hf p b).
  - intros p1 p2 b v1 v2. rewrite !HP. apply (qs_excl _ _ _ Hs).
  - unfold consumer_ok. cbn. rewrite EH. destruct Q; [done | by left].
Qed.

Lemma busy_no_first s Q ms : qstr s Q ms → q_cons s ≠ COut → ¬ returned (q_cons s) → no_first s.
Proof.
  intros Hs H1 H2 p b Hp. destruct (qs_first _ _ _ Hs p b Hp) as (_ & _ & [Hc | [h Hc]]); [done |].
  rewrite Hc in H2. by destruct H2.
Qed.

Lemma successor nx (pend : nat → nat → Prop) h r x : linked nx pend (h :: r) → nx !! h = Some x → ∃ r', r = x :: r'.
Proof.
  destruct r as [ | y r]; cbn; [congruence |]. intros [[H | [H _]] _] Hx; [ | congruence].
  rewrite Hx in H. injection H as <-. by exists r.
Qed.

Lemma not_alone (Q : list nat) h r : Q = h :: r → last Q ≠ Some h → ∃ x r', Q = h :: x :: r'.
Proof. intros -> H. destruct r as [ | x r]; [done |]. eauto. Qed.

Lemma alone (h : nat) r : NoDup (h :: r) → last (h :: r) = Some h → r = [].
Proof.
  intros HN HL. destruct r as [ | x r]; [done |]. apply NoDup_cons in HN as [HN _]. destruct HN.
  change (last (h :: x :: r)) with (last (x :: r)) in HL. apply last_Some in HL as [l ->].
  apply elem_of_app. right. by apply list_elem_of_singleton.
Qed.

(** Returning the first of at least two nodes. *)
Lemma pop_inv s F ms h x r :
  qown s (h :: x :: r) F → qstr s (h :: x :: r) ms → no_first s → ¬ returned (q_cons s) →
  q_next s !! h = Some x → qinv (return_head (with_head s (Some x)) h).
Proof.
  intros Ho Hs Hf Hr Hx. destruct (return_str s (x :: r) ms h (with_head s (Some x))) as [ms' H]; try done.
  - intros p b Hp. destruct (qs_link _ _ _ Hs p b h Hp) as [Hn _]. congruence.
  - exact (qs_tail _ _ _ Hs).
  - exists (x :: r), F, ms'. split; [by apply (return_own s) | done].
Qed.

Lemma return_node_inv s h : qinv s → q_cons s = CHas h → qinv (ws_mpsc_queue_return_node s h).
Proof.
  intros (Q & F & ms & Ho & Hs) EC.
  assert (Hn : held s h) by (by right). pose proof (qo_held _ _ _ Ho h Hn) as HnQ. apply not_elem_of_app in HnQ as [_ HnQ].
  exists Q, (h :: F), ms. split.
  - apply (own_push s _ Q F h Ho Hn); try done; cbn.
    + intros n [[p Hp] | Hp]; [split; [left; by exists p |] | done]. intros ->. by apply (qo_cons _ _ _ Ho h p).
    + apply set_next_eq.
    + intros a. apply set_next_ne.
    + intros a Ha. by rewrite lookup_delete_ne.
  - eapply (str_frame s); try done; cbn.
    + intros a Ha. apply set_next_ne. by intros ->.
    + intros a Ha. rewrite lookup_delete_ne; [done |]. by intros ->.
    + right. by exists h.
Qed.

Lemma consumer_inv s : qinv s → qinv (consumer_step s).
Proof.
  intros (Q & F & ms & Ho & Hs). assert (H0 : qinv s) by (by exists Q, F, ms).
  pose proof (qs_consumer _ _ _ Hs) as HC. pose proof (qs_linked _ _ _ Hs) as HL. pose proof (qs_tail _ _ _ Hs) as HT.
  pose proof (busy_no_first s Q ms Hs) as Hf.
  assert (Hm : ∀ c, no_first s → ¬ returned (q_cons s) → ¬ returned c → consumer_ok (at_ s c) Q → qinv (at_ s c)).
  { intros c H1 H2 H3 H4. by apply (move_inv s Q F ms c (q_head s)). }
  unfold consumer_step, consumer_ok in *. destruct (q_cons s) as [ | h | h | h | h x | h | h | h | h x | h ] eqn:EC.
  - destruct (q_head s) as [h | ] eqn:EH; [ | done]. destruct Q as [ | q r]; [done |].
    destruct HC as [[= <-] | [? _]]; [ | done]. apply Hm; [ | by intros [] | by intros [] | cbn; eauto].
    intros p b Hp. destruct (qs_first _ _ _ Hs p b Hp) as (? & _). congruence.
  - destruct HC as (H1 & r & ->). destruct (q_next s !! h) as [x | ] eqn:EN.
    + destruct (successor _ _ _ _ _ HL EN) as [r' ->]. apply Hm; [apply Hf; [done | by intros []] | by intros [] | by intros [] | cbn; eauto].
    + apply Hm; [apply Hf; [done | by intros []] | by intros [] | by intros [] | cbn; eauto].
  - destruct HC as (H1 & r & HQ). case_decide as HD.
    + apply Hm; [apply Hf; [done | by intros []] | by intros [] | by intros [] | cbn; eauto].
    + rewrite HT in HD. pose proof (not_alone Q h r HQ HD). apply Hm; [apply Hf; [done | by intros []] | by intros [] | by intros [] | cbn; eauto].
  - destruct HC as (H1 & x & r & ->). destruct (q_next s !! h) as [y | ] eqn:EN; [ | done].
    destruct (successor _ _ _ _ _ HL EN) as [r' [= -> ->]]. apply Hm; [apply Hf; [done | by intros []] | by intros [] | by intros [] | cbn; eauto].
  - destruct HC as (H1 & H2 & r & ->). apply (pop_inv s F ms h x r); [done | done | apply Hf; [done | by intros []] | by rewrite EC; intros [] | done].
  - destruct HC as (H1 & r & ->). apply (move_inv s (h :: r) F ms (CCas h) None); [done | done | apply Hf; [done | by intros []] | by rewrite EC; intros [] | by intros [] | cbn; eauto].
  - destruct HC as (H1 & r & HQ). case_decide as HD.
    + rewrite HT, HQ in HD. pose proof (qo_nodup _ _ _ Ho) as HN. apply NoDup_app in HN as (_ & _ & HN). rewrite HQ in HN.
      pose proof (alone h r HN HD) as ->. subst Q. destruct (return_str s [] ms h (with_tail s None)) as [ms' H]; try done.
      * apply Hf; [done | by intros []].
      * intros p b Hp. destruct (qs_link _ _ _ Hs p b h Hp) as (_ & [ | ? [ | ? ?]] & Q2 & HQ); done.
      * exists [], F, ms'. split; [apply (return_own s); try done; by rewrite EC; intros [] | done].
    + rewrite HT in HD. pose proof (not_alone Q h r HQ HD). apply Hm; [apply Hf; [done | by intros []] | by intros [] | by intros [] | cbn; eauto].
  - destruct HC as (H1 & x & r & ->). destruct (q_next s !! h) as [y | ] eqn:EN; [ | done].
    destruct (successor _ _ _ _ _ HL EN) as [r' [= -> ->]]. apply Hm; [apply Hf; [done | by intros []] | by intros [] | by intros [] | cbn; eauto].
  - destruct HC as (H1 & H2 & r & ->). apply (pop_inv s F ms h x r); [done | done | apply Hf; [done | by intros []] | by rewrite EC; intros [] | done].
  - by apply return_node_inv.
Qed.

Lemma step_inv s s' : qinv s → qstep s s' → qinv s'.
Proof.
  intros Hi [p m s1 H | p s1 H | p s1 H | p s1 H | ]; [by eapply get_inv | by eapply give_back_inv | by eapply exchange_inv | by eapply link_inv | by apply consumer_inv].
Qed.

(** ** Scheduled runs *)

Inductive action := AGet (p : nat) (m : M) | AGiveBack (p : nat) | AExchange (p : nat) | ALink (p : nat) | AConsume.

Definition act (s : queue) (a : action) : option queue :=
  match a with
  | AGet p m => ws_mpsc_queue_get_node s p m
  | AGiveBack p => give_back s p
  | AExchange p => enqueue_exchange s p
  | ALink p => enqueue_link s p
  | AConsume => Some (consumer_step s)
  end.

Fixpoint schedule (s : queue) (l : list action) : option queue :=
  match l with [] => Some s | a :: r => match act s a with Some s' => schedule s' r | None => None end end.

Lemma act_step s a s' : act s a = Some s' → qstep s s'.
Proof. destruct a; cbn; [by eapply st_get | by eapply st_give_back | by eapply st_exchange | by eapply st_link | intros [= <-]; apply st_consumer]. Qed.

Lemma schedule_reach l : ∀ s s', schedule s l = Some s' → reach qstep s s'.
Proof.
  induction l as [ | a r IH]; intros s s'; cbn; [intros [= <-]; constructor |].
  destruct (act s a) as [s1 | ] eqn:EA; [ | done]. intros H%IH. eapply reach_trans; [ | exact H]. by apply reach_one, (act_step s a).
Qed.

(** ** The new queue *)

Lemma create_next n i :
  (list_to_map ((λ i, (i, S i)) <$> seq 0 n) : gmap nat nat) !! i = if decide (i < n)%nat then Some (S i) else None.
Proof.
  case_decide as Hi.
  - apply elem_of_list_to_map_1.
    + rewrite <- list_fmap_compose. replace (fst ∘ _) with (@id nat) by done. rewrite list_fmap_id. apply NoDup_seq.
    + apply list_elem_of_fmap. exists i. split; [done |]. apply elem_of_seq. lia.
  - apply not_elem_of_list_to_map_1. rewrite <- list_fmap_compose. intros (j & Hj & Hin)%list_elem_of_fmap.
    cbn in Hj. subst j. apply elem_of_seq in Hin. lia.
Qed.

Lemma chain_seq (nx : gmap nat nat) n : ∀ k,
  (∀ i, (k <= i < k + n)%nat → nx !! i = Some (S i)) → nx !! (k + n)%nat = None → free_chain nx (Some k) (seq k (S n)).
Proof.
  induction n as [ | n IH]; intros k H1 H2; cbn; split; try done.
  - by rewrite Nat.add_0_r in H2.
  - rewrite H1 by lia. apply (IH (S k)); [intros i Hi; apply H1; lia | by replace (S k + n)%nat with (k + S n)%nat by lia].
Qed.

Lemma create_inv n : qinv (ws_mpsc_queue_create n).
Proof.
  unfold ws_mpsc_queue_create. set (size := match n with O => _ | S _ => _ end).
  assert (Hs : ∃ k, size = S k) by (destruct n; eexists; reflexivity). destruct Hs as [k Hk]. rewrite Hk.
  assert (HP : ∀ p, prod_of (mk_queue None None (Some 0%nat) (list_to_map ((λ i, (i, S i)) <$> seq 0 (pred (S k)))) ∅ ∅ COut [] []) p = POut)
    by (intros p; unfold prod_of; cbn; by rewrite lookup_empty).
  exists [], (seq 0 (S k)), []. split; constructor; try done; cbn [q_next q_free].
  - rewrite app_nil_r. apply NoDup_seq.
  - intros x [[p Hx] | Hx]; [by rewrite HP in Hx | done].
  - cbn [pred]. apply chain_seq.
    + intros i Hi. rewrite create_next. by rewrite decide_True by lia.
    + rewrite create_next. by rewrite decide_False by lia.
Qed.

Lemma reach_inv n s : reach qstep (ws_mpsc_queue_create n) s → qinv s.
Proof. apply reach_invariant; [apply create_inv | intros a b; apply step_inv]. Qed.

(** ** Theorems *)

(** C7. The queue is FIFO and loses nothing: under any interleaving of any number of
    producers with the consumer, the messages the consumer has received are, in order and
    once each, a prefix of the messages sent, ordered by the exchange of [tail]; and the
    rest is still in the nodes linked, or about to be linked, from the front to [tail]. *)
Theorem mpsc_fifo n s :
  reach qstep (ws_mpsc_queue_create n) s →
  ∃ Q ms, q_sent s = q_recv s ++ ms ∧ Forall2 (λ x m, q_data s !! x = Some m) Q ms ∧
          linked (q_next s) (pending s) Q ∧ q_tail s = last Q.
Proof.
  intros (Q & F & ms & Ho & Hs)%reach_inv. exists Q, ms. split_and!; apply Hs.
Qed.

(** Nodes have one owner: under any interleaving, the free list has no duplicates and
    no node of it is held by a thread or known to a linking producer; no two threads hold
    the same node; and the node a producer is about to link its own behind is neither
    free nor held by anyone, so the store never hits a recycled node. *)
Theorem mpsc_nodes_exclusive n s :
  reach qstep (ws_mpsc_queue_create n) s →
  ∃ F, free_chain (q_next s) (q_free s) F ∧ NoDup F ∧
       (∀ x, held s x → x ∉ F) ∧
       (∀ p1 p2 x, prod_of s p1 = PFilled x → prod_of s p2 = PFilled x → p1 = p2) ∧
       (∀ p x, q_cons s = CHas x → prod_of s p ≠ PFilled x) ∧
       (∀ p b a, prod_of s p = PLinking b (Some a) → (a ∉ F) ∧ ¬ held s a ∧ (b ∉ F) ∧ ¬ held s b).
Proof.
  intros (Q & F & ms & Ho & Hs)%reach_inv. pose proof (qo_nodup _ _ _ Ho) as HN. apply NoDup_app in HN as (HN1 & HD & HN2).
  assert (HQ : ∀ x, x ∈ Q → (x ∉ F) ∧ ¬ held s x).
  { intros x Hx. split; [intros HF; by apply (HD x) |]. intros Hh%(qo_held _ _ _ Ho). apply Hh, elem_of_app. by right. }
  exists F. split_and!; [apply Ho | done | | apply Ho | intros p x; apply (qo_cons _ _ _ Ho) | ].
  - intros x Hh%(qo_held _ _ _ Ho) HF. apply Hh, elem_of_app. by left.
  - intros p b a Hp. destruct (linking_in s Q ms p b _ Hs Hp) as [Hb Ha].
    destruct (HQ a (Ha a eq_refl)), (HQ b Hb). done.
Qed.

(** C9. No message is stranded: in every reachable state in which no producer is between
    its two enqueue steps, if a message was sent and not received then the consumer,
    running [ws_mpsc_queue_dequeue] on its own, returns the oldest such message after at
    most five atomic operations. *)
Theorem mpsc_no_stranding n s :
  reach qstep (ws_mpsc_queue_create n) s → q_cons s = COut → (∀ p b v, prod_of s p ≠ PLinking b v) →
  q_recv s ≠ q_sent s →
  ∃ k m, (k <= 5)%nat ∧ let s' := Nat.iter k consumer_step s in
    q_recv s' = q_recv s ++ [m] ∧ q_recv s' `prefix_of` q_sent s ∧ ∃ h, q_cons s' = CHas h.
Proof.
  intros (Q & F & ms & Ho & Hs)%reach_inv HC Hnp Hne. pose proof (qs_consumer _ _ _ Hs) as HK. unfold consumer_ok in HK. rewrite HC in HK.
  pose proof (qs_data _ _ _ Hs) as HD. pose proof (qs_msgs _ _ _ Hs) as HM.
  destruct HD as [ | h m Q ms Hm HD]; [rewrite HM, app_nil_r in Hne; done |].
  destruct HK as [HH | [_ [p Hp]]]; [ | by destruct (Hnp p h None)].
  assert (Hpre : q_recv s ++ [m] `prefix_of` q_sent s) by (exists ms; by rewrite HM, <- app_assoc).
  pose proof (qs_linked _ _ _ Hs) as HL. pose proof (qs_tail _ _ _ Hs) as HT.
  assert (H1 : consumer_step s = at_ s (CHead h)) by (unfold consumer_step; by rewrite HC, HH).
  destruct Q as [ | x Q].
  - cbn in HL, HT. exists 5%nat, m. split; [lia |].
    assert (H5 : Nat.iter 5 consumer_step s = return_head (with_tail (at_ (with_head s None) (CCas h)) None) h).
    { cbn. rewrite H1. unfold consumer_step at 4. cbn. rewrite HL. unfold consumer_step at 3. cbn. rewrite HT, decide_True by done.
      unfold consumer_step at 2. cbn. unfold consumer_step. cbn. by rewrite HT, decide_True. }
    rewrite H5. cbn. rewrite Hm. eauto.
  - destruct HL as [[HL | [_ [p Hp]]] _]; [ | by destruct (Hnp p x (Some h))]. exists 3%nat, m. split; [lia |].
    assert (H3 : Nat.iter 3 consumer_step s = return_head (with_head (at_ s (CAdvance h x)) (Some x)) h).
    { cbn. rewrite H1. unfold consumer_step at 2. cbn. rewrite HL. done. }
    rewrite H3. cbn. rewrite Hm. eauto.
Qed.

(** The consumer only spins for a producer: whenever it waits for [head->next], some
    producer has exchanged [tail] and is about to store exactly that link, and that one
    store ends the wait. *)
Theorem mpsc_spin_ends n s h :
  reach qstep (ws_mpsc_queue_create n) s → q_cons s = CSpin h ∨ q_cons s = CSpinLast h → q_next s !! h = None →
  ∃ p b s', prod_of s p = PLinking b (Some h) ∧ enqueue_link s p = Some s' ∧ q_next s' !! h = Some b ∧
            q_cons (consumer_step s') ≠ q_cons s.
Proof.
  intros (Q & F & ms & Ho & Hs)%reach_inv HC HN. pose proof (qs_consumer _ _ _ Hs) as HK.
  assert (HQ : ∃ x r, Q = h :: x :: r) by (unfold consumer_ok in HK; destruct HC as [HC | HC]; rewrite HC in HK; apply HK).
  destruct HQ as (x & r & ->). destruct (qs_linked _ _ _ Hs) as [[HL | [_ [p Hp]]] _]; [congruence |].
  exists p, x. unfold enqueue_link. rewrite Hp. eexists. split_and!; [done | done | cbn; by rewrite lookup_insert_eq |].
  unfold consumer_step. cbn. destruct HC as [-> | ->]; cbn; rewrite lookup_insert_eq; done.
Qed.
End Queue.

(** ** Witnesses *)

Definition demo_queue : queue := ws_mpsc_queue_create (M := Z) 4.
Definition demo_at (l : list action) : queue := default demo_queue (schedule demo_queue l).

(** The race the dequeue is written for: the consumer has seen a single node and stored
    NULL into [head] when a second producer exchanges [tail]; its own swap then fails. *)
Definition demo_race : list action :=
  [AGet 1 10; AExchange 1; ALink 1; AConsume; AConsume; AConsume; AConsume; AGet 2 20; AExchange 2; AConsume].

Lemma demo_reach l : schedule demo_queue l ≠ None → reach qstep demo_queue (demo_at l).
Proof.
  intros H. unfold demo_at. destruct (schedule demo_queue l) as [s | ] eqn:ES; [ | done]. by eapply schedule_reach.
Qed.

Lemma mpsc_fifo_witness :
  let s := demo_at (demo_race ++ [ALink 2; AConsume; AConsume; AConsume]) in
  q_recv s = [10%Z] ∧ ∃ ms, q_sent s = q_recv s ++ ms.
Proof.
  intros s. split; [vm_compute; reflexivity |].
  destruct (mpsc_fifo 4 s) as (Q & ms & H & _); [apply demo_reach; vm_compute; discriminate |]. by exists ms.
Defined.

Lemma mpsc_nodes_exclusive_witness :
  let s := demo_at demo_race in
  prod_of s 2 = PLinking 1 (Some 0%nat) ∧ ¬ held s 0.
Proof.
  intros s. split; [vm_compute; reflexivity |].
  destruct (mpsc_nodes_exclusive 4 s) as (F & _ & _ & _ & _ & _ & H); [apply demo_reach; vm_compute; discriminate |].
  apply (H 2%nat 1%nat 0%nat). vm_compute. reflexivity.
Defined.

Lemma mpsc_no_stranding_witness :
  let s := demo_at [AGet 1 10; AExchange 1; AGet 2 20; AExchange 2; ALink 2; ALink 1] in
  ∃ k m, (k <= 5)%nat ∧ q_recv (Nat.iter k consumer_step s) = q_recv s ++ [m].
Proof.
  intros s. destruct (mpsc_no_stranding 4 s) as (k & m & Hk & H & _).
  - apply demo_reach. vm_compute. discriminate.
  - vm_compute. reflexivity.
  - intros p b v. unfold prod_of.
    replace (q_prod s) with (<[1%nat := POut]> (<[2%nat := POut]> (∅ : gmap nat producer))) by (vm_compute; reflexivity).
    rewrite !prod_upd, lookup_empty. by repeat case_decide.
  - vm_compute. discriminate.
  - by exists k, m.
Defined.

Lemma mpsc_spin_ends_witness :
  let s := demo_at demo_race in
  q_cons s = CSpinLast 0 ∧ ∃ p b s', prod_of s p = PLinking b (Some 0%nat) ∧ enqueue_link s p = Some s'.
Proof.
  intros s. split; [vm_compute; reflexivity |].
  destruct (mpsc_spin_ends 4 s 0) as (p & b & s' & H1 & H2 & _).
  - apply demo_reach. vm_compute. discriminate.
  - right. vm_compute. reflexivity.
  - vm_compute. reflexivity.
  - by exists p, b, s'.
Defined.
