(* ===== verification/MpscPool.v ===== *)
(** * Creation, growth and end of a message queue (src/src/ws/ws_mpsc.c)

    What [Mpsc] takes for granted: the block of nodes, the free list threaded through it, the
    counters, the sizes, the two ways to create a queue, the growth of the block and the
    destruction.  Growth is documented for a queue "not under active load", so the operations
    here run one after the other; their interleavings are in [Mpsc].

    A node is named by its block and its index: growth replaces the block and frees the old
    one, and [dangling] records that a node of a freed block was touched.  Allocations are
    arguments. *)
From Stdlib Require Import ZArith Lia.
From stdpp Require Import base numbers list gmap.
From S2P Require Import Prelude.
Open Scope Z_scope.

Definition WS_MPSC_DEFAULT_NODE_POOL_SIZE : Z := 1024.
Definition WS_MPSC_DEFAULT_MAX_POOL_SIZE : Z := 131072.
Definition WS_MPSC_DEFAULT_GROWTH_FACTOR : Z := 2.

Section Pool.
Context {M : Type}.

(** [ws_mpsc_queue_t] with the [next] and [data] fields of its nodes (absent is NULL). *)
Record mpool := mk_pool {
  node_pool : nat; node_pool_size : Z;
  initial_pool_size : Z; max_pool_size : Z; growth_factor : Z;
  free_head : option (nat * nat); free_nodes : Z;
  p_head : option (nat * nat); p_tail : option (nat * nat);
  p_next : gmap (nat * nat) (nat * nat); p_data : gmap (nat * nat) M;
  messages_sent : Z; messages_received : Z;
  exhaustion_count : Z; total_expansions : Z;
  dangling : bool
}.

Definition with_sizes (q : mpool) i m g := mk_pool (node_pool q) (node_pool_size q) i m g (free_head q) (free_nodes q)
  (p_head q) (p_tail q) (p_next q) (p_data q) (messages_sent q) (messages_received q) (exhaustion_count q)
  (total_expansions q) (dangling q).
Definition with_free (q : mpool) f n nx dt b := mk_pool (node_pool q) (node_pool_size q) (initial_pool_size q) (max_pool_size q)
  (growth_factor q) f n (p_head q) (p_tail q) nx dt (messages_sent q) (messages_received q) (exhaustion_count q)
  (total_expansions q) b.
Definition with_queue (q : mpool) h t nx s r b := mk_pool (node_pool q) (node_pool_size q) (initial_pool_size q) (max_pool_size q)
  (growth_factor q) (free_head q) (free_nodes q) h t nx (p_data q) s r (exhaustion_count q) (total_expansions q) b.
Definition exhausted (q : mpool) := mk_pool (node_pool q) (node_pool_size q) (initial_pool_size q) (max_pool_size q)
  (growth_factor q) (free_head q) (free_nodes q) (p_head q) (p_tail q) (p_next q) (p_data q) (messages_sent q)
  (messages_received q) (u32 (exhaustion_count q + 1)) (total_expansions q) (dangling q).

Definition link (nx : gmap (nat * nat) (nat * nat)) (n : nat * nat) (v : option (nat * nat)) : gmap (nat * nat) (nat * nat) :=
  match v with Some x => <[n := x]> nx | None => delete n nx end.

(** Is [n] outside the block the queue owns? *)
Definition outside (q : mpool) (n : nat * nat) : bool := negb (n.1 =? node_pool q)%nat.

(** ** Creation *)

(** The loop that links the nodes [from .. to - 1] of block [b] in order, the last to NULL. *)
Fixpoint link_nodes (b from count : nat) (nx : gmap (nat * nat) (nat * nat)) : gmap (nat * nat) (nat * nat) :=
  match count with
  | O => nx
  | S O => delete (b, from) nx
  | S c => link_nodes b (S from) c (<[(b, from) := (b, S from)]> nx)
  end.

(** [ws_mpsc_queue_create]; [mem] are the outcomes of its two allocations. *)
Definition ws_mpsc_queue_create (mem : bool * bool) (node_pool_size : Z) : option mpool :=
  let size := if node_pool_size =? 0 then WS_MPSC_DEFAULT_NODE_POOL_SIZE else node_pool_size in
  if negb mem.1 then None
  else if negb mem.2 then None
  else Some (mk_pool 0 size size WS_MPSC_DEFAULT_MAX_POOL_SIZE WS_MPSC_DEFAULT_GROWTH_FACTOR (Some (0, 0)%nat) size
               None None (link_nodes 0 0 (Z.to_nat size) ∅) ∅ 0 0 0 0 false).

(** The size [ws_mpsc_queue_create_adaptive] asks for, with its corrected arguments. *)
Definition adaptive_sizes (initial_size max_size growth : Z) : Z * Z * Z * Z :=
  let i := if initial_size =? 0 then WS_MPSC_DEFAULT_NODE_POOL_SIZE else initial_size in
  let m := if (max_size =? 0) || (max_size <? i) then WS_MPSC_DEFAULT_MAX_POOL_SIZE else max_size in
  let g := if growth <? 2 then WS_MPSC_DEFAULT_GROWTH_FACTOR else growth in
  let p := u32 (i * 4) in
  (if m <? p then m else p, i, m, g).

Definition ws_mpsc_queue_create_adaptive (mem : bool * bool) (initial_size max_size growth : Z) : option mpool :=
  let '(practical_size, i, m, g) := adaptive_sizes initial_size max_size growth in
  match ws_mpsc_queue_create mem practical_size with
  | None => None
  | Some q => Some (with_sizes q i m g)
  end.

(** ** Nodes and messages *)

(** [ws_mpsc_queue_get_node], with [should_expand_pool], which always says no. *)
Definition ws_mpsc_queue_get_node (q : mpool) : option (nat * nat) * mpool :=
  match free_head q with
  | None => (None, exhausted q)
  | Some n => (Some n, with_free q (p_next q !! n) (free_nodes q - 1) (delete n (p_next q)) (delete n (p_data q)) (dangling q || outside q n))
  end.

Definition ws_mpsc_queue_return_node (q : mpool) (n : nat * nat) : mpool :=
  with_free q (Some n) (free_nodes q + 1) (link (p_next q) n (free_head q)) (delete n (p_data q)) (dangling q || outside q n).

Definition ws_mpsc_queue_enqueue (q : mpool) (n : nat * nat) : mpool :=
  let nx := delete n (p_next q) in
  match p_tail q with
  | Some t => with_queue q (p_head q) (Some n) (<[t := n]> nx) (u64 (messages_sent q + 1)) (messages_received q)
                (dangling q || outside q n || outside q t)
  | None => with_queue q (Some n) (Some n) nx (u64 (messages_sent q + 1)) (messages_received q) (dangling q || outside q n)
  end.

(** [ws_mpsc_queue_dequeue]; without producers under way the swap of [tail] succeeds. *)
Definition ws_mpsc_queue_dequeue (q : mpool) : option (nat * nat) * mpool :=
  match p_head q with
  | None => (None, q)
  | Some h =>
      let b := dangling q || outside q h in
      (Some h,
       match p_next q !! h with
       | Some next => with_queue q (Some next) (p_tail q) (p_next q) (messages_sent q) (u64 (messages_received q + 1)) b
       | None => with_queue q None None (p_next q) (messages_sent q) (u64 (messages_received q + 1)) b
       end)
  end.

(** A message is sent, and one is taken and its node given back. *)
Definition send (q : mpool) (m : M) : Z * mpool :=
  match ws_mpsc_queue_get_node q with
  | (None, q1) => (- 1, q1)
  | (Some n, q1) => (0, ws_mpsc_queue_enqueue (with_free q1 (free_head q1) (free_nodes q1) (p_next q1) (<[n := m]> (p_data q1)) (dangling q1)) n)
  end.
Definition recv (q : mpool) : option M * mpool :=
  match ws_mpsc_queue_dequeue q with
  | (None, q1) => (None, q1)
  | (Some n, q1) => (p_data q1 !! n, ws_mpsc_queue_return_node q1 n)
  end.

(** ** Growth *)

(** The [memcpy] of the old nodes: their contents, pointers into the old block included,
    at the same indices of block [b]. *)
Definition copied {A} (old b : nat) (f : gmap (nat * nat) A) : gmap (nat * nat) A :=
  list_to_map (omap (λ kv : (nat * nat) * A, if (kv.1.1 =? old)%nat then Some ((b, kv.1.2), kv.2) else None) (map_to_list f)).

(** [expand_node_pool]; [mem]: the new block could be allocated. *)
Definition expand_node_pool (mem : bool) (q : mpool) (new_size : Z) : Z * mpool :=
  if (new_size <=? node_pool_size q) || (max_pool_size q <? new_size) then (- 1, q)
  else if negb mem then (- 1, q)
  else
    let b := S (node_pool q) in
    let old := Z.to_nat (node_pool_size q) in
    (0, mk_pool b new_size (initial_pool_size q) (max_pool_size q) (growth_factor q)
          (Some (b, old)) (new_size - node_pool_size q) (p_head q) (p_tail q)
          (link_nodes b old (Z.to_nat (new_size - node_pool_size q)) (copied (node_pool q) b (p_next q)))
          (copied (node_pool q) b (p_data q)) (messages_sent q) (messages_received q) (exhaustion_count q)
          (u32 (total_expansions q + 1)) (dangling q)).

Definition ws_mpsc_queue_expand_pool_safe (mem : bool) (q : mpool) (new_size : Z) : Z * mpool :=
  if (new_size <=? node_pool_size q) || (max_pool_size q <? new_size) then (- 1, q)
  else if free_nodes q <? node_pool_size q / 2 then (- 2, q)
  else expand_node_pool mem q new_size.

(** ** Destruction and statistics *)

(** The loop of [ws_mpsc_queue_destroy]: the data it frees.  [fuel] bounds the queue. *)
Fixpoint drain_data (fuel : nat) (q : mpool) : list M * mpool :=
  match fuel with
  | O => ([], q)
  | S f => match ws_mpsc_queue_dequeue q with
           | (None, q1) => ([], q1)
           | (Some n, q1) =>
               let q2 := with_free q1 (free_head q1) (free_nodes q1) (p_next q1) (delete n (p_data q1)) (dangling q1) in
               let '(l, q3) := drain_data f q2 in (match p_data q1 !! n with Some m => m :: l | None => l end, q3)
           end
  end.

Definition ws_mpsc_queue_destroy (q : mpool) : list M * mpool := drain_data (S (Z.to_nat (node_pool_size q))) q.

(** The integer fields of [ws_mpsc_get_stats]. *)
Record mpsc_stats := mk_stats { st_sent : Z; st_received : Z; st_free : Z; st_depth : Z; st_size : Z; st_max : Z; st_expansions : Z; st_exhaustion : Z }.
Definition ws_mpsc_get_stats (q : mpool) : mpsc_stats :=
  mk_stats (messages_sent q) (messages_received q) (free_nodes q) (u32 (messages_sent q - messages_received q))
    (node_pool_size q) (max_pool_size q) (total_expansions q) (exhaustion_count q).

(** ** Chains of nodes *)

Fixpoint chain (nx : gmap (nat * nat) (nat * nat)) (h : option (nat * nat)) (l : list (nat * nat)) : Prop :=
  match l with [] => h = None | a :: r => h = Some a ∧ chain nx (nx !! a) r end.

Lemma pool_chain_ext nx nx' h l : (∀ a, a ∈ l → nx' !! a = nx !! a) → chain nx h l → chain nx' h l.
Proof.
  revert h. induction l as [ | a l IH]; intros h Hn; [done |]. intros [H1 H2]. split; [done |].
  rewrite Hn by (apply elem_of_cons; by left). apply IH; [ | done]. intros c Hc. apply Hn, elem_of_cons. by right.
Qed.

(** A node is linked behind the last one. *)
Lemma chain_snoc nx h l t n :
  chain nx h (l ++ [t]) → t ∉ l → n ∉ l → t ≠ n → chain (<[t := n]> (delete n nx)) h (l ++ [t; n]).
Proof.
  revert h. induction l as [ | a l IH]; intros h HC Ht Hn Hne; cbn in *.
  - destruct HC as [-> _]. split; [done |]. rewrite lookup_insert_eq. split; [done |].
    rewrite lookup_insert_ne by done. by rewrite lookup_delete_eq.
  - destruct HC as [-> HC]. apply not_elem_of_cons in Ht as [Hta Ht]. apply not_elem_of_cons in Hn as [Hna Hn].
    split; [done |]. rewrite lookup_insert_ne, lookup_delete_ne by done. by apply IH.
Qed.

Definition nodes (b : nat) (l : list nat) : list (nat * nat) := (λ i, (b, i)) <$> l.

Lemma elem_of_nodes b l b' i : (b', i) ∈ nodes b l ↔ b' = b ∧ i ∈ l.
Proof.
  unfold nodes. rewrite list_elem_of_fmap. split; [intros (j & [= -> ->] & ?); done | intros [-> ?]; by exists i].
Qed.

(** The initialisation loop: the nodes in order; other nodes are not touched. *)
Lemma link_nodes_spec b from c nx :
  let nx' := link_nodes b from (S c) nx in
  chain nx' (Some (b, from)) (nodes b (seq from (S c))) ∧ ∀ a, a ∉ nodes b (seq from (S c)) → nx' !! a = nx !! a.
Proof.
  revert from nx. induction c as [ | c IH]; intros from nx.
  - cbn. split; [by rewrite lookup_delete_eq |]. intros a Ha. apply lookup_delete_ne. intros <-. apply Ha. by left.
  - change (link_nodes b from (S (S c)) nx) with (link_nodes b (S from) (S c) (<[(b, from) := (b, S from)]> nx)).
    destruct (IH (S from) (<[(b, from) := (b, S from)]> nx)) as [I1 I2]. cbn zeta.
    assert (Hf : (b, from) ∉ nodes b (seq (S from) (S c))) by (rewrite elem_of_nodes, elem_of_seq; lia).
    split.
    + change (nodes b (seq from (S (S c)))) with ((b, from) :: nodes b (seq (S from) (S c))).
      split; [done |]. rewrite I2 by done. by rewrite lookup_insert_eq.
    + intros a Ha. change (nodes b (seq from (S (S c)))) with ((b, from) :: nodes b (seq (S from) (S c))) in Ha.
      apply not_elem_of_cons in Ha as [Ha1 Ha2]. rewrite I2 by done. by apply lookup_insert_ne.
Qed.

(** ** The specification: a bounded queue *)

(** The size of the block, the messages it has room for, and those waiting. *)
Record bounded := mk_bounded { b_size : Z; b_max : Z; b_cap : Z; b_list : list M }.

Inductive op := Send (m : M) | Recv | Expand (mem : bool) (new_size : Z).

Definition spec_step (s : bounded) (o : op) : (Z + option M) * bounded :=
  match o with
  | Send m => if zlen (b_list s) <? b_cap s then (inl 0, mk_bounded (b_size s) (b_max s) (b_cap s) (b_list s ++ [m])) else (inl (- 1), s)
  | Recv => match b_list s with [] => (inr None, s) | m :: r => (inr (Some m), mk_bounded (b_size s) (b_max s) (b_cap s) r) end
  | Expand mem n =>
      if (n <=? b_size s) || (b_max s <? n) then (inl (- 1), s)
      else if b_cap s - zlen (b_list s) <? b_size s / 2 then (inl (- 2), s)
      else if mem then (inl 0, mk_bounded n (b_max s) (n - b_size s) (b_list s)) else (inl (- 1), s)
  end.

Definition step (q : mpool) (o : op) : (Z + option M) * mpool :=
  match o with
  | Send m => let '(r, q') := send q m in (inl r, q')
  | Recv => let '(r, q') := recv q in (inr r, q')
  | Expand mem n => let '(r, q') := ws_mpsc_queue_expand_pool_safe mem q n in (inl r, q')
  end.

Fixpoint run {S} (f : S → op → (Z + option M) * S) (s : S) (ops : list op) : list (Z + option M) * S :=
  match ops with
  | [] => ([], s)
  | o :: r => let '(x, s1) := f s o in let '(l, s2) := run f s1 r in (x :: l, s2)
  end.

(** No growth succeeds while messages wait. *)
Fixpoint grows_when_empty (s : bounded) (ops : list op) : bool :=
  match ops with
  | [] => true
  | o :: r =>
      let '(x, s1) := spec_step s o in
      match o, x with
      | Expand _ _, inl 0 => match b_list s with [] => true | _ => false end
      | _, _ => true
      end && grows_when_empty s1 r
  end.

(** The pool [q] holds the queue [s]: free nodes [F], queued nodes [Q]. *)
Record holds (q : mpool) (s : bounded) (Q F : list nat) : Prop := mk_holds {
  h_free : chain (p_next q) (free_head q) (nodes (node_pool q) F);
  h_queue : chain (p_next q) (p_head q) (nodes (node_pool q) Q);
  h_tail : p_tail q = last (nodes (node_pool q) Q);
  h_nodup : NoDup (F ++ Q);
  h_data : Forall2 (λ i m, p_data q !! (node_pool q, i) = Some m) Q (b_list s);
  h_count : free_nodes q = zlen F;
  h_cap : b_cap s = zlen F + zlen Q;
  h_size : b_size s = node_pool_size q ∧ b_max s = max_pool_size q ∧ 0 < b_size s ∧ b_cap s <= b_size s;
  h_bad : dangling q = false
}.

Lemma holds_length q s Q F : holds q s Q F → zlen Q = zlen (b_list s).
Proof. intros H. unfold zlen. by rewrite (Forall2_length _ _ _ (h_data _ _ _ _ H)). Qed.

Lemma outside_pool q i : outside q (node_pool q, i) = false.
Proof. unfold outside. cbn. by rewrite Nat.eqb_refl. Qed.

Lemma pool_data_ext (b : nat) (d d' : gmap (nat * nat) M) Q ms :
  (∀ i : nat, i ∈ Q → d' !! (b, i) = d !! (b, i)) → Forall2 (λ i m, d !! (b, i) = Some m) Q ms → Forall2 (λ i m, d' !! (b, i) = Some m) Q ms.
Proof.
  intros Hd HF. induction HF as [ | i m Q ms Hi HF IH]; [done |]. constructor.
  - rewrite Hd; [done |]. by left.
  - apply IH. intros j Hj. apply Hd. by right.
Qed.

Lemma send_holds q s Q F m :
  holds q s Q F → ∃ Q' F', (step q (Send m)).1 = (spec_step s (Send m)).1 ∧ holds (step q (Send m)).2 (spec_step s (Send m)).2 Q' F'.
Proof.
  intros H. pose proof (holds_length _ _ _ _ H) as HL. destruct H as [H1 H2 H3 H4 H5 H6 H7 H8 H9].
  unfold step, send, ws_mpsc_queue_get_node, spec_step. rewrite <- HL.
  destruct F as [ | n F].
  - cbn in H1. rewrite H1. cbn. rewrite (proj2 (Z.ltb_ge _ _)) by (rewrite H7; change (zlen (@nil nat)) with 0; lia).
    exists Q, []. split; [done |]. by constructor.
  - cbn in H1. destruct H1 as [-> H1]. rewrite (proj2 (Z.ltb_lt _ _)) by (rewrite H7, zlen_cons; pose proof (zlen_nonneg F); lia).
    cbn [app] in H4. apply NoDup_cons in H4 as [Hn H4]. rewrite outside_pool, H9. cbn [orb].
    assert (HnF : (node_pool q, n) ∉ nodes (node_pool q) F) by (rewrite elem_of_nodes; intros [_ ?]; apply Hn; by apply elem_of_app; left).
    assert (HnQ : (node_pool q, n) ∉ nodes (node_pool q) Q) by (rewrite elem_of_nodes; intros [_ ?]; apply Hn; by apply elem_of_app; right).
    exists (Q ++ [n]), F. unfold ws_mpsc_queue_enqueue. cbn.
    assert (Hdata : Forall2 (λ i m0, (<[(node_pool q, n) := m]> (delete (node_pool q, n) (p_data q)) : gmap (nat * nat) M) !! (node_pool q, i) = Some m0) (Q ++ [n]) (b_list s ++ [m])).
    { apply Forall2_app; [ | constructor; [by rewrite lookup_insert_eq | done]]. apply (pool_data_ext _ (p_data q)); [ | exact H5].
      intros i Hi. rewrite lookup_insert_ne, lookup_delete_ne; [done | |]; intros [= ->]; apply Hn; by apply elem_of_app; right. }
    assert (HND : NoDup (F ++ Q ++ [n])).
    { rewrite app_assoc. apply NoDup_app. split; [done |]. split; [ | apply NoDup_singleton]. intros x Hx ->%list_elem_of_singleton. done. }
    destruct (decide (Q = [])) as [-> | HQ].
    + cbn in H3. rewrite H3. cbn. split; [done |]. unfold outside. cbn. rewrite Nat.eqb_refl. constructor; cbn; try done.
      * apply (pool_chain_ext (p_next q)); [ | done]. intros a Ha. rewrite !lookup_delete_ne; [done | |]; intros <-; done.
      * split; [done |]. by rewrite lookup_delete_eq.
      * rewrite H6, zlen_cons. lia.
      * rewrite H7, zlen_cons. change (zlen [n]) with 1. change (zlen (@nil nat)) with 0. lia.
    + destruct (exists_last HQ) as (Q0 & t & ->). unfold nodes in H3. rewrite fmap_app, last_app in H3. cbn in H3. rewrite H3. cbn.
      rewrite fmap_app in H2 || idtac. split; [done |]. unfold outside. cbn. rewrite Nat.eqb_refl.
      assert (Htn : t ≠ n) by (intros ->; apply Hn; rewrite !elem_of_app; right; right; by left).
      apply NoDup_app in H4 as (H4a & H4b & H4c). apply NoDup_app in H4c as (H4c & H4d & _).
      constructor; cbn; try done.
      * apply (pool_chain_ext (p_next q)); [ | done]. intros a Ha. rewrite lookup_insert_ne, !lookup_delete_ne; [done | | |]; intros <-; [done | done |].
        apply elem_of_nodes in Ha as [_ Ha]. apply (H4b t Ha). rewrite elem_of_app. right. by left.
      * rewrite <- app_assoc. unfold nodes. rewrite fmap_app. cbn. rewrite delete_delete_eq. apply chain_snoc.
        -- unfold nodes in H2. by rewrite fmap_app in H2.
        -- change ((node_pool q, t) ∉ nodes (node_pool q) Q0). rewrite elem_of_nodes. intros [_ Ht]. apply (H4d t Ht). by left.
        -- change ((node_pool q, n) ∉ nodes (node_pool q) Q0). rewrite elem_of_nodes. intros [_ Ht]. apply Hn. rewrite !elem_of_app. by right; left.
        -- by intros [= ->].
      * unfold nodes. rewrite fmap_app, last_app. done.
      * rewrite H6, zlen_cons. lia.
      * rewrite H7, zlen_cons, !zlen_app. change (zlen [n]) with 1. lia.
Qed.

(** The oldest message leaves; its node is not linked any more. *)
Lemma dequeue_holds q s Q F n m ms :
  holds q s (n :: Q) F → b_list s = m :: ms →
  ∃ q1, ws_mpsc_queue_dequeue q = (Some (node_pool q, n), q1) ∧ p_data q1 = p_data q ∧ node_pool q1 = node_pool q ∧
    p_next q1 = p_next q ∧ free_head q1 = free_head q ∧ free_nodes q1 = free_nodes q ∧ node_pool_size q1 = node_pool_size q ∧
    max_pool_size q1 = max_pool_size q ∧ dangling q1 = false ∧ p_data q !! (node_pool q, n) = Some m ∧
    chain (p_next q1) (p_head q1) (nodes (node_pool q) Q) ∧ p_tail q1 = last (nodes (node_pool q) Q).
Proof.
  intros [H1 H2 H3 H4 H5 H6 H7 H8 H9] Hm. rewrite Hm in H5. inversion H5 as [ | ? ? ? ? Hd _]; subst.
  cbn in H2. destruct H2 as [H2 HC]. unfold ws_mpsc_queue_dequeue. rewrite H2, outside_pool, H9. cbn [orb].
  destruct Q as [ | n' Q].
  - cbn in HC. rewrite HC. eexists. split; [done |]. by split_and!.
  - cbn in HC. destruct HC as [HC HC']. rewrite HC. eexists. split; [done |]. by split_and!.
Qed.

Lemma recv_holds q s Q F :
  holds q s Q F → ∃ Q' F', (step q Recv).1 = (spec_step s Recv).1 ∧ holds (step q Recv).2 (spec_step s Recv).2 Q' F'.
Proof.
  intros H. pose proof (holds_length _ _ _ _ H) as HL. unfold step, recv, spec_step.
  destruct (b_list s) as [ | m ms] eqn:EL.
  - assert (HQ : Q = []) by (apply zlen_0_nil; by rewrite HL). subst Q. exists [], F. unfold ws_mpsc_queue_dequeue.
    pose proof (h_queue _ _ _ _ H) as H2. cbn in H2. by rewrite H2.
  - destruct Q as [ | n Q]; [pose proof (zlen_nonneg ms); rewrite zlen_cons in HL; change (zlen (@nil nat)) with 0 in HL; lia |].
    destruct (dequeue_holds _ _ _ _ _ _ _ H EL) as (q1 & -> & D1 & D2 & D3 & D4 & D5 & D6 & D7 & D8 & D9 & D10 & D11).
    destruct H as [H1 H2 H3 H4 H5 H6 H7 H8 H9]. exists Q, (n :: F). split; [by rewrite D1, D9 |].
    assert (HnQ : (n ∉ F) ∧ (n ∉ Q) ∧ NoDup (F ++ Q)).
    { rewrite NoDup_app in H4. destruct H4 as (Ha & Hb & Hc). apply NoDup_cons in Hc as [Hc Hc']. split_and!; [ | done |].
      - intros Hx. apply (Hb n Hx). by left.
      - apply NoDup_app. split_and!; [done | | done]. intros x Hx Hx'. apply (Hb x Hx). by right. }
    destruct HnQ as (HnF & HnQ & HND). rewrite EL in H5. inversion H5 as [ | ? ? ? ? Hd HF]; subst.
    assert (HF' : (node_pool q, n) ∉ nodes (node_pool q) F) by (rewrite elem_of_nodes; tauto).
    assert (HQ' : (node_pool q, n) ∉ nodes (node_pool q) Q) by (rewrite elem_of_nodes; tauto).
    assert (Hlink : ∀ v a, a ≠ (node_pool q, n) → link (p_next q1) (node_pool q, n) v !! a = p_next q !! a).
    { intros v a Ha. unfold link. rewrite D3. destruct v; [by rewrite lookup_insert_ne | by rewrite lookup_delete_ne]. }
    assert (Hlink' : ∀ v, link (p_next q1) (node_pool q, n) v !! (node_pool q, n) = v).
    { intros v. unfold link. destruct v; [by rewrite lookup_insert_eq | by rewrite lookup_delete_eq]. }
    unfold ws_mpsc_queue_return_node. constructor; cbn -[link]; rewrite ?D2; try done.
    + rewrite Hlink', D4. split; [done |]. apply (pool_chain_ext (p_next q)); [ | done]. intros a Ha. apply Hlink. by intros ->.
    + rewrite D3 in D10. apply (pool_chain_ext (p_next q)); [ | done]. intros a Ha. apply Hlink. by intros ->.
    + apply NoDup_cons. split; [rewrite elem_of_app; tauto | done].
    + rewrite D1. apply (pool_data_ext _ (p_data q)); [ | done]. intros i Hi. apply lookup_delete_ne. intros [= ->]. done.
    + rewrite D5, H6, zlen_cons. lia.
    + rewrite H7, !zlen_cons. lia.
    + by rewrite D6, D7.
    + unfold outside. cbn. by rewrite D2, Nat.eqb_refl, D8.
Qed.

(** The copied nodes are at the indices of the old block, in the new one. *)
Lemma copied_block {A} (old b : nat) (f : gmap (nat * nat) A) (a : nat * nat) : a.1 ≠ b → copied old b f !! a = None.
Proof.
  intros Ha. unfold copied. apply not_elem_of_list_to_map. intros (kv & E & Hin)%list_elem_of_fmap.
  apply list_elem_of_omap in Hin as ([k v] & _ & Hkv). cbn in Hkv. destruct (k.1 =? old)%nat; [ | done].
  injection Hkv as <-. by rewrite E in Ha.
Qed.

Lemma expand_holds q s F mem n :
  holds q s [] F ∨ (spec_step s (Expand mem n)).1 ≠ inl 0 → (∃ Q0 F0, holds q s Q0 F0) →
  ∃ Q' F', (step q (Expand mem n)).1 = (spec_step s (Expand mem n)).1 ∧ holds (step q (Expand mem n)).2 (spec_step s (Expand mem n)).2 Q' F'.
Proof.
  intros HE (Q0 & F0 & H0). pose proof (holds_length _ _ _ _ H0) as HL0.
  destruct (h_size _ _ _ _ H0) as (S1 & S2 & S3 & S4). unfold step, ws_mpsc_queue_expand_pool_safe, expand_node_pool, spec_step in *.
  rewrite <- S1, <- S2, (h_count _ _ _ _ H0). assert (EC : b_cap s - zlen (b_list s) = zlen F0).
  { rewrite (h_cap _ _ _ _ H0), <- HL0. lia. }
  rewrite EC in *. destruct ((n <=? b_size s) || (b_max s <? n)) eqn:EG; [by exists Q0, F0 |].
  destruct (zlen F0 <? b_size s / 2); [by exists Q0, F0 |].
  destruct mem; cbn [negb]; [ | by exists Q0, F0]. destruct HE as [H | HE]; [ | done].
  pose proof (holds_length _ _ _ _ H) as HL. apply eq_sym, zlen_0_nil in HL. zbool.
  exists [], (seq (Z.to_nat (b_size s)) (Z.to_nat (n - b_size s))). split; [done |].
  assert (Hc : Z.to_nat (n - b_size s) = S (Z.to_nat (n - b_size s) - 1)) by lia.
  destruct H as [K1 K2 K3 K4 K5 K6 K7 K8 K9]. cbn in K2, K3.
  pose proof (link_nodes_spec (S (node_pool q)) (Z.to_nat (b_size s)) (Z.to_nat (n - b_size s) - 1) (copied (node_pool q) (S (node_pool q)) (p_next q))) as [HL1 _].
  rewrite <- Hc in HL1. constructor; cbn -[link_nodes]; try done.
  - rewrite app_nil_r. apply NoDup_seq.
  - by rewrite HL.
  - unfold zlen. rewrite length_seq. lia.
  - unfold zlen. rewrite length_seq. cbn. lia.
  - split_and!; [done | done | lia | lia].
Qed.

Lemma step_holds q s Q F o :
  holds q s Q F → grows_when_empty s [o] = true →
  ∃ Q' F', (step q o).1 = (spec_step s o).1 ∧ holds (step q o).2 (spec_step s o).2 Q' F'.
Proof.
  intros H Hg. destruct o as [m | | mem n]; [by eapply send_holds | by eapply recv_holds |].
  apply (expand_holds q s F); [ | by exists Q, F]. cbn [grows_when_empty] in Hg.
  destruct (spec_step s (Expand mem n)) as [[[ | | ] | x] s1]; try (right; done). cbn in Hg. left.
  pose proof (holds_length _ _ _ _ H) as HL. destruct (b_list s); [ | done]. by apply zlen_0_nil in HL as ->.
Qed.

Lemma run_holds q s Q F ops :
  holds q s Q F → grows_when_empty s ops = true →
  ∃ Q' F', (run step q ops).1 = (run spec_step s ops).1 ∧ holds (run step q ops).2 (run spec_step s ops).2 Q' F'.
Proof.
  revert q s Q F. induction ops as [ | o ops IH]; intros q s Q F H Hg; [by exists Q, F |].
  assert (Hg1 : grows_when_empty s [o] = true ∧ grows_when_empty (spec_step s o).2 ops = true).
  { cbn [grows_when_empty] in Hg |- *. destruct (spec_step s o) as [x s1]. apply andb_true_iff in Hg as [-> ?]. done. }
  destruct Hg1 as [Hg1 Hg2]. destruct (step_holds q s Q F o H Hg1) as (Q1 & F1 & E1 & H1).
  cbn [run]. destruct (step q o) as [x q1]. destruct (spec_step s o) as [y s1]. cbn in E1, H1, Hg2. subst y.
  destruct (IH q1 s1 Q1 F1 H1 Hg2) as (Q' & F' & E & H'). exists Q', F'.
  destruct (run step q1 ops), (run spec_step s1 ops). cbn in *. by subst.
Qed.

(** ** Creation and destruction *)

Lemma create_holds mem size q :
  ws_mpsc_queue_create mem size = Some q → 0 <= size →
  ∃ F, holds q (mk_bounded (node_pool_size q) (max_pool_size q) (node_pool_size q) []) [] F.
Proof.
  unfold ws_mpsc_queue_create. cbn zeta. intros H Hs. destruct mem as [[] []]; try done. cbn in H. apply Some_inj in H as <-. cbn.
  set (n := if size =? 0 then _ else size).
  assert (Hn : 0 < n) by (subst n; unfold WS_MPSC_DEFAULT_NODE_POOL_SIZE; destruct (size =? 0) eqn:E; zbool; lia).
  assert (Hc : Z.to_nat n = S (Z.to_nat n - 1)) by lia. pose proof (link_nodes_spec 0 0 (Z.to_nat n - 1) ∅) as [HL _]. rewrite <- Hc in HL.
  exists (seq 0 (Z.to_nat n)). constructor; cbn -[link_nodes]; try done.
  - rewrite app_nil_r. apply NoDup_seq.
  - unfold zlen. rewrite length_seq. lia.
  - unfold zlen. rewrite length_seq. cbn. lia.
Qed.

Lemma resize_holds q s Q F i m g :
  holds q s Q F → holds (with_sizes q i m g) (mk_bounded (b_size s) m (b_cap s) (b_list s)) Q F.
Proof. intros []. constructor; try done. tauto. Qed.

(** The queued data is freed, in order, and no other. *)
Lemma drain_data_spec fuel q s Q F :
  holds q s Q F → (length Q < fuel)%nat → (drain_data fuel q).1 = b_list s ∧ dangling (drain_data fuel q).2 = false.
Proof.
  revert q s Q F. induction fuel as [ | fuel IH]; intros q s Q F H Hf; [lia |]. cbn [drain_data].
  pose proof (holds_length _ _ _ _ H) as HL. destruct Q as [ | n Q].
  - assert (EL : b_list s = []) by (apply zlen_0_nil; by rewrite <- HL). pose proof (h_queue _ _ _ _ H) as H2. cbn in H2.
    unfold ws_mpsc_queue_dequeue. rewrite H2. cbn. rewrite EL. split; [done | apply H].
  - destruct (b_list s) as [ | m ms] eqn:EL; [pose proof (zlen_nonneg Q); rewrite zlen_cons in HL; change (zlen (@nil M)) with 0 in HL; lia |].
    destruct (dequeue_holds _ _ _ _ _ _ _ H EL) as (q1 & -> & D1 & D2 & D3 & D4 & D5 & D6 & D7 & D8 & D9 & D10 & D11).
    rewrite D1, D9. destruct H as [H1 H2 H3 H4 H5 H6 H7 H8 H9]. rewrite NoDup_app in H4. destruct H4 as (Ha & Hb & Hc).
    apply NoDup_cons in Hc as [Hc Hc']. rewrite EL in H5. inversion H5 as [ | ? ? ? ? Hd HF]; subst.
    specialize (IH (with_free q1 (free_head q1) (free_nodes q1) (p_next q1) (delete (node_pool q, n) (p_data q)) (dangling q1))
      (mk_bounded (b_size s) (b_max s) (zlen F + zlen Q) ms) Q F).
    destruct IH as [I1 I2].
    + constructor; cbn; rewrite ?D2; try done.
      * by rewrite D3, D4.
      * apply NoDup_app. split_and!; [done | | done]. intros x Hx Hx'. apply (Hb x Hx). by right.
      * apply (pool_data_ext _ (p_data q)); [ | done]. intros i Hi. apply lookup_delete_ne. by intros [= ->].
      * by rewrite D5.
      * rewrite D6, D7. rewrite zlen_cons in H7. pose proof (zlen_nonneg F). split_and!; [tauto | tauto | tauto | lia].
    + cbn in Hf. lia.
    + rewrite D1 in I1, I2 || idtac. destruct (drain_data fuel _) as [l q3]. cbn in *. by subst.
Qed.

(** C19. A created queue is a bounded first-in first-out queue, and stays one: whatever is
    sent and taken, and however often the pool grows while no message waits, each operation
    answers as the specification does; no node of a freed block is ever touched; and
    destroying the queue at any point frees exactly the messages still waiting.  Growth is
    not what its size says: the old free nodes are lost, so a pool that grew from [a] to [b]
    nodes has room for [b - a] messages. *)
Theorem pool_refines_bounded mem size q ops :
  ws_mpsc_queue_create mem size = Some q → 0 <= size →
  let s := mk_bounded (node_pool_size q) (max_pool_size q) (node_pool_size q) [] in
  grows_when_empty s ops = true →
  (run step q ops).1 = (run spec_step s ops).1 ∧ dangling (run step q ops).2 = false ∧
  (ws_mpsc_queue_destroy (run step q ops).2).1 = b_list (run spec_step s ops).2 ∧
  dangling (ws_mpsc_queue_destroy (run step q ops).2).2 = false.
Proof.
  intros Hq Hs s Hg. destruct (create_holds mem size q Hq Hs) as (F & H).
  destruct (run_holds q s [] F ops H Hg) as (Q' & F' & E & H'). split; [done |]. split; [apply H' |].
  unfold ws_mpsc_queue_destroy. apply (drain_data_spec _ _ _ Q' F' H'). destruct (h_size _ _ _ _ H') as (S1 & _ & _ & S4).
  pose proof (h_cap _ _ _ _ H'). rewrite <- S1. unfold zlen in *. lia.
Qed.

(** The adaptive creation asks for four times the size, within the maximum, as long as the
    multiplication does not wrap. *)
Lemma adaptive_bounds initial_size max_size growth :
  0 < initial_size < 2 ^ 30 → initial_size <= max_size →
  (adaptive_sizes initial_size max_size growth).1.1.1 = Z.min (4 * initial_size) max_size.
Proof.
  intros Hi Hm. unfold adaptive_sizes. cbn zeta. rewrite (proj2 (Z.eqb_neq initial_size 0)) by lia.
  rewrite (proj2 (Z.eqb_neq max_size 0)), (proj2 (Z.ltb_ge max_size initial_size)) by lia. cbn [orb fst].
  rewrite u32_small by lia. split_if; zbool; lia.
Qed.
End Pool.

Arguments mpool : clear implicits.
Arguments bounded : clear implicits.
Arguments op : clear implicits.

(** ** Concrete pools *)

Definition demo_pool : option (mpool nat) := ws_mpsc_queue_create (true, true) 4.

(** Four nodes, grown to six while empty: room for two. *)
Definition demo_ops : list (op nat) := [Send 1%nat; Recv; Expand true 6; Send 2%nat; Send 3%nat; Send 4%nat; Recv].

Lemma pool_refines_bounded_witness :
  ∃ q, demo_pool = Some q ∧ (run step q demo_ops).1 = [inl 0; inr (Some 1%nat); inl 0; inl 0; inl 0; inl (-1); inr (Some 2%nat)] ∧
  dangling (run step q demo_ops).2 = false.
Proof.
  destruct demo_pool as [q | ] eqn:E; [ | discriminate E]. exists q. split; [done |].
  assert (Hg : grows_when_empty (mk_bounded (node_pool_size q) (max_pool_size q) (node_pool_size q) []) demo_ops = true)
    by (apply Some_inj in E as <-; vm_compute; reflexivity).
  destruct (pool_refines_bounded (true, true) 4 q demo_ops E ltac:(lia) Hg) as (H1 & H2 & _).
  split; [rewrite H1; apply Some_inj in E as <-; vm_compute; reflexivity | exact H2].
Defined.

(** Growth with a message waiting is accepted while half of the nodes are free: the block
    is freed under the message, and taking it touches freed memory. *)
Example growth_dangles :
  match demo_pool with
  | Some q => let '(l, q') := run step q [Send 1%nat; Expand true 6; Recv] in (last l, dangling q')
  | None => (None, false)
  end = (Some (inr None), true).
Proof. by vm_compute. Qed.

(** A size whose multiple wraps: 2^30 nodes asked for, 1024 given. *)
Example adaptive_wraps : (adaptive_sizes (2 ^ 30) (2 ^ 31) 2).1.1.1 = 0 ∧
  (adaptive_sizes (2 ^ 30 + 1) (2 ^ 31) 2).1.1.1 = 4.
Proof. by vm_compute. Qed.

(** What an event thread asks for. *)
Example event_thread_pool : adaptive_sizes 4096 131072 2 = (16384, 4096, 131072, 2).
Proof. by vm_compute. Qed.
