(* ===== verification/Atomics.v ===== *)
(** * Lock-free stack and counters (src/src/ws/ws_utils.c)

    [ws_atomic_stack_t], a stack of indices linked through an array, and
    [ws_perf_counters_t].  Both are compare-and-swap loops, so they are step relations: one
    step is one atomic operation or one access to the array, of any thread.  A weak
    compare-and-swap may fail though the values agree. *)
From Stdlib Require Import ZArith Lia.
From stdpp Require Import base numbers list gmap sorting.
From S2P Require Import Prelude.
Open Scope nat_scope.

(** ** The stack *)

(** A thread in [ws_atomic_stack_push] of [v]: before it writes [data[v]], and before its
    compare-and-swap; [h] is the head it read ([None] is UINTPTR_MAX). *)
Inductive pusher := PWrite (v : nat) (h : option nat) | PCas (v : nat) (h : option nat).
Definition pushes (p : pusher) : nat := match p with PWrite v _ | PCas v _ => v end.

(** The thread in [ws_atomic_stack_pop]: not in it, with the head it read, and before its
    compare-and-swap with the next index it read. *)
Inductive popper := CIdle | CHead (h : option nat) | CCas (h : nat) (next : option nat).

(** [owned]: the indices outside the stack that no push is under way for. *)
Record stack := mk_stack {
  head : option nat; data : gmap nat (option nat); capacity : nat;
  pushing : list pusher; popping : popper; owned : list nat
}.

(** [ws_atomic_stack_init]: all indices, 0 on top; [None] for capacity 0 or no memory. *)
Definition ws_atomic_stack_init (mem : bool) (cap : nat) : option stack :=
  if (cap =? 0)%nat then None
  else if negb mem then None
  else Some (mk_stack (Some 0) (list_to_map ((λ i, (i, if (i + 1 <? cap)%nat then Some (i + 1) else None)) <$> seq 0 cap)) cap [] CIdle []).

(** [ws_atomic_stack_destroy] once every call has returned: no indices, no room. *)
Definition ws_atomic_stack_destroy (s : stack) : stack := mk_stack None ∅ 0 (pushing s) (popping s) (owned s).

(** The guard of [ws_atomic_stack_push]. *)
Definition push_guard (s : stack) (v : nat) : bool := (v <? capacity s)%nat.

Inductive step (s : stack) : stack → Prop :=
| s_push v l1 l2 :                               (* a push begins: the head is read *)
    owned s = l1 ++ v :: l2 → push_guard s v = true →
    step s (mk_stack (head s) (data s) (capacity s) (PWrite v (head s) :: pushing s) (popping s) (l1 ++ l2))
| s_write v h l1 l2 :
    pushing s = l1 ++ PWrite v h :: l2 →
    step s (mk_stack (head s) (<[v := h]> (data s)) (capacity s) (l1 ++ PCas v h :: l2) (popping s) (owned s))
| s_cas v h l1 l2 :
    pushing s = l1 ++ PCas v h :: l2 → head s = h →
    step s (mk_stack (Some v) (data s) (capacity s) (l1 ++ l2) (popping s) (owned s))
| s_retry v h l1 l2 :
    pushing s = l1 ++ PCas v h :: l2 →
    step s (mk_stack (head s) (data s) (capacity s) (l1 ++ PWrite v (head s) :: l2) (popping s) (owned s))
| s_pop : popping s = CIdle →
    step s (mk_stack (head s) (data s) (capacity s) (pushing s) (CHead (head s)) (owned s))
| s_empty : popping s = CHead None →             (* the pop returns false *)
    step s (mk_stack (head s) (data s) (capacity s) (pushing s) CIdle (owned s))
| s_next h n : popping s = CHead (Some h) → data s !! h = Some n →
    step s (mk_stack (head s) (data s) (capacity s) (pushing s) (CCas h n) (owned s))
| s_take h n : popping s = CCas h n → head s = Some h →   (* the pop returns [h] *)
    step s (mk_stack n (data s) (capacity s) (pushing s) CIdle (h :: owned s))
| s_again h n : popping s = CCas h n →
    step s (mk_stack (head s) (data s) (capacity s) (pushing s) (CHead (head s)) (owned s)).

(** The stack's contents from the head down. *)
Fixpoint links (d : gmap nat (option nat)) (h : option nat) (l : list nat) : Prop :=
  match l with [] => h = None | a :: r => h = Some a ∧ ∃ n, d !! a = Some n ∧ links d n r end.

Lemma links_insert d h l v x : v ∉ l → links d h l → links (<[v := x]> d) h l.
Proof.
  revert h. induction l as [ | a l IH]; intros h Hv; [done |]. apply not_elem_of_cons in Hv as [Ha Hv].
  intros (-> & n & Hn & HL). split; [done |]. exists n. rewrite lookup_insert_ne by done. split; [done | by apply IH].
Qed.

Lemma links_lookup d h l a : links d h l → a ∈ l → is_Some (d !! a).
Proof.
  revert h. induction l as [ | b l IH]; intros h; [by intros _ ?%elem_of_nil |]. intros (_ & n & Hn & HL) [-> | Ha]%elem_of_cons; [by exists n | by eapply IH].
Qed.

(** Every index is in the stack, being pushed, or owned; what the popper has read of the
    entry it will take is current, because no one else takes entries. *)
Record inv (s : stack) (l : list nat) : Prop := mk_inv {
  i_links : links (data s) (head s) l;
  i_perm : Permutation (l ++ (pushes <$> pushing s) ++ owned s) (seq 0 (capacity s));
  i_data : ∀ p v h, p ∈ pushing s → p = PCas v h → data s !! v = Some h;
  i_pop : match popping s with
          | CIdle | CHead None => True
          | CHead (Some h) => h ∈ l
          | CCas h n => h ∈ l ∧ data s !! h = Some n
          end
}.

Lemma inv_nodup s l : inv s l → NoDup (l ++ (pushes <$> pushing s) ++ owned s).
Proof. intros H. rewrite (i_perm _ _ H). apply NoDup_seq. Qed.

Lemma head_in d h l : links d (Some h) l → h ∈ l.
Proof. destruct l as [ | a l]; cbn; [done |]. intros [[= ->] _]. by left. Qed.

Lemma stack_init_inv mem cap s : ws_atomic_stack_init mem cap = Some s → inv s (seq 0 cap).
Proof.
  unfold ws_atomic_stack_init. destruct (Nat.eqb_spec cap 0) as [ | Hc]; [done |]. destruct mem; [ | done]. intros [= <-].
  constructor; cbn; [ | by rewrite app_nil_r | by intros ? ? ? ?%elem_of_nil | done].
  assert (HD : ∀ i, (i < cap)%nat → (list_to_map ((λ i, (i, if (i + 1 <? cap)%nat then Some (i + 1)%nat else None)) <$> seq 0 cap) : gmap nat (option nat)) !! i
    = Some (if (i + 1 <? cap)%nat then Some (i + 1)%nat else None)).
  { intros i Hi. apply elem_of_list_to_map_1.
    - rewrite <- list_fmap_compose. unfold compose. cbn. rewrite list_fmap_id. apply NoDup_seq.
    - apply list_elem_of_fmap. exists i. split; [done |]. apply elem_of_seq. lia. }
  assert (HL : ∀ n i, (i + n = cap)%nat → (0 < n)%nat → links (list_to_map ((λ i, (i, if (i + 1 <? cap)%nat then Some (i + 1)%nat else None)) <$> seq 0 cap)) (Some i) (seq i n)).
  { induction n as [ | n IH]; intros i Hi Hn; [lia |]. cbn. split; [done |]. eexists. split; [apply HD; lia |].
    destruct (Nat.ltb_spec (i + 1) cap); [replace (i + 1)%nat with (S i) by lia; apply IH; lia |]. destruct n; [done | lia]. }
  apply HL; lia.
Qed.

Lemma pushing_apart s l p l1 l2 :
  inv s l → pushing s = l1 ++ p :: l2 → (pushes p ∉ l) ∧ ∀ q, q ∈ l1 ++ l2 → pushes q ≠ pushes p.
Proof.
  intros Hi Hp. pose proof (inv_nodup _ _ Hi) as HN. rewrite Hp, fmap_app, fmap_cons in HN. apply NoDup_app in HN as (_ & H1 & H2).
  apply NoDup_app in H2 as (H2 & _ & _). apply NoDup_app in H2 as (_ & H3 & H4). apply NoDup_cons in H4 as [H4 _]. split.
  - intros Hl. apply (H1 _ Hl). rewrite !elem_of_app. left. right. by left.
  - intros q [Hq | Hq]%elem_of_app Heq.
    + apply (H3 (pushes q)); [by apply list_elem_of_fmap_2 | rewrite Heq; by left].
    + apply H4. rewrite <- Heq. by apply list_elem_of_fmap_2.
Qed.

(** The multiset of indices when a push moves on. *)
Lemma pushing_perm (l : list nat) l1 l2 p p' (o : list nat) :
  pushes p = pushes p' → Permutation (l ++ (pushes <$> (l1 ++ p' :: l2)) ++ o) (l ++ (pushes <$> (l1 ++ p :: l2)) ++ o).
Proof. intros E. by rewrite !fmap_app, !fmap_cons, E. Qed.

Lemma stack_step_inv s s' l :
  inv s l → step s s' →
  ∃ l', inv s' l' ∧ (l' = l ∨ (∃ v, l' = v :: l) ∨ ∃ h, l = h :: l' ∧ owned s' = h :: owned s).
Proof.
  intros Hi Hs. destruct Hi as [HL HP HD HC] eqn:EH. pose proof (mk_inv _ _ HL HP HD HC) as Hi0. clear EH.
  destruct Hs as [v l1 l2 Ho Hg | v h l1 l2 Hp | v h l1 l2 Hp Hh | v h l1 l2 Hp | Hc | Hc | h n Hc Hn | h n Hc Hh | h n Hc].
  - exists l. split; [ | by left]. constructor; cbn; [done | | | done].
    + rewrite <- HP, Ho. apply Permutation_app_head. rewrite !Permutation_middle. by rewrite <- !Permutation_middle.
    + intros p w g [-> | Hin]%elem_of_cons E; [done | by eapply HD].
  - destruct (pushing_apart _ _ _ _ _ Hi0 Hp) as [Hv Hq]. cbn [pushes] in Hv, Hq. exists l. split; [ | by left]. constructor; cbn.
    + by apply links_insert.
    + rewrite <- HP, Hp. by apply pushing_perm.
    + intros p w g Hin E. apply elem_of_app in Hin. rewrite elem_of_cons in Hin.
      assert (HE : p = PCas v h ∨ p ∈ l1 ++ l2) by (rewrite elem_of_app; tauto). destruct HE as [-> | Hin'].
      * injection E as <- <-. by rewrite lookup_insert_eq.
      * rewrite lookup_insert_ne; [ | specialize (Hq p Hin'); subst p; cbn in Hq; congruence].
        apply (HD p); [ | done]. rewrite Hp, elem_of_app, elem_of_cons. rewrite elem_of_app in Hin'. tauto.
    + destruct (popping s) as [ | [h0 | ] | h0 n0]; try done. destruct HC as [H1 H2]. split; [done |]. rewrite lookup_insert_ne; [done |]. by intros ->.
  - destruct (pushing_apart _ _ _ _ _ Hi0 Hp) as [Hv Hq]. exists (v :: l). split; [ | right; left; by exists v]. constructor; cbn.
    + split; [done |]. exists h. split; [ | by subst h]. apply (HD (PCas v h)); [ | done]. rewrite Hp, elem_of_app, elem_of_cons. tauto.
    + rewrite <- HP, Hp, !fmap_app, fmap_cons. cbn [pushes]. rewrite <- !app_assoc. cbn. by rewrite !Permutation_middle.
    + intros p w g Hin E. apply (HD p); [ | done]. rewrite Hp. rewrite elem_of_app in *. rewrite elem_of_cons. tauto.
    + destruct (popping s) as [ | [h0 | ] | h0 n0]; try done; rewrite elem_of_cons; tauto.
  - exists l. split; [ | by left]. constructor; cbn; [done | | | done].
    + rewrite <- HP, Hp. by apply pushing_perm.
    + intros p w g Hin E. apply (HD p); [ | done]. rewrite Hp. rewrite elem_of_app, elem_of_cons in *. destruct Hin as [ | [-> | ]]; [tauto | done | tauto].
  - exists l. split; [ | by left]. constructor; cbn; [done | done | done |]. destruct (head s) as [h | ] eqn:Eh; [ | done]. by eapply head_in.
  - exists l. split; [ | by left]. by constructor.
  - exists l. split; [ | by left]. rewrite Hc in HC. constructor; cbn; [done | done | done | by split].
  - rewrite Hc in HC. destruct HC as [HC1 HC2]. rewrite Hh in HL. destruct l as [ | a l]; [done |]. destruct HL as ([= <-] & n' & Hn' & HL).
    assert (n' = n) as -> by congruence. exists l. split; [ | right; right; by exists h]. constructor; cbn; [done | | done | done].
    rewrite <- HP. cbn. by rewrite !app_assoc, <- Permutation_middle.
  - exists l. split; [ | by left]. constructor; cbn; [done | done | done |]. destruct (head s) as [h0 | ] eqn:Eh; [ | done]. by eapply head_in.
Qed.
(** With any number of threads pushing and one popping, the lock-free stack is a stack
    and never hands an index out twice: in every reachable state the entries linked from
    the head, the indices being pushed and the ones handed out are each of [0 .. cap - 1]
    once; and every step leaves the contents alone, puts an index that was being pushed on
    top, or takes the top, which becomes the popper's. *)
Theorem atomic_stack_refines mem cap s0 s :
  ws_atomic_stack_init mem cap = Some s0 → reach step s0 s →
  ∃ l, links (data s) (head s) l ∧ Permutation (l ++ (pushes <$> pushing s) ++ owned s) (seq 0 cap) ∧
    ∀ s', step s s' → ∃ l', links (data s') (head s') l' ∧
      (l' = l ∨ (∃ v, l' = v :: l) ∨ ∃ h, l = h :: l' ∧ owned s' = h :: owned s).
Proof.
  intros H0 Hr. assert (HI : (∃ l, inv s l) ∧ capacity s = cap).
  { apply (reach_invariant step (λ s, (∃ l, inv s l) ∧ capacity s = cap) s0 s); [ | | done].
    - split; [exists (seq 0 cap); by eapply stack_init_inv |]. revert H0. unfold ws_atomic_stack_init.
      destruct (cap =? 0); [done |]. destruct mem; [ | done]. by intros [= <-].
    - intros a b [[l Hi] Hc] Hs. destruct (stack_step_inv _ _ _ Hi Hs) as (l' & Hi' & _). split; [by exists l' |]. rewrite <- Hc. by destruct Hs. }
  destruct HI as [[l Hi] <-]. exists l. split; [apply Hi |]. split; [apply Hi |].
  intros s' Hs. destruct (stack_step_inv _ _ _ Hi Hs) as (l' & Hi' & HC). exists l'. split; [apply Hi' | exact HC].
Qed.

(** Two indices; the popper takes 0 while nothing else runs. *)
Lemma atomic_stack_refines_witness :
  match ws_atomic_stack_init true 2 with
  | Some s0 => ∃ l, links (data s0) (Some 1) l ∧ Permutation (l ++ [0]) (seq 0 2)
  | None => False
  end.
Proof.
  destruct (ws_atomic_stack_init true 2) as [s0 | ] eqn:E; [ | discriminate E].
  assert (Es : Some s0 = ws_atomic_stack_init true 2) by done. vm_compute in Es. injection Es as ->.
  set (s0 := mk_stack _ _ _ _ _ _) in *.
  assert (R : reach step s0 (mk_stack (Some 1) (data s0) 2 [] CIdle [0])).
  { apply (reach_step step _ (mk_stack (Some 0) (data s0) 2 [] (CCas 0 (Some 1)) [])); [ | by apply (s_take (mk_stack (Some 0) (data s0) 2 [] (CCas 0 (Some 1)) []) 0 (Some 1))].
    apply (reach_step step _ (mk_stack (Some 0) (data s0) 2 [] (CHead (Some 0)) [])); [ | by apply (s_next (mk_stack (Some 0) (data s0) 2 [] (CHead (Some 0)) []) 0 (Some 1))].
    apply (reach_step step _ s0); [apply reach_refl | by apply (s_pop s0)]. }
  destruct (atomic_stack_refines true 2 s0 _ E R) as (l & H1 & H2 & _). by exists l.
Defined.
(** ** Counters *)

(** A thread in [ws_perf_counters_increment_active] with its [new_peak]: before it loads
    the peak, and in the loop with the [current_peak] it knows. *)
Inductive incr := ILoad (n : nat) | ILoop (n p : nat).
Definition wants (i : incr) : nat := match i with ILoad n | ILoop n _ => n end.

(** [ws_perf_counters_t]; [most] is the highest value [active_count] has had.  The counts
    stay below 2^32, and a decrement follows its increment. *)
Record counters := mk_counters { operations : N; bytes_processed : N; active_count : nat; peak_count : nat; incrs : list incr; most : nat }.

Definition ws_perf_counters_init : counters := mk_counters 0 0 0 0 [] 0.

Inductive pstep (c : counters) : counters → Prop :=
| p_ops : pstep c (mk_counters ((operations c + 1) mod 2 ^ 64)%N (bytes_processed c) (active_count c) (peak_count c) (incrs c) (most c))
| p_bytes b : pstep c (mk_counters (operations c) ((bytes_processed c + b) mod 2 ^ 64)%N (active_count c) (peak_count c) (incrs c) (most c))
| p_incr :
    pstep c (mk_counters (operations c) (bytes_processed c) (S (active_count c)) (peak_count c) (ILoad (S (active_count c)) :: incrs c) (most c `max` S (active_count c)))
| p_load n l1 l2 : incrs c = l1 ++ ILoad n :: l2 →
    pstep c (mk_counters (operations c) (bytes_processed c) (active_count c) (peak_count c) (l1 ++ ILoop n (peak_count c) :: l2) (most c))
| p_done n p l1 l2 : incrs c = l1 ++ ILoop n p :: l2 → n <= p →
    pstep c (mk_counters (operations c) (bytes_processed c) (active_count c) (peak_count c) (l1 ++ l2) (most c))
| p_cas n p l1 l2 : incrs c = l1 ++ ILoop n p :: l2 → p < n → peak_count c = p →
    pstep c (mk_counters (operations c) (bytes_processed c) (active_count c) n (l1 ++ l2) (most c))
| p_retry n p l1 l2 : incrs c = l1 ++ ILoop n p :: l2 → p < n →
    pstep c (mk_counters (operations c) (bytes_processed c) (active_count c) (peak_count c) (l1 ++ ILoop n (peak_count c) :: l2) (most c))
| p_decr k : active_count c = S k →
    pstep c (mk_counters (operations c) (bytes_processed c) k (peak_count c) (incrs c) (most c)).

(** What is known of a thread in an increment, with the highest count and the peak. *)
Definition known (most peak : nat) (i : incr) : Prop := wants i <= most ∧ match i with ILoad _ => True | ILoop _ p => p <= peak end.

Lemma known_mono m m' k k' i : m <= m' → k <= k' → known m k i → known m' k' i.
Proof. intros Hm Hk [H1 H2]. split; [lia |]. destruct i; [done | lia]. Qed.

(** The highest count is recorded, or a thread is about to record it. *)
Record pinv (c : counters) : Prop := mk_pinv {
  pi_peak : peak_count c <= most c;
  pi_active : active_count c <= most c;
  pi_most : most c = peak_count c ∨ Exists (λ i, wants i = most c) (incrs c);
  pi_known : Forall (known (most c) (peak_count c)) (incrs c)
}.

(** Two properties of the threads, when one of them moves on or leaves. *)
Lemma exists_move {A} (P : A → Prop) l1 l2 x y : (P x → P y) → Exists P (l1 ++ x :: l2) → Exists P (l1 ++ y :: l2).
Proof. rewrite !Exists_app, !Exists_cons. tauto. Qed.
Lemma exists_leave {A} (P : A → Prop) l1 l2 x : Exists P (l1 ++ x :: l2) → P x ∨ Exists P (l1 ++ l2).
Proof. rewrite !Exists_app, !Exists_cons. tauto. Qed.
Lemma forall_move {A} (P Q : A → Prop) l1 l2 x y :
  (∀ z, P z → Q z) → (P x → Q y) → Forall P (l1 ++ x :: l2) → Forall Q (l1 ++ y :: l2) ∧ Forall Q (l1 ++ l2) ∧ P x.
Proof.
  intros HI Hx. rewrite !Forall_app, !Forall_cons. intros (F1 & Fx & F2).
  assert (Forall Q l1 ∧ Forall Q l2) as [G1 G2] by (split; by eapply Forall_impl). tauto.
Qed.

Lemma perf_step_inv c c' : pinv c → pstep c c' → pinv c'.
Proof.
  intros [H1 H2 H3 H4] Hs.
  destruct Hs as [ | b | | n l1 l2 Hi | n p l1 l2 Hi Hp | n p l1 l2 Hi Hp He | n p l1 l2 Hi Hp | k Ha]; try rewrite Hi in H3, H4;
    [by constructor | by constructor | ..].
  - constructor; cbn; [lia | lia | |].
    + destruct (decide (most c <= S (active_count c))); [right; left; cbn; lia |].
      rewrite Nat.max_l by lia. destruct H3; [by left | right; by right].
    + constructor; [split; cbn; [lia | done] |]. eapply Forall_impl; [exact H4 |]. intros i. apply known_mono; lia.
  - apply (forall_move _ (known (most c) (peak_count c)) l1 l2 (ILoad n) (ILoop n (peak_count c))) in H4 as (F & _ & _); [ | done | intros [? _]; by split].
    constructor; cbn; [done | done | | done]. destruct H3 as [ | H3]; [by left | right; revert H3; by apply exists_move].
  - apply (forall_move _ (known (most c) (peak_count c)) l1 l2 (ILoop n p) (ILoop n p)) in H4 as (_ & F & [_ Fx]); [ | done | done].
    constructor; cbn; [done | done | | done]. destruct H3 as [ | H3]; [by left |]. apply exists_leave in H3 as [H3 | H3]; [left; cbn in *; lia | by right].
  - apply (forall_move _ (known (most c) n) l1 l2 (ILoop n p) (ILoop n p)) in H4 as (_ & F & [Fx _]);
      [ | intros z; apply known_mono; lia | apply known_mono; lia].
    constructor; cbn in *; [done | done | | done]. destruct H3 as [ | H3]; [lia |]. apply exists_leave in H3 as [H3 | H3]; [left; cbn in H3; lia | by right].
  - apply (forall_move _ (known (most c) (peak_count c)) l1 l2 (ILoop n p) (ILoop n (peak_count c))) in H4 as (F & _ & _); [ | done | intros [? _]; by split].
    constructor; cbn; [done | done | | done]. destruct H3 as [ | H3]; [by left | right; revert H3; by apply exists_move].
  - constructor; cbn; [done | lia | done | done].
Qed.

(** Whenever no increment is under way the peak is the highest count there has been,
    whatever the interleaving; and it never exceeds it in between. *)
Theorem peak_is_maximum c : reach pstep ws_perf_counters_init c → peak_count c <= most c ∧ (incrs c = [] → peak_count c = most c).
Proof.
  intros Hr. assert (HI : pinv c).
  { apply (reach_invariant pstep pinv ws_perf_counters_init c); [ | apply perf_step_inv | done].
    constructor; cbn; [done | done | by left | by constructor]. }
  split; [apply HI |]. intros E. destruct (pi_most _ HI) as [-> | HE]; [done |]. rewrite E in HE. by apply Exists_nil in HE.
Qed.
