(* ===== verification/Aio.v ===== *)
(** * Asynchronous file reads (src/src/aio/aio.c, aio_threadpool.c, aio_blocking.c)

    The completion queue with its coalesced eventfd wakeup, the thread pool that runs the
    reads, and the drain on the event thread, at the granularity of their shared-memory
    operations: the critical sections of the two mutexes, the exchange and the store of
    [notified], the reads and the writes of the eventfd are one step each, and all threads
    interleave freely.  Memory is sequentially consistent.

    The eventfd is registered edge-triggered: the event loop is told of it when a write
    happened since it was last told and the counter is not zero. *)
From Stdlib Require Import ZArith Lia.
From stdpp Require Import base numbers list sorting.
From S2P Require Import Prelude.
Open Scope Z_scope.

Definition EINVAL : Z := 22.
Definition EFAULT : Z := 14.
Definition ENOMEM : Z := 12.
Definition EAGAIN : Z := 11.

(** [tp_task_t]: a submitted read; [t_user] names the operation (callback and context). *)
Record tp_task := mk_task { t_fd : Z; t_len : Z; t_off : Z; t_user : nat }.

(** [portico_aio_completion_t]. *)
Record completion := mk_compl { c_user : nat; c_res : Z }.

(** Where a thread that produces completions is: waiting for a task, reading, between
    the enqueue and the exchange of [notified], about to write the eventfd, or gone. *)
Inductive worker :=
| WIdle
| WRun (t : tp_task)
| WPosted
| WSignal
| WExit.

#[export] Instance tp_task_eq_dec : EqDecision tp_task.
Proof. solve_decision. Defined.
#[export] Instance worker_eq_dec : EqDecision worker.
Proof. solve_decision. Defined.

(** Where [portico_aio_drain] is. *)
Inductive drainer :=
| DOut
| DRead                       (* emptying the eventfd *)
| DReset                      (* read said EAGAIN; [notified] not yet cleared *)
| DPop                        (* taking completions *)
| DFire (c : completion).     (* outside the lock *)

(** [struct portico_aio] with the thread pool's [tp_state_t], and where the threads are.
    Thread 0 is the event thread itself, which is its own worker with the blocking
    backend.  [a_edge]: the event loop has not been told of the last write yet.
    [a_accepted] lists the operations accepted, [a_fired] the callbacks fired: the
    operation, its result, and whether a worker fired it itself. *)
Record aio := mk_aio {
  a_counter : Z;
  a_edge : bool;
  a_notified : bool;
  a_queue : list completion;
  tp_tasks : list tp_task;
  tp_depth : Z;
  tp_max_depth : Z;
  tp_stop : bool;
  a_workers : list worker;
  a_drain : drainer;
  a_accepted : list nat;
  a_fired : list (nat * Z * bool)
}.

Definition with_workers (s : aio) v := mk_aio (a_counter s) (a_edge s) (a_notified s) (a_queue s) (tp_tasks s)
  (tp_depth s) (tp_max_depth s) (tp_stop s) v (a_drain s) (a_accepted s) (a_fired s).
Definition with_drain (s : aio) v := mk_aio (a_counter s) (a_edge s) (a_notified s) (a_queue s) (tp_tasks s)
  (tp_depth s) (tp_max_depth s) (tp_stop s) (a_workers s) v (a_accepted s) (a_fired s).
Definition with_tasks (s : aio) v d := mk_aio (a_counter s) (a_edge s) (a_notified s) (a_queue s) v
  d (tp_max_depth s) (tp_stop s) (a_workers s) (a_drain s) (a_accepted s) (a_fired s).
Definition with_queue (s : aio) v := mk_aio (a_counter s) (a_edge s) (a_notified s) v (tp_tasks s)
  (tp_depth s) (tp_max_depth s) (tp_stop s) (a_workers s) (a_drain s) (a_accepted s) (a_fired s).
Definition with_notified (s : aio) v := mk_aio (a_counter s) (a_edge s) v (a_queue s) (tp_tasks s)
  (tp_depth s) (tp_max_depth s) (tp_stop s) (a_workers s) (a_drain s) (a_accepted s) (a_fired s).
Definition with_eventfd (s : aio) c t := mk_aio c t (a_notified s) (a_queue s) (tp_tasks s)
  (tp_depth s) (tp_max_depth s) (tp_stop s) (a_workers s) (a_drain s) (a_accepted s) (a_fired s).
Definition accept_op (s : aio) u := mk_aio (a_counter s) (a_edge s) (a_notified s) (a_queue s) (tp_tasks s)
  (tp_depth s) (tp_max_depth s) (tp_stop s) (a_workers s) (a_drain s) (a_accepted s ++ [u]) (a_fired s).
Definition fire (s : aio) (c : completion) (inline : bool) := mk_aio (a_counter s) (a_edge s) (a_notified s) (a_queue s)
  (tp_tasks s) (tp_depth s) (tp_max_depth s) (tp_stop s) (a_workers s) (a_drain s) (a_accepted s)
  (a_fired s ++ [(c_user c, c_res c, inline)]).
Definition set_stop (s : aio) := mk_aio (a_counter s) (a_edge s) (a_notified s) (a_queue s) (tp_tasks s)
  (tp_depth s) (tp_max_depth s) true (a_workers s) (a_drain s) (a_accepted s) (a_fired s).

(** [portico_aio_create] with [portico_aio_threadpool_init]: the event thread and [n]
    workers. *)
Definition portico_aio_create (threads queue_depth : Z) : aio :=
  let n := if 0 <? threads then threads else 4 in
  mk_aio 0 false false [] [] 0 (if 0 <? queue_depth then queue_depth else 0) false
    (replicate (S (Z.to_nat n)) WIdle) DOut [] [].

(** ** Submitting *)

(** [tp_submit]; [ok] is the outcome of its [malloc]. *)
Definition tp_submit (ok : bool) (s : aio) (t : tp_task) : Z * aio :=
  if negb ok then (- ENOMEM, s)
  else if negb (tp_max_depth s =? 0) && (tp_max_depth s <=? tp_depth s) then (- EAGAIN, s)
  else (0, accept_op (with_tasks s (tp_tasks s ++ [t]) (tp_depth s + 1)) (t_user t)).

(** [blocking_submit], up to the end of its [pread]: the event thread does the read. *)
Definition blocking_submit (s : aio) (t : tp_task) : option (Z * aio) :=
  match a_workers s !! 0%nat with
  | Some WIdle => Some (0, accept_op (with_workers s (<[0%nat := WRun t]> (a_workers s))) (t_user t))
  | _ => None
  end.

(** [portico_aio_pread]; [has_buf]: [buf] is not NULL. *)
Definition portico_aio_pread {S} (submit : S → tp_task → Z * S) (s : S) (t : tp_task) (has_buf : bool) : Z * S :=
  if (t_fd t <? 0) || (t_off t <? 0) then (- EINVAL, s)
  else if negb (t_len t =? 0) && negb has_buf then (- EFAULT, s)
  else submit s t.

(** ** Producing completions *)

(** [pread] with its retry: [script] is what the calls return, [None] for EINTR. *)
Fixpoint pread_retry (script : list (option Z)) : option Z :=
  match script with
  | [] => None
  | None :: r => pread_retry r
  | Some n :: _ => Some n
  end.

(** [portico_aio_enqueue]: without memory the callback is fired on the spot. *)
Definition portico_aio_enqueue (ok : bool) (s : aio) (c : completion) : aio :=
  if ok then with_queue s (a_queue s ++ [c]) else fire s c true.

(** The next step of worker [i]: [tp_worker] with [portico_aio_post_completion].  [res] is
    the result of its read, [ok] the outcome of its [malloc]; [None]: it waits. *)
Definition worker_step (i : nat) (res : Z) (ok : bool) (s : aio) : option aio :=
  let go w s' := Some (with_workers s' (<[i := w]> (a_workers s'))) in
  match a_workers s !! i with
  | Some WIdle =>
      if (i =? 0)%nat then None
      else
        match tp_tasks s with
        | t :: r => go (WRun t) (with_tasks s r (tp_depth s - 1))
        | [] => if tp_stop s then go WExit s else None
        end
  | Some (WRun t) => go WPosted (portico_aio_enqueue ok s (mk_compl (t_user t) res))
  | Some WPosted => if a_notified s then go WIdle s else go WSignal (with_notified s true)
  | Some WSignal => go WIdle (with_eventfd s (a_counter s + 1) true)
  | _ => None
  end.

(** ** Draining *)

(** [portico_aio_drain] starts: on the event loop's word, or at any other time. *)
Definition epoll_event (s : aio) : bool := a_edge s && (0 <? a_counter s).
Definition drain_on_event (s : aio) : option aio :=
  match a_drain s with
  | DOut => if epoll_event s then Some (with_drain (with_eventfd s (a_counter s) false) DRead) else None
  | _ => None
  end.
Definition drain_anytime (s : aio) : option aio :=
  match a_drain s with DOut => Some (with_drain s DRead) | _ => None end.

(** The next step of the drain. *)
Definition drain_step (s : aio) : aio :=
  match a_drain s with
  | DOut => s
  | DRead => if 0 <? a_counter s then with_eventfd s 0 (a_edge s) else with_drain s DReset
  | DReset => with_drain (with_notified s false) DPop
  | DPop => match a_queue s with
            | [] => with_drain s DOut
            | c :: r => with_drain (with_queue s r) (DFire c)
            end
  | DFire c => with_drain (fire s c false) DPop
  end.

(** One step of the system.  Nothing is submitted once [tp_destroy] has begun: both are
    calls of the owning thread. *)
Inductive astep (s : aio) : aio → Prop :=
| as_submit ok t b rc s' : tp_stop s = false → portico_aio_pread (tp_submit ok) s t b = (rc, s') → astep s s'
| as_blocking t s' rc : tp_stop s = false → 0 <= t_fd t → 0 <= t_off t → blocking_submit s t = Some (rc, s') → astep s s'
| as_worker i script res ok s' : pread_retry script = Some res → worker_step i res ok s = Some s' → astep s s'
| as_event s' : drain_on_event s = Some s' → astep s s'
| as_anytime s' : drain_anytime s = Some s' → astep s s'
| as_drain : astep s (drain_step s)
| as_destroy : astep s (set_stop s).

(** ** Wakeups *)

(** A thread is between its enqueue and the exchange, or about to write. *)
Definition posting (s : aio) : Prop := ∃ i, a_workers s !! i = Some WPosted.
Definition signalling (s : aio) : Prop := ∃ i, a_workers s !! i = Some WSignal.

(** The drain will look at the queue again. *)
Definition before_reset (s : aio) : Prop := a_drain s = DRead ∨ a_drain s = DReset.
Definition will_pop (s : aio) : Prop := a_drain s = DPop ∨ ∃ c, a_drain s = DFire c.

Record wake_inv (s : aio) : Prop := mk_wake {
  wi_notified : a_notified s = true → epoll_event s = true ∨ signalling s ∨ before_reset s;
  wi_queue : a_queue s ≠ [] → a_notified s = true ∨ posting s ∨ will_pop s ∨ before_reset s;
  wi_counter : 0 <= a_counter s
}.

(** What the other workers do survives a step of worker [i]. *)
Lemma others_keep (s s' : aio) i w0 w x :
  a_workers s !! i = Some w0 → w0 ≠ x → a_workers s' = <[i := w]> (a_workers s) →
  (∃ j, a_workers s !! j = Some x) → ∃ j, a_workers s' !! j = Some x.
Proof.
  intros Hi Hne E [j Hj]. exists j. rewrite E, list_lookup_insert_ne; [done |]. intros ->. congruence.
Qed.

Lemma own_state (s s' : aio) i w0 w :
  a_workers s !! i = Some w0 → a_workers s' = <[i := w]> (a_workers s) → ∃ j, a_workers s' !! j = Some w.
Proof.
  intros Hi E. exists i. rewrite E, list_lookup_insert_eq; [done |]. by eapply lookup_lt_Some.
Qed.

(** A step that only moves worker [i] out of a silent state. *)
Lemma wake_move s s' i w0 w :
  wake_inv s → a_workers s !! i = Some w0 → w0 ≠ WPosted → w0 ≠ WSignal →
  a_workers s' = <[i := w]> (a_workers s) → a_notified s' = a_notified s → a_counter s' = a_counter s →
  a_edge s' = a_edge s → a_drain s' = a_drain s → (a_queue s' = a_queue s ∨ w = WPosted) → wake_inv s'.
Proof.
  intros [H1 H2 H3] Hi N1 N2 EW EN EC EE ED HQ.
  constructor; unfold epoll_event, before_reset, will_pop in *; rewrite ?EN, ?EC, ?EE, ?ED; [ | | done].
  - intros Hn. destruct (H1 Hn) as [? | [Hs | ?]]; [by left | right; left | by right; right].
    by apply (others_keep s s' i w0 w WSignal).
  - intros Hq. destruct HQ as [EQ | ->]; [ | right; left; by eapply own_state].
    rewrite EQ in Hq. destruct (H2 Hq) as [? | [Hp | ?]]; [by left | right; left | by right; right].
    by apply (others_keep s s' i w0 w WPosted).
Qed.

Lemma worker_wake i res ok s s' : wake_inv s → worker_step i res ok s = Some s' → wake_inv s'.
Proof.
  intros Hi. unfold worker_step. destruct (a_workers s !! i) as [w | ] eqn:EW; [ | done].
  destruct w as [ | t | | | ].
  - destruct (i =? 0)%nat; [done |]. destruct (tp_tasks s) as [ | t r]; [destruct (tp_stop s); [ | done] | ];
      intros [= <-]; (eapply wake_move; [exact Hi | exact EW | try done..]); by left.
  - intros [= <-]. destruct ok; (eapply wake_move; [exact Hi | exact EW | try done..]); by right.
  - destruct Hi as [H1 H2 H3]. destruct (a_notified s) eqn:EN; intros [= <-]; constructor; cbn; try done.
    + intros _. destruct (H1 eq_refl) as [? | [Hs | ?]]; [by left | right; left | by right; right].
      by eapply (others_keep s _ i WPosted WIdle WSignal).
    + intros _. by left.
    + intros _. right; left. by eapply (own_state s _ i WPosted).
    + intros _. by left.
  - destruct Hi as [H1 H2 H3]. intros [= <-]. constructor; cbn; [ | | lia].
    + intros _. left. unfold epoll_event. cbn. rewrite (proj2 (Z.ltb_lt 0 _)) by lia. done.
    + intros Hq. destruct (H2 Hq) as [? | [Hp | ?]]; [by left | right; left | by right; right].
      by eapply (others_keep s _ i WSignal WIdle WPosted).
  - done.
Qed.

Lemma drain_wake s : wake_inv s → wake_inv (drain_step s).
Proof.
  intros Hi. unfold drain_step. destruct (a_drain s) as [ | | | | c] eqn:ED; [done | | | | ].
  - destruct (0 <? a_counter s) eqn:E0; destruct Hi as [H1 H2 H3]; constructor; cbn; try done.
    + intros _. right; right. left. done.
    + intros _. right; right. right. done.
    + intros _. right; right; right. by right.
  - destruct Hi as [H1 H2 H3]. constructor; cbn; [done | | done]. intros _. right; right; left. by left.
  - assert (Hnb : ¬ before_reset s) by (unfold before_reset; rewrite ED; by intros [? | ?]).
    destruct Hi as [H1 H2 H3]. destruct (a_queue s) as [ | c r] eqn:EQ; constructor; cbn; try done.
    + intros Hn. destruct (H1 Hn) as [? | [? | ?]]; [by left | by right; left | done].
    + intros Hn. destruct (H1 Hn) as [? | [? | ?]]; [by left | by right; left | done].
    + intros _. right; right; left. right. by exists c.
  - assert (Hnb : ¬ before_reset s) by (unfold before_reset; rewrite ED; by intros [? | ?]).
    destruct Hi as [H1 H2 H3]. constructor; cbn; try done.
    + intros Hn. destruct (H1 Hn) as [? | [? | ?]]; [by left | by right; left | done].
    + intros _. right; right; left. by left.
Qed.

Lemma start_wake s s' : wake_inv s → drain_on_event s = Some s' ∨ drain_anytime s = Some s' → wake_inv s'.
Proof.
  intros [H1 H2 H3] [H | H].
  - unfold drain_on_event in H. destruct (a_drain s); [ | done..]. destruct (epoll_event s); [ | done]. injection H as <-.
    constructor; cbn; [intros _; right; right; by left | intros _; right; right; right; by left | done].
  - unfold drain_anytime in H. destruct (a_drain s); [ | done..]. injection H as <-.
    constructor; cbn; [intros _; right; right; by left | intros _; right; right; right; by left | done].
Qed.

Lemma submit_wake ok s t b rc s' : wake_inv s → portico_aio_pread (tp_submit ok) s t b = (rc, s') → wake_inv s'.
Proof.
  intros Hi. unfold portico_aio_pread, tp_submit. intros H. repeat case_match; simplify_eq; try done.
  destruct Hi as [K1 K2 K3]. by constructor.
Qed.

Lemma blocking_wake s t rc s' : wake_inv s → blocking_submit s t = Some (rc, s') → wake_inv s'.
Proof.
  intros Hi. unfold blocking_submit. destruct (a_workers s !! 0%nat) as [[] | ] eqn:EW; try done. intros [= <- <-].
  eapply wake_move; [exact Hi | exact EW | try done..]. by left.
Qed.

Lemma astep_wake s s' : wake_inv s → astep s s' → wake_inv s'.
Proof.
  intros Hi [ok t b rc s1 _ H | t s1 rc _ _ _ H | i sc res ok s1 _ H | s1 H | s1 H | | ].
  - by eapply submit_wake.
  - by eapply blocking_wake.
  - by eapply worker_wake.
  - eapply start_wake; [done | by left].
  - eapply start_wake; [done | by right].
  - by apply drain_wake.
  - destruct Hi as [H1 H2 H3]. by constructor.
Qed.

Lemma create_wake n d : wake_inv (portico_aio_create n d).
Proof. by constructor. Qed.

Lemma reach_wake n d s : reach astep (portico_aio_create n d) s → wake_inv s.
Proof. apply reach_invariant; [apply create_wake | intros a b; apply astep_wake]. Qed.

(** ** Exactly one completion *)

(** The operation a worker is running. *)
Definition running (w : worker) : list nat := match w with WRun t => [t_user t] | _ => [] end.
Definition firing (d : drainer) : list nat := match d with DFire c => [c_user c] | _ => [] end.

(** Everything accepted is in exactly one place. *)
Definition places (s : aio) : list nat :=
  (t_user <$> tp_tasks s) ++ concat (running <$> a_workers s) ++ (c_user <$> a_queue s) ++
  firing (a_drain s) ++ ((λ x, x.1.1) <$> a_fired s).

Record once_inv (s : aio) : Prop := mk_once {
  oi_places : a_accepted s ≡ₚ places s;
  oi_depth : tp_depth s = Z.of_nat (length (tp_tasks s));
  oi_max : 0 <= tp_max_depth s;
  oi_bound : tp_max_depth s ≠ 0 → tp_depth s <= tp_max_depth s;
  oi_exit : ∀ i, a_workers s !! i = Some WExit → tp_stop s = true ∧ tp_tasks s = []
}.

Lemma running_insert ws i w0 w :
  ws !! i = Some w0 → running w0 ++ concat (running <$> <[i := w]> ws) ≡ₚ running w ++ concat (running <$> ws).
Proof.
  intros Hi. pose proof (lookup_lt_Some _ _ _ Hi) as Hlt.
  rewrite <- (take_drop_middle ws i w0 Hi) at 2. rewrite insert_take_drop by done.
  rewrite !fmap_app, !fmap_cons, !concat_app. cbn [concat]. solve_Permutation.
Qed.

Lemma places_move s i w0 w rest :
  a_workers s !! i = Some w0 →
  running w0 ++ (concat (running <$> <[i := w]> (a_workers s)) ++ rest) ≡ₚ running w ++ (concat (running <$> a_workers s) ++ rest).
Proof. intros Hi. rewrite !app_assoc. by rewrite (running_insert _ _ _ w Hi). Qed.

Lemma exit_insert (P : Prop) (ws : list worker) (i j : nat) (w : worker) :
  w ≠ WExit → (ws !! j = Some WExit → P) → <[i := w]> ws !! j = Some WExit → P.
Proof.
  intros Hw HP Hj. apply HP. destruct (decide (i = j)) as [<- | Hne].
  - destruct (decide (i < length ws)%nat) as [Hl | Hl].
    + rewrite list_lookup_insert_eq in Hj by done. congruence.
    + rewrite list_insert_ge in Hj by lia. done.
  - by rewrite list_lookup_insert_ne in Hj.
Qed.

(** The task a worker takes is the oldest. *)
Lemma take_once s i t r :
  once_inv s → a_workers s !! i = Some WIdle → tp_tasks s = t :: r →
  once_inv (with_workers (with_tasks s r (tp_depth s - 1)) (<[i := WRun t]> (a_workers s))).
Proof.
  intros [K1 K2 K3 K4 K5] Hi ET. rewrite ET in K2. cbn in K2. constructor; cbn; [ | lia | done | | ].
  - rewrite K1. unfold places. cbn. rewrite ET, fmap_cons. cbn.
    pose proof (places_move s i WIdle (WRun t) ((c_user <$> a_queue s) ++ firing (a_drain s) ++ ((λ x, x.1.1) <$> a_fired s)) Hi) as HP.
    cbn in HP. rewrite HP. solve_Permutation.
  - intros Hm. specialize (K4 Hm). lia.
  - intros j. apply exit_insert; [done |]. intros Hj. destruct (K5 j Hj). congruence.
Qed.

Lemma enqueue_once s i t res ok :
  once_inv s → a_workers s !! i = Some (WRun t) →
  once_inv (with_workers (portico_aio_enqueue ok s (mk_compl (t_user t) res)) (<[i := WPosted]> (a_workers s))).
Proof.
  intros [K1 K2 K3 K4 K5] Hi. unfold portico_aio_enqueue.
  pose proof (λ rest, places_move s i (WRun t) WPosted rest Hi) as HP. cbn in HP.
  destruct ok; constructor; cbn; try done; try (intros j; apply exit_insert; [done | apply K5]);
    rewrite K1; unfold places; cbn; rewrite <- HP, !fmap_app; cbn; solve_Permutation.
Qed.

(** Worker [i] moves between states that hold no operation. *)
Lemma quiet_once s i w0 w :
  once_inv s → a_workers s !! i = Some w0 → running w0 = [] → running w = [] →
  (w = WExit → tp_stop s = true ∧ tp_tasks s = []) → once_inv (with_workers s (<[i := w]> (a_workers s))).
Proof.
  intros [K1 K2 K3 K4 K5] Hi R0 R1 Hx. constructor; cbn; try done.
  - rewrite K1. unfold places. cbn. apply Permutation_app_head.
    pose proof (λ rest, places_move s i w0 w rest Hi) as HP. rewrite R0, R1 in HP. cbn in HP. by rewrite HP.
  - intros j Hj. destruct (decide (w = WExit)) as [-> | Hne]; [by apply Hx |].
    revert Hj. apply exit_insert; [done | apply K5].
Qed.

Lemma worker_once i res ok s s' : once_inv s → worker_step i res ok s = Some s' → once_inv s'.
Proof.
  intros Hi. unfold worker_step. destruct (a_workers s !! i) as [w | ] eqn:EW; [ | done]. destruct w as [ | t | | | ].
  - destruct (i =? 0)%nat; [done |]. destruct (tp_tasks s) as [ | t r] eqn:ET.
    + destruct (tp_stop s) eqn:ES; [ | done]. intros [= <-]. by eapply quiet_once.
    + intros [= <-]. by eapply take_once.
  - intros [= <-]. cbn. destruct ok; [apply (enqueue_once s i t res true) | apply (enqueue_once s i t res false)]; done.
  - destruct (a_notified s); intros [= <-]; [by eapply quiet_once |].
    eapply (quiet_once (with_notified s true)); [ | done..]. by destruct Hi.
  - intros [= <-]. eapply (quiet_once (with_eventfd s (a_counter s + 1) true)); [ | done..]. by destruct Hi.
  - done.
Qed.

Lemma drain_once s : once_inv s → once_inv (drain_step s).
Proof.
  intros Hi. unfold drain_step. destruct (a_drain s) as [ | | | | c] eqn:ED; [done | ..].
  - destruct (0 <? a_counter s); destruct Hi as [K1 K2 K3 K4 K5]; constructor; try done.
    rewrite K1. unfold places. cbn. by rewrite ED.
  - destruct Hi as [K1 K2 K3 K4 K5]. constructor; try done. rewrite K1. unfold places. cbn. by rewrite ED.
  - destruct Hi as [K1 K2 K3 K4 K5].
    destruct (a_queue s) as [ | c r] eqn:EQ; constructor; try done; rewrite K1; unfold places; cbn; rewrite ED, EQ; [done |].
    rewrite fmap_cons. cbn. solve_Permutation.
  - destruct Hi as [K1 K2 K3 K4 K5]. constructor; try done. rewrite K1. unfold places. cbn. rewrite ED, fmap_app. cbn.
    solve_Permutation.
Qed.

Lemma accept_once ok s t b rc s' :
  once_inv s → tp_stop s = false → portico_aio_pread (tp_submit ok) s t b = (rc, s') → once_inv s'.
Proof.
  intros Hi HS. unfold portico_aio_pread, tp_submit.
  destruct ((t_fd t <? 0) || (t_off t <? 0)); [by intros [= <- <-] |].
  destruct (negb (t_len t =? 0) && negb b); [by intros [= <- <-] |].
  destruct ok; [ | by intros [= <- <-]]. destruct (negb (tp_max_depth s =? 0) && (tp_max_depth s <=? tp_depth s)) eqn:EF;
    intros [= <- <-]; [done |].
  destruct Hi as [K1 K2 K3 K4 K5]. constructor; cbn; [ | rewrite length_app; cbn; lia | done | lia | ].
  - unfold places. cbn. rewrite fmap_app, K1. unfold places. cbn. solve_Permutation.
  - intros j Hj. destruct (K5 j Hj). congruence.
Qed.

Lemma blocking_once s t rc s' : once_inv s → tp_stop s = false → blocking_submit s t = Some (rc, s') → once_inv s'.
Proof.
  intros [K1 K2 K3 K4 K5] HS. unfold blocking_submit.
  destruct (a_workers s !! 0%nat) as [[] | ] eqn:EW; try done. intros [= <- <-].
  pose proof (λ rest, places_move s 0 WIdle (WRun t) rest EW) as HP. cbn in HP.
  constructor; cbn; try done.
  - unfold places. cbn. rewrite K1, HP. unfold places. solve_Permutation.
  - intros j. apply exit_insert; [done | apply K5].
Qed.

Lemma astep_once s s' : once_inv s → astep s s' → once_inv s'.
Proof.
  intros Hi [ok t b rc s1 HS H | t s1 rc HS _ _ H | i sc res ok s1 _ H | s1 H | s1 H | | ].
  - by eapply accept_once.
  - by eapply blocking_once.
  - by eapply worker_once.
  - unfold drain_on_event in H. destruct (a_drain s) eqn:ED; try done. destruct (epoll_event s); [ | done]. injection H as <-.
    destruct Hi as [K1 K2 K3 K4 K5]. constructor; try done. rewrite K1. unfold places. cbn. by rewrite ED.
  - unfold drain_anytime in H. destruct (a_drain s) eqn:ED; try done. injection H as <-.
    destruct Hi as [K1 K2 K3 K4 K5]. constructor; try done. rewrite K1. unfold places. cbn. by rewrite ED.
  - by apply drain_once.
  - destruct Hi as [K1 K2 K3 K4 K5]. constructor; try done. intros j Hj. cbn in Hj. by destruct (K5 j Hj).
Qed.

Lemma replicate_running n : concat (running <$> replicate n WIdle) = [].
Proof. by induction n. Qed.

Lemma create_once n d : once_inv (portico_aio_create n d).
Proof.
  constructor; cbn; [ | done | split_if; lia | split_if; lia | ].
  - unfold places. unfold portico_aio_create. cbn -[replicate]. by rewrite replicate_running.
  - intros i Hi. apply (lookup_replicate_1 (S _)) in Hi as [[=] _].
Qed.

Lemma reach_once n d s : reach astep (portico_aio_create n d) s → once_inv s.
Proof. apply reach_invariant; [apply create_once | intros a b; apply astep_once]. Qed.

(** ** The contract of a back end *)

(** What every back end promises to the front end's users, over its own states and steps
    ([portico_aio_ops_t]): an accepted read is unfinished or its callback has been fired,
    and no read is both or twice. *)
Class AioContract {S : Type} (step : S → S → Prop) (init : S → Prop) := {
  op_accepted : S → list nat;
  op_unfinished : S → list nat;
  op_fired : S → list (nat * Z * bool);
  op_conserved : ∀ s0 s, init s0 → reach step s0 s → op_accepted s ≡ₚ op_unfinished s ++ ((λ x, x.1.1) <$> op_fired s)
}.

Section Contract.
Context {S : Type} {step : S → S → Prop} {init : S → Prop} `{AioContract S step init}.

(** A user that names its operations apart gets each callback at most once, and only for
    what it submitted. *)
Lemma contract_fires_once s0 s :
  init s0 → reach step s0 s → NoDup (op_accepted s) →
  NoDup ((λ x, x.1.1) <$> op_fired s) ∧ ∀ x, x ∈ op_fired s → x.1.1 ∈ op_accepted s ∧ x.1.1 ∉ op_unfinished s.
Proof.
  intros H0 HR HN. pose proof (op_conserved s0 s H0 HR) as HC. rewrite HC in HN. apply NoDup_app in HN as (_ & Hd & HN).
  split; [done |]. intros x Hx. assert (Hin : x.1.1 ∈ (λ x, x.1.1) <$> op_fired s) by (apply list_elem_of_fmap; eauto).
  split; [rewrite HC; apply elem_of_app; by right |]. intros Hu. by apply (Hd _ Hu).
Qed.
End Contract.

(** The blocking back end and the thread pool keep it. *)
#[export] Instance pool_contract : AioContract astep (λ s, ∃ n d, s = portico_aio_create n d).
Proof.
  refine {| op_accepted := a_accepted;
            op_unfinished s := (t_user <$> tp_tasks s) ++ concat (running <$> a_workers s) ++ (c_user <$> a_queue s) ++ firing (a_drain s);
            op_fired := a_fired |}.
  intros s0 s (n & d & ->) HR. rewrite (oi_places s (reach_once n d s HR)). unfold places. by rewrite <- !app_assoc.
Defined.

(** ** What the event loop gets *)

(** The drain alone, [n] steps. *)
Fixpoint drain_run (n : nat) (s : aio) : aio :=
  match n with O => s | S m => drain_run m (drain_step s) end.

Lemma drain_run_app n m s : drain_run (n + m) s = drain_run m (drain_run n s).
Proof. revert s. by induction n; intros s; cbn. Qed.

Definition fired_by_drain (cs : list completion) : list (nat * Z * bool) := (λ c, (c_user c, c_res c, false)) <$> cs.

(** The popping loop, with nobody else running. *)
Lemma pop_run s :
  a_drain s = DPop →
  let e := drain_run (2 * length (a_queue s) + 1) s in
  a_drain e = DOut ∧ a_queue e = [] ∧ a_fired e = a_fired s ++ fired_by_drain (a_queue s) ∧
  a_notified e = a_notified s ∧ a_workers e = a_workers s ∧ tp_tasks e = tp_tasks s.
Proof.
  remember (a_queue s) as q eqn:EQ. revert s EQ. induction q as [ | c q IH]; intros s EQ ED.
  - cbn. unfold drain_step. rewrite ED, <- EQ. cbn. by rewrite app_nil_r.
  - replace (2 * length (c :: q) + 1)%nat with (2 + (2 * length q + 1))%nat by (cbn; lia). rewrite drain_run_app.
    assert (E2 : drain_run 2 s = with_drain (fire (with_drain (with_queue s q) (DFire c)) c false) DPop).
    { cbn. unfold drain_step at 2. rewrite ED, <- EQ. done. }
    rewrite E2. destruct (IH (with_drain (fire (with_drain (with_queue s q) (DFire c)) c false) DPop) eq_refl eq_refl)
      as (I1 & I2 & I3 & I4 & I5 & I6). split_and!; try done. rewrite I3. cbn. by rewrite <- app_assoc.
Qed.


(** The pool has been joined and the event thread runs no read. *)
Definition all_quiet (s : aio) : Prop := ∀ i w, a_workers s !! i = Some w → running w = [].

Lemma quiet_running ws : (∀ (i : nat) w, ws !! i = Some w → running w = []) → concat (running <$> ws) = [].
Proof.
  intros H. induction ws as [ | w ws IH]; [done |]. rewrite fmap_cons. cbn. rewrite (H 0%nat w eq_refl). apply IH.
  intros i w' Hi. by apply (H (S i)).
Qed.

(** Every accepted read is completed exactly once: in every reachable state the
    accepted operations are, as a multiset, those still queued for a worker, those being
    read, those in the completion queue, the one being fired and those fired, so no
    callback fires twice; the task queue never exceeds its configured bound; and once a
    worker has left its loop after [tp_destroy], with no read in progress, everything
    accepted has been posted. *)
Theorem aio_exactly_once threads depth s :
  reach astep (portico_aio_create threads depth) s →
  a_accepted s ≡ₚ places s ∧
  (NoDup (a_accepted s) → NoDup ((λ x, x.1.1) <$> a_fired s)) ∧
  (0 < depth → Z.of_nat (length (tp_tasks s)) <= depth) ∧
  ((∃ i, a_workers s !! i = Some WExit) → all_quiet s →
   a_accepted s ≡ₚ (c_user <$> a_queue s) ++ firing (a_drain s) ++ ((λ x, x.1.1) <$> a_fired s)).
Proof.
  intros HR. pose proof (reach_once _ _ _ HR) as [K1 K2 K3 K4 K5].
  split_and!; [done | | | ].
  - intros HN. rewrite K1 in HN. unfold places in HN. rewrite !NoDup_app in HN. tauto.
  - intros Hd. rewrite <- K2.
    assert (EM : tp_max_depth s = depth); [ | rewrite EM in K4; apply K4; lia].
    apply (reach_invariant astep (λ x, tp_max_depth x = depth) (portico_aio_create threads depth)); [ | | done].
    + cbn. by rewrite (proj2 (Z.ltb_lt 0 depth)).
    + clear. intros a b <- [ok t bu rc s1 HS H | t s1 rc HS _ _ H | i sc res ok s1 _ H | s1 H | s1 H | | ]; cbn; [ .. | | done].
      * unfold portico_aio_pread, tp_submit in H. repeat case_match; by simplify_eq.
      * unfold blocking_submit in H. repeat case_match; by simplify_eq.
      * unfold worker_step, portico_aio_enqueue in H. repeat case_match; by simplify_eq.
      * unfold drain_on_event in H. repeat case_match; by simplify_eq.
      * unfold drain_anytime in H. repeat case_match; by simplify_eq.
      * unfold drain_step. repeat case_match; done.
  - intros [i Hi] Hq. rewrite K1. unfold places. destruct (K5 i Hi) as [_ ->].
    rewrite (quiet_running (a_workers s)) by exact Hq. done.
Qed.

(** ** A pool at work *)

Definition demo_read (u : nat) : tp_task := mk_task 3 10 0 u.
Definition demo_submit (u : nat) (s : aio) : aio := snd (portico_aio_pread (tp_submit true) s (demo_read u) true).
Definition demo_worker (i : nat) (s : aio) : aio := default s (worker_step i 10 true s).

Lemma demo_submit_step u s : tp_stop s = false → astep s (demo_submit u s).
Proof.
  intros HS. unfold demo_submit. destruct (portico_aio_pread (tp_submit true) s (demo_read u) true) as [rc s'] eqn:E.
  by eapply as_submit.
Qed.

Lemma demo_worker_step i s : worker_step i 10 true s ≠ None → astep s (demo_worker i s).
Proof.
  intros HS. unfold demo_worker. destruct (worker_step i 10 true s) as [s' | ] eqn:E; [ | done].
  by apply (as_worker s i [None; Some 10] 10 true).
Qed.

(** Two reads on two workers; the second finishes first. *)
Definition demo_swap : aio :=
  demo_worker 1 (demo_worker 2 (demo_worker 2 (demo_worker 2
  (demo_worker 2 (demo_worker 1 (demo_submit 2 (demo_submit 1 (portico_aio_create 2 4)))))))).
Definition demo_done : aio := demo_worker 1 demo_swap.

Lemma demo_done_reach : reach astep (portico_aio_create 2 4) demo_done.
Proof.
  unfold demo_done, demo_swap.
  repeat (eapply reach_step; [ | first [ apply demo_submit_step; reflexivity | apply demo_worker_step; vm_compute; discriminate ] ]).
  apply reach_refl.
Qed.

(** Completions reach the event thread in the order the reads end, not in the order of
    submission. *)
Example aio_out_of_submission_order :
  a_accepted demo_done = [1; 2]%nat ∧ a_queue demo_done = [mk_compl 2 10; mk_compl 1 10].
Proof. by vm_compute. Qed.


Lemma aio_exactly_once_witness : a_accepted demo_done ≡ₚ places demo_done.
Proof. exact (proj1 (aio_exactly_once 2 4 demo_done demo_done_reach)). Defined.

(** A full queue pushes back, and bad arguments never reach the backend. *)
Example aio_backpressure :
  fst (portico_aio_pread (tp_submit true) (demo_submit 1 (portico_aio_create 1 1)) (demo_read 2) true) = - EAGAIN ∧
  fst (portico_aio_pread (tp_submit true) (portico_aio_create 1 1) (mk_task (-1) 10 0 1) true) = - EINVAL ∧
  fst (portico_aio_pread (tp_submit true) (portico_aio_create 1 1) (demo_read 1) false) = - EFAULT.
Proof. by vm_compute. Qed.
