(* ===== verification/AioUring.v ===== *)
(** * The io_uring back end (src/src/aio/aio_uring.c) and the life of an instance (aio.c)

    The event thread's default back end: reads go to the kernel through a submission ring
    and come back through a completion ring, two arrays indexed by 32-bit counters that
    wrap.  The event thread submits, reaps and destroys; the kernel consumes submissions
    inside [io_uring_enter], completes reads in any order and signals the eventfd, at any
    time.  The front end is that of [Aio]: the same queue, eventfd and drain.

    Of the kernel the model uses what io_uring(7) says: [io_uring_enter] with one entry to
    submit consumes it or fails and consumes nothing; a completion is written at the tail
    of the ring if there is room, and the eventfd is signalled after the tail has moved.
    The ring sizes are powers of two and the completion ring is at least twice the other. *)
From Stdlib Require Import ZArith Lia.
From stdpp Require Import base numbers list gmap.
From S2P Require Import Prelude Aio.
Open Scope Z_scope.

Definition ENOSYS : Z := 38.

(** The fields of [struct io_uring_sqe] that are set, and [struct io_uring_cqe]; a
    [user_data] is the address of a [uring_op_t], 0 for NULL. *)
Record sqe_t := mk_sqe { s_fd : Z; s_len : Z; s_off : Z; s_data : nat }.
Record cqe_t := mk_cqe { c_data : nat; c_result : Z }.
Definition no_sqe : sqe_t := mk_sqe 0 0 0 0.
Definition no_cqe : cqe_t := mk_cqe 0 0.

(** The memory shared with the kernel. *)
Record rings := mk_rings {
  sq_head : Z; sq_tail : Z; sq_entries : Z; sq_array : list Z; sqes : list sqe_t;
  cq_head : Z; cq_tail : Z; cq_entries : Z; cqes : list cqe_t
}.

(** What the kernel holds: the reads it has consumed and not completed, the completions
    that found the ring full, and whether it still has to signal the eventfd. *)
Record kernel := mk_kernel { k_reads : list sqe_t; k_dropped : Z; k_unsignalled : bool }.

(** Where the owning thread is: outside the back end, in [uring_reap] with its local
    [head] and [tail], in the loop of [uring_destroy], in its inner loop, or past it. *)
Inductive phase :=
| PRun
| PReap (head tail : Z)
| PDestroy
| PDiscard (head tail : Z)
| PDone.

(** [uring_state_t] with the front end [u_aio].  [u_ops] are the allocated [uring_op_t],
    [u_bad] says that one was used or freed when it was not allocated, [u_discarded] the
    operations thrown away by [uring_destroy]. *)
Record uring := mk_uring {
  u_rings : rings; u_inflight : Z; u_ops : gmap nat nat; u_kernel : kernel; u_aio : aio;
  u_phase : phase; u_bad : bool; u_discarded : list nat
}.

Definition set_sq (r : rings) h t a e := mk_rings h t (sq_entries r) a e (cq_head r) (cq_tail r) (cq_entries r) (cqes r).
Definition set_cq (r : rings) h t e := mk_rings (sq_head r) (sq_tail r) (sq_entries r) (sq_array r) (sqes r) h t (cq_entries r) e.
Definition with_rings (u : uring) r := mk_uring r (u_inflight u) (u_ops u) (u_kernel u) (u_aio u) (u_phase u) (u_bad u) (u_discarded u).
Definition with_kernel (u : uring) k := mk_uring (u_rings u) (u_inflight u) (u_ops u) k (u_aio u) (u_phase u) (u_bad u) (u_discarded u).
Definition with_aio (u : uring) a := mk_uring (u_rings u) (u_inflight u) (u_ops u) (u_kernel u) a (u_phase u) (u_bad u) (u_discarded u).
Definition with_phase (u : uring) p := mk_uring (u_rings u) (u_inflight u) (u_ops u) (u_kernel u) (u_aio u) p (u_bad u) (u_discarded u).
Definition with_inflight (u : uring) n := mk_uring (u_rings u) n (u_ops u) (u_kernel u) (u_aio u) (u_phase u) (u_bad u) (u_discarded u).
Definition with_ops (u : uring) o b := mk_uring (u_rings u) (u_inflight u) o (u_kernel u) (u_aio u) (u_phase u) b (u_discarded u).
Definition discard (u : uring) n := mk_uring (u_rings u) (u_inflight u) (u_ops u) (u_kernel u) (u_aio u) (u_phase u) (u_bad u) (u_discarded u ++ [n]).

(** The slot of an index in a ring of [n] entries: [index & mask]. *)
Definition slot (n i : Z) : nat := Z.to_nat (Z.land i (n - 1)).

(** ** The kernel *)

(** One entry of the submission ring is consumed. *)
Definition kernel_consume (u : uring) : uring :=
  let r := u_rings u in let k := u_kernel u in
  let i := default 0 (sq_array r !! slot (sq_entries r) (sq_head r)) in
  let e := default no_sqe (sqes r !! Z.to_nat i) in
  with_kernel (with_rings u (set_sq r (u32 (sq_head r + 1)) (sq_tail r) (sq_array r) (sqes r)))
    (mk_kernel (k_reads k ++ [e]) (k_dropped k) (k_unsignalled k)).

(** The [i]-th pending read ends with [res]. *)
Definition kernel_complete (i : nat) (res : Z) (u : uring) : option uring :=
  let r := u_rings u in let k := u_kernel u in
  match k_reads k !! i with
  | None => None
  | Some e =>
      if cq_entries r <=? u32 (cq_tail r - cq_head r)
      then Some (with_kernel u (mk_kernel (delete i (k_reads k)) (k_dropped k + 1) (k_unsignalled k)))
      else Some (with_kernel
             (with_rings u (set_cq r (cq_head r) (u32 (cq_tail r + 1))
                              (<[slot (cq_entries r) (cq_tail r) := mk_cqe (s_data e) res]> (cqes r))))
             (mk_kernel (delete i (k_reads k)) (k_dropped k) true))
  end.

(** The registered eventfd is signalled. *)
Definition kernel_signal (u : uring) : option uring :=
  let k := u_kernel u in
  if k_unsignalled k
  then Some (with_kernel (with_aio u (with_eventfd (u_aio u) (a_counter (u_aio u) + 1) true))
               (mk_kernel (k_reads k) (k_dropped k) false))
  else None.

(** ** The owning thread *)

(** [uring_submit]: [m] is the address [malloc] gives, [r] what [io_uring_enter] returns,
    a negative [errno] for a failure. *)
Definition uring_submit (m : option nat) (r : Z) (u : uring) (t : tp_task) : Z * uring :=
  let g := u_rings u in
  if sq_entries g <=? u_inflight u then (- EAGAIN, u)
  else if sq_entries g <=? u32 (sq_tail g - sq_head g) then (- EAGAIN, u)
  else
    match m with
    | None => (- ENOMEM, u)
    | Some p =>
        let tail := sq_tail g in
        let idx := slot (sq_entries g) tail in
        let s := mk_sqe (t_fd t) (u32 (t_len t)) (u64 (t_off t)) p in
        let u1 := with_rings (with_ops u (<[p := t_user t]> (u_ops u)) (u_bad u))
                    (set_sq g (sq_head g) (u32 (tail + 1)) (<[idx := Z.of_nat idx]> (sq_array g)) (<[idx := s]> (sqes g))) in
        if r <? 0
        then let g1 := u_rings u1 in
             (r, with_ops (with_rings u1 (set_sq g1 (sq_head g1) tail (sq_array g1) (sqes g1))) (delete p (u_ops u1)) (u_bad u1))
        else let u2 := kernel_consume u1 in
             (0, with_aio (with_inflight u2 (u32 (u_inflight u2 + 1))) (accept_op (u_aio u2) (t_user t)))
    end.

(** [free(op)]. *)
Definition free_op (p : nat) (u : uring) : uring :=
  with_ops u (delete p (u_ops u)) (u_bad u || bool_decide (u_ops u !! p = None)).

(** One turn of the loop of [uring_reap] on the entry [c]; [ok] is the outcome of the
    [malloc] in [portico_aio_enqueue]. *)
Definition reap_entry (ok : bool) (c : cqe_t) (u : uring) : uring :=
  let u1 :=
    if (c_data c =? 0)%nat then u
    else
      let user := default 0%nat (u_ops u !! c_data c) in
      free_op (c_data c) (with_aio u (portico_aio_enqueue ok (u_aio u) (mk_compl user (c_result c)))) in
  with_inflight u1 (u32 (u_inflight u1 - 1)).

(** One turn of the inner loop of [uring_destroy]. *)
Definition discard_entry (c : cqe_t) (u : uring) : uring :=
  let u1 :=
    if (c_data c =? 0)%nat then u
    else free_op (c_data c) (discard u (default 0%nat (u_ops u !! c_data c))) in
  with_inflight u1 (u32 (u_inflight u1 - 1)).

Definition cq_entry (u : uring) (head : Z) : cqe_t :=
  default no_cqe (cqes (u_rings u) !! slot (cq_entries (u_rings u)) head).

(** The release of the consumed entries. *)
Definition store_cq_head (u : uring) (head : Z) : uring :=
  with_rings u (set_cq (u_rings u) head (cq_tail (u_rings u)) (cqes (u_rings u))).

(** The next step of the owning thread: [portico_aio_drain] with [uring_reap], or
    [uring_destroy].  [None]: it is outside both, or waits for the kernel. *)
Definition owner_step (ok : bool) (u : uring) : option uring :=
  let g := u_rings u in
  match u_phase u with
  | PRun =>
      match a_drain (u_aio u) with
      | DOut => None
      | DReset => Some (with_phase (with_aio u (drain_step (u_aio u))) (PReap (cq_head g) (cq_tail g)))
      | _ => Some (with_aio u (drain_step (u_aio u)))
      end
  | PReap head tail =>
      if head =? tail then Some (with_phase (store_cq_head u head) PRun)
      else Some (with_phase (reap_entry ok (cq_entry u head) u) (PReap (u32 (head + 1)) tail))
  | PDestroy =>
      if u_inflight u =? 0 then Some (with_phase u PDone)
      else if cq_head g =? cq_tail g then None
      else Some (with_phase u (PDiscard (cq_head g) (cq_tail g)))
  | PDiscard head tail =>
      if head =? tail then Some (with_phase (store_cq_head u head) PDestroy)
      else Some (with_phase (discard_entry (cq_entry u head) u) (PDiscard (u32 (head + 1)) tail))
  | PDone => None
  end.

(** Is the instance still in use? *)
Definition in_use (p : phase) : bool := match p with PRun | PReap _ _ => true | _ => false end.

(** [malloc] gives an address that is not in use, or NULL. *)
Definition malloc_ok (m : option nat) (u : uring) : Prop := ∀ p, m = Some p → p ≠ 0%nat ∧ u_ops u !! p = None.

(** One step of the system. *)
Inductive ustep (u : uring) : uring → Prop :=
| us_submit m r t b rc u' : in_use (u_phase u) = true → malloc_ok m u →
    portico_aio_pread (uring_submit m r) u t b = (rc, u') → ustep u u'
| us_event a : u_phase u = PRun → drain_on_event (u_aio u) = Some a → ustep u (with_aio u a)
| us_anytime a : u_phase u = PRun → drain_anytime (u_aio u) = Some a → ustep u (with_aio u a)
| us_owner ok u' : owner_step ok u = Some u' → ustep u u'
| us_destroy : u_phase u = PRun → a_drain (u_aio u) = DOut → ustep u (with_phase u PDestroy)
| us_complete i res u' : kernel_complete i res u = Some u' → ustep u u'
| us_signal u' : kernel_signal u = Some u' → ustep u u'.

(** The instance after [portico_aio_uring_init], on rings of [2 ^ k] and [2 ^ c] entries
    whose counters start anywhere. *)
Definition fresh_aio : aio := mk_aio 0 false false [] [] 0 0 false [] DOut [] [].
Definition uring_new (k c sq cq : Z) : uring :=
  mk_uring (mk_rings (u32 sq) (u32 sq) (2 ^ k) (replicate (Z.to_nat (2 ^ k)) 0) (replicate (Z.to_nat (2 ^ k)) no_sqe)
              (u32 cq) (u32 cq) (2 ^ c) (replicate (Z.to_nat (2 ^ c)) no_cqe))
    0 ∅ (mk_kernel [] 0 false) fresh_aio PRun false [].

(** ** Rings with wrapping indices *)

(** The [n] entries from [head] on, in ring order. *)
Definition ring_list (ring : list cqe_t) (size head : Z) (n : nat) : list cqe_t :=
  (λ i : nat, default no_cqe (ring !! slot size (head + Z.of_nat i))) <$> seq 0 n.

Lemma mod_distinct P i j : 0 < P → i < j < i + P → i mod P ≠ j mod P.
Proof.
  intros HP H E. assert (Hm : (j - i) mod P = 0).
  { rewrite Zminus_mod, E, Z.sub_diag. apply Z.mod_0_l. lia. }
  rewrite Z.mod_small in Hm; lia.
Qed.

Section Ring.
Variable k : Z.
Hypothesis Hk : 0 <= k <= 31.

Lemma slot_mod i : slot (2 ^ k) i = Z.to_nat (i mod 2 ^ k).
Proof. unfold slot. rewrite <- Z.land_ones by lia. by rewrite Z.ones_equiv. Qed.

(** Wrapping a 32-bit index does not move its slot. *)
Lemma slot_u32 i : slot (2 ^ k) (u32 i) = slot (2 ^ k) i.
Proof.
  rewrite !slot_mod. f_equal. unfold u32. apply Z.mod_mod_divide.
  exists (2 ^ (32 - k)). rewrite <- Z.pow_add_r by lia. f_equal. lia.
Qed.

Lemma slot_lt i : (slot (2 ^ k) i < Z.to_nat (2 ^ k))%nat.
Proof. rewrite slot_mod. pose proof (Z.mod_pos_bound i (2 ^ k) ltac:(apply Z.pow_pos_nonneg; lia)). lia. Qed.

(** Indices less than a ring apart have different slots. *)
Lemma slot_distinct i j : i < j < i + 2 ^ k → slot (2 ^ k) i ≠ slot (2 ^ k) j.
Proof.
  intros H. rewrite !slot_mod. intros E. apply (mod_distinct (2 ^ k) i j); [lia | done |].
  pose proof (Z.mod_pos_bound i (2 ^ k) ltac:(lia)). pose proof (Z.mod_pos_bound j (2 ^ k) ltac:(lia)). lia.
Qed.

Lemma length_ring_list ring h n : length (ring_list ring (2 ^ k) h n) = n.
Proof. unfold ring_list. by rewrite length_fmap, length_seq. Qed.

Lemma ring_list_u32 ring h n : ring_list ring (2 ^ k) (u32 h) n = ring_list ring (2 ^ k) h n.
Proof.
  unfold ring_list. apply list_fmap_ext. intros ? i _. f_equal. f_equal.
  rewrite <- (slot_u32 (u32 h + _)), <- (slot_u32 (h + _)). f_equal. unfold u32. by rewrite Zplus_mod_idemp_l.
Qed.

Lemma ring_list_snoc ring h n :
  ring_list ring (2 ^ k) h (S n) = ring_list ring (2 ^ k) h n ++ [default no_cqe (ring !! slot (2 ^ k) (h + Z.of_nat n))].
Proof. unfold ring_list. by rewrite seq_S, fmap_app. Qed.

Lemma ring_list_cons ring h n :
  ring_list ring (2 ^ k) h (S n) = default no_cqe (ring !! slot (2 ^ k) h) :: ring_list ring (2 ^ k) (h + 1) n.
Proof.
  unfold ring_list. rewrite <- cons_seq, fmap_cons, <- fmap_S_seq, <- list_fmap_compose. f_equal; [by rewrite Z.add_0_r |].
  apply list_fmap_ext. intros ? i _. cbn. f_equal. f_equal. f_equal. lia.
Qed.

Lemma ring_list_drop ring h n j :
  (j <= n)%nat → drop j (ring_list ring (2 ^ k) h n) = ring_list ring (2 ^ k) (h + Z.of_nat j) (n - j).
Proof.
  revert h n. induction j as [ | j IH]; intros h n Hj; [by rewrite Z.add_0_r, Nat.sub_0_r |].
  destruct n as [ | n]; [lia |]. rewrite ring_list_cons. cbn [drop]. rewrite IH by lia. f_equal. lia.
Qed.

(** A write behind the entries of a ring that is not full. *)
Lemma ring_list_push ring h n x :
  Z.of_nat (length ring) = 2 ^ k → Z.of_nat n < 2 ^ k →
  ring_list (<[slot (2 ^ k) (h + Z.of_nat n) := x]> ring) (2 ^ k) h (S n) = ring_list ring (2 ^ k) h n ++ [x].
Proof.
  intros Hl Hn. rewrite ring_list_snoc, list_lookup_insert_eq; [ | pose proof (slot_lt (h + Z.of_nat n)); lia]. f_equal.
  unfold ring_list. apply list_fmap_ext. intros ? i [-> Hi]%lookup_seq.
  rewrite list_lookup_insert_ne; [done |]. apply not_eq_sym, slot_distinct. lia.
Qed.

(** What the difference of two wrapped counters says. *)
Lemma u32_diff h n : 0 <= h < 2 ^ 32 → 0 <= n < 2 ^ 32 → u32 (u32 (h + n) - h) = n.
Proof. intros Hh Hn. unfold u32. rewrite Zminus_mod_idemp_l. replace (h + n - h) with n by lia. by apply Z.mod_small. Qed.

Lemma u32_add h a b : u32 (u32 (h + a) + b) = u32 (h + (a + b)).
Proof. unfold u32. rewrite Zplus_mod_idemp_l. f_equal. lia. Qed.

Lemma u32_neq h a b : 0 <= a → a < b → b - a < 2 ^ 32 → u32 (h + a) ≠ u32 (h + b).
Proof. unfold u32. intros. apply mod_distinct; lia. Qed.
End Ring.

(** ** Every read once *)

(** The operations the front end has got back. *)
Definition settled (a : aio) : list nat := (c_user <$> a_queue a) ++ firing (a_drain a) ++ ((λ x, x.1.1) <$> a_fired a).

(** The local indices of a loop over the completion ring: it took [j] entries of [m]. *)
Definition locals_ok (p : phase) (head : Z) (j m : nat) : Prop :=
  match p with
  | PReap h t | PDiscard h t => h = u32 (head + Z.of_nat j) ∧ t = u32 (head + Z.of_nat m) ∧ (j <= m)%nat
  | _ => j = 0%nat ∧ m = 0%nat
  end.

Definition published (u : uring) (n : nat) : list cqe_t :=
  ring_list (cqes (u_rings u)) (cq_entries (u_rings u)) (cq_head (u_rings u)) n.

(** The completion ring holds [n] entries, [j] of them taken by the running loop, which
    will take [m]; each read the kernel has or has completed has its context. *)
Record uinv (k c : Z) (u : uring) (n j m : nat) : Prop := mk_uinv {
  v_sizes : sq_entries (u_rings u) = 2 ^ k ∧ cq_entries (u_rings u) = 2 ^ c;
  v_arrays : Z.of_nat (length (sq_array (u_rings u))) = 2 ^ k ∧ Z.of_nat (length (sqes (u_rings u))) = 2 ^ k ∧
             Z.of_nat (length (cqes (u_rings u))) = 2 ^ c;
  v_sq : sq_head (u_rings u) = sq_tail (u_rings u);
  v_head : 0 <= cq_head (u_rings u) < 2 ^ 32;
  v_tail : cq_tail (u_rings u) = u32 (cq_head (u_rings u) + Z.of_nat n);
  v_locals : locals_ok (u_phase u) (cq_head (u_rings u)) j m;
  v_taken : (j <= m <= n)%nat ∧ Z.of_nat m <= 2 ^ k;
  v_inflight : u_inflight u = zlen (k_reads (u_kernel u)) + Z.of_nat n - Z.of_nat j ∧ u_inflight u <= 2 ^ k;
  v_ptrs : (s_data <$> k_reads (u_kernel u)) ++ (c_data <$> drop j (published u n)) ≡ₚ (map_to_list (u_ops u)).*1;
  v_null : u_ops u !! 0%nat = None;
  v_acc : a_accepted (u_aio u) ≡ₚ (map_to_list (u_ops u)).*2 ++ settled (u_aio u) ++ u_discarded u;
  v_kernel : k_dropped (u_kernel u) = 0;
  v_bad : u_bad u = false;
  v_done : u_phase u = PDone → u_inflight u = 0
}.

Definition uring_inv (k c : Z) (u : uring) : Prop := ∃ n j m, uinv k c u n j m.

Lemma drain_settled a : settled (drain_step a) ≡ₚ settled a ∧ a_accepted (drain_step a) = a_accepted a.
Proof.
  unfold drain_step. destruct (a_drain a) as [ | | | | x] eqn:E; [done | | | | ].
  - split_if; unfold settled; cbn; by rewrite E.
  - unfold settled. cbn. by rewrite E.
  - destruct (a_queue a) as [ | x q] eqn:EQ; unfold settled; cbn; rewrite E, EQ; [done |]. split; [ | done].
    rewrite fmap_cons. cbn. solve_Permutation.
  - unfold settled. cbn. rewrite E, fmap_app. cbn. split; [solve_Permutation | done].
Qed.

Section Invariant.
Variables k c : Z.
Hypothesis Hkc : 0 <= k < c ∧ c <= 31.

Lemma pow_room : 0 < 2 ^ k ∧ 2 ^ (k + 1) <= 2 ^ c ∧ 2 ^ (k + 1) = 2 * 2 ^ k ∧ 2 ^ c <= 2 ^ 31.
Proof.
  split_and!; [apply Z.pow_pos_nonneg; lia | apply Z.pow_le_mono_r; lia | | apply Z.pow_le_mono_r; lia].
  rewrite Z.pow_add_r by lia. lia.
Qed.

Lemma new_inv sq cq : uring_inv k c (uring_new k c sq cq).
Proof.
  pose proof pow_room. exists 0%nat, 0%nat, 0%nat. constructor; try done; unfold uring_new; cbn -[replicate]; rewrite ?length_replicate.
  - lia.
  - apply u32_range.
  - rewrite Z.add_0_r. unfold u32. by rewrite Z.mod_mod.
  - lia.
  - unfold zlen. cbn. lia.
Qed.

(** The entry the kernel consumes is the one just written. *)
Lemma submit_consumes u n j m p t :
  uinv k c u n j m →
  let g := u_rings u in let idx := slot (sq_entries g) (sq_tail g) in
  let s := mk_sqe (t_fd t) (u32 (t_len t)) (u64 (t_off t)) p in
  default no_sqe (<[idx := s]> (sqes g) !!
    Z.to_nat (default 0 (<[idx := Z.of_nat idx]> (sq_array g) !! slot (sq_entries g) (sq_head g)))) = s.
Proof.
  intros V. destruct (v_arrays _ _ _ _ _ _ V) as (H1 & H2 & _). destruct (v_sizes _ _ _ _ _ _ V) as [HS _].
  cbn zeta. rewrite HS, (v_sq _ _ _ _ _ _ V). pose proof (slot_lt k ltac:(lia) (sq_tail (u_rings u))).
  rewrite list_lookup_insert_eq by lia. cbn. rewrite Nat2Z.id, list_lookup_insert_eq by lia. done.
Qed.

Lemma submit_inv mm r t b rc u u' :
  uring_inv k c u → in_use (u_phase u) = true → malloc_ok mm u →
  portico_aio_pread (uring_submit mm r) u t b = (rc, u') → uring_inv k c u'.
Proof.
  intros (n & j & m & V) Hp Hm. unfold portico_aio_pread. repeat (split_if; [by intros [= <- <-]; exists n, j, m |]).
  pose proof (submit_consumes u n j m) as HC. unfold uring_submit. cbn zeta.
  destruct (_ <=? u_inflight u) eqn:EI; [by intros [= <- <-]; exists n, j, m |].
  destruct (_ <=? u32 _); [by intros [= <- <-]; exists n, j, m |].
  destruct mm as [p | ]; [ | by intros [= <- <-]; exists n, j, m].
  destruct (Hm p eq_refl) as [Hp0 Hpn]. specialize (HC p t V). cbn zeta in HC.
  destruct V as [V1 V2 V3 V4 V5 V6 V7 V8 V9 V10 V11 V12 V13 V14]. pose proof pow_room. zbool.
  destruct (r <? 0); intros [= <- <-]; exists n, j, m.
  - constructor; cbn; rewrite ?length_insert; try done. by rewrite delete_insert_id.
    all: rewrite ?delete_insert_id by done; done.
  - constructor; cbn -[map_to_list] in *; rewrite ?length_insert; try done.
    + by rewrite V3.
    + destruct V1 as [V1 _]. rewrite zlen_app. unfold zlen at 2. cbn. pose proof (zlen_nonneg (k_reads (u_kernel u))).
      rewrite u32_small by lia. lia.
    + rewrite HC, fmap_app, map_to_list_insert, fmap_cons by done. cbn. rewrite <- V9. unfold published. cbn. solve_Permutation.
    + by rewrite lookup_insert_ne.
    + rewrite map_to_list_insert by done. rewrite fmap_cons, V11. unfold settled. cbn. solve_Permutation.
    + by destruct (u_phase u).
Qed.

(** There is room for every completion: those the running loop took are not released
    yet, but it took at most as many as the submission ring holds. *)
Lemma ring_room u n j m : uinv k c u n j m → zlen (k_reads (u_kernel u)) + Z.of_nat n <= 2 ^ c.
Proof. intros V. pose proof pow_room. destruct (v_taken _ _ _ _ _ _ V), (v_inflight _ _ _ _ _ _ V). lia. Qed.

Lemma published_push u n j m x :
  uinv k c u n j m → Z.of_nat n < 2 ^ c →
  ring_list (<[slot (2 ^ c) (cq_tail (u_rings u)) := x]> (cqes (u_rings u))) (2 ^ c) (cq_head (u_rings u)) (S n) = published u n ++ [x].
Proof.
  intros V Hn. destruct (v_sizes _ _ _ _ _ _ V) as [_ HS]. destruct (v_arrays _ _ _ _ _ _ V) as (_ & _ & HL).
  rewrite (v_tail _ _ _ _ _ _ V), slot_u32 by lia. unfold published. rewrite HS. apply ring_list_push; [lia | done | done].
Qed.

Lemma complete_inv i res u u' : uring_inv k c u → kernel_complete i res u = Some u' → uring_inv k c u'.
Proof.
  intros (n & j & m & V). unfold kernel_complete. destruct (k_reads (u_kernel u) !! i) as [e | ] eqn:Ei; [ | done].
  pose proof (ring_room _ _ _ _ V) as HR. pose proof pow_room. destruct (v_sizes _ _ _ _ _ _ V) as [HS1 HS2].
  pose proof (delete_Permutation _ _ _ Ei) as HK.
  assert (Hz : zlen (k_reads (u_kernel u)) = zlen (delete i (k_reads (u_kernel u))) + 1).
  { unfold zlen. apply Permutation_length in HK. cbn in HK. lia. }
  pose proof (zlen_nonneg (delete i (k_reads (u_kernel u)))).
  pose proof (published_push u n j m (mk_cqe (s_data e) res) V ltac:(lia)) as HP.
  rewrite HS2, (v_tail _ _ _ _ _ _ V), u32_diff by (try lia; apply (v_head _ _ _ _ _ _ V)).
  destruct (_ <=? _) eqn:EF; [zbool; lia |]. rewrite <- (v_tail _ _ _ _ _ _ V). intros [= <-]. exists (S n), j, m.
  assert (Hl : length (published u n) = n) by (unfold published; rewrite HS2; apply length_ring_list).
  destruct V as [V1 V2 V3 V4 V5 V6 V7 V8 V9 V10 V11 V12 V13 V14].
  constructor; cbn -[map_to_list published]; rewrite ?length_insert; try done.
  - rewrite V5, u32_add. f_equal. lia.
  - lia.
  - lia.
  - unfold published at 1. cbn -[ring_list]. rewrite HS2, HP, drop_app_le by lia. rewrite <- V9, fmap_app.
    apply (fmap_Permutation s_data) in HK. rewrite fmap_cons in HK. rewrite HK. cbn. solve_Permutation.
Qed.

Lemma signal_inv u u' : uring_inv k c u → kernel_signal u = Some u' → uring_inv k c u'.
Proof.
  intros (n & j & m & V). unfold kernel_signal. destruct (k_unsignalled _); [ | done]. intros [= <-]. exists n, j, m.
  by destruct V.
Qed.

(** A change of the front end that keeps what it has got back. *)
Lemma front_inv u a : uring_inv k c u → settled a ≡ₚ settled (u_aio u) → a_accepted a = a_accepted (u_aio u) → uring_inv k c (with_aio u a).
Proof.
  intros (n & j & m & []) HS HA. exists n, j, m. constructor; try done. cbn. by rewrite HA, HS.
Qed.

(** The entry at the loop's [head] has its context. *)
Lemma head_entry u n j m :
  uinv k c u n j m → (j < n)%nat →
  let x := cq_entry u (u32 (cq_head (u_rings u) + Z.of_nat j)) in
  drop j (published u n) = x :: drop (S j) (published u n) ∧ c_data x ≠ 0%nat ∧ ∃ user, u_ops u !! c_data x = Some user.
Proof.
  intros V Hj. destruct (v_sizes _ _ _ _ _ _ V) as [HS1 HS2]. cbn zeta. set (x := cq_entry u _).
  assert (Hx : published u n !! j = Some x).
  { unfold published, ring_list, x, cq_entry. rewrite HS2, list_lookup_fmap, slot_u32 by lia.
    rewrite lookup_seq_lt by done. cbn. by rewrite Nat.add_0_l || done. }
  assert (Hd := drop_S _ _ _ Hx). split; [done |].
  assert (Hin : c_data x ∈ (map_to_list (u_ops u)).*1).
  { rewrite <- (v_ptrs _ _ _ _ _ _ V), Hd, fmap_cons. apply elem_of_app. right. by left. }
  apply list_elem_of_fmap in Hin as [[p user] [Hp Hin%elem_of_map_to_list]]. cbn in Hp. rewrite Hp. split; [ | by exists user].
  intros ->. rewrite (v_null _ _ _ _ _ _ V) in Hin. done.
Qed.

(** A loop that is not at its end looks at such an entry. *)
Lemma loop_entry u n j m h t :
  uinv k c u n j m → (u_phase u = PReap h t ∨ u_phase u = PDiscard h t) → h ≠ t →
  (j < m)%nat ∧ h = u32 (cq_head (u_rings u) + Z.of_nat j) ∧ t = u32 (cq_head (u_rings u) + Z.of_nat m) ∧
  drop j (published u n) = cq_entry u h :: drop (S j) (published u n) ∧
  c_data (cq_entry u h) ≠ 0%nat ∧ ∃ user, u_ops u !! c_data (cq_entry u h) = Some user.
Proof.
  intros V HP Hne. destruct (v_taken _ _ _ _ _ _ V) as [Ht1 Ht2].
  assert (HL : h = u32 (cq_head (u_rings u) + Z.of_nat j) ∧ t = u32 (cq_head (u_rings u) + Z.of_nat m)).
  { pose proof (v_locals _ _ _ _ _ _ V) as VL. destruct HP as [HP | HP]; rewrite HP in VL; cbn in VL; tauto. }
  destruct HL as [Eh Et].
  assert (Hjm : (j < m)%nat) by (destruct (decide (j = m)) as [-> | ]; [congruence | lia]).
  destruct (head_entry _ _ _ _ V ltac:(lia)) as (Hd & H0 & Hu). rewrite <- Eh in Hd, H0, Hu. done.
Qed.

(** Taking the entry at the loop's head, to settle it or to discard it. *)
Lemma take_inv u n j m h t a d p :
  uinv k c u n j m →
  u_phase u = PReap h t ∧ p = PReap (u32 (h + 1)) t ∨ u_phase u = PDiscard h t ∧ p = PDiscard (u32 (h + 1)) t →
  h ≠ t → a_accepted a = a_accepted (u_aio u) →
  (∀ user, u_ops u !! c_data (cq_entry u h) = Some user → settled a ++ d ≡ₚ user :: settled (u_aio u) ++ u_discarded u) →
  uinv k c (mk_uring (u_rings u) (u32 (u_inflight u - 1)) (delete (c_data (cq_entry u h)) (u_ops u)) (u_kernel u) a
              p (u_bad u || bool_decide (u_ops u !! c_data (cq_entry u h) = None)) d) n (S j) m.
Proof.
  intros V HP Hne HA1 HA. pose proof pow_room as HW. destruct (v_taken _ _ _ _ _ _ V) as [Ht1 Ht2].
  destruct (loop_entry u n j m h t V ltac:(tauto) Hne) as (Hjm & Eh & Et & Hd & H0 & user & Hu). set (x := cq_entry u h) in *.
  specialize (HA user Hu). pose proof (map_to_list_delete _ _ _ Hu) as HM. pose proof (zlen_nonneg (k_reads (u_kernel u))).
  destruct V as [V1 V2 V3 V4 V5 V6 V7 V8 V9 V10 V11 V12 V13 V14].
  constructor; cbn -[map_to_list]; try done.
  - destruct HP as [[_ ->] | [_ ->]]; cbn; (split_and!; [rewrite Eh, u32_add; f_equal; lia | done | lia]).
  - lia.
  - rewrite u32_small by lia. lia.
  - change (published _ n) with (published u n). rewrite Hd in V9. apply (fmap_Permutation fst) in HM. rewrite fmap_cons in HM.
    rewrite <- HM, fmap_cons in V9. cbn in V9. apply (Permutation_cons_inv (a := c_data x)). rewrite <- V9. solve_Permutation.
  - rewrite lookup_delete_ne by done. done.
  - rewrite HA1, V11. apply (fmap_Permutation snd) in HM. rewrite fmap_cons in HM. rewrite <- HM. cbn. rewrite HA. solve_Permutation.
  - rewrite V13, Hu. done.
  - by destruct HP as [[_ ->] | [_ ->]].
Qed.

Lemma store_head_inv u n j m h t p :
  uinv k c u n j m → (u_phase u = PReap h t ∨ u_phase u = PDiscard h t) → h = t → p = PRun ∨ p = PDestroy →
  uinv k c (with_phase (store_cq_head u h) p) (n - m) 0 0.
Proof.
  intros V HP Ht Hp. pose proof pow_room. destruct (v_sizes _ _ _ _ _ _ V) as [HS1 HS2].
  assert (HL : h = u32 (cq_head (u_rings u) + Z.of_nat j) ∧ t = u32 (cq_head (u_rings u) + Z.of_nat m)).
  { pose proof (v_locals _ _ _ _ _ _ V) as VL. destruct HP as [HP | HP]; rewrite HP in VL; cbn in VL; tauto. }
  destruct HL as [Eh Et]. pose proof (ring_room _ _ _ _ V) as HR. pose proof (zlen_nonneg (k_reads (u_kernel u))).
  destruct (v_taken _ _ _ _ _ _ V) as [Ht1 Ht2].
  assert (Hjm : j = m).
  { destruct (decide (j = m)) as [ | Hne]; [done |]. exfalso. apply (u32_neq (cq_head (u_rings u)) (Z.of_nat j) (Z.of_nat m)); try lia. }
  destruct V as [V1 V2 V3 V4 V5 V6 V7 V8 V9 V10 V11 V12 V13 V14]. rewrite <- Hjm.
  constructor; cbn -[map_to_list published]; try done.
  - rewrite Eh. apply u32_range.
  - rewrite Eh, V5, u32_add. f_equal. lia.
  - by destruct Hp as [-> | ->].
  - lia.
  - lia.
  - rewrite drop_0. rewrite <- V9. f_equiv. f_equiv. unfold published. cbn. rewrite HS2, Eh, ring_list_u32 by lia.
    rewrite ring_list_drop by lia. done.
  - by destruct Hp as [-> | ->].
Qed.

Lemma phase_inv u n j m p :
  uinv k c u n j m → locals_ok p (cq_head (u_rings u)) 0 0 → j = 0%nat → m = 0%nat → (p = PDone → u_inflight u = 0) →
  uring_inv k c (with_phase u p).
Proof. intros [] HL -> -> HD. exists n, 0%nat, 0%nat. by constructor. Qed.

(** A loop that starts takes what is published now. *)
Lemma start_loop_inv u n a (P : Z → Z → phase) :
  uinv k c u n 0 0 → P = PReap ∨ P = PDiscard → settled a ≡ₚ settled (u_aio u) → a_accepted a = a_accepted (u_aio u) →
  uinv k c (with_phase (with_aio u a) (P (cq_head (u_rings u)) (cq_tail (u_rings u)))) n 0 n.
Proof.
  intros V HP HS HA. pose proof pow_room. pose proof (zlen_nonneg (k_reads (u_kernel u))).
  destruct V as [V1 V2 V3 V4 V5 V6 V7 V8 V9 V10 V11 V12 V13 V14]. constructor; cbn -[map_to_list]; try done.
  - destruct HP as [-> | ->]; cbn; (split_and!; [rewrite Z.add_0_r, u32_small; lia | done | lia]).
  - lia.
  - by rewrite HA, HS.
  - by destruct HP as [-> | ->].
Qed.

Lemma settled_enqueue ok a x : settled (portico_aio_enqueue ok a x) ≡ₚ c_user x :: settled a ∧
  a_accepted (portico_aio_enqueue ok a x) = a_accepted a.
Proof. destruct ok; unfold settled; cbn; rewrite fmap_app; cbn; (split; [solve_Permutation | done]). Qed.

(** One step of a loop that is not at its end. *)
Lemma reap_step ok u n j m h t :
  uinv k c u n j m → u_phase u = PReap h t → h ≠ t →
  ∃ u' user, owner_step ok u = Some u' ∧ uinv k c u' n (S j) m ∧ u_phase u' = PReap (u32 (h + 1)) t ∧
    drop j (published u n) = cq_entry u h :: drop (S j) (published u n) ∧ u_ops u !! c_data (cq_entry u h) = Some user ∧
    u_ops u' = delete (c_data (cq_entry u h)) (u_ops u) ∧ u_rings u' = u_rings u ∧ u_kernel u' = u_kernel u ∧
    u_aio u' = portico_aio_enqueue ok (u_aio u) (mk_compl user (c_result (cq_entry u h))).
Proof.
  intros V HP Hne. destruct (loop_entry u n j m h t V ltac:(by left) Hne) as (_ & _ & _ & Hd & H0 & user & Hx).
  unfold owner_step. rewrite HP, (proj2 (Z.eqb_neq _ _) Hne).
  unfold reap_entry. rewrite (proj2 (Nat.eqb_neq _ _) H0), Hx. cbn [default].
  destruct (settled_enqueue ok (u_aio u) (mk_compl user (c_result (cq_entry u h)))) as [HS HA].
  eexists _, user. split; [done |]. split_and!; try done.
  apply (take_inv u n j m h t _ _ _ V); [by left | done | done |]. intros user'. rewrite Hx. intros [= <-]. by rewrite HS.
Qed.

Lemma discard_step ok u n j m h t :
  uinv k c u n j m → u_phase u = PDiscard h t → h ≠ t →
  ∃ u', owner_step ok u = Some u' ∧ uinv k c u' n (S j) m ∧ u_phase u' = PDiscard (u32 (h + 1)) t ∧ u_kernel u' = u_kernel u.
Proof.
  intros V HP Hne. destruct (loop_entry u n j m h t V ltac:(by right) Hne) as (_ & _ & _ & _ & H0 & user & Hx).
  unfold owner_step. rewrite HP, (proj2 (Z.eqb_neq _ _) Hne).
  unfold discard_entry. rewrite (proj2 (Nat.eqb_neq _ _) H0), Hx. cbn [default].
  eexists. split; [done |]. split_and!; try done.
  apply (take_inv u n j m h t _ _ _ V); [by right | done | done |]. intros user'. rewrite Hx. intros [= <-]. solve_Permutation.
Qed.

Lemma owner_inv ok u u' : uring_inv k c u → owner_step ok u = Some u' → uring_inv k c u'.
Proof.
  intros Hu. unfold owner_step. pose proof (drain_settled (u_aio u)) as [HD1 HD2].
  destruct (u_phase u) as [ | h t | | h t | ] eqn:EP; [ | | | | done].
  - destruct Hu as (n & j & m & V). assert (Hjm : j = 0%nat ∧ m = 0%nat) by (pose proof (v_locals _ _ _ _ _ _ V) as VL; by rewrite EP in VL).
    destruct Hjm as [-> ->].
    destruct (a_drain (u_aio u)) eqn:ED; intros [= <-]; try (apply front_inv; [by exists n, 0%nat, 0%nat | done | done]).
    exists n, 0%nat, n. apply (start_loop_inv u n (drain_step (u_aio u)) PReap V); [by left | done | done].
  - destruct Hu as (n & j & m & V). destruct (h =? t) eqn:Eht; zbool.
    + intros H; apply Some_inj in H as <-. eexists _, _, _. eapply store_head_inv; [exact V | by left | done | by left].
    + destruct (reap_step ok u n j m h t V EP Eht) as (u1 & user & HE & HV & _). unfold owner_step in HE.
      rewrite EP, (proj2 (Z.eqb_neq _ _) Eht) in HE. rewrite HE. intros [= <-]. by exists n, (S j), m.
  - destruct Hu as (n & j & m & V). assert (Hjm : j = 0%nat ∧ m = 0%nat) by (pose proof (v_locals _ _ _ _ _ _ V) as VL; by rewrite EP in VL).
    destruct Hjm as [-> ->]. destruct (u_inflight u =? 0) eqn:E0; [ | destruct (cq_head (u_rings u) =? _); [done |]]; intros H; apply Some_inj in H as <-; zbool.
    + by eapply phase_inv.
    + exists n, 0%nat, n. by apply (start_loop_inv u n (u_aio u) PDiscard V); [right | ..].
  - destruct Hu as (n & j & m & V). destruct (h =? t) eqn:Eht; zbool.
    + intros H; apply Some_inj in H as <-. eexists _, _, _. eapply store_head_inv; [exact V | by right | done | by right].
    + destruct (discard_step ok u n j m h t V EP Eht) as (u1 & HE & HV & _). unfold owner_step in HE.
      rewrite EP, (proj2 (Z.eqb_neq _ _) Eht) in HE. rewrite HE. intros [= <-]. by exists n, (S j), m.
Qed.

Lemma uring_step_inv u u' : uring_inv k c u → ustep u u' → uring_inv k c u'.
Proof.
  intros Hu [mm r t b rc u1 HU HM H | a HU H | a HU H | ok u1 H | HU H | i res u1 H | u1 H].
  - by eapply submit_inv.
  - unfold drain_on_event in H. destruct (a_drain (u_aio u)) eqn:HE; try done; repeat case_match; simplify_eq.
    apply front_inv; [done | | done]. unfold settled. cbn. by rewrite HE.
  - unfold drain_anytime in H. destruct (a_drain (u_aio u)) eqn:HE; try done; repeat case_match; simplify_eq.
    apply front_inv; [done | | done]. unfold settled. cbn. by rewrite HE.
  - by eapply owner_inv.
  - destruct Hu as (n & j & m & V). pose proof (v_locals _ _ _ _ _ _ V) as VL. rewrite HU in VL. destruct VL as [-> ->].
    by eapply phase_inv.
  - by eapply complete_inv.
  - by eapply signal_inv.
Qed.

Lemma reach_uring sq cq u : reach ustep (uring_new k c sq cq) u → uring_inv k c u.
Proof. apply reach_invariant; [apply new_inv | intros a b; apply uring_step_inv]. Qed.

(** ** The owning thread alone *)

Fixpoint owner_run (n : nat) (u : uring) : uring :=
  match n with
  | O => u
  | S m => match owner_step true u with Some u' => owner_run m u' | None => u end
  end.

Lemma owner_run_step n u u' : owner_step true u = Some u' → owner_run (S n) u = owner_run n u'.
Proof. intros H. cbn [owner_run]. by rewrite H. Qed.

(** The completions of entries, with the contexts [ops]. *)
Definition completions (ops : gmap nat nat) (l : list cqe_t) : list completion :=
  (λ x, mk_compl (default 0%nat (ops !! c_data x)) (c_result x)) <$> l.

(** Entries still to be taken keep their contexts when another is freed. *)
Lemma completions_delete u n j m x l :
  uinv k c u n j m → drop j (published u n) = x :: l → completions (delete (c_data x) (u_ops u)) l = completions (u_ops u) l.
Proof.
  intros V Hd. apply list_fmap_ext. intros i y Hy. f_equal. f_equal. apply lookup_delete_ne. intros E.
  pose proof (NoDup_fst_map_to_list (u_ops u)) as HN. rewrite <- (v_ptrs _ _ _ _ _ _ V), Hd, fmap_cons in HN.
  apply NoDup_app in HN as (_ & _ & HN). apply NoDup_cons in HN as [HN _]. apply HN. rewrite E.
  apply list_elem_of_fmap. exists y. split; [done |]. by eapply list_elem_of_lookup_2.
Qed.

(** [uring_reap] hands over what it saw published, in ring order, and releases it. *)
Lemma reap_run u n j m h t d :
  (m - j)%nat = d → uinv k c u n j m → u_phase u = PReap h t →
  ∃ e, (∀ N, owner_run (d + 1 + N) u = owner_run N e) ∧ uinv k c e (n - m) 0 0 ∧ u_phase e = PRun ∧ u_kernel e = u_kernel u ∧
    u_aio e = with_queue (u_aio u) (a_queue (u_aio u) ++ completions (u_ops u) (take d (drop j (published u n)))) ∧
    cq_tail (u_rings e) = cq_tail (u_rings u).
Proof.
  revert u j h. induction d as [ | d IH]; intros u j h Hd V HP.
  - assert (Hj : j = m) by (destruct (v_taken _ _ _ _ _ _ V); lia). subst j.
    assert (Eh : h = t) by (pose proof (v_locals _ _ _ _ _ _ V) as VL; rewrite HP in VL; cbn in VL; destruct VL as (-> & -> & _); done).
    exists (with_phase (store_cq_head u h) PRun). split_and!; try done.
    + intros N. cbn [Nat.add]. apply owner_run_step. unfold owner_step. by rewrite HP, Eh, Z.eqb_refl.
    + eapply store_head_inv; [done | by left | done | by left].
    + cbn. rewrite app_nil_r. by destruct (u_aio u).
  - assert (Hne : h ≠ t).
    { pose proof (v_locals _ _ _ _ _ _ V) as VL. rewrite HP in VL. cbn in VL. destruct VL as (-> & -> & Hjm).
      pose proof pow_room. destruct (v_taken _ _ _ _ _ _ V). apply u32_neq; lia. }
    destruct (reap_step true u n j m h t V HP Hne) as (u1 & user & HE & V1 & HP1 & Hdr & Hx & HO & HR & HK & HA).
    destruct (IH u1 (S j) _ ltac:(lia) V1 HP1) as (e & R1 & R2 & R3 & R4 & R5 & R6). exists e. split_and!; try done.
    + intros N. cbn [Nat.add]. rewrite <- (R1 N). by apply owner_run_step.
    + by rewrite R4.
    + assert (Hpub : published u1 n = published u n) by (unfold published; by rewrite HR).
      rewrite R5, HA, Hpub, HO. unfold with_queue. cbn. f_equal. rewrite <- app_assoc. f_equal. rewrite Hdr. cbn [take].
      unfold completions at 2. rewrite fmap_cons, Hx. cbn [default app]. f_equal.
      unfold completions in *. rewrite !fmap_take. f_equal. by apply (completions_delete u n j m).
    + by rewrite R6, HR.
Qed.

(** The inner loop of [uring_destroy] alone. *)
Lemma discard_run u n j m h t d :
  (m - j)%nat = d → uinv k c u n j m → u_phase u = PDiscard h t →
  ∃ e, (∀ N, owner_run (d + 1 + N) u = owner_run N e) ∧ uinv k c e (n - m) 0 0 ∧ u_phase e = PDestroy ∧ u_kernel e = u_kernel u.
Proof.
  revert u j h. induction d as [ | d IH]; intros u j h Hd V HP.
  - assert (Hj : j = m) by (destruct (v_taken _ _ _ _ _ _ V); lia). subst j.
    assert (Eh : h = t) by (pose proof (v_locals _ _ _ _ _ _ V) as VL; rewrite HP in VL; cbn in VL; destruct VL as (-> & -> & _); done).
    exists (with_phase (store_cq_head u h) PDestroy). split_and!; try done.
    + intros N. cbn [Nat.add]. apply owner_run_step. unfold owner_step. by rewrite HP, Eh, Z.eqb_refl.
    + eapply store_head_inv; [done | by right | done | by right].
  - assert (Hne : h ≠ t).
    { pose proof (v_locals _ _ _ _ _ _ V) as VL. rewrite HP in VL. cbn in VL. destruct VL as (-> & -> & Hjm).
      pose proof pow_room. destruct (v_taken _ _ _ _ _ _ V). apply u32_neq; lia. }
    destruct (discard_step true u n j m h t V HP Hne) as (u1 & HE & V1 & HP1 & HK).
    destruct (IH u1 (S j) _ ltac:(lia) V1 HP1) as (e & R1 & R2 & R3 & R4). exists e. split_and!; try done.
    + intros N. cbn [Nat.add]. rewrite <- (R1 N). by apply owner_run_step.
    + by rewrite R4.
Qed.

(** [uring_destroy] at the head of its loop: it is done, or a completion is there, or the
    kernel still has one to give. *)
Lemma destroy_waits u n :
  uinv k c u n 0 0 → u_inflight u ≠ 0 → cq_head (u_rings u) = cq_tail (u_rings u) → k_reads (u_kernel u) ≠ [].
Proof.
  intros V Hi Ht EK. pose proof pow_room. pose proof (ring_room _ _ _ _ V) as HR. rewrite EK in HR. unfold zlen in HR. cbn in HR.
  destruct (v_inflight _ _ _ _ _ _ V) as [Hn _]. rewrite EK in Hn. unfold zlen in Hn. cbn in Hn. pose proof (v_head _ _ _ _ _ _ V).
  rewrite (v_tail _ _ _ _ _ _ V) in Ht. apply (u32_neq (cq_head (u_rings u)) 0 (Z.of_nat n)); try lia. by rewrite Z.add_0_r, u32_small.
Qed.

Lemma destroy_run u n :
  uinv k c u n 0 0 → u_phase u = PDestroy → k_reads (u_kernel u) = [] → u_phase (owner_run (n + 3) u) = PDone.
Proof.
  intros V HP HK. destruct (decide (u_inflight u = 0)) as [Ei | Ei].
  { replace (n + 3)%nat with (S (n + 2)) by lia. rewrite (owner_run_step _ u (with_phase u PDone)) by (unfold owner_step; by rewrite HP, Ei).
    by destruct n. }
  assert (Ht : cq_head (u_rings u) ≠ cq_tail (u_rings u)) by (intros Ht; by apply (destroy_waits u n V Ei Ht)).
  replace (n + 3)%nat with (S (n + 1 + 1)) by lia.
  rewrite (owner_run_step _ u (with_phase u (PDiscard (cq_head (u_rings u)) (cq_tail (u_rings u)))))
    by (unfold owner_step; by rewrite HP, (proj2 (Z.eqb_neq _ _) Ei), (proj2 (Z.eqb_neq _ _) Ht)).
  pose proof (start_loop_inv u n (u_aio u) PDiscard V ltac:(by right) ltac:(done) ltac:(done)) as V1.
  destruct (discard_run _ n 0 n _ _ n ltac:(lia) V1 eq_refl) as (e & R1 & R2 & R3 & R4).
  assert (E1 : with_aio u (u_aio u) = u) by (by destruct u). rewrite E1 in R1, R4. rewrite R1. cbn in R4. rewrite HK in R4 || idtac.
  destruct (v_inflight _ _ _ _ _ _ R2) as [Hi _]. rewrite R4, HK, Nat.sub_diag in Hi. unfold zlen in Hi. cbn in Hi.
  cbn [owner_run]. unfold owner_step. by rewrite R3, Hi.
Qed.
End Invariant.

(** ** Wakeups *)

(** What the owning thread has seen of the completion ring. *)
Definition seen (u : uring) : Z := match u_phase u with PReap _ t => t | _ => cq_head (u_rings u) end.

Record uwake (u : uring) : Prop := mk_uwake {
  w_ring : in_use (u_phase u) = true → cq_tail (u_rings u) ≠ seen u →
    k_unsignalled (u_kernel u) = true ∨ epoll_event (u_aio u) = true ∨ u_phase u = PRun ∧ before_reset (u_aio u);
  w_queue : u_phase u = PRun → a_queue (u_aio u) ≠ [] → will_pop (u_aio u) ∨ before_reset (u_aio u);
  w_reap : ∀ h t, u_phase u = PReap h t → a_drain (u_aio u) = DPop;
  w_counter : 0 <= a_counter (u_aio u)
}.

(** Submitting touches nothing the wakeup depends on. *)
Lemma submit_wake_frame mm r u t rc u' :
  uring_submit mm r u t = (rc, u') →
  u_phase u' = u_phase u ∧ cq_tail (u_rings u') = cq_tail (u_rings u) ∧ cq_head (u_rings u') = cq_head (u_rings u) ∧
  k_unsignalled (u_kernel u') = k_unsignalled (u_kernel u) ∧ a_drain (u_aio u') = a_drain (u_aio u) ∧
  a_queue (u_aio u') = a_queue (u_aio u) ∧ a_counter (u_aio u') = a_counter (u_aio u) ∧ a_edge (u_aio u') = a_edge (u_aio u).
Proof. unfold uring_submit. cbn zeta. intros H. repeat case_match; simplify_eq; done. Qed.

Lemma submit_uwake mm r u t b rc u' : uwake u → portico_aio_pread (uring_submit mm r) u t b = (rc, u') → uwake u'.
Proof.
  unfold portico_aio_pread. repeat (split_if; [by intros ? [= <- <-] |]). intros [W1 W2 W3 W4] H.
  apply submit_wake_frame in H as (E1 & E2 & E3 & E4 & E5 & E6 & E7 & E8).
  constructor; unfold seen, will_pop, before_reset, epoll_event in *; rewrite ?E1, ?E2, ?E3, ?E4, ?E5, ?E6, ?E7, ?E8; done.
Qed.

Lemma drain_uwake u : uwake u → u_phase u = PRun → a_drain (u_aio u) ≠ DReset → uwake (with_aio u (drain_step (u_aio u))).
Proof.
  intros [W1 W2 W3 W4] HP HD. unfold seen in W1. rewrite HP in W1, W2. specialize (W1 eq_refl). specialize (W2 eq_refl).
  unfold drain_step. destruct (a_drain (u_aio u)) as [ | | | | x] eqn:ED; [ | | done | | ].
  - constructor; unfold seen; cbn; rewrite ?HP; done.
  - split_if; constructor; unfold seen; cbn; rewrite ?HP; try done; intros _ _;
      unfold before_reset, will_pop; cbn; rewrite ?ED; tauto.
  - assert (Hnb : ¬ before_reset (u_aio u)) by (unfold before_reset; rewrite ED; by intros [? | ?]).
    destruct (a_queue (u_aio u)) as [ | x q] eqn:EQ; constructor; unfold seen; cbn; rewrite ?HP, ?EQ; try done.
    + intros _ Ht. destruct (W1 Ht) as [? | [? | [_ ?]]]; [by left | by right; left | done].
    + intros _ Ht. destruct (W1 Ht) as [? | [? | [_ ?]]]; [by left | by right; left | done].
    + intros _ _. left. right. by exists x.
  - assert (Hnb : ¬ before_reset (u_aio u)) by (unfold before_reset; rewrite ED; by intros [? | ?]).
    constructor; unfold seen; cbn; rewrite ?HP; try done.
    + intros _ Ht. destruct (W1 Ht) as [? | [? | [_ ?]]]; [by left | by right; left | done].
    + intros _ _. left. by left.
Qed.

(** The loops of the back end change neither the eventfd nor the drain. *)
Lemma reap_entry_frame ok x u :
  let u' := reap_entry ok x u in
  u_rings u' = u_rings u ∧ u_kernel u' = u_kernel u ∧ a_drain (u_aio u') = a_drain (u_aio u) ∧
  a_counter (u_aio u') = a_counter (u_aio u) ∧ a_edge (u_aio u') = a_edge (u_aio u).
Proof. unfold reap_entry. cbn zeta. split_if; [done |]. by destruct ok. Qed.

Lemma discard_entry_frame x u : a_counter (u_aio (discard_entry x u)) = a_counter (u_aio u).
Proof. unfold discard_entry. cbn zeta. by split_if. Qed.

Lemma owner_uwake ok u u' : uwake u → owner_step ok u = Some u' → uwake u'.
Proof.
  intros HW. unfold owner_step. destruct (u_phase u) as [ | h t | | h t | ] eqn:EP; [ | | | | done].
  - destruct (a_drain (u_aio u)) eqn:ED; intros H; try done; apply Some_inj in H as <-;
      try (apply drain_uwake; [done | done | by rewrite ED]).
    destruct HW as [W1 W2 W3 W4]. unfold drain_step. rewrite ED. by constructor.
  - destruct HW as [W1 W2 W3 W4]. unfold seen in W1. rewrite EP in W1. specialize (W1 eq_refl). specialize (W3 _ _ EP).
    assert (Hnb : ∀ p, ¬ (p = PRun ∧ before_reset (u_aio u))) by (unfold before_reset; rewrite W3; by intros p [_ [? | ?]]).
    destruct (h =? t) eqn:Eht; zbool; intros H; apply Some_inj in H as <-.
    + constructor; unfold seen; cbn; try done.
      * intros _ Ht. rewrite Eht in Ht. destruct (W1 Ht) as [? | [? | [? _]]]; [by left | by right; left | done].
      * intros _ _. left. by left.
    + pose proof (reap_entry_frame ok (cq_entry u h) u) as (F1 & F2 & F3 & F4 & F5).
      set (u1 := reap_entry _ _ _) in *. clearbody u1. constructor; unfold seen, epoll_event; cbn; rewrite ?F1, ?F2, ?F3, ?F4, ?F5; try done.
      intros _ Ht. destruct (W1 Ht) as [? | [? | [? _]]]; [by left | by right; left | done].
  - destruct HW as [W1 W2 W3 W4]. split_if; [ | split_if; [done |]]; intros H; apply Some_inj in H as <-; by constructor.
  - destruct HW as [W1 W2 W3 W4]. split_if; intros H; apply Some_inj in H as <-; constructor; try done.
    change (0 <= a_counter (u_aio (discard_entry (cq_entry u h) u))). by rewrite discard_entry_frame.
Qed.

Lemma complete_uwake i res u u' : uwake u → kernel_complete i res u = Some u' → uwake u'.
Proof.
  intros [W1 W2 W3 W4]. unfold kernel_complete. destruct (k_reads (u_kernel u) !! i); [ | done].
  split_if; intros H; apply Some_inj in H as <-; constructor; try done. intros _ _. by left.
Qed.

Lemma step_uwake u u' : uwake u → ustep u u' → uwake u'.
Proof.
  intros HW [mm r t b rc u1 HU HM H | a HU H | a HU H | ok u1 H | HU H | i res u1 H | u1 H].
  - by eapply submit_uwake.
  - unfold drain_on_event in H. destruct (a_drain (u_aio u)); try done. destruct (epoll_event _); [ | done]. injection H as <-.
    destruct HW as [W1 W2 W3 W4]. constructor; try done.
    + intros _ _. right; right. split; [done | by left].
    + intros _ _. right. by left.
    + intros h t E. cbn in E. congruence.
  - unfold drain_anytime in H. destruct (a_drain (u_aio u)); try done. injection H as <-.
    destruct HW as [W1 W2 W3 W4]. constructor; try done.
    + intros _ _. right; right. split; [done | by left].
    + intros _ _. right. by left.
    + intros h t E. cbn in E. congruence.
  - by eapply owner_uwake.
  - destruct HW as [W1 W2 W3 W4]. by constructor.
  - by eapply complete_uwake.
  - unfold kernel_signal in H. destruct (k_unsignalled _); [ | done]. injection H as <-. destruct HW as [W1 W2 W3 W4].
    constructor; cbn; try done; [ | lia]. intros _ _. right; left. unfold epoll_event. cbn. rewrite (proj2 (Z.ltb_lt 0 _)) by lia. done.
Qed.

Lemma reach_uwake k c sq cq u : reach ustep (uring_new k c sq cq) u → uwake u.
Proof. apply reach_invariant; [by constructor | intros a b; apply step_uwake]. Qed.

(** ** Theorems *)

(** The entries published and not released. *)
Definition unreaped (u : uring) : list cqe_t := published u (Z.to_nat (u32 (cq_tail (u_rings u) - cq_head (u_rings u)))).

Lemma unreaped_published k c u n j m : 0 <= k < c ∧ c <= 31 → uinv k c u n j m → unreaped u = published u n.
Proof.
  intros Hkc V. unfold unreaped. f_equal. pose proof (ring_room k c Hkc _ _ _ _ V). pose proof (pow_room k c Hkc).
  pose proof (zlen_nonneg (k_reads (u_kernel u))).
  rewrite (v_tail _ _ _ _ _ _ V), u32_diff by (apply (v_head _ _ _ _ _ _ V) || lia). lia.
Qed.

(** C37. With io_uring every accepted read is completed exactly once, for every order of
    completion and every start value of the wrapping ring counters: in each reachable state
    the accepted operations are, as a multiset, those whose context is still allocated,
    those the front end has got back and those thrown away by [uring_destroy]; the contexts
    are as many as the reads in flight, at most the submission ring's size; no completion
    ever found the completion ring full and no context was used after its release; and once
    [uring_destroy] has returned the kernel has no read left and every context is freed. *)
Theorem uring_exactly_once k c sq cq u :
  0 <= k < c ∧ c <= 31 → reach ustep (uring_new k c sq cq) u →
  a_accepted (u_aio u) ≡ₚ (map_to_list (u_ops u)).*2 ++ settled (u_aio u) ++ u_discarded u ∧
  Z.of_nat (size (u_ops u)) = u_inflight u ∧ u_inflight u <= 2 ^ k ∧
  k_dropped (u_kernel u) = 0 ∧ u_bad u = false ∧
  (u_phase u = PDone → u_ops u = ∅ ∧ k_reads (u_kernel u) = []).
Proof.
  intros Hkc HR. destruct (reach_uring k c Hkc sq cq u HR) as (n & j & m & V).
  pose proof (v_inflight _ _ _ _ _ _ V) as [Hi1 Hi2]. destruct (v_taken _ _ _ _ _ _ V) as [Ht _].
  assert (Hs : Z.of_nat (size (u_ops u)) = u_inflight u).
  { rewrite <- length_map_to_list, <- (length_fmap fst), <- (v_ptrs _ _ _ _ _ _ V), length_app, !length_fmap, length_drop.
    unfold published. destruct (v_sizes _ _ _ _ _ _ V) as [_ ->]. rewrite length_ring_list. rewrite Hi1. unfold zlen. lia. }
  split_and!; [apply (v_acc _ _ _ _ _ _ V) | done | done | apply (v_kernel _ _ _ _ _ _ V) | apply (v_bad _ _ _ _ _ _ V) |].
  intros HP. pose proof (v_done _ _ _ _ _ _ V HP) as H0. rewrite H0 in *. split.
  - apply map_size_empty_inv. lia.
  - apply zlen_0_nil. pose proof (zlen_nonneg (k_reads (u_kernel u))). lia.
Qed.

(** [uring_destroy] never waits for ever: at the head of its loop, with reads in flight and
    an empty completion ring the kernel still has a read to complete, and once it has none
    the loop ends by itself. *)
Theorem uring_destroy_ends k c sq cq u :
  0 <= k < c ∧ c <= 31 → reach ustep (uring_new k c sq cq) u → u_phase u = PDestroy →
  (u_inflight u ≠ 0 → cq_head (u_rings u) = cq_tail (u_rings u) → k_reads (u_kernel u) ≠ []) ∧
  (k_reads (u_kernel u) = [] → u_phase (owner_run (length (unreaped u) + 3) u) = PDone).
Proof.
  intros Hkc HR HP. destruct (reach_uring k c Hkc sq cq u HR) as (n & j & m & V).
  pose proof (v_locals _ _ _ _ _ _ V) as VL. rewrite HP in VL. destruct VL as [-> ->]. split.
  - by apply (destroy_waits k c Hkc u n).
  - intros HK. rewrite (unreaped_published _ _ _ _ _ _ Hkc V). unfold published. destruct (v_sizes _ _ _ _ _ _ V) as [_ ->].
    rewrite length_ring_list. by apply (destroy_run k c Hkc).
Qed.

(** io_uring keeps the contract of [Aio] while the instance is in use. *)
Definition new_ring (u : uring) : Prop := ∃ k c sq cq, (0 <= k < c ∧ c <= 31) ∧ u = uring_new k c sq cq.

#[export] Instance uring_contract : AioContract ustep new_ring.
Proof.
  refine {| op_accepted u := a_accepted (u_aio u);
            op_unfinished u := (map_to_list (u_ops u)).*2 ++ (c_user <$> a_queue (u_aio u)) ++ firing (a_drain (u_aio u)) ++ u_discarded u;
            op_fired u := a_fired (u_aio u) |}.
  intros u0 u (k & c & sq & cq & Hkc & ->) HR. destruct (reach_uring k c Hkc sq cq u HR) as (n & j & m & V).
  rewrite (v_acc _ _ _ _ _ _ V). unfold settled. rewrite <- !app_assoc. solve_Permutation.
Defined.

(** Popping alone runs as with any other back end. *)
Lemma pop_owner N u : u_phase u = PRun → (a_drain (u_aio u) = DPop ∨ (∃ x, a_drain (u_aio u) = DFire x) ∨ a_drain (u_aio u) = DOut) →
  owner_run N u = with_aio u (drain_run N (u_aio u)).
Proof.
  revert u. induction N as [ | N IH]; intros u HP HD; [by destruct u |].
  destruct HD as [ED | [[x ED] | ED]].
  - rewrite (owner_run_step _ _ (with_aio u (drain_step (u_aio u)))) by (unfold owner_step; by rewrite HP, ED).
    rewrite IH; [done | done |]. unfold drain_step. rewrite ED. cbn. destruct (a_queue (u_aio u)) as [ | x q]; cbn; eauto.
  - rewrite (owner_run_step _ _ (with_aio u (drain_step (u_aio u)))) by (unfold owner_step; by rewrite HP, ED).
    rewrite IH; [done | done |]. unfold drain_step. rewrite ED. cbn. eauto.
  - cbn [owner_run drain_run]. unfold owner_step. rewrite HP, ED.
    assert (E : ∀ M, drain_run M (drain_step (u_aio u)) = u_aio u).
    { intros M. unfold drain_step. rewrite ED. induction M as [ | M IHM]; [done |]. cbn. unfold drain_step. by rewrite ED. }
    rewrite E. by destruct u.
Qed.

(** No completion is stranded by io_uring: in each reachable state with completions in
    the ring, the event thread outside the drain and the kernel's signal given, the
    edge-triggered event loop has an event pending, and the drain it then calls, alone,
    fires the callback of every completion in the ring, in ring order, with its result, on
    the event thread, leaves both queues empty and returns within [3 n + 5] steps for [n]
    completions. *)
Theorem uring_wakeup_drains k c sq cq u :
  0 <= k < c ∧ c <= 31 → reach ustep (uring_new k c sq cq) u →
  u_phase u = PRun → a_drain (u_aio u) = DOut → k_unsignalled (u_kernel u) = false → unreaped u ≠ [] →
  epoll_event (u_aio u) = true ∧
  ∃ a, drain_on_event (u_aio u) = Some a ∧
    let e := owner_run (3 * length (unreaped u) + 5) (with_aio u a) in
    u_phase e = PRun ∧ a_drain (u_aio e) = DOut ∧ a_queue (u_aio e) = [] ∧ unreaped e = [] ∧
    a_fired (u_aio e) = a_fired (u_aio u) ++ fired_by_drain (completions (u_ops u) (unreaped u)).
Proof.
  intros Hkc HR HP HD HK HU. destruct (reach_uring k c Hkc sq cq u HR) as (n & j & m & V).
  pose proof (reach_uwake _ _ _ _ _ HR) as [W1 W2 _ _]. unfold seen in W1. rewrite HP in W1, W2.
  pose proof (v_locals _ _ _ _ _ _ V) as VL. rewrite HP in VL. destruct VL as [-> ->].
  pose proof (unreaped_published _ _ _ _ _ _ Hkc V) as EU. rewrite EU in *.
  assert (Hl : length (published u n) = n) by (unfold published; destruct (v_sizes _ _ _ _ _ _ V) as [_ ->]; apply length_ring_list).
  assert (Hnb : ¬ before_reset (u_aio u)) by (unfold before_reset; rewrite HD; by intros [? | ?]).
  assert (HQ : a_queue (u_aio u) = []).
  { destruct (a_queue (u_aio u)) eqn:EQ; [done |]. destruct (W2 eq_refl ltac:(done)) as [[? | [? ?]] | ?]; [congruence | congruence | done]. }
  assert (Hne : cq_tail (u_rings u) ≠ cq_head (u_rings u)).
  { intros E. apply HU. rewrite <- EU. unfold unreaped. by rewrite E, Z.sub_diag. }
  assert (Hev : epoll_event (u_aio u) = true) by (destruct (W1 eq_refl Hne) as [? | [? | [_ ?]]]; [congruence | done | done]).
  assert (Hc : (0 <? a_counter (u_aio u)) = true) by (unfold epoll_event in Hev; by apply andb_true_iff in Hev as [_ ?]).
  split; [done |]. exists (with_drain (with_eventfd (u_aio u) (a_counter (u_aio u)) false) DRead). split.
  { unfold drain_on_event. by rewrite HD, Hev. }
  rewrite Hl. set (u0 := with_aio u _).
  set (a3 := with_drain (with_notified (with_drain (with_eventfd (with_drain (with_eventfd (u_aio u) (a_counter (u_aio u)) false) DRead) 0 false) DReset) false) DPop).
  assert (E3 : ∀ N, owner_run (3 + N) u0 = owner_run N (with_phase (with_aio u a3) (PReap (cq_head (u_rings u)) (cq_tail (u_rings u))))).
  { intros N. subst u0 a3. set (a0 := with_drain (with_eventfd (u_aio u) (a_counter (u_aio u)) false) DRead).
    assert (S1 : owner_step true (with_aio u a0) = Some (with_aio u (with_eventfd a0 0 false)))
      by (unfold owner_step; cbn [u_phase with_aio]; rewrite HP; unfold drain_step; cbn; by rewrite Hc).
    assert (S2 : owner_step true (with_aio u (with_eventfd a0 0 false)) = Some (with_aio u (with_drain (with_eventfd a0 0 false) DReset)))
      by (unfold owner_step; cbn [u_phase with_aio]; by rewrite HP).
    change (3 + N)%nat with (S (S (S N))). rewrite (owner_run_step _ _ _ S1), (owner_run_step _ _ _ S2). apply owner_run_step.
    unfold owner_step. cbn [u_phase with_aio]. by rewrite HP. }
  assert (V3 : uinv k c (with_phase (with_aio u a3) (PReap (cq_head (u_rings u)) (cq_tail (u_rings u)))) n 0 n).
  { apply (start_loop_inv k c Hkc u n a3 PReap V); [by left | | done]. unfold settled. cbn. by rewrite HD. }
  destruct (reap_run k c Hkc _ n 0 n _ _ n ltac:(lia) V3 eq_refl) as (e & R1 & R2 & R3 & R4 & R5 & R6).
  replace (3 * n + 5)%nat with (3 + (n + 1 + (2 * n + 1)))%nat by lia. rewrite E3, R1.
  change (published (with_phase _ _) n) with (published u n) in R5. cbn [u_aio u_ops with_phase with_aio] in R5.
  rewrite drop_0, take_ge in R5 by lia.
  assert (EQ : a_queue (u_aio e) = completions (u_ops u) (published u n)) by (rewrite R5; cbn; by rewrite HQ).
  assert (ED : a_drain (u_aio e) = DPop) by (by rewrite R5).
  assert (EF : a_fired (u_aio e) = a_fired (u_aio u)) by (by rewrite R5).
  rewrite pop_owner by (done || by left). cbn [u_phase with_aio u_aio].
  destruct (pop_run (u_aio e) ED) as (I1 & I2 & I3 & _). rewrite EQ in I1, I2, I3.
  unfold completions in I1, I2, I3 at 1. rewrite length_fmap, Hl in I1, I2, I3. split_and!; try done.
  - change (unreaped (with_aio e _)) with (unreaped e). rewrite (unreaped_published _ _ _ _ _ _ Hkc R2). by rewrite Nat.sub_diag.
  - rewrite I3, EF. done.
Qed.

(** ** Two reads across the wrap *)

Definition demo_submit_u (p : nat) (user : nat) (u : uring) : uring :=
  snd (portico_aio_pread (uring_submit (Some p) 1) u (mk_task 3 10 0 user) true).
Definition demo_complete (i : nat) (res : Z) (u : uring) : uring := default u (kernel_complete i res u).
Definition demo_signal (u : uring) : uring := default u (kernel_signal u).

(** Two entries, both counters about to wrap; the second read ends first. *)
Definition demo_ring : uring := uring_new 1 2 (2 ^ 32 - 1) (2 ^ 32 - 1).
Definition demo_reads : uring := demo_submit_u 9 71 (demo_submit_u 8 70 demo_ring).
Definition demo_both : uring := demo_signal (demo_complete 0 5 (demo_complete 1 7 demo_reads)).

Lemma demo_submit_u_step p user u :
  in_use (u_phase u) = true → p ≠ 0%nat → u_ops u !! p = None → ustep u (demo_submit_u p user u).
Proof.
  intros HP H0 Hn. unfold demo_submit_u. destruct (portico_aio_pread _ _ _ _) as [rc u'] eqn:E.
  eapply us_submit; [done | | exact E]. by intros q [= <-].
Qed.

Lemma demo_complete_step i res u : kernel_complete i res u ≠ None → ustep u (demo_complete i res u).
Proof. intros H. unfold demo_complete. destruct (kernel_complete i res u) eqn:E; [by eapply us_complete | done]. Qed.

Lemma demo_signal_step u : kernel_signal u ≠ None → ustep u (demo_signal u).
Proof. intros H. unfold demo_signal. destruct (kernel_signal u) eqn:E; [by apply us_signal | done]. Qed.

Lemma demo_both_reach : reach ustep demo_ring demo_both.
Proof.
  unfold demo_both, demo_reads.
  eapply reach_step; [ | apply demo_signal_step; vm_compute; discriminate].
  do 2 (eapply reach_step; [ | apply demo_complete_step; vm_compute; discriminate]).
  do 2 (eapply reach_step; [ | apply demo_submit_u_step; [reflexivity | lia | reflexivity]]). apply reach_refl.
Qed.

(** A third read is pushed back while two are in flight. *)
Example uring_backpressure : fst (uring_submit (Some 10%nat) 1 demo_reads (mk_task 3 10 0 72)) = - EAGAIN.
Proof. by vm_compute. Qed.

(** A length of 4 GiB is submitted as 0. *)
Example uring_length_wraps :
  s_len <$> k_reads (u_kernel (snd (uring_submit (Some 8%nat) 1 demo_ring (mk_task 3 (2 ^ 32) 0 70)))) = [0].
Proof. by vm_compute. Qed.

Lemma uring_exactly_once_witness : Z.of_nat (size (u_ops demo_both)) = u_inflight demo_both ∧ k_dropped (u_kernel demo_both) = 0.
Proof.
  destruct (uring_exactly_once 1 2 (2 ^ 32 - 1) (2 ^ 32 - 1) demo_both) as (_ & H1 & _ & H2 & _); [lia | exact demo_both_reach |].
  by split.
Defined.

Lemma uring_wakeup_drains_witness :
  epoll_event (u_aio demo_both) = true ∧
  ∃ a, drain_on_event (u_aio demo_both) = Some a ∧
    let e := owner_run (3 * length (unreaped demo_both) + 5) (with_aio demo_both a) in
    u_phase e = PRun ∧ a_drain (u_aio e) = DOut ∧ a_queue (u_aio e) = [] ∧ unreaped e = [] ∧
    a_fired (u_aio e) = [(71%nat, 7, false); (70%nat, 5, false)].
Proof.
  refine (uring_wakeup_drains 1 2 (2 ^ 32 - 1) (2 ^ 32 - 1) demo_both _ demo_both_reach _ _ _ _).
  - lia.
  - reflexivity.
  - reflexivity.
  - reflexivity.
  - vm_compute. discriminate.
Defined.
