(* ===== verification/AioLife.v ===== *)
(** * Creating and destroying an asynchronous I/O instance (src/src/aio/aio.c, aio_threadpool.c, aio_uring.c)

    [portico_aio_create] with the three back ends' constructors, [portico_aio_destroy] with
    their destructors, and the choice and fallback of the event thread
    (ws_event_thread.c): what each path acquires and gives back.  The outcome of every
    system call is an argument, 0 or an [errno]; the waiting of the destructors is in [Aio]
    and [AioUring].  Resources are those of one instance, by name. *)
From Stdlib Require Import ZArith Lia String.
From stdpp Require Import base numbers list gmap strings.
From S2P Require Import Prelude Aio AioUring.
Open Scope Z_scope.

(** What an instance holds: its structure, eventfd and mutex; the pool's structure, mutex
    and condition, array and threads; the ring's descriptor, structure and two mappings. *)
Inductive ares :=
| RInstance | RWakeup | RLock
| RPool | RPoolLock | RThreads | RThread (i : nat)
| RRingFd | RRing | RSqRing | RSqes.

#[export] Instance ares_eq_dec : EqDecision ares.
Proof. solve_decision. Defined.

Definition ares_code (r : ares) : nat :=
  match r with
  | RInstance => 0 | RWakeup => 1 | RLock => 2 | RPool => 3 | RPoolLock => 4 | RThreads => 5
  | RRingFd => 6 | RRing => 7 | RSqRing => 8 | RSqes => 9 | RThread i => 10 + i
  end.
Definition ares_decode (n : nat) : ares :=
  match n with
  | 0 => RInstance | 1 => RWakeup | 2 => RLock | 3 => RPool | 4 => RPoolLock | 5 => RThreads
  | 6 => RRingFd | 7 => RRing | 8 => RSqRing | 9 => RSqes | S (S (S (S (S (S (S (S (S (S i))))))))) => RThread i
  end%nat.

#[export] Instance ares_countable : Countable ares.
Proof. apply (inj_countable' ares_code ares_decode). by intros []. Defined.

(** What is held, and whether something was released that was not. *)
Record held := mk_held { live : gset ares; bad : bool }.
Definition nothing : held := mk_held ∅ false.
Definition take (r : ares) (w : held) : held := mk_held ({[r]} ∪ live w) (bad w || bool_decide (r ∈ live w)).
Definition give (r : ares) (w : held) : held := mk_held (live w ∖ {[r]}) (bad w || bool_decide (r ∉ live w)).

(** The outcomes of the calls of one creation. *)
Record create_env := mk_env {
  e_alloc : bool; e_eventfd : Z;
  e_pool : bool; e_array : bool; e_thread : nat → bool;
  e_setup : Z; e_single_mmap : bool; e_ring : bool; e_map_ring : Z; e_map_sqes : Z; e_register : Z
}.
Definition env_ok (e : create_env) : Prop :=
  0 <= e_eventfd e ∧ 0 <= e_setup e ∧ 0 <= e_map_ring e ∧ 0 <= e_map_sqes e ∧ 0 <= e_register e.

(** [a->ops] with [a->backend]: blocking, a pool of threads, or a ring. *)
Inductive backend := BBlocking | BPool (nthreads : nat) | BRing.

(** ** Back ends *)

Definition portico_aio_blocking_init (w : held) : Z * backend * held := (0, BBlocking, w).

Fixpoint join_threads (n : nat) (w : held) : held :=
  match n with O => w | S m => give (RThread m) (join_threads m w) end.

(** [tp_destroy]. *)
Definition tp_destroy (nthreads : nat) (w : held) : held :=
  give RPool (give RPoolLock (give RThreads (join_threads nthreads w))).

(** The loop over [pthread_create]: the threads created, and whether all were. *)
Fixpoint create_threads (ok : nat → bool) (i n : nat) (w : held) : nat * bool * held :=
  match n with
  | O => (i, true, w)
  | S m => if ok i then create_threads ok (S i) m (take (RThread i) w) else (i, false, w)
  end.

Definition portico_aio_threadpool_init (e : create_env) (threads : Z) (w : held) : Z * backend * held :=
  let n := Z.to_nat (if 0 <? threads then threads else 4) in
  if negb (e_pool e) then (- ENOMEM, BBlocking, w)
  else
    let w1 := take RPoolLock (take RPool w) in
    if negb (e_array e) then (- ENOMEM, BBlocking, give RPool (give RPoolLock w1))
    else
      let '(i, ok, w2) := create_threads (e_thread e) 0 n (take RThreads w1) in
      if ok then (0, BPool n, w2) else (- EAGAIN, BBlocking, tp_destroy i w2).

Definition portico_aio_uring_init (e : create_env) (w : held) : Z * backend * held :=
  if negb (e_setup e =? 0) then (- e_setup e, BBlocking, w)
  else
    let w1 := take RRingFd w in
    if negb (e_single_mmap e) then (- ENOSYS, BBlocking, give RRingFd w1)
    else if negb (e_ring e) then (- ENOMEM, BBlocking, give RRingFd w1)
    else
      let w2 := take RRing w1 in
      if negb (e_map_ring e =? 0) then (- e_map_ring e, BBlocking, give RRing (give RRingFd w2))
      else
        let w3 := take RSqRing w2 in
        if negb (e_map_sqes e =? 0)
        then (- e_map_sqes e, BBlocking, give RRing (give RRingFd (give RSqRing w3)))
        else
          let w4 := take RSqes w3 in
          if negb (e_register e =? 0)
          then (- e_register e, BBlocking, give RRing (give RRingFd (give RSqRing (give RSqes w4))))
          else (0, BRing, w4).

(** The end of [uring_destroy]. *)
Definition uring_release (w : held) : held := give RRing (give RRingFd (give RSqRing (give RSqes w))).

(** ** The instance *)

(** The constructor of the configured back end: 0 blocking, 1 thread pool, 2 io_uring. *)
Definition init_backend (e : create_env) (kind threads : Z) (w : held) : Z * backend * held :=
  match kind with
  | 0 => portico_aio_blocking_init w
  | 1 => portico_aio_threadpool_init e threads w
  | 2 => portico_aio_uring_init e w
  | _ => (- ENOSYS, BBlocking, w)
  end.

(** [portico_aio_create]: [errno] and NULL, or the instance. *)
Definition portico_aio_create (e : create_env) (kind threads : Z) (w : held) : Z * option backend * held :=
  if negb (e_alloc e) then (ENOMEM, None, w)
  else
    let w1 := take RInstance w in
    if negb (e_eventfd e =? 0) then (e_eventfd e, None, give RInstance w1)
    else
      let w2 := take RLock (take RWakeup w1) in
      let '(rc, b, w3) := init_backend e kind threads w2 in
      if negb (rc =? 0) then (- rc, None, give RInstance (give RWakeup (give RLock w3)))
      else (0, Some b, w3).

(** [portico_aio_destroy]. *)
Definition portico_aio_destroy (b : backend) (w : held) : held :=
  let w1 := match b with BBlocking => w | BPool n => tp_destroy n w | BRing => uring_release w end in
  give RInstance (give RWakeup (give RLock w1)).

(** The event thread's instance (ws_init_event_thread): [be] is the value of
    PORTICO_AIO_BACKEND, [e2] the outcomes of the second creation, [add_ok] the outcome of
    [epoll_ctl]. *)
Definition thread_aio (be : option string) (e1 e2 : create_env) (add_ok : bool) (w : held) : option backend * held :=
  let kind := match be with
              | Some s => if bool_decide (s = "threadpool"%string) then 1 else if bool_decide (s = "blocking"%string) then 0 else 2
              | None => 2
              end in
  let '(_, a1, w1) := portico_aio_create e1 kind (if kind =? 1 then 2 else 0) w in
  let '(a, w2) :=
    match a1 with
    | None => if kind =? 2 then let '(_, a2, w2) := portico_aio_create e2 1 2 w1 in (a2, w2) else (None, w1)
    | Some _ => (a1, w1)
    end in
  match a with
  | Some b => if add_ok then (Some b, w2) else (None, portico_aio_destroy b w2)
  | None => (None, w2)
  end.

(** ** Nothing is kept *)

Definition threads_set (n : nat) : gset ares := list_to_set (RThread <$> seq 0 n).

#[local] Arguments threads_set : simpl never.

Lemma elem_of_threads n r : r ∈ threads_set n ↔ ∃ i, r = RThread i ∧ (i < n)%nat.
Proof.
  unfold threads_set. rewrite elem_of_list_to_set, list_elem_of_fmap. split.
  - intros (i & -> & Hi%elem_of_seq). exists i. split; [done | lia].
  - intros (i & -> & Hi). exists i. split; [done |]. apply elem_of_seq. lia.
Qed.

Lemma threads_set_S n : threads_set (S n) = {[RThread n]} ∪ threads_set n.
Proof.
  apply set_eq. intros r. rewrite elem_of_union, elem_of_singleton, !elem_of_threads. split.
  - intros (i & -> & Hi). destruct (decide (i = n)) as [-> | ]; [by left | right]. exists i. split; [done | lia].
  - intros [-> | (i & -> & Hi)]; [exists n | exists i]; (split; [done | lia]).
Qed.

Lemma create_threads_spec ok i n base w :
  w = mk_held (base ∪ threads_set i) false → (∀ j, RThread j ∉ base) →
  let '(i', b, w') := create_threads ok i n w in
  w' = mk_held (base ∪ threads_set i') false ∧ (b = true → i' = (i + n)%nat).
Proof.
  revert i w. induction n as [ | n IH]; intros i w -> Hb; cbn.
  - split; [done | lia].
  - destruct (ok i); [ | done].
    assert (E : take (RThread i) (mk_held (base ∪ threads_set i) false) = mk_held (base ∪ threads_set (S i)) false).
    { unfold take. cbn. f_equal.
      - rewrite threads_set_S. set_solver.
      - apply bool_decide_eq_false. intros [H | (j & [= <-] & ?)%elem_of_threads]%elem_of_union; [by apply (Hb i) | lia]. }
    rewrite E. specialize (IH (S i) _ eq_refl Hb). destruct (create_threads ok (S i) n _) as [[i' b] w'].
    destruct IH as [I1 I2]. split; [done |]. intros Hbt. rewrite I2 by done. lia.
Qed.

Lemma join_threads_spec n base m :
  (n <= m)%nat → (∀ j, RThread j ∉ base) →
  join_threads n (mk_held (base ∪ threads_set m) false) = mk_held (base ∪ (threads_set m ∖ threads_set n)) false.
Proof.
  intros Hnm Hb. induction n as [ | n IH]; cbn.
  - f_equal. unfold threads_set at 2. cbn. set_solver.
  - rewrite IH by lia. unfold give. cbn. f_equal.
    + rewrite threads_set_S. pose proof (Hb n). set_solver.
    + apply bool_decide_eq_false. intros H. apply H. apply elem_of_union. right. apply elem_of_difference.
      rewrite !elem_of_threads. split; [exists n; split; [done | lia] |]. intros (i & [= <-] & ?). lia.
Qed.

(** The pool's threads are joined, and then its memory freed. *)
Definition pool_held : gset ares := {[RThreads; RPoolLock; RPool; RLock; RWakeup; RInstance]}.

Lemma pool_no_thread j : RThread j ∉ pool_held.
Proof. unfold pool_held. set_solver. Qed.

Lemma pool_destroy n :
  tp_destroy n (mk_held (pool_held ∪ threads_set n) false) = mk_held {[RLock; RWakeup; RInstance]} false.
Proof.
  unfold tp_destroy. rewrite join_threads_spec by (lia || apply pool_no_thread).
  rewrite difference_diag_L, union_empty_r_L. vm_compute. reflexivity.
Qed.

Lemma pool_init e threads w rc b w' :
  w = mk_held {[RLock; RWakeup; RInstance]} false →
  portico_aio_threadpool_init e threads w = (rc, b, w') →
  (rc = 0 ∧ ∃ n, b = BPool n ∧ (0 < n)%nat ∧ w' = mk_held (pool_held ∪ threads_set n) false) ∨ (rc < 0 ∧ w' = w).
Proof.
  intros ->. unfold portico_aio_threadpool_init. set (n := Z.to_nat _).
  assert (Hn : (0 < n)%nat) by (subst n; split_if; zbool; lia).
  destruct (e_pool e); [ | by intros [= <- <- <-]; right]. cbn [negb].
  destruct (e_array e); cbn [negb].
  2:{ intros [= <- <- <-]. right. split; [done |]. by vm_compute. }
  assert (E0 : take RThreads (take RPoolLock (take RPool (mk_held {[RLock; RWakeup; RInstance]} false))) = mk_held (pool_held ∪ threads_set 0) false)
    by by vm_compute.
  rewrite E0. pose proof (create_threads_spec (e_thread e) 0 n pool_held _ eq_refl pool_no_thread) as HS.
  destruct (create_threads _ 0 n _) as [[i ok] w2]. destruct HS as [-> Hi]. destruct ok; intros [= <- <- <-].
  - left. split; [done |]. exists n. split_and!; try done. rewrite Hi by done. done.
  - right. split; [done |]. apply pool_destroy.
Qed.

Lemma uring_init e w rc b w' :
  env_ok e → w = mk_held {[RLock; RWakeup; RInstance]} false →
  portico_aio_uring_init e w = (rc, b, w') →
  (rc = 0 ∧ b = BRing ∧ bad w' = false ∧ uring_release w' = w) ∨ (rc < 0 ∧ w' = w).
Proof.
  intros (_ & H1 & H2 & H3 & H4) ->. unfold portico_aio_uring_init.
  repeat (split_if; [intros [= <- <- <-]; right; zbool; (split; [unfold ENOSYS, ENOMEM; lia | by vm_compute]) |]).
  intros [= <- <- <-]. left. split_and!; [done | done | by vm_compute..].
Qed.

Lemma init_backend_spec e kind threads w rc b w' :
  env_ok e → w = mk_held {[RLock; RWakeup; RInstance]} false → init_backend e kind threads w = (rc, b, w') →
  (rc = 0 ∧ bad w' = false ∧ portico_aio_destroy b w' = nothing) ∨ (rc < 0 ∧ w' = w).
Proof.
  intros He Hw. unfold init_backend.
  assert (Hbad : - ENOSYS < 0) by (unfold ENOSYS; lia).
  destruct kind as [ | [ | [ | | ] | ] | ]; try (intros [= <- <- <-]; by right); intros HI.
  - injection HI as <- <- <-. left. subst w. split_and!; [done | done | by vm_compute].
  - apply (uring_init _ _ _ _ _ He Hw) in HI as [(-> & -> & Hb & HR) | ?]; [left | by right]. split; [done |].
    split; [done |]. unfold portico_aio_destroy. rewrite HR, Hw. by vm_compute.
  - apply (pool_init _ _ _ _ _ _ Hw) in HI as [(-> & n & -> & _ & ->) | ?]; [left | by right]. split_and!; [done | done |].
    unfold portico_aio_destroy. rewrite pool_destroy. by vm_compute.
Qed.

(** An instance that was created is given back whole by its destruction, and one that was
    not has left nothing. *)
Lemma create_gives_back e kind threads :
  env_ok e →
  match portico_aio_create e kind threads nothing with
  | (_, Some b, w') => bad w' = false ∧ portico_aio_destroy b w' = nothing
  | (err, None, w') => 0 < err ∧ w' = nothing
  end.
Proof.
  intros He. unfold portico_aio_create. destruct (e_alloc e); [ | done]. cbn [negb].
  destruct (e_eventfd e =? 0) eqn:Ee; cbn [negb].
  2:{ destruct He as [He _]. zbool. split; [lia | by vm_compute]. }
  assert (E0 : take RLock (take RWakeup (take RInstance nothing)) = mk_held {[RLock; RWakeup; RInstance]} false) by by vm_compute.
  rewrite E0. set (w2 := mk_held _ false).
  assert (Hw2 : give RInstance (give RWakeup (give RLock w2)) = nothing) by by vm_compute.
  destruct (init_backend e kind threads w2) as [[rc b] w3] eqn:EB.
  destruct (init_backend_spec e kind threads w2 rc b w3 He eq_refl EB) as [(-> & Hb & Hd) | (Hrc & ->)]; cbn [Z.eqb negb].
  - done.
  - rewrite (proj2 (Z.eqb_neq _ _)) by lia. cbn [negb]. split; [lia | done].
Qed.

(** What a creation gives when every call it makes succeeds. *)
Lemma create_threads_all ok i n w : (∀ j, ok j = true) → (create_threads ok i n w).1 = ((i + n)%nat, true).
Proof.
  intros Hok. revert i w. induction n as [ | n IH]; intros i w; cbn; [f_equal; lia |].
  rewrite Hok. rewrite IH. f_equal. lia.
Qed.

Definition pool_ok (e : create_env) : Prop :=
  e_alloc e = true ∧ e_eventfd e = 0 ∧ e_pool e = true ∧ e_array e = true ∧ ∀ i, e_thread e i = true.

Lemma pool_created e threads w : pool_ok e →
  (portico_aio_create e 1 threads w).1.2 = Some (BPool (Z.to_nat (if 0 <? threads then threads else 4))).
Proof.
  intros (H1 & H2 & H3 & H4 & H5). unfold portico_aio_create, init_backend, portico_aio_threadpool_init.
  rewrite H1, H2, H3, H4. cbn [negb Z.eqb].
  pose proof (create_threads_all (e_thread e) 0 (Z.to_nat (if 0 <? threads then threads else 4))
    (take RThreads (take RPoolLock (take RPool (take RLock (take RWakeup (take RInstance w)))))) H5) as H.
  destruct (create_threads _ 0 _ _) as [[i ok] w2]. by injection H as -> ->.
Qed.

(** The event thread's asynchronous I/O: without an instance nothing is held, with one its
    destruction gives everything back, and nothing is released twice, whichever call of the
    one or two creations fails; when io_uring is asked for and refused, and the pool can be
    made, the thread still gets a pool of two workers. *)
Theorem thread_aio_gives_back be e1 e2 add_ok :
  env_ok e1 → env_ok e2 →
  match thread_aio be e1 e2 add_ok nothing with
  | (Some b, w) => bad w = false ∧ portico_aio_destroy b w = nothing
  | (None, w) => w = nothing
  end ∧
  (be = None → e_setup e1 ≠ 0 → pool_ok e2 → (thread_aio be e1 e2 true nothing).1 = Some (BPool 2)).
Proof.
  intros H1 H2. split.
  - unfold thread_aio. set (kind := match be with Some _ => _ | None => 2 end). clearbody kind.
    pose proof (create_gives_back e1 kind (if kind =? 1 then 2 else 0) H1) as C1.
    destruct (portico_aio_create e1 kind _ nothing) as [[err1 [b | ]] w1]; [by destruct add_ok; [ | apply C1] |].
    destruct C1 as [_ ->]. destruct (kind =? 2); [ | done].
    pose proof (create_gives_back e2 1 2 H2) as C2.
    destruct (portico_aio_create e2 1 2 nothing) as [[err2 [b | ]] w2]; [by destruct add_ok; [ | apply C2] | apply C2].
  - intros -> Hs Hp. unfold thread_aio. cbn [Z.eqb Pos.eqb].
    pose proof (create_gives_back e1 2 0 H1) as C1.
    assert (HN : (portico_aio_create e1 2 0 nothing).1.2 = None).
    { unfold portico_aio_create. repeat (split_if; [done |]). cbn [init_backend]. unfold portico_aio_uring_init.
      rewrite (proj2 (Z.eqb_neq _ _) Hs). cbn [negb]. destruct H1 as (_ & Hs' & _). rewrite (proj2 (Z.eqb_neq (- e_setup e1) 0)) by lia. done. }
    destruct (portico_aio_create e1 2 0 nothing) as [[err1 a1] w1]. cbn in HN. subst a1. destruct C1 as [_ ->].
    pose proof (pool_created e2 2 nothing Hp) as H. cbn in H. destruct (portico_aio_create e2 1 2 nothing) as [[err2 a2] w2].
    cbn in H. by subst a2.
Qed.

Definition demo_env (setup register : Z) (threads : nat) : create_env :=
  mk_env true 0 true true (λ i, (i <? threads)%nat) setup true true 0 0 register.

(** io_uring refused by the kernel; the pool's second thread cannot be created either. *)
Example no_backend_left : thread_aio None (demo_env ENOSYS 0 8) (demo_env 0 0 1) true nothing = (None, nothing).
Proof. vm_compute. reflexivity. Qed.

Lemma thread_aio_gives_back_witness :
  match thread_aio None (demo_env 0 EAGAIN 8) (demo_env 0 0 8) true nothing with
  | (Some b, w) => bad w = false ∧ portico_aio_destroy b w = nothing
  | (None, w) => w = nothing
  end ∧ fst (thread_aio None (demo_env 0 EAGAIN 8) (demo_env 0 0 8) true nothing) = Some (BPool 2).
Proof.
  split.
  - refine (proj1 (thread_aio_gives_back None (demo_env 0 EAGAIN 8) (demo_env 0 0 8) true _ _)); unfold env_ok; cbn; unfold EAGAIN; lia.
  - vm_compute. reflexivity.
Defined.
