(* ===== verification/BufPool.v ===== *)
(** * Buffer pools (src/src/ws/ws_buffer.c)

    The pool with its in-band headers, the free list threaded through [free_next], the
    two compare-and-swap loops, pointer/index conversion, the three-size front end and the
    debug validator.  A pool belongs to one event thread; the loops are also split into
    their shared-memory steps, to say what happens when two threads share one.

    The memory block is kept as its headers and its data areas, by buffer; an address is
    an integer.  The free list of the model is a ghost argument of the invariant only. *)
From Stdlib Require Import ZArith Lia.
From stdpp Require Import base numbers list sorting.
From S2P Require Import Prelude.
Open Scope Z_scope.

Definition WS_BUFFER_INVALID_INDEX : Z := 2 ^ 32 - 1.
Definition CACHE_LINE_SIZE : Z := 64.
Definition WS_BUFFER_POOL_MAGIC : Z := 0xBEEFCAFE.
Definition WS_BUFFER_FREE_MAGIC : Z := 0xDEADBEEF.
Definition MAP_FAILED : Z := 2 ^ 64 - 1.

(** [ws_buffer_header_t], 16 bytes, packed. *)
Record ws_buffer_header_t := mk_bhdr { bh_magic : Z; bh_pool_id : Z; bh_buffer_index : Z; bh_next_free : Z }.
Definition header_size : Z := 16.

(** [ws_buffer_pool_t]; [memory_block] is 0 for NULL. *)
Record ws_buffer_pool_t := mk_pool {
  memory_block : Z;
  buffer_size : Z;
  buffer_count : Z;
  headers : list ws_buffer_header_t;
  datas : list (list Z);
  free_head : Z;
  free_next : list Z;
  allocated_count : Z;
  peak_usage : Z;
  initial_buffer_count : Z;
  max_buffer_count : Z;
  exhaustion_count : Z;
  expansion_cooldown_sec : Z
}.

Definition pool_zero : ws_buffer_pool_t := mk_pool 0 0 0 [] [] 0 [] 0 0 0 0 0 0.

Definition bp_head (p : ws_buffer_pool_t) v := mk_pool (memory_block p) (buffer_size p) (buffer_count p) (headers p) (datas p)
  v (free_next p) (allocated_count p) (peak_usage p) (initial_buffer_count p) (max_buffer_count p) (exhaustion_count p)
  (expansion_cooldown_sec p).
Definition bp_headers (p : ws_buffer_pool_t) v := mk_pool (memory_block p) (buffer_size p) (buffer_count p) v (datas p)
  (free_head p) (free_next p) (allocated_count p) (peak_usage p) (initial_buffer_count p) (max_buffer_count p)
  (exhaustion_count p) (expansion_cooldown_sec p).
Definition bp_datas (p : ws_buffer_pool_t) v := mk_pool (memory_block p) (buffer_size p) (buffer_count p) (headers p) v
  (free_head p) (free_next p) (allocated_count p) (peak_usage p) (initial_buffer_count p) (max_buffer_count p)
  (exhaustion_count p) (expansion_cooldown_sec p).
Definition bp_next (p : ws_buffer_pool_t) v := mk_pool (memory_block p) (buffer_size p) (buffer_count p) (headers p) (datas p)
  (free_head p) v (allocated_count p) (peak_usage p) (initial_buffer_count p) (max_buffer_count p) (exhaustion_count p)
  (expansion_cooldown_sec p).
Definition bp_stats (p : ws_buffer_pool_t) a k e := mk_pool (memory_block p) (buffer_size p) (buffer_count p) (headers p)
  (datas p) (free_head p) (free_next p) a k (initial_buffer_count p) (max_buffer_count p) e (expansion_cooldown_sec p).

Definition set_magic (m : Z) (h : ws_buffer_header_t) := mk_bhdr m (bh_pool_id h) (bh_buffer_index h) (bh_next_free h).
Definition set_next_free (n : Z) (h : ws_buffer_header_t) := mk_bhdr (bh_magic h) (bh_pool_id h) (bh_buffer_index h) n.

(** ** Initialisation *)

(** [WS_ALIGN_UP] on 32 bits. *)
Definition WS_ALIGN_UP (x align : Z) : Z := Z.land (u32 (x + align - 1)) (u32 (Z.lnot (align - 1))).

Definition init_header (buffer_count i : Z) : ws_buffer_header_t :=
  mk_bhdr WS_BUFFER_FREE_MAGIC 0 i (if i =? buffer_count - 1 then WS_BUFFER_INVALID_INDEX else i + 1).

(** [ws_buffer_pool_init]; [mm] is where [mmap] put the zero-filled block, if it did. *)
Definition ws_buffer_pool_init (mm : option Z) (size count : Z) (p : ws_buffer_pool_t) : Z * ws_buffer_pool_t :=
  if (size =? 0) || (count =? 0) then (-1, p)
  else
    let aligned := WS_ALIGN_UP (u32 (size + header_size)) CACHE_LINE_SIZE in
    match mm with
    | None => (-1, mk_pool MAP_FAILED aligned count [] [] 0 [] 0 0 0 0 0 0)
    | Some base =>
        let hs := init_header count <$> seqZ 0 count in
        (0, mk_pool base aligned count hs (replicate (Z.to_nat count) (replicate (Z.to_nat (aligned - header_size)) 0))
              0 (bh_next_free <$> hs) 0 0 0 0 0 0)
    end.

(** [ws_buffer_pool_cleanup]: what it unmaps, and the pool after. *)
Definition ws_buffer_pool_cleanup (p : ws_buffer_pool_t) : option (Z * Z) * ws_buffer_pool_t :=
  if memory_block p =? 0 then (None, p)
  else (Some (memory_block p, buffer_size p * buffer_count p + buffer_count p * 4), pool_zero).

(** [ws_buffer_pool_init_adaptive]. *)
Definition ws_buffer_pool_init_adaptive (mm : option Z) (size initial_count max_count : Z) (p : ws_buffer_pool_t)
  : Z * ws_buffer_pool_t :=
  if (size =? 0) || (initial_count =? 0) || (max_count <? initial_count) then (-1, p)
  else
    let actual := let a := u32 (initial_count * 4) in if max_count <? a then max_count else a in
    let '(rc, q) := ws_buffer_pool_init mm size actual p in
    if negb (rc =? 0) then (rc, q)
    else (0, mk_pool (memory_block q) (buffer_size q) (buffer_count q) (headers q) (datas q) (free_head q) (free_next q)
                 (allocated_count q) (peak_usage q) initial_count max_count 0 5).

(** ** Allocation *)

(** What one pass of the allocation loop reads before its compare-and-swap. *)
Inductive alloc_view :=
| AEmpty
| ACorrupt
| AGo (current_head next_head : Z).

Definition alloc_look (p : ws_buffer_pool_t) : alloc_view :=
  let current_head := free_head p in
  if current_head =? WS_BUFFER_INVALID_INDEX then AEmpty
  else
    match headers p !! Z.to_nat current_head with
    | None => ACorrupt
    | Some h =>
        if negb (bh_magic h =? WS_BUFFER_FREE_MAGIC) || negb (bh_buffer_index h =? current_head) then ACorrupt
        else AGo current_head (default 0 (free_next p !! Z.to_nat current_head))
    end.

(** The compare-and-swap of [free_head]. *)
Definition head_cas (expected desired : Z) (p : ws_buffer_pool_t) : option ws_buffer_pool_t :=
  if free_head p =? expected then Some (bp_head p desired) else None.

(** What follows a successful swap: the magic and the statistics. *)
Definition alloc_mark (i : Z) (p : ws_buffer_pool_t) : ws_buffer_pool_t :=
  let current_allocated := allocated_count p + 1 in
  bp_stats (bp_headers p (alter (set_magic WS_BUFFER_POOL_MAGIC) (Z.to_nat i) (headers p)))
    current_allocated (if peak_usage p <? current_allocated then current_allocated else peak_usage p) (exhaustion_count p).

(** [ws_buffer_pool_allocate]; the weak compare-and-swap fails [spurious] times, and then
    succeeds, as nothing else changes the head. *)
Fixpoint ws_buffer_pool_allocate (spurious : nat) (p : ws_buffer_pool_t) : Z * ws_buffer_pool_t :=
  match alloc_look p with
  | AEmpty => (WS_BUFFER_INVALID_INDEX, bp_stats p (allocated_count p) (peak_usage p) (exhaustion_count p + 1))
  | ACorrupt => (WS_BUFFER_INVALID_INDEX, p)
  | AGo h n =>
      match spurious with
      | S k => ws_buffer_pool_allocate k p
      | O => match head_cas h n p with
             | Some q => (h, alloc_mark h q)
             | None => (WS_BUFFER_INVALID_INDEX, p)
             end
      end
  end.

(** The header of a buffer that is allocated and sound. *)
Definition allocated_header (p : ws_buffer_pool_t) (i : Z) : bool :=
  match headers p !! Z.to_nat i with
  | Some h => (bh_magic h =? WS_BUFFER_POOL_MAGIC) && (bh_buffer_index h =? i)
  | None => false
  end.

(** One pass of the deallocation loop: link to the head just read. *)
Definition dealloc_link (i : Z) (p : ws_buffer_pool_t) : ws_buffer_pool_t :=
  bp_headers (bp_next p (<[Z.to_nat i := u32 (free_head p)]> (free_next p)))
    (alter (set_next_free (u32 (free_head p))) (Z.to_nat i) (headers p)).

Fixpoint dealloc_loop (spurious : nat) (i : Z) (p : ws_buffer_pool_t) : ws_buffer_pool_t :=
  let q := dealloc_link i p in
  match spurious with
  | S k => dealloc_loop k i q
  | O => default q (head_cas (free_head p) i q)
  end.

(** [ws_buffer_pool_deallocate]. *)
Definition ws_buffer_pool_deallocate (spurious : nat) (p : ws_buffer_pool_t) (i : Z) : ws_buffer_pool_t :=
  if buffer_count p <=? i then p
  else if negb (allocated_header p i) then p
  else
    let p1 := bp_datas p (<[Z.to_nat i := replicate (Z.to_nat (buffer_size p - header_size)) 0]> (datas p)) in
    let p2 := bp_headers p1 (alter (set_magic WS_BUFFER_FREE_MAGIC) (Z.to_nat i) (headers p1)) in
    let p3 := dealloc_loop spurious i p2 in
    bp_stats p3 (allocated_count p3 - 1) (peak_usage p3) (exhaustion_count p3).

(** ** Access *)

(** [ws_buffer_pool_get_buffer]: the address of the data area, or NULL. *)
Definition ws_buffer_pool_get_buffer (p : ws_buffer_pool_t) (i : Z) : option Z :=
  if buffer_count p <=? i then None
  else if negb (allocated_header p i) then None
  else Some (memory_block p + i * buffer_size p + header_size).

Definition ws_buffer_pool_get_data_size (p : ws_buffer_pool_t) : Z := u64 (buffer_size p - header_size).

(** [ws_buffer_pool_get_buffer_index]; [None]: it would read outside the block. *)
Definition ws_buffer_pool_get_buffer_index (p : ws_buffer_pool_t) (addr : Z) : option Z :=
  let header_ptr := addr - header_size in
  if header_ptr <? memory_block p then Some WS_BUFFER_INVALID_INDEX
  else
    let offset := header_ptr - memory_block p in
    if negb (offset mod buffer_size p =? 0) then Some WS_BUFFER_INVALID_INDEX
    else
      let i := u32 (offset / buffer_size p) in
      if buffer_count p <=? i then Some WS_BUFFER_INVALID_INDEX
      else if buffer_count p <=? offset / buffer_size p then None
      else if negb (allocated_header p i) then Some WS_BUFFER_INVALID_INDEX
      else Some i.

(** ** The three-size front end *)

Inductive size_class := Small | Medium | Large.
#[export] Instance size_class_eq_dec : EqDecision size_class.
Proof. solve_decision. Defined.

(** The pools of an event thread. *)
Record thread_pools := mk_pools { small_buffers : ws_buffer_pool_t; medium_buffers : ws_buffer_pool_t; large_buffers : ws_buffer_pool_t }.

Definition pool_of (c : size_class) (t : thread_pools) : ws_buffer_pool_t :=
  match c with Small => small_buffers t | Medium => medium_buffers t | Large => large_buffers t end.
Definition set_pool (c : size_class) (t : thread_pools) (p : ws_buffer_pool_t) : thread_pools :=
  match c with
  | Small => mk_pools p (medium_buffers t) (large_buffers t)
  | Medium => mk_pools (small_buffers t) p (large_buffers t)
  | Large => mk_pools (small_buffers t) (medium_buffers t) p
  end.

(** [ws_buffer_allocation_t]; all zero when there is none. *)
Record ws_buffer_allocation_t := mk_alloc { al_idx : Z; al_pool : option size_class; al_data : Z; al_size : Z }.
Definition no_allocation : ws_buffer_allocation_t := mk_alloc 0 None 0 0.

Definition select_pool (t : thread_pools) (needed : Z) : option size_class :=
  if needed <=? ws_buffer_pool_get_data_size (small_buffers t) then Some Small
  else if needed <=? ws_buffer_pool_get_data_size (medium_buffers t) then Some Medium
  else if needed <=? ws_buffer_pool_get_data_size (large_buffers t) then Some Large
  else None.

(** [ws_allocate_buffer_for_size]. *)
Definition ws_allocate_buffer_for_size (spurious : nat) (t : thread_pools) (needed : Z) : ws_buffer_allocation_t * thread_pools :=
  match select_pool t needed with
  | None => (no_allocation, t)
  | Some c =>
      let '(i, p) := ws_buffer_pool_allocate spurious (pool_of c t) in
      if i =? WS_BUFFER_INVALID_INDEX then (no_allocation, set_pool c t p)
      else
        match ws_buffer_pool_get_buffer p i with
        | None => (no_allocation, set_pool c t (ws_buffer_pool_deallocate spurious p i))
        | Some d => (mk_alloc i (Some c) d (ws_buffer_pool_get_data_size p), set_pool c t p)
        end
  end.

(** [ws_deallocate_buffer]. *)
Definition ws_deallocate_buffer (spurious : nat) (a : ws_buffer_allocation_t) (t : thread_pools)
  : ws_buffer_allocation_t * thread_pools :=
  match al_pool a with
  | None => (a, t)
  | Some c =>
      if al_idx a =? WS_BUFFER_INVALID_INDEX then (a, t)
      else (no_allocation, set_pool c t (ws_buffer_pool_deallocate spurious (pool_of c t) (al_idx a)))
  end.

(** ** The debug validator *)

(** The walk of [ws_buffer_pool_validate]: free and allocated buffers counted, or the
    first fault. *)
Fixpoint validate_walk (i : Z) (hs : list ws_buffer_header_t) (free alloc : Z) : option (Z * Z) :=
  match hs with
  | [] => Some (free, alloc)
  | h :: r =>
      if negb (bh_buffer_index h =? i) then None
      else if bh_magic h =? WS_BUFFER_FREE_MAGIC then validate_walk (i + 1) r (free + 1) alloc
      else if bh_magic h =? WS_BUFFER_POOL_MAGIC then validate_walk (i + 1) r free (alloc + 1)
      else None
  end.

Definition ws_buffer_pool_validate (p : ws_buffer_pool_t) : Z :=
  if memory_block p =? 0 then -1
  else
    match validate_walk 0 (headers p) 0 0 with
    | None => -1
    | Some (f, a) =>
        if negb (a =? u32 (allocated_count p)) then -1
        else if negb (u32 (f + a) =? buffer_count p) then -1
        else 0
    end.

(** [ws_buffer_pool_get_stats], its live fields: total, allocated, peak, exhaustion
    events, adaptive. *)
Definition ws_buffer_pool_get_stats (p : ws_buffer_pool_t) : Z * Z * Z * Z * bool :=
  (buffer_count p, u32 (allocated_count p), u32 (peak_usage p), u32 (exhaustion_count p), 0 <? max_buffer_count p).

(** [ws_buffer_pool_expand_safe] never grows the pool. *)
Definition ws_buffer_pool_expand_safe (p : ws_buffer_pool_t) (additional : Z) : Z * ws_buffer_pool_t :=
  if additional =? 0 then (-1, p)
  else if max_buffer_count p <? u32 (buffer_count p + additional) then (-1, p)
  else (-1, p).

Definition ws_buffer_pool_should_expand (p : ws_buffer_pool_t) : bool := false.
Definition ws_buffer_pool_reset_exhaustion_counter (p : ws_buffer_pool_t) : ws_buffer_pool_t :=
  bp_stats p (allocated_count p) (peak_usage p) 0.

(** ** The invariant *)

(** [l] is the free list that starts at [h]. *)
Fixpoint chain (fn : list Z) (h : Z) (l : list Z) : Prop :=
  match l with
  | [] => h = WS_BUFFER_INVALID_INDEX
  | i :: r => h = i ∧ 0 <= i ∧ ∃ n, fn !! Z.to_nat i = Some n ∧ chain fn n r
  end.

Definition zeroes (p : ws_buffer_pool_t) : list Z := replicate (Z.to_nat (buffer_size p - header_size)) 0.

(** The header of buffer [i] says whether it is on the free list. *)
Definition header_ok (fl : list Z) (i : Z) (h : ws_buffer_header_t) : Prop :=
  bh_buffer_index h = i ∧ bh_magic h = if decide (i ∈ fl) then WS_BUFFER_FREE_MAGIC else WS_BUFFER_POOL_MAGIC.

(** A pool whose free list is [fl]. *)
Record pool_wf (p : ws_buffer_pool_t) (fl : list Z) : Prop := mk_pool_wf {
  pw_base : 0 < memory_block p;
  pw_count : 0 < buffer_count p < 2 ^ 32;
  pw_size : header_size < buffer_size p < 2 ^ 32;
  pw_hlen : length (headers p) = Z.to_nat (buffer_count p);
  pw_nlen : length (free_next p) = Z.to_nat (buffer_count p);
  pw_dlen : length (datas p) = Z.to_nat (buffer_count p);
  pw_headers : ∀ (i : nat) h, headers p !! i = Some h → header_ok fl (Z.of_nat i) h;
  pw_chain : chain (free_next p) (free_head p) fl;
  pw_nodup : NoDup fl;
  pw_zero : ∀ i d, i ∈ fl → datas p !! Z.to_nat i = Some d → d = zeroes p;
  pw_alloc : allocated_count p = buffer_count p - Z.of_nat (length fl);
  pw_peak : allocated_count p <= peak_usage p <= buffer_count p
}.

Lemma chain_range fn h l : chain fn h l → Forall (λ i, 0 <= i < Z.of_nat (length fn)) l.
Proof.
  revert h. induction l as [ | i r IH]; intros h; cbn; [constructor |]. intros (-> & H0 & n & Hn & Hc). constructor; [ | by eapply IH].
  apply lookup_lt_Some in Hn. lia.
Qed.

(** Links of buffers that are not on the list do not matter. *)
Lemma chain_insert fn h l i v : chain fn h l → 0 <= i → (i ∉ l) → chain (<[Z.to_nat i := v]> fn) h l.
Proof.
  revert h. induction l as [ | j r IH]; intros h; cbn; [done |]. intros (-> & H0 & n & Hn & Hc) Hi Hnot.
  apply not_elem_of_cons in Hnot as [Hne Hnot]. split_and!; [done | done |]. exists n. split; [ | by apply IH].
  rewrite list_lookup_insert_ne; [done | lia].
Qed.

Lemma free_in_range p fl i : pool_wf p fl → i ∈ fl → 0 <= i < buffer_count p.
Proof.
  intros W Hi. pose proof (chain_range _ _ _ (pw_chain _ _ W)) as HF. rewrite Forall_forall in HF. specialize (HF i Hi).
  rewrite (pw_nlen _ _ W) in HF. pose proof (pw_count _ _ W). lia.
Qed.

(** A free list never holds more than the pool. *)
Lemma free_length p fl : pool_wf p fl → Z.of_nat (length fl) <= buffer_count p.
Proof.
  intros W. pose proof (pw_peak _ _ W). pose proof (pw_alloc _ _ W). 
  assert (Hs : fl ⊆ seqZ 0 (buffer_count p)).
  { intros i Hi. apply elem_of_seqZ. pose proof (free_in_range p fl i W Hi). lia. }
  pose proof (NoDup_submseteq fl (seqZ 0 (buffer_count p)) (pw_nodup _ _ W) Hs) as Hsub.
  apply submseteq_length in Hsub. rewrite length_seqZ in Hsub. pose proof (pw_count _ _ W). lia.
Qed.

Lemma alloc_header_iff p fl i :
  pool_wf p fl → 0 <= i → allocated_header p i = true ↔ i < buffer_count p ∧ (i ∉ fl).
Proof.
  intros W H0. unfold allocated_header. destruct (headers p !! Z.to_nat i) as [h | ] eqn:Eh.
  - destruct (pw_headers _ _ W _ _ Eh) as [Hi Hm]. rewrite Z2Nat.id in Hi, Hm by lia.
    apply lookup_lt_Some in Eh. rewrite (pw_hlen _ _ W) in Eh. rewrite Hi, Z.eqb_refl, andb_true_r.
    destruct (decide (i ∈ fl)) as [Hin | Hin]; rewrite Hm; [split; [done | by intros [_ ?]] | split; [ | done]].
    intros _. split; [lia | done].
  - split; [done |]. intros [Hlt _]. apply lookup_ge_None in Eh. rewrite (pw_hlen _ _ W) in Eh. lia.
Qed.

Lemma free_header p fl i r :
  pool_wf p fl → fl = i :: r → ∃ h, headers p !! Z.to_nat i = Some h ∧ bh_magic h = WS_BUFFER_FREE_MAGIC ∧ bh_buffer_index h = i.
Proof.
  intros W ->. assert (Hr : 0 <= i < buffer_count p) by (apply (free_in_range p (i :: r)); [done | left]).
  destruct (lookup_lt_is_Some_2 (headers p) (Z.to_nat i)) as [h Hh]; [rewrite (pw_hlen _ _ W); lia |].
  destruct (pw_headers _ _ W _ _ Hh) as [Hi Hm]. rewrite Z2Nat.id in Hi, Hm by lia.
  rewrite decide_True in Hm by left. by exists h.
Qed.

(** ** Initialisation establishes it *)

Lemma chain_init count k (n : nat) :
  0 <= k → k + Z.of_nat n = count → 0 < count < 2 ^ 32 → (0 < n)%nat →
  chain (bh_next_free <$> (init_header count <$> seqZ 0 count)) k (seqZ k (Z.of_nat n)).
Proof.
  revert k. induction n as [ | n IH]; intros k Hk Hn Hc Hp; [lia |].
  rewrite (seqZ_cons k) by lia. cbn [chain]. split_and!; [done | done |].
  exists (bh_next_free (init_header count k)). split.
  - rewrite !list_lookup_fmap, lookup_seqZ_lt by lia. cbn. by rewrite Z.add_0_l, Z2Nat.id by lia.
  - replace (Z.pred (Z.of_nat (S n))) with (Z.of_nat n) by lia. replace (Z.succ k) with (k + 1) by lia.
    unfold init_header. cbn. destruct (Z.eqb_spec k (count - 1)).
    + replace (Z.of_nat n) with 0 by lia. done.
    + apply IH; lia.
Qed.

Lemma align_up_spec size :
  0 < size <= 2 ^ 32 - 80 →
  let a := WS_ALIGN_UP (u32 (size + header_size)) CACHE_LINE_SIZE in
  size + header_size <= a < size + header_size + 64 ∧ a mod 64 = 0.
Proof.
  intros Hs. unfold WS_ALIGN_UP, u32, CACHE_LINE_SIZE, header_size.
  rewrite (Z.mod_small (size + 16)) by lia. rewrite (Z.mod_small (_ + 64 - 1)) by lia.
  change (Z.lnot (64 - 1) mod 2 ^ 32) with (Z.ldiff (Z.ones 32) (Z.ones 6)).
  set (x := size + 16 + 64 - 1).
  assert (E : Z.land x (Z.ldiff (Z.ones 32) (Z.ones 6)) = 64 * (x / 64)).
  { transitivity (Z.ldiff x (Z.ones 6)).
    - apply Z.bits_inj'. intros n Hn. rewrite Z.land_spec, !Z.ldiff_spec.
      destruct (Z.testbit x n) eqn:E; [ | done]. destruct (decide (n < 32)).
      + rewrite Z.ones_spec_low by lia. done.
      + rewrite (Z.bits_above_log2 x n) in E; [done | subst x; lia |]. apply Z.log2_lt_pow2; [subst x; lia |].
        apply Z.lt_le_trans with (2 ^ 32); [subst x; lia | apply Z.pow_le_mono_r; lia].
    - rewrite Z.ldiff_ones_r by lia. rewrite Z.shiftr_div_pow2, Z.shiftl_mul_pow2 by lia. change (2 ^ 6) with 64. lia. }
  cbn zeta. rewrite E. pose proof (Z.div_mod x 64). pose proof (Z.mod_pos_bound x 64).
  split; [subst x; lia |]. rewrite Z.mul_comm. apply Z.mod_mul. lia.
Qed.

Lemma init_wf base size count p0 :
  0 < base → 0 < size <= 2 ^ 32 - 80 → 0 < count < 2 ^ 32 →
  ∃ p, ws_buffer_pool_init (Some base) size count p0 = (0, p) ∧ pool_wf p (seqZ 0 count) ∧ buffer_count p = count ∧
       size + header_size <= buffer_size p < size + header_size + 64 ∧ buffer_size p mod 64 = 0.
Proof.
  intros Hb Hs Hc. unfold ws_buffer_pool_init. rewrite (proj2 (Z.eqb_neq size 0)), (proj2 (Z.eqb_neq count 0)) by lia. cbn -[u32].
  pose proof (align_up_spec size Hs) as [Ha Hm]. eexists. split; [done |]. cbn -[u32].
  split; [ | split_and!; [done | lia | lia | done] ]. constructor; cbn -[u32].
  - done.
  - done.
  - unfold header_size in *. lia.
  - by rewrite length_fmap, length_seqZ.
  - by rewrite !length_fmap, length_seqZ.
  - by rewrite length_replicate.
  - intros i h Hh. rewrite list_lookup_fmap in Hh. apply fmap_Some in Hh as (k & Hk & ->).
    apply lookup_seqZ in Hk as [-> Hk]. split; [cbn; lia |]. rewrite decide_True; [done |]. apply elem_of_seqZ. lia.
  - pose proof (chain_init count 0 (Z.to_nat count)) as HC. rewrite Z2Nat.id in HC by lia. apply HC; lia.
  - apply NoDup_seqZ.
  - intros i d _ Hd. apply lookup_replicate in Hd as [-> _]. done.
  - rewrite length_seqZ. lia.
  - lia.
Qed.

(** ** Allocation and deallocation keep it *)

Definition same_shape (p q : ws_buffer_pool_t) : Prop :=
  memory_block q = memory_block p ∧ buffer_size q = buffer_size p ∧ buffer_count q = buffer_count p.

(** Spurious failures change nothing. *)
Lemma allocate_spurious k p : ws_buffer_pool_allocate k p = ws_buffer_pool_allocate 0 p.
Proof. induction k as [ | k IH]; [done |]. cbn. rewrite IH. cbn. by destruct (alloc_look p). Qed.

(** One header changes as the free list does, the others are judged as before. *)
Lemma headers_alter (hs : list ws_buffer_header_t) (f : ws_buffer_header_t → ws_buffer_header_t) (n : nat) (P Q : Z → ws_buffer_header_t → Prop) :
  (∀ i h, hs !! i = Some h → P (Z.of_nat i) h) →
  (∀ h, P (Z.of_nat n) h → Q (Z.of_nat n) (f h)) → (∀ i h, i ≠ n → P (Z.of_nat i) h → Q (Z.of_nat i) h) →
  ∀ i h, alter f n hs !! i = Some h → Q (Z.of_nat i) h.
Proof.
  intros HP Hn Ho i h Hh. destruct (decide (i = n)) as [-> | Hne].
  - rewrite list_lookup_alter_eq in Hh. apply fmap_Some in Hh as (h0 & H0 & ->). apply Hn. by apply HP.
  - rewrite list_lookup_alter_ne in Hh by done. apply Ho; [done | by apply HP].
Qed.

Lemma alloc_spec k p i r :
  pool_wf p (i :: r) →
  ∃ q, ws_buffer_pool_allocate k p = (i, q) ∧ pool_wf q r ∧ datas q = datas p ∧ same_shape p q.
Proof.
  intros W. destruct (free_header _ _ _ _ W eq_refl) as (h & Hh & Hm & Hix).
  destruct (pw_chain _ _ W) as (Hhead & H0 & n & Hn & Hc).
  pose proof (free_in_range p _ i W ltac:(left)) as Hr.
  rewrite allocate_spurious. cbn. unfold alloc_look.
  rewrite Hhead, (proj2 (Z.eqb_neq i _)) by (pose proof (pw_count _ _ W); unfold WS_BUFFER_INVALID_INDEX; lia).
  rewrite Hh, Hm, Hix, !Z.eqb_refl, Hn. cbn. unfold head_cas. rewrite Hhead, Z.eqb_refl.
  eexists. split; [done |]. split; [ | done].
  pose proof (pw_nodup _ _ W) as HN. apply NoDup_cons in HN as [Hni HN].
  destruct W as [W1 W2 W3 W4 W5 W6 W7 W8 W9 W10 W11 W12].
  constructor; cbn -[Z.of_nat]; try done.
  - by rewrite length_alter.
  - apply (headers_alter (headers p) _ _ (header_ok (i :: r))); [done | | ]; rewrite ?Z2Nat.id by lia.
    + intros h' [K1 K2]. split; [done |]. cbn. by rewrite decide_False.
    + intros j h' Hne [K1 K2]. split; [done |]. rewrite K2. destruct (decide (Z.of_nat j ∈ r)) as [Hj | Hj].
      * rewrite decide_True; [done | by right].
      * rewrite decide_False; [done |]. apply not_elem_of_cons. split; [lia | done].
  - intros j d Hj Hd. apply (W10 j); [by right | done].
  - cbn [length] in W11. lia.
  - cbn [length] in W11. split_if; lia.
Qed.

Lemma alloc_empty k p :
  pool_wf p [] → ws_buffer_pool_allocate k p =
    (WS_BUFFER_INVALID_INDEX, bp_stats p (allocated_count p) (peak_usage p) (exhaustion_count p + 1)).
Proof. intros W. rewrite allocate_spurious. cbn. unfold alloc_look. by rewrite (pw_chain _ _ W). Qed.

(** Relinking an entry that is off the list, again and again, then swinging the head. *)
Lemma dealloc_loop_eq k i p :
  dealloc_loop k i p = bp_head (dealloc_link i p) i.
Proof.
  revert p. induction k as [ | k IH]; intros p; cbn.
  - unfold head_cas. cbn. by rewrite Z.eqb_refl.
  - rewrite IH. unfold dealloc_link, bp_head, bp_headers, bp_next. cbn. f_equal; [ | by rewrite list_insert_insert_eq].
    apply list_eq. intros j. destruct (decide (j = Z.to_nat i)) as [-> | Hne].
    + rewrite !list_lookup_alter_eq. by destruct (headers p !! Z.to_nat i).
    + by rewrite !list_lookup_alter_ne.
Qed.

Lemma dealloc_spec k p fl i :
  pool_wf p fl → 0 <= i < buffer_count p → (i ∉ fl) →
  let q := ws_buffer_pool_deallocate k p i in
  pool_wf q (i :: fl) ∧ datas q = <[Z.to_nat i := zeroes p]> (datas p) ∧ same_shape p q.
Proof.
  intros W Hi Hni. pose proof (proj2 (alloc_header_iff p fl i W (proj1 Hi)) (conj (proj2 Hi) Hni)) as Ha.
  pose proof (free_length p fl W) as Hfl.
  unfold ws_buffer_pool_deallocate. rewrite (proj2 (Z.leb_gt _ _)), Ha by lia. cbn [negb]. rewrite dealloc_loop_eq.
  split; [ | done]. destruct W as [W1 W2 W3 W4 W5 W6 W7 W8 W9 W10 W11 W12].
  constructor; cbn -[Z.of_nat]; try done.
  - by rewrite !length_alter.
  - by rewrite length_insert.
  - by rewrite length_insert.
  - apply (headers_alter _ _ _ (header_ok (i :: fl))); [ | by intros h [? ?] | done].
    apply (headers_alter (headers p) _ _ (header_ok fl)); [done | | ]; rewrite ?Z2Nat.id by lia.
    + intros h' [K1 K2]. split; [done |]. cbn. by rewrite decide_True by left.
    + intros j h' Hne [K1 K2]. split; [done |]. rewrite K2. destruct (decide (Z.of_nat j ∈ fl)) as [Hj | Hj].
      * rewrite decide_True; [done | by right].
      * rewrite decide_False; [done |]. apply not_elem_of_cons. split; [lia | done].
  - split_and!; [done | lia |]. exists (free_head p). split; [ | by apply chain_insert; [ | lia | ]].
    rewrite list_lookup_insert_eq by lia. f_equal. apply Z.mod_small.
    destruct fl as [ | j r]; [rewrite W8; by vm_compute |].
    pose proof (chain_range _ _ _ W8) as HF. apply Forall_cons in HF as [HF _]. destruct W8 as (-> & _). lia.
  - by constructor.
  - intros j d Hj Hd. apply elem_of_cons in Hj as [-> | Hj].
    + rewrite list_lookup_insert_eq in Hd by lia. by injection Hd as <-.
    + destruct (decide (j = i)) as [-> | Hne]; [done |].
      pose proof (chain_range _ _ _ W8) as HF. rewrite Forall_forall in HF. specialize (HF j Hj).
      rewrite list_lookup_insert_ne in Hd by lia. by apply (W10 j).
  - assert (Hlen : Z.of_nat (length fl) < buffer_count p).
    { destruct (decide (Z.of_nat (length fl) = buffer_count p)) as [Heq | ]; [ | lia]. exfalso.
      assert (Hs : i :: fl ⊆ seqZ 0 (buffer_count p)).
      { intros j Hj. apply elem_of_seqZ. apply elem_of_cons in Hj as [-> | Hj]; [lia |].
        pose proof (chain_range _ _ _ W8) as HF. rewrite Forall_forall in HF. specialize (HF j Hj). lia. }
      apply NoDup_submseteq in Hs; [ | by constructor]. apply submseteq_length in Hs. rewrite length_seqZ in Hs. cbn in Hs. lia. }
    lia.
  - lia.
Qed.

(** Freeing what is free already, or no buffer at all, changes nothing. *)
Lemma dealloc_refused k p fl i :
  pool_wf p fl → 0 <= i → (i ∈ fl ∨ buffer_count p <= i) → ws_buffer_pool_deallocate k p i = p.
Proof.
  intros W H0 Hi. unfold ws_buffer_pool_deallocate. destruct (Z.leb_spec (buffer_count p) i); [done |].
  assert (Ha : allocated_header p i = false).
  { apply not_true_is_false. rewrite (alloc_header_iff p fl i W H0). intros [? ?]. destruct Hi; [done | lia]. }
  by rewrite Ha.
Qed.

(** ** Refinement of a stack of free indices *)

(** What a client does: allocate, give an index back, fill a buffer it holds. *)
Inductive pool_op := PAlloc (spurious : nat) | PFree (spurious : nat) (i : Z) | PFill (i : Z) (d : list Z).

(** The index handed out, or 0 for the operations that hand out none, and the pool. *)
Definition pool_do (o : pool_op) (p : ws_buffer_pool_t) : Z * ws_buffer_pool_t :=
  match o with
  | PAlloc k => ws_buffer_pool_allocate k p
  | PFree k i => (0, ws_buffer_pool_deallocate k p i)
  | PFill i d => (0, match ws_buffer_pool_get_buffer p i with
                     | Some _ => if (length d =? Z.to_nat (buffer_size p - header_size))%nat
                                 then bp_datas p (<[Z.to_nat i := d]> (datas p)) else p
                     | None => p
                     end)
  end.

(** The specification: a stack of indices below [n]. *)
Definition stack_do (n : Z) (o : pool_op) (fl : list Z) : Z * list Z :=
  match o with
  | PAlloc _ => match fl with [] => (WS_BUFFER_INVALID_INDEX, []) | i :: r => (i, r) end
  | PFree _ i => (0, if decide (i < n ∧ (i ∉ fl)) then i :: fl else fl)
  | PFill _ _ => (0, fl)
  end.

Definition op_ok (o : pool_op) : Prop :=
  match o with PAlloc _ => True | PFree _ i | PFill i _ => 0 <= i end.

Fixpoint pool_run (os : list pool_op) (p : ws_buffer_pool_t) : list Z * ws_buffer_pool_t :=
  match os with
  | [] => ([], p)
  | o :: r => let '(x, q) := pool_do o p in let '(xs, e) := pool_run r q in (x :: xs, e)
  end.
Fixpoint stack_run (n : Z) (os : list pool_op) (fl : list Z) : list Z * list Z :=
  match os with
  | [] => ([], fl)
  | o :: r => let '(x, q) := stack_do n o fl in let '(xs, e) := stack_run n r q in (x :: xs, e)
  end.

Lemma fill_wf p fl i d :
  pool_wf p fl → 0 <= i → pool_wf (snd (pool_do (PFill i d) p)) fl ∧ same_shape p (snd (pool_do (PFill i d) p)).
Proof.
  intros W H0. cbn. unfold ws_buffer_pool_get_buffer. destruct (Z.leb_spec (buffer_count p) i); [done |].
  destruct (allocated_header p i) eqn:Ea; cbn; [ | done]. apply (alloc_header_iff p fl i W H0) in Ea as [Hlt Hni].
  split_if; [ | done]. split; [ | done]. destruct W as [W1 W2 W3 W4 W5 W6 W7 W8 W9 W10 W11 W12].
  constructor; cbn; try done.
  - by rewrite length_insert.
  - intros j d' Hj Hd. destruct (decide (j = i)) as [-> | Hne]; [done |].
    pose proof (chain_range _ _ _ W8) as HF. rewrite Forall_forall in HF. specialize (HF j Hj).
    rewrite list_lookup_insert_ne in Hd by lia. by apply (W10 j).
Qed.

(** One operation, simulated. *)
Lemma pool_do_sim o p fl :
  pool_wf p fl → op_ok o →
  fst (pool_do o p) = fst (stack_do (buffer_count p) o fl) ∧
  pool_wf (snd (pool_do o p)) (snd (stack_do (buffer_count p) o fl)) ∧ same_shape p (snd (pool_do o p)).
Proof.
  intros W Ho. destruct o as [k | k i | i d].
  - cbn. destruct fl as [ | i r].
    + rewrite alloc_empty by done. split_and!; try done. by destruct W.
    + destruct (alloc_spec k p i r W) as (q & -> & Wq & _ & Hs). done.
  - cbn in Ho |- *. split; [done |]. destruct (decide (i < buffer_count p ∧ (i ∉ fl))) as [[Hlt Hni] | Hno].
    + destruct (dealloc_spec k p fl i W (conj Ho Hlt) Hni) as (Wq & _ & Hs). done.
    + rewrite (dealloc_refused k p fl i W Ho); [done |]. destruct (decide (i ∈ fl)); [by left |]. right.
      destruct (Z.le_gt_cases (buffer_count p) i); [done |]. exfalso. apply Hno. split; [lia | done].
  - split; [done |]. by apply fill_wf.
Qed.

Lemma pool_run_sim os p fl :
  pool_wf p fl → Forall op_ok os →
  fst (pool_run os p) = fst (stack_run (buffer_count p) os fl) ∧
  pool_wf (snd (pool_run os p)) (snd (stack_run (buffer_count p) os fl)) ∧ same_shape p (snd (pool_run os p)).
Proof.
  revert p fl. induction os as [ | o os IH]; intros p fl W HF; [done |]. apply Forall_cons in HF as [Ho HF].
  destruct (pool_do_sim o p fl W Ho) as (E1 & W1 & Hs). cbn.
  destruct (pool_do o p) as [x q]. destruct (stack_do (buffer_count p) o fl) as [y fl']. cbn in E1, W1, Hs. subst y.
  destruct (IH q fl' W1 HF) as (E2 & W2 & Hs2). assert (Ec : buffer_count q = buffer_count p) by apply Hs. rewrite Ec in E2, W2.
  destruct (pool_run os q) as [xs e]. destruct (stack_run (buffer_count p) os fl') as [ys fe]. cbn in *. subst ys.
  split_and!; [done | done | ]. unfold same_shape in *. intuition congruence.
Qed.

(** ** The validator accepts every pool in use *)

Lemma validate_walk_count hs (fl : list Z) k f a :
  (∀ (i : nat) h, hs !! i = Some h → header_ok fl (k + Z.of_nat i) h) →
  validate_walk k hs f a =
    Some (f + Z.of_nat (length (filter (λ i, i ∈ fl) (seqZ k (Z.of_nat (length hs))))),
          a + (Z.of_nat (length hs) - Z.of_nat (length (filter (λ i, i ∈ fl) (seqZ k (Z.of_nat (length hs))))))).
Proof.
  revert k f a. induction hs as [ | h hs IH]; intros k f a Hok.
  - cbn [validate_walk length]. rewrite (seqZ_nil k (Z.of_nat 0)) by lia. cbn. f_equal. f_equal; lia.
  - destruct (Hok 0%nat h eq_refl) as [Hi Hm]. rewrite Z.add_0_r in Hi, Hm. cbn [validate_walk]. rewrite Hi, Z.eqb_refl. cbn [negb].
    rewrite (seqZ_cons k) by (cbn; lia). cbn [length]. replace (Z.pred (Z.of_nat (S (length hs)))) with (Z.of_nat (length hs)) by lia.
    replace (Z.succ k) with (k + 1) by lia.
    assert (Hrest : ∀ (i : nat) h', hs !! i = Some h' → header_ok fl (k + 1 + Z.of_nat i) h').
    { intros i h' Hh. replace (k + 1 + Z.of_nat i) with (k + Z.of_nat (S i)) by lia. by apply (Hok (S i)). }
    destruct (decide (k ∈ fl)) as [Hin | Hin]; rewrite Hm.
    + rewrite filter_cons_True by done. cbn [length]. rewrite Z.eqb_refl, IH by done. f_equal. f_equal; lia.
    + rewrite filter_cons_False by done. change (WS_BUFFER_POOL_MAGIC =? WS_BUFFER_FREE_MAGIC) with false.
      rewrite Z.eqb_refl, IH by done. f_equal. f_equal; lia.
Qed.

Lemma validate_ok p fl : pool_wf p fl → ws_buffer_pool_validate p = 0.
Proof.
  intros W. unfold ws_buffer_pool_validate. pose proof (pw_base _ _ W). rewrite (proj2 (Z.eqb_neq _ 0)) by lia.
  rewrite (validate_walk_count (headers p) fl 0 0 0) by apply (pw_headers _ _ W).
  pose proof (pw_count _ _ W). rewrite (pw_hlen _ _ W), Z2Nat.id by lia.
  assert (EL : length (filter (λ i, i ∈ fl) (seqZ 0 (buffer_count p))) = length fl).
  { apply Permutation_length, NoDup_Permutation; [apply NoDup_filter, NoDup_seqZ | apply (pw_nodup _ _ W) |].
    intros i. rewrite list_elem_of_filter, elem_of_seqZ. split; [tauto |]. intros Hi.
    pose proof (free_in_range p fl i W Hi). split; [done | lia]. }
  rewrite EL. pose proof (free_length p fl W). pose proof (pw_alloc _ _ W) as Ha.
  unfold u32. rewrite !Z.mod_small by lia.
  rewrite (proj2 (Z.eqb_eq _ (allocated_count p))) by lia. cbn [negb].
  rewrite (proj2 (Z.eqb_eq _ (buffer_count p))) by lia. done.
Qed.

(** C15. A buffer pool is a stack of indices: whatever a client does after initialisation,
    allocations, deallocations (of free, foreign or out-of-range indices too) and writes,
    with the compare-and-swaps failing spuriously any number of times, the indices handed
    out are those of the stack specification; no index is handed out while it is in use;
    the buffer handed out is all zero; and the validator accepts the pool. *)
Theorem pool_refines_stack base size count p0 os k :
  0 < base → 0 < size <= 2 ^ 32 - 80 → 0 < count < 2 ^ 32 → Forall op_ok os →
  ∃ p, ws_buffer_pool_init (Some base) size count p0 = (0, p) ∧ size <= ws_buffer_pool_get_data_size p ∧
    let '(xs, q) := pool_run os p in
    let '(ys, fl) := stack_run count os (seqZ 0 count) in
    xs = ys ∧ NoDup fl ∧ ws_buffer_pool_validate q = 0 ∧ allocated_count q = count - Z.of_nat (length fl) ∧
    match ws_buffer_pool_allocate k q with
    | (i, q') => match fl with
                 | [] => i = WS_BUFFER_INVALID_INDEX
                 | j :: _ => i = j ∧ 0 <= i < count ∧ allocated_header q i = false ∧ allocated_header q' i = true ∧
                             ∀ d, datas q' !! Z.to_nat i = Some d → d = zeroes q'
                 end
    end.
Proof.
  intros Hb Hs Hc HF. destruct (init_wf base size count p0 Hb Hs Hc) as (p & E & W & Ec & Hsz & _).
  exists p. split; [done |]. split.
  { unfold ws_buffer_pool_get_data_size, u64, header_size in *. pose proof (pw_size _ _ W). rewrite Z.mod_small; lia. }
  destruct (pool_run_sim os p (seqZ 0 count) W HF) as (E1 & W1 & Hsh). rewrite Ec in E1, W1.
  destruct (pool_run os p) as [xs q]. destruct (stack_run count os (seqZ 0 count)) as [ys fl]. cbn in E1, W1, Hsh.
  destruct Hsh as (_ & _ & Hcq). split_and!; [done | apply (pw_nodup _ _ W1) | by eapply validate_ok | rewrite (pw_alloc _ _ W1); lia | ].
  destruct fl as [ | j r].
  - by rewrite alloc_empty.
  - destruct (alloc_spec k q j r W1) as (q' & -> & W2 & Hd & Hsh2). pose proof (free_in_range q _ j W1 ltac:(left)) as Hr.
    pose proof (pw_nodup _ _ W1) as HN. apply NoDup_cons in HN as [Hnj _].
    split_and!; [done | lia | lia | | | ].
    + apply not_true_is_false. rewrite (alloc_header_iff q _ j W1) by lia. intros [_ Hx]. apply Hx. left.
    + apply (alloc_header_iff q' r j W2); [lia |]. destruct Hsh2 as (_ & _ & ->). split; [lia | done].
    + intros d Hdd. rewrite Hd in Hdd. destruct Hsh2 as (_ & Hbs & _). unfold zeroes. rewrite Hbs.
      apply (pw_zero _ _ W1 j d); [left | done].
Qed.

Lemma pool_refines_stack_witness :
  ∃ p, ws_buffer_pool_init (Some 4096) 1024 4 pool_zero = (0, p) ∧ 1024 <= ws_buffer_pool_get_data_size p.
Proof.
  destruct (pool_refines_stack 4096 1024 4 pool_zero [PAlloc 1; PAlloc 0; PFree 2 0; PFree 0 0; PFree 0 9] 0)
    as (p & E & Hd & _); [lia | lia | lia | repeat constructor; cbn; lia |].
  by exists p.
Defined.

(** ** Pointers and indices *)

Lemma get_buffer_iff p fl i :
  pool_wf p fl → 0 <= i →
  ws_buffer_pool_get_buffer p i =
    if decide (i < buffer_count p ∧ (i ∉ fl)) then Some (memory_block p + i * buffer_size p + header_size) else None.
Proof.
  intros W H0. unfold ws_buffer_pool_get_buffer. pose proof (alloc_header_iff p fl i W H0) as Ha.
  destruct (Z.leb_spec (buffer_count p) i); [rewrite decide_False by lia; done |].
  destruct (allocated_header p i); cbn [negb].
  - rewrite decide_True by (by apply Ha). done.
  - rewrite decide_False; [done |]. intros Hx. by apply Ha in Hx.
Qed.

Lemma index_of_pointer p fl i :
  pool_wf p fl → 0 <= i < buffer_count p →
  ws_buffer_pool_get_buffer_index p (memory_block p + i * buffer_size p + header_size) =
    Some (if allocated_header p i then i else WS_BUFFER_INVALID_INDEX).
Proof.
  intros W Hi. pose proof (pw_size _ _ W). pose proof (pw_count _ _ W). unfold header_size in *.
  unfold ws_buffer_pool_get_buffer_index, header_size.
  replace (memory_block p + i * buffer_size p + 16 - 16) with (memory_block p + i * buffer_size p) by lia.
  rewrite (proj2 (Z.ltb_ge _ _)) by nia. replace (memory_block p + i * buffer_size p - memory_block p) with (i * buffer_size p) by lia.
  rewrite Z.mod_mul by lia. cbn [negb Z.eqb]. rewrite Z.div_mul by lia. unfold u32. rewrite Z.mod_small by lia.
  rewrite (proj2 (Z.leb_gt _ _)) by lia. by destruct (allocated_header p i).
Qed.

(** Pointers and indices of a pool in any state of use determine each other: a
    buffer in use has a data pointer, from which its index is recovered; the data areas of
    two buffers in use are disjoint and lie inside the block; a free buffer has no pointer;
    and an address the pool answers with an index is exactly that buffer's data pointer,
    for every address less than [2 ^ 32] buffers beyond the block's start. *)
Theorem buffer_pointer_roundtrip p fl i j a :
  pool_wf p fl → 0 <= i < buffer_count p → 0 <= j < buffer_count p → i ≠ j →
  a < memory_block p + header_size + 2 ^ 32 * buffer_size p →
  (i ∈ fl → ws_buffer_pool_get_buffer p i = None) ∧
  ((i ∉ fl) → ∃ d, ws_buffer_pool_get_buffer p i = Some d ∧ ws_buffer_pool_get_buffer_index p d = Some i ∧
     memory_block p <= d - header_size ∧
     d + ws_buffer_pool_get_data_size p <= memory_block p + buffer_count p * buffer_size p ∧
     ∀ d', ws_buffer_pool_get_buffer p j = Some d' →
       d + ws_buffer_pool_get_data_size p <= d' ∨ d' + ws_buffer_pool_get_data_size p <= d) ∧
  (∃ x, ws_buffer_pool_get_buffer_index p a = Some x ∧
     (x ≠ WS_BUFFER_INVALID_INDEX → ws_buffer_pool_get_buffer p x = Some a)).
Proof.
  intros W Hi Hj Hne Ha. pose proof (pw_size _ _ W) as Hsz. pose proof (pw_count _ _ W) as Hct.
  assert (Hds : ws_buffer_pool_get_data_size p = buffer_size p - header_size).
  { unfold ws_buffer_pool_get_data_size, u64, header_size in *. apply Z.mod_small. lia. }
  rewrite Hds. unfold header_size in *. split_and!.
  - intros Hin. rewrite (get_buffer_iff p fl i W) by lia. by rewrite decide_False by (intros [_ ?]; done).
  - intros Hni. rewrite (get_buffer_iff p fl i W) by lia. rewrite decide_True by (split; [lia | done]).
    eexists. split; [done |]. rewrite (index_of_pointer p fl i W Hi).
    rewrite (proj2 (alloc_header_iff p fl i W (proj1 Hi)) (conj (proj2 Hi) Hni)).
    unfold header_size. split_and!; [done | nia | nia |]. intros d'. rewrite (get_buffer_iff p fl j W) by lia.
    destruct (decide (j < buffer_count p ∧ (j ∉ fl))); [ | done]. intros [= <-]. unfold header_size.
    destruct (Z.lt_trichotomy i j) as [Hl | [? | Hl]]; [left; nia | done | right; nia].
  - unfold ws_buffer_pool_get_buffer_index, header_size.
    destruct (Z.ltb_spec (a - 16) (memory_block p)); [by eexists |].
    destruct (Z.eqb_spec ((a - 16 - memory_block p) mod buffer_size p) 0) as [Hm | Hm]; cbn [negb]; [ | by eexists].
    set (o := a - 16 - memory_block p) in *. assert (Ho : o = buffer_size p * (o / buffer_size p)) by (apply Z.div_exact; lia).
    assert (Hq : 0 <= o / buffer_size p < 2 ^ 32) by (split; [apply Z.div_pos; lia | apply Z.div_lt_upper_bound; lia]).
    unfold u32. rewrite Z.mod_small by lia. destruct (Z.leb_spec (buffer_count p) (o / buffer_size p)); [by eexists |].
    destruct (allocated_header p (o / buffer_size p)) eqn:Eh; cbn [negb]; eexists; split; [done | | done | done].
    intros _. unfold ws_buffer_pool_get_buffer. rewrite (proj2 (Z.leb_gt _ _)) by lia. rewrite Eh. cbn [negb].
    f_equal. unfold header_size. lia.
Qed.

(** ** Requests by size *)

Definition pools_wf (t : thread_pools) (fl : size_class → list Z) : Prop := ∀ c, pool_wf (pool_of c t) (fl c).

Definition same_pools (t t' : thread_pools) (c : size_class) : Prop := ∀ c', c' ≠ c → pool_of c' t' = pool_of c' t.

Lemma pool_of_set c t p : pool_of c (set_pool c t p) = p.
Proof. by destruct c. Qed.
Lemma same_pools_set c t p : same_pools t (set_pool c t p) c.
Proof. intros c' Hc. by destruct c, c'. Qed.

(** The pools that were too small. *)
Definition smaller (c : size_class) : list size_class :=
  match c with Small => [] | Medium => [Small] | Large => [Small; Medium] end.

Lemma select_pool_spec t needed :
  match select_pool t needed with
  | Some c => needed <= ws_buffer_pool_get_data_size (pool_of c t) ∧
              Forall (λ c', ws_buffer_pool_get_data_size (pool_of c' t) < needed) (smaller c)
  | None => ∀ c, ws_buffer_pool_get_data_size (pool_of c t) < needed
  end.
Proof.
  unfold select_pool. destruct (Z.leb_spec needed (ws_buffer_pool_get_data_size (small_buffers t))) as [H1 | H1];
    [split; [done | constructor] |].
  destruct (Z.leb_spec needed (ws_buffer_pool_get_data_size (medium_buffers t))) as [H2 | H2]; [split; [done | by repeat constructor] |].
  destruct (Z.leb_spec needed (ws_buffer_pool_get_data_size (large_buffers t))) as [H3 | H3]; [split; [done | by repeat constructor] |].
  by intros [].
Qed.

(** A request is served from the first pool whose buffers are large enough, with a
    buffer of that pool nobody holds, and leaves the other pools alone; it is refused only
    when no pool's buffers are large enough or that pool is used up (a larger one is not
    tried), and then nothing is taken; giving the buffer back restores the pool's free list
    and clears the allocation. *)
Theorem allocate_for_size_fits k k' t fl needed :
  pools_wf t fl →
  let '(a, t') := ws_allocate_buffer_for_size k t needed in
  match al_pool a with
  | None => a = no_allocation ∧
            match select_pool t needed with None => t' = t | Some c => fl c = [] ∧ pool_wf (pool_of c t') [] ∧ same_pools t t' c end
  | Some c => select_pool t needed = Some c ∧ needed <= al_size a ∧
              (∃ r, fl c = al_idx a :: r ∧ pool_wf (pool_of c t') r) ∧ same_pools t t' c ∧
              ws_buffer_pool_get_buffer (pool_of c t') (al_idx a) = Some (al_data a) ∧
              let '(a2, t2) := ws_deallocate_buffer k' a t' in
              a2 = no_allocation ∧ pool_wf (pool_of c t2) (fl c) ∧ same_pools t t2 c
  end.
Proof.
  intros W. unfold ws_allocate_buffer_for_size. pose proof (select_pool_spec t needed) as HS.
  destruct (select_pool t needed) as [c | ] eqn:ES; [ | done]. destruct HS as [HS _].
  pose proof (W c) as Wc. destruct (fl c) as [ | i r] eqn:Ef.
  - rewrite alloc_empty by done. rewrite Z.eqb_refl. cbn [al_pool no_allocation]. split; [done |].
    rewrite pool_of_set. split_and!; [done | by destruct Wc | apply same_pools_set].
  - destruct (alloc_spec k (pool_of c t) i r Wc) as (q & -> & Wq & _ & Hsh).
    pose proof (free_in_range _ _ i Wc ltac:(left)) as Hr. pose proof (pw_count _ _ Wc) as Hct.
    pose proof (pw_nodup _ _ Wc) as HN. apply NoDup_cons in HN as [Hni _]. destruct Hsh as (_ & Hbs & Hbc).
    rewrite (proj2 (Z.eqb_neq i _)) by (unfold WS_BUFFER_INVALID_INDEX; lia).
    assert (EG : ws_buffer_pool_get_buffer q i = Some (memory_block q + i * buffer_size q + header_size)).
    { rewrite (get_buffer_iff q r i Wq) by lia. rewrite decide_True; [done |]. split; [lia | done]. }
    rewrite EG. cbn [al_pool al_idx al_data al_size]. rewrite pool_of_set. split_and!.
    + done.
    + unfold ws_buffer_pool_get_data_size in *. rewrite Hbs. exact HS.
    + by exists r.
    + apply same_pools_set.
    + done.
    + unfold ws_deallocate_buffer. cbn [al_pool al_idx].
      rewrite (proj2 (Z.eqb_neq i _)) by (unfold WS_BUFFER_INVALID_INDEX; lia). rewrite pool_of_set.
      destruct (dealloc_spec k' q r i Wq ltac:(lia) Hni) as (Wd & _ & _). split_and!; [done | rewrite pool_of_set, Ef; exact Wd |].
      intros c' Hc. rewrite (same_pools_set c _ _ c' Hc). by apply same_pools_set.
Qed.

(** ** Witnesses *)

Definition demo_pool (size : Z) : ws_buffer_pool_t := snd (ws_buffer_pool_init (Some 65536) size 2 pool_zero).
Lemma demo_pool_wf size : 0 < size <= 2 ^ 32 - 80 → pool_wf (demo_pool size) [0; 1].
Proof.
  intros Hs. destruct (init_wf 65536 size 2 pool_zero) as (p & E & W & _); [lia | done | lia |].
  unfold demo_pool. rewrite E. exact W.
Qed.

Lemma buffer_pointer_roundtrip_witness :
  ∃ x, ws_buffer_pool_get_buffer_index (demo_pool 1024) 65552 = Some x.
Proof.
  destruct (proj2 (proj2 (buffer_pointer_roundtrip (demo_pool 1024) [0; 1] 0 1 65552 (demo_pool_wf 1024 ltac:(lia))
    ltac:(vm_compute; split; congruence) ltac:(vm_compute; split; congruence) ltac:(lia) ltac:(vm_compute; reflexivity)))) as (x & E & _).
  by exists x.
Defined.

Definition demo_pools : thread_pools := mk_pools (demo_pool 1024) (demo_pool 4096) (demo_pool 16384).
Lemma demo_pools_wf : pools_wf demo_pools (λ _, [0; 1]).
Proof. intros []; apply demo_pool_wf; lia. Qed.

Lemma allocate_for_size_fits_witness :
  let '(a, t') := ws_allocate_buffer_for_size 0 demo_pools 2000 in al_pool a = Some Medium ∧ 2000 <= al_size a.
Proof.
  pose proof (allocate_for_size_fits 0 0 demo_pools (λ _, [0; 1]) 2000 demo_pools_wf) as H.
  destruct (ws_allocate_buffer_for_size 0 demo_pools 2000) as [a t'] eqn:E. vm_compute in E. injection E as <- <-.
  cbn in H. destruct H as (_ & Hsz & _). split; [reflexivity | exact Hsz].
Defined.

(** ** Two threads on one pool

    The compare-and-swap looks at the index only.  Thread A reads head 0 with next 1 and is
    suspended; thread B allocates 0 and 1 and frees 0; A's swap then succeeds and makes the
    head 1, a buffer in use: the next allocation stops at the integrity check although
    buffer 2 is free, and so does every one after it. *)
Example shared_pool_aba :
  let p := snd (ws_buffer_pool_init (Some 65536) 48 3 pool_zero) in
  let pB := ws_buffer_pool_deallocate 0 (snd (ws_buffer_pool_allocate 0 (snd (ws_buffer_pool_allocate 0 p)))) 0 in
  let q := alloc_mark 0 (default pool_zero (head_cas 0 1 pB)) in
  alloc_look p = AGo 0 1 ∧ free_head pB = 0 ∧ allocated_header q 2 = false ∧
  ws_buffer_pool_allocate 0 q = (WS_BUFFER_INVALID_INDEX, q).
Proof. vm_compute. done. Qed.

(** The size is rounded up in 32 bits: a size within 80 of the top wraps to nothing. *)
Example init_size_wraps :
  buffer_size (snd (ws_buffer_pool_init None (2 ^ 32 - 17) 1 pool_zero)) = 0.
Proof. reflexivity. Qed.
