(* ===== verification/Server.v ===== *)
(** * The server (src/src/ws/ws_server.c, wslib.c, the producers of ws_mpsc.c)

    The acceptor, which hands connections to the event threads, and the calls an
    application makes from any thread: sending, closing, user data, statistics.  A call
    that names a connection takes a reference to it, queues a message for the thread that
    owns it and drops the reference; the thread acts on the message (Thread).

    The server has one connection table.  Here it is kept as its restriction to the
    connections of each thread, [t_hash] of that thread. *)
From Stdlib Require Import ZArith Lia.
From stdpp Require Import base numbers list strings gmap sorting.
From S2P Require Import Prelude Cstr Frame Sys OutBuf Conn ConnHash WsHandler HttpRequest HttpResponse Handshake HttpConn Ident Thread ThreadInv ThreadSpec.
Open Scope Z_scope.

Definition WS_OK : Z := 0.
Definition WS_ERROR_INVALID_ARGS : Z := -1.
Definition WS_ERROR_PROTOCOL : Z := -4.
Definition WS_ERROR_NOT_FOUND : Z := -5.
Definition WS_ERROR_QUEUE_FULL : Z := -6.

(** ** Configuration defaults *)

(** [ws_config_t], the fields the defaults set. *)
Record ws_config := mk_wscfg {
  wc_port : Z;
  wc_bind_address : option (list Z);
  wc_thread_count : Z;
  wc_max_connections : Z;
  wc_max_connections_per_thread : Z;
  wc_max_message_size : Z;
  wc_max_frame_size : Z;
  wc_handshake_timeout : Z;
  wc_ping_interval : Z;
  wc_pong_timeout : Z;
  wc_small_buffer_count : Z;
  wc_medium_buffer_count : Z;
  wc_large_buffer_count : Z;
  wc_enable_keepalive : bool;
  wc_enable_nodelay : bool;
  wc_backlog : Z
}.

Definition ws_get_default_config : ws_config :=
  mk_wscfg 8080 None 0 500000 100000 (1024 * 1024) 65536 10 30 10 16384 8192 2048 true true 128.

(** ** The server *)

(** An event thread with its message queue and the writes of its wakeup eventfd. *)
Record sthread := mk_st { st_thread : ethread; st_queue : list out_msg; st_wakeups : Z }.

Record server := mk_server {
  s_threads : list sthread;
  s_next_thread : Z;
  s_connection_count : Z;
  s_thread_loads : list Z;
  s_closed : list Z            (* the acceptor's [close(2)] calls *)
}.

Definition s_set_threads (s : server) v := mk_server v (s_next_thread s) (s_connection_count s) (s_thread_loads s) (s_closed s).
Definition s_set_next (s : server) v := mk_server (s_threads s) v (s_connection_count s) (s_thread_loads s) (s_closed s).
Definition s_set_counts (s : server) c l := mk_server (s_threads s) (s_next_thread s) c l (s_closed s).
Definition s_close (s : server) (fd' : Z) :=
  mk_server (s_threads s) (s_next_thread s) (s_connection_count s) (s_thread_loads s) (s_closed s ++ [fd']).

Definition thread_count (s : server) : Z := Z.of_nat (length (s_threads s)).

(** A producer of ws_mpsc.c with the wakeup that follows it: [ok] is whether a node and
    the message's memory were there. *)
Definition post (ok : bool) (k : nat) (m : out_msg) (s : server) : Z * server :=
  if ok then
    (0, s_set_threads s (alter (λ x, mk_st (st_thread x) (st_queue x ++ [m]) (st_wakeups x + 1)) k (s_threads s)))
  else (-1, s).

(** The message each producer of ws_mpsc.c builds; NULL data is [None], and [heap] is what
    [malloc] left where a NULL payload is not copied. *)
Definition control_payload (heap : list Z) (data : option (list Z)) (len : Z) : list Z :=
  match data with Some d => ztake len d | None => ztake len heap end.
Definition ws_mpsc_send_new_connection (fd' addr : Z) (env : accept_env) : out_msg := MNew fd' addr env.
Definition ws_mpsc_send_text_message (fd' : Z) (i : nat) (gen : Z) (data : option (list Z)) (len : Z) : out_msg :=
  MText fd' (Some i) gen (ztake len (default [] data)).
Definition ws_mpsc_send_binary_message (fd' : Z) (i : nat) (gen : Z) (data : option (list Z)) (len : Z) : out_msg :=
  MBinary fd' (Some i) gen (ztake len (default [] data)).
Definition ws_mpsc_update_user_data (fd' v : Z) : out_msg := MUserData fd' v.
Definition ws_mpsc_send_shutdown_signal : out_msg := MShutdown.
Definition ws_mpsc_send_close_message (fd' code : Z) (reason : list Z) : out_msg := MClose fd' code reason.
Definition ws_mpsc_send_ping_message (heap : list Z) (fd' : Z) (data : option (list Z)) (len : Z) : out_msg :=
  MPing fd' (control_payload heap data len).
Definition ws_mpsc_send_pong_message (heap : list Z) (fd' : Z) (data : option (list Z)) (len : Z) : out_msg :=
  MPong fd' (control_payload heap data len).

(** ** The acceptor *)

(** What [accept] returned, and what the calls after it do: [on_accept]'s answer if there
    is a callback, whether the socket was made non-blocking, whether the message could be
    queued, and what the owning thread will find. *)
Inductive accepted :=
| AcAgain
| AcInterrupted
| AcError
| AcFd (fd' addr : Z) (gate : option Z) (nonblocking_ok queue_ok : bool) (env : accept_env).

Definition at_capacity (x : sthread) : bool := Z.of_nat (max_connections (st_thread x)) <=? t_active (st_thread x).

(** The scan for a thread with room, from [target] on; [i] is its loop variable. *)
Fixpoint find_capacity (s : server) (target : Z) (i : Z) (left : nat) : option nat :=
  match left with
  | O => None
  | S l =>
      let try_thread := u32 (target + i) mod thread_count s in
      match s_threads s !! Z.to_nat try_thread with
      | Some x => if at_capacity x then find_capacity s target (i + 1) l else Some (Z.to_nat try_thread)
      | None => None
      end
  end.

(** One turn of [ws_acceptor_thread_worker]'s loop. *)
Definition ws_acceptor_turn (a : accepted) (s : server) : server :=
  match a with
  | AcAgain | AcInterrupted | AcError => s
  | AcFd fd' addr gate nonblocking_ok queue_ok env =>
      if match gate with Some rc => negb (rc =? 0) | None => false end then s_close s fd'
      else if negb nonblocking_ok then s_close s fd'
      else
        let target := s_next_thread s in
        let s1 := s_set_next s (u32 (s_next_thread s + 1) mod thread_count s) in
        match s_threads s1 !! Z.to_nat target with
        | None => s1
        | Some x =>
            match (if at_capacity x then find_capacity s1 target 0 (length (s_threads s1)) else Some (Z.to_nat target)) with
            | None => s_close s1 fd'
            | Some k =>
                let '(rc, s2) := post queue_ok k (ws_mpsc_send_new_connection fd' addr env) s1 in
                if rc <? 0 then s_close s2 fd'
                else s_set_counts s2 (s_connection_count s2 + 1) (alter (λ n, u32 (n + 1)) k (s_thread_loads s2))
            end
        end
  end.

Definition accept_run (l : list accepted) (s : server) : server := fold_left (λ s a, ws_acceptor_turn a s) l s.

(** ** Calls from the application *)

(** [ws_connection_hash_find] on the whole table: the owning thread and the slot. *)
Fixpoint find_owner (l : list sthread) (fd' : Z) : option (nat * nat) :=
  match l with
  | [] => None
  | x :: r =>
      match ws_connection_hash_find (t_hash (st_thread x)) fd' with
      | Some i => Some (O, Z.to_nat i)
      | None => (λ ki, (S ki.1, ki.2)) <$> find_owner r fd'
      end
  end.
Definition find_connection (s : server) (fd' : Z) : option (nat * nat) :=
  if fd' <? 0 then None else find_owner (s_threads s) fd'.

Definition conn_at (s : server) (ki : nat * nat) : option hw :=
  x ← s_threads s !! ki.1; t_slots (st_thread x) !! ki.2.

(** Update the slot a reference names. *)
Definition upd_conn (ki : nat * nat) (f : ws_connection → ws_connection) (s : server) : server :=
  s_set_threads s (alter (λ x, mk_st (set_slots (st_thread x) (alter (λ w, h_set w f) ki.2 (t_slots (st_thread x))))
                                   (st_queue x) (st_wakeups x)) ki.1 (s_threads s)).

Definition take_ref (ki : nat * nat) : server → server := upd_conn ki ws_connection_ref.
(** [ws_connection_unref] as the calls of ws_server.c use it: the result is ignored. *)
Definition drop_ref (ki : nat * nat) : server → server := upd_conn ki (λ c, (ws_connection_unref c).2).

(** What a call does between taking and dropping its reference: its return value, and the
    message queued.  [must_be_open]: the call checks for WS_STATE_OPEN. *)
Definition call_body (must_be_open ok : bool) (msg : nat * nat → ws_connection → out_msg) (ki : nat * nat) (s : server) : Z * server :=
  match conn_at s ki with
  | None => (WS_ERROR_NOT_FOUND, s)
  | Some w =>
      if must_be_open && negb (state (h_conn w) =? WS_STATE_OPEN) then (WS_ERROR_PROTOCOL, s)
      else let '(rc, s1) := post ok ki.1 (msg ki (h_conn w)) s in
           ((if rc <? 0 then WS_ERROR_QUEUE_FULL else WS_OK), s1)
  end.

(** Up to and with the queueing, and the reference still held. *)
Definition call_begin (must_be_open ok : bool) (msg : nat * nat → ws_connection → out_msg) (fd' : Z) (s : server)
  : Z * option (nat * nat) * server :=
  match find_connection s fd' with
  | None => (WS_ERROR_NOT_FOUND, None, s)
  | Some ki => let '(rc, s1) := call_body must_be_open ok msg ki (take_ref ki s) in (rc, Some ki, s1)
  end.

Definition call (must_be_open ok : bool) (msg : nat * nat → ws_connection → out_msg) (fd' : Z) (s : server) : Z * server :=
  match call_begin must_be_open ok msg fd' s with
  | (rc, Some ki, s1) => (rc, drop_ref ki s1)
  | (rc, None, s1) => (rc, s1)
  end.

(** [ws_send_text] and [ws_send_text_internal]; [data] is [None] for NULL. *)
Definition ws_send_text (ok : bool) (s : server) (fd' : Z) (data : option (list Z)) (len : Z) : Z * server :=
  if (fd' <? 0) || (bool_decide (data = None) && (0 <? len)) then (WS_ERROR_INVALID_ARGS, s)
  else call true ok (λ ki c, ws_mpsc_send_text_message fd' ki.2 (generation c) data len) fd' s.

Definition ws_send_binary (ok : bool) (s : server) (fd' : Z) (data : option (list Z)) (len : Z) : Z * server :=
  if (fd' <? 0) || (bool_decide (data = None) && (0 <? len)) then (WS_ERROR_INVALID_ARGS, s)
  else call true ok (λ ki c, ws_mpsc_send_binary_message fd' ki.2 (generation c) data len) fd' s.

(** [ws_send_ping] and [ws_send_pong]; [heap] is what [malloc] left in the message. *)
Definition ws_send_ping (ok : bool) (heap : list Z) (s : server) (fd' : Z) (data : option (list Z)) (len : Z) : Z * server :=
  if fd' <? 0 then (WS_ERROR_INVALID_ARGS, s)
  else if 125 <? len then (WS_ERROR_INVALID_ARGS, s)
  else call true ok (λ _ _, ws_mpsc_send_ping_message heap fd' data len) fd' s.

Definition ws_send_pong (ok : bool) (heap : list Z) (s : server) (fd' : Z) (data : option (list Z)) (len : Z) : Z * server :=
  if fd' <? 0 then (WS_ERROR_INVALID_ARGS, s)
  else if 125 <? len then (WS_ERROR_INVALID_ARGS, s)
  else call true ok (λ _ _, ws_mpsc_send_pong_message heap fd' data len) fd' s.

Definition ws_close_connection (ok : bool) (s : server) (fd' code : Z) (reason : list Z) : Z * server :=
  if fd' <? 0 then (WS_ERROR_INVALID_ARGS, s) else call false ok (λ _ _, ws_mpsc_send_close_message fd' code reason) fd' s.

Definition ws_get_connection_state (s : server) (fd' : Z) : Z :=
  match find_connection s fd' with
  | Some ki => match conn_at s ki with Some w => state (h_conn w) | None => WS_STATE_CLOSED end
  | None => WS_STATE_CLOSED
  end.

(** The user data calls write and read the slot from the calling thread. *)
Definition ws_set_connection_user_data (s : server) (fd' v : Z) : Z * server :=
  if fd' <? 0 then (WS_ERROR_INVALID_ARGS, s)
  else match find_connection s fd' with
       | None => (WS_ERROR_NOT_FOUND, s)
       | Some ki => (WS_OK, upd_conn ki (λ c, set_user_data c v) s)
       end.
Definition ws_get_connection_user_data (s : server) (fd' : Z) : Z :=
  match find_connection s fd' with
  | Some ki => match conn_at s ki with Some w => user_data (h_conn w) | None => 0 end
  | None => 0
  end.

Definition portico_active_connections (s : server) : Z := foldr (λ x n, t_active (st_thread x) + n) 0 (s_threads s).

(** The counters the statistics are read from: [total_connections_accepted] and
    [total_messages_processed] of the server, [events_processed] and
    [messages_processed] of each thread. *)
Record counters := mk_counters { n_accepted : Z; n_messages : Z; n_thread : list (Z * Z) }.

Record ws_server_stats := mk_stats {
  total_connections_accepted : Z; current_connections : Z; peak_connections : Z;
  total_messages_sent : Z; total_messages_received : Z; total_bytes_sent : Z; total_bytes_received : Z;
  connection_errors : Z; protocol_errors : Z; timeout_errors : Z;
  cpu_usage : Z; memory_usage : Z; active_threads : Z;
  small_buffers_allocated : Z; medium_buffers_allocated : Z; large_buffers_allocated : Z;
  small_buffers_peak : Z; medium_buffers_peak : Z; large_buffers_peak : Z
}.

(** [ws_get_server_stats_internal]: the structure is cleared, and five of its fields are
    filled.  The sum of the threads' events is computed and not used. *)
Definition ws_get_server_stats (s : server) (c : counters) : ws_server_stats :=
  let total_active := u32 (portico_active_connections s) in
  let total_messages := foldr (λ x n, u64 (x.2 + n)) 0 (n_thread c) in
  mk_stats (n_accepted c) (s_connection_count s) total_active 0 (u64 (n_messages c + total_messages)) 0 0 0 0 0 0 0
    (thread_count s) 0 0 0 0 0 0.

(** [ws_print_server_stats_internal]: the lines of the report. *)
Definition ws_print_server_stats (s : server) (c : counters) : list (string * Z) :=
  let st := ws_get_server_stats s c in
  [("Current connections"%string, current_connections st); ("Messages received"%string, total_messages_received st);
   ("Bytes sent"%string, total_bytes_sent st); ("Bytes received"%string, total_bytes_received st)].

(** No code ever moves [total_messages_processed] or [messages_processed], so the report
    shows nothing received and nothing sent, whatever was. *)
Lemma report_is_blank s accepted events :
  (ws_print_server_stats s (mk_counters accepted 0 ((λ e, (e, 0)) <$> events))).*2 = [s_connection_count s; 0; 0; 0].
Proof.
  unfold ws_print_server_stats, ws_get_server_stats. cbn. do 2 f_equal.
  induction events as [ | e l IH]; cbn in *; [done |]. destruct (foldr _ _ _) eqn:EF; [done | | ]; cbn in *; revert IH; unfold u64; lia.
Qed.

(** The owning thread takes its whole queue. *)
Definition thread_drain (on_close_cb : bool) (k : nat) (s : server) : server :=
  s_set_threads s (alter (λ x, let '(rest, t) := drain_messages on_close_cb (st_thread x) (st_queue x) in mk_st t rest (st_wakeups x))
                         k (s_threads s)).

(** ** The acceptor hands every connection to one thread or closes it *)

(** The thread to ask first is one of the threads. *)
Definition acc_wf (s : server) : Prop := 0 <= s_next_thread s < thread_count s ∧ thread_count s < 2 ^ 31.

(** Thread [x] with one more message and one more wakeup. *)
Definition with_msg (x : sthread) (m : out_msg) : sthread := mk_st (st_thread x) (st_queue x ++ [m]) (st_wakeups x + 1).

Lemma alter_insert {A} (f : A → A) (l : list A) k x : l !! k = Some x → alter f k l = <[k := f x]> l.
Proof.
  intros Hx. apply list_eq. intros j. destruct (decide (j = k)) as [-> | Hne].
  - rewrite list_lookup_alter_eq, Hx, list_lookup_insert_eq; [done | by eapply lookup_lt_Some].
  - by rewrite list_lookup_alter_ne, list_lookup_insert_ne.
Qed.

Lemma post_ok k m s x :
  s_threads s !! k = Some x → post true k m s = (0, s_set_threads s (<[k := with_msg x m]> (s_threads s))).
Proof. intros Hx. unfold post. by rewrite (alter_insert _ _ _ _ Hx). Qed.

(** The scan visits each thread once. *)
Lemma find_capacity_spec s target i left :
  acc_wf s → 0 <= target < thread_count s → 0 <= i → i + Z.of_nat left = thread_count s →
  match find_capacity s target i left with
  | Some k => ∃ x, s_threads s !! k = Some x ∧ at_capacity x = false
  | None => ∀ j, i <= j < thread_count s → ∃ x, s_threads s !! Z.to_nat ((target + j) mod thread_count s) = Some x ∧ at_capacity x = true
  end.
Proof.
  intros [Hn Hc] Ht. revert i. induction left as [ | left IH]; intros i Hi Hl; cbn [find_capacity]; [intros j ?; lia |].
  unfold u32. rewrite (Z.mod_small (target + i)) by lia.
  pose proof (Z.mod_pos_bound (target + i) (thread_count s) ltac:(lia)) as Hb.
  destruct (lookup_lt_is_Some_2 (s_threads s) (Z.to_nat ((target + i) mod thread_count s))) as [x Hx].
  { unfold thread_count in *. lia. }
  rewrite Hx. destruct (at_capacity x) eqn:Ex; [ | by exists x].
  specialize (IH (i + 1) ltac:(lia) ltac:(lia)). destruct (find_capacity s target (i + 1) left); [done |].
  intros j Hj. destruct (decide (j = i)) as [-> | Hne]; [by exists x | apply IH; lia].
Qed.

(** All of [0 .. n-1] is reached from any start. *)
Lemma reaches_all n target k : 0 <= target < n → 0 <= k < n → ∃ j, 0 <= j < n ∧ (target + j) mod n = k.
Proof.
  intros Ht Hk. destruct (Z.le_gt_cases target k).
  - exists (k - target). split; [lia |]. rewrite Z.mod_small; lia.
  - exists (k - target + n). split; [lia |]. replace (target + (k - target + n)) with (k + 1 * n) by lia.
    rewrite Z.mod_add, Z.mod_small; lia.
Qed.

Lemma all_full s target :
  acc_wf s → 0 <= target < thread_count s → find_capacity s target 0 (length (s_threads s)) = None →
  Forall (λ x, at_capacity x = true) (s_threads s).
Proof.
  intros W Ht E. pose proof (find_capacity_spec s target 0 (length (s_threads s)) W Ht ltac:(lia) eq_refl) as H. rewrite E in H.
  apply Forall_lookup. intros k x Hx. pose proof (lookup_lt_Some _ _ _ Hx) as Hk.
  destruct (reaches_all (thread_count s) target (Z.of_nat k) Ht) as (j & Hj & Ej); [unfold thread_count; lia |].
  destruct (H j Hj) as (y & Hy & Hc). rewrite Ej, Nat2Z.id in Hy. congruence.
Qed.

(** The gate and the socket let the connection through. *)
Definition passes (gate : option Z) (nonblocking_ok : bool) : bool :=
  match gate with Some rc => rc =? 0 | None => true end && nonblocking_ok.

(** The threads whose room is looked at are those of [s]. *)
Lemma find_capacity_next s v target i left : find_capacity (s_set_next s v) target i left = find_capacity s target i left.
Proof. revert i. induction left as [ | l IH]; intros i; cbn; [done |]. unfold thread_count. cbn. by rewrite IH. Qed.

(** C23. Every accepted descriptor has exactly one fate: it is closed by the acceptor, and
    nothing else changes but the turn of the threads, or exactly one event thread, which
    has room, gets it as the last message of its queue, with a wakeup, and it is counted.
    It is closed only if the application's gate refuses it, the socket cannot be made
    non-blocking, every thread is full, or the queue has no room. *)
Theorem acceptor_one_fate s fd' addr gate nb qok env :
  acc_wf s →
  let s' := ws_acceptor_turn (AcFd fd' addr gate nb qok env) s in
  acc_wf s' ∧
  ((s_closed s' = s_closed s ++ [fd'] ∧ s_threads s' = s_threads s ∧ s_connection_count s' = s_connection_count s ∧
    (passes gate nb = false ∨ qok = false ∨ Forall (λ x, at_capacity x = true) (s_threads s))) ∨
   (∃ k x, s_threads s !! k = Some x ∧ at_capacity x = false ∧ passes gate nb = true ∧
    s_threads s' = <[k := with_msg x (MNew fd' addr env)]> (s_threads s) ∧
    s_closed s' = s_closed s ∧ s_connection_count s' = s_connection_count s + 1)).
Proof.
  intros W. pose proof W as [Hn Hc]. cbn zeta.
  assert (W1 : acc_wf (s_set_next s (u32 (s_next_thread s + 1) mod thread_count s))).
  { split; [ | done]. change (thread_count (s_set_next _ _)) with (thread_count s). cbn. apply Z.mod_pos_bound. lia. }
  unfold ws_acceptor_turn, passes.
  destruct (match gate with Some rc => negb (rc =? 0) | None => false end) eqn:Eg.
  { split; [done |]. left. split_and!; try done. left. destruct gate as [rc | ]; [ | done]. by destruct (rc =? 0). }
  assert (Eg' : (match gate with Some rc => rc =? 0 | None => true end) = true) by (destruct gate as [rc | ]; [by destruct (rc =? 0) | done]).
  rewrite Eg'. destruct nb; cbn [negb andb]; [ | split; [done |]; left; split_and!; try done; by left].
  destruct (lookup_lt_is_Some_2 (s_threads s) (Z.to_nat (s_next_thread s))) as [x Hx]; [unfold thread_count in *; lia |].
  cbn [s_threads s_set_next]. rewrite Hx. rewrite find_capacity_next.
  destruct (if at_capacity x then find_capacity s (s_next_thread s) 0 (length (s_threads s)) else Some (Z.to_nat (s_next_thread s))) as [k | ] eqn:Ek.
  - assert (Hk : ∃ y, s_threads s !! k = Some y ∧ at_capacity y = false).
    { destruct (at_capacity x) eqn:Ex; [ | injection Ek as <-; by exists x].
      pose proof (find_capacity_spec s (s_next_thread s) 0 (length (s_threads s)) W Hn ltac:(lia) eq_refl) as H. by rewrite Ek in H. }
    destruct Hk as (y & Hy & Hcap). destruct qok.
    + rewrite (post_ok k _ _ y) by done. cbn. split.
      * destruct W1 as [A B]. unfold acc_wf, thread_count in *. cbn in *. rewrite length_insert. done.
      * right. by exists k, y.
    + cbn. split; [done |]. left. split_and!; try done. by right; left.
  - split; [done |]. left. split_and!; try done. right; right. destruct (at_capacity x) eqn:Ex; [ | done]. by eapply all_full.
Qed.

(** ** Round robin *)

(** The connections that go to thread [k] when thread [next] is the next in turn. *)
Fixpoint assigned (n next k : Z) (l : list accepted) : list accepted :=
  match l with
  | [] => []
  | a :: r => (if next =? k then [a] else []) ++ assigned n ((next + 1) mod n) k r
  end.

Definition clean (a : accepted) : Prop :=
  match a with AcFd _ _ gate nb qok _ => passes gate nb = true ∧ qok = true | _ => False end.
Definition new_msg (a : accepted) : list out_msg :=
  match a with AcFd fd' addr _ _ _ env => [MNew fd' addr env] | _ => [] end.

Lemma clean_turn s a x :
  acc_wf s → clean a → s_threads s !! Z.to_nat (s_next_thread s) = Some x → at_capacity x = false →
  ∃ m, new_msg a = [m] ∧
    s_threads (ws_acceptor_turn a s) = <[Z.to_nat (s_next_thread s) := with_msg x m]> (s_threads s) ∧
    s_next_thread (ws_acceptor_turn a s) = (s_next_thread s + 1) mod thread_count s.
Proof.
  intros [Hn Hc] Ha Hx Hcap. destruct a as [ | | | f ad g nb qok env]; try done. destruct Ha as [Hp ->].
  apply andb_true_iff in Hp as [Hg ->]. exists (MNew f ad env). split; [done |]. cbn -[thread_count].
  assert (Eg : (match g with Some rc => negb (rc =? 0) | None => false end) = false) by (destruct g as [rc | ]; [by rewrite Hg | done]).
  rewrite Eg. rewrite Hx, Hcap. cbn. rewrite (alter_insert _ _ _ _ Hx). split; [done |].
  unfold u32. by rewrite (Z.mod_small (s_next_thread s + 1)) by lia.
Qed.

Lemma round_robin_run l s :
  acc_wf s → Forall clean l → Forall (λ x, at_capacity x = false) (s_threads s) →
  length (s_threads (accept_run l s)) = length (s_threads s) ∧
  ∀ k x, s_threads s !! k = Some x →
    ∃ y, s_threads (accept_run l s) !! k = Some y ∧ st_thread y = st_thread x ∧
         st_queue y = st_queue x ++ concat (new_msg <$> assigned (thread_count s) (s_next_thread s) (Z.of_nat k) l).
Proof.
  revert s. induction l as [ | a l IH]; intros s W Hcl Hroom.
  - split; [done |]. intros k x Hx. exists x. by rewrite app_nil_r.
  - apply Forall_cons in Hcl as [Ha Hcl]. pose proof W as [Hn Hc].
    destruct (lookup_lt_is_Some_2 (s_threads s) (Z.to_nat (s_next_thread s))) as [x Hx]; [unfold thread_count in *; lia |].
    pose proof (proj1 (Forall_lookup _ _) Hroom _ _ Hx) as Hcap.
    destruct (clean_turn s a x W Ha Hx Hcap) as (m & Hm & Et & En).
    set (s1 := ws_acceptor_turn a s) in *.
    assert (Hlen : length (s_threads s1) = length (s_threads s)) by (rewrite Et; apply length_insert).
    assert (Etc : thread_count s1 = thread_count s) by (unfold thread_count; by rewrite Hlen).
    assert (W1 : acc_wf s1).
    { split; rewrite Etc; [rewrite En; apply Z.mod_pos_bound; lia | done]. }
    destruct (IH s1 W1 Hcl) as [IL IQ].
    { rewrite Et. by apply Forall_insert. }
    change (accept_run (a :: l) s) with (accept_run l s1). split; [congruence |]. intros k y Hy.
    cbn [assigned]. rewrite fmap_app, concat_app. destruct (decide (k = Z.to_nat (s_next_thread s))) as [-> | Hne].
    + assert (y = x) as -> by congruence. rewrite Z2Nat.id, Z.eqb_refl by lia. cbn. rewrite Hm. cbn.
      destruct (IQ (Z.to_nat (s_next_thread s)) (with_msg x m)) as (z & Hz & E1 & E2).
      { rewrite Et. apply list_lookup_insert_eq. by eapply lookup_lt_Some. }
      exists z. split_and!; [done | done |]. rewrite E2, Etc, En, Z2Nat.id by lia. cbn. by rewrite <- app_assoc.
    + rewrite (proj2 (Z.eqb_neq _ _)) by lia. cbn. destruct (IQ k y) as (z & Hz & E1 & E2).
      { rewrite Et. by rewrite list_lookup_insert_ne. }
      exists z. split_and!; [done | done |]. by rewrite E2, Etc, En.
Qed.

(** How many a thread gets. *)
Lemma assigned_length n next k l :
  0 <= next < n → 0 <= k < n →
  Z.of_nat (length (assigned n next k l)) = (Z.of_nat (length l) + n - 1 - (k - next) mod n) / n.
Proof.
  intros Hn Hk. revert next Hn. induction l as [ | a l IH]; intros next Hn.
  - cbn. pose proof (Z.mod_pos_bound (k - next) n ltac:(lia)). symmetry. apply Z.div_small. lia.
  - cbn [assigned]. rewrite length_app, Nat2Z.inj_add. pose proof (Z.mod_pos_bound (next + 1) n ltac:(lia)) as Hb.
    rewrite IH by lia. cbn [length]. rewrite Nat2Z.inj_succ.
    assert (E1 : (k - (next + 1) mod n) mod n = (k - next - 1) mod n).
    { rewrite Zminus_mod_idemp_r. f_equal. lia. }
    rewrite E1. destruct (Z.eqb_spec next k) as [-> | Hne]; cbn [length].
    + replace (k - k - 1) with (n - 1 + (-1) * n) by lia. rewrite Z.mod_add, Z.sub_diag, Z.mod_0_l, (Z.mod_small (n - 1)) by lia.
      replace (Z.succ (Z.of_nat (length l)) + n - 1 - 0) with (Z.of_nat (length l) + 1 * n) by lia. rewrite Z.div_add by lia.
      replace (Z.of_nat (length l) + n - 1 - (n - 1)) with (Z.of_nat (length l)) by lia. lia.
    + assert (E2 : (k - next - 1) mod n = (k - next) mod n - 1).
      { destruct (Z.le_gt_cases next k).
        - rewrite !Z.mod_small by lia. lia.
        - replace (k - next - 1) with (k - next - 1 + n + (-1) * n) by lia. rewrite Z.mod_add by lia.
          replace (k - next) with (k - next + n + (-1) * n) at 2 by lia. rewrite Z.mod_add by lia. rewrite !Z.mod_small by lia. lia. }
      rewrite E2. change (Z.of_nat 0) with 0. rewrite Z.add_0_l. apply (f_equal (λ z, z / n)). lia.
Qed.

(** While every thread has room the acceptor is fair: [l] clean connections are
    queued, in order, each for the thread whose turn it is, so that the numbers any two
    threads get differ by at most one. *)
Theorem acceptor_round_robin l s k1 k2 x1 x2 :
  acc_wf s → Forall clean l → Forall (λ x, at_capacity x = false) (s_threads s) →
  s_threads s !! k1 = Some x1 → s_threads s !! k2 = Some x2 →
  let share k := assigned (thread_count s) (s_next_thread s) (Z.of_nat k) l in
  (∃ y, s_threads (accept_run l s) !! k1 = Some y ∧ st_queue y = st_queue x1 ++ concat (new_msg <$> share k1)) ∧
  Z.abs (Z.of_nat (length (share k1)) - Z.of_nat (length (share k2))) <= 1.
Proof.
  intros W Hcl Hroom H1 H2 share. pose proof W as [Hn Hc]. split.
  - destruct (proj2 (round_robin_run l s W Hcl Hroom) k1 x1 H1) as (y & Hy & _ & E). by exists y.
  - subst share. cbn beta. apply lookup_lt_Some in H1, H2. set (n := thread_count s) in *.
    assert (K1 : 0 <= Z.of_nat k1 < n) by (unfold n, thread_count; lia).
    assert (K2 : 0 <= Z.of_nat k2 < n) by (unfold n, thread_count; lia).
    rewrite !assigned_length by done.
    pose proof (Z.mod_pos_bound (Z.of_nat k1 - s_next_thread s) n ltac:(lia)) as B1.
    pose proof (Z.mod_pos_bound (Z.of_nat k2 - s_next_thread s) n ltac:(lia)) as B2.
    set (d1 := (Z.of_nat k1 - s_next_thread s) mod n) in *. set (d2 := (Z.of_nat k2 - s_next_thread s) mod n) in *.
    set (m := Z.of_nat (length l)). assert (0 <= m) by (unfold m; lia). clearbody d1 d2 m n. clear -Hn B1 B2 H.
    pose proof (Z.div_mod (m + n - 1 - d1) n ltac:(lia)). pose proof (Z.mod_pos_bound (m + n - 1 - d1) n ltac:(lia)).
    pose proof (Z.div_mod (m + n - 1 - d2) n ltac:(lia)). pose proof (Z.mod_pos_bound (m + n - 1 - d2) n ltac:(lia)).
    nia.
Qed.

(** ** Calls queue one message or change nothing *)

Definition ref_ok (s : server) (ki : nat * nat) : Prop := ∀ w, conn_at s ki = Some w → 0 <= ref_count (h_conn w) < 2 ^ 32.

Lemma h_set_compose w f g : h_set (h_set w f) g = h_set w (λ c, g (f c)).
Proof. done. Qed.
Lemma h_set_id w f : f (h_conn w) = h_conn w → h_set w f = w.
Proof. unfold h_set, h_conn. destruct w as [[c y e] ? ? ? ? ? ?]. cbn. by intros ->. Qed.

Lemma unref_ref c : 0 <= ref_count c < 2 ^ 32 → (ws_connection_unref (ws_connection_ref c)).2 = c.
Proof.
  intros Hr. unfold ws_connection_unref, ws_connection_ref. cbn. destruct c; cbn in *. unfold set_ref_count. cbn. f_equal.
  unfold u32. rewrite Zminus_mod_idemp_l. rewrite Z.add_simpl_r. by apply Z.mod_small.
Qed.

(** Two changes of one slot. *)
Lemma upd_conn_twice ki f g s : upd_conn ki g (upd_conn ki f s) = upd_conn ki (λ c, g (f c)) s.
Proof.
  unfold upd_conn, s_set_threads. cbn. f_equal. rewrite list_alter_alter_eq.
  apply list_alter_ext; [ | done]. intros x _. unfold compose. cbn. unfold set_slots. cbn. do 2 f_equal.
  rewrite list_alter_alter_eq. by apply list_alter_ext.
Qed.

Lemma upd_conn_id ki f s :
  (∀ w, conn_at s ki = Some w → f (h_conn w) = h_conn w) → upd_conn ki f s = s.
Proof.
  intros Hf. unfold upd_conn, conn_at in *. destruct s as [ts nx cc tl cl]. unfold s_set_threads. cbn in *. f_equal.
  apply list_eq. intros k. destruct (decide (k = ki.1)) as [-> | Hne]; [ | by rewrite list_lookup_alter_ne].
  rewrite list_lookup_alter_eq. destruct (ts !! ki.1) as [x | ] eqn:Ex; [ | done]. cbn in *. f_equal.
  destruct x as [t q wk]. cbn in *. f_equal. destruct t. unfold set_slots. cbn in *. f_equal.
  apply list_eq. intros i. destruct (decide (i = ki.2)) as [-> | Hne]; [ | by rewrite list_lookup_alter_ne].
  rewrite list_lookup_alter_eq. destruct (_ !! ki.2) as [w | ] eqn:Ew; [ | done]. cbn. f_equal. apply h_set_id. by apply Hf.
Qed.

(** The queue and the slots are apart. *)
Lemma upd_post ki f ok k m s : upd_conn ki f (post ok k m s).2 = (post ok k m (upd_conn ki f s)).2.
Proof.
  destruct ok; [ | done]. unfold post, upd_conn, s_set_threads. cbn. f_equal.
  destruct (decide (k = ki.1)) as [-> | Hne].
  - rewrite !list_alter_alter_eq. by apply list_alter_ext.
  - by rewrite list_alter_alter_ne.
Qed.

Lemma conn_at_upd ki f s : conn_at (upd_conn ki f s) ki = (λ w, h_set w f) <$> conn_at s ki.
Proof.
  unfold conn_at, upd_conn. cbn. rewrite list_lookup_alter_eq. destruct (s_threads s !! ki.1) as [x | ]; [ | done]. cbn.
  by rewrite list_lookup_alter_eq.
Qed.

Lemma refs_cancel ki s : ref_ok s ki → drop_ref ki (take_ref ki s) = s.
Proof.
  intros Hr. unfold drop_ref, take_ref. rewrite upd_conn_twice. apply upd_conn_id. intros w Hw. by apply unref_ref, Hr.
Qed.

(** What a call amounts to when nothing runs in between: the message depends on what a
    reference leaves alone. *)
Lemma call_spec must_open ok msg fd' s :
  (∀ ki, ref_ok s ki) → (∀ ki c, msg ki (ws_connection_ref c) = msg ki c) →
  call must_open ok msg fd' s =
    match find_connection s fd' with
    | None => (WS_ERROR_NOT_FOUND, s)
    | Some ki =>
        match conn_at s ki with
        | None => (WS_ERROR_NOT_FOUND, s)
        | Some w =>
            if must_open && negb (state (h_conn w) =? WS_STATE_OPEN) then (WS_ERROR_PROTOCOL, s)
            else if ok then (WS_OK, (post true ki.1 (msg ki (h_conn w)) s).2) else (WS_ERROR_QUEUE_FULL, s)
        end
    end.
Proof.
  intros Hr Hm. unfold call, call_begin. destruct (find_connection s fd') as [ki | ]; [ | done].
  unfold call_body, take_ref. rewrite conn_at_upd. destruct (conn_at s ki) as [w | ] eqn:Ew; cbn [fmap option_fmap option_map].
  2: { f_equal. apply (refs_cancel ki s (Hr ki)). }
  change (state (h_conn (h_set w ws_connection_ref))) with (state (h_conn w)).
  change (h_conn (h_set w ws_connection_ref)) with (ws_connection_ref (h_conn w)).
  destruct (must_open && negb (state (h_conn w) =? WS_STATE_OPEN)).
  - f_equal. apply (refs_cancel ki s (Hr ki)).
  - rewrite Hm. destruct ok.
    + pose proof (upd_post ki (λ c, (ws_connection_unref c).2) true ki.1 (msg ki (h_conn w)) (upd_conn ki ws_connection_ref s)) as HP.
      change ((WS_OK, drop_ref ki (post true ki.1 (msg ki (h_conn w)) (take_ref ki s)).2) = (WS_OK, (post true ki.1 (msg ki (h_conn w)) s).2)).
      f_equal. etransitivity; [exact HP |]. change (upd_conn ki (λ c, (ws_connection_unref c).2) (upd_conn ki ws_connection_ref s))
        with (drop_ref ki (take_ref ki s)). by rewrite (refs_cancel ki s (Hr ki)).
    + cbn. f_equal. apply (refs_cancel ki s (Hr ki)).
Qed.

Lemma send_text_cases ok s fd' data len :
  (∀ ki, ref_ok s ki) →
  let '(rc, s') := ws_send_text ok s fd' data len in
  (rc = WS_OK ∧ ∃ k i x w, find_connection s fd' = Some (k, i) ∧ s_threads s !! k = Some x ∧
     t_slots (st_thread x) !! i = Some w ∧ state (h_conn w) = WS_STATE_OPEN ∧
     s' = s_set_threads s (<[k := with_msg x (MText fd' (Some i) (generation (h_conn w)) (ztake len (default [] data)))]> (s_threads s))) ∨
  (s' = s ∧
   ((rc = WS_ERROR_INVALID_ARGS ∧ (fd' < 0 ∨ data = None ∧ 0 < len)) ∨
    (rc = WS_ERROR_NOT_FOUND ∧ ∀ ki w, find_connection s fd' = Some ki → conn_at s ki ≠ Some w) ∨
    (rc = WS_ERROR_PROTOCOL ∧ ws_get_connection_state s fd' ≠ WS_STATE_OPEN) ∨
    (rc = WS_ERROR_QUEUE_FULL ∧ ok = false))).
Proof.
  intros Hr. unfold ws_send_text.
  destruct ((fd' <? 0) || (bool_decide (data = None) && (0 <? len))) eqn:Eb.
  { right. split; [done |]. left. split; [done |]. apply orb_true_iff in Eb as [E | E]; [left; lia | right].
    apply andb_true_iff in E as [E1 E2]. apply bool_decide_eq_true in E1. split; [done | lia]. }
  rewrite call_spec by done. unfold ws_get_connection_state.
  destruct (find_connection s fd') as [[k i] | ] eqn:Ef.
  2: { right. split; [done |]. right; left. split; [done |]. intros ki w [=]. }
  destruct (conn_at s (k, i)) as [w | ] eqn:Ew.
  2: { right. split; [done |]. right; left. split; [done |]. intros ki w [= <-]. congruence. }
  cbn [andb]. destruct (Z.eqb_spec (state (h_conn w)) WS_STATE_OPEN) as [Eo | Eo]; cbn [negb].
  2: { right. split; [done |]. right; right; left. split; [done | exact Eo]. }
  destruct ok; [ | right; split; [done |]; right; right; right; done].
  left. split; [done |]. unfold conn_at in Ew. cbn in Ew. destruct (s_threads s !! k) as [x | ] eqn:Ex; [ | done].
  exists k, i, x, w. split_and!; try done. by rewrite (post_ok k _ s x Ex).
Qed.

(** [ws_send_text] from any thread queues exactly one message or changes nothing: on
    success the descriptor names an open connection, and the thread that owns it gets, as
    the last of its queue and with a wakeup, the payload addressed to that slot and that
    generation of it; on an error no thread, queue or reference count has changed, and the
    code says why. *)
Theorem send_text_queues_once ok s fd' data len :
  (∀ ki, ref_ok s ki) →
  let '(rc, s') := ws_send_text ok s fd' data len in
  (rc = WS_OK ∧ ∃ k i x w, find_connection s fd' = Some (k, i) ∧ s_threads s !! k = Some x ∧
     t_slots (st_thread x) !! i = Some w ∧ state (h_conn w) = WS_STATE_OPEN ∧
     s' = s_set_threads s (<[k := with_msg x (MText fd' (Some i) (generation (h_conn w)) (ztake len (default [] data)))]> (s_threads s))) ∨
  (s' = s ∧
   ((rc = WS_ERROR_INVALID_ARGS ∧ (fd' < 0 ∨ data = None ∧ 0 < len)) ∨
    (rc = WS_ERROR_NOT_FOUND ∧ ∀ ki w, find_connection s fd' = Some ki → conn_at s ki ≠ Some w) ∨
    (rc = WS_ERROR_PROTOCOL ∧ ws_get_connection_state s fd' ≠ WS_STATE_OPEN) ∨
    (rc = WS_ERROR_QUEUE_FULL ∧ ok = false))).
Proof. intros Hr. by apply send_text_cases. Qed.

(** A thread with one message waiting. *)
Lemma process_none cb n t : ws_mpsc_process_messages cb n t [] = (O, [], t).
Proof. by destruct n. Qed.
Lemma process_one cb n t m : ws_mpsc_process_messages cb (S n) t [m] = (1%nat, [], (dispatch_message cb t m).2).
Proof. destruct m; cbn [ws_mpsc_process_messages]; rewrite ?process_none; done. Qed.
Lemma drain_one cb t m : drain_messages cb t [m] = ([], (dispatch_message cb t m).2).
Proof.
  unfold drain_messages. cbn [length drain_loop]. rewrite (process_one cb 255). cbn [Nat.ltb Nat.leb].
  by rewrite process_none.
Qed.

(** What is sent is delivered: after a successful [ws_send_text] to a connection whose
    thread had nothing queued, the thread's next drain empties the queue and hands exactly
    that payload to the connection's buffered text send; and if the slot has been given to
    another connection before the drain, the drain drops the message and the thread is
    untouched. *)
Theorem sent_text_is_delivered cb s s' fd' data len k i x w :
  (∀ ki, ref_ok s ki) →
  ws_send_text true s fd' (Some data) len = (WS_OK, s') →
  find_connection s fd' = Some (k, i) → s_threads s !! k = Some x → t_slots (st_thread x) !! i = Some w →
  st_queue x = [] →
  (∃ y, s_threads (thread_drain cb k s') !! k = Some y ∧ st_queue y = [] ∧
        st_thread y = (process_text_message (st_thread x) fd' (ztake len data)).2) ∧
  (∀ t2 w2, t_slots t2 !! i = Some w2 → generation (h_conn w2) ≠ generation (h_conn w) →
     ∀ y', s_threads s' !! k = Some y' → drain_messages cb t2 (st_queue y') = ([], t2)).
Proof.
  intros Hr HS Hf Hx Hw HQ. pose proof (send_text_cases true s fd' (Some data) len Hr) as H. rewrite HS in H.
  destruct H as [[_ (k' & i' & x' & w' & Hf' & Hx' & Hw' & Ho & ->)] | [_ [[? _] | [[? _] | [[? _] | [? _]]]]]]; [ | done..].
  assert (k' = k ∧ i' = i) as [-> ->] by (split; congruence). assert (x' = x) as -> by congruence. assert (w' = w) as -> by congruence.
  assert (Hlt : (k < length (s_threads s))%nat) by (by eapply lookup_lt_Some).
  split.
  - unfold thread_drain. cbn [s_threads s_set_threads]. rewrite list_lookup_alter_eq, list_lookup_insert_eq by done.
    cbn [fmap option_fmap option_map with_msg st_queue st_thread st_wakeups]. rewrite HQ. cbn [app].
    rewrite drain_one. eexists. split; [reflexivity |]. cbn [st_queue st_thread]. split; [done |].
    cbn [dispatch_message]. unfold same_connection. rewrite Hw, Z.eqb_refl, Ho. done.
  - intros t2 w2 Hw2 Hg y' Hy'. cbn [s_threads s_set_threads] in Hy'. rewrite list_lookup_insert_eq in Hy' by done.
    injection Hy' as <-. cbn [with_msg st_queue]. rewrite HQ. cbn [app].
    rewrite drain_one. cbn [dispatch_message]. unfold same_connection. rewrite Hw2, (proj2 (Z.eqb_neq _ _)) by done. done.
Qed.

(** ** A reference held across a close *)

Lemma close_found cb t fd' i w :
  0 <= fd' → ws_find_connection_by_fd t fd' = Some i → t_slots t !! i = Some w →
  ∃ t3, close_connection cb t fd' = release_slot t3 i (h_set w cleanup_fragmentation_state) ∧
        t_free t3 = t_free t ∧ t_slots t3 = t_slots t.
Proof.
  intros H0 Hf Hw. unfold close_connection. rewrite (proj2 (Z.ltb_ge _ _)) by lia. rewrite Hf. cbn [os_close set_epoll_set t_slots].
  destruct (unregister_fields t fd') as (E1 & E2 & E3). rewrite E1, Hw.
  destruct (ws_connection_hash_remove _ _) as [r h]. eexists. split; [reflexivity |]. destruct cb; cbn; by rewrite E1, ?E2, ?E3.
Qed.

Lemma release_last t i w :
  ref_count (h_conn w) = 1 → pool_index (h_conn w) = Z.of_nat i → (length (t_free t) < max_connections t)%nat →
  t_free (release_slot t i w) = i :: t_free t.
Proof.
  intros Hr Hp Hl. unfold release_slot, ws_connection_unref. rewrite Hr, Hp, Nat2Z.id. cbn [Z.eqb Pos.eqb].
  unfold max_connections in *. cbn [put_slot set_slots t_free t_slots]. rewrite length_insert.
  by rewrite (proj2 (Nat.ltb_lt _ _)) by exact Hl.
Qed.

Lemma release_held t i w :
  ref_count (h_conn w) ≠ 1 →
  release_slot t i w = put_slot t i (h_set w (λ c, ws_connection_set_state (ws_connection_unref c).2 WS_STATE_CLOSED)).
Proof. intros Hr. unfold release_slot, ws_connection_unref. by rewrite (proj2 (Z.eqb_neq _ _)). Qed.

Definition on_thread (k : nat) (f : ethread → ethread) (s : server) : server :=
  s_set_threads s (alter (λ x, mk_st (f (st_thread x)) (st_queue x) (st_wakeups x)) k (s_threads s)).

Lemma on_thread_lookup k f s x :
  s_threads s !! k = Some x → s_threads (on_thread k f s) !! k = Some (mk_st (f (st_thread x)) (st_queue x) (st_wakeups x)).
Proof. intros Hx. cbn. by rewrite list_lookup_alter_eq, Hx. Qed.

(** A reference held by another thread while a connection is closed costs the server
    its slot: without the reference the close returns the slot to the free stack; with it
    the close leaves the slot to the holder, whose release ignores that it was the last,
    so the free stack is as it was, the count is 0 and nothing names the slot any more. *)
Theorem call_during_close_loses_slot cb s fd' k i x w :
  s_threads s !! k = Some x → 0 <= fd' →
  (let t := st_thread x in ws_find_connection_by_fd t fd' = Some i ∧ t_slots t !! i = Some w ∧
     (length (t_free t) < max_connections t)%nat ∧ find_slot (t_slots t) fd' = Some i) →
  pool_index (h_conn w) = Z.of_nat i → ref_count (h_conn w) = 1 →
  let close s := on_thread k (λ t, close_connection cb t fd') s in
  (∃ y, s_threads (close s) !! k = Some y ∧ t_free (st_thread y) = i :: t_free (st_thread x)) ∧
  (∃ y v, s_threads (drop_ref (k, i) (close (take_ref (k, i) s))) !! k = Some y ∧
     t_free (st_thread y) = t_free (st_thread x) ∧
     t_slots (st_thread y) !! i = Some v ∧ ref_count (h_conn v) = 0 ∧ state (h_conn v) = WS_STATE_CLOSED).
Proof.
  intros Hx H0 (Hf & Hw & Hfull & Hs) Hp Hr close. subst close. cbn beta. split.
  - destruct (close_found cb (st_thread x) fd' i w H0 Hf Hw) as (t3 & E & Efr & Esl).
    eexists. split; [by apply on_thread_lookup |]. cbn [st_thread]. rewrite E, <- Efr. apply release_last; [exact Hr | exact Hp |].
    unfold max_connections in *. by rewrite Efr, Esl.
  - set (t' := set_slots (st_thread x) (alter (λ w, h_set w ws_connection_ref) i (t_slots (st_thread x)))).
    set (w' := h_set w ws_connection_ref).
    assert (Hw' : t_slots t' !! i = Some w') by (cbn; by rewrite list_lookup_alter_eq, Hw).
    assert (Hf' : ws_find_connection_by_fd t' fd' = Some i).
    { unfold ws_find_connection_by_fd in *. cbn. destruct ((0 <=? fd') && (fd' <? t_fd_map_size (st_thread x))); [done |].
      clear -Hs. revert i Hs. induction (t_slots (st_thread x)) as [ | v l IH]; intros i; [done |]. cbn.
      destruct (fd (h_conn v) =? u32 fd') eqn:Ev.
      - intros [= <-]. cbn. change (fd (h_conn (h_set v ws_connection_ref))) with (fd (h_conn v)). by rewrite Ev.
      - destruct (find_slot l fd') as [j | ] eqn:Ej; [ | done]. intros [= <-]. cbn. rewrite Ev. by rewrite (IH j). }
    destruct (close_found cb t' fd' i w' H0 Hf' Hw') as (t3 & E & Efr & Esl).
    assert (Ht : s_threads (take_ref (k, i) s) !! k = Some (mk_st t' (st_queue x) (st_wakeups x))).
    { unfold take_ref, upd_conn. cbn. by rewrite list_lookup_alter_eq, Hx. }
    unfold drop_ref at 1, upd_conn at 1. cbn [s_threads s_set_threads fst snd].
    rewrite list_lookup_alter_eq, (on_thread_lookup _ _ _ _ Ht). cbn [fmap option_fmap option_map st_thread st_queue st_wakeups]. rewrite E.
    assert (Hr' : ref_count (h_conn (h_set w' cleanup_fragmentation_state)) = 2).
    { change (u32 (ref_count (h_conn w) + 1) = 2). by rewrite Hr. }
    rewrite release_held by (rewrite Hr'; done). eexists _, _. split; [reflexivity |]. cbn [put_slot st_thread set_slots t_free t_slots].
    rewrite list_lookup_alter_eq, list_lookup_insert_eq by (rewrite Esl; by eapply lookup_lt_Some).
    split_and!; [by rewrite Efr | reflexivity | | reflexivity].
    change (u32 (u32 (ref_count (h_conn (h_set w' cleanup_fragmentation_state)) - 1) - 1) = 0). by rewrite Hr'.
Qed.

(** ** Witnesses *)

(** Two threads; the first has one open connection, descriptor 5 in slot 0. *)
Definition demo_open : ethread :=
  let t := (dispatch_message true demo_thread (MNew 5 0 demo_accept)).2 in
  set_slots t (alter (λ w, h_set w (λ c, ws_connection_set_state c WS_STATE_OPEN)) 0%nat (t_slots t)).
Definition demo_server : server :=
  mk_server [mk_st demo_open [] 0; mk_st (ws_init_event_thread demo_sys 1 2 1024) [] 0] 1 0 [0; 0] [].
Definition demo_slot : hw := default (init_slot demo_sys 0 0) (t_slots demo_open !! 0%nat).

Lemma demo_server_wf : acc_wf demo_server.
Proof. vm_compute. split; [split; congruence | reflexivity]. Qed.

(** The reference counts of a server, thread by thread. *)
Definition ref_counts (s : server) : list (list Z) := (λ x, (λ w, ref_count (h_conn w)) <$> t_slots (st_thread x)) <$> s_threads s.
Lemma ref_counts_ok s ki : Forall (Forall (λ r, 0 <= r < 2 ^ 32)) (ref_counts s) → ref_ok s ki.
Proof.
  intros HF w Hw. unfold conn_at in Hw. apply bind_Some in Hw as (x & Hx & Hw).
  unfold ref_counts in HF. rewrite Forall_fmap, Forall_lookup in HF. specialize (HF _ _ Hx). cbn in HF.
  rewrite Forall_fmap, Forall_lookup in HF. exact (HF _ _ Hw).
Qed.

Lemma demo_refs ki : ref_ok demo_server ki.
Proof.
  apply ref_counts_ok. assert (E : ref_counts demo_server = [[1; 0]; [0; 0]]) by (vm_compute; reflexivity). rewrite E.
  repeat constructor; lia.
Qed.

Lemma acceptor_one_fate_witness :
  acc_wf (ws_acceptor_turn (AcFd 7 0 (Some 0) true true demo_accept) demo_server).
Proof. exact (proj1 (acceptor_one_fate demo_server 7 0 (Some 0) true true demo_accept demo_server_wf)). Defined.

Lemma acceptor_round_robin_witness :
  let l := [AcFd 7 0 None true true demo_accept; AcFd 8 0 (Some 0) true true demo_accept; AcFd 9 0 None true true demo_accept] in
  (new_msg <$> assigned 2 1 1 l) = [[MNew 7 0 demo_accept]; [MNew 9 0 demo_accept]] ∧
  Z.abs (Z.of_nat (length (assigned 2 1 0 l)) - Z.of_nat (length (assigned 2 1 1 l))) <= 1.
Proof.
  split; [reflexivity |].
  refine (proj2 (acceptor_round_robin _ demo_server 0 1 (mk_st demo_open [] 0) (mk_st (ws_init_event_thread demo_sys 1 2 1024) [] 0)
    demo_server_wf _ _ _ _)).
  - repeat constructor.
  - constructor; [vm_compute; reflexivity |]. constructor; [vm_compute; reflexivity | constructor].
  - reflexivity.
  - reflexivity.
Defined.

Lemma send_text_queues_once_witness :
  let '(rc, s') := ws_send_text true demo_server 5 (Some (bs "hello")) 5 in
  (rc = WS_OK ∧ ∃ k i x w, find_connection demo_server 5 = Some (k, i) ∧ s_threads demo_server !! k = Some x ∧
     t_slots (st_thread x) !! i = Some w ∧ state (h_conn w) = WS_STATE_OPEN ∧
     s' = s_set_threads demo_server (<[k := with_msg x (MText 5 (Some i) (generation (h_conn w)) (ztake 5 (default [] (Some (bs "hello")))))]> (s_threads demo_server))) ∨
  (s' = demo_server ∧
   ((rc = WS_ERROR_INVALID_ARGS ∧ (5 < 0 ∨ Some (bs "hello") = None ∧ 0 < 5)) ∨
    (rc = WS_ERROR_NOT_FOUND ∧ ∀ ki w, find_connection demo_server 5 = Some ki → conn_at demo_server ki ≠ Some w) ∨
    (rc = WS_ERROR_PROTOCOL ∧ ws_get_connection_state demo_server 5 ≠ WS_STATE_OPEN) ∨
    (rc = WS_ERROR_QUEUE_FULL ∧ true = false))).
Proof. exact (send_text_queues_once true demo_server 5 (Some (bs "hello")) 5 demo_refs). Defined.

Definition demo_sent : server := (ws_send_text true demo_server 5 (Some (bs "hello")) 5).2.

Lemma sent_text_is_delivered_witness :
  ∃ y, s_threads (thread_drain true 0 demo_sent) !! 0%nat = Some y ∧ st_queue y = [] ∧
       st_thread y = (process_text_message demo_open 5 (ztake 5 (bs "hello"))).2.
Proof.
  refine (proj1 (sent_text_is_delivered true demo_server demo_sent 5 (bs "hello") 5 0 0 (mk_st demo_open [] 0) demo_slot demo_refs _ _ _ _ _)).
  - vm_compute; reflexivity.
  - vm_compute; reflexivity.
  - reflexivity.
  - vm_compute; reflexivity.
  - reflexivity.
Defined.

Lemma call_during_close_loses_slot_witness :
  ∃ y v, s_threads (drop_ref (0, 0)%nat (on_thread 0 (λ t, close_connection true t 5) (take_ref (0, 0)%nat demo_server))) !! 0%nat = Some y ∧
     t_free (st_thread y) = t_free demo_open ∧
     t_slots (st_thread y) !! 0%nat = Some v ∧ ref_count (h_conn v) = 0 ∧ state (h_conn v) = WS_STATE_CLOSED.
Proof.
  refine (proj2 (call_during_close_loses_slot true demo_server 5 0 0 (mk_st demo_open [] 0) demo_slot _ _ _ _ _)).
  - reflexivity.
  - lia.
  - split_and!; vm_compute; reflexivity.
  - vm_compute; reflexivity.
  - vm_compute; reflexivity.
Defined.

(** A control message without data but with a length sends what the heap held. *)
Example ping_sends_heap (heap : list Z) :
  fst (ws_send_ping true heap demo_server 5 None 4) = WS_OK ∧
  (st_queue <$> s_threads (ws_send_ping true heap demo_server 5 None 4).2 !! 0%nat) = Some [MPing 5 (ztake 4 heap)].
Proof. split; vm_compute; reflexivity. Qed.

(** The default configuration asks for auto-detection, which creation refuses. *)
Example default_threads : wc_thread_count ws_get_default_config = 0.
Proof. reflexivity. Qed.
