(* ===== verification/Echo.v ===== *)
(** * The echo servers (src/examples/echo_server.c, autobahn_server.c, stress_server.c)

    An application sees messages and calls back into the server; here the two directions
    are put together.  A read event of an open connection reads the socket, reassembles
    messages and calls the application ([WsHandler], [Thread]); the application sends
    through the public interface ([Server]); the message waits in the thread's queue until
    the thread drains it into the connection's outbound stream ([Thread], [OutBuf]).

    A callback runs in the middle of the read.  It looks at nothing the read changes while
    messages are delivered: the handler stops as soon as the connection leaves the open
    state, so the calls are made here against the server as it was before the read. *)
From Stdlib Require Import ZArith Lia.
From stdpp Require Import base numbers list strings gmap.
From S2P Require Import Prelude Cstr Frame Sys OutBuf Conn ConnHash WsHandler HttpRequest HttpResponse Handshake HttpConn Ident Thread ThreadInv ThreadSpec Server.
Open Scope Z_scope.

(** ** Applications *)

(** What the application does on a callback for descriptor [fd']; the first argument is
    whether a queue node and memory are available to the call it makes. *)
Definition app := bool → server → Z → event → server.

(** [on_binary] of echo_server.c. *)
Definition echo_server : app := λ ok s fd' e,
  match e with
  | EvBinary data =>
      if (zlen data =? 12) && bool_decide (data = bs "__srvclose__")
      then (ws_close_connection ok s fd' WS_CLOSE_NORMAL (bs "bye")).2
      else (ws_send_binary ok s fd' (Some data) (zlen data)).2
  | _ => s
  end.

(** [on_binary] and [on_text] of autobahn_server.c. *)
Definition autobahn_server : app := λ ok s fd' e,
  match e with
  | EvBinary data => (ws_send_binary ok s fd' (Some data) (zlen data)).2
  | EvText data => (ws_send_text ok s fd' (Some data) (zlen data)).2
  | _ => s
  end.

(** [on_binary] and [on_text] of stress_server.c. *)
Definition stress_server : app := λ ok s fd' e,
  match e with
  | EvBinary data => (ws_send_binary ok s fd' (Some data) (zlen data)).2
  | EvText data => (ws_send_text ok s fd' (Some data) (zlen data)).2
  | _ => s
  end.

(** The callbacks of one read; [oks] is used up call by call and then all is well. *)
Fixpoint deliver (a : app) (oks : list bool) (s : server) (fd' : Z) (evs : list event) : server :=
  match evs with
  | [] => s
  | e :: r => deliver a (tail oks) (a (default true (head oks)) s fd' e) fd' r
  end.

(** The callbacks of a read: what the slot's log has gained. *)
Definition new_events (t t' : ethread) (fd' : Z) : list event :=
  match i ← ws_find_connection_by_fd t fd'; w ← t_slots t !! i; w' ← t_slots t' !! i; Some (w, w') with
  | Some (w, w') => drop (length (w_ev (h_w w))) (w_ev (h_w w'))
  | None => []
  end.

Definition put_thread (k : nat) (t : ethread) (s : server) : server :=
  s_set_threads s (alter (λ x, mk_st t (st_queue x) (st_wakeups x)) k (s_threads s)).

Section Turns.
Context (E : http_env) (cpu0 : cpu) (on_disconnect on_close_cb : bool).

(** A read event of thread [k] for [fd'], with its callbacks. *)
Definition read_turn (a : app) (oks : list bool) (st : tls_step) (k : nat) (fd' : Z) (s : server) : Z * server :=
  match s_threads s !! k with
  | None => (-1, s)
  | Some x =>
      let '(rc, t) := handle_connection_read E cpu0 st (st_thread x) fd' in
      let s1 := deliver a oks s fd' (new_events (st_thread x) t fd') in
      (rc, put_thread k (if rc <? 0 then close_connection on_disconnect t fd' else t) s1)
  end.

(** ** What an echoing application does *)

(** The frame that echoes an event. *)
Definition echo_of (e : event) : option (Z * list Z) :=
  match e with EvText m => Some (WS_OPCODE_TEXT, m) | EvBinary m => Some (WS_OPCODE_BINARY, m) | _ => None end.

Definition out_data (op : Z) (fd' : Z) (i : nat) (gen : Z) (m : list Z) : out_msg :=
  if op =? WS_OPCODE_TEXT then MText fd' (Some i) gen m else MBinary fd' (Some i) gen m.

Definition send_data (op : Z) (s : server) (fd' : Z) (m : list Z) : server :=
  if op =? WS_OPCODE_TEXT then (ws_send_text true s fd' (Some m) (zlen m)).2 else (ws_send_binary true s fd' (Some m) (zlen m)).2.

(** An application echoes the events [P]: it sends what [f] says, and nothing else. *)
Class Echoing (a : app) (P : event → Prop) (f : event → option (Z * list Z)) : Prop :=
  echoing s fd' e : P e → a true s fd' e = match f e with Some (op, m) => send_data op s fd' m | None => s end.

#[export] Instance autobahn_echoing : Echoing autobahn_server (λ _, True) echo_of.
Proof. intros s fd' e _. by destruct e. Qed.

#[export] Instance stress_echoing : Echoing stress_server (λ _, True) echo_of.
Proof. exact autobahn_echoing. Qed.

#[export] Instance echo_echoing :
  Echoing echo_server (λ e, e ≠ EvBinary (bs "__srvclose__"))
    (λ e, match e with EvBinary m => Some (WS_OPCODE_BINARY, m) | _ => None end).
Proof.
  intros s fd' e He. destruct e as [ | | m | | | | ]; try done. unfold echo_server.
  rewrite bool_decide_eq_false_2 by (by intros ->). by rewrite andb_false_r.
Qed.

(** ** Queueing *)

(** Messages [ms] are appended to the queue of thread [k]. *)
Definition queued (k : nat) (ms : list out_msg) (s : server) : server :=
  s_set_threads s (alter (λ x, mk_st (st_thread x) (st_queue x ++ ms) (st_wakeups x + zlen ms)) k (s_threads s)).

Lemma queued_nil k s : queued k [] s = s.
Proof.
  unfold queued, s_set_threads. destruct s as [l a b c d]. cbn. f_equal. apply list_eq. intros j.
  destruct (decide (j = k)) as [-> | Hj]; [ | by rewrite list_lookup_alter_ne]. rewrite list_lookup_alter_eq.
  destruct (l !! k) as [[t q wk] | ]; [ | done]. cbn. change (zlen (@nil out_msg)) with 0. by rewrite app_nil_r, Z.add_0_r.
Qed.

Lemma queued_app k ms ms' s : queued k ms' (queued k ms s) = queued k (ms ++ ms') s.
Proof.
  unfold queued, s_set_threads. cbn. f_equal. rewrite list_alter_alter_eq. apply list_alter_ext; [ | done].
  intros x _. unfold compose. cbn. by rewrite zlen_app, app_assoc, Z.add_assoc.
Qed.

Lemma queued_threads k ms s :
  st_thread <$> s_threads (queued k ms s) = st_thread <$> s_threads s.
Proof.
  apply list_eq. intros j. cbn. rewrite !list_lookup_fmap. destruct (decide (j = k)) as [-> | Hj].
  - rewrite list_lookup_alter_eq. by destruct (s_threads s !! k).
  - by rewrite list_lookup_alter_ne.
Qed.

(** The threads alone say who owns a descriptor and what a slot holds. *)
Lemma find_owner_threads l l' fd' : st_thread <$> l = st_thread <$> l' → find_owner l fd' = find_owner l' fd'.
Proof.
  revert l'. induction l as [ | x l IH]; intros [ | y l'] H; try done. injection H as Ex H. cbn. rewrite Ex.
  destruct (ws_connection_hash_find _ _); [done |]. by rewrite (IH l').
Qed.

Lemma conn_at_threads s s' ki : st_thread <$> s_threads s = st_thread <$> s_threads s' → conn_at s ki = conn_at s' ki.
Proof.
  intros H. unfold conn_at. assert (Hk : (st_thread <$> s_threads s) !! ki.1 = (st_thread <$> s_threads s') !! ki.1) by (by rewrite H).
  rewrite !list_lookup_fmap in Hk. destruct (s_threads s !! ki.1), (s_threads s' !! ki.1); cbn in *; congruence.
Qed.

Lemma queued_conn k ms s fd' ki :
  find_connection (queued k ms s) fd' = find_connection s fd' ∧ conn_at (queued k ms s) ki = conn_at s ki.
Proof.
  pose proof (queued_threads k ms s). split; [ | by apply conn_at_threads].
  unfold find_connection. destruct (fd' <? 0); [done | by apply find_owner_threads].
Qed.

(** A call on an open connection queues its message. *)
Lemma send_data_queues op s fd' m k i w :
  (∀ ki, ref_ok s ki) → find_connection s fd' = Some (k, i) → conn_at s (k, i) = Some w →
  state (h_conn w) = WS_STATE_OPEN →
  send_data op s fd' m = queued k [out_data op fd' i (generation (h_conn w)) m] s.
Proof.
  intros Hr Hf Hw Ho. assert (H0 : (fd' <? 0) = false) by (unfold find_connection in Hf; by destruct (fd' <? 0)).
  unfold send_data, out_data, ws_send_text, ws_send_binary. rewrite H0, bool_decide_eq_false_2 by done. cbn [orb andb].
  rewrite !call_spec by done. rewrite Hf, Hw, Ho. cbn [andb negb Z.eqb Pos.eqb WS_STATE_OPEN].
  destruct (op =? WS_OPCODE_TEXT); cbn -[WS_STATE_OPEN ztake zlen]; unfold ws_mpsc_send_text_message, ws_mpsc_send_binary_message, queued;
    cbn [default]; change (id m) with m; by rewrite (ztake_ge (zlen m) m) by lia.
Qed.

Lemma deliver_queues a P f `{!Echoing a P f} evs s fd' k i w :
  (∀ ki, ref_ok s ki) → find_connection s fd' = Some (k, i) → conn_at s (k, i) = Some w →
  state (h_conn w) = WS_STATE_OPEN → Forall P evs →
  deliver a [] s fd' evs = queued k ((λ x, out_data x.1 fd' i (generation (h_conn w)) x.2) <$> omap f evs) s.
Proof.
  intros Hr Hf Hw Ho HP. revert s Hr Hf Hw. induction HP as [ | e evs He HP IH]; intros s Hr Hf Hw; [cbn; by rewrite queued_nil |].
  cbn [deliver head tail default]. rewrite (echoing s fd' e He). cbn [omap list_omap].
  destruct (f e) as [[op m] | ]; [ | by apply IH].
  rewrite (send_data_queues op s fd' m k i w) by done. set (ms := [out_data _ _ _ _ _]).
  destruct (queued_conn k ms s fd' (k, i)) as [Q1 Q2]. rewrite IH; [by rewrite queued_app | | by rewrite Q1 | by rewrite Q2].
  intros ki v Hv. destruct (queued_conn k ms s fd' ki) as [_ Q3]. rewrite Q3 in Hv. by apply (Hr ki).
Qed.

(** ** Reading *)

(** A message within the limit. *)
Definition small (max : Z) (e : event) : Prop := match e with EvText m | EvBinary m => zlen m <= max | _ => True end.

(** While frames are processed without closing, the connection changes in its
    reassembly state only, and what is logged is logged behind and within the limit. *)
Record grows (max : Z) (w w' : cw) : Prop := mk_grows {
  g_conn : w_conn w' = set_parser (w_conn w) (parser (w_conn w'));
  g_epoll : epollout (w_sys w') = epollout (w_sys w);
  g_ev : ∃ l, w_ev w' = w_ev w ++ l ∧ Forall (small max) l
}.

Lemma grows_sys max w y : epollout y = epollout (w_sys w) → grows max w (with_sys w y).
Proof. intros Hy. constructor; cbn; [by destruct (w_conn w) | done | exists []; by rewrite app_nil_r]. Qed.

Lemma grows_refl max w : grows max w w.
Proof. constructor; [by destruct (w_conn w) | done | exists []; by rewrite app_nil_r]. Qed.

Lemma grows_trans max w1 w2 w3 : grows max w1 w2 → grows max w2 w3 → grows max w1 w3.
Proof.
  intros [C1 P1 (l1 & V1 & F1)] [C2 P2 (l2 & V2 & F2)]. constructor; [by rewrite C2, C1 | congruence |].
  exists (l1 ++ l2). rewrite V2, V1, app_assoc. split; [done | by apply Forall_app].
Qed.

Lemma alloc_shape w : ∃ y, (alloc w).2 = with_sys w y ∧ epollout y = epollout (w_sys w).
Proof. unfold alloc, sys_alloc. destruct (mem (w_sys w)); by eexists. Qed.

Lemma grows_mk max w p y e :
  epollout y = epollout (w_sys w) → small max e → grows max w (mk_cw (set_parser (w_conn w) p) y (w_ev w ++ [e])).
Proof. intros Hy He. constructor; [done | done | exists [e]; split; [done | by constructor]]. Qed.

Lemma grows_mk_nil max w p y : epollout y = epollout (w_sys w) → grows max w (mk_cw (set_parser (w_conn w) p) y (w_ev w)).
Proof. intros Hy. constructor; [done | done | exists []; by rewrite app_nil_r]. Qed.

Lemma grows_log max w y e : epollout y = epollout (w_sys w) → small max e → grows max w (mk_cw (w_conn w) y (w_ev w ++ [e])).
Proof. intros Hy He. constructor; cbn; [by destruct (w_conn w) | done | exists [e]; split; [done | by constructor]]. Qed.

Lemma grows_send max op w data : grows max w (send_whole_frame op w data).2.
Proof.
  unfold send_whole_frame. destruct (alloc_shape w) as (y & Ey & Hy). destruct (alloc w) as [ok w1]. cbn [snd] in Ey. subst w1.
  destruct (ws_encode_frame ok op data) as [fr | ]; [ | by apply grows_sys].
  destruct (ws_conn_socket_write _ fr) as [r s2] eqn:ES. apply sys_send_inv in ES as (_ & He & _). cbn [snd].
  exact (grows_sys max w s2 (eq_trans He Hy)).
Qed.

Lemma fail_connection_closes w code rc w' : ws_fail_connection w code = (rc, w') → ¬ 0 <= rc.
Proof. unfold ws_fail_connection. destruct (ws_send_close_frame _ code []). intros Hr. inversion Hr. unfold WS_FRAME_CLOSE_REQUESTED. lia. Qed.

(** Frames that are processed without closing. *)
Lemma fragmented_grows cfg w f rc w' :
  frame_ok (max_message_size cfg) f → process_fragmented_frame cfg w f = (rc, w') → 0 <= rc → grows (max_message_size cfg) w w'.
Proof.
  intros (Hl & Hm & _). rewrite <- Hl in Hm.
  unfold process_fragmented_frame. destruct (alloc_shape w) as (y & Ey & Hy). destruct (alloc w) as [ok w1]. cbn [snd] in Ey. subst w1.
  repeat split_if; intros Hr H0; try (by apply fail_connection_closes in Hr); inversion Hr; subst;
    first [lia | apply grows_refl | exact (grows_mk_nil _ w _ y Hy) | exact (grows_log _ w y (EvText _) Hy Hm) | exact (grows_log _ w _ (EvBinary _) eq_refl Hm)].
Qed.

Lemma continuation_grows cfg w f rc w' :
  parser_ok (max_message_size cfg) (parser (w_conn w)) → frame_ok (max_message_size cfg) f → max_message_size cfg < 2 ^ 64 →
  process_continuation_frame cfg w f = (rc, w') → 0 <= rc → grows (max_message_size cfg) w w'.
Proof.
  intros Hp (Hl & _ & _) Hmax. unfold process_continuation_frame. destruct (in_fragmented_message _) eqn:EF; cbn [negb]; [ | intros Hr; inversion Hr; lia].
  unfold parser_ok in Hp. rewrite EF in Hp. destruct Hp as (d & Hd & Hdl & Ht & _). rewrite Hd. cbn [default]. change (id d) with d.
  pose proof (zlen_nonneg d). rewrite u64_small by lia. split_if; [by intros ?%fail_connection_closes |]. zbool.
  assert (Hm : zlen (d ++ payload f) <= max_message_size cfg) by (rewrite zlen_app; lia).
  destruct (if fragment_buffer_size _ <? _ then _ else _) as [[ok size'] w1] eqn:EG.
  assert (H1 : ∃ y, w1 = with_sys w y ∧ epollout y = epollout (w_sys w)).
  { destruct (alloc_shape w) as (y & Ey & Hy). revert EG. split_if; [destruct (alloc w) |]; intros Hr; inversion Hr; subst.
    - by exists y.
    - exists (w_sys w1). by destruct w1. }
  clear EG. destruct H1 as (y & -> & Hy). destruct (negb ok); [intros Hr; inversion Hr; lia |].
  destruct (fin f =? 0); [intros Hr _; inversion Hr; subst; exact (grows_mk_nil _ w _ y Hy) |].
  destruct (_ && _); [by intros ?%fail_connection_closes |].
  match goal with |- context [alloc ?a] => destruct (alloc_shape a) as (y3 & E3 & Hy3); destruct (alloc a) as [ok3 w3] end.
  cbn [snd] in E3. subst w3. pose proof (eq_trans Hy3 Hy) as Hy4. repeat split_if; intros Hr _; inversion Hr; subst;
    first [exact (grows_mk _ w _ y3 (EvText _) Hy4 Hm) | exact (grows_mk_nil _ w _ y3 Hy4) | exact (grows_mk _ w _ y (EvBinary _) Hy Hm) | exact (grows_mk_nil _ w _ y Hy)].
Qed.

Lemma process_frame_grows cfg w f rc w' :
  parser_ok (max_message_size cfg) (parser (w_conn w)) → frame_ok (max_message_size cfg) f → max_message_size cfg < 2 ^ 64 →
  process_websocket_frame cfg w f = (rc, w') → 0 <= rc → grows (max_message_size cfg) w w'.
Proof.
  intros Hp Hf Hmax. unfold process_websocket_frame. split_if; [by intros ?%fail_connection_closes |]. split_if; [by apply fragmented_grows |].
  split_if.
  { unfold ws_send_pong_frame. pose proof (grows_send (max_message_size cfg) WS_OPCODE_PONG w (payload f)) as HG. destruct (send_whole_frame _ _ _) as [r v].
    split_if; intros Hr H0; inversion Hr; subst; [lia | done]. }
  split_if; [split_if; intros Hr _; inversion Hr; subst; [exact (grows_log _ w _ (EvPong _) eq_refl I) | apply grows_refl] |].
  split_if.
  { unfold process_close_frame. repeat (split_if; try (by intros ?%fail_connection_closes)).
    all: destruct (ws_send_close_frame _ _ _); intros Hr; inversion Hr; unfold WS_FRAME_CLOSE_REQUESTED; lia. }
  split_if; [by apply continuation_grows | intros Hr; inversion Hr; lia].
Qed.

Lemma process_all_grows cfg fs w wf :
  parser_ok (max_message_size cfg) (parser (w_conn w)) → max_message_size cfg < 2 ^ 64 → Forall (cf_ok (max_message_size cfg)) fs →
  process_all cfg w fs = (0, wf) → grows (max_message_size cfg) w wf.
Proof.
  intros Hp Hmax Hfs. revert w Hp. induction Hfs as [ | f fs Hf Hfs IH]; intros w Hp; cbn [process_all].
  - intros Hr. inversion Hr. apply grows_refl.
  - destruct Hf as (_ & _ & _ & Hb & Hl). assert (HF : frame_ok (max_message_size cfg) (parsed f)) by (by split_and!).
    destruct (process_websocket_frame cfg w (parsed f)) as [rc w1] eqn:EP. split_if; zbool; [intros Hr; inversion Hr; lia |].
    intros Hr. apply (grows_trans _ w w1); [by eapply process_frame_grows |]. apply IH; [ | done].
    by apply process_frame_inv in EP as (? & _).
Qed.

Lemma process_all_mem cfg fs w wf : process_all cfg w fs = (0, wf) → mem_ok w wf.
Proof.
  revert w. induction fs as [ | f fs IH]; intros w; cbn [process_all]; [intros Hr Hm; by inversion Hr; subst |].
  pose proof (process_frame_mem cfg w (parsed f)) as HM. destruct (process_websocket_frame cfg w (parsed f)) as [rc w1].
  split_if; zbool; [intros Hr; inversion Hr; lia |]. intros Hr H0. by apply (IH w1 Hr), HM.
Qed.

(** ** Draining *)

Lemma conn_send_mem q s buf rc q' s' : portico_conn_send q s buf = (rc, q', s') → mem s = [] → mem s' = [].
Proof. intros H. by apply conn_send_inert in H as [_ ?]. Qed.

(** A slot whose descriptor is kept is found as before. *)
Lemma find_put t i w w' f :
  t_slots t !! i = Some w → fd (h_conn w') = fd (h_conn w) → ws_find_connection_by_fd (put_slot t i w') f = ws_find_connection_by_fd t f.
Proof.
  intros Hw Hf. unfold ws_find_connection_by_fd, put_slot. cbn. destruct (_ && _); [done |].
  revert i Hw. generalize (t_slots t) as l. induction l as [ | v l IH]; intros [ | i] Hw; try done; cbn.
  - injection Hw as ->. by rewrite Hf.
  - rewrite IH by done. done.
Qed.

(** The stream the peer of a slot sees. *)
Definition slot_stream (w : hw) : list Z := stream (out (h_conn w)) (h_sys w).

(** The frame of a message. *)
Definition data_frame (x : Z * list Z) : list Z := rfc_header 0 1 (x.1 mod 16) (zlen x.2) ++ x.2.

(** One message is taken from the queue for the connection it was sent to: the whole frame
    is in the stream, or a part of it and the connection is given up. *)
Lemma dispatch_data cb t fd' i w op m :
  0 <= fd' → ws_find_connection_by_fd t fd' = Some i → t_slots t !! i = Some w →
  (op = WS_OPCODE_TEXT ∨ op = WS_OPCODE_BINARY) → zlen m < 2 ^ 64 →
  state (h_conn w) = WS_STATE_OPEN → mem (h_sys w) = [] → out_ok (out (h_conn w)) (h_sys w) →
  let t' := (dispatch_message cb t (out_data op fd' i (generation (h_conn w)) m)).2 in
  ∃ w', t_slots t' !! i = Some w' ∧ ws_find_connection_by_fd t' fd' = Some i ∧ generation (h_conn w') = generation (h_conn w) ∧
    ((state (h_conn w') = WS_STATE_OPEN ∧ slot_stream w' = slot_stream w ++ data_frame (op, m) ∧
      mem (h_sys w') = [] ∧ out_ok (out (h_conn w')) (h_sys w')) ∨
     (state (h_conn w') = WS_STATE_CLOSING ∧ ∃ n, slot_stream w' = slot_stream w ++ take n (data_frame (op, m)))).
Proof.
  intros H0 Hf Hw Hop Hl Ho Hm Hok.
  assert (HD : (dispatch_message cb t (out_data op fd' i (generation (h_conn w)) m)).2 = (ws_buffered_data_send t fd' op m).2).
  { unfold out_data. destruct Hop as [-> | ->]; cbn [Z.eqb Pos.eqb WS_OPCODE_TEXT WS_OPCODE_BINARY dispatch_message];
      unfold same_connection; rewrite Hw, Ho, Z.eqb_refl; cbn [andb Z.eqb Pos.eqb WS_STATE_OPEN];
      unfold process_text_message, process_binary_message; rewrite (proj2 (Z.ltb_ge fd' 0)) by lia; by destruct (ws_buffered_data_send _ _ _ _). }
  cbn zeta. rewrite HD. unfold ws_buffered_data_send. rewrite Hf, Hw, Ho. cbn [Z.eqb Pos.eqb WS_STATE_OPEN negb].
  unfold h_alloc, alloc, sys_alloc. change (w_sys (h_w w)) with (h_sys w). rewrite Hm.
  unfold ws_encode_frame. rewrite encode_header_rfc by (pose proof (zlen_nonneg m); lia).
  change (rfc_header 0 1 (op mod 16) (zlen m) ++ m) with (data_frame (op, m)).
  unfold h_send. change (w_sys (with_sys (h_w w) (h_sys w))) with (h_sys w).
  change (h_conn (with_w w (with_sys (h_w w) (h_sys w)))) with (h_conn w).
  change (h_sys (with_w w (with_sys (h_w w) (h_sys w)))) with (h_sys w).
  change (w_ev (h_w (with_w w (with_sys (h_w w) (h_sys w))))) with (w_ev (h_w w)).
  destruct (portico_conn_send (out (h_conn w)) (h_sys w) (data_frame (op, m))) as [[rc q] y] eqn:ES.
  pose proof (conn_send_mem _ _ _ _ _ _ ES Hm) as Hm'. apply conn_send_spec in ES as (_ & _ & _ & HR & HS & HP); [ | done].
  pose proof (lookup_lt_Some _ _ _ Hw) as Hlt. destruct HR as [-> | ->]; cbn [Z.ltb Z.compare snd].
  - destruct (HS eq_refl) as [ST Hok']. eexists. split; [by apply list_lookup_insert_eq |]. rewrite find_put with (w := w) by done.
    split_and!; [done | done |]. left. by split_and!.
  - eexists. split; [by apply list_lookup_insert_eq |].
    change (ws_find_connection_by_fd (os_shutdown ?a fd') fd') with (ws_find_connection_by_fd a fd').
    rewrite find_put with (w := w) by done. split_and!; [done | done |]. right. split; [done |]. by apply HP.
Qed.

(** A message for a connection that is not open is dropped. *)
Lemma dispatch_closed cb t fd' i w op gen m :
  t_slots t !! i = Some w → state (h_conn w) ≠ WS_STATE_OPEN → (dispatch_message cb t (out_data op fd' i gen m)).2 = t.
Proof.
  intros Hw Ho. unfold out_data. destruct (op =? WS_OPCODE_TEXT); cbn [dispatch_message]; unfold same_connection;
    by rewrite Hw, (proj2 (Z.eqb_neq _ _) Ho), andb_false_r.
Qed.

Lemma drain_data_stream cb fd' i gen xs t w :
  0 <= fd' → ws_find_connection_by_fd t fd' = Some i → t_slots t !! i = Some w → generation (h_conn w) = gen →
  Forall (λ x, (x.1 = WS_OPCODE_TEXT ∨ x.1 = WS_OPCODE_BINARY) ∧ zlen x.2 < 2 ^ 64) xs →
  state (h_conn w) = WS_STATE_OPEN → mem (h_sys w) = [] → out_ok (out (h_conn w)) (h_sys w) →
  let t' := fold_left (λ t m, (dispatch_message cb t m).2) ((λ x, out_data x.1 fd' i gen x.2) <$> xs) t in
  ∃ w' n, t_slots t' !! i = Some w' ∧ slot_stream w' = slot_stream w ++ take n (concat (data_frame <$> xs)) ∧
    (state (h_conn w') = WS_STATE_OPEN → slot_stream w' = slot_stream w ++ concat (data_frame <$> xs)).
Proof.
  intros H0 Hf Hw Hg Hxs Ho Hm Hok. revert t w Hf Hw Hg Ho Hm Hok.
  induction Hxs as [ | [op m] xs [Hop Hl] Hxs IH]; intros t w Hf Hw Hg Ho Hm Hok.
  { exists w, O. cbn. by rewrite !app_nil_r. }
  cbn [fmap list_fmap fold_left concat fst snd]. rewrite <- Hg.
  destruct (dispatch_data cb t fd' i w op m H0 Hf Hw Hop Hl Ho Hm Hok) as (w1 & L1 & F1 & G1 & HC). rewrite Hg in G1.
  destruct HC as [(O1 & S1 & M1 & K1) | (O1 & n & S1)].
  - rewrite Hg in *. destruct (IH _ w1 F1 L1 G1 O1 M1 K1) as (w' & n & L' & S' & P').
    exists w', (length (data_frame (op, m)) + n)%nat. split; [done |]. rewrite take_app_add.
    rewrite S1 in S', P'. by rewrite !app_assoc.
  - assert (HF : ∀ ys t, t_slots t !! i = Some w1 →
      fold_left (λ t m, (dispatch_message cb t m).2) ((λ x, out_data x.1 fd' i (generation (h_conn w)) x.2) <$> ys) t = t).
    { induction ys as [ | [o y] ys IHy]; intros t1 Ht1; [done |]. cbn [fmap list_fmap fold_left fst snd].
      rewrite (dispatch_closed cb t1 fd' i w1) by (done || by rewrite O1). by apply IHy. }
    rewrite HF by done. exists w1, (n `min` length (data_frame (op, m)))%nat. split; [done |]. split; [ | by rewrite O1].
    rewrite S1. f_equal. rewrite take_app_le by lia. rewrite <- take_take. f_equal. by rewrite take_ge.
Qed.

(** ** The echo *)

(** The messages of a read: what the application was called with. *)
Definition messages (w wf : cw) : list event := drop (length (w_ev w)) (w_ev wf).

Definition is_data (x : Z * list Z) : Prop := (x.1 = WS_OPCODE_TEXT ∨ x.1 = WS_OPCODE_BINARY) ∧ zlen x.2 < 2 ^ 64.

(** A connection that reads the frames [fs], with the state [wf] that processing them one
    after the other gives. *)
Record reading (s : server) (k i : nat) (fd' : Z) (x : sthread) (w : hw) (fs : list cframe) (wf : cw) : Prop := mk_reading {
  r_found : find_connection s fd' = Some (k, i);
  r_thread : s_threads s !! k = Some x;
  r_mapped : ws_find_connection_by_fd (st_thread x) fd' = Some i;
  r_slot : t_slots (st_thread x) !! i = Some w;
  r_idle : st_queue x = [];
  r_refs : ∀ ki, ref_ok s ki;
  r_open : state (h_conn w) = WS_STATE_OPEN;
  r_out : out_ok (out (h_conn w)) (h_sys w);
  r_max : 0 <= max_message_size (e_cfg E) < 2 ^ 31 - 14;
  r_ready : ws_ready (e_cfg E) (h_w w);
  r_quiet : rx_quiet (rx (h_sys w)) = true;
  r_frames : Forall (cf_ok (max_message_size (e_cfg E))) fs;
  r_bytes : ∃ part, partial (max_message_size (e_cfg E)) part ∧ recv_buffer (h_conn w) ++ rx_bytes (rx (h_sys w)) = wires fs ++ part;
  r_all : process_all (e_cfg E) (core (h_w w)) fs = (0, wf)
}.

Lemma read_event st s k i fd' x w fs wf :
  reading s k i fd' x w fs wf →
  ∃ w', handle_connection_read E cpu0 st (st_thread x) fd' = (0, put_slot (st_thread x) i w') ∧ core (h_w w') = wf ∧
    new_events (st_thread x) (put_slot (st_thread x) i w') fd' = messages (h_w w) wf ∧
    fd (h_conn w') = fd (h_conn w) ∧ generation (h_conn w') = generation (h_conn w) ∧ state (h_conn w') = WS_STATE_OPEN ∧
    mem (h_sys w') = [] ∧ out_ok (out (h_conn w')) (h_sys w') ∧ slot_stream w' = tx (w_sys wf) ++ pending (out (h_conn w)).
Proof.
  intros []. destruct r_bytes0 as (part & Hpart & Hbytes). assert (H0 : (fd' <? 0) = false) by (unfold find_connection in r_found0; by destruct (fd' <? 0)).
  destruct (handle_frames_stream cpu0 (e_cfg E) (e_now E) (h_w w) fs part wf) as (v & Hv & Hc & _ & _); try done.
  exists (with_w w v). unfold handle_connection_read. rewrite H0. unfold on_slot. rewrite r_mapped0, r_slot0. unfold read_slot. rewrite r_open0.
  cbn [Z.eqb Pos.eqb WS_STATE_OPEN WS_STATE_TLS_HANDSHAKE WS_STATE_CONNECTING]. unfold lift_cw. rewrite Hv. split; [done |].
  assert (Hpk : parser_ok (max_message_size (e_cfg E)) (parser (w_conn (core (h_w w))))) by (by destruct r_ready0 as (_ & _ & _ & ? & _)).
  pose proof (process_all_grows _ _ _ _ Hpk ltac:(lia) r_frames0 r_all0) as [Gc Ge _]. pose proof (process_all_mem _ _ _ _ r_all0) as Hm.
  rewrite <- Hc in Gc, Ge, Hm. change (epollout (w_sys v) = epollout (h_sys w)) in Ge.
  pose proof (f_equal fd Gc) as Gf. pose proof (f_equal generation Gc) as Gg. pose proof (f_equal state Gc) as Gs. pose proof (f_equal out Gc) as Go.
  change (fd (w_conn v) = fd (h_conn w)) in Gf. change (generation (w_conn v) = generation (h_conn w)) in Gg.
  change (state (w_conn v) = state (h_conn w)) in Gs. change (out (w_conn v) = out (h_conn w)) in Go.
  split_and!; [done | | done | done | exact (eq_trans Gs r_open0) | | |].
  - unfold new_events, messages. rewrite r_mapped0. cbn [mbind option_bind]. rewrite r_slot0. unfold put_slot. cbn [set_slots t_slots mbind option_bind].
    rewrite list_lookup_insert_eq by (by eapply lookup_lt_Some). cbn [mbind option_bind]. by rewrite <- Hc.
  - destruct r_ready0 as (_ & _ & _ & _ & HM). by apply Hm.
  - change (out_ok (out (w_conn v)) (w_sys v)). rewrite Go. destruct r_out0 as (O1 & O2 & O3 & O4). unfold out_ok. rewrite Ge. exact (conj O1 (conj O2 (conj O3 O4))).
  - unfold slot_stream, stream. change (out (h_conn (with_w w v))) with (out (w_conn v)). by rewrite Go, <- Hc.
Qed.

(** The messages are within the limit, so they can be framed. *)
Lemma messages_data f s k i fd' x w fs wf :
  (∀ e o, f e = Some o → echo_of e = Some o) → reading s k i fd' x w fs wf → Forall is_data (omap f (messages (h_w w) wf)).
Proof.
  intros Hf []. destruct r_ready0 as (_ & _ & _ & Hpk & _).
  destruct (process_all_grows (e_cfg E) fs (core (h_w w)) wf Hpk ltac:(lia) r_frames0 r_all0) as [_ _ (l & El & Fl)].
  unfold messages. rewrite El. change (w_ev (core (h_w w))) with (w_ev (h_w w)). rewrite drop_app_length.
  clear El. induction Fl as [ | e l He Fl IH]; [constructor |]. cbn [omap list_omap].
  destruct (f e) as [o | ] eqn:Eo; [ | done]. apply Hf in Eo. destruct e; try done; injection Eo as <-.
  all: constructor; [ | done]; split; [by auto |]; cbn in *; lia.
Qed.

(** A read and the drain that follows it, for an application that echoes what it gets. *)
Lemma echo_turn a P f `{!Echoing a P f} st s k i fd' x w fs wf :
  reading s k i fd' x w fs wf →
  Forall P (messages (h_w w) wf) → Forall is_data (omap f (messages (h_w w) wf)) →
  let echoes := concat (data_frame <$> omap f (messages (h_w w) wf)) in
  let written := tx (w_sys wf) ++ pending (out (h_conn w)) in
  let '(rc, s1) := read_turn a [] st k fd' s in
  rc = 0 ∧
  ∃ y w' n, s_threads (thread_drain on_close_cb k s1) !! k = Some y ∧ st_queue y = [] ∧ t_slots (st_thread y) !! i = Some w' ∧
    slot_stream w' = written ++ take n echoes ∧ (state (h_conn w') = WS_STATE_OPEN → slot_stream w' = written ++ echoes).
Proof.
  intros HR HP HD echoes written. destruct (read_event st s k i fd' x w fs wf HR) as (v & Hv & _ & Hev & Hfd & Hgen & Hst & Hmem & Hok & Hstr).
  destruct HR. unfold read_turn. rewrite r_thread0, Hv. cbn [Z.ltb Z.compare]. split; [done |].
  assert (HW : conn_at s (k, i) = Some w) by (unfold conn_at; cbn; by rewrite r_thread0).
  rewrite Hev, (deliver_queues a P f _ s fd' k i w) by done. set (xs := omap f _) in *.
  assert (H0 : 0 <= fd') by (unfold find_connection in r_found0; destruct (Z.ltb_spec fd' 0); done).
  destruct (drain_data_stream on_close_cb fd' i (generation (h_conn w)) xs (put_slot (st_thread x) i v) v) as (w' & n & L & S & F); try done.
  { by rewrite (find_put _ _ w). }
  { by apply list_lookup_insert_eq; eapply lookup_lt_Some. }
  rewrite Hstr in S, F. eexists _, w', n. split.
  { unfold thread_drain, put_thread, queued. cbn [s_set_threads s_threads]. rewrite !list_lookup_alter_eq, r_thread0. cbn [fmap option_fmap option_map st_thread st_queue st_wakeups].
    rewrite r_idle0. cbn [app]. by rewrite wakeup_drains_queue. }
  by split_and!.
Qed.
End Turns.


(** The benchmark server's callbacks do the same. *)
Corollary stress_echoes E cpu0 on_disconnect on_close_cb st s k i fd' x w fs wf :
  reading E s k i fd' x w fs wf →
  let echoes := concat (data_frame <$> omap echo_of (messages (h_w w) wf)) in
  let written := tx (w_sys wf) ++ pending (out (h_conn w)) in
  let '(rc, s1) := read_turn E cpu0 on_disconnect stress_server [] st k fd' s in
  rc = 0 ∧
  ∃ y w' n, s_threads (thread_drain on_close_cb k s1) !! k = Some y ∧ st_queue y = [] ∧ t_slots (st_thread y) !! i = Some w' ∧
    slot_stream w' = written ++ take n echoes ∧ (state (h_conn w') = WS_STATE_OPEN → slot_stream w' = written ++ echoes).
Proof.
  intros HR. apply (echo_turn E cpu0 on_disconnect on_close_cb _ (λ _, True) echo_of st s k i fd' x w fs wf HR); [by apply Forall_true |].
  by apply (messages_data E echo_of s k i fd' x w fs wf).
Qed.

(** The echo server does the same for binary messages other than the one that closes. *)
Corollary echo_server_echoes E cpu0 on_disconnect on_close_cb st s k i fd' x w fs wf :
  reading E s k i fd' x w fs wf → EvBinary (bs "__srvclose__") ∉ messages (h_w w) wf →
  let binary e := match e with EvBinary m => Some (WS_OPCODE_BINARY, m) | _ => None end in
  let echoes := concat (data_frame <$> omap binary (messages (h_w w) wf)) in
  let written := tx (w_sys wf) ++ pending (out (h_conn w)) in
  let '(rc, s1) := read_turn E cpu0 on_disconnect echo_server [] st k fd' s in
  rc = 0 ∧
  ∃ y w' n, s_threads (thread_drain on_close_cb k s1) !! k = Some y ∧ st_queue y = [] ∧ t_slots (st_thread y) !! i = Some w' ∧
    slot_stream w' = written ++ take n echoes ∧ (state (h_conn w') = WS_STATE_OPEN → slot_stream w' = written ++ echoes).
Proof.
  intros HR HN. apply (echo_turn E cpu0 on_disconnect on_close_cb _ _ _ st s k i fd' x w fs wf HR).
  - apply Forall_forall. by intros e He ->.
  - apply (messages_data E _ s k i fd' x w fs wf); [ | done]. intros [] o; try done.
Qed.

(** ** Concrete servers *)

(** The frames of a client: "hello" in two parts with a ping between them, and two bytes. *)
Definition demo_client : list cframe :=
  [mk_cframe 0 1 [1; 2; 3; 4] (bs "hel"); mk_cframe 1 9 [5; 5; 5; 5] (bs "p"); mk_cframe 1 0 [7; 7; 7; 7] (bs "lo");
   mk_cframe 1 2 [9; 9; 9; 9] [0; 255]].

(** A server whose connection 5 is about to read [l], in two pieces. *)
Definition serving (l : list cframe) : server :=
  let fill w := with_w w (mk_cw (set_recv (h_conn w) [] 16384)
                            (mk_sys [RxData (take 11 (wires l)); RxData (drop 11 (wires l))] [] [] false [] []) []) in
  mk_server [mk_st (set_slots demo_open (alter fill 0%nat (t_slots demo_open))) [] 0] 0 0 [0] [].
Definition serving_thread (l : list cframe) : sthread := default (mk_st demo_open [] 0) (s_threads (serving l) !! 0%nat).
Definition serving_slot (l : list cframe) : hw := default demo_slot (t_slots (st_thread (serving_thread l)) !! 0%nat).

(** The callbacks the Autobahn server registers, with a limit of 1000 bytes. *)
Definition echo_env : http_env :=
  mk_env (λ _, PhrMalformed) (λ _, false) (λ _, false) (λ _, []) (λ _ _ _, None) None None
    (mk_cfg false true true false false false 1000) false false 100.
Definition demo_processed : cw := (process_all (e_cfg echo_env) (core (h_w (serving_slot demo_client))) demo_client).2.

(** [cf_ok] as a test. *)
Definition cf_okb (max : Z) (f : cframe) : bool :=
  ((cf_fin f =? 0) || (cf_fin f =? 1)) && ((0 <=? cf_op f) && (cf_op f <? 16)) && (length (cf_key f) =? 4)%nat &&
  forallb (λ b, (0 <=? b) && (b <? 256)) (cf_key f) && forallb (λ b, (0 <=? b) && (b <? 256)) (cf_payload f) && (zlen (cf_payload f) <=? max).

Lemma bytes_okb l : forallb (λ b, (0 <=? b) && (b <? 256)) l = true → bytes_ok l.
Proof. intros H. rewrite forallb_forall in H. apply List.Forall_forall. intros x Hx. specialize (H x Hx). apply andb_true_iff in H as [H1 H2]. unfold byte_ok. lia. Qed.

Lemma frames_okb max fs : forallb (cf_okb max) fs = true → Forall (cf_ok max) fs.
Proof.
  intros H. rewrite forallb_forall in H. apply List.Forall_forall. intros f Hf. specialize (H f Hf). unfold cf_okb in H.
  rewrite !andb_true_iff, orb_true_iff in H. destruct H as [[[[[H1 [H2 H3]] H4] H5%bytes_okb] H6%bytes_okb] H7].
  apply Nat.eqb_eq in H4. zbool. unfold cf_ok, key_ok. split_and!; try done. destruct H1; zbool; auto.
Qed.

Lemma demo_reading :
  reading echo_env (serving demo_client) 0 0 5 (serving_thread demo_client) (serving_slot demo_client) demo_client demo_processed.
Proof.
  constructor.
  1-5, 7, 11, 14: vm_compute; reflexivity.
  - intros ki. apply ref_counts_ok. assert (E : ref_counts (serving demo_client) = [[1; 0]]) by (vm_compute; reflexivity). rewrite E.
    repeat constructor; lia.
  - assert (E : out (h_conn (serving_slot demo_client)) = outq_init) by (vm_compute; reflexivity). rewrite E. apply outq_init_ok.
  - cbn. lia.
  - split; [vm_compute; congruence |]. split; [vm_compute; reflexivity |]. split; [by left |]. split; vm_compute; reflexivity.
  - apply frames_okb. vm_compute. reflexivity.
  - exists []. split; [by left |]. vm_compute. reflexivity.
Qed.


(** The echo server closes on the magic message, and drops what follows it. *)
Example echo_srvclose :
  let l := [mk_cframe 1 2 [1; 1; 1; 1] (bs "__srvclose__"); mk_cframe 1 2 [2; 2; 2; 2] (bs "x")] in
  let '(rc, s1) := read_turn echo_env demo_cpu true echo_server [] TlsDone 0 5 (serving l) in
  rc = 0 ∧ (λ y, (t_closed (st_thread y), (λ w, tx (h_sys w)) <$> t_slots (st_thread y) !! 0%nat)) <$> s_threads (thread_drain true 0 s1) !! 0%nat =
    Some ([5], Some ([136; 5; 3; 232] ++ bs "bye")).
Proof. vm_compute. by split. Qed.
