(* ===== verification/Tls.v ===== *)
(** * TLS contexts (src/src/ws/ws_tls.c; ws_server.c, build_tls_group to ws_server_add_sni_cert_internal)

    A listener's certificates: the default context and the per-host contexts chosen by
    SNI, how a group of them is built, published, replaced and freed while handshakes are
    under way, and the mapping of OpenSSL's errors to those of sockets.

    OpenSSL is a parameter: [C] is the type of its contexts, and [load cert key] is what
    [SSL_CTX_new] with the certificate and key files gives at the time of the call, if all
    of it works.  [mem] says which allocations succeed. *)
From Stdlib Require Import ZArith Lia.
From stdpp Require Import base numbers list strings gmap.
From S2P Require Import Prelude Cstr HttpStatic StaticSpec.
Open Scope Z_scope.

(** ** SNI *)

(** [host_match]. *)
Definition host_match (pat host : list Z) : bool :=
  if (chr pat =? 42) && (chr (tail pat) =? 46) then
    match after_first 46 host with
    | Some d => ws_strcasecmp (tail (tail pat)) d =? 0
    | None => false
    end
  else ws_strcasecmp pat host =? 0.

(** A certificate for a host: [ws_tls_sni_cert_t] and [struct ws_rt_sni]. *)
Record sni_cert := mk_sni { sc_host : list Z; sc_cert : list Z; sc_key : list Z }.

(** ** Errors *)

Inductive ssl_error := SslZeroReturn | SslWantRead | SslWantWrite | SslOther.

Definition WS_TLS_DONE : Z := 1.
Definition WS_TLS_WANT_READ : Z := 0.
Definition WS_TLS_WANT_WRITE : Z := 2.
Definition WS_TLS_ERROR : Z := -1.
Definition E_AGAIN : Z := 11.
Definition E_IO : Z := 5.

(** [ws_tls_do_handshake], given [SSL_accept] and [SSL_get_error]. *)
Definition ws_tls_do_handshake (r : Z) (e : ssl_error) : Z :=
  if r =? 1 then WS_TLS_DONE
  else match e with
       | SslWantRead => WS_TLS_WANT_READ
       | SslWantWrite => WS_TLS_WANT_WRITE
       | _ => WS_TLS_ERROR
       end.

(** [ws_tls_read] and [ws_tls_write], given [SSL_read] or [SSL_write] and
    [SSL_get_error]: the result, and [errno] if it is set. *)
Definition ws_tls_read (n : Z) (e : ssl_error) : Z * option Z :=
  if 0 <? n then (n, None)
  else match e with
       | SslZeroReturn => (0, None)
       | SslWantRead | SslWantWrite => (-1, Some E_AGAIN)
       | SslOther => (-1, Some E_IO)
       end.
Definition ws_tls_write (n : Z) (e : ssl_error) : Z * option Z :=
  if 0 <? n then (n, None)
  else match e with
       | SslWantRead | SslWantWrite => (-1, Some E_AGAIN)
       | _ => (-1, Some E_IO)
       end.

Section Groups.
Context {C : Type}.

(** [ws_tls_group_t]. *)
Record tls_group := mk_group { g_def : C; g_certs : list (list Z * C) }.

(** [sni_cb]: the context of a handshake; [name] is the ClientHello's server name. *)
Fixpoint first_match (l : list (list Z * C)) (host : list Z) : option C :=
  match l with
  | [] => None
  | (h, c) :: r => if host_match h host then Some c else first_match r host
  end.
Definition sni_cb (g : tls_group) (name : option (list Z)) : C :=
  match name with
  | Some host => default (g_def g) (first_match (g_certs g) host)
  | None => g_def g
  end.

(** [ws_tls_ctx_create] and [ws_tls_ctx_add_sni]; [None]: failure, and nothing kept. *)
Definition ws_tls_ctx_create (load : list Z → list Z → option C) (mem : bool) (cert key : list Z) : option tls_group :=
  match load cert key with
  | None => None
  | Some d => if mem then Some (mk_group d []) else None
  end.
Definition ws_tls_ctx_add_sni (load : list Z → list Z → option C) (mem : bool) (g : tls_group) (c : sni_cert) : option tls_group :=
  match load (sc_cert c) (sc_key c) with
  | None => None
  | Some x => if mem then Some (mk_group (g_def g) (g_certs g ++ [(sc_host c, x)])) else None
  end.

(** A loop of [build_tls_group]; [i] numbers the allocations. *)
Fixpoint add_all (load : list Z → list Z → option C) (mem : nat → bool) (i : nat) (g : tls_group) (l : list sni_cert) : option tls_group :=
  match l with
  | [] => Some g
  | c :: r =>
      match ws_tls_ctx_add_sni load (mem i) g c with
      | None => None
      | Some g' => add_all load mem (S i) g' r
      end
  end.

(** The server's TLS state.  Groups live in [ts_heap] until they are freed; [ts_live] is
    [tls_ctx] (absent: a plaintext listener) and [ts_retired] is [tls_ctx_retired]. *)
Record tls_server := mk_tls {
  ts_cert : list Z;
  ts_key : list Z;
  ts_sni : list sni_cert;
  ts_rt_sni : list sni_cert;
  ts_rt_cap : Z;
  ts_live : option nat;
  ts_retired : option nat;
  ts_heap : gmap nat tls_group;
  ts_fresh : nat
}.

Definition set_rt (s : tls_server) l cap :=
  mk_tls (ts_cert s) (ts_key s) (ts_sni s) l cap (ts_live s) (ts_retired s) (ts_heap s) (ts_fresh s).

Definition build_tls_group (load : list Z → list Z → option C) (mem : nat → bool) (s : tls_server) : option tls_group :=
  match ws_tls_ctx_create load (mem 0%nat) (ts_cert s) (ts_key s) with
  | None => None
  | Some g =>
      match add_all load mem 1 g (ts_sni s) with
      | None => None
      | Some g' => add_all load mem (1 + length (ts_sni s)) g' (ts_rt_sni s)
      end
  end.

(** [swap_tls_group]: publish, free what was retired a swap ago, retire the old one. *)
Definition swap_tls_group (s : tls_server) (ng : tls_group) : tls_server :=
  let heap := <[ts_fresh s := ng]> (ts_heap s) in
  let heap' := match ts_retired s with Some r => delete r heap | None => heap end in
  mk_tls (ts_cert s) (ts_key s) (ts_sni s) (ts_rt_sni s) (ts_rt_cap s) (Some (ts_fresh s)) (ts_live s) heap' (S (ts_fresh s)).

(** [ws_server_reload_tls]. *)
Definition ws_server_reload_tls (load : list Z → list Z → option C) (mem : nat → bool) (s : tls_server) : Z * tls_server :=
  match ts_live s with
  | None => (-1, s)
  | Some _ =>
      match build_tls_group load mem s with
      | None => (-1, s)
      | Some ng => (0, swap_tls_group s ng)
      end
  end.

(** The entry of a host in the runtime list. *)
Fixpoint find_rt (l : list sni_cert) (host : list Z) : option nat :=
  match l with
  | [] => None
  | c :: r => if ws_strcasecmp (sc_host c) host =? 0 then Some O else S <$> find_rt r host
  end.

(** The allocations of [ws_server_add_sni_cert] itself. *)
Record add_mem := mk_add_mem { am_dup : bool; am_grow : bool; am_host : bool }.

(** [ws_server_add_sni_cert], with the roll-back of the list when the group cannot be
    built. *)
Definition ws_server_add_sni_cert (load : list Z → list Z → option C) (mem : nat → bool) (am : add_mem)
    (s : tls_server) (c : sni_cert) : Z * tls_server :=
  match ts_live s with
  | None => (-1, s)
  | Some _ =>
      if negb (am_dup am) then (-1, s)
      else
        match find_rt (ts_rt_sni s) (sc_host c) with
        | Some i =>
            match ts_rt_sni s !! i with
            | None => (-1, s)
            | Some old =>
                let s1 := set_rt s (<[i := mk_sni (sc_host old) (sc_cert c) (sc_key c)]> (ts_rt_sni s)) (ts_rt_cap s) in
                match build_tls_group load mem s1 with
                | None => (-1, set_rt s1 (<[i := old]> (ts_rt_sni s1)) (ts_rt_cap s1))
                | Some ng => (0, swap_tls_group s1 ng)
                end
            end
        | None =>
            let n := zlen (ts_rt_sni s) in
            let full := n =? ts_rt_cap s in
            let cap := if full then (if ts_rt_cap s =? 0 then 4 else u64 (ts_rt_cap s * 2)) else ts_rt_cap s in
            if full && negb (am_grow am) then (-1, s)
            else
              let s0 := set_rt s (ts_rt_sni s) cap in
              if negb (am_host am) then (-1, s0)
              else
                let s1 := set_rt s0 (ts_rt_sni s0 ++ [c]) cap in
                match build_tls_group load mem s1 with
                | None => (-1, set_rt s1 (take (length (ts_rt_sni s)) (ts_rt_sni s1)) cap)
                | Some ng => (0, swap_tls_group s1 ng)
                end
        end
  end.

(** The TLS part of [ws_server_create_internal]: [None] if the server is refused. *)
Definition tls_create (load : list Z → list Z → option C) (mem : nat → bool) (cert key : list Z) (sni : list sni_cert) : option tls_server :=
  match ws_tls_ctx_create load (mem 0%nat) cert key with
  | None => None
  | Some g =>
      match add_all load mem 1 g sni with
      | None => None
      | Some g' => Some (mk_tls cert key sni [] 0 (Some 0%nat) None {[0%nat := g']} 1)
      end
  end.

(** [ws_server_destroy]: free the live group, then the retired one. *)
Definition tls_destroy (s : tls_server) : tls_server :=
  let h1 := match ts_live s with Some g => delete g (ts_heap s) | None => ts_heap s end in
  let h2 := match ts_retired s with Some g => delete g h1 | None => h1 end in
  mk_tls (ts_cert s) (ts_key s) (ts_sni s) [] 0 None None h2 (ts_fresh s).

(** ** What a group presents *)

Lemma host_match_vhost pat host : host_match pat host = vhost_match pat host.
Proof.
  unfold host_match, vhost_match. destruct pat as [ | a [ | b p]]; cbn [chr tail]; [done | by rewrite andb_false_r; repeat case_match |].
  destruct (Z.eqb_spec a 42) as [-> | Ha]; cbn [andb]; [ | by repeat case_match].
  destruct (Z.eqb_spec b 46) as [-> | Hb]; [done |]. by repeat case_match.
Qed.

(** Contexts of a list of certificates, all loaded. *)
Definition loaded (load : list Z → list Z → option C) (l : list sni_cert) (cs : list (list Z * C)) : Prop :=
  Forall2 (λ c hc, hc.1 = sc_host c ∧ load (sc_cert c) (sc_key c) = Some hc.2) l cs.

Lemma add_all_spec load mem i g l g' :
  add_all load mem i g l = Some g' → ∃ cs, g' = mk_group (g_def g) (g_certs g ++ cs) ∧ loaded load l cs.
Proof.
  revert i g. induction l as [ | c l IH]; intros i g; cbn.
  - intros [= <-]. exists []. rewrite app_nil_r. split; [by destruct g | constructor].
  - unfold ws_tls_ctx_add_sni. destruct (load (sc_cert c) (sc_key c)) as [x | ] eqn:El; [ | done]. destruct (mem i); [ | done].
    intros H%IH. destruct H as (cs & -> & Hl). exists ((sc_host c, x) :: cs). cbn. rewrite <- app_assoc. split; [done |].
    by constructor.
Qed.

Lemma build_spec load mem s ng :
  build_tls_group load mem s = Some ng →
  load (ts_cert s) (ts_key s) = Some (g_def ng) ∧ loaded load (ts_sni s ++ ts_rt_sni s) (g_certs ng).
Proof.
  unfold build_tls_group, ws_tls_ctx_create. destruct (load (ts_cert s) (ts_key s)) as [d | ]; [ | done].
  destruct (mem 0%nat); [ | done]. destruct (add_all load mem 1 (mk_group d []) (ts_sni s)) as [g1 | ] eqn:E1; [ | done].
  intros E2. apply add_all_spec in E1 as (c1 & -> & H1). apply add_all_spec in E2 as (c2 & -> & H2). cbn.
  split; [done |]. by apply Forall2_app.
Qed.

(** The context chosen is the one of the first certificate whose name matches. *)
Lemma first_match_spec load l cs host :
  loaded load l cs → Forall (λ c, cstr (sc_host c)) l → cstr host →
  match first_match cs host with
  | Some x => ∃ l1 c l2, l = l1 ++ c :: l2 ∧ host_matches (sc_host c) host ∧ load (sc_cert c) (sc_key c) = Some x ∧
                         Forall (λ c, ¬ host_matches (sc_host c) host) l1
  | None => Forall (λ c, ¬ host_matches (sc_host c) host) l
  end.
Proof.
  intros Hl HC Hh. induction Hl as [ | c [h x] l cs [E1 E2] Hl IH]; [constructor |]. cbn in E1, E2. subst h.
  apply Forall_cons in HC as [Hc HC]. specialize (IH HC). cbn [first_match]. rewrite host_match_vhost.
  destruct (vhost_match (sc_host c) host) eqn:Em.
  - exists [], c, l. split_and!; [done | by apply vhost_match_spec | done | constructor].
  - assert (Hno : ¬ host_matches (sc_host c) host) by (rewrite <- vhost_match_spec by done; congruence).
    destruct (first_match cs host) as [y | ].
    + destruct IH as (l1 & c' & l2 & -> & H1 & H2 & H3). exists (c :: l1), c', l2. split_and!; [done | done | done | by constructor].
    + by constructor.
Qed.

(** ** The life of groups *)

(** Groups are numbered in the order they are published: the live one is the last, the
    retired one the one before it, and nothing else is allocated. *)
Record tls_inv (s : tls_server) : Prop := mk_tls_inv {
  ti_live : ts_live s = Some (ts_fresh s - 1)%nat;
  ti_fresh : (0 < ts_fresh s)%nat;
  ti_retired : ts_retired s = if decide (1 < ts_fresh s)%nat then Some (ts_fresh s - 2)%nat else None;
  ti_heap : ∀ g, is_Some (ts_heap s !! g) ↔ (ts_fresh s <= g + 2 ∧ g < ts_fresh s)%nat
}.

Lemma swap_inv s ng : tls_inv s → tls_inv (swap_tls_group s ng).
Proof.
  intros [H1 H2 H3 H4]. constructor; cbn.
  - f_equal. lia.
  - lia.
  - rewrite decide_True by lia. rewrite H1. f_equal; lia.
  - intros g. rewrite H3. destruct (decide (1 < ts_fresh s)%nat) as [Hf | Hf].
    + destruct (decide (g = (ts_fresh s - 2)%nat)) as [-> | Hg].
      * rewrite lookup_delete_eq. split; [by intros [? ?] | lia].
      * rewrite lookup_delete_ne by done. destruct (decide (g = ts_fresh s)) as [-> | Hg2].
        -- rewrite lookup_insert_eq. split; [lia | by eexists].
        -- rewrite lookup_insert_ne by done. rewrite H4. lia.
    + destruct (decide (g = ts_fresh s)) as [-> | Hg2].
      * rewrite lookup_insert_eq. split; [lia | by eexists].
      * rewrite lookup_insert_ne by done. rewrite H4. lia.
Qed.

Lemma set_rt_inv s l cap : tls_inv s → tls_inv (set_rt s l cap).
Proof. by intros []. Qed.

(** What the two updates do, in terms of a build and a swap. *)
Definition upsert (l : list sni_cert) (c : sni_cert) : list sni_cert :=
  match find_rt l (sc_host c) with
  | Some i => alter (λ old, mk_sni (sc_host old) (sc_cert c) (sc_key c)) i l
  | None => l ++ [c]
  end.

Lemma find_rt_lookup l host i : find_rt l host = Some i → ∃ c, l !! i = Some c.
Proof.
  revert i. induction l as [ | c l IH]; intros i; cbn; [done |]. destruct (_ =? 0); [intros [= <-]; by exists c |].
  destruct (find_rt l host) as [j | ]; [ | done]. intros [= <-]. by apply (IH j).
Qed.

Lemma add_cases load mem am s c rc s' :
  ws_server_add_sni_cert load mem am s c = (rc, s') →
  (rc = -1 ∧ ∃ cap, s' = set_rt s (ts_rt_sni s) cap) ∨
  (rc = 0 ∧ is_Some (ts_live s) ∧ ∃ cap ng, let s1 := set_rt s (upsert (ts_rt_sni s) c) cap in
     build_tls_group load mem s1 = Some ng ∧ s' = swap_tls_group s1 ng).
Proof.
  assert (Eid : s = set_rt s (ts_rt_sni s) (ts_rt_cap s)) by (by destruct s).
  unfold ws_server_add_sni_cert, upsert. destruct (ts_live s) as [g | ] eqn:EL; [ | intros [= <- <-]; left; eauto].
  destruct (am_dup am); cbn [negb]; [ | intros [= <- <-]; left; eauto].
  destruct (find_rt (ts_rt_sni s) (sc_host c)) as [i | ] eqn:Ef.
  - destruct (find_rt_lookup _ _ _ Ef) as [old Ho]. rewrite Ho.
    assert (EA : alter (λ o, mk_sni (sc_host o) (sc_cert c) (sc_key c)) i (ts_rt_sni s) =
                 <[i := mk_sni (sc_host old) (sc_cert c) (sc_key c)]> (ts_rt_sni s)).
    { apply list_eq. intros j. destruct (decide (j = i)) as [-> | Hne].
      - rewrite list_lookup_alter_eq, Ho, list_lookup_insert_eq; [done | by eapply lookup_lt_Some].
      - by rewrite list_lookup_alter_ne, list_lookup_insert_ne. }
    destruct (build_tls_group load mem _) as [ng | ] eqn:EB; intros [= <- <-].
    + right. split_and!; [done | by eexists |]. exists (ts_rt_cap s), ng. cbn zeta. rewrite EA. done.
    + left. split; [done |]. exists (ts_rt_cap s). unfold set_rt. cbn. by rewrite list_insert_insert_eq, list_insert_id.
  - destruct ((zlen (ts_rt_sni s) =? ts_rt_cap s) && negb (am_grow am)); [intros [= <- <-]; left; eauto |].
    destruct (am_host am); cbn [negb]; [ | intros [= <- <-]; left; eauto].
    destruct (build_tls_group load mem _) as [ng | ] eqn:EB; intros [= <- <-].
    + right. split_and!; [done | by eexists |]. by eexists _, ng.
    + left. split; [done |]. eexists. unfold set_rt. cbn. by rewrite take_app_length.
Qed.

(** ** Histories *)

(** What happens to a listener: a reload, an added host, a connection accepted (it keeps
    the address of the live group for the name callback of its handshake). *)
Inductive tls_op :=
| TReload (load : list Z → list Z → option C) (mem : nat → bool)
| TAdd (load : list Z → list Z → option C) (mem : nat → bool) (am : add_mem) (c : sni_cert)
| TAccept.

(** The listener, and the groups its handshakes refer to. *)
Definition tls_do (x : tls_server * list nat) (o : tls_op) : tls_server * list nat :=
  match o with
  | TReload load mem => ((ws_server_reload_tls load mem x.1).2, x.2)
  | TAdd load mem am c => ((ws_server_add_sni_cert load mem am x.1 c).2, x.2)
  | TAccept => (x.1, match ts_live x.1 with Some g => x.2 ++ [g] | None => x.2 end)
  end.

Lemma tls_do_inv x o : tls_inv x.1 → tls_inv (tls_do x o).1.
Proof.
  intros Hi. destruct o as [load mem | load mem am c | ]; cbn; [ | | done].
  - unfold ws_server_reload_tls. destruct (ts_live x.1); [ | done]. destruct (build_tls_group load mem x.1); [ | done]. by apply swap_inv.
  - destruct (ws_server_add_sni_cert load mem am x.1 c) as [rc s'] eqn:E.
    apply add_cases in E as [(_ & cap & ->) | (_ & _ & cap & ng & _ & ->)]; cbn; [by apply set_rt_inv | by apply swap_inv, set_rt_inv].
Qed.

Lemma tls_do_old x o : tls_inv x.1 → Forall (λ g, (g < ts_fresh x.1)%nat) x.2 → Forall (λ g, (g < ts_fresh (tls_do x o).1)%nat) (tls_do x o).2.
Proof.
  intros Hi HF. destruct o as [load mem | load mem am c | ]; cbn.
  - unfold ws_server_reload_tls. destruct (ts_live x.1); [ | done]. destruct (build_tls_group load mem x.1); [ | done]. cbn.
    eapply Forall_impl; [exact HF |]. intros g Hg. cbn in Hg. lia.
  - destruct (ws_server_add_sni_cert load mem am x.1 c) as [rc s'] eqn:E.
    apply add_cases in E as [(_ & cap & ->) | (_ & _ & cap & ng & _ & ->)]; cbn; [done |].
    eapply Forall_impl; [exact HF |]. intros g Hg. cbn in Hg. lia.
  - rewrite (ti_live _ Hi). apply Forall_app. split; [done |]. constructor; [ | constructor]. pose proof (ti_fresh _ Hi). lia.
Qed.

Lemma tls_create_inv load mem cert key sni s : tls_create load mem cert key sni = Some s → tls_inv s ∧ ts_fresh s = 1%nat.
Proof.
  unfold tls_create. destruct (ws_tls_ctx_create _ _ _ _) as [g | ]; [ | done]. destruct (add_all _ _ _ _ _) as [g' | ]; [ | done].
  intros [= <-]. split; [ | done]. constructor; cbn; [done | lia | done |].
  intros h. destruct (decide (h = 0%nat)) as [-> | Hh].
  - rewrite lookup_singleton_eq. split; [lia | by eexists].
  - rewrite lookup_singleton_ne by done. split; [by intros [? ?] | lia].
Qed.

Lemma tls_hist_inv ops x :
  tls_inv x.1 → Forall (λ g, (g < ts_fresh x.1)%nat) x.2 →
  tls_inv (fold_left tls_do ops x).1 ∧ Forall (λ g, (g < ts_fresh (fold_left tls_do ops x).1)%nat) (fold_left tls_do ops x).2.
Proof.
  revert x. induction ops as [ | o ops IH]; intros x Hi HF; [done |]. cbn. apply IH; [by apply tls_do_inv | by apply tls_do_old].
Qed.

(** C24. Certificates are replaced safely up to one generation: in every history of
    reloads, added hosts (each succeeding or failing anywhere) and accepted connections,
    the published group is allocated, at most one other is, so nothing leaks, and the
    group of a connection's handshake is still allocated exactly if at most one
    replacement has been published since the connection was accepted. *)
Theorem tls_group_lifetime load mem cert key sni s ops :
  tls_create load mem cert key sni = Some s →
  let x := fold_left tls_do ops (s, []) in
  ∃ live, ts_live x.1 = Some live ∧ is_Some (ts_heap x.1 !! live) ∧ (size (ts_heap x.1) <= 2)%nat ∧
    Forall (λ g, is_Some (ts_heap x.1 !! g) ↔ (live <= g + 1)%nat) x.2.
Proof.
  intros HC x. apply tls_create_inv in HC as [Hi Hf].
  destruct (tls_hist_inv ops (s, []) Hi ltac:(constructor)) as [Hx HF]. fold x in Hx, HF.
  pose proof (ti_fresh _ Hx) as Hp. exists (ts_fresh x.1 - 1)%nat. split_and!.
  - apply (ti_live _ Hx).
  - apply (ti_heap _ Hx). lia.
  - rewrite <- size_dom. trans (size ({[ (ts_fresh x.1 - 1)%nat; (ts_fresh x.1 - 2)%nat ]} : gset nat)).
    + apply subseteq_size. intros g Hg%elem_of_dom. apply (ti_heap _ Hx) in Hg. rewrite elem_of_union, !elem_of_singleton. lia.
    + rewrite size_union_alt. rewrite size_singleton.
      trans (1 + size ({[(ts_fresh x.1 - 2)%nat]} : gset nat))%nat; [ | by rewrite size_singleton].
      apply Nat.add_le_mono_l, subseteq_size. apply subseteq_difference_l. done.
  - eapply Forall_impl; [exact HF |]. intros g Hg. cbn in Hg. rewrite (ti_heap _ Hx). lia.
Qed.

(** An update of the certificates is all or nothing: [ws_server_add_sni_cert] that
    fails, wherever it fails, leaves the list of runtime hosts, the published group and the
    retired one as they were; one that succeeds has recorded the host, replacing its entry
    if it had one, and published a group in which every configured and runtime host has
    the certificate its files hold now, and it has kept the group it replaced.  In the new
    group a name gets the first certificate that matches it, the configured ones before
    the runtime ones, and the default one if none does. *)
Theorem add_sni_all_or_nothing load mem am s c host :
  tls_inv s → Forall (λ c, cstr (sc_host c)) (ts_sni s ++ upsert (ts_rt_sni s) c) → cstr host →
  let '(rc, s') := ws_server_add_sni_cert load mem am s c in
  (rc = -1 ∧ ts_rt_sni s' = ts_rt_sni s ∧ ts_live s' = ts_live s ∧ ts_retired s' = ts_retired s ∧ ts_heap s' = ts_heap s) ∨
  (rc = 0 ∧ ts_rt_sni s' = upsert (ts_rt_sni s) c ∧ ts_retired s' = ts_live s ∧
   (∀ g, ts_live s = Some g → ts_heap s' !! g = ts_heap s !! g) ∧
   ∃ live ng, ts_live s' = Some live ∧ ts_heap s' !! live = Some ng ∧
     load (ts_cert s) (ts_key s) = Some (g_def ng) ∧
     match first_match (g_certs ng) host with
     | Some x => ∃ l1 e l2, ts_sni s ++ upsert (ts_rt_sni s) c = l1 ++ e :: l2 ∧ host_matches (sc_host e) host ∧
                   load (sc_cert e) (sc_key e) = Some x ∧ Forall (λ c, ¬ host_matches (sc_host c) host) l1 ∧
                   sni_cb ng (Some host) = x
     | None => Forall (λ c, ¬ host_matches (sc_host c) host) (ts_sni s ++ upsert (ts_rt_sni s) c) ∧
               sni_cb ng (Some host) = g_def ng
     end).
Proof.
  intros Hi HC Hh. destruct (ws_server_add_sni_cert load mem am s c) as [rc s'] eqn:E.
  apply add_cases in E as [(-> & cap & ->) | (-> & _ & cap & ng & HB & ->)]; [by left |].
  right. pose proof (ti_fresh _ Hi) as Hp.
  assert (Hnew : ts_heap (swap_tls_group (set_rt s (upsert (ts_rt_sni s) c) cap) ng) !! ts_fresh s = Some ng).
  { cbn. rewrite (ti_retired _ Hi). case_decide; [rewrite lookup_delete_ne by lia |]; by rewrite lookup_insert_eq. }
  apply build_spec in HB as [HD HL]. cbn in HD, HL. split_and!; try done.
  - intros g Hg. rewrite (ti_live _ Hi) in Hg. injection Hg as <-. cbn. rewrite (ti_retired _ Hi).
    case_decide; [rewrite lookup_delete_ne by lia |]; by rewrite lookup_insert_ne by lia.
  - exists (ts_fresh s), ng. split_and!; try done.
    pose proof (first_match_spec load _ _ host HL HC Hh) as HM. cbn. destruct (first_match (g_certs ng) host) as [x | ]; [ | done].
    destruct HM as (l1 & e & l2 & H1 & H2 & H3 & H4). by exists l1, e, l2.
Qed.

End Groups.
Arguments tls_group : clear implicits.
Arguments tls_server : clear implicits.

(** ** Witnesses

    A disk on which the certificate of a path is the path's length, and one whose file is
    missing. *)
Definition demo_load (cert key : list Z) : option Z := if zlen cert =? 0 then None else Some (zlen cert).
Definition demo_alloc (i : nat) : bool := true.
Definition demo_sni : list sni_cert := [mk_sni (bs "*.a.test") (bs "wild.pem") (bs "k")].
Definition demo_tls : tls_server Z :=
  default (mk_tls [] [] [] [] 0 None None ∅ 0) (tls_create demo_load demo_alloc (bs "d.pem") (bs "k") demo_sni).
Definition demo_add (h p : list Z) : tls_op := TAdd demo_load demo_alloc (mk_add_mem true true true) (mk_sni h p (bs "k")).

Lemma demo_tls_created : tls_create demo_load demo_alloc (bs "d.pem") (bs "k") demo_sni = Some demo_tls.
Proof. reflexivity. Qed.

Lemma tls_group_lifetime_witness :
  let x := fold_left tls_do [TAccept; demo_add (bs "b.test") (bs "bb.pem"); TAccept; demo_add (bs "c.test") (bs "ccc.pem")] (demo_tls, []) in
  x.2 = [0; 1]%nat ∧ ts_heap x.1 !! 0%nat = None ∧
  ∃ live, ts_live x.1 = Some live ∧ is_Some (ts_heap x.1 !! live) ∧ (size (ts_heap x.1) <= 2)%nat ∧
    Forall (λ g, is_Some (ts_heap x.1 !! g) ↔ (live <= g + 1)%nat) x.2.
Proof.
  split; [reflexivity |]. split; [reflexivity |].
  exact (tls_group_lifetime demo_load demo_alloc (bs "d.pem") (bs "k") demo_sni demo_tls
    [TAccept; demo_add (bs "b.test") (bs "bb.pem"); TAccept; demo_add (bs "c.test") (bs "ccc.pem")] demo_tls_created).
Defined.

Lemma add_sni_all_or_nothing_witness :
  ∃ rc s', ws_server_add_sni_cert demo_load demo_alloc (mk_add_mem true true true) demo_tls (mk_sni (bs "b.test") (bs "bb.pem") (bs "k")) = (rc, s') ∧
    (rc = -1 ∨ rc = 0 ∧ ts_rt_sni s' = upsert (ts_rt_sni demo_tls) (mk_sni (bs "b.test") (bs "bb.pem") (bs "k"))).
Proof.
  pose proof (add_sni_all_or_nothing demo_load demo_alloc (mk_add_mem true true true) demo_tls
    (mk_sni (bs "b.test") (bs "bb.pem") (bs "k")) (bs "b.test") (proj1 (tls_create_inv _ _ _ _ _ _ demo_tls_created))
    ltac:(repeat (apply List.Forall_cons; [solve_cstr |]); apply List.Forall_nil) ltac:(solve_cstr)) as H.
  destruct (ws_server_add_sni_cert demo_load demo_alloc (mk_add_mem true true true) demo_tls (mk_sni (bs "b.test") (bs "bb.pem") (bs "k"))) as [rc s'].
  exists rc, s'. split; [reflexivity |]. destruct H as [[H _] | (H & H2 & _)]; [by left | by right].
Defined.

(** A runtime certificate for a host that a configured entry matches is never presented. *)
Example configured_shadows_runtime :
  let '(rc, s') := ws_server_add_sni_cert demo_load demo_alloc (mk_add_mem true true true) demo_tls
                     (mk_sni (bs "x.a.test") (bs "new-for-x.pem") (bs "k")) in
  rc = 0 ∧ (λ g, sni_cb g (Some (bs "x.a.test"))) <$> (ts_heap s' !! 1%nat) = Some (zlen (bs "wild.pem")).
Proof. split; reflexivity. Qed.

(** A leading wildcard also covers an empty label. *)
Example wildcard_empty_label : host_match (bs "*.a.test") (bs ".a.test") = true.
Proof. reflexivity. Qed.
