(* ===== verification/TlsCtx.v ===== *)
(** * OpenSSL contexts and who frees them (src/src/ws/ws_tls.c)

    [Tls] takes a context to be what loading a certificate gives.  Here the contexts are
    objects with reference counts: made, configured and freed again when a step fails;
    owned by a certificate group; referenced by each connection's SSL object, so that a
    handshake keeps its context while the group is freed.  What OpenSSL answers is an
    argument. *)
From Stdlib Require Import ZArith Lia.
From stdpp Require Import base numbers list strings gmap.
From S2P Require Import Prelude Cstr HttpStatic StaticSpec Tls.
Open Scope Z_scope.

(** The SSL_CTX objects with their reference counts; [ctx_fresh] is the next address. *)
Record ssl_heap := mk_ssl { ctxs : gmap nat Z; ctx_fresh : nat }.

Definition SSL_CTX_free (c : nat) (h : ssl_heap) : ssl_heap :=
  match ctxs h !! c with
  | Some n => mk_ssl (if n <=? 1 then delete c (ctxs h) else <[c := n - 1]> (ctxs h)) (ctx_fresh h)
  | None => h
  end.
Definition ctx_up_ref (c : nat) (h : ssl_heap) : ssl_heap :=
  match ctxs h !! c with Some n => mk_ssl (<[c := n + 1]> (ctxs h)) (ctx_fresh h) | None => h end.

(** What OpenSSL answers while a context is made. *)
Record ctx_env := mk_cenv { cx_new : bool; cx_chain : bool; cx_key : bool; cx_check : bool }.

(** [make_ctx]; absent file names are NULL. *)
Definition make_ctx (e : ctx_env) (cert key : option (list Z)) (h : ssl_heap) : option nat * ssl_heap :=
  match cert, key with
  | Some _, Some _ =>
      if negb (cx_new e) then (None, h)
      else
        let c := ctx_fresh h in
        let h1 := mk_ssl (<[c := 1]> (ctxs h)) (S c) in
        if negb (cx_chain e) then (None, SSL_CTX_free c h1)
        else if negb (cx_key e) then (None, SSL_CTX_free c h1)
        else if negb (cx_check e) then (None, SSL_CTX_free c h1)
        else (Some c, h1)
  | _, _ => (None, h)
  end.

(** [ws_tls_ctx_create]: a group over the default context. *)
Definition ctx_create (e : ctx_env) (mem : bool) (cert key : option (list Z)) (h : ssl_heap) : option (tls_group nat) * ssl_heap :=
  match make_ctx e cert key h with
  | (None, h1) => (None, h1)
  | (Some d, h1) => if mem then (Some (mk_group d []), h1) else (None, SSL_CTX_free d h1)
  end.

(** [ws_tls_ctx_add_sni]; [mem]: the copy of the name and the larger array. *)
Definition ctx_add_sni (e : ctx_env) (mem : bool * bool) (g : tls_group nat) (host cert key : option (list Z)) (h : ssl_heap)
    : Z * tls_group nat * ssl_heap :=
  match host, cert, key with
  | Some n, Some _, Some _ =>
      match make_ctx e cert key h with
      | (None, h1) => (-1, g, h1)
      | (Some c, h1) =>
          if mem.1 && mem.2 then (0, mk_group (g_def g) (g_certs g ++ [(n, c)]), h1) else (-1, g, SSL_CTX_free c h1)
      end
  | _, _, _ => (-1, g, h)
  end.

(** [ws_tls_ctx_free]. *)
Definition ws_tls_ctx_free (g : tls_group nat) (h : ssl_heap) : ssl_heap :=
  SSL_CTX_free (g_def g) (fold_left (λ h hc, SSL_CTX_free hc.2 h) (g_certs g) h).

(** [ws_tls_conn_new]: an SSL object, which holds a reference to the default context;
    [set_fd] fails after it was made. *)
Definition ws_tls_conn_new (ssl_new set_fd : bool) (g : tls_group nat) (h : ssl_heap) : option nat * ssl_heap :=
  if negb ssl_new then (None, h)
  else
    let h1 := ctx_up_ref (g_def g) h in
    if negb set_fd then (None, SSL_CTX_free (g_def g) h1) else (Some (g_def g), h1).
(** [SSL_set_SSL_CTX] in [sni_cb]: the reference moves to the context of the name. *)
Definition set_ssl_ctx (c : nat) (ssl : nat) (h : ssl_heap) : nat * ssl_heap :=
  if decide (c = ssl) then (ssl, h) else (c, SSL_CTX_free ssl (ctx_up_ref c h)).
Definition ws_tls_conn_free (ssl : option nat) (h : ssl_heap) : ssl_heap :=
  match ssl with Some c => SSL_CTX_free c h | None => h end.

(** [alpn_cb]: what is selected, with SSL_TLSEXT_ERR_OK (0) or NOACK (3); [select] is
    [SSL_select_next_proto], [None] when it did not negotiate, and [A] the type of what the
    client offers. *)
Definition alpn_protos : list Z := 8 :: bs "http/1.1".
Definition alpn_cb {A} (select : list Z → A → option (list Z)) (client : A) : Z * option (list Z) :=
  match select alpn_protos client with Some p => (0, Some p) | None => (3, None) end.

(** ** Ownership *)

(** Addresses are not reused while the theorems look. *)
Definition fresh_ok (h : ssl_heap) : Prop := ∀ c, is_Some (ctxs h !! c) → (c < ctx_fresh h)%nat.

Lemma free_new h : fresh_ok h → ctxs (SSL_CTX_free (ctx_fresh h) (mk_ssl (<[ctx_fresh h := 1]> (ctxs h)) (S (ctx_fresh h)))) = ctxs h.
Proof.
  intros Hf. unfold SSL_CTX_free. cbn. rewrite lookup_insert_eq. cbn. apply delete_insert_id.
  destruct (ctxs h !! ctx_fresh h) eqn:E; [ | done]. assert (ctx_fresh h < ctx_fresh h)%nat by (by apply Hf). lia.
Qed.

Lemma fresh_none h : fresh_ok h → ctxs h !! ctx_fresh h = None.
Proof. intros Hf. destruct (ctxs h !! ctx_fresh h) eqn:E; [ | done]. assert (ctx_fresh h < ctx_fresh h)%nat by (by apply Hf). lia. Qed.

(** Either the context is new, with one reference, or nothing is left of it. *)
Lemma make_ctx_spec e cert key h :
  fresh_ok h →
  let '(r, h') := make_ctx e cert key h in
  fresh_ok h' ∧
  match r with
  | Some c => c = ctx_fresh h ∧ ctxs h' = <[c := 1]> (ctxs h) ∧ is_Some cert ∧ is_Some key ∧
              cx_new e && cx_chain e && cx_key e && cx_check e = true
  | None => ctxs h' = ctxs h
  end.
Proof.
  intros Hf. unfold make_ctx. destruct cert as [cert | ], key as [key | ]; try done.
  assert (HF : fresh_ok (SSL_CTX_free (ctx_fresh h) (mk_ssl (<[ctx_fresh h := 1]> (ctxs h)) (S (ctx_fresh h))))).
  { intros c Hc. rewrite free_new in Hc by done. apply Hf in Hc. unfold SSL_CTX_free. cbn. rewrite lookup_insert_eq. cbn. lia. }
  destruct e as [[] [] [] []]; cbn [negb cx_new cx_chain cx_key cx_check]; try (split; [done | by apply free_new]); try done.
  split; [ | done]. intros c. cbn. destruct (decide (c = ctx_fresh h)) as [-> | Hc]; [lia |]. rewrite lookup_insert_ne by done.
  intros H. apply Hf in H. lia.
Qed.

(** The heap [h] is [h0] with the contexts [cs], each with one reference. *)
Record over (cs : list nat) (h0 h : ssl_heap) : Prop := mk_over {
  ov_map : ∀ c, ctxs h !! c = if decide (c ∈ cs) then Some 1 else ctxs h0 !! c;
  ov_new : ∀ c, c ∈ cs → ctxs h0 !! c = None;
  ov_nodup : NoDup cs;
  ov_fresh : fresh_ok h
}.

Lemma free_fresh c h : ctx_fresh (SSL_CTX_free c h) = ctx_fresh h.
Proof. unfold SSL_CTX_free. by destruct (ctxs h !! c). Qed.

Lemma free_dom c h x : is_Some (ctxs (SSL_CTX_free c h) !! x) → is_Some (ctxs h !! x).
Proof.
  unfold SSL_CTX_free. destruct (ctxs h !! c) as [n | ] eqn:E; [ | done]. cbn. destruct (n <=? 1).
  - rewrite lookup_delete. by case_decide; [intros [? ?] |].
  - destruct (decide (c = x)) as [-> | Hx]; [by rewrite E | by rewrite lookup_insert_ne].
Qed.

Lemma free_fresh_ok c h : fresh_ok h → fresh_ok (SSL_CTX_free c h).
Proof. intros Hf x Hx. rewrite free_fresh. by apply Hf, (free_dom c). Qed.

Lemma over_free c cs h0 h : over (c :: cs) h0 h → over cs h0 (SSL_CTX_free c h).
Proof.
  intros [H1 H2 H3 H4]. apply NoDup_cons in H3 as [Hc H3]. constructor; [ | | done | by apply free_fresh_ok].
  - intros x. unfold SSL_CTX_free. rewrite (H1 c), decide_True by (by left). cbn.
    rewrite lookup_delete. case_decide as Hx; [subst; rewrite decide_False by done; symmetry; apply H2; by left |].
    rewrite H1. repeat case_decide; try done; set_solver.
  - intros x Hx. apply H2. by right.
Qed.

Lemma over_free_all cs rest h0 h : over (cs ++ rest) h0 h → over rest h0 (fold_left (λ h c, SSL_CTX_free c h) cs h).
Proof. revert h. induction cs as [ | c cs IH]; intros h Ho; [done |]. cbn. by apply IH, over_free. Qed.

Lemma over_perm cs cs' h0 h : Permutation cs cs' → over cs h0 h → over cs' h0 h.
Proof.
  intros HP [H1 H2 H3 H4]. constructor; [ | | by rewrite <- HP | done].
  - intros c. rewrite H1. repeat case_decide; try done; naive_solver (by rewrite HP in *).
  - intros c Hc. apply H2. by rewrite HP.
Qed.

(** The contexts of a group. *)
Definition group_ctxs (g : tls_group nat) : list nat := (g_certs g).*2 ++ [g_def g].

Lemma over_fresh c cs h0 h h' : over cs h0 h → fresh_ok h' → ctxs h' = <[ctx_fresh h := 1]> (ctxs h) → c = ctx_fresh h → over (c :: cs) h0 h'.
Proof.
  intros [H1 H2 H3 H4] Hf' E ->. pose proof (fresh_none h H4) as Hn. assert (Hc : ctx_fresh h ∉ cs) by (intros Hc; rewrite H1, decide_True in Hn by done; done).
  constructor; [ | | by apply NoDup_cons | done].
  - intros c. rewrite E. destruct (decide (c = ctx_fresh h)) as [-> | Hne]; [rewrite lookup_insert_eq; by rewrite decide_True by (by left) |].
    rewrite lookup_insert_ne, H1 by done. repeat case_decide; try done; set_solver.
  - intros c [-> | Hc']%elem_of_cons; [ | by apply H2]. rewrite H1, decide_False in Hn by done. done.
Qed.

(** A certificate request: what OpenSSL and the allocator answer, and the names. *)
Definition add_req : Type := ctx_env * (bool * bool) * (option (list Z) * option (list Z) * option (list Z)).
Definition add_one (x : tls_group nat * ssl_heap) (r : add_req) : tls_group nat * ssl_heap :=
  let '(e, mem, (host, cert, key)) := r in let '(_, g, h) := ctx_add_sni e mem x.1 host cert key x.2 in (g, h).

Lemma add_over e mem g host cert key h0 h :
  over (group_ctxs g) h0 h →
  let '(rc, g', h') := ctx_add_sni e mem g host cert key h in
  over (group_ctxs g') h0 h' ∧ ((rc = -1 ∧ g' = g ∧ ctxs h' = ctxs h) ∨ (rc = 0 ∧ ∃ n c, host = Some n ∧ g_certs g' = g_certs g ++ [(n, c)] ∧ g_def g' = g_def g)).
Proof.
  intros Ho. unfold ctx_add_sni.
  assert (Hsame : ∀ h', ctxs h' = ctxs h → fresh_ok h' → over (group_ctxs g) h0 h') by (intros h' E Hf; destruct Ho; by constructor; rewrite ?E).
  destruct host as [n | ], cert as [ct | ], key as [ky | ]; try (split; [done | by left]).
  pose proof (make_ctx_spec e (Some ct) (Some ky) h (ov_fresh _ _ _ Ho)) as HM. destruct (make_ctx e (Some ct) (Some ky) h) as [[c | ] h1].
  - destruct HM as (Hf & -> & E & _). assert (Ho1 : over (ctx_fresh h :: group_ctxs g) h0 h1) by (by eapply over_fresh).
    destruct (mem.1 && mem.2).
    + split; [ | right; split; [done |]; by exists n, (ctx_fresh h)]. eapply over_perm; [ | exact Ho1]. unfold group_ctxs. cbn. rewrite fmap_app, <- app_assoc. cbn.
      by rewrite Permutation_middle.
    + split; [by apply over_free |]. left. split_and!; [done | done |]. apply map_eq. intros x.
      rewrite (ov_map _ _ _ (over_free _ _ _ _ Ho1)), (ov_map _ _ _ Ho). done.
  - destruct HM as [Hf E]. split; [by apply Hsame | by left].
Qed.

Lemma adds_over reqs g h0 h : over (group_ctxs g) h0 h → let '(g', h') := fold_left add_one reqs (g, h) in over (group_ctxs g') h0 h'.
Proof.
  revert g h. induction reqs as [ | [[e mem] [[host cert] key]] reqs IH]; intros g h Ho; [done |]. cbn [fold_left]. unfold add_one at 2. cbn [fst snd].
  pose proof (add_over e mem g host cert key h0 h Ho) as HA. destruct (ctx_add_sni e mem g host cert key h) as [[rc g'] h']. apply IH. apply HA.
Qed.

Lemma ctx_free_over g h0 h : over (group_ctxs g) h0 h → ctxs (ws_tls_ctx_free g h) = ctxs h0.
Proof.
  intros Ho. unfold ws_tls_ctx_free. apply map_eq. intros x.
  assert (E : ∀ l h, fold_left (λ h (hc : list Z * nat), SSL_CTX_free hc.2 h) l h = fold_left (λ h c, SSL_CTX_free c h) l.*2 h)
    by (induction l as [ | y l IH]; intros h'; [done | apply IH]).
  rewrite E. apply over_free_all in Ho. apply over_free in Ho. by rewrite (ov_map _ _ _ Ho).
Qed.

(** *** Connections *)

(** A reference that is taken and given back. *)
Lemma up_free c n h : ctxs h !! c = Some n → 1 <= n → SSL_CTX_free c (ctx_up_ref c h) = h.
Proof.
  intros Hc Hn. unfold SSL_CTX_free, ctx_up_ref. rewrite Hc. cbn. rewrite lookup_insert_eq, (proj2 (Z.leb_gt _ _)) by lia.
  rewrite insert_insert_eq, Z.add_simpl_r. destruct h as [m f]. cbn in *. f_equal. by apply insert_id.
Qed.

(** Two contexts do not disturb each other. *)
Lemma up_free_comm c x h : c ≠ x → SSL_CTX_free c (ctx_up_ref x h) = ctx_up_ref x (SSL_CTX_free c h).
Proof.
  intros Hne. unfold SSL_CTX_free, ctx_up_ref. destruct (ctxs h !! x) as [n | ] eqn:Ex; cbn.
  - rewrite lookup_insert_ne by done. destruct (ctxs h !! c) as [m | ] eqn:Ec; cbn; [ | by rewrite Ex].
    destruct (m <=? 1); cbn.
    + rewrite lookup_delete_ne, Ex by done. by rewrite delete_insert_ne.
    + rewrite lookup_insert_ne, Ex by done. by rewrite insert_insert_ne.
  - destruct (ctxs h !! c) as [m | ] eqn:Ec; cbn; [ | by rewrite Ex]. destruct (m <=? 1); cbn.
    + by rewrite lookup_delete_ne, Ex.
    + by rewrite lookup_insert_ne, Ex.
Qed.

Lemma up_free_all l x h : x ∉ l → fold_left (λ h c, SSL_CTX_free c h) l (ctx_up_ref x h) = ctx_up_ref x (fold_left (λ h c, SSL_CTX_free c h) l h).
Proof.
  revert h. induction l as [ | c l IH]; intros h Hx; [done |]. apply not_elem_of_cons in Hx as [Hc Hx]. cbn. rewrite up_free_comm by done. by apply IH.
Qed.

(** Freeing a group under a connection leaves the context the connection uses. *)
Lemma free_under g h0 h x :
  over (group_ctxs g) h0 h → x ∈ group_ctxs g → over [x] h0 (ws_tls_ctx_free g (ctx_up_ref x h)).
Proof.
  intros Ho Hx.
  assert (E : ∀ h, ws_tls_ctx_free g h = fold_left (λ h c, SSL_CTX_free c h) (group_ctxs g) h).
  { intros h'. unfold ws_tls_ctx_free, group_ctxs. rewrite fold_left_app. cbn. f_equal. revert h'.
    induction (g_certs g) as [ | y l IH]; intros h'; [done | apply IH]. }
  rewrite E. apply list_elem_of_split in Hx as (l1 & l2 & El). rewrite El in *. pose proof (ov_nodup _ _ _ Ho) as HN.
  apply NoDup_app in HN as (_ & HN & _). rewrite fold_left_app. cbn [fold_left].
  rewrite up_free_all by (intros H; apply (HN x H); by left).
  assert (Ho1 : over (x :: l2) h0 (fold_left (λ h c, SSL_CTX_free c h) l1 h)) by (by apply over_free_all).
  rewrite (up_free x 1) by (try lia; by rewrite (ov_map _ _ _ Ho1), decide_True by (by left)).
  apply over_free_all. eapply over_perm; [ | exact Ho1]. apply Permutation_cons_append.
Qed.

(** Certificate contexts have one owner.  Over any requests to add certificates, those
    that fail at any step included, a group owns one context for its default and one for
    each name it has, each with one reference; freeing it gives all of them back and
    nothing else; a group that could not be created leaves nothing; and a connection's own
    reference, moved by SNI to any context of the group, keeps that context and no other
    when the group is freed under it, until the connection is freed. *)
Theorem tls_contexts_owned e mem cert key reqs h0 :
  fresh_ok h0 →
  match ctx_create e mem cert key h0 with
  | (None, h1) => ctxs h1 = ctxs h0
  | (Some g0, h1) =>
      let '(g, h) := fold_left add_one reqs (g0, h1) in
      NoDup (group_ctxs g) ∧ (∀ c, c ∈ group_ctxs g → ctxs h !! c = Some 1 ∧ ctxs h0 !! c = None) ∧
      ctxs (ws_tls_ctx_free g h) = ctxs h0 ∧
      ∀ set_fd c, c ∈ group_ctxs g →
        match ws_tls_conn_new true set_fd g h with
        | (None, h2) => h2 = h
        | (Some ssl, h2) =>
            let '(ssl', h3) := set_ssl_ctx c ssl h2 in
            let h4 := ws_tls_ctx_free g h3 in
            ssl' = c ∧ ctxs h4 = <[c := 1]> (ctxs h0) ∧ ctxs (ws_tls_conn_free (Some ssl') h4) = ctxs h0
        end
  end.
Proof.
  intros Hf. unfold ctx_create. pose proof (make_ctx_spec e cert key h0 Hf) as HM. destruct (make_ctx e cert key h0) as [[d | ] h1]; [ | apply HM].
  destruct HM as (Hf1 & -> & E & _).
  assert (H0 : over [] h0 h0) by (constructor; [done | by intros ? ?%elem_of_nil | constructor | done]).
  assert (Ho : over [ctx_fresh h0] h0 h1) by (by apply (over_fresh (ctx_fresh h0) [] h0 h0 h1)).
  destruct mem; [ | apply map_eq; intros x; by rewrite (ov_map _ _ _ (over_free _ _ _ _ Ho))].
  pose proof (adds_over reqs (mk_group (ctx_fresh h0) []) h0 h1 Ho) as HA. destruct (fold_left add_one reqs _) as [g h].
  split; [apply HA |]. split; [intros c Hc; split; [by rewrite (ov_map _ _ _ HA), decide_True | by apply HA] |].
  split; [by apply ctx_free_over |]. intros set_fd c Hc.
  assert (H1 : ∀ x, x ∈ group_ctxs g → ctxs h !! x = Some 1) by (intros x Hx; by rewrite (ov_map _ _ _ HA), decide_True).
  assert (Hd : g_def g ∈ group_ctxs g) by (unfold group_ctxs; rewrite elem_of_app; right; by left).
  unfold ws_tls_conn_new. cbn [negb]. destruct set_fd; cbn [negb]; [ | by apply (up_free _ 1); [apply H1 | lia]].
  assert (EU : set_ssl_ctx c (g_def g) (ctx_up_ref (g_def g) h) = (c, ctx_up_ref c h)).
  { unfold set_ssl_ctx. case_decide as Hcd; [by subst |]. f_equal.
    rewrite <- (up_free (g_def g) 1 h) at 2 by (try lia; by apply H1). rewrite up_free_comm by done. done. }
  rewrite EU. pose proof (free_under g h0 h c HA Hc) as HU. cbn zeta. split; [done |]. split.
  - apply map_eq. intros x. rewrite (ov_map _ _ _ HU), lookup_insert. repeat case_decide; try done; set_solver.
  - cbn [ws_tls_conn_free]. apply map_eq. intros x. by rewrite (ov_map _ _ _ (over_free _ _ _ _ HU)).
Qed.

(** ** The view of [Tls] *)

(** What [Tls] calls loading is making a context. *)
Definition loading (e : ctx_env) (h : ssl_heap) (cert key : list Z) : option nat := (make_ctx e (Some cert) (Some key) h).1.

Lemma ctx_create_refines e mem cert key h :
  (ctx_create e mem (Some cert) (Some key) h).1 = Tls.ws_tls_ctx_create (loading e h) mem cert key.
Proof. unfold ctx_create, Tls.ws_tls_ctx_create, loading. destruct (make_ctx e (Some cert) (Some key) h) as [[c | ] h1]; [by destruct mem | done]. Qed.

Lemma ctx_add_refines e mem g host cert key h :
  let '(rc, g', _) := ctx_add_sni e mem g (Some host) (Some cert) (Some key) h in
  Tls.ws_tls_ctx_add_sni (loading e h) (mem.1 && mem.2) g (mk_sni host cert key) = if rc =? 0 then Some g' else None.
Proof.
  unfold ctx_add_sni, Tls.ws_tls_ctx_add_sni, loading. cbn [sc_cert sc_key sc_host]. destruct (make_ctx e (Some cert) (Some key) h) as [[c | ] h1]; [ | done].
  by destruct (mem.1 && mem.2).
Qed.

(** A client that offers http/1.1 gets it, and one that offers only other protocols is
    not told anything. *)
Lemma alpn_http11 (select : list Z → list (list Z) → option (list Z)) client :
  (∀ cl, select alpn_protos cl = if bool_decide (bs "http/1.1" ∈ cl) then Some (bs "http/1.1") else None) →
  alpn_cb select client = if bool_decide (bs "http/1.1" ∈ client) then (0, Some (bs "http/1.1")) else (3, None).
Proof. intros Hs. unfold alpn_cb. rewrite Hs. by case_bool_decide. Qed.

Definition all_well : ctx_env := mk_cenv true true true true.
Definition demo_reqs : list add_req :=
  [(all_well, (true, true), (Some (bs "a.test"), Some (bs "a.pem"), Some (bs "a.key")));
   (mk_cenv true true true false, (true, true), (Some (bs "b.test"), Some (bs "b.pem"), Some (bs "b.key")));
   (all_well, (true, false), (Some (bs "c.test"), Some (bs "c.pem"), Some (bs "c.key")));
   (all_well, (true, true), (Some (bs "d.test"), Some (bs "d.pem"), Some (bs "d.key")))].

(** Two of four requests succeed; a connection keeps the context of d.test. *)
Lemma tls_contexts_owned_witness :
  match ctx_create all_well true (Some (bs "x.pem")) (Some (bs "x.key")) (mk_ssl ∅ 0) with
  | (None, _) => False
  | (Some g0, h1) =>
      let '(g, h) := fold_left add_one demo_reqs (g0, h1) in
      group_ctxs g = [1; 4; 0]%nat ∧ ctxs (ws_tls_ctx_free g h) = ∅
  end.
Proof.
  assert (Hf : fresh_ok (mk_ssl ∅ 0)) by (intros c [x Hx]; cbn in Hx; by rewrite lookup_empty in Hx).
  pose proof (tls_contexts_owned all_well true (Some (bs "x.pem")) (Some (bs "x.key")) demo_reqs (mk_ssl ∅ 0) Hf) as H.
  destruct (ctx_create all_well true (Some (bs "x.pem")) (Some (bs "x.key")) (mk_ssl ∅ 0)) as [[g0 | ] h1] eqn:E.
  2: { apply (f_equal fst) in E. vm_compute in E. discriminate E. }
  assert (EG : group_ctxs (fold_left add_one demo_reqs (g0, h1)).1 = [1; 4; 0]%nat).
  { pose proof (f_equal fst E) as E1. pose proof (f_equal snd E) as E2. vm_compute in E1, E2. injection E1 as <-. subst h1. vm_compute. reflexivity. }
  destruct (fold_left add_one demo_reqs (g0, h1)) as [g h]. destruct H as (_ & _ & H & _). by split.
Defined.
