(* ===== verification/Lifecycle.v ===== *)
(** * Starting and stopping (src/src/ws/ws_server.c, ws_event_thread.c)

    What the server and its event threads acquire from the system, and what every path of
    creation, start, stop and destruction gives back: descriptors, memory and threads, by
    name.  The model follows the fields of the two structures, a released pointer that is
    not cleared included, so that what a later clean-up does with it is visible.

    A resource is named by its owner (0 for the server, [i + 1] for event thread [i]) and
    its kind.  [w_bad] lists the releases of what was not held: a second [free], [close] or
    [pthread_join]. *)
From Stdlib Require Import ZArith Lia.
From stdpp Require Import base numbers list.
From S2P Require Import Prelude.
Open Scope Z_scope.

Inductive rkind :=
| KEpoll | KEvents | KWakeup | KQueue | KSmall | KMedium | KLarge | KConns | KFdMap | KFreeStack | KAio | KThread
| KServer | KHash | KThreads | KLoads | KListen | KTls | KStdin.
#[export] Instance rkind_eq_dec : EqDecision rkind.
Proof. solve_decision. Defined.

Definition rname : Type := nat * rkind.

(** The descriptor 0 of the process, which the server does not own. *)
Definition stdin : rname := (0%nat, KStdin).

Record world := mk_world { w_live : rname → bool; w_bad : list rname; w_lost : list rname }.

Definition upd (f : rname → bool) (r : rname) (b : bool) : rname → bool := λ x, if decide (x = r) then b else f x.
Definition acquire (r : rname) (w : world) : world :=
  mk_world (upd (w_live w) r true) (w_bad w) (if w_live w r then w_lost w ++ [r] else w_lost w).
Definition release (r : rname) (w : world) : world :=
  mk_world (upd (w_live w) r false) (if w_live w r then w_bad w else w_bad w ++ [r]) (w_lost w).
Definition release_all (rs : list rname) (w : world) : world := fold_left (λ w r, release r w) rs w.

(** A descriptor field: as [calloc] left it, closed, or open. *)
Inductive fdv := FdZero | FdNone | FdOpen.

(** The fields of [ws_event_thread_t] that own something; a pointer or thread field is
    true when it is not 0.  [tr_conn_fds] are the [fd] fields of the slots. *)
Record trec := mk_trec {
  tr_epoll : fdv; tr_events : bool; tr_wakeup : fdv; tr_queue : bool;
  tr_small : bool; tr_medium : bool; tr_large : bool;
  tr_conns : bool; tr_fdmap : bool; tr_free : bool; tr_aio : bool; tr_thread : bool;
  tr_conn_fds : list Z
}.
Definition trec_zero : trec := mk_trec FdZero false FdZero false false false false false false false false false [].

Definition WS_OK : Z := 0.
Definition WS_ERROR_INVALID_ARGS : Z := -1.
Definition WS_ERROR_MEMORY : Z := -2.
Definition WS_ERROR_SOCKET : Z := -3.
Definition WS_ERROR_PROTOCOL : Z := -4.
Definition NO_FD : Z := 2 ^ 32 - 1.

(** What the calls of [ws_init_event_thread] return; a buffer pool fails when its count is
    below 4 or [mmap] fails. *)
Record init_env := mk_ienv {
  i_epoll : bool; i_events : bool; i_wakeup : bool; i_epoll_add : bool; i_queue : bool;
  i_small : bool; i_medium : bool; i_large : bool; i_conns : bool; i_fdmap : bool; i_free : bool;
  i_uring : bool; i_pool : bool; i_aio_add : bool
}.

(** The optional asynchronous I/O at the end of the initialisation: io_uring, else the
    thread pool, registered with epoll or given up. *)
Definition init_aio (e : init_env) (n : nat) (w : world) : bool * world :=
  if i_uring e || i_pool e then
    let w1 := acquire (n, KAio) w in
    if i_aio_add e then (true, w1) else (false, release (n, KAio) w1)
  else (false, w).

(** [ws_init_event_thread] for thread [n]. *)
Definition ws_init_event_thread (e : init_env) (n : nat) (max_connections : nat) (t : trec) (w : world) : Z * trec * world :=
  if (max_connections =? 0)%nat then (WS_ERROR_INVALID_ARGS, t, w)
  else if negb (i_epoll e) then
    (WS_ERROR_SOCKET, mk_trec FdNone (tr_events t) (tr_wakeup t) (tr_queue t) (tr_small t) (tr_medium t) (tr_large t)
       (tr_conns t) (tr_fdmap t) (tr_free t) (tr_aio t) (tr_thread t) (tr_conn_fds t), w)
  else
    let w1 := acquire (n, KEpoll) w in
    let fds := tr_conn_fds t in
    if negb (i_events e) then
      (WS_ERROR_MEMORY, mk_trec FdOpen false (tr_wakeup t) (tr_queue t) (tr_small t) (tr_medium t) (tr_large t)
         (tr_conns t) (tr_fdmap t) (tr_free t) (tr_aio t) (tr_thread t) fds, release_all [(n, KEpoll)] w1)
    else
      let w2 := acquire (n, KEvents) w1 in
      if negb (i_wakeup e) then
        (WS_ERROR_SOCKET, mk_trec FdOpen true FdNone (tr_queue t) (tr_small t) (tr_medium t) (tr_large t)
           (tr_conns t) (tr_fdmap t) (tr_free t) (tr_aio t) (tr_thread t) fds, release_all [(n, KEvents); (n, KEpoll)] w2)
      else
        let w3 := acquire (n, KWakeup) w2 in
        let base := [(n, KWakeup); (n, KEvents); (n, KEpoll)] in
        let rec q s m l c f := mk_trec FdOpen true FdOpen q s m l c f (tr_free t) (tr_aio t) (tr_thread t) fds in
        if negb (i_epoll_add e) then
          (WS_ERROR_SOCKET, rec (tr_queue t) (tr_small t) (tr_medium t) (tr_large t) (tr_conns t) (tr_fdmap t), release_all base w3)
        else if negb (i_queue e) then
          (WS_ERROR_MEMORY, rec false (tr_small t) (tr_medium t) (tr_large t) (tr_conns t) (tr_fdmap t), release_all base w3)
        else
          let w4 := acquire (n, KQueue) w3 in
          let base := (n, KQueue) :: base in
          if negb (i_small e) then
            (-1, rec true false (tr_medium t) (tr_large t) (tr_conns t) (tr_fdmap t), release_all base w4)
          else
            let w5 := acquire (n, KSmall) w4 in
            if negb (i_medium e) then
              (-1, rec true false false (tr_large t) (tr_conns t) (tr_fdmap t), release_all ((n, KSmall) :: base) w5)
            else
              let w6 := acquire (n, KMedium) w5 in
              if negb (i_large e) then
                (-1, rec true false false false (tr_conns t) (tr_fdmap t), release_all ((n, KMedium) :: (n, KSmall) :: base) w6)
              else
                let w7 := acquire (n, KLarge) w6 in
                let base := (n, KLarge) :: (n, KMedium) :: (n, KSmall) :: base in
                if negb (i_conns e) then
                  (WS_ERROR_MEMORY, rec true false false false false (tr_fdmap t), release_all base w7)
                else
                  let w8 := acquire (n, KConns) w7 in
                  if negb (i_fdmap e) then
                    (WS_ERROR_MEMORY, rec true false false false true false, release_all ((n, KConns) :: base) w8)
                  else
                    let w9 := acquire (n, KFdMap) w8 in
                    if negb (i_free e) then
                      (WS_ERROR_MEMORY, mk_trec FdOpen true FdOpen true false false false true true false (tr_aio t) (tr_thread t) fds,
                       release_all ((n, KConns) :: base) w9)
                    else
                      let '(aio, w10) := init_aio e n (acquire (n, KFreeStack) w9) in
                      (WS_OK, mk_trec FdOpen true FdOpen true true true true true true true aio (tr_thread t)
                                (replicate max_connections NO_FD), w10).

(** [close] of a descriptor field, if it is not negative. *)
Definition close_fd (v : fdv) (r : rname) (w : world) : world :=
  match v with FdZero => release stdin w | FdNone => w | FdOpen => release r w end.
Definition free_ptr (b : bool) (r : rname) (w : world) : world := if b then release r w else w.

(** The loop over the slots: [fd] is unsigned, so every slot is closed; descriptor
    [2 ^ 32 - 1] is [close(-1)].  Descriptors of connections are not followed here. *)
Definition close_slots (fds : list Z) (w : world) : world :=
  fold_left (λ w f, if f =? 0 then release stdin w else w) fds w.

(** [ws_cleanup_event_thread]. *)
Definition ws_cleanup_event_thread (n : nat) (t : trec) (w : world) : trec * world :=
  let w1 := free_ptr (tr_thread t) (n, KThread) w in
  let w2 := free_ptr (tr_queue t) (n, KQueue) w1 in
  let w3 := if tr_conns t then release (n, KConns) (close_slots (tr_conn_fds t) w2) else w2 in
  let w4 := free_ptr (tr_free t) (n, KFreeStack) w3 in
  let w5 := free_ptr (tr_fdmap t) (n, KFdMap) w4 in
  let w6 := free_ptr (tr_small t) (n, KSmall) (free_ptr (tr_medium t) (n, KMedium) (free_ptr (tr_large t) (n, KLarge) w5)) in
  let w7 := free_ptr (tr_aio t) (n, KAio) w6 in
  let w8 := close_fd (tr_epoll t) (n, KEpoll) (close_fd (tr_wakeup t) (n, KWakeup) w7) in
  let w9 := free_ptr (tr_events t) (n, KEvents) w8 in
  (mk_trec FdNone false FdNone false false false false false false false false false [], w9).

(** ** The server *)

(** [ws_server_internal_t]: the fields that own something; [sv_acceptor] is the acceptor
    thread, [sv_threads] the array. *)
Record srv := mk_srv {
  sv_running : bool; sv_listen : fdv; sv_hash : bool; sv_array : bool; sv_threads : list trec; sv_loads : bool;
  sv_tls : bool; sv_acceptor : bool
}.

Definition set_running (s : srv) v := mk_srv v (sv_listen s) (sv_hash s) (sv_array s) (sv_threads s) (sv_loads s) (sv_tls s) (sv_acceptor s).
Definition set_ts (s : srv) v := mk_srv (sv_running s) (sv_listen s) (sv_hash s) (sv_array s) v (sv_loads s) (sv_tls s) (sv_acceptor s).
Definition set_acceptor (s : srv) v := mk_srv (sv_running s) (sv_listen s) (sv_hash s) (sv_array s) (sv_threads s) (sv_loads s) (sv_tls s) v.

(** [ws_create_listening_socket]: the socket, and its set-up (non-blocking, bind,
    listen). *)
Definition ws_create_listening_socket (socket_ok setup_ok : bool) (w : world) : bool * world :=
  if negb socket_ok then (false, w)
  else
    let w1 := acquire (0%nat, KListen) w in
    if setup_ok then (true, w1) else (false, release (0%nat, KListen) w1).

(** What the calls of [ws_server_create] return; [c_tls]: no TLS, or TLS with whether it is
    available, the default certificate loads and every SNI certificate loads. *)
Record create_env := mk_cenv {
  c_port : Z; c_server : bool; c_hash : bool; c_array : bool; c_loads : bool; c_socket : bool; c_setup : bool;
  c_tls : option (bool * bool * bool)
}.

Definition ws_server_create (e : create_env) (thread_count : nat) (w : world) : option srv * world :=
  if c_port e =? 0 then (None, w)
  else if (thread_count =? 0)%nat then (None, w)
  else if negb (c_server e) then (None, w)
  else
    let w1 := acquire (0%nat, KServer) w in
    if negb (c_hash e) then (None, release (0%nat, KServer) w1)
    else
      let w2 := acquire (0%nat, KHash) w1 in
      if negb (c_array e) then (None, release_all [(0%nat, KHash); (0%nat, KServer)] w2)
      else
        let w3 := acquire (0%nat, KThreads) w2 in
        if negb (c_loads e) then (None, release_all [(0%nat, KThreads); (0%nat, KHash); (0%nat, KServer)] w3)
        else
          let w4 := acquire (0%nat, KLoads) w3 in
          let base := [(0%nat, KLoads); (0%nat, KThreads); (0%nat, KHash); (0%nat, KServer)] in
          let '(ok, w5) := ws_create_listening_socket (c_socket e) (c_setup e) w4 in
          if negb ok then (None, release_all base w5)
          else
            let base := (0%nat, KListen) :: base in
            let server tls := mk_srv false FdOpen true true (replicate thread_count trec_zero) true tls false in
            match c_tls e with
            | None => (Some (server false), w5)
            | Some (available, default_ok, sni_ok) =>
                if negb available then (None, release_all base w5)
                else if negb default_ok then (None, release_all base w5)
                else
                  let w6 := acquire (0%nat, KTls) w5 in
                  if negb sni_ok then (None, release_all ((0%nat, KTls) :: base) w6)
                  else (Some (server true), w6)
            end.

(** ** Start *)

(** Clean up the threads numbered from [n]. *)
Fixpoint cleanup_threads (n : nat) (ts : list trec) (w : world) : list trec * world :=
  match ts with
  | [] => ([], w)
  | t :: r =>
      let '(t', w1) := ws_cleanup_event_thread n t w in
      let '(r', w2) := cleanup_threads (S n) r w1 in
      (t' :: r', w2)
  end.

(** The initialisation loop: the threads before the first failure are initialised. *)
Fixpoint init_threads (es : nat → init_env) (max_connections n : nat) (ts : list trec) (w : world) : option Z * nat * list trec * world :=
  match ts with
  | [] => (None, O, [], w)
  | t :: r =>
      let '(rc, t', w1) := ws_init_event_thread (es n) n max_connections t w in
      if negb (rc =? WS_OK) then (Some rc, O, t' :: r, w1)
      else
        let '(res, done, r', w2) := init_threads es max_connections (S n) r w1 in
        (res, S done, t' :: r', w2)
  end.

Definition set_thread (t : trec) v := mk_trec (tr_epoll t) (tr_events t) (tr_wakeup t) (tr_queue t) (tr_small t) (tr_medium t) (tr_large t)
  (tr_conns t) (tr_fdmap t) (tr_free t) (tr_aio t) v (tr_conn_fds t).

(** The creation loop: [pc n] is whether [pthread_create] succeeds for thread [n]; the
    threads started, and whether all were. *)
Fixpoint create_threads (pc : nat → bool) (n : nat) (ts : list trec) (w : world) : bool * nat * list trec * world :=
  match ts with
  | [] => (true, O, [], w)
  | t :: r =>
      if negb (pc n) then (false, O, t :: r, w)
      else
        let '(ok, k, r', w1) := create_threads pc (S n) r (acquire (n, KThread) w) in
        (ok, S k, set_thread t true :: r', w1)
  end.

(** [pthread_join] of threads [n ..], without clearing the field. *)
Fixpoint join_threads (n count : nat) (w : world) : world :=
  match count with O => w | S k => join_threads (S n) k (release (n, KThread) w) end.

(** [ws_server_start]: [max_total] is [max_connections_total]. *)
Definition ws_server_start (es : nat → init_env) (pc : nat → bool) (acceptor_ok : bool) (max_total : nat) (s : srv) (w : world) : Z * srv * world :=
  if sv_running s then (WS_ERROR_PROTOCOL, s, w)
  else
    let per := let q := (max_total / length (sv_threads s))%nat in if (q =? 0)%nat then 1%nat else q in
    let '(res, done, ts, w1) := init_threads es per 1 (sv_threads s) w in
    match res with
    | Some rc =>
        let '(cl, w2) := cleanup_threads 1 (take done ts) w1 in
        (rc, set_running (set_ts s (cl ++ drop done ts)) false, w2)
    | None =>
        let '(ok, k, ts2, w2) := create_threads pc 1 ts w1 in
        if negb ok then
          let '(cl, w3) := cleanup_threads 1 ts2 (join_threads 1 k w2) in
          (WS_ERROR_SOCKET, set_running (set_ts s cl) false, w3)
        else if negb acceptor_ok then
          let '(cl, w3) := cleanup_threads 1 ts2 (join_threads 1 (length ts2) w2) in
          (WS_ERROR_SOCKET, set_running (set_ts s cl) false, w3)
        else (WS_OK, set_running (set_acceptor (set_ts s ts2) true) true, acquire (0%nat, KThread) w2)
    end.

(** ** Stop and destroy *)

(** Join the threads that are set, and clear the field. *)
Fixpoint join_set (n : nat) (ts : list trec) (w : world) : list trec * world :=
  match ts with
  | [] => ([], w)
  | t :: r =>
      let w1 := free_ptr (tr_thread t) (n, KThread) w in
      let '(r', w2) := join_set (S n) r w1 in
      (set_thread t false :: r', w2)
  end.

Definition ws_server_stop (s : srv) (w : world) : Z * srv * world :=
  if negb (sv_running s) then (WS_ERROR_INVALID_ARGS, s, w)
  else
    let w1 := free_ptr (sv_acceptor s) (0%nat, KThread) w in
    let '(ts, w2) := join_set 1 (sv_threads s) w1 in
    (WS_OK, set_running (set_acceptor (set_ts s ts) false) false, w2).

Definition ws_server_wait (s : srv) (w : world) : Z * srv * world :=
  let '(ts, w1) := join_set 1 (sv_threads s) w in
  let w2 := free_ptr (sv_acceptor s) (0%nat, KThread) w1 in
  let '(ts2, w3) := cleanup_threads 1 ts w2 in
  (WS_OK, set_acceptor (set_ts s ts2) false, w3).

(** [ws_server_destroy]; a retired TLS group is part of [KTls] here (see Tls). *)
Definition ws_server_destroy (s : srv) (w : world) : world :=
  let '(_, s1, w1) := if sv_running s then ws_server_stop s w else (WS_OK, s, w) in
  let w2 := close_fd (sv_listen s1) (0%nat, KListen) w1 in
  let w3 := free_ptr (sv_tls s1) (0%nat, KTls) w2 in
  let w4 := free_ptr (sv_hash s1) (0%nat, KHash) w3 in
  let w5 := if sv_array s1 then release (0%nat, KThreads) (snd (cleanup_threads 1 (sv_threads s1) w4)) else w4 in
  let w6 := free_ptr (sv_loads s1) (0%nat, KLoads) w5 in
  release (0%nat, KServer) w6.

(** ** Ownership *)

Lemma upd_eq f r b : upd f r b r = b.
Proof. unfold upd. by rewrite decide_True. Qed.
Lemma upd_ne f r b x : x ≠ r → upd f r b x = f x.
Proof. intros. unfold upd. by rewrite decide_False. Qed.

(** Evaluate lookups after updates of named resources. *)
Ltac wsimp :=
  repeat first [ rewrite upd_eq | rewrite upd_ne by congruence ].

Definition fd_open (v : fdv) : bool := match v with FdOpen => true | _ => false end.

(** The resource a field of the structure owns. *)
Definition holds (t : trec) (k : rkind) : bool :=
  match k with
  | KEpoll => fd_open (tr_epoll t) | KWakeup => fd_open (tr_wakeup t) | KEvents => tr_events t | KQueue => tr_queue t
  | KSmall => tr_small t | KMedium => tr_medium t | KLarge => tr_large t | KConns => tr_conns t | KFdMap => tr_fdmap t
  | KFreeStack => tr_free t | KAio => tr_aio t | KThread => tr_thread t
  | _ => false
  end.

(** Thread [n]'s structure tells exactly what is held for it. *)
Definition owns (w : world) (n : nat) (t : trec) : Prop := ∀ k, w_live w (n, k) = holds t k.

(** Nothing was released twice or lost, and others' resources are untouched. *)
Definition sound (n : nat) (w w' : world) : Prop :=
  w_bad w' = w_bad w ∧ w_lost w' = w_lost w ∧ ∀ m k, m ≠ n → w_live w' (m, k) = w_live w (m, k).

#[export] Instance sound_preorder n : PreOrder (sound n).
Proof.
  split; [by intros w |]. intros a b c (H1 & H2 & H3) (K1 & K2 & K3). split_and!; [congruence | congruence |].
  intros m k Hm. rewrite K3, H3; done.
Qed.

Lemma acquire_sound n k w : w_live w (n, k) = false → sound n w (acquire (n, k) w).
Proof.
  intros H. unfold acquire. split_and!; cbn; [done | by rewrite H |]. intros m k' Hm. wsimp. done.
Qed.
Lemma release_sound n k w : w_live w (n, k) = true → sound n w (release (n, k) w).
Proof.
  intros H. unfold release. split_and!; cbn; [by rewrite H | done |]. intros m k' Hm. wsimp. done.
Qed.
Lemma free_sound n k b w : w_live w (n, k) = b → sound n w (free_ptr b (n, k) w).
Proof. intros H. destruct b; [by apply release_sound | done]. Qed.
Lemma free_live n k b w k' :
  w_live w (n, k) = b → w_live (free_ptr b (n, k) w) (n, k') = if decide (k' = k) then false else w_live w (n, k').
Proof.
  intros H. destruct b; cbn; case_decide as Hk; [subst; by wsimp | by wsimp | by subst | done].
Qed.

Lemma init_aio_spec e n w aio w' :
  init_aio e n w = (aio, w') → w_live w (n, KAio) = false →
  sound n w w' ∧ ∀ k, w_live w' (n, k) = if decide (k = KAio) then aio else w_live w (n, k).
Proof.
  unfold init_aio. intros E H. destruct (i_uring e || i_pool e); [destruct (i_aio_add e) | ]; injection E as <- <-.
  - split; [by apply acquire_sound |]. intros k. cbn. case_decide; [subst; by wsimp | by wsimp].
  - split.
    + transitivity (acquire (n, KAio) w); [by apply acquire_sound |]. apply release_sound. cbn. by wsimp.
    + intros k. cbn. case_decide; [subst; by wsimp | by wsimp].
  - split; [done |]. intros k. case_decide; [by subst | done].
Qed.

(** A successful initialisation owns what the structure says. *)
Lemma init_ok_owns e n m t w t' w' :
  (∀ k, w_live w (n, k) = false) → tr_thread t = false →
  ws_init_event_thread e n m t w = (WS_OK, t', w') →
  sound n w w' ∧ owns w' n t' ∧ tr_conn_fds t' = replicate m NO_FD ∧ tr_epoll t' = FdOpen ∧ tr_wakeup t' = FdOpen ∧ tr_thread t' = false.
Proof.
  intros Hn Ht. unfold ws_init_event_thread. destruct (m =? 0)%nat; [by intros [=] |].
  destruct (i_epoll e); cbn [negb]; [ | by intros [=]]. destruct (i_events e); cbn [negb]; [ | by intros [=]].
  destruct (i_wakeup e); cbn [negb]; [ | by intros [=]]. destruct (i_epoll_add e); cbn [negb]; [ | by intros [=]].
  destruct (i_queue e); cbn [negb]; [ | by intros [=]]. destruct (i_small e); cbn [negb]; [ | by intros [=]].
  destruct (i_medium e); cbn [negb]; [ | by intros [=]]. destruct (i_large e); cbn [negb]; [ | by intros [=]].
  destruct (i_conns e); cbn [negb]; [ | by intros [=]]. destruct (i_fdmap e); cbn [negb]; [ | by intros [=]].
  destruct (i_free e); cbn [negb]; [ | by intros [=]].
  set (w9 := acquire (n, KFreeStack) _). destruct (init_aio e n w9) as [aio w10] eqn:EA. intros [= <- <-].
  assert (Hs : sound n w w9).
  { subst w9. repeat (etransitivity; [ | apply acquire_sound; cbn; wsimp; apply Hn ]). reflexivity. }
  apply init_aio_spec in EA as [Hs2 Hl]; [ | subst w9; cbn; wsimp; apply Hn].
  split; [by transitivity w9 |]. split; [ | done]. intros k. rewrite Hl.
  subst w9. destruct k; cbn; wsimp; try done; try apply Hn. by rewrite Hn, Ht.
Qed.

(** Cleaning up gives everything back, once. *)
Lemma close_slots_unused fds w : Forall (λ f, f ≠ 0) fds → close_slots fds w = w.
Proof.
  unfold close_slots. revert w. induction fds as [ | f fds IH]; intros w HF; [done |]. apply Forall_cons in HF as [H HF]. cbn.
  rewrite (proj2 (Z.eqb_neq f 0)) by done. by apply IH.
Qed.

(** A sequence of conditional releases of distinct fields. *)
Definition free_many (n : nat) (l : list (bool * rkind)) (w : world) : world := fold_left (λ w p, free_ptr p.1 (n, p.2) w) l w.

Lemma free_many_spec n l w :
  NoDup l.*2 → Forall (λ p, w_live w (n, p.2) = p.1) l →
  sound n w (free_many n l w) ∧ ∀ k, w_live (free_many n l w) (n, k) = if decide (k ∈ l.*2) then false else w_live w (n, k).
Proof.
  revert w. induction l as [ | [b k0] l IH]; intros w HN HF; [by split |].
  apply NoDup_cons in HN as [Hni HN]. apply Forall_cons in HF as [H0 HF]. cbn in Hni, HN, H0. cbn [free_many fold_left fst snd].
  destruct (IH (free_ptr b (n, k0) w) HN) as [IS IL].
  { apply Forall_forall. intros p Hp. rewrite Forall_forall in HF. specialize (HF p Hp). rewrite free_live by done.
    rewrite decide_False; [done |]. intros Heq. apply Hni. rewrite <- Heq. by apply list_elem_of_fmap_2. }
  split; [transitivity (free_ptr b (n, k0) w); [by apply free_sound | exact IS] |].
  intros k. unfold free_many in IL. rewrite IL, free_live by done. cbn [fmap list_fmap snd].
  destruct (decide (k = k0)) as [-> | Hk].
  - rewrite (decide_True (P := k0 ∈ k0 :: _)) by left. by case_decide.
  - destruct (decide (k ∈ l.*2)) as [Hin | Hin].
    + rewrite decide_True; [done | by right].
    + rewrite decide_False; [done |]. by apply not_elem_of_cons.
Qed.

(** The fields in the order of [ws_cleanup_event_thread]. *)
Definition cleanup_order (t : trec) : list (bool * rkind) :=
  [(tr_thread t, KThread); (tr_queue t, KQueue); (tr_conns t, KConns); (tr_free t, KFreeStack); (tr_fdmap t, KFdMap);
   (tr_large t, KLarge); (tr_medium t, KMedium); (tr_small t, KSmall); (tr_aio t, KAio);
   (fd_open (tr_wakeup t), KWakeup); (fd_open (tr_epoll t), KEpoll); (tr_events t, KEvents)].

Definition trec_clean : trec := mk_trec FdNone false FdNone false false false false false false false false false [].

Lemma cleanup_owned n t w :
  owns w n t → tr_epoll t ≠ FdZero → tr_wakeup t ≠ FdZero → Forall (λ f, f ≠ 0) (tr_conn_fds t) →
  ∃ w', ws_cleanup_event_thread n t w = (trec_clean, w') ∧ sound n w w' ∧ owns w' n trec_clean.
Proof.
  intros Ho He Hw HF. exists (free_many n (cleanup_order t) w). split.
  - unfold ws_cleanup_event_thread. rewrite close_slots_unused by done.
    assert (Ef : ∀ v k w2, v ≠ FdZero → close_fd v (n, k) w2 = free_ptr (fd_open v) (n, k) w2) by (by intros []). by rewrite !Ef by done.
  - destruct (free_many_spec n (cleanup_order t) w) as [HS HL].
    + cbn. repeat constructor; rewrite ?elem_of_cons, ?elem_of_nil; intuition discriminate.
    + unfold cleanup_order. repeat (apply List.Forall_cons; [apply Ho |]). apply List.Forall_nil.
    + split; [done |]. intros k. rewrite HL. case_decide as Hk; [by destruct k |].
      rewrite Ho. destruct k; cbn; try done; exfalso; apply Hk; cbn; rewrite ?elem_of_cons; tauto.
Qed.

(** ** All threads of the server *)

(** The same for the owners [n .. n + len - 1]. *)
Definition within (n len : nat) (w w' : world) : Prop :=
  w_bad w' = w_bad w ∧ w_lost w' = w_lost w ∧ ∀ m k, ¬ (n <= m < n + len)%nat → w_live w' (m, k) = w_live w (m, k).

Lemma within_cons n len w w1 w2 : sound n w w1 → within (S n) len w1 w2 → within n (S len) w w2.
Proof.
  intros (H1 & H2 & H3) (K1 & K2 & K3). split_and!; [congruence | congruence |]. intros m k Hm. rewrite K3, H3; [done | lia | lia].
Qed.
Lemma within_trans n len a b c : within n len a b → within n len b c → within n len a c.
Proof.
  intros (H1 & H2 & H3) (K1 & K2 & K3). split_and!; [congruence | congruence |]. intros m k Hm. by rewrite K3, H3.
Qed.

Definition owns_all (w : world) (n : nat) (ts : list trec) : Prop := ∀ i t, ts !! i = Some t → owns w (n + i) t.
Definition ready (t : trec) : Prop := tr_epoll t ≠ FdZero ∧ tr_wakeup t ≠ FdZero ∧ Forall (λ f, f ≠ 0) (tr_conn_fds t).

Lemma owns_all_cons w n t ts : owns_all w n (t :: ts) ↔ owns w n t ∧ owns_all w (S n) ts.
Proof.
  split.
  - intros H. split; [specialize (H 0%nat t eq_refl); by rewrite Nat.add_0_r in H |].
    intros i x Hx. specialize (H (S i) x Hx). by rewrite Nat.add_succ_r in H.
  - intros [H0 H] [ | i] x Hx; [injection Hx as <-; by rewrite Nat.add_0_r |]. rewrite Nat.add_succ_r. by apply (H i).
Qed.

(** What one owner does leaves the others' ownership. *)
Lemma owns_all_sound w w' n m ts : sound n w w' → (n < m)%nat → owns_all w m ts → owns_all w' m ts.
Proof. intros (_ & _ & H) Hm Ho i t Hi k. rewrite H by lia. by apply Ho. Qed.
Lemma owns_within w w' n len m t : within n len w w' → (m < n)%nat → owns w m t → owns w' m t.
Proof. intros (_ & _ & H) Hm Ho k. rewrite H by lia. by apply Ho. Qed.

Lemma cleanup_threads_owned n ts w :
  owns_all w n ts → Forall ready ts →
  ∃ w', cleanup_threads n ts w = (replicate (length ts) trec_clean, w') ∧ within n (length ts) w w' ∧
        owns_all w' n (replicate (length ts) trec_clean).
Proof.
  revert n w. induction ts as [ | t ts IH]; intros n w Ho HR; [exists w; by split_and! |].
  apply owns_all_cons in Ho as [H0 Ho]. apply Forall_cons in HR as [(R1 & R2 & R3) HR].
  destruct (cleanup_owned n t w H0 R1 R2 R3) as (w1 & E1 & S1 & O1).
  destruct (IH (S n) w1) as (w2 & E2 & S2 & O2); [by eapply owns_all_sound; [ | | exact Ho]; [exact S1 | lia] | done |].
  exists w2. cbn [cleanup_threads length replicate]. rewrite E1, E2. split_and!; [done | by eapply within_cons |].
  apply owns_all_cons. split; [ | exact O2]. eapply owns_within; [exact S2 | lia | exact O1].
Qed.

Lemma init_threads_ok es m n ts w done ts' w' :
  owns_all w n ts → Forall (λ t, t = trec_zero) ts →
  init_threads es m n ts w = (None, done, ts', w') →
  within n (length ts) w w' ∧ owns_all w' n ts' ∧ Forall ready ts' ∧ Forall (λ t, tr_thread t = false) ts' ∧ length ts' = length ts.
Proof.
  revert n w done ts' w'. induction ts as [ | t ts IH]; intros n w done ts' w' Ho HZ; cbn [init_threads length]; [by intros [= <- <- <-] |].
  apply owns_all_cons in Ho as [H0 Ho]. apply Forall_cons in HZ as [-> HZ].
  destruct (ws_init_event_thread (es n) n m trec_zero w) as [[rc t1] w1] eqn:E1.
  destruct (Z.eqb_spec rc WS_OK) as [-> | ]; cbn [negb]; [ | done].
  apply init_ok_owns in E1 as (S1 & O1 & F1 & P1 & P2 & P3); [ | intros k; rewrite H0; by destruct k | done].
  destruct (init_threads es m (S n) ts w1) as [[[res d] r'] w2] eqn:E2. intros [= -> <- <- <-].
  apply IH in E2 as (W2 & O2 & R2 & T2 & L2); [ | by eapply owns_all_sound; [ | | exact Ho]; [exact S1 | lia] | done].
  split_and!; [by eapply within_cons | | | by constructor | cbn; congruence].
  - apply owns_all_cons. split; [ | done]. eapply owns_within; [exact W2 | lia | exact O1].
  - constructor; [ | done]. split_and!; [by rewrite P1 | by rewrite P2 |]. rewrite F1. apply Forall_replicate. done.
Qed.

(** Starting or joining a thread changes what its structure owns by that thread. *)
Lemma start_owns w n t : owns w n t → tr_thread t = false → sound n w (acquire (n, KThread) w) ∧ owns (acquire (n, KThread) w) n (set_thread t true).
Proof.
  intros Ho Ht. split; [apply acquire_sound; rewrite Ho; exact Ht |]. intros k. cbn.
  destruct (decide (k = KThread)) as [-> | Hk]; [by wsimp |]. rewrite upd_ne by congruence. rewrite Ho. by destruct k.
Qed.
Lemma join_owns w n t : owns w n t →
  sound n w (free_ptr (tr_thread t) (n, KThread) w) ∧ owns (free_ptr (tr_thread t) (n, KThread) w) n (set_thread t false).
Proof.
  intros Ho. split; [apply free_sound, Ho |]. intros k. rewrite free_live by apply Ho.
  case_decide as Hk; [by subst |]. rewrite Ho. by destruct k.
Qed.

Lemma create_threads_ok pc n ts w k ts' w' :
  owns_all w n ts → Forall ready ts → Forall (λ t, tr_thread t = false) ts →
  create_threads pc n ts w = (true, k, ts', w') →
  within n (length ts) w w' ∧ owns_all w' n ts' ∧ Forall ready ts' ∧ length ts' = length ts.
Proof.
  revert n w k ts' w'. induction ts as [ | t ts IH]; intros n w k ts' w' Ho HR HT; cbn [create_threads length]; [by intros [= <- <- <-] |].
  apply owns_all_cons in Ho as [H0 Ho]. apply Forall_cons in HR as [R HR]. apply Forall_cons in HT as [T HT].
  destruct (pc n); cbn [negb]; [ | done]. destruct (start_owns w n t H0 T) as [S1 O1].
  destruct (create_threads pc (S n) ts (acquire (n, KThread) w)) as [[[ok j] r'] w2] eqn:E2. intros [= -> <- <- <-].
  apply IH in E2 as (W2 & O2 & R2 & L2); [ | by eapply owns_all_sound; [ | | exact Ho]; [exact S1 | lia] | done | done].
  split_and!; [by eapply within_cons | | by constructor | cbn; congruence].
  apply owns_all_cons. split; [ | done]. eapply owns_within; [exact W2 | lia | exact O1].
Qed.

Lemma join_set_ok n ts w :
  owns_all w n ts → Forall ready ts →
  ∃ ts' w', join_set n ts w = (ts', w') ∧ within n (length ts) w w' ∧ owns_all w' n ts' ∧ Forall ready ts' ∧ length ts' = length ts.
Proof.
  revert n w. induction ts as [ | t ts IH]; intros n w Ho HR; [by exists [], w |].
  apply owns_all_cons in Ho as [H0 Ho]. apply Forall_cons in HR as [R HR]. destruct (join_owns w n t H0) as [S1 O1].
  destruct (IH (S n) (free_ptr (tr_thread t) (n, KThread) w)) as (r' & w2 & E2 & W2 & O2 & R2 & L2);
    [by eapply owns_all_sound; [ | | exact Ho]; [exact S1 | lia] | done |].
  exists (set_thread t false :: r'), w2. cbn [join_set length]. rewrite E2. split_and!; [done | by eapply within_cons | | by constructor | cbn; congruence].
  apply owns_all_cons. split; [ | done]. eapply owns_within; [exact W2 | lia | exact O1].
Qed.

(** ** The life of a server *)

(** Before the server there is only the process's own descriptor. *)
Definition fresh_world (w : world) : Prop := ∀ r, w_live w r = bool_decide (r = stdin).

Definition same_world (w w' : world) : Prop := (∀ r, w_live w' r = w_live w r) ∧ w_bad w' = w_bad w ∧ w_lost w' = w_lost w.

(** The effect of acquisitions and releases of the server's own resources. *)
Ltac create_done H0 :=
  intros [= <-]; (split_and!; [ | cbn; wsimp; rewrite ?H0; done | cbn; wsimp; rewrite ?H0; done]);
  intros [[ | m] k]; cbn; [destruct k; wsimp; rewrite ?H0; done | by wsimp].

(** A creation that fails, whichever call fails, has given everything back, once. *)
Theorem failed_create_releases e n w w' :
  fresh_world w → ws_server_create e n w = (None, w') → same_world w w'.
Proof.
  intros HF. pose proof (λ k, HF (0%nat, k)) as H0. unfold ws_server_create, ws_create_listening_socket.
  destruct (c_port e =? 0); [by intros [= <-] |]. destruct (n =? 0)%nat; [by intros [= <-] |].
  destruct (c_server e); cbn [negb]; [ | by intros [= <-]].
  destruct (c_hash e); cbn [negb]; [ | create_done H0]. destruct (c_array e); cbn [negb]; [ | create_done H0].
  destruct (c_loads e); cbn [negb]; [ | create_done H0]. destruct (c_socket e); cbn [negb]; [ | create_done H0].
  destruct (c_setup e); cbn [negb]; [ | create_done H0].
  destruct (c_tls e) as [[[available default_ok] sni_ok] | ]; [ | by intros [=]].
  destruct available; cbn [negb]; [ | create_done H0]. destruct default_ok; cbn [negb]; [ | create_done H0].
  destruct sni_ok; cbn [negb]; [by intros [=] | create_done H0].
Qed.

(** What the server's own structure owns. *)
Definition srv_holds (s : srv) (k : rkind) : bool :=
  match k with
  | KServer => true | KHash => sv_hash s | KThreads => sv_array s | KLoads => sv_loads s | KListen => fd_open (sv_listen s)
  | KTls => sv_tls s | KThread => sv_acceptor s | KStdin => true
  | _ => false
  end.

(** A server in order, in a world that had no faults before it. *)
Record srv_ok (w0 w : world) (s : srv) : Prop := mk_srv_ok {
  so_own : ∀ k, w_live w (0%nat, k) = srv_holds s k;
  so_threads : owns_all w 1 (sv_threads s);
  so_beyond : ∀ m k, (length (sv_threads s) < m)%nat → w_live w (m, k) = false;
  so_listen : sv_listen s = FdOpen;
  so_array : sv_array s = true;
  so_bad : w_bad w = w_bad w0;
  so_lost : w_lost w = w_lost w0
}.

Lemma owns_all_within0 w w' n ts : sound 0 w w' → (0 < n)%nat → owns_all w n ts → owns_all w' n ts.
Proof. intros H Hn. by eapply owns_all_sound. Qed.

(** Releasing the acceptor thread and the event threads. *)
Lemma join_all_ok w0 w s ts' w' :
  srv_ok w0 w s → Forall ready (sv_threads s) →
  join_set 1 (sv_threads s) (free_ptr (sv_acceptor s) (0%nat, KThread) w) = (ts', w') →
  srv_ok w0 w' (set_running (set_acceptor (set_ts s ts') false) false) ∧ Forall ready ts'.
Proof.
  intros [S1 S2 S3 S4 S5 S6 S7] HR E.
  assert (Sd : sound 0 w (free_ptr (sv_acceptor s) (0%nat, KThread) w)) by (apply free_sound, S1).
  destruct (join_set_ok 1 (sv_threads s) (free_ptr (sv_acceptor s) (0%nat, KThread) w)) as (ts2 & w2 & E2 & (B1 & B2 & B3) & O2 & R2 & L2);
    [by eapply owns_all_within0; [exact Sd | lia |] | done |].
  rewrite E in E2. injection E2 as <- <-. split; [ | done]. destruct Sd as (D1 & D2 & D3).
  constructor; cbn; [ | exact O2 | | done | done | congruence | congruence].
  - intros k. rewrite B3 by lia. rewrite free_live by apply S1. case_decide as Hk; [by subst |]. rewrite S1. by destruct k.
  - intros m k Hm. rewrite B3 by lia. rewrite D3 by lia. apply S3. lia.
Qed.

Lemma stop_ok w0 w s rc s' w' :
  srv_ok w0 w s → Forall ready (sv_threads s) → ws_server_stop s w = (rc, s', w') →
  srv_ok w0 w' s' ∧ Forall ready (sv_threads s') ∧ (sv_running s = true → sv_acceptor s' = false).
Proof.
  intros HS HR. unfold ws_server_stop. destruct (sv_running s); cbn [negb]; [ | by intros [= <- <- <-]].
  destruct (join_set 1 (sv_threads s) (free_ptr (sv_acceptor s) (0%nat, KThread) w)) as [ts w2] eqn:E. intros [= <- <- <-].
  by destruct (join_all_ok _ _ _ _ _ HS HR E).
Qed.

(** Destruction of a stopped server. *)
Lemma destroy_stopped w0 w s :
  fresh_world w0 → srv_ok w0 w s → Forall ready (sv_threads s) → sv_running s = false → sv_acceptor s = false →
  same_world w0 (ws_server_destroy s w).
Proof.
  intros HF [S1 S2 S3 S4 S5 S6 S7] HR Hrun Hacc. unfold ws_server_destroy. rewrite Hrun, S4, S5. cbn [close_fd].
  pose (l1 := [(true, KListen); (sv_tls s, KTls); (sv_hash s, KHash)]).
  pose (l2 := [(true, KThreads); (sv_loads s, KLoads); (true, KServer)]).
  destruct (free_many_spec 0 l1 w) as [P1 L1].
  { cbn. repeat constructor; rewrite ?elem_of_cons, ?elem_of_nil; intuition discriminate. }
  { unfold l1. repeat (apply List.Forall_cons; [rewrite S1; cbn; by rewrite ?S4 |]). apply List.Forall_nil. }
  change (free_ptr (sv_hash s) (0%nat, KHash) _) with (free_many 0 l1 w).
  destruct (cleanup_threads_owned 1 (sv_threads s) (free_many 0 l1 w)) as (w2 & E2 & (B1 & B2 & B3) & O2);
    [by eapply owns_all_within0; [exact P1 | lia |] | done |].
  rewrite E2. cbn [snd]. destruct P1 as (D1 & D2 & D3).
  destruct (free_many_spec 0 l2 w2) as [(F1 & F2 & F3) L2].
  { cbn. repeat constructor; rewrite ?elem_of_cons, ?elem_of_nil; intuition discriminate. }
  { unfold l2. repeat (apply List.Forall_cons; [cbn [fst snd]; rewrite B3, L1, S1 by lia; cbn; by rewrite ?S5 |]). apply List.Forall_nil. }
  change (release (0%nat, KServer) _) with (free_many 0 l2 w2).
  split_and!; [ | congruence | congruence]. intros [[ | m] k]; rewrite HF.
  - rewrite L2, B3, L1, S1 by lia. destruct k; cbn; by rewrite ?Hacc.
  - rewrite F3 by lia. destruct (decide (m < length (sv_threads s))%nat) as [Hm | Hm].
    + rewrite (O2 m trec_clean) by (by apply lookup_replicate_2). by destruct k.
    + rewrite B3, D3 by lia. rewrite S3 by lia. done.
Qed.

Lemma create_ok e n w s w' :
  fresh_world w → ws_server_create e n w = (Some s, w') →
  srv_ok w w' s ∧ Forall (λ t, t = trec_zero) (sv_threads s) ∧ sv_running s = false ∧ sv_acceptor s = false ∧ sv_threads s ≠ [].
Proof.
  intros HF. pose proof (λ k, HF (0%nat, k)) as H0. unfold ws_server_create, ws_create_listening_socket.
  destruct (c_port e =? 0); [done |]. destruct (n =? 0)%nat eqn:En; [done |]. apply Nat.eqb_neq in En.
  destruct (c_server e), (c_hash e), (c_array e), (c_loads e), (c_socket e), (c_setup e), (c_tls e) as [[[[] []] []] | ]; cbn [negb]; try done;
    intros [= <- <-]; (split_and!; [ | cbn; by apply Forall_replicate | done | done | by destruct n]);
    (constructor;
     [ intros k; destruct k; cbn; wsimp; rewrite ?H0; done
     | intros i t Hi k; apply lookup_replicate in Hi as [-> _]; change (1 + i)%nat with (S i); cbn; wsimp; rewrite HF; by destruct k
     | intros [ | m] k Hm; [lia | cbn; wsimp; by rewrite HF]
     | done | done | cbn; wsimp; rewrite ?H0; done | cbn; wsimp; rewrite ?H0; done ]).
Qed.

Lemma init_threads_err es m n ts w rc d ts' w' : init_threads es m n ts w = (Some rc, d, ts', w') → rc ≠ WS_OK.
Proof.
  revert n w d ts' w'. induction ts as [ | t l IH]; intros n w d ts' w'; cbn [init_threads]; [done |].
  destruct (ws_init_event_thread (es n) n m t w) as [[rc0 t'] w2]. destruct (Z.eqb_spec rc0 WS_OK); cbn [negb]; [ | by intros [= <- _ _ _]].
  destruct (init_threads es m (S n) l w2) as [[[res d'] r'] w3] eqn:E. intros [= -> _ _ _]. by apply IH in E.
Qed.

Lemma start_ok es pc ac mx w0 w s s' w' :
  srv_ok w0 w s → Forall (λ t, t = trec_zero) (sv_threads s) → sv_acceptor s = false →
  ws_server_start es pc ac mx s w = (WS_OK, s', w') →
  srv_ok w0 w' s' ∧ Forall ready (sv_threads s') ∧ sv_running s' = true ∧ sv_acceptor s' = true.
Proof.
  intros [S1 S2 S3 S4 S5 S6 S7] HZ Ha. unfold ws_server_start. destruct (sv_running s); [done |].
  set (per := if ((mx / length (sv_threads s)) =? 0)%nat then 1%nat else _).
  destruct (init_threads es per 1 (sv_threads s) w) as [[[res d] ts] w1] eqn:E1. destruct res as [rc | ].
  { destruct (cleanup_threads 1 (take d ts) w1) as [cl w2]. intros [= -> <- <-].
    by apply init_threads_err in E1. }
  apply init_threads_ok in E1 as ((A1 & A2 & A3) & O1 & R1 & T1 & L1); [ | done | done].
  destruct (create_threads pc 1 ts w1) as [[[ok k] ts2] w2] eqn:E2. destruct ok; cbn [negb]; [ | by destruct (cleanup_threads _ _ _) as [? ?]].
  apply create_threads_ok in E2 as ((B1 & B2 & B3) & O2 & R2 & L2); [ | done | done | done].
  destruct ac; cbn [negb]; [ | by destruct (cleanup_threads _ _ _) as [? ?]]. intros [= <- <-].
  assert (Hk : w_live w2 (0%nat, KThread) = false) by (rewrite B3, A3, S1 by lia; exact Ha).
  pose proof (acquire_sound 0 KThread w2 Hk) as HC. pose proof HC as (C1 & C2 & C3).
  split_and!; [ | done | done | done]. constructor; cbn [sv_threads set_running set_acceptor set_ts sv_listen sv_array]; try done; try congruence.
  - intros j. cbn. destruct (decide (j = KThread)) as [-> | Hj]; [by wsimp |]. rewrite upd_ne by congruence. rewrite B3, A3, S1 by lia. by destruct j.
  - intros m j Hm. rewrite C3, B3, A3 by lia. apply S3. lia.
Qed.


(** The call that allocates the free stack is reached, and fails. *)
Definition free_stack_fails (e : init_env) : bool :=
  i_epoll e && i_events e && i_wakeup e && i_epoll_add e && i_queue e && i_small e && i_medium e && i_large e && i_conns e &&
  i_fdmap e && negb (i_free e).

(** The effect on thread [n] of acquisitions and releases that were all evaluated. *)
Ltac branch_done Hn :=
  intros [= <- <- <-];
  split; [split_and!; [cbn; wsimp; rewrite ?Hn; done | cbn; wsimp; rewrite ?Hn; done | intros j k Hj; cbn; wsimp; done] | ];
  intros k; rewrite ?andb_false_r; destruct k; cbn; wsimp; rewrite ?Hn; done.

(** A thread initialisation that fails, whichever call fails, has released everything
    it acquired, once, with one exception: when the free stack cannot be allocated the
    descriptor map is not freed. *)
Theorem failed_init_releases e n m t w rc t' w' :
  (∀ k, w_live w (n, k) = false) → rc ≠ WS_OK → m ≠ 0%nat → ws_init_event_thread e n m t w = (rc, t', w') →
  sound n w w' ∧ ∀ k, w_live w' (n, k) = free_stack_fails e && bool_decide (k = KFdMap).
Proof.
  intros Hn Hrc Hm. unfold ws_init_event_thread, free_stack_fails. rewrite (proj2 (Nat.eqb_neq m 0)) by done.
  destruct (i_epoll e); cbn [negb andb]; [ | branch_done Hn]. destruct (i_events e); cbn [negb andb]; [ | branch_done Hn].
  destruct (i_wakeup e); cbn [negb andb]; [ | branch_done Hn]. destruct (i_epoll_add e); cbn [negb andb]; [ | branch_done Hn].
  destruct (i_queue e); cbn [negb andb]; [ | branch_done Hn]. destruct (i_small e); cbn [negb andb]; [ | branch_done Hn].
  destruct (i_medium e); cbn [negb andb]; [ | branch_done Hn]. destruct (i_large e); cbn [negb andb]; [ | branch_done Hn].
  destruct (i_conns e); cbn [negb andb]; [ | branch_done Hn]. destruct (i_fdmap e); cbn [negb andb]; [ | branch_done Hn].
  destruct (i_free e); cbn [negb andb]; [ | branch_done Hn].
  destruct (init_aio e n _). intros [= <- _ _]. done.
Qed.

(** ** Witnesses *)

Definition demo_world : world := mk_world (λ r, bool_decide (r = stdin)) [] [].
Lemma demo_fresh : fresh_world demo_world.
Proof. by intros r. Qed.
Definition all_good : init_env := mk_ienv true true true true true true true true true true true true true true.
Definition demo_create : create_env := mk_cenv 443 true true true true true true (Some (true, true, true)).
Definition demo_srv : srv := default (mk_srv false FdZero false false [] false false false) (fst (ws_server_create demo_create 2 demo_world)).
Definition demo_w1 : world := snd (ws_server_create demo_create 2 demo_world).
Definition demo_started : Z * srv * world := ws_server_start (λ _, all_good) (λ _, true) true 10 demo_srv demo_w1.

Lemma failed_create_releases_witness :
  same_world demo_world (snd (ws_server_create (mk_cenv 443 true true true true true true (Some (true, true, false))) 2 demo_world)).
Proof.
  apply (failed_create_releases (mk_cenv 443 true true true true true true (Some (true, true, false))) 2 demo_world); [exact demo_fresh | reflexivity].
Defined.


Definition no_free_stack : init_env := mk_ienv true true true true true true true true true true false true true true.

Lemma failed_init_releases_witness :
  w_live (snd (ws_init_event_thread no_free_stack 1 5 trec_zero demo_world)) (1%nat, KFdMap) = true ∧
  sound 1 demo_world (snd (ws_init_event_thread no_free_stack 1 5 trec_zero demo_world)).
Proof.
  split; [reflexivity |].
  refine (proj1 (failed_init_releases no_free_stack 1 5 trec_zero demo_world WS_ERROR_MEMORY _ _ _ _ _ eq_refl)).
  - intros k. by destruct k.
  - discriminate.
  - discriminate.
Defined.

(** ** What goes wrong

    A thread that failed to initialise keeps the pointers it has freed, and destroying the
    server cleans up every thread: the second of two threads fails at its last step, and
    the queue, the slots, the events and the descriptors are released a second time. *)
Example failed_start_releases_twice :
  let '(rc, s, w) := ws_server_start (λ n, if (n =? 2)%nat then no_free_stack else all_good) (λ _, true) true 10 demo_srv demo_w1 in
  rc = WS_ERROR_MEMORY ∧
  w_bad (ws_server_destroy s w) = [(2%nat, KQueue); (2%nat, KConns); (2%nat, KWakeup); (2%nat, KEpoll); (2%nat, KEvents)].
Proof. split; reflexivity. Qed.

(** A start that fails after threads were created joins them twice. *)
Example failed_start_joins_twice :
  let '(rc, s, w) := ws_server_start (λ _, all_good) (λ n, (n =? 1)%nat) true 10 demo_srv demo_w1 in
  rc = WS_ERROR_SOCKET ∧ w_bad w = [(1%nat, KThread)].
Proof. split; reflexivity. Qed.

(** A server that is destroyed without having been started closes descriptor 0, and closes
    it again for each further descriptor field. *)
Example destroy_unstarted_closes_stdin :
  w_live (ws_server_destroy demo_srv demo_w1) stdin = false ∧ w_bad (ws_server_destroy demo_srv demo_w1) = [stdin; stdin; stdin].
Proof. split; reflexivity. Qed.

(** A slot that was used and wiped has descriptor 0, and cleaning the thread up closes it. *)
Example cleanup_closes_descriptor_0 :
  let '(rc, t, w) := ws_init_event_thread all_good 1 2 trec_zero demo_world in
  w_live (snd (ws_cleanup_event_thread 1 (mk_trec (tr_epoll t) (tr_events t) (tr_wakeup t) (tr_queue t) (tr_small t) (tr_medium t)
    (tr_large t) (tr_conns t) (tr_fdmap t) (tr_free t) (tr_aio t) (tr_thread t) [0; NO_FD]) w)) stdin = false.
Proof. reflexivity. Qed.
