(* ===== verification/Api.v ===== *)
(** * The public interface (src/src/ws/wslib.c)

    The functions an application links against check their arguments and pass the call on
    to the internals (Server, Lifecycle).  A pointer is an [option]; [None] is NULL. *)
From Stdlib Require Import ZArith Lia.
From stdpp Require Import base numbers list strings gmap.
From S2P Require Import Prelude Conn WsHandler HttpConn Thread Server Tls Lifecycle.
Open Scope Z_scope.

(** A call on a server that must not be NULL: [bad] is the wrapper's own refusal. *)
Definition guarded {S A} (s : option S) (refuse : bool) (bad : A) (f : S → A * S) : A * option S :=
  match s with
  | None => (bad, None)
  | Some x => if refuse then (bad, Some x) else let '(a, x') := f x in (a, Some x')
  end.

(** ** Connections *)

Definition null_payload (data : option (list Z)) (len : Z) : bool := bool_decide (data = None) && (0 <? len).

Definition ws_send_text (ok : bool) (s : option server) (fd : Z) (data : option (list Z)) (len : Z) : Z * option server :=
  guarded s ((fd <? 0) || null_payload data len) (-1) (λ x, Server.ws_send_text ok x fd data len).
Definition ws_send_binary (ok : bool) (s : option server) (fd : Z) (data : option (list Z)) (len : Z) : Z * option server :=
  guarded s ((fd <? 0) || null_payload data len) (-1) (λ x, Server.ws_send_binary ok x fd data len).
Definition ws_send_ping (ok : bool) (heap : list Z) (s : option server) (fd : Z) (data : option (list Z)) (len : Z) : Z * option server :=
  guarded s ((fd <? 0) || (125 <? len)) (-1) (λ x, Server.ws_send_ping ok heap x fd data len).
Definition ws_send_pong (ok : bool) (heap : list Z) (s : option server) (fd : Z) (data : option (list Z)) (len : Z) : Z * option server :=
  guarded s ((fd <? 0) || (125 <? len)) (-1) (λ x, Server.ws_send_pong ok heap x fd data len).
Definition ws_close_connection (ok : bool) (s : option server) (fd code : Z) (reason : list Z) : Z * option server :=
  guarded s (fd <? 0) (-1) (λ x, Server.ws_close_connection ok x fd code reason).
Definition ws_get_connection_state (s : option server) (fd : Z) : Z :=
  match s with
  | None => WS_STATE_CLOSED
  | Some x => if fd <? 0 then WS_STATE_CLOSED else Server.ws_get_connection_state x fd
  end.
Definition ws_set_connection_user_data (s : option server) (fd v : Z) : Z * option server :=
  guarded s (fd <? 0) (-1) (λ x, Server.ws_set_connection_user_data x fd v).
Definition ws_get_connection_user_data (s : option server) (fd : Z) : Z :=
  match s with None => 0 | Some x => if fd <? 0 then 0 else Server.ws_get_connection_user_data x fd end.

(** The statistics, where [stats] says whether there is a structure to fill. *)
Definition ws_get_server_stats (s : option server) (stats : bool) (c : counters) : Z * option ws_server_stats :=
  match s with
  | Some x => if stats then (WS_OK, Some (Server.ws_get_server_stats x c)) else (-1, None)
  | None => (-1, None)
  end.
Definition ws_print_server_stats (s : option server) (c : counters) : list (string * Z) :=
  match s with Some x => Server.ws_print_server_stats x c | None => [] end.
Definition ws_get_version : list Z := bs "WSLib 1.0.0-dev".

(** ** The server *)

(** [ws_server_create]: no configuration, or port 0, is refused before anything else. *)
Definition ws_server_create (config : option create_env) (thread_count : nat) (w : world) : option srv * world :=
  match config with
  | None => (None, w)
  | Some e => if c_port e =? 0 then (None, w) else Lifecycle.ws_server_create e thread_count w
  end.
Definition ws_server_destroy (s : option srv) (w : world) : world :=
  match s with None => w | Some x => Lifecycle.ws_server_destroy x w end.

(** Calls that return a code and act on the server and on what it holds. *)
Definition guarded_srv (s : option srv) (refuse : bool) (w : world) (f : srv → world → Z * srv * world) : Z * option srv * world :=
  match s with
  | None => (-1, None, w)
  | Some x => if refuse then (-1, Some x, w) else let '(rc, x', w') := f x w in (rc, Some x', w')
  end.
Definition ws_server_start (callbacks : bool) (es : nat → init_env) (pc : nat → bool) (acceptor_ok : bool) (max_total : nat)
    (s : option srv) (w : world) : Z * option srv * world :=
  guarded_srv s (negb callbacks) w (Lifecycle.ws_server_start es pc acceptor_ok max_total).
Definition ws_server_stop (s : option srv) (w : world) : Z * option srv * world := guarded_srv s false w Lifecycle.ws_server_stop.
Definition ws_server_wait (s : option srv) (w : world) : Z * option srv * world := guarded_srv s false w Lifecycle.ws_server_wait.

(** Certificates of a running listener; a certificate is refused if its host or one of its
    files is NULL. *)
Definition ws_server_reload_tls {C} (load : list Z → list Z → option C) (mem : nat → bool) (s : option (tls_server C))
    : Z * option (tls_server C) :=
  guarded s false (-1) (Tls.ws_server_reload_tls load mem).
Definition ws_server_add_sni_cert {C} (load : list Z → list Z → option C) (mem : nat → bool) (am : add_mem)
    (s : option (tls_server C)) (hostname cert_file key_file : option (list Z)) : Z * option (tls_server C) :=
  match hostname, cert_file, key_file with
  | Some h, Some c, Some k => guarded s false (-1) (λ x, Tls.ws_server_add_sni_cert load mem am x (mk_sni h c k))
  | _, _, _ => (-1, s)
  end.

(** ** What the layer adds *)

Lemma guarded_same {S A} (x : S) (refuse : bool) (bad : A) f :
  (refuse = true → f x = (bad, x)) → guarded (Some x) refuse bad f = (let '(a, x') := f x in (a, Some x')).
Proof. intros H. unfold guarded. destruct refuse; [ | done]. by rewrite H. Qed.

(** The internals refuse what the wrappers refuse, with the same code, so on a server the
    interface is the internals, and on NULL it fails and touches nothing. *)
Theorem interface_transparent ok heap fd data len code reason v (s : server) :
  let lift (r : Z * server) := (r.1, Some r.2) in
  ws_send_text ok (Some s) fd data len = lift (Server.ws_send_text ok s fd data len) ∧
  ws_send_binary ok (Some s) fd data len = lift (Server.ws_send_binary ok s fd data len) ∧
  ws_send_ping ok heap (Some s) fd data len = lift (Server.ws_send_ping ok heap s fd data len) ∧
  ws_send_pong ok heap (Some s) fd data len = lift (Server.ws_send_pong ok heap s fd data len) ∧
  ws_close_connection ok (Some s) fd code reason = lift (Server.ws_close_connection ok s fd code reason) ∧
  ws_set_connection_user_data (Some s) fd v = lift (Server.ws_set_connection_user_data s fd v) ∧
  ws_get_connection_state (Some s) fd = Server.ws_get_connection_state s fd ∧
  ws_get_connection_user_data (Some s) fd = Server.ws_get_connection_user_data s fd.
Proof.
  intros lift.
  assert (HG : ∀ (refuse : bool) f, (refuse = true → f s = (-1, s)) → guarded (Some s) refuse (-1) f = lift (f s)).
  { intros refuse f H. rewrite guarded_same by done. unfold lift. by destruct (f s). }
  unfold ws_send_text, ws_send_binary, ws_send_ping, ws_send_pong, ws_close_connection, ws_set_connection_user_data, null_payload.
  split_and!; try apply HG.
  - unfold Server.ws_send_text. by intros ->.
  - unfold Server.ws_send_binary. by intros ->.
  - unfold Server.ws_send_ping. intros [-> | H]%orb_true_iff; [done |]. rewrite H. by destruct (fd <? 0).
  - unfold Server.ws_send_pong. intros [-> | H]%orb_true_iff; [done |]. rewrite H. by destruct (fd <? 0).
  - unfold Server.ws_close_connection. by intros ->.
  - unfold Server.ws_set_connection_user_data. by intros ->.
  - unfold ws_get_connection_state, Server.ws_get_connection_state, find_connection. by destruct (fd <? 0).
  - unfold ws_get_connection_user_data, Server.ws_get_connection_user_data, find_connection. by destruct (fd <? 0).
Qed.

(** Creation through the interface is the internal creation. *)
Lemma create_transparent e n w : ws_server_create (Some e) n w = Lifecycle.ws_server_create e n w.
Proof. unfold ws_server_create, Lifecycle.ws_server_create. by destruct (c_port e =? 0). Qed.
