(* ===== verification/Net.v ===== *)
(** * Sockets and addresses (src/src/ws/ws_utils.c, ws_connection.c, ws_server.c)

    The wrappers of the socket calls and what the acceptor does with them to each accepted
    descriptor; the text of an address and the client address the application asks for;
    event counters, affinity and alignment. *)
From Stdlib Require Import ZArith Lia.
From stdpp Require Import base numbers list strings gmap.
From S2P Require Import Prelude Cstr Sys Conn ConnHash WsHandler HttpRequest HttpResponse HttpConn Thread Server.
Open Scope Z_scope.

(** ** Socket options *)

Inductive sockopt := SO_REUSEADDR | SO_REUSEPORT | SO_KEEPALIVE | TCP_NODELAY.
#[export] Instance sockopt_eq_dec : EqDecision sockopt.
Proof. solve_decision. Defined.

(** A socket as these calls see it: O_NONBLOCK, the other status flags, its options. *)
Record sock := mk_sock { so_nonblock : bool; so_flags : Z; so_opt : sockopt → Z }.

(** [setsockopt], which may fail. *)
Definition setsockopt (ok : bool) (o : sockopt) (v : Z) (s : sock) : Z * sock :=
  if ok then (0, mk_sock (so_nonblock s) (so_flags s) (λ o', if decide (o' = o) then v else so_opt s o')) else (-1, s).

(** [F_GETFL] and then [F_SETFL] with the flag added; each may fail. *)
Definition ws_set_socket_nonblocking (get_ok set_ok : bool) (s : sock) : Z * sock :=
  if negb get_ok then (-1, s) else if set_ok then (0, mk_sock true (so_flags s) (so_opt s)) else (-1, s).
Definition ws_set_socket_reuseaddr (ok enable : bool) (s : sock) : Z * sock := setsockopt ok SO_REUSEADDR (b2z enable) s.
Definition ws_set_socket_reuseport (ok enable : bool) (s : sock) : Z * sock := setsockopt ok SO_REUSEPORT (b2z enable) s.
Definition ws_set_socket_nodelay (ok enable : bool) (s : sock) : Z * sock := setsockopt ok TCP_NODELAY (b2z enable) s.
Definition ws_set_socket_keepalive (ok enable : bool) (s : sock) : Z * sock := setsockopt ok SO_KEEPALIVE (b2z enable) s.

(** [ws_get_socket_error]; [pending] is SO_ERROR, [None] if [getsockopt] fails. *)
Definition ws_get_socket_error (fd : Z) (pending : option Z) : Z :=
  if fd <? 0 then -1 else match pending with None => -1 | Some e => e end.

(** What the acceptor does to a descriptor before it chooses a thread: [false] closes it. *)
Definition set_up_accepted (nodelay keepalive get_ok set_ok nodelay_ok keepalive_ok : bool) (s : sock) : bool * sock :=
  let '(rc, s1) := ws_set_socket_nonblocking get_ok set_ok s in
  if rc <? 0 then (false, s1)
  else
    let s2 := if nodelay then (ws_set_socket_nodelay nodelay_ok true s1).2 else s1 in
    (true, if keepalive then (ws_set_socket_keepalive keepalive_ok true s2).2 else s2).

(** A descriptor that reaches a thread is non-blocking, whatever fails; the options that
    are configured are set unless the call fails, and nothing else is touched. *)
Theorem accepted_nonblocking nodelay keepalive g st n k s s' :
  set_up_accepted nodelay keepalive g st n k s = (true, s') →
  so_nonblock s' = true ∧ so_flags s' = so_flags s ∧
  so_opt s' TCP_NODELAY = (if nodelay && n then 1 else so_opt s TCP_NODELAY) ∧
  so_opt s' SO_KEEPALIVE = (if keepalive && k then 1 else so_opt s SO_KEEPALIVE) ∧
  so_opt s' SO_REUSEADDR = so_opt s SO_REUSEADDR ∧ so_opt s' SO_REUSEPORT = so_opt s SO_REUSEPORT.
Proof. destruct g, st, nodelay, n, keepalive, k; cbn; intros [= <-]; done. Qed.

(** ** The text of an address *)

(** A [sockaddr]: address and port in host order; [inet_ntop] is a parameter. *)
Inductive sockaddr := SaInet (addr port : Z) | SaInet6 (addr port : Z) | SaOther.

Definition INET_ADDRSTRLEN : Z := 16.

Section Text.
Context (ntop4 ntop6 : Z → list Z).

(** [inet_ntop] fails when the text and its NUL do not fit. *)
Definition inet_ntop (text : list Z) (size : Z) : option (list Z) := if zlen text <? size then Some text else None.

(** [ws_sockaddr_ip]: what is in [out] afterwards. *)
Definition ws_sockaddr_ip (sa : sockaddr) (out : list Z) (out_len : Z) : list Z :=
  if out_len =? 0 then out
  else match sa with
       | SaInet a _ => default [] (inet_ntop (ntop4 a) out_len)
       | SaInet6 a _ => default [] (inet_ntop (ntop6 a) out_len)
       | SaOther => []
       end.

(** [snprintf] into [size] bytes. *)
Definition snprintf_text (size : Z) (t : list Z) : list Z := ztake (size - 1) t.

Definition ws_sockaddr_to_string (sa : sockaddr) (size : Z) : option (list Z) :=
  if size =? 0 then None
  else match sa with
       | SaInet a p =>
           (λ ip, snprintf_text size (ip ++ 58 :: dec_string p)) <$> inet_ntop (ntop4 a) INET_ADDRSTRLEN
       | SaInet6 a p =>
           (λ ip, snprintf_text size (91 :: ip ++ 93 :: 58 :: dec_string p)) <$> inet_ntop (ntop6 a) INET6_ADDRSTRLEN
       | SaOther => None
       end.

(** What [inet_ntop] is documented to write: dotted digits for IPv4, no bracket for IPv6,
    different texts for different addresses, within the sizes of the two constants. *)
Definition ntop_ok : Prop :=
  (∀ a, (58 ∉ ntop4 a) ∧ (91 ∉ ntop4 a) ∧ 0 < zlen (ntop4 a) < INET_ADDRSTRLEN) ∧
  (∀ a, (93 ∉ ntop6 a) ∧ zlen (ntop6 a) < INET6_ADDRSTRLEN) ∧
  (∀ a b, ntop4 a = ntop4 b → a = b) ∧ (∀ a b, ntop6 a = ntop6 b → a = b).
Context (Hntop : ntop_ok).

Definition sa_port (sa : sockaddr) : Z := match sa with SaInet _ p | SaInet6 _ p => p | SaOther => 0 end.

Lemma dec_string_inj p q : 0 <= p < 2 ^ 16 → 0 <= q < 2 ^ 16 → dec_string p = dec_string q → p = q.
Proof. intros Hp Hq H. rewrite <- (dec_string_value p), <- (dec_string_value q), H by lia. done. Qed.

(** Two texts cut at the first [c]. *)
Lemma cut_inj (c : Z) l1 l2 r1 r2 : c ∉ l1 → c ∉ l2 → l1 ++ c :: r1 = l2 ++ c :: r2 → l1 = l2 ∧ r1 = r2.
Proof.
  revert l2. induction l1 as [ | x l1 IH]; intros [ | y l2] H1 H2 H; cbn in H.
  - by injection H as ->.
  - injection H as -> _. exfalso. apply H2. apply elem_of_cons. by left.
  - injection H as <- _. exfalso. apply H1. apply elem_of_cons. by left.
  - injection H as -> H. apply not_elem_of_cons in H1 as [_ H1], H2 as [_ H2]. apply IH in H as [-> ->]; done.
Qed.

(** With 72 bytes of room nothing is cut off, and the text determines the address: family,
    address and port. *)
Theorem sockaddr_text_injective sa sb size t :
  72 <= size → 0 <= sa_port sa < 2 ^ 16 → 0 <= sa_port sb < 2 ^ 16 →
  ws_sockaddr_to_string sa size = Some t → ws_sockaddr_to_string sb size = Some t → sa = sb ∧ zlen t < size.
Proof.
  intros Hsz Ha Hb. unfold ws_sockaddr_to_string. rewrite (proj2 (Z.eqb_neq size 0)) by lia.
  destruct Hntop as (H4 & H6 & I4 & I6).
  assert (Hfull : ∀ l, zlen l < 72 → snprintf_text size l = l) by (intros l Hl; apply ztake_ge; lia).
  assert (Hlen : ∀ p, zlen (dec_string p) <= 21) by apply dec_string_len.
  assert (E4 : ∀ a p, snprintf_text size (ntop4 a ++ 58 :: dec_string p) = ntop4 a ++ 58 :: dec_string p ∧
                      zlen (ntop4 a ++ 58 :: dec_string p) < 72).
  { intros a p. assert (zlen (ntop4 a ++ 58 :: dec_string p) < 72); [ | split; [by apply Hfull | done]].
    rewrite zlen_app, zlen_cons. specialize (Hlen p). destruct (H4 a) as (_ & _ & ?). unfold INET_ADDRSTRLEN in *. lia. }
  assert (E6 : ∀ a p, snprintf_text size (91 :: ntop6 a ++ 93 :: 58 :: dec_string p) = 91 :: ntop6 a ++ 93 :: 58 :: dec_string p ∧
                      zlen (91 :: ntop6 a ++ 93 :: 58 :: dec_string p) < 72).
  { intros a p. assert (zlen (91 :: ntop6 a ++ 93 :: 58 :: dec_string p) < 72); [ | split; [by apply Hfull | done]].
    rewrite zlen_cons, zlen_app, !zlen_cons. specialize (Hlen p). destruct (H6 a) as (_ & ?). unfold INET6_ADDRSTRLEN in *. lia. }
  assert (E46 : ∀ a p b q, ntop4 a ++ 58 :: dec_string p ≠ 91 :: ntop6 b ++ 93 :: 58 :: dec_string q).
  { intros a p b q H. destruct (H4 a) as (_ & Hn & Hl). destruct (ntop4 a) as [ | x l]; [unfold zlen in Hl; cbn in Hl; lia |].
    cbn in H. injection H as -> _. apply Hn. apply elem_of_cons. by left. }
  unfold inet_ntop. destruct sa as [a p | a p | ], sb as [b q | b q | ]; cbn in Ha, Hb; try done;
    repeat (destruct (_ <? _); [ | done]); cbn [fmap option_fmap option_map];
    rewrite ?(proj1 (E4 _ _)), ?(proj1 (E6 _ _)).
  - intros [= <-] [= H]. pose proof (proj2 (E4 a p)). split; [ | lia].
    apply cut_inj in H as [H1 H2]; [ | apply H4 | apply H4]. apply I4 in H1 as ->. apply dec_string_inj in H2; congruence || done.
  - intros [= <-] [= H]. by apply eq_sym, E46 in H.
  - intros [= <-] [= H]. by apply E46 in H.
  - intros [= <-] [= H]. pose proof (proj2 (E6 a p)). split; [ | lia].
    apply cut_inj in H as [H1 H2]; [ | apply H6 | apply H6]. injection H2 as H2. apply I6 in H1 as ->.
    apply dec_string_inj in H2; congruence || done.
Qed.
End Text.

(** ** The client address *)

(** [ws_conn_peer_ip] for the peer address kept in the slot, whose text is a parameter as
    in HttpConn. *)
Definition ws_conn_peer_ip (text : Z → list Z) (c : ws_connection) (out_len : Z) : list Z :=
  default [] (inet_ntop (text (client_addr c)) out_len).

(** [portico_client_ip]: what it returns, what is in [out], and the server; the slot is
    read under a reference. *)
Definition portico_client_ip (text : Z → list Z) (s : server) (fd out_len : Z) (out : list Z) : Z * list Z * server :=
  if (fd <? 0) || (out_len =? 0) then (-1, out, s)
  else match find_connection s fd with
       | None => (-1, [], s)
       | Some ki =>
           let s1 := take_ref ki s in
           let ip := match conn_at s1 ki with Some w => ws_conn_peer_ip text (h_conn w) out_len | None => [] end in
           (0, ip, drop_ref ki s1)
       end.

(** Asking changes nothing, and the answer with its NUL fits the caller's buffer. *)
Theorem client_ip_reads_only text s fd out_len out :
  (∀ ki, ref_ok s ki) → 0 <= out_len → zlen out < out_len ∨ out_len = 0 →
  let '(_, out', s') := portico_client_ip text s fd out_len out in s' = s ∧ (zlen out' < out_len ∨ out_len = 0).
Proof.
  intros Hr Hl Ho. unfold portico_client_ip. destruct ((fd <? 0) || (out_len =? 0)) eqn:EG; [done |].
  apply orb_false_iff in EG as [_ EG]. zbool.
  destruct (find_connection s fd) as [ki | ]; [ | split; [done | left; unfold zlen; cbn; lia]].
  rewrite refs_cancel by apply Hr. split; [done |]. left.
  destruct (conn_at _ ki) as [w | ]; [ | unfold zlen; cbn; lia]. unfold ws_conn_peer_ip, inet_ntop.
  destruct (Z.ltb_spec (zlen (text (client_addr (h_conn w)))) out_len); cbn; [done | unfold zlen; cbn; lia].
Qed.

(** ** Event counters, affinity, alignment *)

(** [write] and [read] of the 8-byte counter, by the number of bytes they moved. *)
Definition ws_eventfd_notify (written : Z) : Z := if written =? 8 then 0 else -1.
Definition ws_eventfd_wait (read_ : Z) : Z := if read_ =? 8 then 0 else -1.
(** [ws_set_thread_affinity]; [rc] is the result of [pthread_setaffinity_np]. *)
Definition ws_set_thread_affinity (cpu_id rc : Z) : Z := if cpu_id <? 0 then 0 else rc.
(** [ws_aligned_alloc]: [posix_memalign]'s code and pointer. *)
Definition ws_aligned_alloc (rc p : Z) : option Z := if rc =? 0 then Some p else None.

Definition WS_ALIGN_UP (x align : Z) : Z := Z.land (x + align - 1) (Z.lnot (align - 1)).
Definition WS_ALIGN_DOWN (x align : Z) : Z := Z.land x (Z.lnot (align - 1)).
Definition WS_IS_ALIGNED (x align : Z) : bool := Z.land x (align - 1) =? 0.

Lemma round_down_spec x k : 0 <= k → WS_ALIGN_DOWN x (2 ^ k) = 2 ^ k * (x / 2 ^ k).
Proof.
  intros Hk. unfold WS_ALIGN_DOWN. rewrite <- Z.ldiff_land.
  replace (2 ^ k - 1) with (Z.ones k) by (rewrite Z.ones_equiv; lia).
  rewrite Z.ldiff_ones_r, Z.shiftl_mul_pow2, Z.shiftr_div_pow2 by done. lia.
Qed.

(** For a power of two, rounding up gives the least multiple that is not below. *)
Theorem align_up_least x k :
  0 <= k → let r := WS_ALIGN_UP x (2 ^ k) in WS_IS_ALIGNED r (2 ^ k) = true ∧ x <= r < x + 2 ^ k.
Proof.
  intros Hk r. assert (Hp : 0 < 2 ^ k) by (by apply Z.pow_pos_nonneg).
  assert (Hr : r = 2 ^ k * ((x + 2 ^ k - 1) / 2 ^ k)) by (by apply round_down_spec).
  split.
  - unfold WS_IS_ALIGNED. apply Z.eqb_eq. rewrite Hr. replace (2 ^ k - 1) with (Z.ones k) by (rewrite Z.ones_equiv; lia).
    rewrite Z.land_ones by done. rewrite Z.mul_comm. by apply Z.mod_mul; lia.
  - rewrite Hr. pose proof (Z.div_mod (x + 2 ^ k - 1) (2 ^ k)). pose proof (Z.mod_pos_bound (x + 2 ^ k - 1) (2 ^ k)). lia.
Qed.
