(* ===== verification/Config.v ===== *)
(** * Configuration (src/src/config/portico_config.c)

    The loader: from a parsed JSON document to the listener's settings, the table of sites,
    the per-site certificates and the ACME settings, with every check and every error.

    cJSON is outside: a document is the tree it hands out ([json]), an object's members in
    order, a number as its [valueint].  The file system is two predicates.  [mem] says
    which allocations succeed; a string that cannot be copied becomes NULL. *)
From Stdlib Require Import ZArith Lia.
From stdpp Require Import base numbers list strings.
From S2P Require Import Prelude Cstr HttpRequest HttpStatic Server Tls.
Open Scope Z_scope.
Set Warnings "-register-all".

(** ** JSON *)

Inductive json :=
| JNull
| JBool (b : bool)
| JNum (valueint : Z)
| JStr (s : list Z)
| JArr (l : list json)
| JObj (l : list (list Z * json)).

(** [cJSON_GetObjectItemCaseSensitive]: the first member of that name; anything that is not
    an object has none. *)
Fixpoint member (l : list (list Z * json)) (k : list Z) : option json :=
  match l with
  | [] => None
  | (k', v) :: r => if bool_decide (k' = k) then Some v else member r k
  end.
Definition jget (o : json) (k : list Z) : option json := match o with JObj l => member l k | _ => None end.

Definition jstr (o : json) (k : list Z) : option (list Z) := match jget o k with Some (JStr s) => Some s | _ => None end.
Definition jint (o : json) (k : list Z) (def : Z) : Z := match jget o k with Some (JNum n) => n | _ => def end.
Definition jbool (o : json) (k : list Z) (def : bool) : bool := match jget o k with Some (JBool b) => b | _ => def end.

(** ** Errors and allocation *)

(** One constructor per FAIL. *)
Inductive cfg_error :=
| ECannotRead | EInvalidJson | EOutOfMemory | EPort | EThreads | ETlsMode | ETlsFiles | ETlsCert | ETlsKey
| EAcmeObject | EAcmeCertDir | EAcmeAccountKey | ESitesArray | ENoSites | ESiteObject | ESiteHost | ETwoFallbacks
| EDuplicateHost | ENoDocroot | EDocroot | EFallbackTls | ESiteTls | ESiteTlsCert | ESiteTlsKey.

Record cfg_env := mk_cenv {
  is_dir : list Z → bool;
  is_readable : list Z → bool;
  mem_config : bool;              (* the object *)
  mem_tables : bool;              (* the three arrays *)
  mem_own : nat → bool            (* the [n]-th string copied *)
}.

(** A computation that may fail; the state counts the strings copied. *)
Definition cfgM (A : Type) : Type := nat → cfg_error + (A * nat).
Definition ret {A} (a : A) : cfgM A := λ n, inr (a, n).
Definition fail {A} (e : cfg_error) : cfgM A := λ _, inl e.
Definition bind {A B} (m : cfgM A) (k : A → cfgM B) : cfgM B :=
  λ n, match m n with inl e => inl e | inr (a, n') => k a n' end.
(** [if (!b) FAIL(e)]. *)
Definition guard (b : bool) (e : cfg_error) : cfgM unit := if b then ret tt else fail e.

Declare Scope cfg_scope.
Delimit Scope cfg_scope with cfg.
Notation "x <-- m ;; k" := (bind m (λ x, k)) (at level 100, m at next level, right associativity) : cfg_scope.
Notation "m ;;; k" := (bind m (λ _, k)) (at level 100, right associativity) : cfg_scope.
Open Scope cfg_scope.

(** [own]. *)
Definition own (E : cfg_env) (s : option (list Z)) : cfgM (option (list Z)) :=
  match s with
  | None => ret None
  | Some x => λ n, inr (if mem_own E n then Some x else None, S n)
  end.

(** ** The result *)

Inductive portico_tls_mode_t := PORTICO_TLS_OFF | PORTICO_TLS_FILES | PORTICO_TLS_ACME.

(** [portico_acme_settings_t]. *)
Record acme_settings := mk_acme {
  ac_directory : option (list Z); ac_email : option (list Z); ac_account_key : option (list Z); ac_cert_dir : option (list Z);
  ac_ca_file : option (list Z); ac_renew_days : Z; ac_challenge_port : Z
}.
Definition acme_zero : acme_settings := mk_acme None None None None None 0 0.

(** [portico_vhost_t] with its [portico_static_opts_t], as loaded. *)
Record site := mk_site {
  si_host : option (list Z); si_docroot : option (list Z); si_url_prefix : option (list Z); si_index : option (list Z);
  si_cache_control : option (list Z); si_spa_fallback : option (list Z); si_precompressed : bool; si_dir_redirect : bool
}.

(** [ws_tls_sni_cert_t], as loaded. *)
Record sni_entry := mk_entry { se_host : option (list Z); se_cert : option (list Z); se_key : option (list Z) }.

(** [struct portico_config]; the fields of [ws] that the loader sets. *)
Record portico_config := mk_config {
  cf_port : Z; cf_threads : Z; cf_bind : option (list Z); cf_trust_proxy : bool;
  cf_cert : option (list Z); cf_key : option (list Z);
  cf_tls_mode : portico_tls_mode_t; cf_acme : acme_settings;
  cf_vhosts : list site; cf_sni : list sni_entry; cf_domains : list (option (list Z))
}.

(** ** Loading *)

(** The listen object: port, threads, bind. *)
Definition load_listen (E : cfg_env) (root : json) : cfgM (Z * Z * option (list Z)) :=
  let p0 := wc_port ws_get_default_config in
  let t0 := wc_thread_count ws_get_default_config in
  match jget root (bs "listen") with
  | None => ret (p0, t0, wc_bind_address ws_get_default_config)
  | Some l =>
      let port := jint l (bs "port") p0 in
      guard (negb ((port <? 1) || (65535 <? port))) EPort ;;;
      let threads := jint l (bs "threads") t0 in
      guard (negb (threads <? 0)) EThreads ;;;
      match jstr l (bs "bind") with
      | Some b => o <-- own E (Some b) ;; ret (u16 port, u32 threads, o)
      | None => ret (u16 port, u32 threads, wc_bind_address ws_get_default_config)
      end
  end.

Definition tls_mode_of (mode : option (list Z)) : option portico_tls_mode_t :=
  match mode with
  | None => Some PORTICO_TLS_OFF
  | Some m =>
      if bool_decide (m = bs "off") then Some PORTICO_TLS_OFF
      else if bool_decide (m = bs "files") then Some PORTICO_TLS_FILES
      else if bool_decide (m = bs "acme") then Some PORTICO_TLS_ACME
      else None
  end.

Definition default_directory : list Z := bs "https://acme-v02.api.letsencrypt.org/directory".

Definition load_files (E : cfg_env) (tls : json) : cfgM (option (list Z) * option (list Z)) :=
  match jstr tls (bs "cert"), jstr tls (bs "key") with
  | Some cert, Some key =>
      guard (is_readable E cert) ETlsCert ;;;
      guard (is_readable E key) ETlsKey ;;;
      c <-- own E (Some cert) ;; k <-- own E (Some key) ;; ret (c, k)
  | _, _ => fail ETlsFiles
  end.

Definition load_acme (E : cfg_env) (tls : json) : cfgM acme_settings :=
  match jget tls (bs "acme") with
  | None => fail EAcmeObject
  | Some a =>
      d <-- own E (Some (default default_directory (jstr a (bs "directory")))) ;;
      e <-- own E (jstr a (bs "email")) ;;
      k <-- own E (jstr a (bs "account_key")) ;;
      cd <-- own E (jstr a (bs "cert_dir")) ;;
      ca <-- own E (jstr a (bs "ca_file")) ;;
      guard (bool_decide (cd ≠ None)) EAcmeCertDir ;;;
      guard (bool_decide (k ≠ None)) EAcmeAccountKey ;;;
      ret (mk_acme d e k cd ca (jint a (bs "renew_days") 0) (jint a (bs "challenge_port") 0))
  end.

(** The tls object: the mode, the default certificate and key, the ACME settings. *)
Definition load_tls (E : cfg_env) (root : json) : cfgM (portico_tls_mode_t * (option (list Z) * option (list Z)) * acme_settings) :=
  match jget root (bs "tls") with
  | None => ret (PORTICO_TLS_OFF, (None, None), acme_zero)
  | Some tls =>
      match tls_mode_of (jstr tls (bs "mode")) with
      | None => fail ETlsMode
      | Some PORTICO_TLS_OFF => ret (PORTICO_TLS_OFF, (None, None), acme_zero)
      | Some PORTICO_TLS_FILES => ck <-- load_files E tls ;; ret (PORTICO_TLS_FILES, ck, acme_zero)
      | Some PORTICO_TLS_ACME => a <-- load_acme E tls ;; ret (PORTICO_TLS_ACME, (None, None), a)
      end
  end.

Definition load_static (E : cfg_env) (h d : option (list Z)) (s : option json) : cfgM site :=
  match s with
  | None => ret (mk_site h d None None None None false false)
  | Some s =>
      p <-- own E (jstr s (bs "url_prefix")) ;;
      i <-- own E (jstr s (bs "index")) ;;
      cc <-- own E (jstr s (bs "cache_control")) ;;
      sp <-- own E (jstr s (bs "spa_fallback")) ;;
      ret (mk_site h d p i cc sp (jbool s (bs "precompressed") false) (jbool s (bs "dir_redirect") false))
  end.

(** The per-site certificate: none, or one entry. *)
Definition load_site_tls (E : cfg_env) (host : option (list Z)) (stls : option json) : cfgM (list sni_entry) :=
  match stls with
  | None => ret []
  | Some t =>
      match host with
      | None => fail EFallbackTls
      | Some h =>
          match jstr t (bs "cert"), jstr t (bs "key") with
          | Some cert, Some key =>
              guard (is_readable E cert) ESiteTlsCert ;;;
              guard (is_readable E key) ESiteTlsKey ;;;
              a <-- own E (Some h) ;; b <-- own E (Some cert) ;; c <-- own E (Some key) ;; ret [mk_entry a b c]
          | _, _ => fail ESiteTls
          end
      end
  end.

(** The hosts already in the table. *)
Definition host_taken (vs : list site) (host : list Z) : bool :=
  existsb (λ v, match si_host v with Some h => ws_strcasecmp h host =? 0 | None => false end) vs.

Record sites_state := mk_ss { ss_vhosts : list site; ss_sni : list sni_entry; ss_domains : list (option (list Z)); ss_fallback : bool }.

(** The body of the loop over the sites. *)
Definition load_site (E : cfg_env) (st : sites_state) (s : json) : cfgM sites_state :=
  guard (match s with JObj _ => true | _ => false end) ESiteObject ;;;
  let host := jstr s (bs "host") in
  guard (match jget s (bs "host") with None | Some (JStr _) | Some JNull => true | _ => false end) ESiteHost ;;;
  guard (negb (bool_decide (host = None) && ss_fallback st)) ETwoFallbacks ;;;
  guard (match host with Some h => negb (host_taken (ss_vhosts st) h) | None => true end) EDuplicateHost ;;;
  match jstr s (bs "docroot") with
  | None => fail ENoDocroot
  | Some d =>
      guard (is_dir E d) EDocroot ;;;
      h <-- own E host ;;
      dr <-- own E (Some d) ;;
      v <-- load_static E h dr (jget s (bs "static")) ;;
      sni <-- load_site_tls E host (jget s (bs "tls")) ;;
      dom <-- match host with Some x => o <-- own E (Some x) ;; ret [o] | None => ret [] end ;;
      ret (mk_ss (ss_vhosts st ++ [v]) (ss_sni st ++ sni) (ss_domains st ++ dom) (ss_fallback st || bool_decide (host = None)))
  end.

Fixpoint load_sites (E : cfg_env) (st : sites_state) (l : list json) : cfgM sites_state :=
  match l with
  | [] => ret st
  | s :: r => st' <-- load_site E st s ;; load_sites E st' r
  end.

(** [portico_config_load] on the parsed text: [None] for a file that cannot be read,
    [Some None] for text that is not JSON. *)
Definition portico_config_load (E : cfg_env) (doc : option (option json)) : cfg_error + portico_config :=
  match doc with
  | None => inl ECannotRead
  | Some None => inl EInvalidJson
  | Some (Some root) =>
      let m : cfgM portico_config :=
        guard (mem_config E) EOutOfMemory ;;;
        lb <-- load_listen E root ;;
        tl <-- load_tls E root ;;
        match jget root (bs "sites") with
        | Some (JArr l) =>
            guard (negb (bool_decide (l = []))) ENoSites ;;;
            guard (mem_tables E) EOutOfMemory ;;;
            ss <-- load_sites E (mk_ss [] [] [] false) l ;;
            ret (mk_config lb.1.1 lb.1.2 lb.2 (jbool root (bs "trust_proxy") false) tl.1.2.1 tl.1.2.2 tl.1.1 tl.2
                   (ss_vhosts ss) (ss_sni ss) (ss_domains ss))
        | Some _ => fail ESitesArray
        | None => fail ENoSites
        end in
      match m 0%nat with inl e => inl e | inr (c, _) => inr c end
  end.

(** ** The reference: what a document says *)

Definition opt_str (o : option json) (k : list Z) : option (list Z) := match o with Some x => jstr x k | None => None end.
Definition opt_bool (o : option json) (k : list Z) : bool := match o with Some x => jbool x k false | None => false end.

Definition site_of (s : json) : site :=
  let st := jget s (bs "static") in
  mk_site (jstr s (bs "host")) (jstr s (bs "docroot")) (opt_str st (bs "url_prefix")) (opt_str st (bs "index"))
    (opt_str st (bs "cache_control")) (opt_str st (bs "spa_fallback")) (opt_bool st (bs "precompressed")) (opt_bool st (bs "dir_redirect")).
Definition entry_of (s : json) : list sni_entry :=
  match jget s (bs "tls") with
  | Some t => [mk_entry (jstr s (bs "host")) (jstr t (bs "cert")) (jstr t (bs "key"))]
  | None => []
  end.
Definition domain_of (s : json) : list (option (list Z)) :=
  match jstr s (bs "host") with Some h => [Some h] | None => [] end.

(** A site that may stand in a configuration. *)
Definition site_ok (E : cfg_env) (s : json) : Prop :=
  (∃ l, s = JObj l) ∧
  (∀ v, jget s (bs "host") = Some v → v = JNull ∨ ∃ h, v = JStr h) ∧
  (∃ d, jstr s (bs "docroot") = Some d ∧ is_dir E d = true) ∧
  (∀ t, jget s (bs "tls") = Some t → ∃ h c k, jstr s (bs "host") = Some h ∧
     jstr t (bs "cert") = Some c ∧ jstr t (bs "key") = Some k ∧ is_readable E c = true ∧ is_readable E k = true).

Definition listen_ok (root : json) : Prop :=
  ∀ l, jget root (bs "listen") = Some l → 1 <= jint l (bs "port") 8080 <= 65535 ∧ 0 <= jint l (bs "threads") 0.

Definition tls_ok (E : cfg_env) (root : json) : Prop :=
  ∀ t, jget root (bs "tls") = Some t →
    match tls_mode_of (jstr t (bs "mode")) with
    | None => False
    | Some PORTICO_TLS_OFF => True
    | Some PORTICO_TLS_FILES => ∃ c k, jstr t (bs "cert") = Some c ∧ jstr t (bs "key") = Some k ∧ is_readable E c = true ∧ is_readable E k = true
    | Some PORTICO_TLS_ACME => ∃ a, jget t (bs "acme") = Some a ∧ jstr a (bs "cert_dir") ≠ None ∧ jstr a (bs "account_key") ≠ None
    end.

Definition hosts_of (l : list json) : list (list Z) := omap (λ s, jstr s (bs "host")) l.
Definition fallbacks_of (l : list json) : list json := filter (λ s, jstr s (bs "host") = None) l.

(** A valid document: the sites are a non-empty array of good sites, no two hosts are the
    same name, and at most one site is the fallback. *)
Definition valid_config (E : cfg_env) (root : json) : Prop :=
  listen_ok root ∧ tls_ok E root ∧
  ∃ l, jget root (bs "sites") = Some (JArr l) ∧ l ≠ [] ∧ Forall (site_ok E) l ∧
       NoDup (map tolower <$> hosts_of l) ∧ (length (fallbacks_of l) <= 1)%nat.

(** What a valid document configures. *)
Definition config_of (root : json) : portico_config :=
  let '(port, threads, bind) :=
    match jget root (bs "listen") with
    | None => (8080, 0, None)
    | Some l => (jint l (bs "port") 8080, u32 (jint l (bs "threads") 0), jstr l (bs "bind"))
    end in
  let t := jget root (bs "tls") in
  let mode := default PORTICO_TLS_OFF (t ≫= λ t, tls_mode_of (jstr t (bs "mode"))) in
  let files k := match mode with PORTICO_TLS_FILES => opt_str t k | _ => None end in
  let a := match t with Some t => jget t (bs "acme") | None => None end in
  let acme := match mode, a with
              | PORTICO_TLS_ACME, Some x =>
                  mk_acme (Some (default default_directory (jstr x (bs "directory")))) (jstr x (bs "email")) (jstr x (bs "account_key"))
                    (jstr x (bs "cert_dir")) (jstr x (bs "ca_file")) (jint x (bs "renew_days") 0) (jint x (bs "challenge_port") 0)
              | _, _ => acme_zero
              end in
  let l := match jget root (bs "sites") with Some (JArr l) => l | _ => [] end in
  mk_config port threads bind (jbool root (bs "trust_proxy") false) (files (bs "cert")) (files (bs "key")) mode acme
    (site_of <$> l) (l ≫= entry_of) (l ≫= domain_of).

(** ** The loader computes it *)

(** [m] yields [a], or fails. *)
Definition spec {A} (m : cfgM A) (b : bool) (a : A) : Prop :=
  if b then ∀ n, ∃ n', m n = inr (a, n') else ∀ n, ∃ e, m n = inl e.

Lemma spec_ret {A} (a : A) : spec (ret a) true a.
Proof. intros n. by exists n. Qed.
Lemma spec_fail {A} e (a : A) : spec (fail e) false a.
Proof. intros n. by exists e. Qed.
Lemma spec_guard b e : spec (guard b e) b tt.
Proof. destruct b; [apply spec_ret | apply spec_fail]. Qed.
Lemma spec_bind {A B} (m : cfgM A) (k : A → cfgM B) b c a x :
  spec m b a → (b = true → spec (k a) c x) → spec (bind m k) (b && c) x.
Proof.
  intros Hm Hk. destruct b; cbn.
  - specialize (Hk eq_refl). destruct c; intros n; destruct (Hm n) as [n' E]; destruct (Hk n') as [y Ey]; exists y; unfold bind; by rewrite E.
  - intros n. destruct (Hm n) as [e E]. exists e. unfold bind. by rewrite E.
Qed.
(** The common case of a first step that always yields. *)
Lemma spec_then {A B} (m : cfgM A) (k : A → cfgM B) c a x : spec m true a → spec (k a) c x → spec (bind m k) c x.
Proof. intros Hm Hk. apply (spec_bind m k true c a x Hm). done. Qed.
(** And of a last check. *)
Lemma spec_last {A B} (m : cfgM A) (k : A → cfgM B) b a x : spec m b a → (b = true → spec (k a) true x) → spec (bind m k) b x.
Proof. intros Hm Hk. rewrite <- (andb_true_r b). by apply (spec_bind m k b true a x). Qed.
Lemma spec_eq {A} (m : cfgM A) b c a x : spec m b a → b = c → (b = true → a = x) → spec m c x.
Proof. intros H <- E. destruct b; [rewrite <- (E eq_refl) |]; done. Qed.

Section Spec.
Context (E : cfg_env).
Context (Hmem : ∀ n, mem_own E n = true).

Lemma spec_own o : spec (own E o) true o.
Proof. intros n. destruct o as [s | ]; cbn; [rewrite Hmem; by exists (S n) | by exists n]. Qed.

Ltac sp :=
  repeat first [ apply spec_ret | apply spec_fail | apply spec_own
               | eapply spec_then; [ first [apply spec_own | apply spec_ret] | cbn beta ] ].

Definition listen_okb (root : json) : bool :=
  match jget root (bs "listen") with
  | None => true
  | Some l => negb ((jint l (bs "port") 8080 <? 1) || (65535 <? jint l (bs "port") 8080)) && negb (jint l (bs "threads") 0 <? 0)
  end.
Definition listen_of (root : json) : Z * Z * option (list Z) :=
  match jget root (bs "listen") with
  | None => (8080, 0, None)
  | Some l => (u16 (jint l (bs "port") 8080), u32 (jint l (bs "threads") 0), jstr l (bs "bind"))
  end.

Lemma load_listen_spec root : spec (load_listen E root) (listen_okb root) (listen_of root).
Proof.
  unfold load_listen, listen_okb, listen_of. cbn [wc_port wc_thread_count wc_bind_address ws_get_default_config].
  destruct (jget root (bs "listen")) as [l | ]; [ | sp].
  eapply spec_bind; [apply spec_guard |]. intros _.
  eapply spec_last; [apply spec_guard |]. intros _. destruct (jstr l (bs "bind")); sp.
Qed.

Definition tls_okb (root : json) : bool :=
  match jget root (bs "tls") with
  | None => true
  | Some t =>
      match tls_mode_of (jstr t (bs "mode")) with
      | None => false
      | Some PORTICO_TLS_OFF => true
      | Some PORTICO_TLS_FILES =>
          match jstr t (bs "cert"), jstr t (bs "key") with Some c, Some k => is_readable E c && is_readable E k | _, _ => false end
      | Some PORTICO_TLS_ACME =>
          match jget t (bs "acme") with
          | None => false
          | Some a => bool_decide (jstr a (bs "cert_dir") ≠ None) && bool_decide (jstr a (bs "account_key") ≠ None)
          end
      end
  end.
Definition tls_of (root : json) : portico_tls_mode_t * (option (list Z) * option (list Z)) * acme_settings :=
  let c := config_of root in (cf_tls_mode c, (cf_cert c, cf_key c), cf_acme c).

Lemma load_tls_spec root : spec (load_tls E root) (tls_okb root) (tls_of root).
Proof.
  unfold load_tls, tls_okb, tls_of, config_of. destruct (match jget root (bs "listen") with Some _ => _ | None => _ end) as [[p th] bi].
  cbn [cf_tls_mode cf_cert cf_key cf_acme]. destruct (jget root (bs "tls")) as [t | ]; [ | sp]. cbn [mbind option_bind opt_str].
  destruct (tls_mode_of (jstr t (bs "mode"))) as [[] | ]; cbn [default]; [sp | | | sp].
  - unfold load_files. destruct (jstr t (bs "cert")) as [c | ]; [ | eapply spec_eq; [apply (spec_bind _ _ false false (None, None)); [sp | done] | done | done]].
    destruct (jstr t (bs "key")) as [k | ]; [ | eapply spec_eq; [apply (spec_bind _ _ false false (None, None)); [sp | done] | done | done]].
    eapply (spec_last _ _ _ (Some c, Some k)); [ | intros _; sp].
    eapply spec_bind; [apply spec_guard |]. intros _. eapply spec_last; [apply spec_guard |]. intros _. sp.
  - unfold load_acme. destruct (jget t (bs "acme")) as [a | ]; [ | eapply spec_eq; [apply (spec_bind _ _ false false acme_zero); [sp | done] | done | done]].
    eapply spec_last; [ | intros _; sp]. sp.
    eapply spec_bind; [apply spec_guard |]. intros _. eapply spec_last; [apply spec_guard |]. intros _. sp.
Qed.

Definition site_tls_okb (s : json) : bool :=
  match jget s (bs "tls") with
  | None => true
  | Some t =>
      match jstr s (bs "host"), jstr t (bs "cert"), jstr t (bs "key") with
      | Some _, Some c, Some k => is_readable E c && is_readable E k
      | _, _, _ => false
      end
  end.
Definition site_okb (s : json) : bool :=
  match s with JObj _ => true | _ => false end &&
  match jget s (bs "host") with None | Some (JStr _) | Some JNull => true | _ => false end &&
  match jstr s (bs "docroot") with Some d => is_dir E d | None => false end && site_tls_okb s.

(** The checks against the sites before it. *)
Definition fits_b (st : sites_state) (s : json) : bool :=
  negb (bool_decide (jstr s (bs "host") = None) && ss_fallback st) &&
  match jstr s (bs "host") with Some h => negb (host_taken (ss_vhosts st) h) | None => true end.

Definition site_next (st : sites_state) (s : json) : sites_state :=
  mk_ss (ss_vhosts st ++ [site_of s]) (ss_sni st ++ entry_of s) (ss_domains st ++ domain_of s)
    (ss_fallback st || bool_decide (jstr s (bs "host") = None)).

Lemma load_static_spec s : spec (load_static E (jstr s (bs "host")) (jstr s (bs "docroot")) (jget s (bs "static"))) true (site_of s).
Proof. unfold load_static, site_of. destruct (jget s (bs "static")); sp. Qed.

Lemma load_site_tls_spec s :
  spec (load_site_tls E (jstr s (bs "host")) (jget s (bs "tls"))) (site_tls_okb s) (entry_of s).
Proof.
  unfold load_site_tls, entry_of, site_tls_okb. destruct (jget s (bs "tls")) as [t | ]; [ | sp].
  destruct (jstr s (bs "host")) as [h | ]; [ | sp]. destruct (jstr t (bs "cert")) as [c | ]; [ | sp].
  destruct (jstr t (bs "key")) as [k | ]; [ | sp].
  eapply spec_bind; [apply spec_guard |]. intros _. eapply spec_last; [apply spec_guard |]. intros _. sp.
Qed.

Lemma load_site_spec st s : spec (load_site E st s) (site_okb s && fits_b st s) (site_next st s).
Proof.
  unfold load_site. cbn zeta.
  set (b1 := match s with JObj _ => true | _ => false end).
  set (b2 := match jget s (bs "host") with None | Some (JStr _) | Some JNull => true | _ => false end).
  set (b3 := negb (bool_decide (jstr s (bs "host") = None) && ss_fallback st)).
  set (b4 := match jstr s (bs "host") with Some h => negb (host_taken (ss_vhosts st) h) | None => true end).
  set (b5 := match jstr s (bs "docroot") with Some d => is_dir E d | None => false end).
  set (b6 := site_tls_okb s).
  assert (Eb : site_okb s && fits_b st s = b1 && (b2 && (b3 && (b4 && (b5 && b6))))).
  { unfold site_okb, fits_b. fold b1 b2 b3 b4 b5 b6. destruct b1, b2, b3, b4, b5, b6; reflexivity. }
  rewrite Eb. eapply spec_bind; [apply spec_guard |]. intros _. eapply spec_bind; [apply spec_guard |]. intros _.
  eapply spec_bind; [apply spec_guard |]. intros _. eapply spec_bind; [apply spec_guard |]. intros _.
  pose proof (load_static_spec s) as HS. pose proof (load_site_tls_spec s) as HT. fold b6 in HT. clearbody b6.
  subst b5. destruct (jstr s (bs "docroot")) as [d | ]; [ | sp].
  eapply spec_bind; [apply spec_guard |]. intros _. sp.
  eapply spec_then; [exact HS |]. eapply spec_last; [exact HT |]. intros _.
  eapply (spec_then _ _ _ (domain_of s)); [ | sp]. unfold domain_of. destruct (jstr s (bs "host")); sp.
Qed.

Fixpoint sites_okb (st : sites_state) (l : list json) : bool :=
  match l with [] => true | s :: r => site_okb s && fits_b st s && sites_okb (site_next st s) r end.

Lemma load_sites_spec l st : spec (load_sites E st l) (sites_okb st l) (fold_left site_next l st).
Proof.
  revert st. induction l as [ | s l IH]; intros st; cbn [load_sites sites_okb fold_left]; [sp |].
  eapply spec_bind; [apply load_site_spec |]. intros _. apply IH.
Qed.

Lemma fold_sites l st :
  fold_left site_next l st =
    mk_ss (ss_vhosts st ++ (site_of <$> l)) (ss_sni st ++ (l ≫= entry_of)) (ss_domains st ++ (l ≫= domain_of))
      (ss_fallback st || negb (bool_decide (fallbacks_of l = []))).
Proof.
  revert st. induction l as [ | s l IH]; intros st; cbn [fold_left].
  - destruct st. cbn. by rewrite !app_nil_r, orb_false_r.
  - rewrite IH. unfold site_next. cbn [ss_vhosts ss_sni ss_domains ss_fallback fmap list_fmap mbind list_bind].
    rewrite <- !app_assoc. cbn [app]. f_equal. rewrite <- orb_assoc. f_equal. unfold fallbacks_of. rewrite filter_cons.
    destruct (decide (jstr s (bs "host") = None)) as [Hn | Hn].
    + by rewrite bool_decide_true, (bool_decide_false (s :: _ = [])).
    + by rewrite bool_decide_false.
Qed.
End Spec.

(** ** The checks decide validity *)

Lemma site_okb_iff E s : site_okb E s = true ↔ site_ok E s.
Proof.
  unfold site_okb, site_ok, site_tls_okb. rewrite !andb_true_iff. split.
  - intros [[[H1 H2] H3] H4]. split_and!.
    + destruct s; try done. by eexists.
    + intros v Hv. rewrite Hv in H2. destruct v; try done; [by left | right; by eexists].
    + destruct (jstr s (bs "docroot")) as [d | ]; [ | done]. by exists d.
    + intros t Ht. rewrite Ht in H4. destruct (jstr s (bs "host")) as [h | ]; [ | done].
      destruct (jstr t (bs "cert")) as [c | ]; [ | done]. destruct (jstr t (bs "key")) as [k | ]; [ | done].
      apply andb_true_iff in H4 as [? ?]. by exists h, c, k.
  - intros ([l ->] & H2 & (d & H3 & H3') & H4). split_and!; [done | | by rewrite H3 |].
    + destruct (jget (JObj l) (bs "host")) as [v | ]; [ | done]. destruct (H2 v eq_refl) as [-> | [h ->]]; done.
    + destruct (jget (JObj l) (bs "tls")) as [t | ]; [ | done]. destruct (H4 t eq_refl) as (h & c & k & -> & -> & -> & -> & ->). done.
Qed.

Lemma listen_okb_iff root : listen_okb root = true ↔ listen_ok root.
Proof.
  unfold listen_okb, listen_ok. destruct (jget root (bs "listen")) as [l | ]; [ | by split; [intros _ x [=] | ]].
  rewrite andb_true_iff, !negb_true_iff, orb_false_iff, !Z.ltb_ge. split; [intros [[? ?] ?] x [= <-]; lia | intros H; specialize (H l eq_refl); lia].
Qed.

Lemma tls_okb_iff E root : tls_okb E root = true ↔ tls_ok E root.
Proof.
  unfold tls_okb, tls_ok. destruct (jget root (bs "tls")) as [t | ]; [ | by split; [intros _ x [=] | ]].
  split.
  - intros H x [= <-]. destruct (tls_mode_of (jstr t (bs "mode"))) as [[] | ]; try done.
    + destruct (jstr t (bs "cert")) as [c | ]; [ | done]. destruct (jstr t (bs "key")) as [k | ]; [ | done].
      apply andb_true_iff in H as [? ?]. by exists c, k.
    + destruct (jget t (bs "acme")) as [a | ]; [ | done]. apply andb_true_iff in H as [H1 H2].
      apply bool_decide_eq_true in H1, H2. by exists a.
  - intros H. specialize (H t eq_refl). destruct (tls_mode_of (jstr t (bs "mode"))) as [[] | ]; try done.
    + destruct H as (c & k & -> & -> & -> & ->). done.
    + destruct H as (a & -> & H1 & H2). by rewrite !bool_decide_true.
Qed.

(** The sites so far: distinct hosts, at most one fallback. *)
Definition wf_sites (l : list json) : Prop := NoDup (map tolower <$> hosts_of l) ∧ (length (fallbacks_of l) <= 1)%nat.

Lemma hosts_of_app l k : hosts_of (l ++ k) = hosts_of l ++ hosts_of k.
Proof. apply omap_app. Qed.
Lemma fallbacks_of_app l k : fallbacks_of (l ++ k) = fallbacks_of l ++ fallbacks_of k.
Proof. apply filter_app. Qed.

Lemma hosts_of_one s : hosts_of [s] = match jstr s (bs "host") with Some h => [h] | None => [] end.
Proof. unfold hosts_of. cbn [omap list_omap]. by destruct (jstr s (bs "host")). Qed.
Lemma fallbacks_of_one s : fallbacks_of [s] = match jstr s (bs "host") with Some _ => [] | None => [s] end.
Proof. unfold fallbacks_of. rewrite filter_cons. by destruct (jstr s (bs "host")). Qed.

Lemma wf_sites_prefix l k : wf_sites (l ++ k) → wf_sites l.
Proof.
  unfold wf_sites. rewrite hosts_of_app, fallbacks_of_app, fmap_app, length_app. intros [HN HL].
  apply NoDup_app in HN as (HN & _). split; [done | lia].
Qed.

Lemma host_taken_iff l h :
  Forall cstr (hosts_of l) → cstr h → host_taken (site_of <$> l) h = true ↔ map tolower h ∈ (map tolower <$> hosts_of l).
Proof.
  intros HC Hh. induction l as [ | s l IH]; [split; [done | by intros ?%elem_of_nil] |].
  unfold hosts_of in HC |- *. cbn [omap list_omap] in HC |- *. fold (hosts_of l) in HC |- *.
  unfold host_taken. cbn [existsb fmap list_fmap]. change (existsb _ (list_fmap _ _ site_of l)) with (host_taken (site_of <$> l) h).
  cbn [site_of si_host]. destruct (jstr s (bs "host")) as [x | ].
  - apply Forall_cons in HC as [Hx HC]. rewrite orb_true_iff, (IH HC), Z.eqb_eq, strcasecmp_eq by done.
    cbn. rewrite elem_of_cons. split; (intros [H | H]; [left | by right]); congruence.
  - cbn [orb]. by apply IH.
Qed.

Lemma fits_iff l s st :
  st = fold_left site_next l (mk_ss [] [] [] false) → wf_sites l → Forall cstr (hosts_of (l ++ [s])) →
  fits_b st s = true ↔ wf_sites (l ++ [s]).
Proof.
  intros -> [HN HL] HC. unfold fits_b, wf_sites. rewrite fold_sites. cbn [ss_fallback ss_vhosts app orb].
  rewrite hosts_of_app, fallbacks_of_app, fmap_app, length_app. rewrite hosts_of_app, Forall_app in HC. destruct HC as [HC Hs].
  rewrite hosts_of_one in Hs. rewrite hosts_of_one, fallbacks_of_one.
  rewrite andb_true_iff, negb_true_iff. destruct (jstr s (bs "host")) as [h | ].
  - rewrite bool_decide_false by done. apply Forall_cons in Hs as [Hh _].
    change (map tolower <$> [h]) with [map tolower h]. cbn [andb length]. rewrite negb_true_iff, <- (not_true_iff_false (host_taken _ _)), host_taken_iff by done. split.
    + intros [_ Hni]. split; [ | lia]. apply NoDup_app. split_and!; [done | | apply NoDup_singleton].
      intros x Hx Hx2. apply list_elem_of_singleton in Hx2 as ->. done.
    + intros [HN2 _]. split; [done |]. apply NoDup_app in HN2 as (_ & HD & _). intros Hin. apply (HD _ Hin). left.
  - rewrite bool_decide_true by done. change (map tolower <$> []) with (@nil (list Z)). cbn [andb length]. rewrite app_nil_r.
    destruct (fallbacks_of l) as [ | f r].
    + rewrite bool_decide_true by done. cbn. split; [intros _; split; [done | lia] | done].
    + rewrite bool_decide_false by done. cbn. split; [by intros [? _] | intros [_ ?]; lia].
Qed.

Lemma sites_okb_iff E l2 l1 :
  wf_sites l1 → Forall cstr (hosts_of (l1 ++ l2)) →
  sites_okb E (fold_left site_next l1 (mk_ss [] [] [] false)) l2 = true ↔ Forall (site_ok E) l2 ∧ wf_sites (l1 ++ l2).
Proof.
  revert l1. induction l2 as [ | s l2 IH]; intros l1 HW HC; cbn [sites_okb].
  - rewrite app_nil_r. split; [by intros _ | done].
  - assert (HC1 : Forall cstr (hosts_of (l1 ++ [s]))).
    { replace (l1 ++ s :: l2) with ((l1 ++ [s]) ++ l2) in HC by (by rewrite <- app_assoc). rewrite hosts_of_app in HC.
      by apply Forall_app in HC as [? _]. }
    rewrite !andb_true_iff, site_okb_iff, (fits_iff l1 s _ eq_refl HW HC1), Forall_cons.
    replace (site_next (fold_left site_next l1 (mk_ss [] [] [] false)) s) with (fold_left site_next (l1 ++ [s]) (mk_ss [] [] [] false))
      by (by rewrite fold_left_app).
    replace (l1 ++ s :: l2) with ((l1 ++ [s]) ++ l2) in HC |- * by (by rewrite <- app_assoc).
    split.
    + intros [[H1 H2] H3]. apply IH in H3 as [H3 H4]; [ | done | done]. done.
    + intros [[H1 H2] H3]. pose proof (wf_sites_prefix _ _ H3) as H4. split; [done |]. by apply IH.
Qed.

(** C32. The loader accepts exactly the valid documents, and what it loads is what the
    document says: for a document whose hosts are C strings, and with memory, the result is
    the configuration the document describes if the document is valid, and an error if it
    is not. *)
Theorem config_load_exact E root :
  mem_config E = true → mem_tables E = true → (∀ n, mem_own E n = true) →
  (∀ l, jget root (bs "sites") = Some (JArr l) → Forall cstr (hosts_of l)) →
  (valid_config E root → portico_config_load E (Some (Some root)) = inr (config_of root)) ∧
  (¬ valid_config E root → ∃ e, portico_config_load E (Some (Some root)) = inl e).
Proof.
  intros H1 H2 Hm HC. cbn [portico_config_load].
  set (m := bind (guard (mem_config E) EOutOfMemory) _).
  set (okb := listen_okb root && (tls_okb E root &&
    match jget root (bs "sites") with Some (JArr l) => negb (bool_decide (l = [])) && sites_okb E (mk_ss [] [] [] false) l | _ => false end)).
  assert (Hok : okb = true ↔ valid_config E root).
  { unfold okb, valid_config. rewrite !andb_true_iff, listen_okb_iff, tls_okb_iff.
    destruct (jget root (bs "sites")) as [[ | | | | l | ] | ] eqn:Es;
      try (split; [by intros (_ & _ & ?) | by intros (_ & _ & l & [=] & _)]).
    rewrite andb_true_iff, negb_true_iff, bool_decide_eq_false.
    rewrite (sites_okb_iff E l [] ltac:(split; [constructor | cbn; lia]) (HC l eq_refl)). cbn [app]. unfold wf_sites. split.
    - intros (A & B & C & D & F & G). split_and!; try done. by exists l.
    - intros (A & B & l' & [= <-] & C & D & F & G). done. }
  assert (Hs : spec m okb (config_of root)).
  { unfold m, okb. rewrite H1. eapply spec_then; [apply spec_guard |]. eapply spec_bind; [by apply load_listen_spec |]. intros Hl.
    eapply spec_bind; [by apply load_tls_spec |]. intros _.
    destruct (jget root (bs "sites")) as [[ | | | | l | ] | ] eqn:Es; try apply spec_fail.
    eapply spec_bind; [apply spec_guard |]. intros _. rewrite H2. eapply spec_then; [apply spec_guard |].
    eapply spec_last; [by apply load_sites_spec |]. intros _. rewrite fold_sites. cbn [ss_vhosts ss_sni ss_domains app].
    eapply spec_eq; [apply spec_ret | done |]. intros _. unfold tls_of, listen_of, config_of. rewrite Es.
    apply listen_okb_iff in Hl. unfold listen_ok in Hl. destruct (jget root (bs "listen")) as [li | ]; [ | reflexivity].
    specialize (Hl li eq_refl). unfold u16. rewrite Z.mod_small by lia. reflexivity. }
  split.
  - intros Hv. apply Hok in Hv. rewrite Hv in Hs. destruct (Hs 0%nat) as [n' E1]. by rewrite E1.
  - intros Hv. destruct okb; [by destruct Hv; apply Hok |]. destruct (Hs 0%nat) as [e E1]. exists e. by rewrite E1.
Qed.

(** ** Whatever the memory does *)

Lemma bind_inr {A B} (m : cfgM A) (k : A → cfgM B) n b n' :
  bind m k n = inr (b, n') → ∃ a n1, m n = inr (a, n1) ∧ k a n1 = inr (b, n').
Proof. unfold bind. destruct (m n) as [e | [a n1]]; [done |]. by exists a, n1. Qed.
Lemma guard_inr b e n x n' : guard b e n = inr (x, n') → b = true.
Proof. by destruct b. Qed.

(** Take a successful run apart. *)
Ltac runs :=
  repeat match goal with
  | H : bind _ _ _ = inr _ |- _ => apply bind_inr in H as (? & ? & ? & H)
  | H : guard _ _ _ = inr _ |- _ => apply guard_inr in H
  | H : ret _ _ = inr _ |- _ => injection H as <- <-
  | H : fail _ _ = inr _ |- _ => discriminate H
  end.

Definition tables_fit (st : sites_state) (n : nat) : Prop :=
  length (ss_vhosts st) = n ∧ (length (ss_sni st) <= n)%nat ∧ (length (ss_domains st) <= n)%nat.

Lemma load_site_tls_length E h t n x n' : load_site_tls E h t n = inr (x, n') → (length x <= 1)%nat.
Proof.
  unfold load_site_tls. destruct t as [t | ]; [ | intros; runs; cbn; lia]. destruct h as [h | ]; [ | intros; runs].
  destruct (jstr t (bs "cert")) as [c | ]; [ | intros; runs]. destruct (jstr t (bs "key")) as [k | ]; [ | intros; runs].
  intros. runs. cbn. lia.
Qed.

Lemma load_site_fits E st s n st' n' k : tables_fit st k → load_site E st s n = inr (st', n') → tables_fit st' (S k).
Proof.
  intros (F1 & F2 & F3). unfold load_site. intros H. runs. destruct (jstr s (bs "docroot")) as [d | ]; [ | by runs].
  apply bind_inr in H as (? & ? & ? & H). apply bind_inr in H as (h & ? & ? & H). apply bind_inr in H as (dr & ? & ? & H).
  apply bind_inr in H as (v & ? & ? & H). apply bind_inr in H as (sni & ? & Hsni & H). apply bind_inr in H as (dom & ? & Hdom & H).
  injection H as <- <-. apply load_site_tls_length in Hsni.
  assert (length dom <= 1)%nat by (destruct (jstr s (bs "host")); runs; cbn; lia).
  unfold tables_fit. cbn. rewrite !length_app. cbn. lia.
Qed.

Lemma load_sites_fits E l st n st' n' k :
  tables_fit st k → load_sites E st l n = inr (st', n') → tables_fit st' (k + length l).
Proof.
  revert st n k. induction l as [ | s l IH]; intros st n k HF H; cbn [load_sites] in H.
  - injection H as <- <-. by rewrite Nat.add_0_r.
  - apply bind_inr in H as (st1 & n1 & H1 & H). apply (load_site_fits _ _ _ _ _ _ k HF) in H1. cbn [length].
    rewrite <- Nat.add_succ_comm. exact (IH st1 n1 (S k) H1 H).
Qed.

(** C33. Whatever allocations fail, a configuration that loads is well formed for its
    users: the port is a port, there is at least one site, the three tables were written
    within the space allocated for one entry per site, and in ACME mode the certificate
    directory and the account key are set. *)
Theorem config_loaded_wf E root c :
  portico_config_load E (Some (Some root)) = inr c →
  1 <= cf_port c <= 65535 ∧ 0 <= cf_threads c < 2 ^ 32 ∧
  (∃ l, jget root (bs "sites") = Some (JArr l) ∧ l ≠ [] ∧ length (cf_vhosts c) = length l ∧
        (length (cf_sni c) <= length l)%nat ∧ (length (cf_domains c) <= length l)%nat) ∧
  (cf_tls_mode c = PORTICO_TLS_ACME → ac_cert_dir (cf_acme c) ≠ None ∧ ac_account_key (cf_acme c) ≠ None).
Proof.
  cbn [portico_config_load]. destruct (bind (guard (mem_config E) EOutOfMemory) _ 0%nat) as [e | [c' n']] eqn:H; [done |]. intros [= <-].
  apply bind_inr in H as (? & ? & _ & H). apply bind_inr in H as ([[p t] b] & ? & HL & H). apply bind_inr in H as ([[mode ck] ac] & ? & HT & H).
  destruct (jget root (bs "sites")) as [[ | | | | l | ] | ] eqn:Es; try discriminate H.
  apply bind_inr in H as (? & ? & Hne & H). apply guard_inr in Hne. apply bind_inr in H as (? & ? & _ & H).
  apply bind_inr in H as (ss & ? & HS & H). injection H as <- <-.
  apply (load_sites_fits _ _ _ _ _ _ 0) in HS as (S1 & S2 & S3); [ | unfold tables_fit; cbn; lia].
  cbn [cf_port cf_threads cf_vhosts cf_sni cf_domains cf_tls_mode cf_acme fst snd].
  assert (HLp : 1 <= p <= 65535 ∧ 0 <= t < 2 ^ 32).
  { unfold load_listen in HL. cbn [wc_port wc_thread_count wc_bind_address ws_get_default_config] in HL.
    destruct (jget root (bs "listen")) as [li | ]; [ | injection HL as <- <- <- <-; lia].
    apply bind_inr in HL as (? & ? & G1 & HL). apply guard_inr in G1. apply bind_inr in HL as (? & ? & G2 & HL). apply guard_inr in G2.
    rewrite negb_true_iff, orb_false_iff, !Z.ltb_ge in G1. rewrite negb_true_iff, Z.ltb_ge in G2.
    assert (Hp : p = u16 (jint li (bs "port") 8080) ∧ t = u32 (jint li (bs "threads") 0)).
    { destruct (jstr li (bs "bind")); [apply bind_inr in HL as (? & ? & _ & HL) |]; by injection HL as <- <- _ _. }
    destruct Hp as [-> ->]. unfold u16, u32. rewrite (Z.mod_small (jint li (bs "port") 8080)) by lia.
    split; [lia | apply Z.mod_pos_bound; lia]. }
  destruct HLp as [P1 P2]. split_and!; try lia.
  - exists l. split_and!; [done | | done | done | done]. by rewrite negb_true_iff, bool_decide_eq_false in Hne.
  - intros ->. unfold load_tls in HT. destruct (jget root (bs "tls")) as [tl | ]; [ | discriminate HT].
    destruct (tls_mode_of (jstr tl (bs "mode"))) as [[] | ]; [discriminate HT | | | discriminate HT].
    { apply bind_inr in HT as (? & ? & _ & HT). discriminate HT. }
    apply bind_inr in HT as (a & ? & HA & HT). injection HT as <- <- <-. unfold load_acme in HA.
    destruct (jget tl (bs "acme")) as [ao | ]; [ | discriminate HA].
    do 5 (apply bind_inr in HA as (? & ? & _ & HA)). apply bind_inr in HA as (? & ? & G1 & HA). apply bind_inr in HA as (? & ? & G2 & HA).
    apply guard_inr in G1, G2. injection HA as <- _. cbn. apply bool_decide_eq_true in G1, G2. done.
Qed.

(** ** Witnesses *)

Definition demo_env : cfg_env := mk_cenv (λ _, true) (λ _, true) true true (λ _, true).
Definition demo_site (h : json) : json := JObj [(bs "host", h); (bs "docroot", JStr (bs "/srv/www"))].
Definition demo_doc : json :=
  JObj [(bs "listen", JObj [(bs "port", JNum 443); (bs "bind", JStr (bs "127.0.0.1"))]);
        (bs "tls", JObj [(bs "mode", JStr (bs "files")); (bs "cert", JStr (bs "c.pem")); (bs "key", JStr (bs "k.pem"))]);
        (bs "sites", JArr [demo_site (JStr (bs "a.test")); demo_site JNull])].

Lemma config_load_exact_witness :
  (valid_config demo_env demo_doc → portico_config_load demo_env (Some (Some demo_doc)) = inr (config_of demo_doc)) ∧
  cf_domains (config_of demo_doc) = [Some (bs "a.test")].
Proof.
  split; [ | reflexivity]. refine (proj1 (config_load_exact demo_env demo_doc eq_refl eq_refl (λ _, eq_refl) _)).
  intros l Hl. vm_compute in Hl. injection Hl as <-. apply List.Forall_cons; [solve_cstr | apply List.Forall_nil].
Defined.

Lemma config_loaded_wf_witness :
  let c := match portico_config_load demo_env (Some (Some demo_doc)) with inr c => c | inl _ => config_of demo_doc end in
  1 <= cf_port c <= 65535.
Proof. exact (proj1 (config_loaded_wf demo_env demo_doc _ eq_refl)). Defined.

(** Hosts that differ in case only are duplicates. *)
Example config_duplicate_hosts :
  portico_config_load demo_env (Some (Some (JObj [(bs "sites", JArr [demo_site (JStr (bs "a.test")); demo_site (JStr (bs "A.TEST"))])]))) = inl EDuplicateHost.
Proof. reflexivity. Qed.

(** A string that cannot be copied is taken for absent: the TLS configuration loads, in
    the mode of certificate files, without its certificate, and the listener that is then
    created speaks plaintext. *)
Example config_oom_drops_tls :
  match portico_config_load (mk_cenv (λ _, true) (λ _, true) true true (λ n, negb (n =? 1)%nat)) (Some (Some demo_doc)) with
  | inr c => cf_tls_mode c = PORTICO_TLS_FILES ∧ cf_cert c = None
  | inl _ => False
  end.
Proof. split; reflexivity. Qed.
