(* ===== verification/ConfigMem.v ===== *)
(** * The memory of a configuration (src/src/config/portico_config.c)

    [Config] reads strings as values.  Here they are copies in memory that the configuration
    owns: the array of owned pointers that grows, the three tables, and
    [portico_config_free], which the loader's error path and the program use; and the
    reading of the file.  Which allocations succeed is an argument. *)
From Stdlib Require Import ZArith Lia.
From stdpp Require Import base numbers list gmap strings sets.
From S2P Require Import Prelude Cstr HttpConn Config.
Open Scope Z_scope.

(** ** The heap *)

(** The allocated blocks, by address; [hp_next] is the next address. *)
Record heap := mk_heap { blocks : gmap nat (list Z); hp_next : nat }.

Definition alloc (ok : bool) (content : list Z) (h : heap) : option nat * heap :=
  if ok then (Some (hp_next h), mk_heap (<[hp_next h := content]> (blocks h)) (S (hp_next h))) else (None, h).
Definition free (p : option nat) (h : heap) : heap :=
  match p with Some a => mk_heap (delete a (blocks h)) (hp_next h) | None => h end.

(** ** [struct portico_config], the fields that hold memory *)

Record cfg_mem := mk_cmem {
  cm_self : nat; cm_owned : option nat; cm_strs : list nat; cap_owned : Z;
  cm_vhosts : option nat; cm_sni : option nat; cm_domains : option nat
}.
Definition nowned (m : cfg_mem) : Z := zlen (cm_strs m).

(** [calloc] of the object. *)
Definition config_alloc (ok : bool) (h : heap) : option cfg_mem * heap :=
  let '(p, h1) := alloc ok [] h in
  (match p with Some a => Some (mk_cmem a None [] 0 None None None) | None => None end, h1).

(** [own]: [mem] says whether [realloc] and [strdup] succeed. *)
Definition own_room (mem : bool) (m : cfg_mem) (h : heap) : option (cfg_mem * heap) :=
  if nowned m =? cap_owned m then
    let ncap := if cap_owned m =? 0 then 16 else cap_owned m * 2 in
    match alloc mem [] h with
    | (Some a, h1) => Some (mk_cmem (cm_self m) (Some a) (cm_strs m) ncap (cm_vhosts m) (cm_sni m) (cm_domains m), free (cm_owned m) h1)
    | (None, _) => None
    end
  else Some (m, h).
Definition own (mem : bool * bool) (m : cfg_mem) (h : heap) (s : option (list Z)) : option nat * cfg_mem * heap :=
  match s with
  | None => (None, m, h)
  | Some x =>
      match own_room mem.1 m h with
      | None => (None, m, h)
      | Some (m1, h1) =>
          match alloc mem.2 x h1 with
          | (None, h2) => (None, m1, h2)
          | (Some a, h2) => (Some a, mk_cmem (cm_self m1) (cm_owned m1) (cm_strs m1 ++ [a]) (cap_owned m1) (cm_vhosts m1) (cm_sni m1) (cm_domains m1), h2)
          end
      end
  end.

(** The three tables; all three calls are made. *)
Definition alloc_tables (mem : bool * bool * bool) (m : cfg_mem) (h : heap) : bool * cfg_mem * heap :=
  let '(v, h1) := alloc mem.1.1 [] h in
  let '(s, h2) := alloc mem.1.2 [] h1 in
  let '(d, h3) := alloc mem.2 [] h2 in
  (mem.1.1 && mem.1.2 && mem.2, mk_cmem (cm_self m) (cm_owned m) (cm_strs m) (cap_owned m) v s d, h3).

Definition portico_config_free (m : cfg_mem) (h : heap) : heap :=
  let h1 := fold_left (λ h a, free (Some a) h) (cm_strs m) h in
  free (Some (cm_self m)) (free (cm_domains m) (free (cm_sni m) (free (cm_vhosts m) (free (cm_owned m) h1)))).

(** ** Reading the file *)

(** [read_file]: the outcomes of the calls in order; [rd] is what [fread] gave.  The text
    is a C string.  The second result counts the streams left open. *)
Record file_env := mk_fenv { fe_open : bool; fe_seek_end : bool; fe_tell : Z; fe_seek_set : bool; fe_mem : bool; fe_read : list Z }.
Definition read_file (e : file_env) : option (list Z) * Z :=
  if negb (fe_open e) then (None, 0)
  else if negb (fe_seek_end e) then (None, 1 - 1)
  else
    let n := fe_tell e in
    if (n <? 0) || negb (fe_seek_set e) then (None, 1 - 1)
    else if negb (fe_mem e) then (None, 1 - 1)
    else (Some (ztake n (fe_read e)), 1 - 1).

(** The loader from the path on; [parse] is cJSON's. *)
Definition config_load_file (parse : list Z → option json) (e : file_env) (E : cfg_env) : cfg_error + portico_config :=
  portico_config_load E (match (read_file e).1 with Some text => Some (parse (c_string text)) | None => None end).

Lemma c_string_no_nul l : (0 ∉ l) → c_string l = l.
Proof.
  induction l as [ | b l IH]; intros Hl; [done |]. apply not_elem_of_cons in Hl as [Hb Hl]. cbn [c_string].
  rewrite (proj2 (Z.eqb_neq b 0)) by congruence. by rewrite IH.
Qed.

(** A file whose size is known and that is read completely is what is parsed; a read that
    comes up short is not noticed. *)
Lemma read_file_exact parse E text extra :
  let e := mk_fenv true true (zlen text) true true (text ++ extra) in
  (0 ∉ text) → config_load_file parse e E = portico_config_load E (Some (parse text)).
Proof.
  intros e Hz. unfold config_load_file, read_file. cbn [fe_open fe_seek_end fe_tell fe_seek_set fe_mem fe_read negb e].
  rewrite (proj2 (Z.ltb_ge _ _)) by apply zlen_nonneg. cbn [orb fst]. rewrite ztake_app_exact by done. by rewrite c_string_no_nul.
Qed.

(** ** Ownership *)

(** The addresses a configuration holds. *)
Definition opt_list (p : option nat) : list nat := match p with Some a => [a] | None => [] end.
Definition held (m : cfg_mem) : list nat :=
  cm_strs m ++ opt_list (cm_owned m) ++ opt_list (cm_vhosts m) ++ opt_list (cm_sni m) ++ opt_list (cm_domains m) ++ [cm_self m].

(** The heap is [h0] and the blocks [l], each once. *)
Record holding (l : list nat) (h0 h : heap) : Prop := mk_holding {
  hd_dom : ∀ a, a ∈ l → is_Some (blocks h !! a) ∧ blocks h0 !! a = None;
  hd_rest : ∀ a, a ∉ l → blocks h !! a = blocks h0 !! a;
  hd_nodup : NoDup l;
  hd_fresh : ∀ a, is_Some (blocks h !! a) → (a < hp_next h)%nat
}.

Lemma holding_fresh l h0 h : holding l h0 h → blocks h !! hp_next h = None ∧ hp_next h ∉ l.
Proof.
  intros H. assert (HN : blocks h !! hp_next h = None).
  { destruct (blocks h !! hp_next h) eqn:E; [ | done]. assert (hp_next h < hp_next h)%nat by (by apply (hd_fresh _ _ _ H)). lia. }
  split; [done |]. intros Hin. apply (hd_dom _ _ _ H) in Hin as [[x Hx] _]. congruence.
Qed.

Lemma holding_alloc ok c l h0 h :
  holding l h0 h → let '(p, h') := alloc ok c h in holding (opt_list p ++ l) h0 h' ∧ ∀ a, is_Some (blocks h !! a) → blocks h' !! a = blocks h !! a.
Proof.
  intros H. unfold alloc. destruct ok; [ | done]. destruct (holding_fresh _ _ _ H) as [F1 F2]. cbn. split.
  - constructor; cbn.
    + intros a [-> | Ha]%elem_of_cons; [rewrite lookup_insert_eq; split; [done |]; rewrite <- (hd_rest _ _ _ H); done |].
      rewrite lookup_insert_ne by (by intros <-). by apply (hd_dom _ _ _ H).
    + intros a [Hn Ha]%not_elem_of_cons. rewrite lookup_insert_ne by done. by apply (hd_rest _ _ _ H).
    + apply NoDup_cons. split; [done | apply H].
    + intros a. destruct (decide (a = hp_next h)) as [-> | Hn]; [lia |]. rewrite lookup_insert_ne by done. intros Ha%(hd_fresh _ _ _ H). lia.
  - intros a Ha. rewrite lookup_insert_ne; [done |]. intros <-. destruct Ha. congruence.
Qed.

Lemma holding_free p l h0 h : holding (opt_list p ++ l) h0 h → holding l h0 (free p h).
Proof.
  intros H. destruct p as [a | ]; [ | done]. pose proof (hd_nodup _ _ _ H) as HN. cbn in HN. apply NoDup_cons in HN as [Ha HN].
  constructor; cbn; [ | | done |].
  - intros b Hb. rewrite lookup_delete_ne by (by intros ->). apply (hd_dom _ _ _ H). by right.
  - intros b Hb. destruct (decide (b = a)) as [-> | Hn]; [rewrite lookup_delete_eq; symmetry; apply (hd_dom _ _ _ H); by left |].
    rewrite lookup_delete_ne by done. apply (hd_rest _ _ _ H). cbn. by rewrite not_elem_of_cons.
  - intros b. rewrite lookup_delete. case_decide; [by intros [? ?] | apply H].
Qed.

Lemma holding_perm l l' h0 h : Permutation l l' → holding l h0 h → holding l' h0 h.
Proof. intros HP H. constructor; [intros a; rewrite <- HP; apply H | intros a; rewrite <- HP; apply H | rewrite <- HP; apply H | apply H]. Qed.

Lemma holding_free_all l rest h0 h : holding (l ++ rest) h0 h → holding rest h0 (fold_left (λ h a, free (Some a) h) l h).
Proof. revert h. induction l as [ | a l IH]; intros h H; [done |]. cbn. by apply IH, (holding_free (Some a)). Qed.

Lemma free_keeps p h a : p ≠ Some a → blocks (free p h) !! a = blocks h !! a.
Proof. destruct p as [b | ]; [ | done]. intros Hn. cbn. rewrite lookup_delete_ne; [done |]. by intros ->. Qed.

Lemma holding_config_free m h0 h : holding (held m) h0 h → blocks (portico_config_free m h) = blocks h0.
Proof.
  intros H. unfold portico_config_free. apply holding_free_all in H. do 4 apply holding_free in H.
  apply map_eq. intros a. apply (hd_rest _ _ _ (holding_free (Some _) [] _ _ H)). apply not_elem_of_nil.
Qed.

(** [own] answers as the loader has it, and the string stays where it is. *)
Definition own_ok (mem : bool * bool) (m : cfg_mem) : bool := (negb (nowned m =? cap_owned m) || mem.1) && mem.2.

Lemma own_spec mem m h0 h s :
  holding (held m) h0 h → 0 <= nowned m <= cap_owned m →
  let '(p, m', h') := own mem m h s in
  holding (held m') h0 h' ∧ 0 <= nowned m' <= cap_owned m' ∧
  (∀ a, a ∈ cm_strs m → a ∈ cm_strs m' ∧ blocks h' !! a = blocks h !! a) ∧
  match p with
  | Some a => a ∈ cm_strs m' ∧ s = blocks h' !! a ∧ own_ok mem m = true
  | None => s = None ∨ own_ok mem m = false
  end.
Proof.
  intros H Hc. unfold own. destruct s as [x | ]; [ | split; [done |]; split; [done |]; split; [by intros a Ha |]; by left].
  (* making room *)
  assert (HR : match own_room mem.1 m h with
    | Some (m1, h1) => cm_strs m1 = cm_strs m ∧ holding (held m1) h0 h1 ∧ nowned m1 < cap_owned m1 ∧
        (∀ a, a ∈ cm_strs m → blocks h1 !! a = blocks h !! a) ∧ negb (nowned m =? cap_owned m) || mem.1 = true
    | None => negb (nowned m =? cap_owned m) || mem.1 = false end).
  { unfold own_room. destruct (nowned m =? cap_owned m) eqn:En; cbn [negb orb].
    2: { zbool. split_and!; try done. lia. }
    pose proof (holding_alloc mem.1 [] _ _ _ H) as HA. unfold alloc in *. destruct mem.1; [ | done]. destruct HA as [HA HB]. cbn [opt_list] in HA.
    zbool. split_and!; [done | | unfold nowned in *; cbn; split_if; zbool; lia | | done].
    - apply holding_free. eapply holding_perm; [ | exact HA]. unfold held. cbn [cm_strs cm_owned cm_vhosts cm_sni cm_domains cm_self opt_list].
      rewrite Permutation_app_swap_app. cbn. rewrite (Permutation_app_comm (opt_list (cm_owned m))). by solve_Permutation.
    - intros a Ha. rewrite free_keeps; [ | intros E].
      + apply HB, (hd_dom _ _ _ H). unfold held. set_solver.
      + pose proof (hd_nodup _ _ _ H) as HN. unfold held in HN. apply NoDup_app in HN as (_ & HN & _). apply (HN a Ha). rewrite E. set_solver. }
  destruct (own_room mem.1 m h) as [[m1 h1] | ]; [ | split; [done |]; split; [done |]; split; [by intros a Ha |]; right; unfold own_ok; by rewrite HR].
  destruct HR as (E1 & H1 & C1 & B1 & O1). pose proof (holding_alloc mem.2 x _ _ _ H1) as HA. unfold alloc in *.
  destruct mem.2 eqn:E2; destruct HA as [HA HB].
  - assert (B2 : ∀ a, a ∈ cm_strs m → blocks h1 !! a = blocks h !! a ∧ is_Some (blocks h1 !! a)).
    { intros a Ha. split; [by apply B1 |]. rewrite B1 by done. apply (hd_dom _ _ _ H). unfold held. set_solver. }
    split_and!.
    + eapply holding_perm; [ | exact HA]. unfold held. cbn [cm_strs cm_owned cm_vhosts cm_sni cm_domains cm_self opt_list]. by solve_Permutation.
    + apply zlen_nonneg.
    + unfold nowned in *. cbn [cm_strs cap_owned] in *. rewrite zlen_app, zlen_cons, zlen_nil. lia.
    + intros a Ha. cbn [cm_strs]. rewrite E1. split; [set_solver |]. destruct (B2 a Ha) as [<- Hs]. by apply HB.
    + cbn. set_solver.
    + cbn. by rewrite lookup_insert_eq.
    + unfold own_ok. by rewrite O1, E2.
  - split; [done |]. split; [unfold nowned in *; rewrite E1 in *; pose proof (zlen_nonneg (cm_strs m)); lia |].
    split; [intros a Ha; rewrite E1; split; [done | by apply B1] |]. right. unfold own_ok. by rewrite E2, andb_false_r.
Qed.

Lemma tables_spec mem m h0 h :
  holding (held m) h0 h → cm_vhosts m = None → cm_sni m = None → cm_domains m = None →
  let '(ok, m', h') := alloc_tables mem m h in
  holding (held m') h0 h' ∧ cm_strs m' = cm_strs m ∧ cap_owned m' = cap_owned m ∧ ∀ a, a ∈ cm_strs m → blocks h' !! a = blocks h !! a.
Proof.
  intros H Hv Hs Hd. unfold alloc_tables.
  pose proof (holding_alloc mem.1.1 [] _ _ _ H) as H1. destruct (alloc mem.1.1 [] h) as [v h1]. destruct H1 as [H1 B1].
  pose proof (holding_alloc mem.1.2 [] _ _ _ H1) as H2. destruct (alloc mem.1.2 [] h1) as [s h2]. destruct H2 as [H2 B2].
  pose proof (holding_alloc mem.2 [] _ _ _ H2) as H3. destruct (alloc mem.2 [] h2) as [d h3]. destruct H3 as [H3 B3].
  split_and!; [ | done | done |].
  - eapply holding_perm; [ | exact H3]. unfold held. rewrite Hv, Hs, Hd. cbn [cm_strs cm_owned cm_vhosts cm_sni cm_domains cm_self opt_list app].
    by solve_Permutation.
  - intros a Ha. assert (Hi : is_Some (blocks h !! a)) by (apply (hd_dom _ _ _ H); unfold held; set_solver).
    assert (E1 := B1 a Hi). rewrite <- E1 in Hi. assert (E2 := B2 a Hi). rewrite <- E2 in Hi. rewrite (B3 a Hi). congruence.
Qed.

(** *** A load *)

(** The strings copied before and after the tables, with the outcomes of the allocations. *)
Definition owns : Type := list (bool * bool * option (list Z)).
Fixpoint own_all (l : owns) (m : cfg_mem) (h : heap) : list (option nat) * cfg_mem * heap :=
  match l with
  | [] => ([], m, h)
  | (mem, s) :: r =>
      let '(p, m1, h1) := own mem m h s in
      let '(ps, m2, h2) := own_all r m1 h1 in (p :: ps, m2, h2)
  end.

Lemma own_all_spec l m h0 h :
  holding (held m) h0 h → 0 <= nowned m <= cap_owned m →
  let '(ps, m', h') := own_all l m h in
  holding (held m') h0 h' ∧ 0 <= nowned m' <= cap_owned m' ∧
  (∀ a, a ∈ cm_strs m → a ∈ cm_strs m' ∧ blocks h' !! a = blocks h !! a) ∧
  (cm_vhosts m', cm_sni m', cm_domains m') = (cm_vhosts m, cm_sni m, cm_domains m) ∧
  Forall2 (λ p (x : bool * bool * option (list Z)), match p with Some a => a ∈ cm_strs m' ∧ x.2 = blocks h' !! a | None => True end) ps l.
Proof.
  revert m h. induction l as [ | [mem s] l IH]; intros m h H Hc; cbn [own_all].
  { split; [done |]. split; [done |]. split; [by intros a Ha |]. by split; [ | constructor]. }
  pose proof (own_spec mem m h0 h s H Hc) as HO.
  assert (HT : let '(_, m', _) := own mem m h s in (cm_vhosts m', cm_sni m', cm_domains m') = (cm_vhosts m, cm_sni m, cm_domains m)).
  { unfold own, own_room, alloc. repeat case_match; simplify_eq; done. }
  destruct (own mem m h s) as [[p m1] h1]. destruct HO as (H1 & C1 & B1 & P1). specialize (IH m1 h1 H1 C1).
  destruct (own_all l m1 h1) as [[ps m2] h2]. destruct IH as (H2 & C2 & B2 & T2 & F2). split; [done |]. split; [done |].
  split; [intros a Ha; destruct (B1 a Ha) as [I1 E1]; destruct (B2 a I1) as [I2 E2]; split; [done | congruence] |].
  split; [congruence |]. constructor; [ | done]. destruct p as [a | ]; [ | done]. destruct P1 as (I1 & E1 & _).
  destruct (B2 a I1) as [I2 E2]. split; [done |]. cbn. congruence.
Qed.

(** The memory of a configuration: whatever strings the loader copies, before and after
    the tables, and whichever allocations fail, the object is either not made or owns what
    was allocated and nothing else; a string that was handed out is still the text it was
    copied from when the load is over, and is one of the owned; the array of owned strings
    never overflows; and [portico_config_free], on the error path as after a load, gives
    back exactly that memory. *)
Theorem config_owns_strings ok mem l1 l2 h0 :
  (∀ a, is_Some (blocks h0 !! a) → (a < hp_next h0)%nat) →
  match config_alloc ok h0 with
  | (None, h) => h = h0
  | (Some m, h) =>
      let '(ps1, m1, h1) := own_all l1 m h in
      let '(tables, m2, h2) := alloc_tables mem m1 h1 in
      let '(ps2, m3, h3) := own_all l2 m2 h2 in
      0 <= nowned m3 <= cap_owned m3 ∧
      Forall2 (λ p (x : bool * bool * option (list Z)), match p with Some a => a ∈ cm_strs m3 ∧ x.2 = blocks h3 !! a | None => True end) (ps1 ++ ps2) (l1 ++ l2) ∧
      (∀ a, is_Some (blocks h3 !! a) ↔ a ∈ held m3 ∨ is_Some (blocks h0 !! a)) ∧
      blocks (portico_config_free m1 h1) = blocks h0 ∧ blocks (portico_config_free m2 h2) = blocks h0 ∧ blocks (portico_config_free m3 h3) = blocks h0
  end.
Proof.
  intros Hf. assert (H0 : holding [] h0 h0) by (constructor; [intros a Ha; set_solver | done | constructor | done]).
  pose proof (holding_alloc ok [] _ _ _ H0) as HA. unfold config_alloc. destruct (alloc ok [] h0) as [[a | ] h] eqn:E.
  2: { unfold alloc in E. destruct ok; [discriminate E | by injection E]. }
  destruct HA as [HA _]. set (m := mk_cmem a None [] 0 None None None).
  pose proof (own_all_spec l1 m h0 h HA ltac:(done)) as O1. destruct (own_all l1 m h) as [[ps1 m1] h1]. destruct O1 as (H1 & C1 & _ & T1 & F1).
  injection T1 as T1 T2 T3. pose proof (tables_spec mem m1 h0 h1 H1 T1 T2 T3) as HT. destruct (alloc_tables mem m1 h1) as [[ok2 m2] h2].
  destruct HT as (H2 & S2 & P2 & B2). assert (C2 : 0 <= nowned m2 <= cap_owned m2) by (unfold nowned in *; by rewrite S2, P2).
  pose proof (own_all_spec l2 m2 h0 h2 H2 C2) as O3. destruct (own_all l2 m2 h2) as [[ps2 m3] h3]. destruct O3 as (H3 & C3 & B3 & _ & F3).
  split; [done |]. split.
  { apply Forall2_app; [ | done]. eapply Forall2_impl; [exact F1 |]. intros [b | ] x; [ | done]. intros [Hb Ex].
    destruct (B3 b) as [I3 E3]; [by rewrite S2 |]. split; [done |]. rewrite Ex. rewrite E3. symmetry. by apply B2. }
  split; [ | split_and!; by apply holding_config_free].
  intros b. destruct (decide (b ∈ held m3)) as [Hb | Hb]; [split; [by left | intros _; by apply (hd_dom _ _ _ H3)] |].
  rewrite (hd_rest _ _ _ H3 b Hb). tauto.
Qed.

(** With seventeen strings the array grows once; the tables cannot be allocated. *)
Definition demo_owns : owns := replicate 17 (true, true, Some (bs "a.test")).
Lemma config_owns_strings_witness :
  match config_alloc true (mk_heap ∅ 0) with
  | (None, _) => False
  | (Some m, h) =>
      let '(_, m1, h1) := own_all demo_owns m h in
      let '(tables, m2, h2) := alloc_tables (true, false, true) m1 h1 in
      tables = false ∧ cap_owned m2 = 32 ∧ blocks (portico_config_free m2 h2) = ∅
  end.
Proof.
  pose proof (config_owns_strings true (true, false, true) demo_owns [] (mk_heap ∅ 0) (λ a H, ltac:(cbn in H; rewrite lookup_empty in H; by destruct H))) as H.
  destruct (config_alloc true (mk_heap ∅ 0)) as [[m | ] h] eqn:E; [ | discriminate E].
  assert (EC : cap_owned (alloc_tables (true, false, true) (own_all demo_owns m h).1.2 (own_all demo_owns m h).2).1.2 = 32).
  { unfold config_alloc, alloc in E. cbn in E. injection E as <- <-. vm_compute. reflexivity. }
  destruct (own_all demo_owns m h) as [[ps m1] h1]. cbn [fst snd] in EC. destruct (alloc_tables _ m1 h1) as [[t m2] h2] eqn:ET.
  split; [symmetry; exact (f_equal (λ x, x.1.1) ET) | split; [exact EC |]]. apply H.
Defined.
