(* ===== verification/AcmeHttp.v ===== *)
(** * HTTPS of the ACME client (src/src/acme/acme_https.c)

    One exchange with the CA: splitting the URL, building the request, reading the answer
    into a growing buffer, header lookup, chunked and plain bodies.  The TLS connection is
    the list of the reads it gives. *)
From Stdlib Require Import ZArith Lia.
From stdpp Require Import base numbers list strings gmap.
From S2P Require Import Prelude Cstr HttpRequest HttpResponse HttpStatic StaticSpec.
Open Scope Z_scope.

(** ** URLs *)

(** The text before the first [c], and what follows it if it is there ([strchr]). *)
Fixpoint split_at (c : Z) (s : list Z) : list Z * option (list Z) :=
  match s with
  | [] => ([], None)
  | x :: t => if x =? c then ([], Some t) else let '(a, b) := split_at c t in (x :: a, b)
  end.

(** [parse_url]: host, port and path, within their capacities. *)
Definition parse_url (url : list Z) (hostcap portcap pathcap : Z) : option (list Z * list Z * list Z) :=
  if negb (bool_decide (take 8 url = bs "https://")) then None
  else
    let '(authority, rest) := split_at 47 (drop 8 url) in
    let '(host, port) := split_at 58 authority in
    if (zlen host =? 0) || (hostcap <=? zlen host) then None
    else
      let path := ztake (pathcap - 1) (match rest with Some r => 47 :: r | None => bs "/" end) in
      match port with
      | Some p => if (zlen p =? 0) || (portcap <=? zlen p) then None else Some (host, p, path)
      | None => Some (host, ztake (portcap - 1) (bs "443"), path)
      end.

(** ** Header lookup *)

Definition is_blank (c : Z) : bool := (c =? 32) || (c =? 9).
Definition is_tail_blank (c : Z) : bool := (c =? 13) || (c =? 32) || (c =? 9).
Fixpoint drop_while (p : Z → bool) (s : list Z) : list Z :=
  match s with
  | [] => []
  | c :: t => if p c then drop_while p t else s
  end.

(** The value of a line that starts with [name] and a colon. *)
Definition line_value (line name : list Z) : option (list Z) :=
  if (zlen name <? zlen line) && (rd line (zlen name) =? 58) && (ws_strncasecmp line name (length name) =? 0) then
    Some (rev (drop_while is_tail_blank (rev (drop_while is_blank (zdrop (zlen name + 1) line)))))
  else None.

(** [get_header]: the first such line, cut to the buffer; empty if there is none.  Each
    turn drops a line, so [length hdrs + 1] turns are enough. *)
Fixpoint header_scan (fuel : nat) (hdrs name : list Z) (cap : Z) : list Z :=
  match fuel, hdrs with
  | O, _ | _, [] => []
  | S f, _ =>
      let '(line, rest) := split_at 10 hdrs in
      match line_value line name with
      | Some v => ztake (cap - 1) v
      | None => match rest with Some r => header_scan f r name cap | None => [] end
      end
  end.
Definition get_header (hdrs name : list Z) (cap : Z) : list Z := header_scan (S (length hdrs)) hdrs name cap.

(** ** Chunked bodies *)

Definition xdigit (c : Z) : option Z :=
  if (48 <=? c) && (c <=? 57) then Some (c - 48)
  else if (97 <=? c) && (c <=? 102) then Some (c - 87)
  else if (65 <=? c) && (c <=? 70) then Some (c - 55)
  else None.
Definition is_hex (c : Z) : bool := match xdigit c with Some _ => true | None => false end.

(** The run of hexadecimal digits at the start: its value and the rest. *)
Fixpoint hex_run (s : list Z) (acc : Z) : Z * list Z :=
  match s with
  | [] => (acc, [])
  | c :: t => match xdigit c with Some v => hex_run t (acc * 16 + v) | None => (acc, s) end
  end.

(** [strtol (s, &end, 16)]: the value, saturated, and the rest; [None] if nothing was
    converted. *)
Definition strtol16 (s : list Z) : option (Z * list Z) :=
  let s1 := drop_spaces s in
  let '(neg, s2) := match s1 with 45 :: t => (true, t) | 43 :: t => (false, t) | _ => (false, s1) end in
  let s3 := match s2 with
            | 48 :: x :: d :: t => if ((x =? 120) || (x =? 88)) && is_hex d then d :: t else s2
            | _ => s2
            end in
  match s3 with
  | c :: _ =>
      if is_hex c then
        let '(v, rest) := hex_run s3 0 in
        Some (if neg then Z.max (- v) (- LONG_MAX - 1) else Z.min v LONG_MAX, rest)
      else None
  | [] => None
  end.

Definition is_crlf (c : Z) : bool := (c =? 13) || (c =? 10).

(** [dechunk]'s loop, on what is left of the input.  Each turn consumes a line, so
    [length s] turns are enough. *)
Fixpoint dechunk_loop (fuel : nat) (s out : list Z) : list Z :=
  match fuel with
  | O => out
  | S f =>
      match s with
      | [] => out
      | _ =>
          match strtol16 s with
          | None => out
          | Some (sz, rest) =>
              match (split_at 10 rest).2 with
              | None => out
              | Some r =>
                  if sz <=? 0 then out
                  else
                    let sz := if zlen r <? sz then zlen r else sz in
                    dechunk_loop f (drop_while is_crlf (zdrop sz r)) (out ++ ztake sz r)
              end
          end
      end
  end.
Definition dechunk (s : list Z) : list Z := dechunk_loop (length s) s [].

(** ** The response parser of [portico_https_request] *)

(** The header block and the body: split at the first blank line. *)
Fixpoint split_response (s : list Z) : option (list Z * list Z) :=
  match s with
  | [] => None
  | c :: t =>
      match s with
      | 13 :: 10 :: 13 :: 10 :: b => Some ([], b)
      | _ => match split_response t with Some (h, b) => Some (c :: h, b) | None => None end
      end
  end.

(** [atoi]: glibc's [(int) strtol (s, NULL, 10)]. *)
Definition atoi (s : list Z) : Z := i32 (strtoll s).1.

(** [portico_http_response_t]; [r_body] is [None] when its allocation failed. *)
Record http_resp := mk_resp { r_status : Z; r_nonce : list Z; r_location : list Z; r_ctype : list Z; r_body : option (list Z) }.

(** What is made of the bytes received; [mem] is the outcome of the body's allocation. *)
Definition parse_response (mem : bool) (raw : list Z) : option http_resp :=
  match split_response raw with
  | None => None
  | Some (hdrs, body) =>
      let status := if bool_decide (take 7 raw = bs "HTTP/1.")
                    then match (split_at 32 hdrs).2 with Some _ => atoi (default [] (split_at 32 raw).2) | None => -1 end
                    else -1 in
      let te := get_header hdrs (bs "Transfer-Encoding") 32 in
      Some (mk_resp status (get_header hdrs (bs "Replay-Nonce") 256) (get_header hdrs (bs "Location") 2048)
              (get_header hdrs (bs "Content-Type") 128)
              (if negb mem then None
               else Some (if ws_strcasecmp te (bs "chunked") =? 0 then dechunk body else body)))
  end.

(** ** Reading to the end of the stream *)

(** What [SSL_read] gives: bytes, a retry, or the end (closed or failed). *)
Inductive ssl_ev := Got (b : list Z) | Retry | End.

(** [read_all]'s loop: the events and, before each read that needs it, the outcome of
    [realloc]; the bytes read and the buffer's capacity.  A read gives at most 4096 bytes.
    The list of events running out stands for a stream that has not ended yet. *)
Fixpoint read_loop (evs : list ssl_ev) (mem : list bool) (cap : Z) (buf : list Z) : option (option (list Z * Z)) :=
  let grow := cap <? zlen buf + 4096 in
  let cap' := if grow then cap * 2 else cap in
  let mem' := if grow then tail mem else mem in
  if grow && negb (default true (head mem)) then Some None
  else match evs with
       | [] => None
       | Got b :: evs => read_loop evs mem' cap' (buf ++ ztake 4096 b)
       | Retry :: evs => read_loop evs mem' cap' buf
       | End :: _ => Some (Some (buf, cap'))
       end.

(** [read_all]: [Some None] is NULL. *)
Definition read_all (evs : list ssl_ev) (mem : list bool) : option (option (list Z)) :=
  if negb (default true (head mem)) then Some None
  else match read_loop evs (tail mem) 8192 [] with
       | Some (Some (buf, _)) => Some (Some buf)
       | Some None => Some None
       | None => None
       end.

(** ** The exchange *)

Definition host_header (host port : list Z) : list Z :=
  ztake 279 (if bool_decide (port = bs "443") then host else host ++ bs ":" ++ port).

(** The request head, [None] when it does not fit its 4096 bytes. *)
Definition request_head (method path host_hdr headers : list Z) (body : option (list Z)) : option (list Z) :=
  let head := method ++ bs " " ++ path ++ bs " HTTP/1.1" ++ CRLF ++ bs "Host: " ++ host_hdr ++ CRLF ++
              bs "User-Agent: portico-acme" ++ CRLF ++ headers ++
              (match body with Some b => bs "Content-Length: " ++ dec_string (zlen b) ++ CRLF | None => [] end) ++
              bs "Connection: close" ++ CRLF ++ CRLF in
  if (zlen head <=? 0) || (4096 <=? zlen head) then None else Some head.

(** A verified connection to a host and port, as a function of the state of the outside
    world: given the bytes written, the bytes read up to the end of the stream and whether
    the body could then be allocated; [None] when the trust store, the connection, the
    handshake, a write or [read_all] fails. *)
Definition transport (W : Type) := W → list Z → list Z → list Z → option (list Z * bool) * W.

(** [portico_https_request]: [None] is -1. *)
Definition portico_https_request {W} (net : transport W) (w : W) (method url headers : list Z) (body : option (list Z)) : option http_resp * W :=
  match parse_url url 256 16 2048 with
  | None => (None, w)
  | Some (host, port, path) =>
      match request_head method path (host_header host port) headers body with
      | None => (None, w)
      | Some head =>
          match net w host port (head ++ default [] body) with
          | (None, w) => (None, w)
          | (Some (raw, mem), w) => (parse_response mem raw, w)
          end
      end
  end.

(** ** A chunked body is decoded *)

Definition chunk (d : list Z) : list Z := hex_string (zlen d) ++ CRLF ++ d ++ CRLF.
Definition chunked (parts : list (list Z)) : list Z := concat (chunk <$> parts) ++ bs "0" ++ CRLF ++ CRLF.

Definition hexd (c : Z) : Prop := 48 <= c <= 57 ∨ 97 <= c <= 102.

Fixpoint hex_value (l : list Z) (acc : Z) : Z :=
  match l with [] => acc | c :: t => hex_value t (acc * 16 + default 0 (xdigit c)) end.

Lemma hexd_xdigit c : hexd c → xdigit c = Some (if c <=? 57 then c - 48 else c - 87).
Proof.
  intros H. unfold xdigit. destruct H as [H | H].
  - rewrite (proj2 (Z.leb_le 48 c)), (proj2 (Z.leb_le c 57)) by lia. done.
  - rewrite (proj2 (Z.leb_le 48 c)), (proj2 (Z.leb_gt c 57)) by lia. cbn.
    by rewrite (proj2 (Z.leb_le 97 c)), (proj2 (Z.leb_le c 102)) by lia.
Qed.

Lemma hex_run_digits l c rest acc : Forall hexd l → xdigit c = None → hex_run (l ++ c :: rest) acc = (hex_value l acc, c :: rest).
Proof.
  intros HF Hc. revert acc. induction HF as [ | d l Hd HF IH]; intros acc; cbn [app hex_run hex_value]; [by rewrite Hc |].
  rewrite (hexd_xdigit d Hd). by rewrite IH.
Qed.

Lemma hex_digit_xdigit n : 0 <= n < 16 → hexd (hex_digit n) ∧ xdigit (hex_digit n) = Some n.
Proof.
  intros Hn. assert (Hd : hexd (hex_digit n)) by (unfold hexd, hex_digit; split_if; lia). split; [done |].
  rewrite (hexd_xdigit _ Hd). unfold hex_digit. destruct (Z.ltb_spec n 10); split_if; f_equal; lia.
Qed.

Lemma hex_digits_ok fuel n acc : 0 <= n → Forall hexd acc → Forall hexd (hex_digits fuel n acc).
Proof.
  revert n acc. induction fuel as [ | f IH]; intros n acc Hn Ha; cbn [hex_digits]; [done |].
  assert (Forall hexd (hex_digit (n mod 16) :: acc)) by (constructor; [apply hex_digit_xdigit, Z.mod_pos_bound; lia | done]).
  split_if; [done | apply IH; [apply Z.div_pos; lia | done]].
Qed.

Lemma hex_digits_value fuel n acc :
  0 <= n < 16 ^ Z.of_nat fuel → (0 < fuel)%nat → hex_value (hex_digits fuel n acc) 0 = hex_value acc n.
Proof.
  revert n acc. induction fuel as [ | f IH]; intros n acc Hn Hf; [lia |]. cbn [hex_digits].
  assert (Hv : xdigit (hex_digit (n mod 16)) = Some (n mod 16)) by (apply hex_digit_xdigit, Z.mod_pos_bound; lia).
  destruct (Z.ltb_spec n 16).
  - cbn [hex_value]. rewrite Hv. cbn [default]. f_equal. rewrite Z.mod_small by lia. done.
  - destruct f as [ | f]; [cbn in Hn; lia |].
    rewrite IH; [ | rewrite Nat2Z.inj_succ, Z.pow_succ_r in Hn by lia; split; [apply Z.div_pos; lia | apply Z.div_lt_upper_bound; lia] | lia].
    cbn [hex_value]. rewrite Hv. cbn [default]. f_equal. unfold id. pose proof (Z.div_mod n 16). lia.
Qed.

Lemma hex_digits_nonempty f n a : a ≠ [] → hex_digits f n a ≠ [].
Proof. revert n a. induction f as [ | f IH]; intros n a Ha; cbn [hex_digits]; [done |]. split_if; [done | by apply IH]. Qed.

Lemma hex_digits_S f n : hex_digits (S f) n [] ≠ [].
Proof. cbn [hex_digits]. split_if; [done | by apply hex_digits_nonempty]. Qed.

Lemma hex_string_spec n : 0 <= n < 2 ^ 63 → Forall hexd (hex_string n) ∧ hex_string n ≠ [] ∧ hex_value (hex_string n) 0 = n.
Proof.
  intros Hn. unfold hex_string, u64. rewrite Z.mod_small by lia. split_and!.
  - by apply hex_digits_ok; [lia |].
  - apply hex_digits_S.
  - rewrite hex_digits_value; [done | | lia]. change (16 ^ Z.of_nat 16) with (2 ^ 64). lia.
Qed.

Lemma strtol16_hex l c rest :
  Forall hexd l → l ≠ [] → xdigit c = None → (c ≠ 120) → (c ≠ 88) → 0 <= hex_value l 0 <= LONG_MAX →
  strtol16 (l ++ c :: rest) = Some (hex_value l 0, c :: rest).
Proof.
  intros HF Hne Hc Hx HX Hv. unfold strtol16. destruct l as [ | d l]; [done |]. pose proof HF as HF0. apply Forall_cons in HF as [Hd HF].
  assert (Es : drop_spaces ((d :: l) ++ c :: rest) = (d :: l) ++ c :: rest).
  { cbn [app drop_spaces]. unfold isspace. destruct Hd as [Hd | Hd]; (rewrite (proj2 (Z.eqb_neq d 32)), (proj2 (Z.leb_gt d 13)) by lia; by rewrite andb_false_r). }
  rewrite Es.
  assert (E1 : (match (d :: l) ++ c :: rest with 45 :: t => (true, t) | 43 :: t => (false, t) | _ => (false, (d :: l) ++ c :: rest) end)
               = (false, (d :: l) ++ c :: rest)).
  { cbn [app]. destruct Hd as [Hd | Hd]; destruct d as [ | p | p]; try lia; do 7 (try destruct p as [p | p | ]; try lia; try done). }
  rewrite E1.
  set (s3 := match (d :: l) ++ c :: rest with 48 :: x :: y :: t => _ | _ => _ end).
  assert (E3 : s3 = (d :: l) ++ c :: rest).
  { unfold s3. clear s3. cbn [app]. destruct (decide (d = 48)) as [-> | Hn]; [ | destruct d as [ | p | p]; try done; do 7 (try destruct p as [p | p | ]; try done)].
    destruct l as [ | e l]; cbn [app].
    - destruct rest; [done |]. by rewrite (proj2 (Z.eqb_neq c 120)), (proj2 (Z.eqb_neq c 88)).
    - apply Forall_cons in HF as [He _]. destruct (l ++ c :: rest) eqn:El; [by destruct l |].
      rewrite (proj2 (Z.eqb_neq e 120)), (proj2 (Z.eqb_neq e 88)) by (destruct He; lia). done. }
  rewrite E3. cbn [app]. change (d :: l ++ c :: rest) with ((d :: l) ++ c :: rest).
  assert (Eh : is_hex d = true) by (unfold is_hex; by rewrite (hexd_xdigit d Hd)). rewrite Eh.
  rewrite (hex_run_digits (d :: l) c rest 0 HF0 Hc). by rewrite Z.min_l by lia.
Qed.

Lemma drop_crlf_hex d rest : hexd d → drop_while is_crlf (13 :: 10 :: d :: rest) = d :: rest.
Proof.
  intros Hd. cbn [drop_while is_crlf]. cbn. unfold is_crlf. by rewrite (proj2 (Z.eqb_neq d 13)), (proj2 (Z.eqb_neq d 10)) by (destruct Hd; lia).
Qed.

(** One chunk; what follows starts with a hexadecimal digit. *)
Lemma dechunk_step f d h rest out :
  d ≠ [] → zlen d < 2 ^ 63 → hexd h →
  dechunk_loop (S f) (chunk d ++ h :: rest) out = dechunk_loop f (h :: rest) (out ++ d).
Proof.
  intros Hd Hl Hh. pose proof (zlen_nonneg d) as H0. assert (Hpos : 0 < zlen d) by (destruct d; [done | rewrite zlen_cons; pose proof (zlen_nonneg d); lia]).
  destruct (hex_string_spec (zlen d)) as (F1 & F2 & F3); [lia |].
  unfold chunk, CRLF. rewrite <- !app_assoc. cbn [app].
  assert (Es : strtol16 (hex_string (zlen d) ++ 13 :: 10 :: d ++ 13 :: 10 :: h :: rest) = Some (zlen d, 13 :: 10 :: d ++ 13 :: 10 :: h :: rest)).
  { rewrite strtol16_hex; [by rewrite F3 | done | done | done | done | done | rewrite F3; unfold LONG_MAX; lia]. }
  cbn [dechunk_loop]. destruct (hex_string (zlen d) ++ 13 :: 10 :: d ++ 13 :: 10 :: h :: rest) eqn:El; [by destruct (hex_string (zlen d)) |].
  rewrite <- El in Es |- *. rewrite Es. cbn [split_at Z.eqb Pos.eqb snd].
  rewrite (proj2 (Z.leb_gt (zlen d) 0)) by lia.
  assert (Hlen : zlen d <= zlen (d ++ 13 :: 10 :: h :: rest)) by (rewrite zlen_app; pose proof (zlen_nonneg (13 :: 10 :: h :: rest)); lia).
  rewrite (proj2 (Z.ltb_ge _ _)) by lia. unfold zdrop, ztake, zlen. rewrite Nat2Z.id, drop_app_length, take_app_length.
  by rewrite drop_crlf_hex.
Qed.

Lemma dechunk_last f out : dechunk_loop (S f) (bs "0" ++ CRLF ++ CRLF) out = out.
Proof. done. Qed.

Definition part_ok (d : list Z) : Prop := d ≠ [] ∧ zlen d < 2 ^ 63.

Lemma chunked_head parts : Forall part_ok parts → ∃ h t, hexd h ∧ chunked parts = h :: t.
Proof.
  intros HF. destruct HF as [ | d parts [Hd Hl] HF]; [exists 48, [13; 10; 13; 10]; split; [unfold hexd; lia | done] |].
  pose proof (zlen_nonneg d). destruct (hex_string_spec (zlen d)) as (F1 & F2 & _); [lia |].
  unfold chunked. cbn [fmap list_fmap concat]. unfold chunk at 1. destruct (hex_string (zlen d)) as [ | h t]; [done |].
  apply Forall_cons in F1 as [Hh _]. by eexists h, _.
Qed.

Lemma dechunk_chunked parts : Forall part_ok parts → ∀ f out, (length parts < f)%nat → dechunk_loop f (chunked parts) out = out ++ concat parts.
Proof.
  induction 1 as [ | d parts [Hd Hl] HF IH]; intros f out Hf.
  - destruct f as [ | f]; [cbn in Hf; lia |]. cbn [concat]. rewrite app_nil_r. apply dechunk_last.
  - destruct f as [ | f]; [cbn in Hf; lia |]. destruct (chunked_head parts HF) as (h & t & Hh & Et).
    replace (chunked (d :: parts)) with (chunk d ++ h :: t).
    + rewrite (dechunk_step f d h t out Hd Hl Hh), <- Et, IH by (cbn in Hf; lia). cbn [concat]. by rewrite app_assoc.
    + rewrite <- Et. unfold chunked. cbn [fmap list_fmap concat]. by rewrite app_assoc.
Qed.

Lemma length_chunked parts : (length parts < length (chunked parts))%nat.
Proof.
  unfold chunked. rewrite length_app. induction parts as [ | d parts IH]; cbn [fmap list_fmap concat length]; [cbn; lia |].
  rewrite length_app. assert (2 <= length (chunk d))%nat by (unfold chunk, CRLF; rewrite !length_app; cbn; lia). lia.
Qed.

(** What the scanners leave is a suffix of what they are given. *)
Lemma split_at_app c s : ∀ r, (split_at c s).2 = Some r → ∃ a, s = a ++ c :: r.
Proof.
  induction s as [ | x t IH]; intros r; cbn [split_at]; [done |]. destruct (Z.eqb_spec x c) as [-> | Hx].
  - cbn. intros [= <-]. by exists [].
  - destruct (split_at c t) as [a b]. cbn in *. intros ->. destruct (IH r eq_refl) as [k ->]. by exists (x :: k).
Qed.

Lemma drop_while_length p s : (length (drop_while p s) <= length s)%nat.
Proof. induction s as [ | x t IH]; cbn [drop_while]; [done |]. split_if; cbn; lia. Qed.

Lemma hex_run_length s acc : (length (hex_run s acc).2 <= length s)%nat.
Proof. revert acc. induction s as [ | x t IH]; intros acc; cbn [hex_run]; [done |]. destruct (xdigit x); cbn; [rewrite IH; lia | lia]. Qed.

Lemma strtol16_length s v rest : strtol16 s = Some (v, rest) → (length rest <= length s)%nat.
Proof.
  unfold strtol16. destruct (drop_spaces_suffix s) as (k & Ek & _). assert (H1 : (length (drop_spaces s) <= length s)%nat) by (rewrite Ek at 2; rewrite length_app; lia).
  set (p := match drop_spaces s with 45 :: t => (true, t) | 43 :: t => (false, t) | _ => (false, drop_spaces s) end).
  assert (H2 : (length p.2 <= length s)%nat) by (unfold p; clear p; repeat case_match; subst; cbn in *; lia).
  destruct p as [neg s2]. cbn [snd] in H2.
  set (s3 := match s2 with 48 :: x :: d :: t => _ | _ => _ end).
  assert (H3 : (length s3 <= length s)%nat) by (unfold s3; clear s3; repeat case_match; subst; cbn in *; lia).
  clearbody s3. destruct s3 as [ | c t]; [done |]. destruct (is_hex c); [ | done].
  pose proof (hex_run_length (c :: t) 0). destruct (hex_run (c :: t) 0) as [w r]. intros [= _ <-]. cbn [snd] in *. lia.
Qed.

(** A turn of the loop shrinks the input by more than it adds to the output. *)
Lemma dechunk_turn s sz rest r :
  strtol16 s = Some (sz, rest) → (split_at 10 rest).2 = Some r → 0 < sz → sz <= zlen r →
  zlen (ztake sz r) + zlen (drop_while is_crlf (zdrop sz r)) < zlen s.
Proof.
  intros H1 H2 H3 H4. apply strtol16_length in H1. apply split_at_app in H2 as [a ->]. rewrite length_app in H1. cbn in H1.
  rewrite zlen_ztake by lia. pose proof (drop_while_length is_crlf (zdrop sz r)) as Hd.
  assert (zlen (zdrop sz r) = zlen r - sz) by (apply zlen_zdrop; lia). unfold zlen in *. lia.
Qed.

Lemma dechunk_bounded f : ∀ s out, zlen (dechunk_loop f s out) <= zlen out + zlen s.
Proof.
  induction f as [ | f IH]; intros s out; cbn [dechunk_loop]; [pose proof (zlen_nonneg s); lia |].
  pose proof (zlen_nonneg s). destruct s as [ | x s]; [lia |]. set (l := x :: s) in *. destruct (strtol16 l) as [[sz rest] | ] eqn:E1; [ | lia].
  destruct (split_at 10 rest).2 as [r | ] eqn:E2; [ | lia]. destruct (Z.leb_spec sz 0); [lia |]. cbn zeta.
  pose proof (zlen_nonneg r). pose proof (IH (drop_while is_crlf (zdrop (if zlen r <? sz then zlen r else sz) r)) (out ++ ztake (if zlen r <? sz then zlen r else sz) r)) as Hb.
  rewrite zlen_app in Hb. destruct (Z.ltb_spec (zlen r) sz).
  - apply strtol16_length in E1. apply split_at_app in E2 as [a ->]. rewrite length_app in E1. cbn [length] in E1.
    rewrite zdrop_ge, ztake_ge in Hb by lia. cbn [drop_while] in Hb. rewrite zlen_nil in Hb. rewrite zdrop_ge, ztake_ge by lia. unfold zlen in *. cbn [drop_while] in *. lia.
  - pose proof (dechunk_turn _ _ _ _ E1 E2 ltac:(lia) ltac:(lia)). lia.
Qed.

(** The number of turns never reaches the length of the input. *)
Lemma dechunk_fuel f : ∀ s out, (length s <= f)%nat → dechunk_loop f s out = dechunk_loop (length s) s out.
Proof.
  induction f as [f IH] using lt_wf_ind. intros s out Hf. destruct s as [ | x s]; [by destruct f |].
  destruct f as [ | f]; [cbn in Hf; lia |]. cbn [length] in *. cbn [dechunk_loop].
  destruct (strtol16 (x :: s)) as [[sz rest] | ] eqn:E1; [ | done].
  destruct (split_at 10 rest).2 as [r | ] eqn:E2; [ | done]. destruct (Z.leb_spec sz 0); [done |]. cbn zeta.
  set (n := if zlen r <? sz then zlen r else sz). set (q := drop_while is_crlf (zdrop n r)).
  assert (Hq : (length q <= length s)%nat).
  { unfold q. pose proof (drop_while_length is_crlf (zdrop n r)). assert (length (zdrop n r) <= length r)%nat by (unfold zdrop; rewrite length_drop; lia).
    apply strtol16_length in E1. apply split_at_app in E2 as [a ->]. rewrite length_app in E1. cbn [length] in E1. lia. }
  rewrite (IH f) by lia. symmetry. apply IH; lia.
Qed.

(** Chunked bodies: the decoder never produces more bytes than it was given (the
    buffer it writes holds that many), it stops within as many turns as the input has
    bytes, and it gives back every body sent as non-empty chunks. *)
Theorem dechunk_correct :
  (∀ s, zlen (dechunk s) <= zlen s) ∧
  (∀ s f, (length s <= f)%nat → dechunk_loop f s [] = dechunk s) ∧
  (∀ parts, Forall part_ok parts → dechunk (chunked parts) = concat parts).
Proof.
  split_and!.
  - intros s. apply (dechunk_bounded (length s) s []).
  - intros s f. apply dechunk_fuel.
  - intros parts HF. unfold dechunk. by rewrite (dechunk_chunked parts HF) by apply length_chunked.
Qed.

Lemma dechunk_correct_witness : dechunk (bs "2" ++ CRLF ++ bs "ab" ++ CRLF ++ bs "1" ++ CRLF ++ bs "c" ++ CRLF ++ bs "0" ++ CRLF ++ CRLF) = bs "abc".
Proof.
  refine (proj2 (proj2 dechunk_correct) [bs "ab"; bs "c"] _).
  repeat (apply List.Forall_cons; [split; [done | vm_compute; done] |]). apply List.Forall_nil.
Defined.

(** ** URLs *)

Lemma split_at_found c a b : (c ∉ a) → split_at c (a ++ c :: b) = (a, Some b).
Proof.
  induction a as [ | x a IH]; intros H; cbn [app split_at]; [by rewrite Z.eqb_refl |]. apply not_elem_of_cons in H as [Hx Ha].
  rewrite (proj2 (Z.eqb_neq x c)) by done. by rewrite IH.
Qed.

Lemma split_at_missing c a : (c ∉ a) → split_at c a = (a, None).
Proof.
  induction a as [ | x a IH]; intros H; cbn [split_at]; [done |]. apply not_elem_of_cons in H as [Hx Ha].
  rewrite (proj2 (Z.eqb_neq x c)) by done. by rewrite IH.
Qed.

(** The URL of a host, an optional port and a path. *)
Definition url_of (host : list Z) (port : option (list Z)) (path : list Z) : list Z :=
  bs "https://" ++ host ++ (match port with Some p => bs ":" ++ p | None => [] end) ++ bs "/" ++ path.

Lemma parse_url_of host port path hc pc xc :
  (47 ∉ host) → (58 ∉ host) → host ≠ [] → zlen host < hc → zlen path + 1 < xc → 3 < pc →
  (match port with Some p => (47 ∉ p) ∧ p ≠ [] ∧ zlen p < pc | None => True end) →
  parse_url (url_of host port path) hc pc xc = Some (host, default (bs "443") port, bs "/" ++ path).
Proof.
  intros H1 H2 H3 H4 H5 H6 Hp. unfold parse_url, url_of. rewrite take_app_length' by done. rewrite bool_decide_true by done. cbn [negb].
  rewrite drop_app_length' by done. rewrite app_assoc. change (bs "/" ++ path) with (47 :: path).
  assert (Ha : 47 ∉ host ++ match port with Some p => bs ":" ++ p | None => [] end).
  { destruct port as [p | ]; [ | by rewrite app_nil_r]. destruct Hp as (Hp & _). rewrite not_elem_of_app. split; [done |]. apply not_elem_of_cons. split; [done | exact Hp]. }
  rewrite split_at_found by done.
  assert (Hh : zlen host ≠ 0) by (intros H; by apply zlen_0_nil in H).
  assert (Eh : (zlen host =? 0) || (hc <=? zlen host) = false) by (rewrite (proj2 (Z.eqb_neq _ _)), (proj2 (Z.leb_gt _ _)) by done; done).
  assert (Ep : ztake (xc - 1) (47 :: path) = 47 :: path) by (apply ztake_ge; rewrite zlen_cons; lia).
  destruct port as [p | ].
  - destruct Hp as (_ & Hne & Hl). change (bs ":" ++ p) with (58 :: p). rewrite split_at_found by done. rewrite Eh, Ep.
    assert (zlen p ≠ 0) by (intros H; by apply zlen_0_nil in H).
    by rewrite (proj2 (Z.eqb_neq _ _)), (proj2 (Z.leb_gt _ _)) by done.
  - rewrite app_nil_r, split_at_missing by done. rewrite Eh, Ep. cbn [default]. by rewrite ztake_ge by (change (zlen (bs "443")) with 3; lia).
Qed.

(** ** Responses *)

#[global] Instance same_name_dec a b : Decision (same_name a b).
Proof. unfold same_name. apply _. Defined.

Definition no_eol (s : list Z) : Prop := Forall (λ c, c ≠ 13 ∧ c ≠ 10) s.
Definition trimmed (v : list Z) : Prop := drop_while is_blank v = v ∧ drop_while is_tail_blank (rev v) = rev v.

(** A header field a response may carry. *)
Definition field_ok (h : list Z * list Z) : Prop :=
  cstr h.1 ∧ (58 ∉ h.1) ∧ no_eol h.1 ∧ cstr h.2 ∧ no_eol h.2 ∧ trimmed h.2.
Definition field_line (h : list Z * list Z) : list Z := h.1 ++ bs ": " ++ h.2.

(** The first field of a name. *)
Definition field_value (hs : list (list Z * list Z)) (name : list Z) : list Z :=
  match filter (λ h, same_name h.1 name) hs with h :: _ => h.2 | [] => [] end.

(** Lines, separated as in a response head. *)
Fixpoint join_lines (ls : list (list Z)) : list Z :=
  match ls with
  | [] => []
  | [l] => l
  | l :: t => l ++ CRLF ++ join_lines t
  end.

Definition response_text (status_line : list Z) (hs : list (list Z * list Z)) (body : list Z) : list Z :=
  join_lines (status_line :: (field_line <$> hs)) ++ CRLF ++ CRLF ++ body.

Lemma join_lines_cons l m t : join_lines (l :: m :: t) = l ++ CRLF ++ join_lines (m :: t).
Proof. done. Qed.

Lemma split_response_skip c s : c ≠ 13 → split_response (c :: s) = match split_response s with Some (h, b) => Some (c :: h, b) | None => None end.
Proof. intros H. cbn [split_response]. destruct c as [ | p | p]; try done. do 4 (destruct p as [p | p | ]; try done). Qed.

Lemma split_response_line l s : no_eol l → split_response (l ++ s) = match split_response s with Some (h, b) => Some (l ++ h, b) | None => None end.
Proof.
  induction 1 as [ | c l [Hc _] HF IH]; cbn [app]; [by destruct (split_response s) as [[? ?] | ] |].
  rewrite split_response_skip by done. rewrite IH. by destruct (split_response s) as [[? ?] | ].
Qed.

Lemma split_response_crlf c s : c ≠ 13 →
  split_response (13 :: 10 :: c :: s) = match split_response (c :: s) with Some (h, b) => Some (13 :: 10 :: h, b) | None => None end.
Proof.
  intros H. assert (E : split_response (13 :: 10 :: c :: s) = match split_response (10 :: c :: s) with Some (h, b) => Some (13 :: h, b) | None => None end).
  { cbn [split_response]. destruct c as [ | p | p]; try done. do 4 (destruct p as [p | p | ]; try done). }
  rewrite E, split_response_skip by done. by destruct (split_response (c :: s)) as [[? ?] | ].
Qed.

Lemma split_response_joined l ls body :
  Forall (λ l, l ≠ [] ∧ no_eol l) (l :: ls) →
  split_response (join_lines (l :: ls) ++ CRLF ++ CRLF ++ body) = Some (join_lines (l :: ls), body).
Proof.
  revert l. induction ls as [ | m ls IH]; intros l HF; apply Forall_cons in HF as [[Hne Hl] HF].
  - cbn [join_lines]. rewrite split_response_line by done. change (CRLF ++ CRLF ++ body) with (13 :: 10 :: 13 :: 10 :: body).
    cbn [split_response]. by rewrite app_nil_r.
  - rewrite join_lines_cons, <- !app_assoc, split_response_line by done.
    assert (Hm : ∃ c t, join_lines (m :: ls) = c :: t ∧ c ≠ 13).
    { apply Forall_cons in HF as [[Hne' Hm] _]. destruct m as [ | c m]; [done |]. apply Forall_cons in Hm as [[Hc _] _].
      destruct ls; [by exists c, m |]. eexists c, _. by rewrite join_lines_cons. }
    pose proof (IH m HF) as E. destruct Hm as (c & t & Et & Hc). rewrite Et in *. change (CRLF ++ (c :: t) ++ CRLF ++ CRLF ++ body) with (13 :: 10 :: c :: (t ++ CRLF ++ CRLF ++ body)).
    rewrite split_response_crlf by done. change (c :: t ++ CRLF ++ CRLF ++ body) with ((c :: t) ++ CRLF ++ CRLF ++ body). by rewrite E.
Qed.

(** *** Header lookup *)

Lemma no_eol_lf l : no_eol l → 10 ∉ l.
Proof. intros H Hin. unfold no_eol in H. rewrite Forall_forall in H. by destruct (H 10 Hin). Qed.

Fixpoint first_value (vs : list (option (list Z))) : list Z :=
  match vs with
  | [] => []
  | Some v :: _ => v
  | None :: t => first_value t
  end.

(** [v] is the value of line [l], with or without a carriage return at its end. *)
Definition line_is (name l : list Z) (v : option (list Z)) : Prop :=
  l ≠ [] ∧ no_eol l ∧ line_value l name = v ∧ line_value (l ++ [13]) name = v.

Lemma header_scan_lines name cap ls vs f :
  Forall2 (line_is name) ls vs → (length (join_lines ls) < f)%nat →
  header_scan f (join_lines ls) name cap = ztake (cap - 1) (first_value vs).
Proof.
  intros HF. revert f. induction HF as [ | l v ls vs (Hne & Hl & Hv & Hv') HF IH]; intros f Hf.
  - destruct f; cbn; unfold ztake; by rewrite take_nil.
  - destruct f as [ | f]; [lia |].
    assert (Enil : ztake (cap - 1) (@nil Z) = []) by (unfold ztake; by rewrite take_nil).
    destruct HF as [ | m w ls vs Hm HF].
    + cbn [join_lines first_value] in *. cbn [header_scan]. destruct l as [ | c l]; [done |]. rewrite split_at_missing by by apply no_eol_lf.
      rewrite Hv. by destruct v.
    + rewrite join_lines_cons in *. set (j := join_lines (m :: ls)) in *.
      assert (Ej : l ++ CRLF ++ j = (l ++ [13]) ++ 10 :: j) by by rewrite <- app_assoc.
      rewrite Ej. cbn [header_scan]. destruct ((l ++ [13]) ++ 10 :: j) eqn:En; [by destruct l |]. rewrite <- En. clear En.
      rewrite split_at_found by (apply not_elem_of_app; split; [by apply no_eol_lf | apply not_elem_of_cons; split; [done | apply not_elem_of_nil]]).
      rewrite Hv'. destruct v as [v | ]; [done |]. rewrite IH; [done |]. rewrite !length_app in Hf. change (length CRLF) with 2%nat in Hf. lia.
Qed.

Lemma drop_while_blank_head v : drop_while is_blank (32 :: v) = drop_while is_blank v.
Proof. done. Qed.

Lemma drop_while_app p v x : drop_while p v = v → p x = false → drop_while p (v ++ [x]) = v ++ [x].
Proof. intros Hv Hx. destruct v as [ | c v]; cbn [app drop_while]; [by rewrite Hx |]. cbn [drop_while] in Hv. destruct (p c) eqn:E; [ | done].
  pose proof (drop_while_length p v) as Hl. rewrite Hv in Hl. cbn in Hl. lia. Qed.

Lemma trim_field v tl : trimmed v → tl = [] ∨ tl = [13] →
  rev (drop_while is_tail_blank (rev (drop_while is_blank (32 :: v ++ tl)))) = v.
Proof.
  intros [H1 H2] [-> | ->]; rewrite drop_while_blank_head.
  - rewrite app_nil_r, H1, H2. apply rev_involutive.
  - rewrite drop_while_app by done. rewrite rev_app_distr. cbn [rev app drop_while is_tail_blank Z.eqb Pos.eqb orb]. by rewrite H2, rev_involutive.
Qed.

Lemma same_name_length a b : same_name a b → length a = length b.
Proof. intros H. apply (f_equal length) in H. by rewrite !length_map in H. Qed.

Lemma colon_at a b : rd (a ++ 58 :: b) (zlen a) = 58.
Proof. unfold rd, zlen. rewrite Nat2Z.id, list_lookup_middle by done. done. Qed.

Lemma cstr_colon h tl : field_ok h → tl = [] ∨ tl = [13] → cstr (field_line h ++ tl).
Proof.
  intros (H1 & _ & _ & H2 & _) Ht. unfold field_line, cstr in *. rewrite !Forall_app. split_and!; try done.
  - apply Forall_forall. intros c Hc. apply list_elem_of_In in Hc. change (In c [58; 32]) in Hc. cbn in Hc. lia.
  - destruct Ht as [-> | ->]; repeat constructor; lia.
Qed.

Lemma field_line_match name h tl : field_ok h → cstr name → same_name h.1 name → tl = [] ∨ tl = [13] → line_value (field_line h ++ tl) name = Some h.2.
Proof.
  intros Hh Hn Hs Ht. pose proof (cstr_colon h tl Hh Ht) as Hc. pose proof Hh as (H1 & H2 & _ & _ & _ & H3). pose proof (same_name_length _ _ Hs) as Hl.
  assert (Ez : zlen name = zlen h.1) by (unfold zlen; lia). unfold line_value.
  assert (Hline : field_line h ++ tl = h.1 ++ 58 :: 32 :: h.2 ++ tl) by (unfold field_line; by rewrite <- !app_assoc).
  assert (Hlt : (zlen name <? zlen (field_line h ++ tl)) = true).
  { apply Z.ltb_lt. rewrite Hline, Ez, zlen_app, zlen_cons. pose proof (zlen_nonneg (32 :: h.2 ++ tl)). lia. }
  assert (Hcmp : (ws_strncasecmp (field_line h ++ tl) name (length name) =? 0) = true).
  { apply Z.eqb_eq, strncasecmp_eq; [done | done |]. rewrite Hline, <- Hl, take_app_length, Hl, take_ge by lia. done. }
  rewrite Hlt, Hcmp, Hline, Ez, colon_at. cbn [andb Z.eqb Pos.eqb]. do 1 f_equal.
  assert (Ed : zdrop (zlen h.1 + 1) (h.1 ++ 58 :: 32 :: h.2 ++ tl) = 32 :: h.2 ++ tl).
  { replace (h.1 ++ 58 :: 32 :: h.2 ++ tl) with ((h.1 ++ [58]) ++ 32 :: h.2 ++ tl) by by rewrite <- app_assoc.
    replace (zlen h.1 + 1) with (zlen (h.1 ++ [58])) by (rewrite zlen_app; done). apply zdrop_app_exact. }
  rewrite Ed. by apply trim_field.
Qed.

Lemma same_name_app_colon a b t : (58 ∉ b) → map tolower (take (length b) (a ++ 58 :: t)) = map tolower b → (length a < length b)%nat → False.
Proof.
  intros Hb He Hl. apply (f_equal (λ l, l !! length a)) in He. rewrite !list_lookup_fmap, lookup_take_lt, list_lookup_middle in He by done.
  destruct (lookup_lt_is_Some_2 b (length a) Hl) as [x Hx]. rewrite Hx in He. cbn in He. injection He as He.
  assert (x = 58) as -> by (unfold tolower in He; revert He; cbn; split_ifs; zbool; lia).
  by apply Hb, list_elem_of_lookup_2 with (length a).
Qed.

Lemma field_line_other name h tl : field_ok h → cstr name → (58 ∉ name) → ¬ same_name h.1 name → tl = [] ∨ tl = [13] → line_value (field_line h ++ tl) name = None.
Proof.
  intros Hh Hn H58 Hs Ht. pose proof (cstr_colon h tl Hh Ht) as Hc. pose proof Hh as (H1 & H2 & _). unfold line_value.
  destruct ((zlen name <? _) && _ && _) eqn:E; [ | done]. exfalso. zbool. apply strncasecmp_eq in H0; [ | done | done].
  assert (Hline : field_line h ++ tl = h.1 ++ 58 :: 32 :: h.2 ++ tl) by (unfold field_line; by rewrite <- !app_assoc).
  rewrite Hline in *. rewrite (take_ge name) in H0 by lia.
  destruct (Nat.lt_total (length h.1) (length name)) as [Hlt | [Heq | Hgt]].
  - exact (same_name_app_colon _ _ _ H58 H0 Hlt).
  - apply Hs. unfold same_name. by rewrite <- H0, <- Heq, take_app_length.
  - unfold rd, zlen in *. rewrite Nat2Z.id, lookup_app_l in H3 by lia. destruct (lookup_lt_is_Some_2 h.1 (length name) Hgt) as [x Hx].
    rewrite Hx in H3. cbn in H3. subst x. by apply H2, list_elem_of_lookup_2 with (length name).
Qed.

Lemma status_line_none name sl tl : (58 ∉ sl) → tl = [] ∨ tl = [13] → line_value (sl ++ tl) name = None.
Proof.
  intros H58 Ht. unfold line_value. destruct ((zlen name <? _) && _ && _) eqn:E; [ | done]. exfalso. zbool.
  unfold rd, zlen in *. rewrite Nat2Z.id in H1. destruct ((sl ++ tl) !! length name) as [x | ] eqn:Ex; cbn in H1; [subst x | done].
  apply list_elem_of_lookup_2 in Ex. apply elem_of_app in Ex as [Ex | Ex]; [done |].
  destruct Ht as [-> | ->]; [by apply not_elem_of_nil in Ex | by apply list_elem_of_singleton in Ex].
Qed.

Definition status_ok (sl : list Z) : Prop := sl ≠ [] ∧ no_eol sl ∧ (58 ∉ sl).

Lemma field_line_no_eol h : field_ok h → field_line h ≠ [] ∧ no_eol (field_line h).
Proof.
  intros (_ & _ & H1 & _ & H2 & _). split; [unfold field_line; by destruct h.1 |]. unfold field_line, no_eol in *. rewrite !Forall_app. split_and!; try done.
  repeat (apply List.Forall_cons; [done |]). apply List.Forall_nil.
Qed.

(** The value found for a name is the first field of that name. *)
Lemma get_header_fields sl hs name cap :
  status_ok sl → Forall field_ok hs → cstr name → (58 ∉ name) →
  get_header (join_lines (sl :: (field_line <$> hs))) name cap = ztake (cap - 1) (field_value hs name).
Proof.
  intros (Hne & Hl & H58) HF Hn Hc. unfold get_header.
  set (vs := (λ h : list Z * list Z, if decide (same_name h.1 name) then Some h.2 else None) <$> hs).
  rewrite (header_scan_lines name cap _ (None :: vs)); [ | | lia].
  - cbn [first_value]. f_equal. unfold vs, field_value. clear. induction hs as [ | h hs IH]; [done |]. cbn [fmap list_fmap]. rewrite filter_cons. by case_decide.
  - apply Forall2_cons. split.
    + split_and!; try done; [rewrite <- (app_nil_r sl) at 1 |]; apply status_line_none; auto.
    + unfold vs. clear Hne. induction HF as [ | h hs Hh HF IH]; cbn [fmap list_fmap]; [constructor |]. apply Forall2_cons. split; [ | done].
      destruct (field_line_no_eol h Hh). case_decide; (split_and!; try done; [rewrite <- (app_nil_r (field_line h)) |]);
        solve [apply field_line_match; auto | apply field_line_other; auto].
Qed.

(** *** The whole response *)

Definition status_line (code : Z) (reason : list Z) : list Z := bs "HTTP/1.1 " ++ dec_string code ++ bs " " ++ reason.

Lemma digits_no_eol n : 0 <= n → no_eol (dec_string n) ∧ (58 ∉ dec_string n) ∧ (32 ∉ dec_string n).
Proof.
  intros Hn. pose proof (dec_string_digits n Hn) as Hd. split_and!; try by (eapply digits_not_in; [exact Hd |]).
  apply Forall_forall. intros c Hc. apply list_elem_of_In in Hc. rewrite forallb_forall in Hd. specialize (Hd c Hc).
  unfold is_digit in Hd. zbool. lia.
Qed.

Lemma status_line_ok code reason : 0 <= code → no_eol reason → (58 ∉ reason) → status_ok (status_line code reason).
Proof.
  intros Hc Hr H58. destruct (digits_no_eol code Hc) as (H1 & H2 & _). unfold status_line. split_and!; [done | |].
  - unfold no_eol in *. rewrite !Forall_app. split_and!; try done; repeat (apply List.Forall_cons; [done |]); apply List.Forall_nil.
  - rewrite !not_elem_of_app. split_and!; try done; (solve_not_in).
Qed.

(** The status is read from the text after the first space. *)
Lemma status_read code reason rest : 0 <= code < 2 ^ 31 →
  (split_at 32 (status_line code reason ++ rest)).2 = Some (dec_string code ++ bs " " ++ reason ++ rest) ∧
  atoi (dec_string code ++ bs " " ++ reason ++ rest) = code.
Proof.
  intros Hc. split.
  - unfold status_line. rewrite <- !app_assoc. change (bs "HTTP/1.1 ") with (bs "HTTP/1.1" ++ [32]). rewrite <- app_assoc. cbn [app].
    rewrite split_at_found; [done |]. solve_not_in.
  - unfold atoi. rewrite strtoll_dec; [ | lia | done]. cbn [fst]. apply i32_small. lia.
Qed.

Lemma join_lines_head l ls : ∃ r, join_lines (l :: ls) = l ++ r.
Proof. destruct ls as [ | m ls]; [exists []; by rewrite app_nil_r | by eexists; rewrite join_lines_cons]. Qed.

Lemma bs_cstr_colon s : forallb (λ c, (0 <? c) && (c <? 256) && negb (c =? 58)) (bs s) = true → cstr (bs s) ∧ (58 ∉ bs s).
Proof.
  intros H. rewrite forallb_forall in H. split.
  - apply Forall_forall. intros c Hc. apply list_elem_of_In in Hc. specialize (H c Hc). zbool. lia.
  - intros Hin. apply list_elem_of_In in Hin. specialize (H 58 Hin). zbool. done.
Qed.

Lemma chunked_value v : cstr v → (ws_strcasecmp (ztake 31 v) (bs "chunked") =? 0) = bool_decide (same_name v (bs "chunked")).
Proof.
  intros Hv. assert (Hc : cstr (bs "chunked")) by (apply bs_cstr_colon; done). assert (Ht : cstr (ztake 31 v)) by by apply Forall_take.
  pose proof (strcasecmp_eq _ _ Ht Hc) as E. destruct (decide (31 < zlen v)) as [Hl | Hl].
  - assert (Hn : ¬ same_name v (bs "chunked")) by (intros H; apply same_name_length in H; unfold zlen in Hl; change (length (bs "chunked")) with 7%nat in H; lia).
    rewrite bool_decide_false by done. apply Z.eqb_neq. rewrite E. intros H. apply (f_equal length) in H. rewrite !length_map in H.
    unfold ztake, zlen in *. rewrite length_take in H. change (length (bs "chunked")) with 7%nat in H. lia.
  - rewrite ztake_ge in * by lia. unfold same_name. case_bool_decide; [by apply Z.eqb_eq, E | apply Z.eqb_neq; by rewrite E].
Qed.

Lemma field_value_cstr hs name : Forall field_ok hs → cstr (field_value hs name).
Proof.
  intros HF. unfold field_value. destruct (filter _ hs) as [ | h t] eqn:E; [apply List.Forall_nil |].
  assert (Hin : h ∈ filter (λ h, same_name h.1 name) hs) by (rewrite E; apply elem_of_cons; by left).
  apply list_elem_of_filter in Hin as [_ Hin]. rewrite Forall_forall in HF. by destruct (HF h Hin) as (_ & _ & _ & ? & _).
Qed.

(** A response with a status line, header fields and a body is read back: the
    status, the first Replay-Nonce, Location and Content-Type (each cut to its buffer), and
    the body, decoded when the transfer encoding is chunked. *)
Theorem response_roundtrip code reason hs body :
  0 <= code < 2 ^ 31 → no_eol reason → (58 ∉ reason) → Forall field_ok hs →
  parse_response true (response_text (status_line code reason) hs body) =
  Some (mk_resp code
          (ztake 255 (field_value hs (bs "Replay-Nonce"))) (ztake 2047 (field_value hs (bs "Location")))
          (ztake 127 (field_value hs (bs "Content-Type")))
          (Some (if bool_decide (same_name (field_value hs (bs "Transfer-Encoding")) (bs "chunked")) then dechunk body else body))).
Proof.
  intros Hc Hr H58 HF. pose proof (status_line_ok code reason ltac:(lia) Hr H58) as Hs. pose proof Hs as (Hne & Hl & _).
  unfold parse_response, response_text. rewrite split_response_joined.
  2:{ apply List.Forall_cons; [done |]. apply Forall_fmap. eapply Forall_impl; [exact HF |]. intros h Hh. by apply field_line_no_eol. }
  destruct (join_lines_head (status_line code reason) (field_line <$> hs)) as [r Er].
  assert (E7 : take 7 (join_lines (status_line code reason :: (field_line <$> hs)) ++ CRLF ++ CRLF ++ body) = bs "HTTP/1.") by by rewrite Er.
  rewrite E7, bool_decide_true by done.
  assert (E1 : (split_at 32 (join_lines (status_line code reason :: (field_line <$> hs)))).2 = Some (dec_string code ++ bs " " ++ reason ++ r))
    by (rewrite Er; by apply status_read).
  rewrite E1. rewrite !get_header_fields by (try done; apply bs_cstr_colon; done).
  rewrite Er, <- app_assoc. destruct (status_read code reason (r ++ CRLF ++ CRLF ++ body) Hc) as [E2 E3]. rewrite E2. cbn [default]. unfold id. rewrite E3.
  cbn [negb]. by rewrite chunked_value by by apply field_value_cstr.
Qed.

Lemma response_roundtrip_witness :
  parse_response true (response_text (status_line 201 (bs "Created")) [(bs "replay-nonce", bs "n1"); (bs "Location", bs "https://ca/acct/1")] (bs "{}"))
  = Some (mk_resp 201 (bs "n1") (bs "https://ca/acct/1") [] (Some (bs "{}"))).
Proof.
  refine (response_roundtrip 201 (bs "Created") [(bs "replay-nonce", bs "n1"); (bs "Location", bs "https://ca/acct/1")] (bs "{}") _ _ _ _).
  - lia.
  - repeat (apply List.Forall_cons; [done |]). apply List.Forall_nil.
  - solve_not_in.
  - repeat (apply List.Forall_cons; [split_and!; try (apply bs_cstr_colon; vm_compute; reflexivity); try done; (repeat (apply List.Forall_cons; [done |]); apply List.Forall_nil) |]). apply List.Forall_nil.
Defined.

(** A 404 whose body is chunked, and one whose value is folded in case. *)
Example response_chunked :
  r_body <$> parse_response true (bs "HTTP/1.1 404 Not Found" ++ CRLF ++ bs "TRANSFER-encoding:  Chunked " ++ CRLF ++ CRLF ++ bs "3" ++ CRLF ++ bs "abc" ++ CRLF ++ bs "0" ++ CRLF ++ CRLF)
  = Some (Some (bs "abc")).
Proof. by vm_compute. Qed.

(** ** The stream *)

(** Before every read there is room for the 4096 bytes it may give, and at the end for
    the terminator. *)
Lemma read_loop_fits evs : ∀ mem cap buf b c,
  8192 <= cap → zlen buf <= cap → read_loop evs mem cap buf = Some (Some (b, c)) → zlen b + 4096 <= c ∧ ∃ t, b = buf ++ t.
Proof.
  induction evs as [ | e evs IH]; intros mem cap buf b c Hc Hb; cbn [read_loop]; cbn zeta.
  - destruct (_ && _); done.
  - destruct (_ && _) eqn:E; [done |]. set (cap' := if cap <? zlen buf + 4096 then cap * 2 else cap).
    assert (Hcap : 8192 <= cap' ∧ zlen buf + 4096 <= cap') by (unfold cap'; destruct (Z.ltb_spec cap (zlen buf + 4096)); lia).
    destruct e as [x | | ].
    + intros H. apply IH in H as [H [t ->]]; [ | lia | ].
      * split; [done |]. exists (ztake 4096 x ++ t). by rewrite app_assoc.
      * rewrite zlen_app. assert (zlen (ztake 4096 x) <= 4096) by (unfold zlen, ztake; rewrite length_take; lia). lia.
    + intros H. by apply IH in H; [ | lia | lia].
    + intros [= <- <-]. split; [lia |]. exists []. by rewrite app_nil_r.
Qed.

(** With memory, everything up to the end of the stream is read. *)
Lemma read_all_exact xs rest :
  Forall (λ x, zlen x <= 4096) xs → read_all ((Got <$> xs) ++ End :: rest) [] = Some (Some (concat xs)).
Proof.
  intros HF. unfold read_all. cbn [head default negb tail].
  assert (H : ∀ cap buf, ∃ c, read_loop ((Got <$> xs) ++ End :: rest) [] cap buf = Some (Some (buf ++ concat xs, c))).
  { induction HF as [ | x xs Hx HF IH]; intros cap buf; cbn [fmap list_fmap app read_loop]; cbn zeta; rewrite andb_false_r.
    - cbn. rewrite app_nil_r. eauto.
    - rewrite (ztake_ge 4096 x) by done. destruct (IH (if cap <? zlen buf + 4096 then cap * 2 else cap) (buf ++ x)) as [c Ec].
      exists c. cbn [concat]. rewrite app_assoc, <- Ec. by destruct (cap <? zlen buf + 4096). }
  destruct (H 8192 []) as [c ->]. done.
Qed.
