(* ===== verification/AcmeConn.v ===== *)
(** * The connection under an HTTPS request (src/src/acme/acme_https.c)

    [AcmeHttp] takes the verified connection as a parameter.  Here is what the request does
    to get one: the trust store, the name lookup and the attempts to connect, the SSL object
    and its checks, the writes, the reads, and the release of everything on every path.
    What the system and OpenSSL answer is an environment; what was asked of them, a trace. *)
From Stdlib Require Import ZArith Lia.
From stdpp Require Import base numbers list strings sets.
From S2P Require Import Prelude Cstr HttpRequest HttpResponse AcmeHttp.
Open Scope Z_scope.

Inductive net_ev :=
| NCtx | NCtxFree | NTrust (ok : bool) | NVerifyPeer
| NSocket (fd : nat) | NConnect (fd : nat) (ok : bool) | NClose (fd : nat)
| NSsl | NSslFree | NHost (host : list Z) | NHandshake (ok : bool) | NWrite (b : list Z).
#[export] Instance net_ev_eq_dec : EqDecision net_ev.
Proof. solve_decision. Defined.

Record https_env := mk_henv {
  he_ctx : bool;
  he_trust : option (list Z) → bool;                      (* the CA file, or the default paths *)
  he_addrs : list Z → list Z → option (list (option nat * bool)); (* per address: the socket, and whether it connects *)
  he_ssl : bool;
  he_set_host : list Z → bool;
  he_handshake : bool;
  he_write : list Z → bool;                               (* all of it, or an error *)
  he_reads : list ssl_ev;
  he_mem : list bool;                                     (* the allocations of [read_all] *)
  he_body_mem : bool
}.

(** ** [tcp_connect] *)

Fixpoint connect_loop (l : list (option nat * bool)) : option nat * list net_ev :=
  match l with
  | [] => (None, [])
  | (None, _) :: r => connect_loop r
  | (Some fd, true) :: _ => (Some fd, [NSocket fd; NConnect fd true])
  | (Some fd, false) :: r => let '(res, tr) := connect_loop r in (res, [NSocket fd; NConnect fd false; NClose fd] ++ tr)
  end.
Definition tcp_connect (e : https_env) (host port : list Z) : option nat * list net_ev :=
  match he_addrs e host port with None => (None, []) | Some l => connect_loop l end.

(** ** [portico_https_request] *)

(** From the handshake on, with the SSL object made: the response, or [None] for the jump
    to [done]; the outer option is [None] when [read_all] does not end. *)
Definition exchange (e : https_env) (host port path method headers : list Z) (body : option (list Z)) : option (option http_resp) * list net_ev :=
  if negb (he_set_host e host) then (Some None, [])
  else if negb (he_handshake e) then (Some None, [NHost host; NHandshake false])
  else
    let tr := [NHost host; NHandshake true] in
    match request_head method path (host_header host port) headers body with
    | None => (Some None, tr)
    | Some head =>
        if negb (he_write e head) then (Some None, tr ++ [NWrite head])
        else
          let tr := tr ++ [NWrite head] in
          let b := default [] body in
          if negb (bool_decide (b = [])) && negb (he_write e b) then (Some None, tr ++ [NWrite b])
          else
            let tr := if bool_decide (b = []) then tr else tr ++ [NWrite b] in
            match read_all (he_reads e) (he_mem e) with
            | None => (None, tr)
            | Some None => (Some None, tr)
            | Some (Some raw) => (Some (parse_response (he_body_mem e) raw), tr)
            end
    end.

Definition https_request (e : https_env) (ca : option (list Z)) (method url headers : list Z) (body : option (list Z))
    : option (option http_resp) * list net_ev :=
  match parse_url url 256 16 2048 with
  | None => (Some None, [])
  | Some (host, port, path) =>
      if negb (he_ctx e) then (Some None, [])
      else if negb (he_trust e ca) then (Some None, [NCtx; NTrust false; NCtxFree])
      else
        let tr := [NCtx; NTrust true; NVerifyPeer] in
        let '(fd, trc) := tcp_connect e host port in
        match fd with
        | None => (Some None, tr ++ trc ++ [NCtxFree])
        | Some fd =>
            if negb (he_ssl e) then (Some None, tr ++ trc ++ [NClose fd; NCtxFree])
            else let '(res, trx) := exchange e host port path method headers body in
                 (res, tr ++ trc ++ [NSsl] ++ trx ++ match res with Some _ => [NSslFree; NClose fd; NCtxFree] | None => [] end)
        end
  end.

(** ** What is asked of the network *)

(** How often an event occurs. *)
Definition times (x : net_ev) (tr : list net_ev) : nat := length (filter (λ y, x = y) tr).

Lemma times_app x a b : times x (a ++ b) = (times x a + times x b)%nat.
Proof. unfold times. by rewrite filter_app, length_app. Qed.
Lemma times_cons x y tr : times x (y :: tr) = ((if decide (x = y) then 1 else 0) + times x tr)%nat.
Proof. unfold times. rewrite filter_cons. by case_decide. Qed.
Lemma times_nil x : times x [] = 0%nat.
Proof. done. Qed.

(** Every descriptor that was opened is closed, except the one that is handed out. *)
Lemma connect_closes l n :
  let '(res, tr) := connect_loop l in
  times (NSocket n) tr = (times (NClose n) tr + if decide (res = Some n) then 1 else 0)%nat.
Proof.
  induction l as [ | [[fd | ] []] l IH]; cbn [connect_loop]; [done | | | done | done].
  - rewrite !times_cons, !times_nil. repeat case_decide; simplify_eq; try done.
  - destruct (connect_loop l) as [res tr]. cbn [app]. rewrite !times_cons, IH. repeat case_decide; simplify_eq; lia.
Qed.

(** The descriptor handed out is the one of the first address that connects. *)
Lemma connect_first l :
  (connect_loop l).1 = head (omap (λ a : option nat * bool, if a.2 then a.1 else None) l).
Proof. induction l as [ | [[fd | ] []] l IH]; try done; cbn [connect_loop]; destruct (connect_loop l); by cbn in *. Qed.

(** The connection phase asks nothing of OpenSSL. *)
Lemma connect_only l x :
  x ∈ (connect_loop l).2 → ∃ fd, x = NSocket fd ∨ x = NClose fd ∨ ∃ ok, x = NConnect fd ok.
Proof.
  induction l as [ | [[fd | ] []] l IH]; cbn [connect_loop]; try done; try (by intros ?%elem_of_nil).
  - cbn. rewrite !elem_of_cons. intros [-> | [-> | ?%elem_of_nil]]; [exists fd; by left | exists fd; eauto | done].
  - destruct (connect_loop l) as [res tr]. cbn. rewrite !elem_of_cons. intros [-> | [-> | [-> | ?]]]; eauto.
Qed.

Lemma times_zero x tr : x ∉ tr → times x tr = 0%nat.
Proof. induction tr as [ | y tr IH]; [done |]. intros [? ?]%not_elem_of_cons. rewrite times_cons, decide_False by done. by apply IH. Qed.

(** After the SSL object is made nothing is opened, and what is written comes after the
    host check and a handshake that succeeded. *)
Lemma exchange_trace e host port path method headers body :
  let '(res, tr) := exchange e host port path method headers body in
  tr = [] ∨ tr = [NHost host; NHandshake false] ∨ ∃ bl, tr = [NHost host; NHandshake true] ++ (NWrite <$> bl).
Proof.
  unfold exchange. split_if; [by left |]. split_if; [right; by left |].
  assert (HB : ∀ bl, let tr := [NHost host; NHandshake true] ++ (NWrite <$> bl) in
    tr = [] ∨ tr = [NHost host; NHandshake false] ∨ ∃ bl, tr = [NHost host; NHandshake true] ++ (NWrite <$> bl))
    by (intros bl; right; right; by exists bl).
  destruct (request_head _ _ _ _ _) as [head | ]; [ | apply (HB [])]. split_if; [apply (HB [head]) |].
  destruct (bool_decide (default [] body = [])); cbn [negb andb].
  - destruct (read_all _ _) as [[raw | ] | ]; apply (HB [head]).
  - split_if; [ | destruct (read_all _ _) as [[raw | ] | ]]; apply (HB [head; default [] body]).
Qed.

(** ** What holds of every request *)

(** Bytes are written only to a server whose certificate was checked: the trust store was
    loaded, the peer is verified, its name is the host of the URL, the handshake passed. *)
Definition guarded (host : list Z) (tr : list net_ev) : Prop :=
  ∀ pre b post, tr = pre ++ NWrite b :: post → NTrust true ∈ pre ∧ NVerifyPeer ∈ pre ∧ NHost host ∈ pre ∧ NHandshake true ∈ pre.

(** What was acquired is released, once. *)
Definition balanced (tr : list net_ev) : Prop :=
  times NCtx tr = times NCtxFree tr ∧ times NSsl tr = times NSslFree tr ∧ ∀ fd, times (NSocket fd) tr = times (NClose fd) tr.

(** The transport of [AcmeHttp] that these outcomes amount to, for a request with [body]. *)
Definition net_of (e : https_env) (ca : option (list Z)) (body : list Z) : transport unit := λ w host port bytes,
  if he_ctx e && he_trust e ca && bool_decide ((tcp_connect e host port).1 ≠ None) && he_ssl e && he_set_host e host && he_handshake e &&
     he_write e (take (length bytes - length body) bytes) && (bool_decide (body = []) || he_write e body)
  then match read_all (he_reads e) (he_mem e) with Some (Some raw) => (Some (raw, he_body_mem e), w) | _ => (None, w) end
  else (None, w).

(** An exchange answers as [AcmeHttp] does over that transport. *)
Lemma exchange_answers e ca method url headers body host port path :
  parse_url url 256 16 2048 = Some (host, port, path) → read_all (he_reads e) (he_mem e) ≠ None →
  he_ctx e = true → he_trust e ca = true → (tcp_connect e host port).1 ≠ None → he_ssl e = true →
  (exchange e host port path method headers body).1 =
  Some (portico_https_request (net_of e ca (default [] body)) tt method url headers body).1.
Proof.
  intros Hu Hr Hc Ht Hfd Hs. unfold exchange, portico_https_request. rewrite Hu. destruct (request_head _ _ _ _ _) as [head | ]; cbn [default option_bind];
    [ | by repeat split_if]. unfold net_of. rewrite length_app, Nat.add_sub, take_app_length, Hc, Ht, Hs, (bool_decide_eq_true_2 _ Hfd). cbn [andb id].
  destruct (he_set_host e host), (he_handshake e), (he_write e head); cbn [negb andb fst]; try done.
  destruct (bool_decide (default [] body = [])) eqn:Eb; cbn [negb andb orb];
    [ | destruct (he_write e (default [] body)); [ | done]]; cbn [negb andb orb];
    destruct (read_all _ _) as [[raw | ] | ]; by cbn.
Qed.

Lemma guarded_after host A R :
  (∀ b, NWrite b ∉ A) → NTrust true ∈ A → NVerifyPeer ∈ A → NHost host ∈ A → NHandshake true ∈ A → guarded host (A ++ R).
Proof.
  intros HA H1 H2 H3 H4 pre b post E. apply app_eq_inv in E as [(k & -> & E) | (k & -> & E)].
  - destruct k as [ | x k]; [by rewrite app_nil_r in * |]. injection E as <- _. exfalso. apply (HA b), elem_of_app. right. by left.
  - rewrite !elem_of_app. auto.
Qed.

Lemma guarded_none host tr : (∀ b, NWrite b ∉ tr) → guarded host tr.
Proof. intros H pre b post ->. exfalso. apply (H b), elem_of_app. right. by left. Qed.

(** The connection phase of a request, with what it leaves open. *)
Lemma tcp_facts e host port :
  let '(fd, tr) := tcp_connect e host port in
  (∀ x, (∀ n ok, x ≠ NSocket n ∧ x ≠ NClose n ∧ x ≠ NConnect n ok) → x ∉ tr ∧ times x tr = 0%nat) ∧
  ∀ n, times (NSocket n) tr = (times (NClose n) tr + if decide (fd = Some n) then 1 else 0)%nat.
Proof.
  unfold tcp_connect. destruct (he_addrs e host port) as [l | ]; [ | split; [by intros ? ?; split; [apply not_elem_of_nil |] | done]].
  pose proof (λ n, connect_closes l n) as HC. pose proof (connect_only l) as HO. destruct (connect_loop l) as [fd tr]. split; [ | exact HC].
  intros x Hx. assert (Hn : x ∉ tr) by (intros H; destruct (HO x H) as (n & [-> | [-> | [ok ->]]]); destruct (Hx n true) as (? & ? & ?);
    try done; by destruct (Hx n ok) as (? & ? & ?)). split; [done | by apply times_zero].
Qed.

Lemma times_writes x bl : (∀ b, x ≠ NWrite b) → times x (NWrite <$> bl) = 0%nat.
Proof. intros Hx. apply times_zero. intros (b & -> & _)%list_elem_of_fmap. by apply (Hx b). Qed.

(** An exchange neither takes nor gives back. *)
Lemma exchange_keeps e host port path method headers body x :
  (∀ b, x ≠ NWrite b) → x ≠ NHost host → (∀ ok, x ≠ NHandshake ok) → times x (exchange e host port path method headers body).2 = 0%nat.
Proof.
  intros H1 H2 H3. pose proof (exchange_trace e host port path method headers body) as HT. destruct (exchange _ _ _ _ _ _ _) as [res tr].
  cbn [snd]. destruct HT as [-> | [-> | (bl & ->)]]; [done | | ]; rewrite ?times_app, !times_cons, !times_nil, ?times_writes by done;
    rewrite !decide_False by done; done.
Qed.

Ltac count_events := repeat (rewrite times_app || rewrite times_cons || rewrite times_nil).

(** Without a connection there is no answer. *)
Lemma answer_none e ca bd method url headers body host port path :
  parse_url url 256 16 2048 = Some (host, port, path) →
  he_ctx e && he_trust e ca && bool_decide ((tcp_connect e host port).1 ≠ None) && he_ssl e = false →
  (portico_https_request (net_of e ca bd) tt method url headers body).1 = None.
Proof.
  intros Hu Hc. unfold portico_https_request. rewrite Hu. destruct (request_head _ _ _ _ _) as [head | ]; [ | done].
  unfold net_of. by rewrite Hc.
Qed.

(** The traces of a request: the steps up to the SSL object, and the whole. *)
Lemma balanced_trace A trx C (fd : option nat) :
  (∀ x, (∀ n ok, x ≠ NSocket n ∧ x ≠ NClose n ∧ x ≠ NConnect n ok) → times x trx = 0%nat) →
  (∀ n, times (NSocket n) trx = (times (NClose n) trx + if decide (fd = Some n) then 1 else 0)%nat) →
  (times NCtx A + times NCtx C = times NCtxFree A + times NCtxFree C)%nat →
  (times NSsl A + times NSsl C = times NSslFree A + times NSslFree C)%nat →
  (∀ n, times (NSocket n) A + times (NSocket n) C + (if decide (fd = Some n) then 1 else 0) = times (NClose n) A + times (NClose n) C)%nat →
  balanced (A ++ trx ++ C).
Proof.
  intros H1 H2 H3 H4 H5. split_and!; [ | | intros n; specialize (H2 n); specialize (H5 n)]; rewrite !times_app; [ | | lia];
    rewrite ?(H1 NCtx), ?(H1 NCtxFree), ?(H1 NSsl), ?(H1 NSslFree) by (by intros); lia.
Qed.

(** C34. An HTTPS request of the ACME client writes only to a server whose certificate it
    has checked, for the host of the URL, against the trust store; whatever step fails, it
    closes every socket it opened and frees its SSL objects, once; and it answers as the
    exchange of [AcmeHttp] does over the connection these outcomes amount to.  The one
    condition is that the stream ends. *)
Theorem https_verified_and_balanced e ca method url headers body :
  read_all (he_reads e) (he_mem e) ≠ None →
  let host := default [] ((λ x, (x.1).1) <$> parse_url url 256 16 2048) in
  ∃ r tr, https_request e ca method url headers body = (Some r, tr) ∧ balanced tr ∧ guarded host tr ∧
    r = (portico_https_request (net_of e ca (default [] body)) tt method url headers body).1.
Proof.
  intros Hr host. subst host. unfold https_request. destruct (parse_url url 256 16 2048) as [[[host port] path] | ] eqn:Hu; cbn [fmap option_fmap option_map default id fst].
  2: { exists None, []. unfold portico_https_request. rewrite Hu. split_and!; try done. intros ? ? ? E. by destruct pre. }
  destruct (he_ctx e) eqn:Hc; cbn [negb].
  2: { exists None, []. rewrite (answer_none _ _ _ _ _ _ _ _ _ _ Hu) by (by rewrite Hc). split_and!; try done. intros ? ? ? E. by destruct pre. }
  destruct (he_trust e ca) eqn:Ht; cbn [negb].
  2: { exists None. eexists. rewrite (answer_none _ _ _ _ _ _ _ _ _ _ Hu) by (by rewrite Ht, andb_false_r). split; [done |].
       split_and!; try done. apply guarded_none. intros b Hb. set_solver. }
  pose proof (tcp_facts e host port) as HT. destruct (tcp_connect e host port) as [fd trc] eqn:Etcp. destruct HT as [T1 T2].
  assert (T3 : ∀ b, NWrite b ∉ trc) by (intros b; by apply T1).
  destruct fd as [fd | ].
  2: { exists None. eexists. rewrite (answer_none _ _ _ _ _ _ _ _ _ _ Hu) by (by rewrite Hc, Ht, Etcp). split; [done |]. split_and!; [ | | done].
       - apply (balanced_trace _ _ _ None); [intros x Hx; by apply T1 | done | done | done | done].
       - apply guarded_none. intros b Hb. set_solver. }
  destruct (he_ssl e) eqn:Hs; cbn [negb].
  2: { exists None. eexists. rewrite (answer_none _ _ _ _ _ _ _ _ _ _ Hu) by (by rewrite Hs, andb_false_r). split; [done |]. split_and!; [ | | done].
       - apply (balanced_trace _ _ _ (Some fd)); [intros x Hx; by apply T1 | done | done | done |]. intros n. count_events. repeat case_decide; simplify_eq; lia.
       - apply guarded_none. intros b Hb. set_solver. }
  pose proof (exchange_answers e ca method url headers body host port path Hu Hr Hc Ht ltac:(by rewrite Etcp) Hs) as HA.
  pose proof (exchange_trace e host port path method headers body) as HX. pose proof (exchange_keeps e host port path method headers body) as HK.
  destruct (exchange e host port path method headers body) as [res trx]. cbn [fst snd] in HA, HK. subst res.
  eexists _, _. split; [done |]. split_and!; [ | | done].
  - apply (balanced_trace _ _ _ (Some fd)); [intros x Hx; by apply T1 | done | | |]; count_events; rewrite ?HK by done; try done.
    intros n. count_events. rewrite !HK by done. repeat case_decide; simplify_eq; lia.
  - destruct HX as [-> | [-> | (bl & ->)]]; [apply guarded_none; intros b Hb; set_solver | apply guarded_none; intros b Hb; set_solver |].
    rewrite (app_assoc _ trc), (app_assoc _ [NSsl]), <- !(app_assoc [NHost host; _]), (app_assoc _ [NHost host; _]).
    apply guarded_after; [intros b Hb | | | |]; set_solver.
Qed.

(** A read that times out is a retry: on a stream that stays silent [read_all] goes on for
    ever, whatever the socket's timeout is. *)
Lemma silent_server_never_ends n mem : read_all (replicate n Retry) mem = None ∨ read_all (replicate n Retry) mem = Some None.
Proof.
  unfold read_all. split_if; [by right |]. assert (H : ∀ mem, read_loop (replicate n Retry) mem 8192 [] = None) by (induction n as [ | n IH]; [done | intros m; apply IH]).
  rewrite H. by left.
Qed.

Definition demo_henv : https_env :=
  mk_henv true (λ _, true) (λ _ _, Some [(None, false); (Some 7%nat, false); (Some 8%nat, true); (Some 9%nat, true)]) true (λ _, true) true
    (λ _, true) [Retry; Got (bs "HTTP/1.1 204 No Content" ++ CRLF ++ CRLF); End] [] true.

(** The second address that has a socket connects. *)
Lemma https_verified_and_balanced_witness :
  let '(r, tr) := https_request demo_henv None (bs "GET") (bs "https://ca.test/dir") [] None in
  (r_status <$> default None r) = Some 204 ∧ times (NSocket 7) tr = 1%nat ∧ times (NClose 8) tr = 1%nat ∧ balanced tr.
Proof.
  assert (Hr : read_all (he_reads demo_henv) (he_mem demo_henv) ≠ None) by (vm_compute; discriminate).
  destruct (https_verified_and_balanced demo_henv None (bs "GET") (bs "https://ca.test/dir") [] None Hr) as (r & tr & E & HB & _ & _).
  pose proof (f_equal (λ x, r_status <$> default None x.1) E) as E1. pose proof (f_equal (λ x, times (NSocket 7) x.2) E) as E2.
  pose proof (f_equal (λ x, times (NClose 8) x.2) E) as E3. cbn [fst snd] in E1, E2, E3.
  rewrite E. split; [by rewrite <- E1 |]. split; [by rewrite <- E2 |]. split; [by rewrite <- E3 | exact HB].
Defined.
