(* ===== verification/AcmeResponder.v ===== *)
(** * The HTTP-01 responder (src/src/acme/acme_responder.c)

    The table of 64 challenge tokens, the lookup by path, the request handler of the
    standalone listener and the listener's life.  The table is held under a mutex by each
    operation, so an operation is one step.  The theorems: the table is a finite map of at
    most 64 tokens; a request for a challenge path gets the key authorization of its token,
    however the request is cut up by the network; the listener's descriptors are given
    back. *)
From Stdlib Require Import ZArith Lia.
From stdpp Require Import base numbers list strings gmap.
From S2P Require Import Prelude Cstr HttpRequest HttpResponse AcmeHttp.
Open Scope Z_scope.

Definition RESP_MAX_SLOTS : nat := 64.
Definition CHALLENGE_PREFIX : list Z := bs "/.well-known/acme-challenge/".

(** ** The token store *)

Record resp_slot := mk_slot { used : bool; s_token : list Z; s_keyauth : list Z }.

(** [snprintf (dst, cap, "%s", s)]. *)
Definition copy_to (cap : Z) (s : list Z) : list Z := ztake (cap - 1) s.

Definition responder_new : list resp_slot := replicate RESP_MAX_SLOTS (mk_slot false [] []).

Definition holds (token : list Z) (s : resp_slot) : bool := used s && bool_decide (s_token s = token).

(** The scan of [portico_acme_responder_provision]: the slot that has the token, or the
    first free one; [slot] is the free slot seen so far. *)
Fixpoint pick_slot (slots : list resp_slot) (token : list Z) (i : nat) (slot : option nat) : option nat :=
  match slots with
  | [] => slot
  | s :: t =>
      if holds token s then Some i
      else pick_slot t token (S i) (match slot with None => if used s then None else Some i | Some _ => slot end)
  end.

Definition portico_acme_responder_provision (slots : list resp_slot) (token keyauth : list Z) : list resp_slot :=
  match pick_slot slots token 0 None with
  | None => slots
  | Some i => <[i := mk_slot true (copy_to 256 token) (copy_to 512 keyauth)]> slots
  end.

Definition portico_acme_responder_unprovision (slots : list resp_slot) (token : list Z) : list resp_slot :=
  (λ s, if holds token s then mk_slot false (s_token s) (s_keyauth s) else s) <$> slots.

(** The first slot that has the token. *)
Fixpoint find_slot (slots : list resp_slot) (token : list Z) : option resp_slot :=
  match slots with
  | [] => None
  | s :: t => if holds token s then Some s else find_slot t token
  end.

(** [portico_acme_responder_lookup]: [None] is -1. *)
Definition portico_acme_responder_lookup (slots : list resp_slot) (path : list Z) (cap : Z) : option (list Z) :=
  if negb (bool_decide (take (length CHALLENGE_PREFIX) path = CHALLENGE_PREFIX)) then None
  else
    let token := drop (length CHALLENGE_PREFIX) path in
    if bool_decide (token = []) then None
    else match find_slot slots token with
         | Some s => if (0 <? zlen (s_keyauth s)) && (zlen (s_keyauth s) <? cap) then Some (s_keyauth s) else None
         | None => None
         end.

(** ** One connection of the standalone listener *)

(** A C string in a buffer: up to the first NUL. *)
Fixpoint c_string (b : list Z) : list Z :=
  match b with
  | [] => []
  | c :: t => if c =? 0 then [] else c :: c_string t
  end.

(** [strstr (buf, "\r\n\r\n")]. *)
Definition has_blank_line (buf : list Z) : bool := bool_decide (is_Some (split_response (c_string buf))).

(** The receive loop of [handle_conn]: what each [recv] gives, the list ending where it
    returns 0 or fails; at most [4095 - len] bytes each. *)
Fixpoint read_request (recvs : list (list Z)) (buf : list Z) : list Z :=
  if 4095 <=? zlen buf then buf
  else match recvs with
       | [] => buf
       | [] :: _ => buf
       | x :: t =>
           let buf' := buf ++ ztake (4095 - zlen buf) x in
           if has_blank_line buf' then buf' else read_request t buf'
       end.

Fixpoint take_word (n : nat) (s : list Z) : list Z :=
  match n, s with
  | S n', c :: t => if isspace c then [] else c :: take_word n' t
  | _, _ => []
  end.

(** [sscanf (buf, "GET %2047s", path)]: the literal, white space (perhaps none), a word. *)
Definition scan_get (buf : list Z) : option (list Z) :=
  let s := c_string buf in
  if bool_decide (take 3 s = bs "GET") then
    match take_word 2047 (drop_spaces (drop 3 s)) with
    | [] => None
    | w => Some w
    end
  else None.

Definition bad_request : list Z := bs "HTTP/1.1 400 Bad Request" ++ CRLF ++ bs "Content-Length: 0" ++ CRLF ++ bs "Connection: close" ++ CRLF ++ CRLF.
Definition not_found : list Z := bs "HTTP/1.1 404 Not Found" ++ CRLF ++ bs "Content-Length: 0" ++ CRLF ++ bs "Connection: close" ++ CRLF ++ CRLF.
Definition ok_head (n : Z) : list Z :=
  bs "HTTP/1.1 200 OK" ++ CRLF ++ bs "Content-Type: application/octet-stream" ++ CRLF ++
  bs "Content-Length: " ++ dec_string n ++ CRLF ++ bs "Connection: close" ++ CRLF ++ CRLF.

(** [send_all]: what each [send] accepted, the list ending where it fails; the bytes that
    went out and the outcomes left. *)
Fixpoint send_all (sends : list Z) (buf : list Z) : list Z * list Z :=
  match buf, sends with
  | [], _ => ([], sends)
  | _, [] => ([], [])
  | _, k :: t =>
      if k <=? 0 then ([], t)
      else let '(out, rest) := send_all t (zdrop k buf) in (ztake k buf ++ out, rest)
  end.

(** [handle_conn]: the bytes sent. *)
Definition handle_conn (slots : list resp_slot) (recvs : list (list Z)) (sends : list Z) : list Z :=
  match scan_get (read_request recvs []) with
  | None => (send_all sends bad_request).1
  | Some path =>
      let path := (split_at 63 path).1 in
      match portico_acme_responder_lookup slots path 512 with
      | None => (send_all sends not_found).1
      | Some keyauth =>
          let '(out, sends) := send_all sends (ok_head (zlen keyauth)) in
          out ++ (send_all sends keyauth).1
      end
  end.

(** ** The listener's life *)

(** What [poll] reports: a failure (interrupted or not), the stop descriptor, or a
    connection, with the table at that moment and what its socket does; [None] when
    [accept] fails. *)
Inductive poll_ev :=
| PollFail (eintr : bool)
| PollStop
| PollConn (conn : option (list resp_slot * list (list Z) * list Z)).

(** [serve_thread]: the answers sent, and whether the thread ended. *)
Fixpoint serve_thread (evs : list poll_ev) : list (list Z) * bool :=
  match evs with
  | [] => ([], false)
  | PollFail true :: t => serve_thread t
  | PollFail false :: _ | PollStop :: _ => ([], true)
  | PollConn None :: t => serve_thread t
  | PollConn (Some (slots, recvs, sends)) :: t =>
      let '(out, ended) := serve_thread t in (handle_conn slots recvs sends :: out, ended)
  end.

(** The listener's fields of the responder. *)
Record listener := mk_listener { listen_fd : Z; stop_fd : Z; running : bool }.
Definition listener_new : listener := mk_listener (-1) (-1) false.

(** What the system calls of [portico_acme_responder_listen] answer. *)
Record listen_env := mk_env {
  e_sock6 : option Z; e_bind6 : bool; e_name6 : option Z;
  e_sock4 : option Z; e_bind4 : bool; e_name4 : option Z;
  e_event : option Z; e_thread : bool }.

Definition open_fd (fd : Z) (held : list Z) : list Z := fd :: held.
Definition close_fd (fd : Z) (held : list Z) : list Z := filter (λ x, x ≠ fd) held.

(** The socket: a dual-stack one if it binds, else an IPv4 one; with the bound port. *)
Definition listen_socket (e : listen_env) (held : list Z) : option (Z * Z) * list Z :=
  let '(six, held) :=
    match e_sock6 e with
    | None => (None, held)
    | Some fd =>
        let held := open_fd fd held in
        match (if e_bind6 e then e_name6 e else None) with
        | Some port => (Some (fd, port), held)
        | None => (None, close_fd fd held)
        end
    end in
  match six with
  | Some fp => (Some fp, held)
  | None =>
      match e_sock4 e with
      | None => (None, held)
      | Some fd =>
          let held := open_fd fd held in
          if negb (e_bind4 e) then (None, close_fd fd held)
          else match e_name4 e with
               | None => (None, close_fd fd held)
               | Some port => (Some (fd, port), held)
               end
      end
  end.

(** [portico_acme_responder_listen]: the bound port or [None] for -1. *)
Definition portico_acme_responder_listen (r : listener) (e : listen_env) (held : list Z) : option Z * listener * list Z :=
  if running r then (None, r, held)
  else
    match listen_socket e held with
    | (None, held) => (None, r, held)
    | (Some (fd, port), held) =>
        match e_event e with
        | None => (None, r, close_fd fd held)
        | Some ev =>
            let held := open_fd ev held in
            if e_thread e then (Some port, mk_listener fd ev true, held)
            else (None, mk_listener (-1) (-1) false, close_fd ev (close_fd fd held))
        end
    end.

(** [portico_acme_responder_stop]. *)
Definition portico_acme_responder_stop (r : listener) (held : list Z) : listener * list Z :=
  if negb (running r) then (r, held)
  else (mk_listener (-1) (-1) false, close_fd (stop_fd r) (close_fd (listen_fd r) held)).

(** ** The table is a bounded map *)

Definition b2n (b : bool) : nat := if b then 1 else 0.
Fixpoint count_used (slots : list resp_slot) : nat :=
  match slots with [] => 0 | s :: t => b2n (used s) + count_used t end.

Lemma holds_true token s : holds token s = true ↔ used s = true ∧ s_token s = token.
Proof. unfold holds. rewrite andb_true_iff, bool_decide_eq_true. done. Qed.

Lemma count_used_insert slots i s s' :
  slots !! i = Some s → (count_used (<[i := s']> slots) + b2n (used s) = count_used slots + b2n (used s'))%nat.
Proof.
  revert i. induction slots as [ | x slots IH]; intros [ | i] H; cbn -[b2n] in H |- *; try done.
  - injection H as ->. lia.
  - specialize (IH i H). unfold insert in *. lia.
Qed.

Lemma count_used_le slots : (count_used slots <= length slots)%nat.
Proof. induction slots as [ | s slots IH]; cbn; [done |]. destruct (used s); cbn; lia. Qed.

Lemma count_used_free slots i s : slots !! i = Some s → used s = false → (count_used slots < length slots)%nat.
Proof.
  intros H Hu. pose proof (count_used_insert slots i s (mk_slot true [] []) H) as E. rewrite Hu in E. cbn in E.
  pose proof (count_used_le (<[i := mk_slot true [] []]> slots)) as L. rewrite length_insert in L. lia.
Qed.

Lemma count_used_full slots : Forall (λ s, used s = true) slots → count_used slots = length slots.
Proof. induction 1 as [ | s slots Hs HF IH]; cbn; [done |]. by rewrite Hs, IH. Qed.

(** What the scan finds. *)
Lemma pick_slot_spec slots token : ∀ n acc,
  (∃ j s, slots !! j = Some s ∧ holds token s = true ∧ pick_slot slots token n acc = Some (n + j)%nat) ∨
  (Forall (λ s, holds token s = false) slots ∧
   match acc with
   | Some a => pick_slot slots token n acc = Some a
   | None => (∃ j s, slots !! j = Some s ∧ used s = false ∧ pick_slot slots token n acc = Some (n + j)%nat) ∨
             (Forall (λ s, used s = true) slots ∧ pick_slot slots token n acc = None)
   end).
Proof.
  induction slots as [ | s slots IH]; intros n acc; cbn [pick_slot].
  - right. split; [constructor |]. destruct acc; [done |]. right. split; [constructor | done].
  - destruct (holds token s) eqn:E; [left; exists 0%nat, s; split_and!; [done | done | f_equal; lia] |].
    set (acc' := match acc with None => if used s then None else Some n | Some _ => acc end).
    destruct (IH (S n) acc') as [(j & x & H1 & H2 & H3) | [HF H]].
    + left. exists (S j), x. split_and!; [done | done | rewrite H3; f_equal; lia].
    + right. split; [by constructor |]. destruct acc as [a | ]; [done |]. unfold acc' in *. destruct (used s) eqn:Eu.
      * destruct H as [(j & x & H1 & H2 & H3) | [Hf H]]; [left; exists (S j), x; split_and!; [done | done | rewrite H3; f_equal; lia] |].
        right. split; [by constructor | done].
      * left. exists 0%nat, s. split_and!; [done | done | rewrite H; f_equal; lia].
Qed.

(** The table [slots] stands for the map [m]. *)
Record table_is (slots : list resp_slot) (m : gmap (list Z) (list Z)) : Prop := {
  ti_len : length slots = RESP_MAX_SLOTS;
  ti_uniq : ∀ i j s s', slots !! i = Some s → slots !! j = Some s' → used s = true → used s' = true → s_token s = s_token s' → i = j;
  ti_map : ∀ t k, m !! t = Some k ↔ ∃ i s, slots !! i = Some s ∧ used s = true ∧ s_token s = t ∧ s_keyauth s = k;
  ti_size : size m = count_used slots }.

Lemma table_is_new : table_is responder_new ∅.
Proof.
  split; [done | | | done].
  - intros i j s s' H1 _ Hu. apply lookup_replicate in H1 as [-> _]. done.
  - intros t k. split; [by rewrite lookup_empty | intros (i & s & H & Hu & _)]. by apply lookup_replicate in H as [-> _].
Qed.

(** The abstract operations: a map with room for 64 tokens. *)
Definition map_provision (m : gmap (list Z) (list Z)) (token keyauth : list Z) : gmap (list Z) (list Z) :=
  if decide (is_Some (m !! token) ∨ (size m < RESP_MAX_SLOTS)%nat) then <[token := keyauth]> m else m.

Lemma copy_to_fits cap s : zlen s < cap → copy_to cap s = s.
Proof. intros H. apply ztake_ge. lia. Qed.

(** Writing the slot [i] for [token], where no other slot has it. *)
Lemma table_write slots m i s token keyauth :
  table_is slots m → slots !! i = Some s →
  (∀ j x, slots !! j = Some x → used x = true → s_token x = token → j = i) →
  (used s = true → s_token s = token) →
  table_is (<[i := mk_slot true token keyauth]> slots) (<[token := keyauth]> m).
Proof.
  intros HT Hi Hother Hs. pose proof (lookup_lt_Some _ _ _ Hi) as Hlt. split.
  - rewrite length_insert. apply HT.
  - intros a b x y Ha Hb Hx Hy Ht. apply list_lookup_insert_Some in Ha as [(<- & <- & _) | [Hna Ha]]; apply list_lookup_insert_Some in Hb as [(<- & <- & _) | [Hnb Hb]]; cbn in Ht.
    + done.
    + symmetry. by eapply Hother.
    + by eapply Hother.
    + by eapply (ti_uniq _ _ HT).
  - intros t k. destruct (decide (t = token)) as [-> | Ht].
    + rewrite lookup_insert_eq. split.
      * intros [= <-]. exists i, (mk_slot true token keyauth). rewrite list_lookup_insert_eq by done. done.
      * intros (j & x & Hj & Hu & Htk & Hk). apply list_lookup_insert_Some in Hj as [(<- & <- & _) | [Hn Hj]]; [cbn in Hk; by rewrite Hk |].
        destruct Hn. symmetry. by eapply Hother.
    + rewrite lookup_insert_ne by done. rewrite (ti_map _ _ HT). split; intros (j & x & Hj & Hu & Htk & Hk).
      * exists j, x. split_and!; try done. destruct (decide (j = i)) as [-> | Hn]; [ | by rewrite list_lookup_insert_ne].
        rewrite Hi in Hj. injection Hj as ->. rewrite (Hs Hu) in Htk. done.
      * apply list_lookup_insert_Some in Hj as [(<- & <- & _) | [Hn Hj]]; [by cbn in Htk |]. by exists j, x.
  - pose proof (count_used_insert slots i s (mk_slot true token keyauth) Hi) as Ec. cbn [used b2n] in Ec.
    destruct (used s) eqn:Eu; cbn [b2n] in Ec.
    + assert (Hm : m !! token = Some (s_keyauth s)) by (apply (ti_map _ _ HT); exists i, s; auto).
      rewrite map_size_insert_Some by eauto. rewrite (ti_size _ _ HT). lia.
    + assert (Hm : m !! token = None).
      { apply eq_None_not_Some. intros [k Hk]. apply (ti_map _ _ HT) in Hk as (j & x & Hj & Hu & Htk & _).
        rewrite (Hother j x Hj Hu Htk) in Hj. rewrite Hi in Hj. injection Hj as ->. by rewrite Eu in Hu. }
      rewrite map_size_insert_None by done. rewrite (ti_size _ _ HT). lia.
Qed.

Lemma provision_refines slots m token keyauth :
  table_is slots m → zlen token < 256 → zlen keyauth < 512 →
  table_is (portico_acme_responder_provision slots token keyauth) (map_provision m token keyauth).
Proof.
  intros HT Ht Hk. unfold portico_acme_responder_provision, map_provision. rewrite !copy_to_fits by done.
  destruct (pick_slot_spec slots token 0 None) as [(j & s & Hj & Hh & ->) | [HF [(j & s & Hj & Hu & ->) | [HU ->]]]].
  - apply holds_true in Hh as [Hu Hst]. rewrite decide_True.
    + rewrite Nat.add_0_l. eapply table_write; [done | done | | done]. intros i x Hi Hx Hxt. eapply (ti_uniq _ _ HT); eauto. congruence.
    + left. exists (s_keyauth s). apply (ti_map _ _ HT). by exists j, s.
  - rewrite decide_True by (right; rewrite (ti_size _ _ HT), <- (ti_len _ _ HT); by eapply count_used_free).
    rewrite Nat.add_0_l. eapply table_write; [done | done | | by rewrite Hu].
    intros i x Hi Hx Hxt. rewrite Forall_forall in HF. pose proof (HF x (list_elem_of_lookup_2 _ _ _ Hi)) as Hn.
    rewrite (proj2 (holds_true token x)) in Hn by done. done.
  - rewrite decide_False; [done |]. intros [[k Hm] | Hs].
    + apply (ti_map _ _ HT) in Hm as (i & x & Hi & Hx & Hxt & _). rewrite Forall_forall in HF. pose proof (HF x (list_elem_of_lookup_2 _ _ _ Hi)) as Hn.
      rewrite (proj2 (holds_true token x)) in Hn by done. done.
    + rewrite (ti_size _ _ HT), count_used_full, (ti_len _ _ HT) in Hs by done. lia.
Qed.

Lemma unprovision_lookup slots token i s :
  portico_acme_responder_unprovision slots token !! i = Some s →
  ∃ x, slots !! i = Some x ∧ s_token s = s_token x ∧ s_keyauth s = s_keyauth x ∧ (used s = true ↔ used x = true ∧ s_token x ≠ token).
Proof.
  unfold portico_acme_responder_unprovision. rewrite list_lookup_fmap. destruct (slots !! i) as [x | ]; [ | done]. cbn. intros [= <-].
  exists x. destruct (holds token x) eqn:E; cbn.
  - apply holds_true in E as [_ E]. split_and!; try done. split; [done | intros [_ H]; done].
  - split_and!; try done. split; [ | by intros [? _]]. intros Hu. split; [done |]. intros Ht. by rewrite (proj2 (holds_true token x)) in E.
Qed.

Definition free_slot (s : resp_slot) : resp_slot := mk_slot false (s_token s) (s_keyauth s).

Lemma unprovision_absent slots token : Forall (λ s, holds token s = false) slots → portico_acme_responder_unprovision slots token = slots.
Proof. induction 1 as [ | s slots Hs HF IH]; [done |]. unfold portico_acme_responder_unprovision in *. cbn [fmap list_fmap]. by rewrite Hs, IH. Qed.

Lemma unprovision_one slots token i s :
  slots !! i = Some s → holds token s = true → (∀ j x, slots !! j = Some x → holds token x = true → j = i) →
  portico_acme_responder_unprovision slots token = <[i := free_slot s]> slots.
Proof.
  intros Hi Hs Hu. apply list_eq. intros j. unfold portico_acme_responder_unprovision. rewrite list_lookup_fmap.
  destruct (decide (j = i)) as [-> | Hn].
  - rewrite list_lookup_insert_eq, Hi by (by eapply lookup_lt_Some). cbn. by rewrite Hs.
  - rewrite list_lookup_insert_ne by done. destruct (slots !! j) as [x | ] eqn:Ex; [ | done]. cbn.
    destruct (holds token x) eqn:E; [destruct Hn; by eapply Hu | done].
Qed.

Lemma table_holds slots m i s token : table_is slots m → slots !! i = Some s → holds token s = true → m !! token = Some (s_keyauth s).
Proof. intros HT Hi [Hu Ht]%holds_true. apply (ti_map _ _ HT). by exists i, s. Qed.

Lemma unprovision_refines slots m token :
  table_is slots m → table_is (portico_acme_responder_unprovision slots token) (delete token m).
Proof.
  intros HT. split.
  - unfold portico_acme_responder_unprovision. rewrite length_fmap. apply HT.
  - intros i j s s' Hi Hj Hu Hu' Ht. apply unprovision_lookup in Hi as (x & Hx & Tx & _ & Ux). apply unprovision_lookup in Hj as (y & Hy & Ty & _ & Uy).
    apply (ti_uniq _ _ HT i j x y Hx Hy); [by apply Ux | by apply Uy | congruence].
  - intros t k. rewrite lookup_delete_Some, (ti_map _ _ HT). split.
    + intros (Hn & i & s & Hi & Hu & Ht & Hk). exists i, s. split_and!; try done. unfold portico_acme_responder_unprovision. rewrite list_lookup_fmap, Hi. cbn.
      destruct (holds token s) eqn:E; [ | done]. apply holds_true in E as [_ E]. congruence.
    + intros (i & s & Hi & Hu & Ht & Hk). apply unprovision_lookup in Hi as (x & Hx & Tx & Kx & Ux). apply Ux in Hu as [Hu Hn].
      split; [congruence |]. exists i, x. split_and!; try done; congruence.
  - destruct (decide (Exists (λ s, holds token s = true) slots)) as [HE | HN].
    + apply Exists_exists in HE as (s & Hin & Hs). apply list_elem_of_lookup in Hin as [i Hi]. pose proof (table_holds _ _ _ _ _ HT Hi Hs) as Hm.
      pose proof Hs as [Hu Ht]%holds_true. rewrite (unprovision_one slots token i s Hi Hs).
      * rewrite map_size_delete_Some, (ti_size _ _ HT) by eauto. pose proof (count_used_insert slots i s (free_slot s) Hi) as Ec. rewrite Hu in Ec. cbn [free_slot used b2n] in Ec. lia.
      * intros j x Hj [Hux Htx]%holds_true. apply (ti_uniq _ _ HT j i x s Hj Hi); congruence.
    + assert (HF : Forall (λ s, holds token s = false) slots).
      { apply Forall_forall. intros s Hs. destruct (holds token s) eqn:E; [ | done]. destruct HN. apply Exists_exists. by exists s. }
      rewrite unprovision_absent by done. rewrite delete_id; [apply HT |]. apply eq_None_not_Some. intros [k Hk].
      apply (ti_map _ _ HT) in Hk as (i & s & Hi & Hu & Ht & _). rewrite Forall_forall in HF. pose proof (HF s (list_elem_of_lookup_2 _ _ _ Hi)) as Hn.
      by rewrite (proj2 (holds_true token s)) in Hn.
Qed.

Lemma find_slot_Some slots token s : find_slot slots token = Some s → ∃ i, slots !! i = Some s ∧ holds token s = true.
Proof.
  induction slots as [ | x slots IH]; cbn [find_slot]; [done |]. destruct (holds token x) eqn:E; [intros [= <-]; by exists 0%nat |].
  intros H. destruct (IH H) as (i & Hi & Hh). by exists (S i).
Qed.

Lemma find_slot_None slots token : find_slot slots token = None → Forall (λ s, holds token s = false) slots.
Proof. induction slots as [ | x slots IH]; cbn [find_slot]; [constructor |]. destruct (holds token x) eqn:E; [done |]. intros H. constructor; auto. Qed.

Lemma find_slot_map slots m token : table_is slots m → s_keyauth <$> find_slot slots token = m !! token.
Proof.
  intros HT. destruct (find_slot slots token) as [s | ] eqn:E; cbn.
  - apply find_slot_Some in E as (i & Hi & Hh). symmetry. by eapply table_holds.
  - apply find_slot_None in E. symmetry. apply eq_None_not_Some. intros [k Hk]. apply (ti_map _ _ HT) in Hk as (i & s & Hi & Hu & Ht & _).
    rewrite Forall_forall in E. pose proof (E s (list_elem_of_lookup_2 _ _ _ Hi)) as Hn. by rewrite (proj2 (holds_true token s)) in Hn.
Qed.

(** What a path gets, by the map: the key authorization of a non-empty token under the
    prefix, if it is not empty and fits. *)
Definition map_lookup (m : gmap (list Z) (list Z)) (path : list Z) (cap : Z) : option (list Z) :=
  if decide (take (length CHALLENGE_PREFIX) path = CHALLENGE_PREFIX ∧ drop (length CHALLENGE_PREFIX) path ≠ []) then
    match m !! drop (length CHALLENGE_PREFIX) path with
    | Some k => if (0 <? zlen k) && (zlen k <? cap) then Some k else None
    | None => None
    end
  else None.

Lemma lookup_refines slots m path cap : table_is slots m → portico_acme_responder_lookup slots path cap = map_lookup m path cap.
Proof.
  intros HT. unfold portico_acme_responder_lookup, map_lookup. rewrite <- (find_slot_map slots m _ HT).
  case_bool_decide as H1; cbn [negb]; [ | rewrite decide_False by tauto; done].
  case_bool_decide as H2; [rewrite decide_False by tauto; done |]. rewrite decide_True by done. by destruct (find_slot _ _).
Qed.

(** The operations on the table, as the client calls them. *)
Inductive table_op := Provision (token keyauth : list Z) | Unprovision (token : list Z).
Definition op_fits (o : table_op) : Prop := match o with Provision t k => zlen t < 256 ∧ zlen k < 512 | Unprovision _ => True end.
Definition table_do (slots : list resp_slot) (o : table_op) : list resp_slot :=
  match o with Provision t k => portico_acme_responder_provision slots t k | Unprovision t => portico_acme_responder_unprovision slots t end.
Definition map_do (m : gmap (list Z) (list Z)) (o : table_op) : gmap (list Z) (list Z) :=
  match o with Provision t k => map_provision m t k | Unprovision t => delete t m end.

Lemma ops_refine ops : ∀ slots m, Forall op_fits ops → table_is slots m → table_is (fold_left table_do ops slots) (fold_left map_do ops m).
Proof.
  induction ops as [ | o ops IH]; intros slots m HF HT; [done |]. apply Forall_cons in HF as [Ho HF]. cbn [fold_left]. apply IH; [done |].
  destruct o as [t k | t]; cbn in *; [destruct Ho; by apply provision_refines | by apply unprovision_refines].
Qed.

(** After any sequence of provisions and unprovisions whose strings fit their
    fields, the table is the map they describe, holding at most 64 tokens (a token beyond
    them is dropped), and a lookup answers as that map. *)
Theorem responder_refines_map ops :
  Forall op_fits ops →
  let slots := fold_left table_do ops responder_new in
  let m := fold_left map_do ops ∅ in
  (size m <= RESP_MAX_SLOTS)%nat ∧ (∀ t, s_keyauth <$> find_slot slots t = m !! t) ∧
  (∀ path cap, portico_acme_responder_lookup slots path cap = map_lookup m path cap).
Proof.
  intros HF slots m. assert (HT : table_is slots m) by (apply ops_refine; [done | apply table_is_new]). split_and!.
  - rewrite (ti_size _ _ HT), <- (ti_len _ _ HT). apply count_used_le.
  - intros t. by apply find_slot_map.
  - intros path cap. by apply lookup_refines.
Qed.

Lemma responder_refines_map_witness :
  portico_acme_responder_lookup (fold_left table_do [Provision (bs "t1") (bs "k1"); Provision (bs "t2") (bs "k2"); Provision (bs "t1") (bs "k3"); Unprovision (bs "t2")] responder_new)
    (CHALLENGE_PREFIX ++ bs "t1") 512 = Some (bs "k3").
Proof.
  rewrite (proj2 (proj2 (responder_refines_map [Provision (bs "t1") (bs "k1"); Provision (bs "t2") (bs "k2"); Provision (bs "t1") (bs "k3"); Unprovision (bs "t2")]
    ltac:(repeat (apply List.Forall_cons; [vm_compute; done |]); apply List.Forall_nil)))). by vm_compute.
Defined.

(** A token that does not fit its field is stored cut, is not found, and keeps its slot
    when it is taken down. *)
Example responder_long_token :
  let t := replicate 300 97 in
  let slots := portico_acme_responder_provision responder_new t (bs "k") in
  portico_acme_responder_lookup slots (CHALLENGE_PREFIX ++ t) 512 = None ∧
  count_used (portico_acme_responder_unprovision slots t) = 1%nat.
Proof. by vm_compute. Qed.

(** ** A challenge request is answered *)

Lemma send_all_complete buf : ∀ sends,
  Forall (λ k, 0 < k) sends → (length buf <= length sends)%nat →
  ∃ rest, send_all sends buf = (buf, rest) ∧ Forall (λ k, 0 < k) rest ∧ (length sends <= length rest + length buf)%nat.
Proof.
  induction buf as [buf IH] using (induction_ltof1 _ (@length Z)). unfold ltof in IH. intros sends HF Hl.
  destruct buf as [ | c buf]; [exists sends; destruct sends; split_and!; try done; cbn; lia |].
  destruct sends as [ | k sends]; [cbn in Hl; lia |]. apply Forall_cons in HF as [Hk HF]. set (l := c :: buf) in *.
  assert (Hd : (length (zdrop k l) < length l)%nat) by (unfold zdrop; rewrite length_drop; unfold l; cbn [length]; lia).
  destruct (IH (zdrop k l) Hd sends HF) as (rest & E & HR & Hlr); [cbn [length] in Hl; lia |].
  exists rest. unfold l at 1. cbn [send_all]. fold l. rewrite (proj2 (Z.leb_gt k 0)) by lia. rewrite E, ztake_zdrop. split_and!; try done. cbn [length]. lia.
Qed.

Lemma c_string_app a b : (0 ∉ a) → c_string (a ++ b) = a ++ c_string b.
Proof.
  induction a as [ | c a IH]; intros H; [done |]. apply not_elem_of_cons in H as [Hc Ha]. cbn [app c_string].
  rewrite (proj2 (Z.eqb_neq c 0)) by congruence. by rewrite IH.
Qed.

Lemma split_response_cr s h b : split_response s = Some (h, b) → 13 ∈ s.
Proof.
  revert h b. induction s as [ | c s IH]; intros h b; [done |]. destruct (decide (c = 13)) as [-> | Hc]; [intros _; apply elem_of_cons; by left |].
  rewrite split_response_skip by done. destruct (split_response s) as [[h' b'] | ]; [ | done]. intros _. apply elem_of_cons. right. by eapply IH.
Qed.

Lemma c_string_sub s x : x ∈ c_string s → x ∈ s.
Proof.
  induction s as [ | c s IH]; cbn [c_string]; [done |]. destruct (c =? 0); [intros H; by apply not_elem_of_nil in H |].
  rewrite !elem_of_cons. intros [-> | H]; [by left | right; by apply IH].
Qed.

Lemma blank_line_cr q : has_blank_line q = true → 13 ∈ q.
Proof. unfold has_blank_line. rewrite bool_decide_eq_true. intros [[h b] H]. apply c_string_sub. by eapply split_response_cr. Qed.

(** What is read is all of the request, or a part of it with a blank line. *)
Lemma read_request_prefix recvs : ∀ buf,
  Forall (λ x, x ≠ []) recvs → zlen (buf ++ concat recvs) <= 4095 →
  ∃ b, buf ++ concat recvs = read_request recvs buf ++ b ∧ (b = [] ∨ has_blank_line (read_request recvs buf) = true).
Proof.
  induction recvs as [ | x recvs IH]; intros buf HF Hl; cbn [read_request concat] in *.
  - exists []. split; [by destruct (4095 <=? zlen buf) | by left].
  - apply Forall_cons in HF as [Hx HF]. rewrite app_assoc in Hl. rewrite !zlen_app in Hl. pose proof (zlen_nonneg (concat recvs)).
    assert (0 < zlen x) by (destruct x; [done | rewrite zlen_cons; pose proof (zlen_nonneg x); lia]).
    rewrite (proj2 (Z.leb_gt 4095 (zlen buf))) by lia. destruct x as [ | c x]; [done |]. set (y := c :: x) in *. cbn zeta.
    rewrite (ztake_ge (4095 - zlen buf) y) by lia. destruct (has_blank_line (buf ++ y)) eqn:E.
    + exists (concat recvs). split; [by rewrite app_assoc | by right].
    + destruct (IH (buf ++ y) HF) as (b & Hb & Hor); [rewrite !zlen_app; lia |]. exists b. split; [by rewrite app_assoc | done].
Qed.

Lemma take_word_all w rest n : Forall (λ c, isspace c = false) w → (length w <= n)%nat → take_word n (w ++ 32 :: rest) = w.
Proof.
  intros HF. revert n. induction HF as [ | c w Hc HF IH]; intros n Hn; [by destruct n |]. destruct n as [ | n]; [cbn in Hn; lia |].
  cbn [app take_word]. rewrite Hc. f_equal. apply IH. cbn in Hn. lia.
Qed.

(** A word without white space or NUL. *)
Definition word (w : list Z) : Prop := Forall (λ c, isspace c = false) w ∧ (0 ∉ w).

Lemma scan_get_path path rest : path ≠ [] → word path → zlen path <= 2047 → scan_get (bs "GET " ++ path ++ 32 :: rest) = Some path.
Proof.
  intros Hne [Hw H0] Hl. unfold scan_get. rewrite c_string_app by (solve_not_in).
  rewrite (c_string_app path) by done. cbn [c_string Z.eqb]. change (take 3 (bs "GET " ++ ?x)) with (bs "GET").
  rewrite bool_decide_true by done. change (drop 3 (bs "GET " ++ ?x)) with (32 :: x).
  assert (Ed : drop_spaces (32 :: path ++ 32 :: c_string rest) = path ++ 32 :: c_string rest).
  { cbn [drop_spaces]. change (isspace 32) with true. cbn. destruct path as [ | c path]; [done |]. apply Forall_cons in Hw as [Hc _]. cbn [app drop_spaces]. by rewrite Hc. }
  rewrite Ed, take_word_all by (try done; unfold zlen in Hl; lia). by destruct path.
Qed.

Lemma word_no_cr w : word w → 13 ∉ w.
Proof. intros [Hw _] Hin. rewrite Forall_forall in Hw. by specialize (Hw 13 Hin). Qed.

(** However the request arrives, its path is read. *)
Lemma request_path recvs path rest :
  Forall (λ x, x ≠ []) recvs → concat recvs = bs "GET " ++ path ++ 32 :: rest → zlen (concat recvs) <= 4095 →
  path ≠ [] → word path → zlen path <= 2047 → scan_get (read_request recvs []) = Some path.
Proof.
  intros HF Hc Hl Hne Hw Hp. destruct (read_request_prefix recvs [] HF Hl) as (b & Hb & Hor). cbn [app] in Hb. set (q := read_request recvs []) in *.
  assert (Hlong : (length (bs "GET " ++ path) < length q)%nat).
  { destruct Hor as [-> | Hbl].
    - rewrite app_nil_r in Hb. rewrite <- Hb, Hc, !length_app. cbn [length]. lia.
    - apply blank_line_cr in Hbl. destruct (le_lt_dec (length q) (length (bs "GET " ++ path))) as [Hle | ]; [ | done]. exfalso.
      assert (Hq : q = take (length q) (bs "GET " ++ path)).
      { transitivity (take (length q) (concat recvs)); [by rewrite Hb, take_app_length |]. rewrite Hc, app_assoc, take_app_le by done. done. }
      rewrite Hq in Hbl. apply subseteq_take in Hbl. apply elem_of_app in Hbl as [Hbl | Hbl]; [ | by apply (word_no_cr path)].
      apply list_elem_of_In in Hbl. vm_compute in Hbl. intuition done. }
  assert (Hq : q = bs "GET " ++ path ++ 32 :: take (length q - length (bs "GET " ++ path) - 1) rest).
  { transitivity (take (length q) (concat recvs)); [by rewrite Hb, take_app_length |]. rewrite Hc, app_assoc, take_app_ge by lia. rewrite <- app_assoc. do 2 f_equal.
    destruct (length q - length (bs "GET " ++ path))%nat eqn:En; [lia |]. cbn [take]. f_equal. f_equal. lia. }
  rewrite Hq. by apply scan_get_path.
Qed.

Lemma ok_head_fits n : 0 <= n < 512 → zlen (ok_head n) < 256.
Proof. intros Hn. unfold ok_head. rewrite !zlen_app. pose proof (dec_string_len n). vm_compute (zlen (bs _)). change (zlen CRLF) with 2. lia. Qed.

(** The answer the CA should see. *)
Definition answer (k : option (list Z)) : list Z :=
  match k with
  | Some k => if (0 <? zlen k) && (zlen k <? 512) then ok_head (zlen k) ++ k else not_found
  | None => not_found
  end.

(** A GET for a token's challenge path is answered with the key authorization last
    provisioned for it, or with 404, whatever the pieces in which the request arrives and
    the pieces in which the answer is taken, with or without a query string. *)
Theorem responder_answers ops recvs sends token query rest :
  Forall op_fits ops → Forall (λ x, x ≠ []) recvs →
  concat recvs = bs "GET " ++ (CHALLENGE_PREFIX ++ token ++ query) ++ 32 :: rest → zlen (concat recvs) <= 4095 →
  token ≠ [] → word (token ++ query) → (63 ∉ token) → (query = [] ∨ ∃ q, query = 63 :: q) → zlen token + zlen query < 2000 →
  Forall (λ k, 0 < k) sends → (1024 <= length sends)%nat →
  handle_conn (fold_left table_do ops responder_new) recvs sends = answer (fold_left map_do ops ∅ !! token).
Proof.
  intros HF HR Hc Hl Hne Hw H63 Hq Hlen HS Hsl.
  assert (HT : table_is (fold_left table_do ops responder_new) (fold_left map_do ops ∅)) by (apply ops_refine; [done | apply table_is_new]).
  unfold handle_conn. rewrite (request_path recvs (CHALLENGE_PREFIX ++ token ++ query) rest); try done.
  2:{ destruct Hw as [H1 H2]. split; [apply Forall_app; split; [repeat (apply List.Forall_cons; [done |]); apply List.Forall_nil | done] |].
      apply not_elem_of_app. split; [solve_not_in | done]. }
  2:{ rewrite !zlen_app. change (zlen CHALLENGE_PREFIX) with 28. lia. }
  cbn zeta. assert (Hcut : (split_at 63 (CHALLENGE_PREFIX ++ token ++ query)).1 = CHALLENGE_PREFIX ++ token).
  { assert (H63' : 63 ∉ CHALLENGE_PREFIX ++ token) by (apply not_elem_of_app; split; [solve_not_in | done]).
    destruct Hq as [-> | [q ->]]; [rewrite app_nil_r, split_at_missing by done; done | rewrite app_assoc, split_at_found by done; done]. }
  rewrite Hcut, (lookup_refines _ _ _ _ HT). unfold map_lookup. rewrite take_app_length, drop_app_length, decide_True by done.
  unfold answer. set (k := fold_left map_do ops ∅ !! token). clearbody k.
  assert (Hnf : (send_all sends not_found).1 = not_found).
  { destruct (send_all_complete not_found sends HS) as (r & E & _); [assert (length not_found <= 100)%nat by (apply Nat.leb_le; by vm_compute); lia | by rewrite E]. }
  destruct k as [k | ]; [ | done]. destruct ((0 <? zlen k) && (zlen k <? 512)) eqn:Ek; [ | done]. zbool.
  pose proof (ok_head_fits (zlen k) ltac:(lia)) as Hh. unfold zlen in Hh, H0.
  destruct (send_all_complete (ok_head (zlen k)) sends HS) as (r & E & HR' & Hr); [unfold zlen; lia |]. rewrite E.
  destruct (send_all_complete k r HR') as (r' & E' & _); [unfold zlen in *; lia |]. by rewrite E'.
Qed.

Lemma responder_answers_witness :
  handle_conn (fold_left table_do [Provision (bs "tok") (bs "tok.thumb")] responder_new)
    [bs "GET /.well-kno"; bs "wn/acme-challenge/tok?x HTTP/1.1"] (replicate 1024 7)
  = answer (fold_left map_do [Provision (bs "tok") (bs "tok.thumb")] ∅ !! bs "tok").
Proof.
  refine (responder_answers [Provision (bs "tok") (bs "tok.thumb")] [bs "GET /.well-kno"; bs "wn/acme-challenge/tok?x HTTP/1.1"] (replicate 1024 7)
    (bs "tok") (bs "?x") (bs "HTTP/1.1") _ _ _ _ _ _ _ _ _ _ _).
  - apply List.Forall_cons; [vm_compute; done | apply List.Forall_nil].
  - repeat (apply List.Forall_cons; [done |]). apply List.Forall_nil.
  - reflexivity.
  - vm_compute; done.
  - done.
  - split; [repeat (apply List.Forall_cons; [done |]); apply List.Forall_nil | solve_not_in].
  - solve_not_in.
  - right. by exists (bs "x").
  - vm_compute; done.
  - apply Forall_replicate. lia.
  - rewrite length_replicate. lia.
Defined.

(** A send that times out after part of the head does not stop the body from being sent. *)
Example truncated_head_then_body :
  handle_conn (portico_acme_responder_provision responder_new (bs "t") (bs "k")) [bs "GET /.well-known/acme-challenge/t "] [4; -1; 1] = bs "HTTPk".
Proof. by vm_compute. Qed.

(** ** The listener gives its descriptors back *)

Lemma close_fd_fresh fd held : (fd ∉ held) → close_fd fd (fd :: held) = held.
Proof.
  intros H. unfold close_fd. rewrite filter_cons_False by tauto. induction held as [ | x held IH]; [done |]. apply not_elem_of_cons in H as [H1 H2].
  rewrite filter_cons_True by congruence. by rewrite IH.
Qed.

Lemma close_fd_other fd x held : fd ≠ x → close_fd fd (x :: held) = x :: close_fd fd held.
Proof. intros H. unfold close_fd. by rewrite filter_cons_True by congruence. Qed.

(** The descriptors the kernel gives are not open already. *)
Definition fresh_env (e : listen_env) (held : list Z) : Prop :=
  (∀ fd, e_sock6 e = Some fd → fd ∉ held) ∧ (∀ fd, e_sock4 e = Some fd → fd ∉ held) ∧
  (∀ ev, e_event e = Some ev → (ev ∉ held) ∧ e_sock6 e ≠ Some ev ∧ e_sock4 e ≠ Some ev).

Lemma listen_socket_held e held : fresh_env e held →
  match listen_socket e held with
  | (None, held') => held' = held
  | (Some (fd, _), held') => held' = fd :: held ∧ (fd ∉ held) ∧ (e_sock6 e = Some fd ∨ e_sock4 e = Some fd)
  end.
Proof.
  intros (H6 & H4 & _). unfold listen_socket, open_fd. destruct (e_sock6 e) as [f6 | ] eqn:E6.
  - specialize (H6 f6 eq_refl). destruct (if e_bind6 e then e_name6 e else None) as [p | ]; [split_and!; auto |]. rewrite close_fd_fresh by done.
    destruct (e_sock4 e) as [f4 | ]; [ | done]. specialize (H4 f4 eq_refl). destruct (e_bind4 e); cbn [negb]; [ | by apply close_fd_fresh].
    destruct (e_name4 e); [split_and!; auto | by apply close_fd_fresh].
  - destruct (e_sock4 e) as [f4 | ]; [ | done]. specialize (H4 f4 eq_refl). destruct (e_bind4 e); cbn [negb]; [ | by apply close_fd_fresh].
    destruct (e_name4 e); [split_and!; auto | by apply close_fd_fresh].
Qed.

(** The listener: a start that fails leaves the responder stopped and every descriptor it
    opened closed; one that succeeds holds exactly its two descriptors, and stopping gives
    them back and allows another start. *)
Lemma listen_balanced e held :
  fresh_env e held →
  match portico_acme_responder_listen listener_new e held with
  | (None, r, held') => r = listener_new ∧ held' = held
  | (Some port, r, held') =>
      running r = true ∧ held' = [stop_fd r; listen_fd r] ++ held ∧
      portico_acme_responder_listen r e held' = (None, r, held') ∧
      portico_acme_responder_stop r held' = (listener_new, held)
  end.
Proof.
  intros HE. pose proof (listen_socket_held e held HE) as HL. destruct HE as (_ & _ & He). unfold portico_acme_responder_listen at 1. cbn [running listener_new].
  destruct (listen_socket e held) as [[[fd port] | ] held1]; [ | by subst]. destruct HL as (-> & Hfd & Hor).
  destruct (e_event e) as [ev | ]; [ | by rewrite close_fd_fresh]. destruct (He ev eq_refl) as (Hev & Hn6 & Hn4).
  assert (Hne : fd ≠ ev) by (intros ->; by destruct Hor). unfold open_fd.
  assert (Hcl : close_fd ev (close_fd fd (ev :: fd :: held)) = held) by (rewrite (close_fd_other fd ev) by done; rewrite (close_fd_fresh fd) by done; by rewrite (close_fd_fresh ev)).
  destruct (e_thread e); [ | by rewrite Hcl]. split_and!; try done. unfold portico_acme_responder_stop. cbn [negb running stop_fd listen_fd]. by rewrite Hcl.
Qed.
