(* ===== verification/AcmeJws.v ===== *)
(** * Account key and JWS (src/src/acme/acme_jws.c, acme_csr.c)

    What wraps every authenticated ACME request: the canonical JWK of the account key, its
    thumbprint, the flattened JWS with its ES256 signature, and the certificate request's
    list of names.  OpenSSL is outside: the public point's octets, SHA-256, the signer and
    the certificate-request encoder are arguments. *)
From Stdlib Require Import ZArith Lia.
From stdpp Require Import base numbers list strings.
From S2P Require Import Prelude Cstr Crypto.
Open Scope Z_scope.

(** ** JSON text *)

(** A quoted string and a member, as the format strings have them. *)
Definition quoted (s : list Z) : list Z := 34 :: s ++ [34].
Definition memb (k : string) (v : list Z) : list Z := quoted (bs k) ++ bs ":" ++ v.

(** [n = snprintf (out, cap, ...)] with [n > 0 && n < cap]. *)
Definition fits (cap : Z) (s : list Z) : option (list Z) :=
  if (0 <? zlen s) && (zlen s <? cap) then Some s else None.

(** ** The key *)

(** [pub_xy]: the two coordinates, from the uncompressed encoding of the point. *)
Definition pub_xy (octets : option (list Z)) : option (list Z * list Z) :=
  match octets with
  | None => None
  | Some pub =>
      if negb (zlen pub =? 65) || negb (rd pub 0 =? 4) then None
      else Some (ztake 32 (zdrop 1 pub), ztake 32 (zdrop 33 pub))
  end.

Definition jwk_text (xb yb : list Z) : list Z :=
  bs "{" ++ memb "crv" (quoted (bs "P-256")) ++ bs "," ++ memb "kty" (quoted (bs "EC")) ++ bs "," ++
  memb "x" (quoted xb) ++ bs "," ++ memb "y" (quoted yb) ++ bs "}".

Definition portico_acme_jwk (octets : option (list Z)) (cap : Z) : option (list Z) :=
  match pub_xy octets with
  | None => None
  | Some (x, y) =>
      match portico_b64url_encode x 64, portico_b64url_encode y 64 with
      | Some xb, Some yb => fits cap (jwk_text xb yb)
      | _, _ => None
      end
  end.

Definition portico_acme_thumbprint (sha256 : list Z → list Z) (octets : option (list Z)) (cap : Z) : option (list Z) :=
  match portico_acme_jwk octets 256 with
  | None => None
  | Some jwk => portico_b64url_encode (sha256 jwk) cap
  end.

(** ** The JWS *)

(** [BN_bn2binpad (n, buf, 32)]: big-endian, left-padded; [None] when it does not fit. *)
Fixpoint be_bytes (n : nat) (v : Z) (acc : list Z) : list Z :=
  match n with O => acc | S n' => be_bytes n' (v / 256) (v mod 256 :: acc) end.
Definition bn2binpad (v : Z) : option (list Z) := if (0 <=? v) && (v <? 2 ^ 256) then Some (be_bytes 32 v []) else None.

(** The protected header: the account URL once there is one, else the key. *)
Definition protected_header (octets : option (list Z)) (kid : option (list Z)) (nonce url : list Z) : option (list Z) :=
  let header id := bs "{" ++ memb "alg" (quoted (bs "ES256")) ++ bs "," ++ id ++ bs "," ++
                   memb "nonce" (quoted nonce) ++ bs "," ++ memb "url" (quoted url) ++ bs "}" in
  match kid with
  | Some k => fits 1536 (header (memb "kid" (quoted k)))
  | None => match portico_acme_jwk octets 256 with
            | None => None
            | Some jwk => fits 1536 (header (memb "jwk" jwk))
            end
  end.

(** The raw signature: R and S, 32 bytes each. *)
Definition raw_signature (rs : option (Z * Z)) : option (list Z) :=
  match rs with
  | None => None
  | Some (r, s) => match bn2binpad r, bn2binpad s with Some a, Some b => Some (a ++ b) | _, _ => None end
  end.

Definition jws_text (p pay sig : list Z) : list Z :=
  bs "{" ++ memb "protected" (quoted p) ++ bs "," ++ memb "payload" (quoted pay) ++ bs "," ++ memb "signature" (quoted sig) ++ bs "}".

Definition signing_input (p pay : list Z) : list Z := p ++ bs "." ++ pay.

(** The header and payload encodings and the signing input, before the signature. *)
Definition jws_prepare (octets : option (list Z)) (kid : option (list Z)) (nonce url payload : list Z) : option (list Z * list Z * list Z) :=
  match protected_header octets kid nonce url with
  | None => None
  | Some prot =>
      match portico_b64url_encode prot 2048 with
      | None => None
      | Some p =>
          match portico_b64url_encode payload 8192 with
          | None => None
          | Some pay =>
              match fits 10752 (signing_input p pay) with
              | None => None
              | Some input => Some (p, pay, input)
              end
          end
      end
  end.

(** [portico_acme_jws]; [sign] is the DER signature of a text taken apart, its state the
    world's. *)
Definition portico_acme_jws {W} (sign : W → list Z → option (Z * Z) * W) (w : W) (octets : option (list Z))
    (kid : option (list Z)) (nonce url payload : list Z) (cap : Z) : option (list Z) * W :=
  match jws_prepare octets kid nonce url payload with
  | None => (None, w)
  | Some (p, pay, input) =>
      let '(rs, w) := sign w input in
      match raw_signature rs with
      | None => (None, w)
      | Some raw =>
          match portico_b64url_encode raw 128 with
          | None => (None, w)
          | Some sig => (fits cap (jws_text p pay sig), w)
          end
      end
  end.

(** ** The certificate request *)

(** The subjectAltName text, [None] when it does not fit its 4096 bytes. *)
Fixpoint san_loop (domains : list (list Z)) (first : bool) (acc : list Z) : option (list Z) :=
  match domains with
  | [] => Some acc
  | d :: t =>
      let w := (if first then [] else bs ",") ++ bs "DNS:" ++ d in
      if 4096 - zlen acc <=? zlen w then None else san_loop t false (acc ++ w)
  end.

(** [portico_acme_make_csr]: [load] is the key at the path, [encode] the signed request's
    DER from the key, the common name and the alternative names. *)
Definition portico_acme_make_csr {W K} (load : W → list Z → option K * W) (encode : W → K → list Z → list Z → option (list Z) * W)
    (w : W) (key_path : list Z) (domains : list (list Z)) (cap : Z) : option (list Z) * W :=
  match domains with
  | [] => (None, w)
  | cn :: _ =>
      let '(k, w) := load w key_path in
      match k with
      | None => (None, w)
      | Some k =>
          match san_loop domains true [] with
          | None => (None, w)
          | Some san =>
              let '(der, w) := encode w k cn san in
              match der with
              | None => (None, w)
              | Some der => if zlen der <=? 0 then (None, w) else (portico_b64url_encode der cap, w)
              end
          end
      end
  end.

(** ** Lemmas *)

Lemma fits_Some cap s t : fits cap s = Some t → t = s ∧ 0 < zlen s < cap.
Proof. unfold fits. destruct (_ && _) eqn:E; [ | done]. intros [= <-]. zbool. done. Qed.

Lemma b64url_encode_Some input cap text : bytes_ok input → portico_b64url_encode input cap = Some text →
  zlen text = b64url_len (zlen input) ∧ zlen text < cap ∧ (∀ dcap, zlen input <= dcap → portico_b64url_decode text dcap = Some input).
Proof.
  intros Hb. unfold portico_b64url_encode. split_if; [done |]. intros [= <-]. zbool. rewrite length_b64url_body. split_and!; [done | lia |].
  intros dcap Hd. unfold portico_b64url_decode. rewrite length_b64url_body. pose proof (zlen_nonneg input).
  rewrite (proj2 (Z.eqb_neq _ 1)) by (unfold b64url_len; split_ifs; zbool; lia). apply b64url_dec_body; [done | lia].
Qed.

Fixpoint be_value (l : list Z) (acc : Z) : Z := match l with [] => acc | b :: t => be_value t (acc * 256 + b) end.

Lemma be_bytes_spec n : ∀ v acc, 0 <= v < 256 ^ Z.of_nat n → bytes_ok acc →
  length (be_bytes n v acc) = (n + length acc)%nat ∧ bytes_ok (be_bytes n v acc) ∧ be_value (be_bytes n v acc) 0 = be_value acc v.
Proof.
  induction n as [ | n IH]; intros v acc Hv Ha; cbn [be_bytes].
  - cbn in Hv. assert (v = 0) as -> by lia. done.
  - rewrite Nat2Z.inj_succ, Z.pow_succ_r in Hv by lia.
    destruct (IH (v / 256) (v mod 256 :: acc)) as (H1 & H2 & H3).
    + split; [apply Z.div_pos; lia | apply Z.div_lt_upper_bound; lia].
    + apply List.Forall_cons; [unfold byte_ok; apply Z.mod_pos_bound; lia | done].
    + split_and!; [rewrite H1; cbn; lia | done |]. rewrite H3. cbn [be_value]. f_equal. pose proof (Z.div_mod v 256). lia.
Qed.

Lemma bn2binpad_Some v l : bn2binpad v = Some l → zlen l = 32 ∧ bytes_ok l ∧ be_value l 0 = v.
Proof.
  unfold bn2binpad. destruct (_ && _) eqn:E; [ | done]. intros Hl. apply Some_inj in Hl. subst l. zbool.
  destruct (be_bytes_spec 32 v []) as (H1 & H2 & H3); [split; [done |]; change (256 ^ Z.of_nat 32) with (2 ^ 256); done | apply List.Forall_nil |].
  split_and!; [unfold zlen; rewrite H1; done | done | done].
Qed.

Lemma raw_signature_Some r s raw : raw_signature (Some (r, s)) = Some raw →
  zlen raw = 64 ∧ bytes_ok raw ∧ be_value (ztake 32 raw) 0 = r ∧ be_value (zdrop 32 raw) 0 = s.
Proof.
  unfold raw_signature. destruct (bn2binpad r) as [a | ] eqn:Ea; [ | done]. destruct (bn2binpad s) as [b | ] eqn:Eb; [ | done]. intros [= <-].
  apply bn2binpad_Some in Ea as (A1 & A2 & A3). apply bn2binpad_Some in Eb as (B1 & B2 & B3).
  split_and!; [rewrite zlen_app; lia | by apply bytes_ok_app | | ].
  - rewrite <- A1. by rewrite ztake_app_exact.
  - rewrite <- A1. by rewrite zdrop_app_exact.
Qed.

(** C39. A JWS: when one is produced it fits the buffer, and its three parts decode to
    the protected header (which names the nonce, the URL and the account or the key), the
    payload, and the 64 bytes R and S of the signature made of the first two parts joined
    by a dot. *)
Theorem jws_roundtrip {W} (sign : W → list Z → option (Z * Z) * W) w octets kid nonce url payload cap out w' :
  bytes_ok payload → (∀ prot, protected_header octets kid nonce url = Some prot → bytes_ok prot) →
  portico_acme_jws sign w octets kid nonce url payload cap = (Some out, w') →
  zlen out < cap ∧
  ∃ p pay sig prot r s raw,
    out = jws_text p pay sig ∧
    protected_header octets kid nonce url = Some prot ∧
    portico_b64url_decode p 2048 = Some prot ∧ portico_b64url_decode pay 8192 = Some payload ∧
    sign w (signing_input p pay) = (Some (r, s), w') ∧
    portico_b64url_decode sig 64 = Some raw ∧ zlen raw = 64 ∧ be_value (ztake 32 raw) 0 = r ∧ be_value (zdrop 32 raw) 0 = s.
Proof.
  intros Hpay Hprot. unfold portico_acme_jws, jws_prepare. destruct (protected_header octets kid nonce url) as [prot | ] eqn:E1; [ | done].
  destruct (portico_b64url_encode prot 2048) as [p | ] eqn:E2; [ | done]. destruct (portico_b64url_encode payload 8192) as [pay | ] eqn:E3; [ | done].
  destruct (fits 10752 (signing_input p pay)) as [input | ] eqn:E4; [ | done]. apply fits_Some in E4 as [-> _].
  destruct (sign w (signing_input p pay)) as [rs w1] eqn:E5. destruct rs as [[r s] | ]; [ | done].
  destruct (raw_signature (Some (r, s))) as [raw | ] eqn:E6; [ | done]. destruct (portico_b64url_encode raw 128) as [sig | ] eqn:E7; [ | done].
  intros [= E8 <-]. apply fits_Some in E8 as [-> Hc]. split; [lia |].
  apply raw_signature_Some in E6 as (R1 & R2 & R3 & R4).
  apply b64url_encode_Some in E2 as (P1 & P2 & P3); [ | by apply Hprot]. apply b64url_encode_Some in E3 as (Q1 & Q2 & Q3); [ | done].
  apply b64url_encode_Some in E7 as (S1 & S2 & S3); [ | done].
  assert (Hlen : ∀ n, 0 <= n → n <= b64url_len n) by (intros n Hn; unfold b64url_len; split_ifs; zbool; lia).
  pose proof (Hlen (zlen prot) (zlen_nonneg prot)). pose proof (Hlen (zlen payload) (zlen_nonneg payload)).
  exists p, pay, sig, prot, r, s, raw. split_and!; try done; [apply P3 | apply Q3 | apply S3]; lia.
Qed.

(** The account key of the witness: a point, a signer that counts. *)
Definition demo_octets : option (list Z) := Some (4 :: replicate 32 1 ++ replicate 32 2).
Definition demo_sign (w : Z) (input : list Z) : option (Z * Z) * Z := (Some (zlen input, w), w + 1).

Lemma jws_roundtrip_witness :
  zlen (default [] (portico_acme_jws demo_sign 5 demo_octets None (bs "nonce1") (bs "https://ca/new-acct") (bs "{}") 16384).1) < 16384.
Proof.
  refine (proj1 (jws_roundtrip demo_sign 5 demo_octets None (bs "nonce1") (bs "https://ca/new-acct") (bs "{}") 16384
    (default [] (portico_acme_jws demo_sign 5 demo_octets None (bs "nonce1") (bs "https://ca/new-acct") (bs "{}") 16384).1) 6 _ _ _)).
  - solve_bytes.
  - intros prot H. assert (Hp : protected_header demo_octets None (bs "nonce1") (bs "https://ca/new-acct") = Some prot) by exact H. vm_compute in Hp.
    injection Hp as <-. solve_bytes.
  - by vm_compute.
Defined.

(** The certificate request names every domain: the text has [DNS:] and each of them in
    turn, and is refused rather than cut when it is too long. *)
Lemma san_loop_text domains : ∀ first acc san,
  zlen acc < 4096 → san_loop domains first acc = Some san →
  zlen san < 4096 ∧
  san = acc ++ concat (imap (λ i d, (if first && (i =? 0)%nat then [] else bs ",") ++ bs "DNS:" ++ d) domains).
Proof.
  induction domains as [ | d t IH]; intros first acc san Hacc; cbn [san_loop].
  - intros [= <-]. by rewrite app_nil_r.
  - cbn zeta. destruct (Z.leb_spec (4096 - zlen acc) (zlen ((if first then [] else bs ",") ++ bs "DNS:" ++ d))); [done |].
    intros HS. apply IH in HS as [Hl ->]; [ | rewrite zlen_app; lia]. split; [done |]. rewrite <- app_assoc. f_equal. rewrite imap_cons. cbn [concat]. rewrite andb_true_r. f_equal.
    f_equal. apply imap_ext. intros i x Hx. cbn. by rewrite andb_false_r.
Qed.
