(* ===== verification/AcmeClient.v ===== *)
(** * The ACME client (src/src/acme/acme_client.c)

    The RFC 8555 flow over the HTTPS exchange of [AcmeHttp] and the JWS of [AcmeJws]: the
    document parsers, the nonce discipline and its one retry, account, order,
    authorizations, polling, finalization and download, and [portico_acme_obtain] with its
    cleanup on every path.

    The outside world is a state of an arbitrary type [W]: the network (the CA is whatever
    it answers), the signer, the key store and the two provisioning callbacks act on it.
    The parser [cJSON_Parse] is an argument; the tree is that of [Config].  The flow is a
    computation that may fail and keeps its state when it does ([goto cleanup]).  The trace
    records what the theorems are about: the nonces received and used, what is provisioned,
    the order and the statuses seen. *)
From Stdlib Require Import ZArith Lia.
From stdpp Require Import base numbers list strings.
From S2P Require Import Prelude Cstr Crypto HttpResponse Config AcmeHttp AcmeResponder AcmeJws.
Open Scope Z_scope.

(** ** Document parsers *)

(** [cJSON_ArrayForEach]: the children of an array or an object. *)
Definition children (j : option json) : list json :=
  match j with Some (JArr l) => l | Some (JObj l) => l.*2 | _ => [] end.
Definition string_value (j : json) : option (list Z) := match j with JStr s => Some s | _ => None end.

Definition acme_parse_directory (j : option json) (cap : Z) : option (list Z * list Z * list Z) :=
  match j with
  | None => None
  | Some j =>
      match jstr j (bs "newNonce"), jstr j (bs "newAccount"), jstr j (bs "newOrder") with
      | Some a, Some b, Some c => Some (copy_to cap a, copy_to cap b, copy_to cap c)
      | _, _, _ => None
      end
  end.

(** The authorization URLs: the strings among the children, at most [max] of them. *)
Fixpoint authz_loop (l : list json) (max : nat) (acc : list (list Z)) : list (list Z) :=
  match l with
  | [] => acc
  | a :: t =>
      match string_value a with
      | Some u => authz_loop t max (if (length acc <? max)%nat then acc ++ [copy_to 512 u] else acc)
      | None => authz_loop t max acc
      end
  end.

(** Status, finalize URL, certificate URL and authorizations. *)
Definition acme_parse_order (j : option json) (sc fc cc : Z) (max : nat) : option (list Z * list Z * list Z * list (list Z)) :=
  match j with
  | None => None
  | Some j =>
      let fin := match jstr j (bs "finalize") with Some f => copy_to fc f | None => [] end in
      let cert := match jstr j (bs "certificate") with Some c => copy_to cc c | None => [] end in
      let auths := authz_loop (children (jget j (bs "authorizations"))) max [] in
      match jstr j (bs "status") with
      | Some st => Some (copy_to sc st, fin, cert, auths)
      | None => None
      end
  end.

(** The first challenge of type http-01: its token and URL. *)
Fixpoint http01_challenge (l : list json) : option (list Z) * option (list Z) :=
  match l with
  | [] => (None, None)
  | c :: t =>
      if bool_decide (jstr c (bs "type") = Some (bs "http-01")) then (jstr c (bs "token"), jstr c (bs "url")) else http01_challenge t
  end.

Definition acme_parse_authz (j : option json) (sc tc uc : Z) : option (list Z * list Z * list Z) :=
  match j with
  | None => None
  | Some j =>
      match jstr j (bs "status"), http01_challenge (children (jget j (bs "challenges"))) with
      | Some st, (Some tok, Some url) => Some (copy_to sc st, copy_to tc tok, copy_to uc url)
      | _, _ => None
      end
  end.

Definition json_status (j : option json) (cap : Z) : option (list Z) :=
  match j with None => None | Some j => copy_to cap <$> jstr j (bs "status") end.

(** ** The outside *)

Record platform (W K : Type) := mk_platform {
  net : transport W;
  cjson : list Z → option json;                                     (* cJSON_Parse *)
  load_key : W → list Z → option K * W;                             (* portico_acme_key_load_or_create *)
  octets : K → option (list Z);                                     (* the public point *)
  sha256 : list Z → list Z;
  ecdsa : W → K → list Z → option (Z * Z) * W;                      (* EVP_DigestSign, taken apart *)
  csr_der : W → K → list Z → list Z → option (list Z) * W;          (* X509_REQ *)
  mem_session : bool;
  provision : option (W → list Z → list Z → W);                     (* the callbacks, perhaps NULL *)
  unprovision : option (W → list Z → W)
}.
Arguments net {W K}. Arguments cjson {W K}. Arguments load_key {W K}. Arguments octets {W K}. Arguments sha256 {W K}.
Arguments ecdsa {W K}. Arguments csr_der {W K}. Arguments mem_session {W K}. Arguments provision {W K}. Arguments unprovision {W K}.

(** ** Sessions, traces, computations *)

Record session := mk_ses {
  s_dir_url : list Z; s_new_nonce : list Z; s_new_account : list Z; s_new_order : list Z;
  s_nonce : list Z; s_kid : list Z }.

Inductive event :=
| EvNonce (n : list Z)                                              (* a nonce received *)
| EvSigned (nonce url payload : list Z) (kid : option (list Z))     (* a signed POST sent *)
| EvOrder (order_url finalize : list Z) (authz : list (list Z))     (* an order placed *)
| EvPolled (url status : list Z)
| EvProvision (token keyauth : list Z)
| EvUnprovision (token : list Z).

Record st (W : Type) := mk_st { ses : session; wrld : W; tokens : list (list Z); trace : list event }.
Arguments mk_st {W}. Arguments ses {W}. Arguments wrld {W}. Arguments tokens {W}. Arguments trace {W}.

(** A computation: a result, or failure (-1); the state is kept either way. *)
Definition acmeM (W A : Type) : Type := st W → option A * st W.
#[global] Instance acme_ret W : MRet (acmeM W) := λ A a σ, (Some a, σ).
#[global] Instance acme_bind W : MBind (acmeM W) := λ A B k m σ,
  match m σ with (Some a, σ') => k a σ' | (None, σ') => (None, σ') end.

Section Client.
Context {W K : Type} (P : platform W K).
Abbreviation M := (acmeM W).

Definition fail {A} : M A := λ σ, (None, σ).
Definition guard (b : bool) : M () := if b then mret () else fail.
Definition of_option {A} (o : option A) : M A := match o with Some a => mret a | None => fail end.
Definition get_ses : M session := λ σ, (Some (ses σ), σ).
Definition put_ses (s : session) : M () := λ σ, (Some (), mk_st s (wrld σ) (tokens σ) (trace σ)).
Definition emit (e : event) : M () := λ σ, (Some (), mk_st (ses σ) (wrld σ) (tokens σ) (trace σ ++ [e])).
Definition push_token (t : list Z) : M () := λ σ, (Some (), mk_st (ses σ) (wrld σ) (tokens σ ++ [t]) (trace σ)).
(** An action on the world that may fail. *)
Definition on_world {A} (f : W → option A * W) : M A :=
  λ σ, let '(r, w) := f (wrld σ) in (r, mk_st (ses σ) w (tokens σ) (trace σ)).
Definition set_nonce (n : list Z) : M () :=
  s ← get_ses; put_ses (mk_ses (s_dir_url s) (s_new_nonce s) (s_new_account s) (s_new_order s) n (s_kid s)).
Definition set_kid (k : list Z) : M () :=
  s ← get_ses; put_ses (mk_ses (s_dir_url s) (s_new_nonce s) (s_new_account s) (s_new_order s) (s_nonce s) k).

Definition https (method url headers : list Z) (body : option (list Z)) : M http_resp :=
  on_world (λ w, portico_https_request (net P) w method url headers body).

(** A nonce from a response becomes the session's. *)
Definition take_nonce (n : list Z) : M () := _ ← emit (EvNonce (copy_to 256 n)); set_nonce (copy_to 256 n).

(** ** Requests *)

Definition get_nonce : M () :=
  s ← get_ses;
  _ ← guard (negb (bool_decide (s_new_nonce s = [])));
  r ← https (bs "HEAD") (s_new_nonce s) [] None;
  _ ← guard (negb (bool_decide (r_nonce r = [])));
  take_nonce (r_nonce r).

(** [strstr (body, "badNonce")]. *)
Fixpoint has_sub (s pat : list Z) : bool :=
  bool_decide (take (length pat) s = pat) || match s with [] => false | _ :: t => has_sub t pat end.
Definition bad_nonce (r : http_resp) : bool :=
  (r_status r =? 400) && match r_body r with Some b => has_sub (c_string b) (bs "badNonce") | None => false end.

(** One turn of [acme_post]'s loop. *)
Definition post_once (akey : K) (url payload : list Z) : M http_resp :=
  s ← get_ses;
  _ ← (if bool_decide (s_nonce s = []) then get_nonce else mret ());
  s ← get_ses;
  let kid := if bool_decide (s_kid s = []) then None else Some (s_kid s) in
  jws ← on_world (λ w, portico_acme_jws (λ w, ecdsa P w akey) w (octets P akey) kid (s_nonce s) url payload 16384);
  _ ← set_nonce [];
  _ ← emit (EvSigned (s_nonce s) url payload kid);
  r ← https (bs "POST") url (bs "Content-Type: application/jose+json" ++ CRLF) (Some jws);
  _ ← (if bool_decide (r_nonce r = []) then mret () else take_nonce (r_nonce r));
  mret r.

Definition acme_post (akey : K) (url payload : list Z) : M http_resp :=
  r ← post_once akey url payload;
  if bad_nonce r then post_once akey url payload else mret r.

(** ** The steps *)

(** [r.status == code && r.body]: the document, parsed. *)
Definition document (r : http_resp) : option json := match r_body r with Some b => cjson P (c_string b) | None => None end.

Definition account_payload (email : option (list Z)) : list Z :=
  copy_to 512
    (match email with
     | Some (c :: e) => bs "{" ++ memb "termsOfServiceAgreed" (bs "true") ++ bs "," ++
                        memb "contact" (bs "[" ++ quoted (bs "mailto:" ++ c :: e) ++ bs "]") ++ bs "}"
     | _ => bs "{" ++ memb "termsOfServiceAgreed" (bs "true") ++ bs "}"
     end).

Definition portico_acme_connect (akey : K) (email : option (list Z)) : M () :=
  s ← get_ses;
  r ← https (bs "GET") (s_dir_url s) [] None;
  d ← (if r_status r =? 200 then of_option (acme_parse_directory (document r) 1024) else fail);
  let '(nn, na, no) := d in
  s ← get_ses;
  _ ← put_ses (mk_ses (s_dir_url s) nn na no (s_nonce s) (s_kid s));
  r ← acme_post akey na (account_payload email);
  _ ← guard (((r_status r =? 200) || (r_status r =? 201)) && negb (bool_decide (r_location r = [])));
  set_kid (copy_to 2048 (r_location r)).

(** The order's payload; [None] when it does not fit its 4096 bytes. *)
Fixpoint ids_loop (domains : list (list Z)) (first : bool) (acc : list Z) : option (list Z) :=
  match domains with
  | [] => if 4096 - zlen acc <=? 2 then None else Some (acc ++ bs "]}")
  | d :: t =>
      let w := (if first then [] else bs ",") ++
               bs "{" ++ memb "type" (quoted (bs "dns")) ++ bs "," ++ memb "value" (quoted d) ++ bs "}" in
      if 4096 - zlen acc <=? zlen w then None else ids_loop t false (acc ++ w)
  end.
Definition order_payload (domains : list (list Z)) : option (list Z) := ids_loop domains true (bs "{" ++ memb "identifiers" (bs "[")).

(** The order and finalize URLs and the authorizations. *)
Definition portico_acme_order (akey : K) (domains : list (list Z)) (max : nat) : M (list Z * list Z * list (list Z)) :=
  _ ← guard (negb (bool_decide (domains = [])));
  ids ← of_option (order_payload domains);
  s ← get_ses;
  r ← acme_post akey (s_new_order s) ids;
  d ← (if r_status r =? 201 then of_option (acme_parse_order (document r) 32 2048 1024 max) else fail);
  let '(_, fin, _, auths) := d in
  let ou := copy_to 2048 (r_location r) in
  _ ← emit (EvOrder ou fin auths);
  mret (ou, fin, auths).

Definition portico_acme_http01 (akey : K) (authz_url : list Z) : M (list Z * list Z * list Z) :=
  r ← acme_post akey authz_url [];
  if r_status r =? 200 then of_option (acme_parse_authz (document r) 32 256 2048) else fail.

Definition challenge_ready (akey : K) (chal_url : list Z) : M () :=
  r ← acme_post akey chal_url (bs "{}");
  guard ((r_status r =? 200) || (r_status r =? 202)).

Definition terminal (st : list Z) : bool :=
  bool_decide (st = bs "invalid") || bool_decide (st = bs "deactivated") || bool_decide (st = bs "revoked") || bool_decide (st = bs "expired").

(** [poll_status]: [waited] grows by 2 a turn, so [(max_secs + 1) / 2 + 1] turns are enough. *)
Fixpoint poll_loop (fuel : nat) (akey : K) (url want : list Z) (max_secs waited : Z) : M (option (list Z)) :=
  match fuel with
  | O => fail
  | S f =>
      r ← acme_post akey url [];
      let st := if r_status r =? 200 then default [] (json_status (document r) 32) else [] in
      _ ← emit (EvPolled url st);
      if bool_decide (st = want) then mret (r_body r)
      else if terminal st then fail
      else if max_secs <=? waited then fail
      else poll_loop f akey url want max_secs (waited + 2)
  end.
Definition poll_status (akey : K) (url want : list Z) (max_secs : Z) : M (option (list Z)) :=
  poll_loop (Z.to_nat ((max_secs + 1) / 2 + 1)) akey url want max_secs 0.

Definition do_finalize (akey : K) (finalize_url csr_b64 : list Z) : M () :=
  payload ← of_option (fits 8192 (bs "{" ++ memb "csr" (quoted csr_b64) ++ bs "}"));
  r ← acme_post akey finalize_url payload;
  guard (r_status r =? 200).

Definition download_cert (akey : K) (cert_url : list Z) : M (list Z) :=
  r ← acme_post akey cert_url [];
  match r_body r with
  | Some (c :: b) => if r_status r =? 200 then mret (c :: b) else fail
  | _ => fail
  end.

(** [portico_acme_key_authz]. *)
Definition portico_acme_key_authz (akey : K) (token : list Z) (cap : Z) : option (list Z) :=
  match portico_acme_thumbprint (sha256 P) (octets P akey) 128 with
  | None => None
  | Some tp => fits cap (token ++ bs "." ++ tp)
  end.

(** ** The issuance *)

Definition call_provision (token keyauth : list Z) : M () :=
  match provision P with
  | None => mret ()
  | Some f => _ ← emit (EvProvision token keyauth); on_world (λ w, (Some (), f w token keyauth))
  end.
Definition call_unprovision (token : list Z) : M () :=
  match unprovision P with
  | None => mret ()
  | Some f => _ ← emit (EvUnprovision token); on_world (λ w, (Some (), f w token))
  end.

(** The first loop: provision and trigger every authorization that is not valid yet. *)
Fixpoint trigger_loop (akey : K) (authz : list (list Z)) : M () :=
  match authz with
  | [] => mret ()
  | a :: rest =>
      d ← portico_acme_http01 akey a;
      let '(status, token, chal) := d in
      if bool_decide (status = bs "valid") then trigger_loop akey rest
      else
        keyauth ← of_option (portico_acme_key_authz akey token 512);
        _ ← call_provision token keyauth;
        _ ← push_token (copy_to 256 token);
        _ ← challenge_ready akey chal;
        trigger_loop akey rest
  end.

(** The second: wait for each to be valid. *)
Fixpoint wait_loop (akey : K) (authz : list (list Z)) : M () :=
  match authz with
  | [] => mret ()
  | a :: rest => _ ← poll_status akey a (bs "valid") 120; wait_loop akey rest
  end.

Definition ACME_MAX_DOMAINS : nat := 64.

(** From the CSR to the chain. *)
Definition issue (akey : K) (domains : list (list Z)) (cert_key_path order_url fin : list Z) : M (list Z) :=
  csr ← on_world (λ w, portico_acme_make_csr (load_key P) (csr_der P) w cert_key_path domains 8192);
  _ ← do_finalize akey fin csr;
  body ← poll_status akey order_url (bs "valid") 120;
  d ← of_option (acme_parse_order (match body with Some b => cjson P (c_string b) | None => None end) 32 2048 2048 ACME_MAX_DOMAINS);
  let '(_, _, cert_url, _) := d in
  _ ← guard (negb (bool_decide (cert_url = [])));
  download_cert akey cert_url.

(** The body of [portico_acme_obtain] between the session and [cleanup]. *)
Definition obtain_body (akey : K) (email : option (list Z)) (domains : list (list Z)) (cert_key_path : list Z) : M (list Z) :=
  _ ← portico_acme_connect akey email;
  o ← portico_acme_order akey domains ACME_MAX_DOMAINS;
  let '(order_url, fin, authz) := o in
  _ ← trigger_loop akey authz;
  _ ← wait_loop akey authz;
  issue akey domains cert_key_path order_url fin.

Fixpoint cleanup_loop (toks : list (list Z)) : M () :=
  match toks with
  | [] => mret ()
  | t :: rest => _ ← call_unprovision t; cleanup_loop rest
  end.

(** [goto cleanup]: whatever [m] does, every token pushed is taken down. *)
Definition with_cleanup {A} (m : M A) : M A :=
  λ σ, let '(r, σ) := m σ in (r, (cleanup_loop (tokens σ) σ).2).

Record acme_config := mk_aconf { directory_url : option (list Z); account_key_path : option (list Z); email : option (list Z) }.

Definition new_session (dir : list Z) : session := mk_ses (copy_to 1024 dir) [] [] [] [] [].

(** [portico_acme_obtain]: the chain or failure, from a world; with the trace. *)
Definition portico_acme_obtain (cfg : acme_config) (domains : list (list Z)) (cert_key_path : list Z) (w : W) : option (list Z) * W * list event :=
  match directory_url cfg, account_key_path cfg with
  | Some dir, Some kp =>
      if bool_decide (domains = []) || (ACME_MAX_DOMAINS <? length domains)%nat then (None, w, [])
      else
        match load_key P w kp with
        | (None, w) => (None, w, [])
        | (Some akey, w) =>
            if negb (mem_session P) then (None, w, [])
            else
              let '(r, σ) := with_cleanup (obtain_body akey (email cfg) domains cert_key_path) (mk_st (new_session dir) w [] []) in
              (r, wrld σ, trace σ)
        end
  | _, _ => (None, w, [])
  end.

(** ** Reasoning about computations *)

(** What [m] does to an assertion on states, whether it succeeds or fails. *)
Definition keeps {A} (I : st W → Prop) (m : M A) : Prop := ∀ σ, I σ → I (m σ).2.

Lemma keeps_bind {A B} I (m : M A) (k : A → M B) : keeps I m → (∀ a, keeps I (k a)) → keeps I (m ≫= k).
Proof.
  intros Hm Hk σ HI. unfold mbind, acme_bind. specialize (Hm σ HI). destruct (m σ) as [[a | ] σ']; [by apply Hk | done].
Qed.
Lemma keeps_ret {A} I (a : A) : keeps I (mret a : M A).
Proof. intros σ HI. exact HI. Qed.
Lemma keeps_fail {A} I : keeps I (fail : M A).
Proof. intros σ HI. exact HI. Qed.
Lemma keeps_guard I b : keeps I (guard b).
Proof. intros σ HI. by destruct b. Qed.
Lemma keeps_of_option {A} I (o : option A) : keeps I (of_option o).
Proof. intros σ HI. by destruct o. Qed.
Lemma keeps_get I : keeps I get_ses.
Proof. intros σ HI. exact HI. Qed.
Lemma keeps_if {A} I (b : bool) (m1 m2 : M A) : keeps I m1 → keeps I m2 → keeps I (if b then m1 else m2).
Proof. by destruct b. Qed.

(** A computation that adds at most [n] signed requests and no provisioning event to the
    trace, and leaves the tokens alone. *)
Definition quiet (e : event) : Prop := match e with EvProvision _ _ | EvUnprovision _ => False | _ => True end.
Definition used_nonces (T : list event) : list (list Z) := omap (λ e, match e with EvSigned n _ _ _ => Some n | _ => None end) T.
Definition received_nonces (T : list event) : list (list Z) := omap (λ e, match e with EvNonce n => Some n | _ => None end) T.
Definition signed (T : list event) : nat := length (used_nonces T).

Definition runs {A} (n : nat) (m : M A) : Prop :=
  ∀ σ, tokens (m σ).2 = tokens σ ∧ ∃ T, trace (m σ).2 = trace σ ++ T ∧ Forall quiet T ∧ (signed T <= n)%nat.

Lemma signed_app T U : signed (T ++ U) = (signed T + signed U)%nat.
Proof. unfold signed, used_nonces. by rewrite omap_app, length_app. Qed.

Lemma runs_silent {A} (m : M A) : (∀ σ, tokens (m σ).2 = tokens σ ∧ trace (m σ).2 = trace σ) → runs 0 m.
Proof. intros H σ. destruct (H σ) as [-> ->]. split; [done |]. exists []. rewrite app_nil_r. split_and!; [done | constructor | done]. Qed.

Lemma runs_bind {A B} n k (m : M A) (f : A → M B) : runs n m → (∀ a, runs k (f a)) → runs (n + k) (m ≫= f).
Proof.
  intros Hm Hf σ. unfold mbind, acme_bind. destruct (Hm σ) as (Ht & T & HT & Hq & Hn). destruct (m σ) as [[a | ] σ']; cbn [snd] in *.
  - destruct (Hf a σ') as (Ht' & U & HU & Hq' & Hk). split; [congruence |]. exists (T ++ U). rewrite HU, HT, app_assoc, signed_app. split_and!; [done | by apply Forall_app | lia].
  - split; [done |]. exists T. split_and!; [done | done | lia].
Qed.

Lemma runs_weaken {A} n k (m : M A) : (n <= k)%nat → runs n m → runs k m.
Proof. intros Hle Hm σ. destruct (Hm σ) as (Ht & T & HT & Hq & Hn). split; [done |]. exists T. split_and!; [done | done | lia]. Qed.

Lemma runs_ret {A} (a : A) : runs 0 (mret a : M A).
Proof. by apply runs_silent. Qed.
Lemma runs_fail {A} : runs 0 (fail : M A).
Proof. by apply runs_silent. Qed.
Lemma runs_guard b : runs 0 (guard b).
Proof. apply runs_silent. by destruct b. Qed.
Lemma runs_of_option {A} (o : option A) : runs 0 (of_option o).
Proof. apply runs_silent. by destruct o. Qed.
Lemma runs_get : runs 0 get_ses.
Proof. by apply runs_silent. Qed.
Lemma runs_put s : runs 0 (put_ses s).
Proof. by apply runs_silent. Qed.
Lemma runs_on_world {A} (f : W → option A * W) : runs 0 (on_world f).
Proof. apply runs_silent. intros σ. unfold on_world. by destruct (f (wrld σ)). Qed.
Lemma runs_emit e : quiet e → signed [e] = 0%nat → runs 0 (emit e).
Proof. intros Hq Hs σ. split; [done |]. exists [e]. split_and!; [done | by repeat constructor | lia]. Qed.
Lemma runs_emit_signed n u p k : runs 1 (emit (EvSigned n u p k)).
Proof. intros σ. split; [done |]. exists [EvSigned n u p k]. split_and!; [done | by repeat constructor | done]. Qed.
Lemma runs_if {A} n (b : bool) (m1 m2 : M A) : runs n m1 → runs n m2 → runs n (if b then m1 else m2).
Proof. by destruct b. Qed.

Lemma runs_set_nonce n : runs 0 (set_nonce n).
Proof. apply (runs_bind 0 0); [apply runs_get | intros s; apply runs_put]. Qed.
Lemma runs_set_kid n : runs 0 (set_kid n).
Proof. apply (runs_bind 0 0); [apply runs_get | intros s; apply runs_put]. Qed.
Lemma runs_take_nonce n : runs 0 (take_nonce n).
Proof. apply (runs_bind 0 0); [by apply runs_emit | intros s; apply runs_set_nonce]. Qed.
Lemma runs_https m u h b : runs 0 (https m u h b).
Proof. apply runs_on_world. Qed.

(** Split a computation into its steps; a step that is not an [acme_post] costs nothing. *)
Ltac runs0 :=
  repeat first
    [ apply runs_ret | apply runs_fail | apply runs_guard | apply runs_of_option | apply runs_get | apply runs_put
    | apply runs_on_world | apply runs_set_nonce | apply runs_set_kid | apply runs_take_nonce | apply runs_https
    | (apply runs_emit; [exact I | reflexivity])
    | apply runs_if
    | (apply (runs_bind 0 0); [ | intros ?]) ].

Lemma runs_get_nonce : runs 0 get_nonce.
Proof. unfold get_nonce. runs0. Qed.

Lemma runs_post_once akey url payload : runs 1 (post_once akey url payload).
Proof.
  unfold post_once. apply (runs_bind 0 1); [apply runs_get | intros s]. apply (runs_bind 0 1); [apply runs_if; [apply runs_get_nonce | apply runs_ret] | intros _].
  apply (runs_bind 0 1); [apply runs_get | intros s']. apply (runs_bind 0 1); [apply runs_on_world | intros jws].
  apply (runs_bind 0 1); [apply runs_set_nonce | intros _]. apply (runs_bind 1 0); [apply runs_emit_signed | intros _]. runs0.
Qed.

Lemma runs_post akey url payload : runs 2 (acme_post akey url payload).
Proof. apply (runs_bind 1 1); [apply runs_post_once | intros r]. apply runs_if; [apply runs_post_once | eapply runs_weaken; [ | apply runs_ret]; lia]. Qed.

Lemma runs_post_then {A} n akey url payload (k : http_resp → M A) : (∀ r, runs n (k r)) → runs (2 + n) (acme_post akey url payload ≫= k).
Proof. intros Hk. apply runs_bind; [apply runs_post | done]. Qed.

Lemma runs_free_then {A B} n (m : M A) (k : A → M B) : runs 0 m → (∀ a, runs n (k a)) → runs n (m ≫= k).
Proof. apply (runs_bind 0 n). Qed.

(** The steps and what each costs. *)
Lemma runs_connect akey email : runs 2 (portico_acme_connect akey email).
Proof.
  unfold portico_acme_connect. apply runs_free_then; [runs0 | intros s]. apply runs_free_then; [runs0 | intros r]. apply runs_free_then; [runs0 | intros [[nn na] no]].
  apply runs_free_then; [runs0 | intros s']. apply runs_free_then; [runs0 | intros _]. apply (runs_post_then 0). intros r'. runs0.
Qed.
Lemma runs_order akey domains max : runs 2 (portico_acme_order akey domains max).
Proof.
  unfold portico_acme_order. do 2 (apply runs_free_then; [runs0 | intros ?]). apply runs_free_then; [runs0 | intros s]. apply (runs_post_then 0). intros r.
  apply runs_free_then; [runs0 | intros [[[? ?] ?] ?]]. runs0.
Qed.
Lemma runs_http01 akey url : runs 2 (portico_acme_http01 akey url).
Proof. apply (runs_post_then 0). intros r. runs0. Qed.
Lemma runs_challenge akey url : runs 2 (challenge_ready akey url).
Proof. apply (runs_post_then 0). intros r. runs0. Qed.
Lemma runs_finalize akey url csr : runs 2 (do_finalize akey url csr).
Proof. apply runs_free_then; [runs0 | intros p]. apply (runs_post_then 0). intros r. runs0. Qed.
Lemma runs_download akey url : runs 2 (download_cert akey url).
Proof. apply (runs_post_then 0). intros r. destruct (r_body r) as [[ | c b] | ]; runs0. Qed.

Lemma runs_poll_loop akey url want mx f : ∀ waited, runs (2 * f) (poll_loop f akey url want mx waited).
Proof.
  induction f as [ | f IH]; intros waited; cbn [poll_loop]; [apply runs_fail |]. replace (2 * S f)%nat with (2 + 2 * f)%nat by lia.
  apply runs_post_then. intros r. cbn zeta. apply runs_free_then; [runs0 | intros _].
  repeat (apply runs_if; [apply (runs_weaken 0); [lia | first [apply runs_ret | apply runs_fail]] |]). apply IH.
Qed.

(** Polling ends by itself: more turns than [(max_secs + 1) / 2 + 1] change nothing. *)
Lemma poll_fuel akey url want mx f : ∀ g waited σ,
  0 <= waited → mx - waited <= 2 * (Z.of_nat f - 1) → (f <= g)%nat → (0 < f)%nat →
  poll_loop f akey url want mx waited σ = poll_loop g akey url want mx waited σ.
Proof.
  induction f as [ | f IH]; intros g waited σ Hw Hf Hg H0; [lia |]. destruct g as [ | g]; [lia |]. cbn [poll_loop]. unfold mbind, acme_bind.
  destruct (acme_post akey url [] σ) as [[r | ] σ1]; [ | done]. cbn zeta. destruct (emit _ σ1) as [[u | ] σ2]; [ | done].
  destruct (bool_decide _); [done |]. destruct (terminal _); [done |]. destruct (Z.leb_spec mx waited); [done |]. apply IH; lia.
Qed.

Lemma runs_poll akey url want : runs 122 (poll_status akey url want 120).
Proof. apply (runs_poll_loop akey url want 120 61). Qed.

Lemma runs_wait akey authz : runs (122 * length authz) (wait_loop akey authz).
Proof.
  induction authz as [ | a authz IH]; cbn [wait_loop]; [apply runs_ret |]. cbn [length]. replace (122 * S (length authz))%nat with (122 + 122 * length authz)%nat by lia.
  apply runs_bind; [apply runs_poll | intros _; apply IH].
Qed.

Lemma runs_issue akey domains kp ou fin : runs 126 (issue akey domains kp ou fin).
Proof.
  unfold issue. apply runs_free_then; [runs0 | intros csr]. apply (runs_bind 2 124); [apply runs_finalize | intros _].
  apply (runs_bind 122 2); [apply runs_poll | intros body]. apply runs_free_then; [runs0 | intros [[[? ?] cu] ?]].
  apply runs_free_then; [runs0 | intros _]. apply runs_download.
Qed.

(** ** Provisioning *)

Definition provisioned (T : list event) : list (list Z) := omap (λ e, match e with EvProvision t _ => Some t | _ => None end) T.
Definition unprovisioned (T : list event) : list (list Z) := omap (λ e, match e with EvUnprovision t => Some t | _ => None end) T.

Lemma quiet_provisioned T : Forall quiet T → provisioned T = [] ∧ unprovisioned T = [].
Proof. induction 1 as [ | e T He HF [IH1 IH2]]; [done |]. by destruct e. Qed.

(** [a] is a result [m] can give. *)
Definition result {A} (m : M A) (a : A) : Prop := ∃ σ, (m σ).1 = Some a.

(** At most [n] signed requests and [k] tokens, each pushed as it is provisioned. *)
Definition phase {A} (n k : nat) (m : M A) : Prop :=
  ∀ σ, ∃ T toks, trace (m σ).2 = trace σ ++ T ∧ tokens (m σ).2 = tokens σ ++ toks ∧ unprovisioned T = [] ∧
                 (is_Some (provision P) → provisioned T = toks) ∧ (signed T <= n)%nat ∧ (length toks <= k)%nat.

Lemma phase_runs {A} n (m : M A) : runs n m → phase n 0 m.
Proof.
  intros Hm σ. destruct (Hm σ) as (Ht & T & HT & Hq & Hn). apply quiet_provisioned in Hq as [H1 H2]. exists T, []. rewrite Ht, app_nil_r. split_and!; done || lia.
Qed.

Lemma phase_bind {A B} n1 n2 k1 k2 (m : M A) (f : A → M B) :
  phase n1 k1 m → (∀ a, result m a → phase n2 k2 (f a)) → phase (n1 + n2) (k1 + k2) (m ≫= f).
Proof.
  intros Hm Hf σ. unfold mbind, acme_bind. destruct (Hm σ) as (T & toks & H1 & H2 & H3 & H4 & H5 & H6).
  destruct (m σ) as [[a | ] σ'] eqn:E; cbn [snd] in *.
  - destruct (Hf a) with (σ := σ') as (U & toks' & G1 & G2 & G3 & G4 & G5 & G6); [exists σ; by rewrite E |].
    exists (T ++ U), (toks ++ toks'). rewrite G1, G2, H1, H2, !app_assoc, signed_app, length_app. split_and!; try done; [ | | lia | lia].
    + unfold unprovisioned in *. by rewrite omap_app, H3, G3.
    + intros HP. unfold provisioned in *. rewrite omap_app. by rewrite (H4 HP), (G4 HP).
  - exists T, toks. split_and!; try done; lia.
Qed.

Lemma phase_weaken {A} n n' k k' (m : M A) : (n <= n')%nat → (k <= k')%nat → phase n k m → phase n' k' m.
Proof. intros Hn Hk Hm σ. destruct (Hm σ) as (T & toks & H). exists T, toks. destruct H as (? & ? & ? & ? & ? & ?). split_and!; try done; lia. Qed.

Lemma phase_provision {A} n k t ka (m : M A) :
  copy_to 256 t = t → phase n k m → phase n (S k) (_ ← call_provision t ka; _ ← push_token (copy_to 256 t); m).
Proof.
  intros Ht Hm. rewrite Ht. intros σ. unfold call_provision, mbind, acme_bind. destruct (provision P) as [f | ] eqn:EP.
  - cbn. set (σ1 := mk_st _ _ _ _). destruct (Hm σ1) as (T & toks & H1 & H2 & H3 & H4 & H5 & H6). exists (EvProvision t ka :: T), (t :: toks).
    rewrite H1, H2. unfold σ1. cbn. rewrite <- !app_assoc. split_and!; try done; try lia. intros HP. cbn. f_equal. apply H4. by rewrite EP.
  - cbn. set (σ1 := mk_st _ _ _ _). destruct (Hm σ1) as (T & toks & H1 & H2 & H3 & H4 & H5 & H6). exists T, (t :: toks).
    rewrite H1, H2. unfold σ1. cbn. rewrite <- !app_assoc. split_and!; try done; try (intros [? ?]; done); cbn; lia.
Qed.

Lemma copy_to_idem cap s : copy_to cap (copy_to cap s) = copy_to cap s.
Proof. unfold copy_to, ztake. rewrite take_take. f_equal. lia. Qed.

Lemma http01_token akey a st tok ch : result (portico_acme_http01 akey a) (st, tok, ch) → copy_to 256 tok = tok.
Proof.
  intros [σ H]. unfold portico_acme_http01, mbind, acme_bind in H. destruct (acme_post akey a [] σ) as [[r | ] σ']; [ | done].
  destruct (r_status r =? 200); [ | done]. unfold acme_parse_authz in H. destruct (document r) as [j | ]; [ | done].
  destruct (jstr j _) as [s0 | ]; [ | done]. destruct (http01_challenge _) as [[t | ] [u | ]]; try done. cbn in H. injection H as _ <- _. apply copy_to_idem.
Qed.

Lemma phase_trigger akey authz : phase (4 * length authz) (length authz) (trigger_loop akey authz).
Proof.
  induction authz as [ | a authz IH]; cbn [trigger_loop length]; [apply phase_runs, runs_ret |].
  replace (4 * S (length authz))%nat with (2 + (2 + 4 * length authz))%nat by lia.
  apply (phase_bind _ _ 0 _); [apply phase_runs, runs_http01 |]. intros [[st tok] ch] Hr. apply http01_token in Hr.
  destruct (bool_decide _); [eapply phase_weaken; [ | | exact IH]; lia |].
  apply (phase_bind 0 _ 0 _); [apply phase_runs, runs_of_option |]. intros ka _. apply phase_provision; [done |].
  apply (phase_bind 2 _ 0 _); [apply phase_runs, runs_challenge |]. intros _ _. exact IH.
Qed.

Lemma authz_loop_le l max : ∀ acc, (length acc <= max)%nat → (length (authz_loop l max acc) <= max)%nat.
Proof.
  induction l as [ | a l IH]; intros acc Ha; cbn [authz_loop]; [done |]. destruct (string_value a); [ | by apply IH]. apply IH.
  destruct (Nat.ltb_spec (length acc) max); [rewrite length_app; cbn; lia | done].
Qed.

Lemma order_authz akey domains max ou fin authz : result (portico_acme_order akey domains max) (ou, fin, authz) → (length authz <= max)%nat.
Proof.
  intros [σ H]. unfold portico_acme_order, mbind, acme_bind in H. destruct (guard _ σ) as [[? | ] σ1]; [ | done].
  destruct (of_option _ σ1) as [[ids | ] σ2]; [ | done]. cbn [get_ses] in H. destruct (acme_post akey _ ids σ2) as [[r | ] σ3]; [ | done].
  destruct (r_status r =? 201); [ | done]. destruct (document r) as [j | ]; [ | done]. cbn [acme_parse_order] in H. destruct (jstr j (bs "status")); [ | done].
  cbn in H. injection H as _ _ <-. apply authz_loop_le. cbn. lia.
Qed.

(** The body of an issuance: at most 8194 signed requests and 64 tokens. *)
Definition max_signed : nat := 2 + (2 + (4 * 64 + (122 * 64 + 126))).

Lemma phase_obtain akey email domains kp : phase max_signed 64 (obtain_body akey email domains kp).
Proof.
  unfold obtain_body, max_signed. apply (phase_bind 2 _ 0 64); [apply phase_runs, runs_connect |]. intros _ _.
  apply (phase_bind 2 _ 0 64); [apply phase_runs, runs_order |]. intros [[ou fin] authz] Hr. apply order_authz in Hr. unfold ACME_MAX_DOMAINS in Hr.
  apply (phase_bind (4 * 64) _ 64 0); [eapply phase_weaken; [ | | apply phase_trigger]; lia |]. intros _ _.
  apply (phase_bind (122 * 64) 126 0 0); [apply phase_runs; eapply runs_weaken; [ | apply runs_wait]; lia |]. intros _ _. apply phase_runs, runs_issue.
Qed.

Lemma cleanup_trace f toks : unprovision P = Some f → ∀ σ, trace (cleanup_loop toks σ).2 = trace σ ++ (EvUnprovision <$> toks).
Proof.
  intros HU. induction toks as [ | t toks IH]; intros σ; cbn [cleanup_loop]; [cbn; by rewrite app_nil_r |].
  unfold call_unprovision. rewrite HU. unfold mbind, acme_bind. cbn -[cleanup_loop]. rewrite IH. cbn. by rewrite <- app_assoc.
Qed.

Lemma cleanup_quiet toks : unprovision P = None → ∀ σ, (cleanup_loop toks σ).2 = σ.
Proof.
  intros HU. induction toks as [ | t toks IH]; intros σ; cbn [cleanup_loop]; [done |].
  unfold call_unprovision. rewrite HU. unfold mbind, acme_bind. cbn -[cleanup_loop]. apply IH.
Qed.

Lemma unprov_facts toks : signed (EvUnprovision <$> toks) = 0%nat ∧ provisioned (EvUnprovision <$> toks) = [] ∧ unprovisioned (EvUnprovision <$> toks) = toks ∧
  used_nonces (EvUnprovision <$> toks) = [] ∧ received_nonces (EvUnprovision <$> toks) = [].
Proof.
  induction toks as [ | t toks (H1 & H2 & H3 & H4 & H5)]; [done |]. unfold signed, provisioned, unprovisioned, used_nonces, received_nonces in *. cbn.
  split_and!; try done. by f_equal.
Qed.

(** ** Nonces *)

(** The nonce the session still holds. *)
Definition pending (σ : st W) : list (list Z) := if bool_decide (s_nonce (ses σ) = []) then [] else [s_nonce (ses σ)].

(** The nonces used, then the one held, are among those received, in that order. *)
Definition nonces_ok (σ : st W) : Prop :=
  used_nonces (trace σ) ++ pending σ `sublist_of` received_nonces (trace σ) ∧ Forall (λ n, n ≠ []) (used_nonces (trace σ)).

(** Between taking the nonce off the session and sending it. *)
Definition nonce_taken (n : list Z) (σ : st W) : Prop :=
  s_nonce (ses σ) = [] ∧ n ≠ [] ∧ used_nonces (trace σ) ++ [n] `sublist_of` received_nonces (trace σ) ∧ Forall (λ n, n ≠ []) (used_nonces (trace σ)).

(** Nothing held: the next response may bring one. *)
Definition nonce_free (σ : st W) : Prop := s_nonce (ses σ) = [] ∧ nonces_ok σ.

(** From [I], to [Q] of the result or to [E] if it fails. *)
Definition hoare {A} (I : st W → Prop) (m : M A) (Q : A → st W → Prop) (E : st W → Prop) : Prop :=
  ∀ σ, I σ → match m σ with (Some a, σ') => Q a σ' | (None, σ') => E σ' end.

Lemma hoare_bind {A B} I (m : M A) (k : A → M B) R Q E :
  hoare I m R E → (∀ a, hoare (R a) (k a) Q E) → hoare I (m ≫= k) Q E.
Proof. intros Hm Hk σ HI. unfold mbind, acme_bind. specialize (Hm σ HI). destruct (m σ) as [[a | ] σ']; [by apply Hk | done]. Qed.

Lemma hoare_world {A} (I : st W → Prop) (f : W → option A * W) :
  (∀ σ w, I σ → I (mk_st (ses σ) w (tokens σ) (trace σ))) → hoare I (on_world f) (λ _, I) I.
Proof. intros HI σ Hσ. unfold on_world. destruct (f (wrld σ)) as [[a | ] w]; by apply HI. Qed.

Lemma hoare_guard I b (E : st W → Prop) : (∀ σ, I σ → E σ) → hoare I (guard b) (λ _ σ, I σ ∧ b = true) E.
Proof. intros HE σ Hσ. destruct b; cbn; auto. Qed.

Lemma copy_to_nonempty n s : 1 < n → s ≠ [] → copy_to n s ≠ [].
Proof. intros Hn Hs. destruct s; [done |]. unfold copy_to, ztake. destruct (Z.to_nat (n - 1)) eqn:E; [lia | done]. Qed.

Lemma hoare_take_nonce n : n ≠ [] → hoare nonce_free (take_nonce n) (λ _ σ, nonces_ok σ ∧ s_nonce (ses σ) ≠ []) nonces_ok.
Proof.
  intros Hn σ [H0 [Hs Hf]]. unfold take_nonce, set_nonce, mbind, acme_bind. cbn. unfold nonces_ok, pending in *. cbn.
  assert (Hc : copy_to 256 n ≠ []) by (apply copy_to_nonempty; [lia | done]). rewrite bool_decide_false by done.
  rewrite bool_decide_true in Hs by done. rewrite app_nil_r in Hs. unfold used_nonces, received_nonces in *. rewrite !omap_app. cbn. rewrite app_nil_r.
  split_and!; try done. by apply sublist_app.
Qed.

Lemma nonce_free_ok σ : nonce_free σ → nonces_ok σ.
Proof. by intros [_ ?]. Qed.

Lemma hoare_get_nonce : hoare nonce_free get_nonce (λ _ σ, nonces_ok σ ∧ s_nonce (ses σ) ≠ []) nonces_ok.
Proof.
  unfold get_nonce. apply (hoare_bind _ _ _ (λ _, nonce_free)); [by intros σ H | intros s].
  apply (hoare_bind _ _ _ (λ _, nonce_free)); [intros σ H; destruct (negb _); cbn; [done | by apply nonce_free_ok] | intros _].
  apply (hoare_bind _ _ _ (λ _, nonce_free)).
  - intros σ H. pose proof (hoare_world nonce_free (λ w, portico_https_request (net P) w (bs "HEAD") (s_new_nonce s) [] None) ltac:(by intros σ' w H') σ H) as Hh.
    unfold https. destruct (on_world _ σ) as [[r | ] σ']; [done | by apply nonce_free_ok].
  - intros r. apply (hoare_bind _ _ _ (λ _ σ, nonce_free σ ∧ r_nonce r ≠ [])).
    + intros σ H. destruct (bool_decide_reflect (r_nonce r = [])); cbn; [by apply nonce_free_ok | done].
    + intros _ σ [H Hn]. by apply (hoare_take_nonce (r_nonce r) Hn).
Qed.

(** Taking the nonce off the session and sending it. *)
Lemma nonce_sent (σ : st W) w u p k : nonces_ok σ → s_nonce (ses σ) ≠ [] →
  nonce_free (mk_st (mk_ses (s_dir_url (ses σ)) (s_new_nonce (ses σ)) (s_new_account (ses σ)) (s_new_order (ses σ)) [] (s_kid (ses σ))) w (tokens σ)
                (trace σ ++ [EvSigned (s_nonce (ses σ)) u p k])).
Proof.
  intros [Hs Hf] Hn. split; [done |]. unfold nonces_ok, pending in *. cbn. rewrite bool_decide_false in Hs by done.
  unfold used_nonces, received_nonces in *. rewrite !omap_app. cbn. rewrite !app_nil_r. split; [done |]. apply Forall_app. split; [done | by repeat constructor].
Qed.

Lemma post_once_nonces akey url payload : keeps nonces_ok (post_once akey url payload).
Proof.
  intros σ H. unfold post_once, mbind, acme_bind. cbn [get_ses].
  assert (H1 : match (if bool_decide (s_nonce (ses σ) = []) then get_nonce else mret ()) σ with
               | (Some _, σ') => nonces_ok σ' ∧ s_nonce (ses σ') ≠ [] | (None, σ') => nonces_ok σ' end).
  { case_bool_decide as Hn; [by apply hoare_get_nonce | done]. }
  destruct ((if bool_decide (s_nonce (ses σ) = []) then get_nonce else mret ()) σ) as [[u | ] σ1]; [ | done]. destruct H1 as [H1 Hn].
  unfold on_world. destruct (portico_acme_jws _ _ _ _ _ _ _ _) as [[jws | ] w]; [ | exact H1]. unfold set_nonce, mbind, acme_bind. cbn [get_ses put_ses emit ses wrld tokens trace].
  match goal with |- context [https _ _ _ _ ?s] => set (σ2 := s) end. assert (H2 : nonce_free σ2) by by apply (nonce_sent σ1).
  clearbody σ2. unfold https, on_world. destruct (portico_https_request _ _ _ _ _ _) as [[r | ] w']; [ | apply nonce_free_ok; exact H2].
  set (σ3 := mk_st (ses σ2) w' (tokens σ2) (trace σ2)). assert (H3 : nonce_free σ3) by exact H2. clearbody σ3.
  case_bool_decide as Hr; [by apply nonce_free_ok |]. pose proof (hoare_take_nonce (r_nonce r) Hr σ3 H3) as H4.
  destruct (take_nonce (r_nonce r) σ3) as [[v | ] σ4]; [apply H4 | exact H4].
Qed.

(** An assertion on the trace and the session's nonce only. *)
Lemma nonces_emit e : (∀ n u p k, e ≠ EvSigned n u p k) → (∀ n, e ≠ EvNonce n) → keeps nonces_ok (emit e).
Proof.
  intros H1 H2 σ H. unfold nonces_ok, pending, used_nonces, received_nonces in *. cbn. rewrite !omap_app. destruct e; cbn; rewrite ?app_nil_r; try done; try (by destruct (H2 n)).
  by destruct (H1 nonce url payload kid).
Qed.
Lemma nonces_world {A} (f : W → option A * W) : keeps nonces_ok (on_world f).
Proof. intros σ H. unfold on_world. destruct (f (wrld σ)). exact H. Qed.
Lemma nonces_push t : keeps nonces_ok (push_token t).
Proof. intros σ H. exact H. Qed.
Lemma nonces_post akey url payload : keeps nonces_ok (acme_post akey url payload).
Proof. apply keeps_bind; [apply post_once_nonces | intros r]. apply keeps_if; [apply post_once_nonces | apply keeps_ret]. Qed.

(** ** What the whole flow keeps *)

Lemma keeps_bind_result {A B} I (m : M A) (k : A → M B) : keeps I m → (∀ a, result m a → keeps I (k a)) → keeps I (m ≫= k).
Proof.
  intros Hm Hk σ HI. unfold mbind, acme_bind. specialize (Hm σ HI). destruct (m σ) as [[a | ] σ'] eqn:E; [ | done].
  apply Hk; [exists σ; by rewrite E | done].
Qed.

Lemma key_authz_fits akey token cap ka : portico_acme_key_authz akey token cap = Some ka → zlen ka < cap.
Proof. unfold portico_acme_key_authz. destruct (portico_acme_thumbprint _ _ _); [ | done]. intros H. apply fits_Some in H as [-> ?]. lia. Qed.

Section Flow.
Context (I : st W → Prop) (akey : K).
Hypothesis Hpost : ∀ url payload, keeps I (acme_post akey url payload).
Hypothesis Hget : ∀ url, keeps I (https (bs "GET") url [] None).
Hypothesis Hcsr : ∀ path domains, keeps I (on_world (λ w, portico_acme_make_csr (load_key P) (csr_der P) w path domains 8192)).
Hypothesis Hses : ∀ σ s, s_nonce s = s_nonce (ses σ) → I σ → I (mk_st s (wrld σ) (tokens σ) (trace σ)).
Hypothesis Hseen : ∀ e, match e with EvOrder _ _ _ | EvPolled _ _ => keeps I (emit e) | _ => True end.
Hypothesis Hprov : ∀ t k, copy_to 256 t = t → zlen k < 512 → keeps I (call_provision t k).
Hypothesis Hpush : ∀ t, keeps I (push_token t).

Lemma keeps_connect email : keeps I (portico_acme_connect akey email).
Proof.
  unfold portico_acme_connect. intros σ HI. unfold mbind, acme_bind. cbn [get_ses].
  pose proof (Hget (s_dir_url (ses σ)) σ HI) as H1. destruct (https _ _ _ _ σ) as [[r | ] σ1]; [ | exact H1]. cbn [snd] in H1.
  set (m := if r_status r =? 200 then of_option (acme_parse_directory (document r) 1024) else fail).
  assert (Hm : keeps I m) by (unfold m; apply keeps_if; [apply keeps_of_option | apply keeps_fail]). pose proof (Hm σ1 H1) as H2.
  destruct (m σ1) as [[[[nn na] no] | ] σ2]; [ | exact H2]. cbn [snd] in H2. cbn [put_ses].
  match goal with |- context [acme_post akey na _ ?s] => set (σ3 := s) end. assert (H3 : I σ3) by by apply Hses. clearbody σ3.
  pose proof (Hpost na (account_payload email) σ3 H3) as H4. destruct (acme_post akey na _ σ3) as [[r' | ] σ4]; [ | exact H4]. cbn [snd] in H4.
  destruct (_ && _); [ | exact H4]. cbn. by apply Hses.
Qed.

Lemma keeps_order domains max : keeps I (portico_acme_order akey domains max).
Proof.
  unfold portico_acme_order. apply keeps_bind; [apply keeps_guard | intros _]. apply keeps_bind; [apply keeps_of_option | intros ids].
  apply keeps_bind; [apply keeps_get | intros s]. apply keeps_bind; [apply Hpost | intros r].
  apply keeps_bind; [apply keeps_if; [apply keeps_of_option | apply keeps_fail] | intros [[[? fin] ?] auths]].
  apply keeps_bind; [apply (Hseen (EvOrder _ _ _)) | intros _; apply keeps_ret].
Qed.

Lemma keeps_poll_loop url want mx f : ∀ waited, keeps I (poll_loop f akey url want mx waited).
Proof.
  induction f as [ | f IH]; intros waited; cbn [poll_loop]; [apply keeps_fail |]. apply keeps_bind; [apply Hpost | intros r]. cbn zeta.
  apply keeps_bind; [apply (Hseen (EvPolled _ _)) | intros _]. repeat (apply keeps_if; [first [apply keeps_ret | apply keeps_fail] |]). apply IH.
Qed.

Lemma keeps_http01 a : keeps I (portico_acme_http01 akey a).
Proof. apply keeps_bind; [apply Hpost | intros r]. apply keeps_if; [apply keeps_of_option | apply keeps_fail]. Qed.

Lemma keeps_trigger authz : keeps I (trigger_loop akey authz).
Proof.
  induction authz as [ | a authz IH]; cbn [trigger_loop]; [apply keeps_ret |]. apply keeps_bind_result; [apply keeps_http01 |].
  intros [[st tok] ch] Hr. apply http01_token in Hr. apply keeps_if; [exact IH |].
  apply keeps_bind_result; [apply keeps_of_option | intros ka [σ Hka]].
  assert (Hk : zlen ka < 512) by (apply (key_authz_fits akey tok); by destruct (portico_acme_key_authz akey tok 512)).
  apply keeps_bind; [by apply Hprov | intros _]. apply keeps_bind; [apply Hpush | intros _].
  apply keeps_bind; [apply keeps_bind; [apply Hpost | intros r; apply keeps_guard] | intros _; exact IH].
Qed.

Lemma keeps_wait authz : keeps I (wait_loop akey authz).
Proof. induction authz as [ | a authz IH]; cbn [wait_loop]; [apply keeps_ret |]. apply keeps_bind; [apply keeps_poll_loop | intros _; exact IH]. Qed.

Lemma keeps_issue domains kp ou fin : keeps I (issue akey domains kp ou fin).
Proof.
  unfold issue. apply keeps_bind; [apply Hcsr | intros csr]. apply keeps_bind; [apply keeps_bind; [apply keeps_of_option | intros p; apply keeps_bind; [apply Hpost | intros r; apply keeps_guard]] | intros _].
  apply keeps_bind; [apply keeps_poll_loop | intros body]. apply keeps_bind; [apply keeps_of_option | intros [[[? ?] cu] ?]].
  apply keeps_bind; [apply keeps_guard | intros _]. apply keeps_bind; [apply Hpost | intros r]. destruct (r_body r) as [[ | c b] | ]; try apply keeps_fail.
  apply keeps_if; [apply keeps_ret | apply keeps_fail].
Qed.

Lemma keeps_obtain email domains kp : keeps I (obtain_body akey email domains kp).
Proof.
  unfold obtain_body. apply keeps_bind; [apply keeps_connect | intros _]. apply keeps_bind; [apply keeps_order | intros [[ou fin] authz]].
  apply keeps_bind; [apply keeps_trigger | intros _]. apply keeps_bind; [apply keeps_wait | intros _; apply keeps_issue].
Qed.
End Flow.

Lemma nonces_obtain akey email domains kp : keeps nonces_ok (obtain_body akey email domains kp).
Proof.
  apply keeps_obtain.
  - intros url payload. apply nonces_post.
  - intros url. apply nonces_world.
  - intros path ds. apply nonces_world.
  - intros σ s Hs H. unfold nonces_ok, pending in *. cbn. by rewrite Hs.
  - intros []; try done; by apply nonces_emit.
  - intros t k _ _. unfold call_provision. destruct (provision P) as [f | ]; [ | apply keeps_ret]. apply keeps_bind; [by apply nonces_emit | intros _; apply nonces_world].
  - apply nonces_push.
Qed.

(** ** A successful issuance *)

Lemma bind_Some {A B} (m : M A) (k : A → M B) σ b σ'' :
  (m ≫= k) σ = (Some b, σ'') → ∃ a σ', m σ = (Some a, σ') ∧ k a σ' = (Some b, σ'').
Proof. unfold mbind, acme_bind. destruct (m σ) as [[a | ] σ']; [ | done]. eauto. Qed.

(** What [m] adds to the trace when it succeeds. *)
Definition adds {A} (m : M A) (Q : A → list event → Prop) : Prop :=
  ∀ σ a σ', m σ = (Some a, σ') → ∃ T, trace σ' = trace σ ++ T ∧ Q a T.

Lemma adds_runs {A} n (m : M A) : runs n m → adds m (λ _ _, True).
Proof. intros Hm σ a σ' E. destruct (Hm σ) as (_ & T & HT & _). rewrite E in HT. by exists T. Qed.
Lemma adds_phase {A} n k (m : M A) : phase n k m → adds m (λ _ _, True).
Proof. intros Hm σ a σ' E. destruct (Hm σ) as (T & _ & HT & _). rewrite E in HT. by exists T. Qed.

Lemma adds_bind {A B} (m : M A) (k : A → M B) Q R :
  adds m Q → (∀ a, adds (k a) (R a)) → adds (m ≫= k) (λ b T, ∃ a T1 T2, T = T1 ++ T2 ∧ Q a T1 ∧ R a b T2).
Proof.
  intros Hm Hk σ b σ'' (a & σ' & E1 & E2)%bind_Some. apply Hm in E1 as (T1 & H1 & HQ). apply Hk in E2 as (T2 & H2 & HR).
  exists (T1 ++ T2). rewrite H2, H1, app_assoc. split; [done |]. by exists a, T1, T2.
Qed.

(** [m] leaves a mark in the trace. *)
Definition marks {A} (m : M A) (E : event → Prop) : Prop := adds m (λ _ T, ∃ e, e ∈ T ∧ E e).

Lemma marks_first {A B} n (m : M A) (k : A → M B) E : marks m E → (∀ a, runs n (k a)) → marks (m ≫= k) E.
Proof.
  intros Hm Hk σ b σ'' H. pose proof (adds_bind m k _ (λ _ _ _, True) Hm (λ a, adds_runs n (k a) (Hk a)) σ b σ'' H) as (T & HT & a & T1 & T2 & -> & (e & He & HE) & _).
  exists (T1 ++ T2). split; [done |]. exists e. split; [apply elem_of_app; by left | done].
Qed.
Lemma marks_then {A B} n (m : M A) (k : A → M B) E : runs n m → (∀ a, marks (k a) E) → marks (m ≫= k) E.
Proof.
  intros Hm Hk σ b σ'' H. pose proof (adds_bind m k _ _ (adds_runs n m Hm) Hk σ b σ'' H) as (T & HT & a & T1 & T2 & -> & _ & (e & He & HE)).
  exists (T1 ++ T2). split; [done |]. exists e. split; [apply elem_of_app; by right | done].
Qed.
Lemma marks_emit e (E : event → Prop) : E e → marks (emit e) E.
Proof. intros He σ a σ' [= _ <-]. exists [e]. split; [done |]. exists e. split; [by apply list_elem_of_singleton | done]. Qed.

Definition is_signed (url payload : list Z) (e : event) : Prop := ∃ n k, e = EvSigned n url payload k.

Lemma marks_post_once akey url payload : marks (post_once akey url payload) (is_signed url payload).
Proof.
  unfold post_once. apply (marks_then 0); [apply runs_get | intros s]. apply (marks_then 0); [apply runs_if; [apply runs_get_nonce | apply runs_ret] | intros _].
  apply (marks_then 0); [apply runs_get | intros s']. apply (marks_then 0); [apply runs_on_world | intros jws]. apply (marks_then 0); [apply runs_set_nonce | intros _].
  apply (marks_first 0); [apply marks_emit; red; eauto | intros _; runs0].
Qed.

Lemma marks_post akey url payload : marks (acme_post akey url payload) (is_signed url payload).
Proof. apply (marks_first 1); [apply marks_post_once | intros r]. apply runs_if; [apply runs_post_once | eapply runs_weaken; [ | apply runs_ret]; lia]. Qed.

Lemma marks_poll_loop akey url want mx f : ∀ waited, marks (poll_loop f akey url want mx waited) (λ e, e = EvPolled url want).
Proof.
  induction f as [ | f IH]; intros waited; cbn [poll_loop]; [by intros σ a σ' |]. apply (marks_then 2); [apply runs_post | intros r]. cbn zeta.
  intros σ b σ'' H. pose proof H as (u & σ' & E1 & E2)%bind_Some. unfold emit in E1. injection E1 as _ <-.
  case_bool_decide as Hs.
  - cbn in E2. injection E2 as _ <-. eexists. split; [reflexivity |]. exists (EvPolled url want). split; [ | done]. apply list_elem_of_singleton. by rewrite Hs.
  - destruct (terminal _); [done |]. destruct (mx <=? waited); [done |]. apply IH in E2 as (T & HT & e & He & ->). cbn in HT. rewrite <- app_assoc in HT.
    eexists. split; [exact HT |]. eexists. split; [apply elem_of_app; by right | done].
Qed.

Lemma marks_finalize akey fin csr : marks (do_finalize akey fin csr) (λ e, ∃ payload, is_signed fin payload e).
Proof.
  unfold do_finalize. apply (marks_then 0); [apply runs_of_option | intros p]. apply (marks_first 0); [ | intros r; runs0].
  intros σ r σ' H. apply marks_post in H as (T & HT & e & He & Hs). exists T. split; [done |]. exists e. eauto.
Qed.

Lemma wait_success akey authz : adds (wait_loop akey authz) (λ _ T, ∀ a, a ∈ authz → EvPolled a (bs "valid") ∈ T).
Proof.
  induction authz as [ | a authz IH]; intros σ u σ' H; cbn [wait_loop] in H.
  - injection H as _ <-. exists []. rewrite app_nil_r. split; [done |]. intros a Ha. by apply not_elem_of_nil in Ha.
  - apply bind_Some in H as (b & σ1 & E1 & E2). apply marks_poll_loop in E1 as (T1 & H1 & e & He & ->). apply IH in E2 as (T2 & H2 & HA).
    exists (T1 ++ T2). rewrite H2, H1, app_assoc. split; [done |]. intros x Hx. rewrite elem_of_app. apply elem_of_cons in Hx as [-> | Hx]; [by left | right; by apply HA].
Qed.

Lemma issue_success akey domains kp ou fin :
  adds (issue akey domains kp ou fin) (λ pem T, pem ≠ [] ∧ (∃ e payload, e ∈ T ∧ is_signed fin payload e) ∧ EvPolled ou (bs "valid") ∈ T).
Proof.
  intros σ pem σ' H. unfold issue in H. apply bind_Some in H as (csr & σ1 & E1 & H). apply bind_Some in H as (u & σ2 & E2 & H). apply bind_Some in H as (body & σ3 & E3 & H).
  apply (adds_runs 0) in E1 as (T1 & H1 & _); [ | apply runs_on_world]. apply marks_finalize in E2 as (T2 & H2 & e & He & payload & Hs).
  apply marks_poll_loop in E3 as (T3 & H3 & e' & He' & ->). apply bind_Some in H as ([[[s0 f0] cu] a0] & σ4 & E4 & H). apply bind_Some in H as (u' & σ5 & E5 & H).
  apply (adds_runs 0) in E4 as (T4 & H4 & _); [ | apply runs_of_option]. apply (adds_runs 0) in E5 as (T5 & H5 & _); [ | apply runs_guard].
  pose proof H as H6. apply (adds_runs 2) in H6 as (T6 & H6 & _); [ | apply runs_download].
  exists (T1 ++ T2 ++ T3 ++ T4 ++ T5 ++ T6). rewrite H6, H5, H4, H3, H2, H1, !app_assoc. split; [done |]. split_and!.
  - unfold download_cert in H. apply bind_Some in H as (r & σ6 & _ & H). destruct (r_body r) as [[ | c b] | ]; try done. destruct (r_status r =? 200); [ | done]. cbn in H. by injection H as <- _.
  - exists e, payload. rewrite !elem_of_app. split; [tauto | done].
  - rewrite !elem_of_app. tauto.
Qed.

Lemma order_success akey domains max : adds (portico_acme_order akey domains max) (λ o T, ∃ T0, T = T0 ++ [EvOrder o.1.1 o.1.2 o.2]).
Proof.
  intros σ o σ' H. unfold portico_acme_order in H. apply bind_Some in H as (? & σ1 & E1 & H). apply bind_Some in H as (ids & σ2 & E2 & H). apply bind_Some in H as (s & σ3 & E3 & H).
  apply bind_Some in H as (r & σ4 & E4 & H). apply bind_Some in H as ([[[s0 fin] c0] auths] & σ5 & E5 & H).
  apply (adds_runs 0) in E1 as (T1 & H1 & _); [ | apply runs_guard]. apply (adds_runs 0) in E2 as (T2 & H2 & _); [ | apply runs_of_option].
  apply (adds_runs 0) in E3 as (T3 & H3 & _); [ | apply runs_get]. apply (adds_runs 2) in E4 as (T4 & H4 & _); [ | apply runs_post].
  apply (adds_runs 0) in E5 as (T5 & H5 & _); [ | runs0]. unfold mbind, acme_bind, emit, mret, acme_ret in H. injection H as <- <-. cbn.
  exists (T1 ++ T2 ++ T3 ++ T4 ++ T5 ++ [EvOrder (copy_to 2048 (r_location r)) fin auths]). rewrite H5, H4, H3, H2, H1, !app_assoc. split; [done |]. eexists. reflexivity.
Qed.

(** What a trace of a successful issuance shows. *)
Definition issued (pem : list Z) (T : list event) : Prop :=
  pem ≠ [] ∧
  ∃ T1 ou fin az T2 T3, T = T1 ++ EvOrder ou fin az :: T2 ++ T3 ∧
    (∀ a, a ∈ az → EvPolled a (bs "valid") ∈ T2) ∧
    (∃ e payload, e ∈ T3 ∧ is_signed fin payload e) ∧ EvPolled ou (bs "valid") ∈ T3.

Lemma obtain_success akey email domains kp : adds (obtain_body akey email domains kp) issued.
Proof.
  intros σ pem σ' H. unfold obtain_body in H. apply bind_Some in H as (? & σ1 & E1 & H). apply bind_Some in H as ([[ou fin] az] & σ2 & E2 & H).
  apply bind_Some in H as (? & σ3 & E3 & H). apply bind_Some in H as (? & σ4 & E4 & H).
  apply (adds_runs 2) in E1 as (T1 & H1 & _); [ | apply runs_connect]. apply order_success in E2 as (T2 & H2 & T0 & ->).
  pose proof (adds_phase _ _ _ (phase_trigger akey az) _ _ _ E3) as (T3 & H3 & _). apply wait_success in E4 as (T4 & H4 & Hv). apply issue_success in H as (T5 & H5 & Hp & Hf & Ho).
  exists ((T1 ++ T0) ++ EvOrder ou fin az :: (T3 ++ T4) ++ T5). rewrite H5, H4, H3, H2, H1. cbn [fst snd]. split; [rewrite <- !app_assoc; cbn [app]; by rewrite <- ?app_assoc |].
  split; [done |]. exists (T1 ++ T0), ou, fin, az, (T3 ++ T4), T5. split_and!; try done. intros a Ha. apply elem_of_app. right. by apply Hv.
Qed.
End Client.

(** ** The theorems *)

(** The run behind a result: the body's state, then the cleanup. *)
Lemma obtain_run {W K} (P : platform W K) cfg domains kp w r w' T :
  portico_acme_obtain P cfg domains kp w = (r, w', T) →
  (r = None ∧ T = []) ∨
  ∃ akey dir w0, let σ0 := mk_st (new_session dir) w0 [] [] in
    let '(r0, σ1) := obtain_body P akey (email cfg) domains kp σ0 in
    let σ2 := (cleanup_loop P (tokens σ1) σ1).2 in r = r0 ∧ w' = wrld σ2 ∧ T = trace σ2.
Proof.
  unfold portico_acme_obtain, with_cleanup. destruct (directory_url cfg) as [dir | ]; [ | intros [= <- _ <-]; by left].
  destruct (account_key_path cfg) as [p | ]; [ | intros [= <- _ <-]; by left]. destruct (_ || _); [intros [= <- _ <-]; by left |].
  destruct (load_key P w p) as [[akey | ] w0]; [ | intros [= <- _ <-]; by left]. destruct (mem_session P); cbn [negb]; [ | intros [= <- _ <-]; by left].
  intros H. right. exists akey, dir, w0. cbn zeta. destruct (obtain_body P akey (email cfg) domains kp _) as [r0 σ1]. by injection H as <- <- <-.
Qed.

(** What the cleanup adds to the trace: nothing but the unprovisions. *)
Definition taken_down {W K} (P : platform W K) (toks : list (list Z)) : list event :=
  match unprovision P with Some _ => EvUnprovision <$> toks | None => [] end.

Lemma cleanup_adds {W K} (P : platform W K) toks σ :
  trace (cleanup_loop P toks σ).2 = trace σ ++ (taken_down P toks).
Proof.
  unfold taken_down. destruct (unprovision P) as [f | ] eqn:EU; [by apply cleanup_trace with f |]. rewrite cleanup_quiet by done. by rewrite app_nil_r.
Qed.

(** C13. Nonces: in every issuance, successful or not, the nonces of the requests sent
    are non-empty and are, in order and each once, among the nonces the CA gave; so a nonce
    is never used twice if the CA gives none twice. *)
Theorem nonce_single_use {W K} (P : platform W K) cfg domains kp w r w' T :
  portico_acme_obtain P cfg domains kp w = (r, w', T) →
  used_nonces T `sublist_of` received_nonces T ∧ Forall (λ n, n ≠ []) (used_nonces T) ∧
  (NoDup (received_nonces T) → NoDup (used_nonces T)).
Proof.
  intros H. assert (Hs : used_nonces T `sublist_of` received_nonces T ∧ Forall (λ n, n ≠ []) (used_nonces T)).
  { apply obtain_run in H as [[_ ->] | (akey & dir & w0 & H)]; [done |]. cbn zeta in H.
    pose proof (nonces_obtain P akey (email cfg) domains kp (mk_st (new_session dir) w0 [] []) ltac:(split; done)) as [Hs Hf].
    destruct (obtain_body P akey (email cfg) domains kp _) as [r0 σ1]. cbn [snd] in *. destruct H as (_ & _ & ->). rewrite cleanup_adds.
    unfold used_nonces, received_nonces in *. rewrite !omap_app.
    assert (Hq : ∀ toks, omap (λ e, match e with EvSigned n _ _ _ => Some n | _ => None end) (taken_down P toks) = [] ∧
                         omap (λ e, match e with EvNonce n => Some n | _ => None end) (taken_down P toks) = []).
    { intros toks. unfold taken_down. destruct (unprovision P); [ | done]. by destruct (unprov_facts toks) as (_ & _ & _ & ? & ?). }
    destruct (Hq (tokens σ1)) as [-> ->]. rewrite !app_nil_r. split; [ | done]. etrans; [ | exact Hs]. by apply sublist_inserts_r. }
  destruct Hs as [Hs Hf]. split_and!; try done. intros HN. by eapply sublist_NoDup.
Qed.

(** C38. An issuance ends: whatever the CA answers, it sends at most 8194 signed
    requests, each poll taking at most 61 turns. *)
Theorem obtain_bounded {W K} (P : platform W K) cfg domains kp w r w' T :
  portico_acme_obtain P cfg domains kp w = (r, w', T) →
  Z.of_nat (signed T) <= 8194 ∧
  (∀ akey url want g σ, (61 <= g)%nat → poll_status P akey url want 120 σ = poll_loop P g akey url want 120 0 σ).
Proof.
  intros H. split.
  - apply obtain_run in H as [[_ ->] | (akey & dir & w0 & H)]; [done |]. cbn zeta in H.
    destruct (phase_obtain P akey (email cfg) domains kp (mk_st (new_session dir) w0 [] [])) as (T1 & toks & H1 & _ & _ & _ & Hn & _).
    destruct (obtain_body P akey (email cfg) domains kp _) as [r0 σ1]. cbn [snd trace app] in *. destruct H as (_ & _ & ->). rewrite cleanup_adds, H1, signed_app.
    assert (Hq : signed (taken_down P (tokens σ1)) = 0%nat).
    { unfold taken_down. destruct (unprovision P); [ | done]. by destruct (unprov_facts (tokens σ1)) as [? _]. }
    rewrite Hq. unfold max_signed in Hn. lia.
  - intros akey url want g σ Hg. apply (poll_fuel P akey url want 120 61); lia.
Qed.

Lemma obtain_cleaned {W K} (P : platform W K) cfg domains kp w r w' T :
  is_Some (provision P) → is_Some (unprovision P) →
  portico_acme_obtain P cfg domains kp w = (r, w', T) →
  ∃ T0 toks, T = T0 ++ (EvUnprovision <$> toks) ∧ provisioned T0 = toks ∧ unprovisioned T0 = [] ∧ (length toks <= 64)%nat.
Proof.
  intros HP HU H. apply obtain_run in H as [[_ ->] | (akey & dir & w0 & H)]; [by exists [], []; split_and!; try done; cbn; lia |]. cbn zeta in H.
  destruct (phase_obtain P akey (email cfg) domains kp (mk_st (new_session dir) w0 [] [])) as (T1 & toks & H1 & H2 & H3 & H4 & _ & H6).
  destruct (obtain_body P akey (email cfg) domains kp _) as [r0 σ1]. cbn [snd trace tokens app] in *. destruct H as (_ & _ & ->). rewrite cleanup_adds, H1, H2.
  exists T1, toks. split_and!; try done; [ | by apply H4]. unfold taken_down. by destruct HU as [f ->].
Qed.

(** C35. Challenge responses do not outlive the issuance: on every path, success or
    failure at any step, the tokens provisioned, at most 64, are taken down at the end, in
    the order they were put up, and nothing is provisioned after that. *)
Theorem obtain_cleans_up {W K} (P : platform W K) cfg domains kp w r w' T :
  is_Some (provision P) → is_Some (unprovision P) →
  portico_acme_obtain P cfg domains kp w = (r, w', T) →
  ∃ T0 toks, T = T0 ++ (EvUnprovision <$> toks) ∧ provisioned T0 = toks ∧ unprovisioned T0 = [] ∧ (length toks <= 64)%nat.
Proof. apply obtain_cleaned. Qed.

Lemma obtain_issued {W K} (P : platform W K) cfg domains kp w pem w' T :
  portico_acme_obtain P cfg domains kp w = (Some pem, w', T) → issued pem T.
Proof.
  intros H. apply obtain_run in H as [[? _] | (akey & dir & w0 & H)]; [done |]. cbn zeta in H.
  destruct (obtain_body P akey (email cfg) domains kp _) as [r0 σ1] eqn:E. destruct H as (<- & _ & ->). apply obtain_success in E as (T0 & HT & Hp & T1 & ou & fin & az & T2 & T3 & -> & Hv & (e & payload & He & Hs) & Ho).
  rewrite cleanup_adds, HT. cbn [trace app]. split; [done |]. exists T1, ou, fin, az, T2, (T3 ++ (taken_down P (tokens σ1))).
  split_and!; [rewrite <- !app_assoc; cbn [app]; by rewrite <- !app_assoc | done | exists e, payload; split; [apply elem_of_app; by left | done] | apply elem_of_app; by left].
Qed.


(** ** A CA that plays a script *)

Definition reply (code : Z) (hs : list (list Z * list Z)) (body : string) : list Z := response_text (status_line code (bs "x")) hs (bs body).
Definition hn (n : string) : list Z * list Z := (bs "Replay-Nonce", bs n).
Definition hl (u : string) : list Z * list Z := (bs "Location", bs u).

Definition demo_json (b : list Z) : option json :=
  if bool_decide (b = bs "dir") then
    Some (JObj [(bs "newNonce", JStr (bs "https://ca/nonce")); (bs "newAccount", JStr (bs "https://ca/acct")); (bs "newOrder", JStr (bs "https://ca/order"))])
  else if bool_decide (b = bs "order") then
    Some (JObj [(bs "status", JStr (bs "pending")); (bs "finalize", JStr (bs "https://ca/fin")); (bs "authorizations", JArr [JStr (bs "https://ca/az1")])])
  else if bool_decide (b = bs "authz") then
    Some (JObj [(bs "status", JStr (bs "pending"));
                (bs "challenges", JArr [JObj [(bs "type", JStr (bs "dns-01"))];
                                        JObj [(bs "type", JStr (bs "http-01")); (bs "token", JStr (bs "tok")); (bs "url", JStr (bs "https://ca/ch"))]])])
  else if bool_decide (b = bs "valid") then Some (JObj [(bs "status", JStr (bs "valid"))])
  else if bool_decide (b = bs "done") then Some (JObj [(bs "status", JStr (bs "valid")); (bs "certificate", JStr (bs "https://ca/cert"))])
  else None.

(** The world: the answers still to come, and the responder's table. *)
Definition demo_world : Type := list (list Z) * list resp_slot.

Definition demo_platform : platform demo_world () := {|
  net := λ w _ _ _, match w with (raw :: t, s) => (Some (raw, true), (t, s)) | ([], s) => (None, ([], s)) end;
  cjson := demo_json;
  load_key := λ w _, (Some (), w);
  octets := λ _, demo_octets;
  sha256 := λ _, replicate 32 7;
  ecdsa := λ w _ input, (Some (zlen input, 5), w);
  csr_der := λ w _ cn san, (Some (cn ++ san), w);
  mem_session := true;
  provision := Some (λ w t k, (w.1, portico_acme_responder_provision w.2 t k));
  unprovision := Some (λ w t, (w.1, portico_acme_responder_unprovision w.2 t)) |}.

Definition demo_config : acme_config := mk_aconf (Some (bs "https://ca/dir")) (Some (bs "account.pem")) None.

(** One domain; the first order is refused with a stale nonce. *)
Definition demo_script : list (list Z) :=
  [reply 200 [] "dir"; reply 200 [hn "n1"] ""; reply 201 [hn "n2"; hl "https://ca/acct/7"] "{}";
   reply 400 [hn "n3"] "urn:ietf:params:acme:error:badNonce"; reply 201 [hn "n4"; hl "https://ca/o1"] "order";
   reply 200 [hn "n5"] "authz"; reply 200 [hn "n6"] "{}"; reply 200 [hn "n7"] "authz"; reply 200 [hn "n8"] "valid";
   reply 200 [hn "n9"] "{}"; reply 200 [hn "n10"] "done"; reply 200 [hn "n11"] "PEM"].

Definition demo_run : option (list Z) * demo_world * list event :=
  portico_acme_obtain demo_platform demo_config [bs "example.org"] (bs "cert.key") (demo_script, responder_new).

Example demo_obtains :
  demo_run.1.1 = Some (bs "PEM") ∧ demo_run.1.2.1 = [] ∧
  used_nonces demo_run.2 = bs <$> ["n1"; "n2"; "n3"; "n4"; "n5"; "n6"; "n7"; "n8"; "n9"; "n10"]%string ∧
  provisioned demo_run.2 = [bs "tok"] ∧ count_used demo_run.1.2.2 = 0%nat.
Proof. by vm_compute. Qed.

Lemma triple_eta {A B C} (x : A * B * C) : x = (x.1.1, x.1.2, x.2).
Proof. by destruct x as [[? ?] ?]. Qed.

Lemma demo_run_eq :
  portico_acme_obtain demo_platform demo_config [bs "example.org"] (bs "cert.key") (demo_script, responder_new) = (demo_run.1.1, demo_run.1.2, demo_run.2).
Proof. unfold demo_run. apply triple_eta. Qed.

Lemma nonce_single_use_witness : used_nonces demo_run.2 `sublist_of` received_nonces demo_run.2.
Proof. exact (proj1 (nonce_single_use demo_platform demo_config [bs "example.org"] (bs "cert.key") (demo_script, responder_new) demo_run.1.1 demo_run.1.2 demo_run.2 demo_run_eq)). Defined.

Lemma obtain_bounded_witness : Z.of_nat (signed demo_run.2) <= 8194.
Proof. exact (proj1 (obtain_bounded demo_platform demo_config [bs "example.org"] (bs "cert.key") (demo_script, responder_new) demo_run.1.1 demo_run.1.2 demo_run.2 demo_run_eq)). Defined.

Lemma obtain_cleans_up_witness : ∃ T0 toks, demo_run.2 = T0 ++ (EvUnprovision <$> toks) ∧ provisioned T0 = toks ∧ unprovisioned T0 = [] ∧ (length toks <= 64)%nat.
Proof.
  exact (obtain_cleans_up demo_platform demo_config [bs "example.org"] (bs "cert.key") (demo_script, responder_new) demo_run.1.1 demo_run.1.2 demo_run.2
    ltac:(by eexists) ltac:(by eexists) demo_run_eq).
Defined.


(** An authorization that is valid already but lists no http-01 challenge stops the
    issuance: the challenge is looked for before the status. *)
Example valid_without_http01 :
  acme_parse_authz (Some (JObj [(bs "status", JStr (bs "valid")); (bs "challenges", JArr [JObj [(bs "type", JStr (bs "dns-01"))]])])) 32 256 2048 = None.
Proof. by vm_compute. Qed.
