(* ===== verification/AcmeManager.v ===== *)
(** * The issue and renew manager (src/src/acme/acme_manager.c)

    Deciding whether the certificate on disk still serves, issuing another through
    [AcmeClient] with the responder of [AcmeResponder] as its provisioning callbacks,
    writing it out, and the manager's start, renewal loop and stop.

    The world is the responder's table, which the client's callbacks change, and the rest
    ([W]): the CA may look at the table (it fetches the challenge) but not change it.  What
    OpenSSL says of the certificate file and the system calls' outcomes are arguments. *)
From Stdlib Require Import ZArith Lia.
From stdpp Require Import base numbers list strings gmap.
From S2P Require Import Prelude Cstr HttpRequest Config AcmeHttp AcmeResponder AcmeJws AcmeClient.
Open Scope Z_scope.

(** ** The certificate on disk *)

(** What [PEM_read_X509] gives: the whole days to expiry ([None] if they cannot be
    computed) and the alternative names with whether each is a DNS name. *)
Record cert := mk_cert { c_days : option Z; c_sans : list (bool * list Z) }.

Definition portico_acme_cert_days_left (c : option cert) : Z :=
  match c with Some c => default (-1) (c_days c) | None => -1 end.

Definition portico_acme_cert_needs_renewal (c : option cert) (renew_within_days : Z) : bool :=
  let d := portico_acme_cert_days_left c in (d <? 0) || (d <=? renew_within_days).

Fixpoint san_found (sans : list (bool * list Z)) (want : list Z) : bool :=
  match sans with
  | [] => false
  | (dns, s) :: t =>
      if dns && (zlen s =? zlen want) && (ws_strncasecmp s want (length want) =? 0) then true else san_found t want
  end.

Fixpoint covers_loop (sans : list (bool * list Z)) (domains : list (list Z)) : bool :=
  match domains with
  | [] => true
  | d :: t => if san_found sans d then covers_loop sans t else false
  end.

Definition portico_acme_cert_covers (c : option cert) (domains : list (list Z)) : bool :=
  match domains with
  | [] => true
  | _ => match c with Some c => covers_loop (c_sans c) domains | None => false end
  end.

(** ** The manager *)

Record mplatform (W K : Type) := mk_mplatform {
  m_net : list resp_slot → transport W;
  m_cjson : list Z → option json;
  m_load_key : W → list Z → option K * W;
  m_octets : K → option (list Z);
  m_sha256 : list Z → list Z;
  m_ecdsa : W → K → list Z → option (Z * Z) * W;
  m_csr_der : W → K → list Z → list Z → option (list Z) * W;
  m_mem_session : bool;
  m_read_cert : W → list Z → option cert;                      (* fopen + PEM_read_X509 *)
  m_write : W → list Z → list Z → (bool * Z * bool) * W;       (* open, bytes written, close *)
  m_on_renewed : option (W → W)
}.
Arguments m_net {W K}. Arguments m_cjson {W K}. Arguments m_load_key {W K}. Arguments m_octets {W K}. Arguments m_sha256 {W K}.
Arguments m_ecdsa {W K}. Arguments m_csr_der {W K}. Arguments m_mem_session {W K}. Arguments m_read_cert {W K}. Arguments m_write {W K}. Arguments m_on_renewed {W K}.

Record manager_config := mk_mconf {
  mc_acme : acme_config; mc_cert_path : list Z; mc_cert_key_path : list Z; mc_domains : list (list Z);
  mc_renew_within_days : Z; mc_check_interval_secs : Z }.

Section Manager.
Context {W K : Type} (Q : mplatform W K).

(** An action on the rest of the world. *)
Definition beside {A} (f : W → A * W) (w : list resp_slot * W) : A * (list resp_slot * W) :=
  let '(a, w2) := f w.2 in (a, (w.1, w2)).

(** The client's platform: the responder's functions are the callbacks. *)
Definition manager_platform : platform (list resp_slot * W) K := {|
  net := λ w h p b, beside (λ w2, m_net Q w.1 w2 h p b) w;
  cjson := m_cjson Q;
  load_key := λ w path, beside (λ w2, m_load_key Q w2 path) w;
  octets := m_octets Q;
  sha256 := m_sha256 Q;
  ecdsa := λ w k input, beside (λ w2, m_ecdsa Q w2 k input) w;
  csr_der := λ w k cn san, beside (λ w2, m_csr_der Q w2 k cn san) w;
  mem_session := m_mem_session Q;
  provision := Some (λ w t k, (portico_acme_responder_provision w.1 t k, w.2));
  unprovision := Some (λ w t, (portico_acme_responder_unprovision w.1 t, w.2)) |}.

(** [write_public]. *)
Definition write_public (w : W) (path data : list Z) : bool * W :=
  let '(opened, n, closed, w) := m_write Q w path data in (opened && (n =? zlen data) && closed, w).

(** [portico_acme_manager_ensure]: 1 reissued, 0 still current, -1 error. *)
Definition portico_acme_manager_ensure (cfg : manager_config) (w : list resp_slot * W) : Z * (list resp_slot * W) :=
  let c := m_read_cert Q w.2 (mc_cert_path cfg) in
  if negb (portico_acme_cert_needs_renewal c (mc_renew_within_days cfg)) && portico_acme_cert_covers c (mc_domains cfg) then (0, w)
  else
    let '(pem, w, _) := portico_acme_obtain manager_platform (mc_acme cfg) (mc_domains cfg) (mc_cert_key_path cfg) w in
    match pem with
    | None => (-1, w)
    | Some pem =>
        let '(ok, w2) := write_public w.2 (mc_cert_path cfg) (c_string pem) in
        if negb ok then (-1, (w.1, w2))
        else (1, (w.1, match m_on_renewed Q with Some f => f w2 | None => w2 end))
    end.

(** [renew_loop]: what each [poll] returns. *)
Inductive wake := Woken | Interrupted | TimedOut.
Fixpoint renew_loop (cfg : manager_config) (wakes : list wake) (w : list resp_slot * W) : list resp_slot * W :=
  match wakes with
  | [] | Woken :: _ => w
  | Interrupted :: t => renew_loop cfg t w
  | TimedOut :: t => renew_loop cfg t (portico_acme_manager_ensure cfg w).2
  end.

(** The defaults [portico_acme_manager_start] fills in. *)
Definition with_defaults (cfg : manager_config) : manager_config :=
  mk_mconf (mc_acme cfg) (mc_cert_path cfg) (mc_cert_key_path cfg) (mc_domains cfg)
    (if mc_renew_within_days cfg <=? 0 then 30 else mc_renew_within_days cfg)
    (if mc_check_interval_secs cfg <=? 0 then 12 * 3600 else mc_check_interval_secs cfg).

(** The time [poll] waits, in milliseconds ([int] arithmetic). *)
Definition poll_timeout (cfg : manager_config) : Z := i32 (mc_check_interval_secs cfg * 1000).

Record manager := mk_manager { mg_listener : listener; mg_port : Z; mg_stop_fd : Z; mg_thread : bool }.

(** What the calls of [portico_acme_manager_start] answer, besides the listener's. *)
Record start_env := mk_senv { se_mem : bool; se_mem_responder : bool; se_listen : listen_env; se_stop : option Z; se_spawn : bool }.

(** [portico_acme_manager_start]: the manager or NULL, the world and the descriptors. *)
Definition portico_acme_manager_start (cfg : manager_config) (e : start_env) (w : W) (held : list Z)
    : option manager * (list resp_slot * W) * list Z :=
  let w0 := (responder_new, w) in
  match mc_domains cfg with
  | [] => (None, w0, held)
  | _ =>
      if negb (se_mem e) || negb (se_mem_responder e) then (None, w0, held)
      else
        match portico_acme_responder_listen listener_new (se_listen e) held with
        | (None, _, held) => (None, w0, held)
        | (Some port, l, held) =>
            let '(rc, w1) := portico_acme_manager_ensure (with_defaults cfg) w0 in
            if rc <? 0 then (None, w1, (portico_acme_responder_stop l held).2)
            else
              match se_stop e with
              | None => (Some (mk_manager l port (-1) false), w1, held)
              | Some fd =>
                  if se_spawn e then (Some (mk_manager l port fd true), w1, open_fd fd held)
                  else (Some (mk_manager l port (-1) false), w1, close_fd fd (open_fd fd held))
              end
        end
  end.

(** [portico_acme_manager_stop]. *)
Definition portico_acme_manager_stop (m : manager) (held : list Z) : list Z :=
  let held := if 0 <=? mg_stop_fd m then close_fd (mg_stop_fd m) held else held in
  (portico_acme_responder_stop (mg_listener m) held).2.
End Manager.

(** ** When the certificate serves *)

Lemma san_found_spec sans want : cstr want → Forall (λ s, cstr s.2) sans →
  san_found sans want = true ↔ ∃ s, (true, s) ∈ sans ∧ same_name s want.
Proof.
  intros Hw. induction 1 as [ | [dns s] sans Hs HF IH]; cbn [san_found].
  - split; [done | intros (s & H & _); by apply not_elem_of_nil in H].
  - assert (He : (dns && (zlen s =? zlen want) && (ws_strncasecmp s want (length want) =? 0)) = true ↔ dns = true ∧ same_name s want).
    { rewrite !andb_true_iff, !Z.eqb_eq, strncasecmp_eq by done. unfold zlen, same_name. rewrite (take_ge want) by lia. split.
      - intros [[Hd Hl] He]. rewrite take_ge in He by lia. done.
      - intros [Hd He]. assert (Hl : length s = length want) by (apply (f_equal length) in He; by rewrite !length_map in He). rewrite take_ge by lia. split_and!; [done | lia | done]. }
    destruct (_ && _ && _).
    + split; [ | done]. intros _. destruct He as [[Hd He] _]; [done |]. exists s. split; [apply elem_of_cons; left; by subst | done].
    + rewrite IH. split; intros (x & Hx & Hn); exists x; (split; [ | done]).
      * apply elem_of_cons. by right.
      * apply elem_of_cons in Hx as [[= <- <-] | Hx]; [ | done]. destruct He as [_ He]. by discriminate He.
Qed.

Lemma covers_loop_spec sans domains : Forall cstr domains → Forall (λ s, cstr s.2) sans →
  covers_loop sans domains = true ↔ ∀ d, d ∈ domains → ∃ s, (true, s) ∈ sans ∧ same_name s d.
Proof.
  intros HD HS. induction HD as [ | d domains Hd HD IH]; cbn [covers_loop].
  - split; [intros _ d Hd; by apply not_elem_of_nil in Hd | done].
  - pose proof (san_found_spec sans d Hd HS) as Hf. destruct (san_found sans d).
    + rewrite IH. split.
      * intros H x Hx. apply elem_of_cons in Hx as [-> | Hx]; [by apply Hf | by apply H].
      * intros H x Hx. apply H. apply elem_of_cons. by right.
    + split; [done |]. intros H. destruct Hf as [_ Hf]. by rewrite Hf by (apply H, elem_of_cons; by left).
Qed.

(** The certificate is current: it can be read, has more days left than the margin, and
    names every domain. *)
Definition current (c : option cert) (within : Z) (domains : list (list Z)) : Prop :=
  ∃ x d, c = Some x ∧ c_days x = Some d ∧ 0 <= d ∧ within < d ∧
         ∀ dom, dom ∈ domains → ∃ s, (true, s) ∈ c_sans x ∧ same_name s dom.

Lemma current_spec c within domains : domains ≠ [] → Forall cstr domains → (∀ x, c = Some x → Forall (λ s, cstr s.2) (c_sans x)) →
  negb (portico_acme_cert_needs_renewal c within) && portico_acme_cert_covers c domains = true ↔ current c within domains.
Proof.
  intros Hne HD HS. unfold portico_acme_cert_needs_renewal, portico_acme_cert_days_left, portico_acme_cert_covers, current.
  destruct domains as [ | d0 ds]; [done |]. destruct c as [x | ]; [ | split; [done | intros (? & ? & [=] & _)]].
  rewrite andb_true_iff, negb_true_iff, orb_false_iff, Z.ltb_ge, Z.leb_gt, covers_loop_spec by (try done; by apply HS).
  split.
  - intros [[H0 Hw] Hc]. destruct (c_days x) as [d | ] eqn:Ed; cbn in H0, Hw; [ | unfold id in *; lia]. by exists x, d.
  - intros (y & d & [= <-] & Ed & H0 & Hw & Hc). by rewrite Ed.
Qed.

(** ** The challenge table around an issuance *)

Definition table_ops (T : list event) : list table_op :=
  omap (λ e, match e with EvProvision t k => Some (Provision t k) | EvUnprovision t => Some (Unprovision t) | _ => None end) T.

Lemma table_ops_app T U : table_ops (T ++ U) = table_ops T ++ table_ops U.
Proof. apply omap_app. Qed.

Section Table.
Context {W K : Type} (Q : mplatform W K) (slots0 : list resp_slot).

(** The table is what the callbacks so far have made of it, and they fit. *)
Definition table_inv (σ : st (list resp_slot * W)) : Prop :=
  (wrld σ).1 = fold_left table_do (table_ops (trace σ)) slots0 ∧ Forall op_fits (table_ops (trace σ)).

(** An action on the rest of the world keeps the table. *)
Definition aside {A} (f : list resp_slot * W → option A * (list resp_slot * W)) : Prop := ∀ w, (f w).2.1 = w.1.

Lemma table_world {A} (f : list resp_slot * W → option A * (list resp_slot * W)) : aside f → keeps table_inv (on_world f).
Proof. intros Hf σ [H1 H2]. unfold on_world. specialize (Hf (wrld σ)). destruct (f (wrld σ)) as [r w]. split; cbn in *; [by rewrite Hf | done]. Qed.

Lemma aside_https m u h b : aside (λ w, portico_https_request (net (manager_platform Q)) w m u h b).
Proof.
  intros w. unfold portico_https_request. destruct (parse_url u 256 16 2048) as [[[host port] path] | ]; [ | done].
  destruct (request_head _ _ _ _ _); [ | done]. cbn. unfold beside. by destruct (m_net Q w.1 w.2 host port _) as [[[raw mem] | ] w2].
Qed.

Lemma aside_jws akey kid nonce url payload cap :
  aside (λ w, portico_acme_jws (λ w, ecdsa (manager_platform Q) w akey) w (octets (manager_platform Q) akey) kid nonce url payload cap).
Proof.
  intros w. unfold portico_acme_jws. destruct (jws_prepare _ _ _ _ _) as [[[p pay] input] | ]; [ | done]. cbn. unfold beside.
  destruct (m_ecdsa Q w.2 akey input) as [rs w2]. cbn. destruct (raw_signature rs); [ | done]. by destruct (Crypto.portico_b64url_encode _ 128).
Qed.

Lemma aside_csr path domains cap :
  aside (λ w, portico_acme_make_csr (load_key (manager_platform Q)) (csr_der (manager_platform Q)) w path domains cap).
Proof.
  intros w. unfold portico_acme_make_csr. destruct domains as [ | cn ds]; [done |]. cbn [load_key csr_der manager_platform]. unfold beside. destruct (m_load_key Q w.2 path) as [[k | ] w2]; [ | done].
  destruct (san_loop (cn :: ds) true []) as [san | ]; [ | done]. cbn [fst snd]. destruct (m_csr_der Q w2 k cn san) as [[der | ] w3]; [ | done]. by destruct (zlen der <=? 0).
Qed.

Lemma table_emit e : (match e with EvProvision _ _ | EvUnprovision _ => False | _ => True end) → keeps table_inv (emit e).
Proof.
  intros He σ [H1 H2]. unfold table_inv. cbn. rewrite table_ops_app. destruct e; try done; cbn; by rewrite app_nil_r.
Qed.

Lemma table_ses s : keeps table_inv (put_ses s).
Proof. intros σ H. exact H. Qed.

Lemma table_set_nonce n : keeps table_inv (set_nonce n).
Proof. apply keeps_bind; [apply keeps_get | intros s; apply table_ses]. Qed.

Lemma table_take_nonce n : keeps table_inv (take_nonce n).
Proof. apply keeps_bind; [by apply table_emit | intros _; apply table_set_nonce]. Qed.

Lemma table_https m u h b : keeps table_inv (https (manager_platform Q) m u h b).
Proof. apply table_world, aside_https. Qed.

Lemma table_post_once akey url payload : keeps table_inv (post_once (manager_platform Q) akey url payload).
Proof.
  unfold post_once. apply keeps_bind; [apply keeps_get | intros s]. apply keeps_bind.
  - apply keeps_if; [ | apply keeps_ret]. unfold get_nonce. apply keeps_bind; [apply keeps_get | intros s']. apply keeps_bind; [apply keeps_guard | intros _].
    apply keeps_bind; [apply table_https | intros r]. apply keeps_bind; [apply keeps_guard | intros _; apply table_take_nonce].
  - intros _. apply keeps_bind; [apply keeps_get | intros s']. apply keeps_bind; [apply table_world, aside_jws | intros jws].
    apply keeps_bind; [apply table_set_nonce | intros _]. apply keeps_bind; [by apply table_emit | intros _]. apply keeps_bind; [apply table_https | intros r].
    apply keeps_bind; [apply keeps_if; [apply keeps_ret | apply table_take_nonce] | intros _; apply keeps_ret].
Qed.

Lemma table_provision t k : zlen t < 256 → zlen k < 512 → keeps table_inv (call_provision (manager_platform Q) t k).
Proof.
  intros Ht Hk σ [H1 H2]. unfold call_provision, mbind, acme_bind, emit, on_world, table_inv. cbn [provision manager_platform wrld trace ses tokens fst snd]. rewrite table_ops_app, fold_left_app. cbn. split; [by rewrite H1 |].
  apply Forall_app. split; [done |]. by repeat constructor.
Qed.

Lemma table_unprovision t : keeps table_inv (call_unprovision (manager_platform Q) t).
Proof.
  intros σ [H1 H2]. unfold call_unprovision, mbind, acme_bind, emit, on_world, table_inv. cbn [unprovision manager_platform wrld trace ses tokens fst snd]. rewrite table_ops_app, fold_left_app. cbn. split; [by rewrite H1 |].
  apply Forall_app. split; [done |]. by repeat constructor.
Qed.

Lemma table_cleanup toks : keeps table_inv (cleanup_loop (manager_platform Q) toks).
Proof. induction toks as [ | t toks IH]; cbn [cleanup_loop]; [apply keeps_ret |]. apply keeps_bind; [apply table_unprovision | intros _; exact IH]. Qed.

Lemma table_obtain akey email domains kp : keeps table_inv (obtain_body (manager_platform Q) akey email domains kp).
Proof.
  apply keeps_obtain.
  - intros url payload. apply keeps_bind; [apply table_post_once | intros r]. apply keeps_if; [apply table_post_once | apply keeps_ret].
  - intros url. apply table_https.
  - intros path ds. apply table_world, aside_csr.
  - intros σ s _ H. exact H.
  - intros []; try done; by apply table_emit.
  - intros t k Ht Hk. apply table_provision; [ | done]. rewrite <- Ht. unfold copy_to, zlen, ztake. rewrite length_take. lia.
  - intros t σ H. exact H.
Qed.
End Table.

(** ** The table is left clean *)

Lemma provisions_within (ops : list table_op) (toks : list (list Z)) : ∀ m : gmap (list Z) (list Z),
  Forall (λ o, match o with Provision t _ => t ∈ toks | Unprovision _ => False end) ops →
  (∀ t, is_Some (m !! t) → t ∈ toks) → ∀ t, is_Some (fold_left map_do ops m !! t) → t ∈ toks.
Proof.
  induction ops as [ | o ops IH]; intros m HF Hm; [done |]. apply Forall_cons in HF as [Ho HF]. cbn [fold_left]. apply IH; [done |].
  destruct o as [t k | t]; [ | done]. cbn. unfold map_provision. case_decide; [ | done]. intros x Hx. destruct (decide (x = t)) as [-> | Hne]; [done |].
  rewrite lookup_insert_ne in Hx by done. by apply Hm.
Qed.

Lemma unprovisions_clear (toks : list (list Z)) : ∀ m : gmap (list Z) (list Z),
  (∀ t, is_Some (m !! t) → t ∈ toks) → fold_left map_do (Unprovision <$> toks) m = ∅.
Proof.
  induction toks as [ | t toks IH]; intros m Hm; cbn [fmap list_fmap fold_left].
  - apply map_eq. intros x. rewrite lookup_empty. apply eq_None_not_Some. intros Hx. apply Hm in Hx. by apply not_elem_of_nil in Hx.
  - cbn [map_do]. apply IH. intros x Hx. destruct (decide (x = t)) as [-> | Hne]; [rewrite lookup_delete_eq in Hx; by destruct Hx |].
    rewrite lookup_delete_ne in Hx by done. apply Hm, elem_of_cons in Hx as [-> | Hx]; done.
Qed.

(** The operations a trace records. *)
Lemma table_ops_provisioned T : unprovisioned T = [] →
  Forall (λ o, match o with Provision t _ => t ∈ provisioned T | Unprovision _ => False end) (table_ops T).
Proof.
  induction T as [ | e T IH]; intros HU; [constructor |]. destruct e as [ | | | | t k | t]; cbn in HU |- *; try by apply IH.
  - apply List.Forall_cons; [apply elem_of_cons; by left |]. eapply Forall_impl; [by apply IH |]. intros [t' k' | t'] Ho; [apply elem_of_cons; by right | done].
  - done.
Qed.

Lemma table_ops_taken_down toks : table_ops (EvUnprovision <$> toks) = Unprovision <$> toks.
Proof. induction toks as [ | t toks IH]; [done |]. unfold table_ops in *. cbn. by rewrite IH. Qed.

Section Ensure.
Context {W K : Type} (Q : mplatform W K).

(** Whatever an issuance does, it gives the table back empty. *)
Lemma obtain_table cfg domains kp (w : list resp_slot * W) r w' T :
  table_is w.1 ∅ → portico_acme_obtain (manager_platform Q) cfg domains kp w = (r, w', T) → table_is w'.1 ∅.
Proof.
  intros HT H. assert (Hinv : w'.1 = fold_left table_do (table_ops T) w.1 ∧ Forall op_fits (table_ops T)).
  { unfold portico_acme_obtain, with_cleanup in H. destruct (directory_url cfg) as [dir | ]; [ | by injection H as _ <- <-].
    destruct (account_key_path cfg) as [p | ]; [ | by injection H as _ <- <-]. destruct (_ || _); [by injection H as _ <- <- |].
    cbn [load_key manager_platform] in H. unfold beside in H. destruct (m_load_key Q w.2 p) as [[akey | ] w0]; [ | by injection H as _ <- <-].
    destruct (mem_session _); cbn [negb] in H; [ | by injection H as _ <- <-].
    pose proof (table_obtain Q w.1 akey (email cfg) domains kp (mk_st (new_session dir) (w.1, w0) [] []) ltac:(split; [done | constructor])) as H1.
    destruct (obtain_body (manager_platform Q) akey (email cfg) domains kp _) as [r0 σ1]. cbn [snd] in H1.
    pose proof (table_cleanup Q w.1 (tokens σ1) σ1 H1) as H2. by injection H as _ <- <-. }
  destruct Hinv as [-> Hfit]. pose proof (ops_refine _ _ _ Hfit HT) as HR.
  apply obtain_cleaned in H as (T0 & toks & -> & Hp & Hu & _); [ | by eexists | by eexists].
  rewrite table_ops_app, table_ops_taken_down in HR |- *. assert (E : fold_left map_do (table_ops T0 ++ (Unprovision <$> toks)) ∅ = ∅); [ | by rewrite E in HR].
  rewrite fold_left_app. apply unprovisions_clear. apply provisions_within.
  - rewrite <- Hp. by apply table_ops_provisioned.
  - intros t [k Hk]. by rewrite lookup_empty in Hk.
Qed.

(** C36. One pass of the manager: it leaves the CA and the disk alone exactly when the
    certificate is readable, has more days left than the margin and names every domain;
    it reports a reissue only when the protocol ran to its end, the whole chain was
    written and the application was told; and on every path no challenge response is left
    behind. *)
Theorem ensure_correct cfg (slots : list resp_slot) (w : W) rc w' :
  let c := m_read_cert Q w (mc_cert_path cfg) in
  table_is slots ∅ → mc_domains cfg ≠ [] → Forall cstr (mc_domains cfg) → (∀ x, c = Some x → Forall (λ s, cstr s.2) (c_sans x)) →
  portico_acme_manager_ensure Q cfg (slots, w) = (rc, w') →
  table_is w'.1 ∅ ∧ (rc = 0 ↔ current c (mc_renew_within_days cfg) (mc_domains cfg)) ∧ (rc = 0 → w' = (slots, w)) ∧ rc ∈ [0; 1; -1] ∧
  (rc = 1 → ∃ pem T w1 w2, portico_acme_obtain (manager_platform Q) (mc_acme cfg) (mc_domains cfg) (mc_cert_key_path cfg) (slots, w) = (Some pem, w1, T) ∧
     issued pem T ∧ m_write Q w1.2 (mc_cert_path cfg) (c_string pem) = (true, zlen (c_string pem), true, w2) ∧
     w'.2 = match m_on_renewed Q with Some f => f w2 | None => w2 end).
Proof.
  intros c HT Hne HD HS H. pose proof (current_spec c (mc_renew_within_days cfg) (mc_domains cfg) Hne HD HS) as Hcur.
  unfold portico_acme_manager_ensure in H. cbn [snd fst] in H. fold c in H. destruct (negb _ && _).
  - injection H as <- <-. split_and!; [done | | done | apply elem_of_cons; by left | done]. split; [intros _; by apply Hcur | done].
  - assert (Hnot : ¬ current c (mc_renew_within_days cfg) (mc_domains cfg)) by (intros Hc; apply Hcur in Hc; done). clear Hcur.
    destruct (portico_acme_obtain _ _ _ _ (slots, w)) as [[[pem | ] w1] T] eqn:E; pose proof (obtain_table _ _ _ (slots, w) _ _ _ HT E) as HT'; cycle 1.
    { injection H as <- <-. split_and!; [done | by split | done | by do 2 (apply elem_of_cons; right); apply list_elem_of_singleton | done]. }
    unfold write_public in H. destruct (m_write Q w1.2 (mc_cert_path cfg) (c_string pem)) as [[[op n] cl] w2] eqn:Ew.
    destruct (op && (n =? zlen (c_string pem)) && cl) eqn:Eo; cbn [negb] in H; injection H as <- <-.
    + split_and!; [done | by split | done | apply elem_of_cons; right; apply elem_of_cons; by left |]. intros _. exists pem, T, w1, w2. zbool. subst. split_and!; try done. by eapply obtain_issued.
    + split_and!; [done | by split | done | by do 2 (apply elem_of_cons; right); apply list_elem_of_singleton | done].
Qed.

(** The manager's life: a start that fails gives back every descriptor; one that
    succeeds did so with a current or freshly issued certificate, and stopping it gives
    back the listener's descriptors and the stop descriptor. *)
Theorem manager_gives_back cfg e (w : W) held :
  fresh_env (se_listen e) held →
  (∀ fd port l held', se_stop e = Some fd → portico_acme_responder_listen listener_new (se_listen e) held = (Some port, l, held') → 0 <= fd ∧ (fd ∉ held')) →
  match portico_acme_manager_start Q cfg e w held with
  | (None, _, held') => held' = held
  | (Some m, w', held') =>
      (∃ rc, portico_acme_manager_ensure Q (with_defaults cfg) (responder_new, w) = (rc, w') ∧ 0 <= rc) ∧
      portico_acme_manager_stop m held' = held
  end.
Proof.
  intros HE Hstop. unfold portico_acme_manager_start. destruct (mc_domains cfg) as [ | d ds]; [done |]. destruct (_ || _); [done |].
  pose proof (listen_balanced (se_listen e) held HE) as HL. specialize (λ fd port l held', Hstop fd port l held').
  destruct (portico_acme_responder_listen listener_new (se_listen e) held) as [[[port | ] l] held1] eqn:El; [ | by destruct HL as [_ ->]].
  destruct HL as (Hr & Hh & _ & Hs). destruct (portico_acme_manager_ensure Q (with_defaults cfg) (responder_new, w)) as [rc w1].
  destruct (Z.ltb_spec rc 0); [by rewrite Hs |]. unfold portico_acme_manager_stop. destruct (se_stop e) as [fd | ].
  - destruct (Hstop fd port l held1 eq_refl eq_refl) as [H0 Hn]. destruct (se_spawn e); cbn [mg_stop_fd mg_listener].
    + split; [by exists rc |]. rewrite (proj2 (Z.leb_le 0 fd)) by done. unfold open_fd. rewrite close_fd_fresh by done. by rewrite Hs.
    + split; [by exists rc |]. unfold open_fd. rewrite close_fd_fresh by done. cbn [mg_stop_fd mg_listener]. change (0 <=? -1) with false. cbn iota. by rewrite Hs.
  - split; [by exists rc |]. cbn [mg_stop_fd mg_listener]. change (0 <=? -1) with false. cbn iota. by rewrite Hs.
Qed.
End Ensure.

(** ** A manager at work *)

(** A certificate with ten days left, the CA's script of [AcmeClient], a disk that takes
    what is written. *)
Definition demo_manager : mplatform (list (list Z) * list Z) () := {|
  m_net := λ _ w _ _ _, match w with (raw :: t, d) => (Some (raw, true), (t, d)) | ([], d) => (None, ([], d)) end;
  m_cjson := demo_json;
  m_load_key := λ w _, (Some (), w);
  m_octets := λ _, demo_octets;
  m_sha256 := λ _, replicate 32 7;
  m_ecdsa := λ w _ input, (Some (zlen input, 5), w);
  m_csr_der := λ w _ cn san, (Some (cn ++ san), w);
  m_mem_session := true;
  m_read_cert := λ _ _, Some (mk_cert (Some 10) [(true, bs "Example.org")]);
  m_write := λ w _ data, ((true, zlen data, true), (w.1, data));
  m_on_renewed := None |}.

Definition demo_manager_config (within : Z) : manager_config :=
  mk_mconf demo_config (bs "cert.pem") (bs "cert.key") [bs "example.org"] within 0.

Example demo_reissues :
  let r := portico_acme_manager_ensure demo_manager (demo_manager_config 30) (responder_new, (demo_script, [])) in
  r.1 = 1 ∧ r.2.2 = ([], bs "PEM") ∧ count_used r.2.1 = 0%nat.
Proof. by vm_compute. Qed.

Lemma ensure_correct_witness :
  (0 : Z) = 0 ↔ current (Some (mk_cert (Some 10) [(true, bs "Example.org")])) 7 [bs "example.org"].
Proof.
  refine (proj1 (proj2 (ensure_correct demo_manager (demo_manager_config 7) responder_new (demo_script, []) 0 (responder_new, (demo_script, [])) _ _ _ _ _))).
  - apply table_is_new.
  - done.
  - apply List.Forall_cons; [ | apply List.Forall_nil]. apply bs_cstr_colon. by vm_compute.
  - intros x Hx. apply Some_inj in Hx. subst x. apply List.Forall_cons; [ | apply List.Forall_nil]. apply (bs_cstr_colon "Example.org"). by vm_compute.
  - by vm_compute.
Defined.

Definition demo_start : start_env := mk_senv true true (mk_env (Some 5) true (Some 80) None false None (Some 6) true) (Some 7) true.

Lemma manager_gives_back_witness :
  match portico_acme_manager_start demo_manager (demo_manager_config 7) demo_start (demo_script, []) [0; 1; 2] with
  | (None, _, held') => held' = [0; 1; 2]
  | (Some m, w', held') =>
      (∃ rc, portico_acme_manager_ensure demo_manager (with_defaults (demo_manager_config 7)) (responder_new, (demo_script, [])) = (rc, w') ∧ 0 <= rc) ∧
      portico_acme_manager_stop m held' = [0; 1; 2]
  end.
Proof.
  refine (manager_gives_back demo_manager (demo_manager_config 7) demo_start (demo_script, []) [0; 1; 2] _ _).
  - split_and!; intros fd; cbn; intros [= <-]; (split_and! || idtac); try done; intros H; apply list_elem_of_In in H; cbn in H; lia.
  - intros fd port l held' [= <-]. cbn. intros [= _ _ <-]. split; [lia |]. intros H; apply list_elem_of_In in H; cbn in H; lia.
Defined.

(** The interval is multiplied in [int]: 25 days and the poll waits for ever. *)
Example renew_interval_wraps : poll_timeout (mk_mconf demo_config [] [] [] 30 (25 * 24 * 3600)) < 0.
Proof. by vm_compute. Qed.
