(* ===== verification/AcmeKey.v ===== *)
(** * Key files of the ACME client (src/src/acme/acme_key.c, acme_jws.c)

    The account key and the certificate key are read from a PEM file, or generated and
    written there.  The account at the CA and every certificate are bound to these keys, so
    what matters is that the key a call returns is the key the next call finds.  PEM coding
    and key generation are OpenSSL's: parameters.  The outcomes of the calls are arguments. *)
From Stdlib Require Import ZArith Lia.
From stdpp Require Import base numbers list strings gmap.
From S2P Require Import Prelude.
Open Scope Z_scope.

Section Keys.
Context {K : Type} (pem_read : list Z → option K) (pem_write : K → list Z).

(** A file: its contents and its permission bits.  [ks_open] counts the descriptors and
    streams that are open, [ks_keys] the keys and key contexts allocated. *)
Record key_store := mk_store { ks_files : gmap (list Z) (list Z * Z); ks_open : Z; ks_keys : Z }.

Definition opened (s : key_store) (d : Z) : key_store := mk_store (ks_files s) (ks_open s + d) (ks_keys s).
Definition keyed (s : key_store) (d : Z) : key_store := mk_store (ks_files s) (ks_open s) (ks_keys s + d).
Definition stored (s : key_store) (path : list Z) (f : list Z * Z) : key_store := mk_store (<[path := f]> (ks_files s)) (ks_open s) (ks_keys s).

(** One if there is a key. *)
Definition one (k : option K) : Z := match k with Some _ => 1 | None => 0 end.

(** What the calls of one load meet. *)
Record key_env := mk_kenv {
  ke_open_r : bool;        (* an existing file can be opened *)
  ke_ctx : bool;           (* EVP_PKEY_CTX_new_id *)
  ke_init : bool;          (* EVP_PKEY_keygen_init *)
  ke_curve : bool;         (* the choice of P-256 *)
  ke_gen : option K;       (* EVP_PKEY_keygen *)
  ke_open_w : bool;        (* open for writing *)
  ke_fdopen : bool;
  ke_written : nat;        (* how many bytes of the PEM text reach the file *)
  ke_calloc : bool
}.

(** [fopen(path, "r")], reading the key and [fclose]. *)
Definition read_key (e : key_env) (path : option (list Z)) (s : key_store) : option K * key_store :=
  match path with
  | None => (None, s)
  | Some p =>
      match ks_files s !! p with
      | Some (content, _) =>
          if ke_open_r e
          then let r := pem_read content in (r, keyed (opened (opened s 1) (-1)) (one r))
          else (None, s)
      | None => (None, s)
      end
  end.

(** The generation of a P-256 key. *)
Definition generate (e : key_env) (s : key_store) : option K * key_store :=
  if negb (ke_ctx e) then (None, s)
  else
    let r := if ke_init e && ke_curve e then ke_gen e else None in
    (r, keyed (keyed (keyed s 1) (one r)) (-1)).

(** Writing it: [O_TRUNC] empties a file that is there and keeps its permissions; a new
    file gets 0600 (the umask is taken to leave that alone). *)
Definition persist (e : key_env) (p : list Z) (k : K) (s : key_store) : key_store :=
  if ke_open_w e then
    let mode := match ks_files s !! p with Some (_, m) => m | None => 0x180 end in
    let s1 := opened (stored s p ([], mode)) 1 in
    if ke_fdopen e then opened (stored s1 p (take (ke_written e) (pem_write k), mode)) (-1)
    else opened s1 (-1)
  else s.

Definition acme_pkey_load_or_create (e : key_env) (path : option (list Z)) (s : key_store) : option K * key_store :=
  match read_key e path s with
  | (Some k, s1) => (Some k, s1)
  | (None, s1) =>
      match generate e s1 with
      | (None, s2) => (None, s2)
      | (Some k, s2) => (Some k, match path with Some p => persist e p k s2 | None => s2 end)
      end
  end.

(** [portico_acme_key_load_or_create]: the account key's handle. *)
Definition portico_acme_key_load_or_create (e : key_env) (path : option (list Z)) (s : key_store) : option K * key_store :=
  match acme_pkey_load_or_create e path s with
  | (None, s1) => (None, s1)
  | (Some k, s1) => if ke_calloc e then (Some k, s1) else (None, keyed s1 (-1))
  end.

Definition portico_acme_key_free (k : option K) (s : key_store) : key_store :=
  match k with Some _ => keyed s (-1) | None => s end.

(** ** Balance *)

Lemma persist_same e p k s : ks_open (persist e p k s) = ks_open s ∧ ks_keys (persist e p k s) = ks_keys s.
Proof. unfold persist. repeat split_if; cbn; split; lia. Qed.

Lemma load_balance e path s k s' :
  acme_pkey_load_or_create e path s = (k, s') → ks_open s' = ks_open s ∧ ks_keys s' = ks_keys s + one k.
Proof.
  unfold acme_pkey_load_or_create.
  assert (HR : ks_open (read_key e path s).2 = ks_open s ∧ ks_keys (read_key e path s).2 = ks_keys s + one (read_key e path s).1).
  { unfold read_key. destruct path as [p | ]; [ | cbn; lia]. destruct (ks_files s !! p) as [[c m] | ]; [ | cbn; lia].
    split_if; cbn; lia. }
  destruct (read_key e path s) as [[k1 | ] s1]; cbn [fst snd one] in HR; [by intros [= <- <-] |].
  assert (HG : ks_open (generate e s1).2 = ks_open s1 ∧ ks_keys (generate e s1).2 = ks_keys s1 + one (generate e s1).1).
  { unfold generate. split_if; cbn; lia. }
  destruct (generate e s1) as [[k2 | ] s2]; cbn [fst snd one] in HG; intros [= <- <-]; cbn [one]; [ | lia].
  destruct path as [p | ]; [destruct (persist_same e p k2 s2); lia | lia].
Qed.

(** ** The key that is found again *)

(** The path is written and the whole text reaches the file. *)
Definition writes (e : key_env) (k : K) : Prop := ke_open_w e = true ∧ ke_fdopen e = true ∧ (length (pem_write k) <= ke_written e)%nat.

Lemma persist_files e p k s :
  ks_files (persist e p k s) =
  if ke_open_w e
  then <[p := (if ke_fdopen e then take (ke_written e) (pem_write k) else [], match ks_files s !! p with Some (_, m) => m | None => 0x180 end)]> (ks_files s)
  else ks_files s.
Proof. unfold persist. destruct (ke_open_w e); [ | done]. destruct (ke_fdopen e); cbn; by rewrite ?insert_insert_eq. Qed.

Lemma generate_files e s : ks_files (generate e s).2 = ks_files s ∧ ∀ k, (generate e s).1 = Some k → ke_gen e = Some k.
Proof. unfold generate. repeat split_if; cbn; by split. Qed.

(** A key comes from the file, which stays as it is, or was generated and written. *)
Lemma load_files e p s k s' :
  acme_pkey_load_or_create e (Some p) s = (Some k, s') →
  (∃ c m, ks_files s !! p = Some (c, m) ∧ pem_read c = Some k ∧ ks_files s' = ks_files s) ∨
  (ke_gen e = Some k ∧ ∃ s2, ks_files s2 = ks_files s ∧ s' = persist e p k s2).
Proof.
  unfold acme_pkey_load_or_create.
  assert (HR : ks_files (read_key e (Some p) s).2 = ks_files s ∧
    ∀ k, (read_key e (Some p) s).1 = Some k → ∃ c m, ks_files s !! p = Some (c, m) ∧ pem_read c = Some k).
  { unfold read_key. destruct (ks_files s !! p) as [[c m] | ]; [ | done]. split_if; cbn; [ | done]. split; [done |]. intros. by exists c, m. }
  destruct HR as [HR1 HR2]. destruct (read_key e (Some p) s) as [[k1 | ] s1]; cbn [fst snd] in *.
  - intros [= -> <-]. left. destruct (HR2 k eq_refl) as (c & m & ? & ?). by exists c, m.
  - destruct (generate_files e s1) as [HG1 HG2]. destruct (generate e s1) as [[k2 | ] s2]; [ | done]. cbn [fst snd] in *.
    intros [= -> <-]. right. split; [by apply HG2 |]. exists s2. split; [congruence | done].
Qed.

(** A key lasts: with PEM coding that round-trips, a key that was loaded or generated
    and completely written is the one every later load finds, whatever else that load
    meets, and that load changes no file; a new file is readable by its owner only; no
    other file is touched; and every descriptor and key context is given back. *)
Theorem key_lasts e1 e2 p s k s1 :
  (∀ k, pem_read (pem_write k) = Some k) →
  acme_pkey_load_or_create e1 (Some p) s = (Some k, s1) → writes e1 k → ke_open_r e2 = true →
  (∃ s2, acme_pkey_load_or_create e2 (Some p) s1 = (Some k, s2) ∧ ks_files s2 = ks_files s1 ∧
         ks_open s2 = ks_open s ∧ ks_keys s2 = ks_keys s + 2) ∧
  (∀ q, q ≠ p → ks_files s1 !! q = ks_files s !! q) ∧
  (ks_files s !! p = None → ks_files s1 !! p = Some (pem_write k, 0x180)).
Proof.
  intros Hrt H1 (Hw & Hf & Hl) Hr. destruct (load_balance _ _ _ _ _ H1) as [B1 B2]. cbn [one] in B2.
  assert (HF : ∃ c m, ks_files s1 !! p = Some (c, m) ∧ pem_read c = Some k ∧ (∀ q, q ≠ p → ks_files s1 !! q = ks_files s !! q) ∧
    (ks_files s !! p = None → (c, m) = (pem_write k, 0x180))).
  { apply load_files in H1 as [(c & m & E1 & E2 & E3) | (_ & s2 & E2 & ->)].
    - exists c, m. rewrite E3. split_and!; try done. by rewrite E1.
    - rewrite persist_files, Hw, Hf, take_ge, E2 by done. eexists _, _. rewrite lookup_insert_eq. split; [done |]. split; [done |].
      split; [intros q Hq; by rewrite lookup_insert_ne | by intros ->]. }
  destruct HF as (c & m & F1 & F2 & F3 & F4). split; [ | split; [done | intros Hn; by rewrite F1, F4]].
  eexists. unfold acme_pkey_load_or_create, read_key. rewrite F1, Hr, F2. split; [done |]. cbn. split_and!; [done | lia | lia].
Qed.

(** When no key can be had, nothing was changed. *)
Lemma no_key_no_change e path s s' :
  acme_pkey_load_or_create e path s = (None, s') → s' = s.
Proof.
  unfold acme_pkey_load_or_create.
  assert (HR : (read_key e path s).1 = None → (read_key e path s).2 = s).
  { unfold read_key. destruct path as [p | ]; [ | done]. destruct (ks_files s !! p) as [[c m] | ]; [ | done]. split_if; [ | done].
    cbn. intros ->. destruct s. unfold keyed, opened. cbn. f_equal; lia. }
  destruct (read_key e path s) as [[k1 | ] s1]; [done |]. cbn in HR. rewrite HR by done.
  assert (HG : (generate e s).1 = None → (generate e s).2 = s).
  { unfold generate. split_if; [done |]. cbn. intros ->. destruct s. unfold keyed. cbn. f_equal; lia. }
  destruct (generate e s) as [[k2 | ] s2]; [done |]. cbn in HG. intros [= <-]. by apply HG.
Qed.

(** The account key's handle owns the key, and freeing it gives it back. *)
Lemma account_key_balance e path s k s' :
  portico_acme_key_load_or_create e path s = (k, s') → ks_keys (portico_acme_key_free k s') = ks_keys s ∧ ks_open s' = ks_open s.
Proof.
  unfold portico_acme_key_load_or_create. destruct (acme_pkey_load_or_create e path s) as [[k1 | ] s1] eqn:E;
    apply load_balance in E as [E1 E2]; cbn [one] in E2; [split_if |]; intros [= <- <-]; cbn; lia.
Qed.
End Keys.

(** ** Keys as numbers, PEM as one line *)

Definition demo_read (c : list Z) : option Z := match c with [45; k; 45] => Some k | _ => None end.
Definition demo_write (k : Z) : list Z := [45; k; 45].
Definition demo_kenv (open_r : bool) (k : Z) (open_w : bool) : key_env := mk_kenv open_r true true true (Some k) open_w true 3 true.

Lemma key_lasts_witness :
  let s := mk_store {[bs "a.key" := (bs "x", 0x1A4)]} 0 0 in
  ∃ s2, acme_pkey_load_or_create demo_read demo_write (demo_kenv true 8 true) (Some (bs "b.key"))
          (acme_pkey_load_or_create demo_read demo_write (demo_kenv true 7 true) (Some (bs "b.key")) s).2 = (Some 7, s2) ∧ ks_keys s2 = 2.
Proof.
  cbv zeta. destruct (acme_pkey_load_or_create demo_read demo_write (demo_kenv true 7 true) (Some (bs "b.key")) _) as [k s1] eqn:E.
  assert (Ek : k = Some 7) by (apply (f_equal fst) in E; vm_compute in E; congruence). subst k.
  destruct (key_lasts demo_read demo_write (demo_kenv true 7 true) (demo_kenv true 8 true) (bs "b.key") _ 7 s1 (λ k, eq_refl) E) as ((s2 & H1 & _ & _ & H2) & _).
  - split_and!; [done | done | cbn; lia].
  - done.
  - exists s2. split; [exact H1 | exact H2].
Defined.

(** A key file that cannot be opened for reading at one start, say because descriptors ran
    out, is overwritten with a new key: the account is lost. *)
Example unreadable_key_replaced :
  let s := mk_store {[bs "b.key" := (demo_write 7, 0x180)]} 0 0 in
  let '(k, s1) := acme_pkey_load_or_create demo_read demo_write (demo_kenv false 8 true) (Some (bs "b.key")) s in
  (k, ks_files s1 !! bs "b.key") = (Some 8, Some (demo_write 8, 0x180)).
Proof. vm_compute. reflexivity. Qed.

(** A key that could not be written is returned all the same; the next start has another. *)
Example unwritten_key_used :
  let s := mk_store ∅ 0 0 in
  let '(k, s1) := acme_pkey_load_or_create demo_read demo_write (demo_kenv true 7 false) (Some (bs "b.key")) s in
  let '(k2, _) := acme_pkey_load_or_create demo_read demo_write (demo_kenv true 8 true) (Some (bs "b.key")) s1 in
  (k, k2) = (Some 7, Some 8).
Proof. vm_compute. reflexivity. Qed.

(** An existing file keeps its permissions, here readable by all. *)
Example permissions_kept :
  let s := mk_store {[bs "b.key" := (bs "junk", 0x1A4)]} 0 0 in
  let '(_, s1) := acme_pkey_load_or_create demo_read demo_write (demo_kenv true 7 true) (Some (bs "b.key")) s in
  ks_files s1 !! bs "b.key" = Some (demo_write 7, 0x1A4).
Proof. vm_compute. reflexivity. Qed.
