(* ===== verification/HttpExample.v ===== *)
(** * The servers of both protocols (src/examples/http_server.c, stress_server.c)

    Hand-written request handlers: virtual hosts, a few fixed routes, static files, and the
    settings they take from environment variables.  The handlers are further
    implementations of the contract the connection layer relies on (Site). *)
From Stdlib Require Import ZArith Lia.
From stdpp Require Import base numbers list strings.
From S2P Require Import Prelude Cstr Sys OutBuf Conn WsHandler HttpRequest HttpResponse Handshake HttpConn HttpServe HttpStatic StaticSpec Site Ident Thread ThreadInv ThreadSpec Server Tls Config AcmeHttp AcmeClient AcmeManager.
Open Scope Z_scope.

(** ** Requests *)

(** The globals the handler reads. *)
Record example_site := mk_example { g_static_root : option (list Z); g_static : static_opts; g_vhosts : list vhost }.

(** [on_accept]: the address is refused, or not. *)
Definition example_on_accept (client_ip : list Z) (deny_ip : option (list Z)) : Z :=
  match deny_ip with
  | Some d => if bool_decide (c_string client_ip = c_string d) then -1 else 0
  | None => 0
  end.

(** The answer to GET /echo: [snprintf] into [char buf[1024]] returns the length the text
    would have had, and that many bytes are sent from [buf]; [stack] is what lies behind. *)
Definition echo_query (stack : list Z) (query : option (list Z)) : list Z :=
  let text := bs "query=" ++ c_string (default [] query) ++ [10] in
  let buf := if zlen text <? 1024 then text ++ [0] else ztake 1023 text ++ [0] in
  ztake (zlen text) (buf ++ stack).

(** [on_http]; [ok]: memory for the body is available. *)
Definition on_http (F : fs_env) (ok : bool) (stack : list Z) (x : example_site) (w : fsw) (req : request) (res : response)
    : Z * response * fsw :=
  let get := portico_req_method_is req (bs "GET") in
  let at_ p := portico_req_path_is req p in
  if negb (bool_decide (g_vhosts x = [])) && get then
    let '(_, r, w1) := portico_res_vhost F ok w res req (g_vhosts x) in (0, r, w1)
  else if get && at_ (bs "/ip") then (0, portico_res_text ok res 200 (client_ip req), w)
  else if bool_decide (g_static_root x = None) && get && at_ (bs "/") then
    (0, portico_res_text ok res 200 (bs "portico http+ws server" ++ [10]), w)
  else if get && at_ (bs "/health") then
    (0, portico_res_json ok res ([123; 34] ++ bs "status" ++ [34; 58; 34] ++ bs "ok" ++ [34; 125]), w)
  else if at_ (bs "/echo") then
    if portico_req_method_is req (bs "POST") then
      (0, portico_res_body ok res (body req) (Some (bs "application/octet-stream")), w)
    else if get then (0, portico_res_body ok res (echo_query stack (query req)) (Some (bs "text/plain")), w)
    else (0, portico_res_header (portico_res_status res 405) (bs "Allow") (bs "GET, POST"), w)
  else if negb (bool_decide (g_static_root x = None)) && (get || portico_req_method_is req (bs "HEAD")) then
    let '(_, r, w1) := portico_res_static F ok w res req (g_static x) in (0, r, w1)
  else (0, portico_res_text ok res 404 (bs "not found" ++ [10]), w).

(** [on_http] of stress_server.c. *)
Definition stress_on_http (ok : bool) (req : request) (res : response) : Z * response :=
  if portico_req_method_is req (bs "GET") && portico_req_path_is req (bs "/health") then
    (0, portico_res_json ok res ([123; 34] ++ bs "status" ++ [34; 58; 34] ++ bs "ok" ++ [34; 125]))
  else if portico_req_method_is req (bs "POST") && portico_req_path_is req (bs "/echo") then
    (0, portico_res_body ok res (body req) (Some (bs "application/octet-stream")))
  else (0, portico_res_text ok res 404 (bs "not found" ++ [10])).

(** ** Settings *)

(** [strtok] over the whole string: the maximal runs without the delimiter.  [cur] is the
    run read so far. *)
Fixpoint strtok (d : Z) (cur : list Z) (s : list Z) : list (list Z) :=
  match s with
  | [] => match cur with [] => [] | _ => [cur] end
  | c :: t => if c =? d then match cur with [] => strtok d [] t | _ => cur :: strtok d [] t end else strtok d (cur ++ [c]) t
  end.

(** One entry of TLS_SNI, "host:cert:key". *)
Definition sni_of (e : list Z) : option sni_cert :=
  match split_at 58 e with
  | (h, Some rest) => match split_at 58 rest with (c, Some k) => Some (mk_sni h c k) | (_, None) => None end
  | (_, None) => None
  end.
Definition parse_sni (env : list Z) : list sni_cert := take 16 (omap sni_of (strtok 59 [] env)).

(** One entry of VHOSTS, "host:docroot". *)
Definition vhost_of_entry (e : list Z) : option vhost :=
  match split_at 58 e with
  | (h, Some dr) => Some (mk_vhost (Some h) (mk_opts dr None None false None None false))
  | (_, None) => None
  end.
Definition parse_vhosts (env : list Z) : list vhost := take 16 (omap vhost_of_entry (strtok 59 [] env)).

(** [acme_maybe_start] up to the manager: nothing without ACME_DOMAINS.  The CA file is
    part of the manager's transport. *)
Definition acme_settings (getenv : list Z → option (list Z)) : option manager_config :=
  match getenv (bs "ACME_DOMAINS") with
  | None | Some [] => None
  | Some ad =>
      let or_default k d := default d (getenv k) in
      let number k d := match getenv k with Some v => atoi v | None => d end in
      Some (mk_mconf
        (mk_aconf (Some (or_default (bs "ACME_DIRECTORY") (bs "https://acme-staging-v02.api.letsencrypt.org/directory")))
                  (Some (or_default (bs "ACME_ACCOUNT_KEY") (bs "acme-account.key"))) (getenv (bs "ACME_EMAIL")))
        (ztake 511 (or_default (bs "ACME_CERT") (bs "acme-cert.pem"))) (ztake 511 (or_default (bs "ACME_CERT_KEY") (bs "acme-cert.key")))
        (take 16 (strtok 44 [] (ztake 1023 ad))) (number (bs "ACME_RENEW_DAYS") 30) (number (bs "ACME_CHECK_INTERVAL") 0))
  end.

(** The part of [ws_config_t] that [main] fills. *)
Definition example_config (getenv : list Z → option (list Z)) : ws_config :=
  let number k d := match getenv k with Some ((_ :: _) as v) => atoi v | _ => d end in
  mk_wscfg (u16 (number (bs "PORT") 8080)) None 4 10000 0 (1024 * 1024) 0 (u32 (number (bs "HANDSHAKE_TIMEOUT") 0))
    (u32 (number (bs "PING_INTERVAL") 0)) (u32 (number (bs "PONG_TIMEOUT") 0)) 1024 512 128 true true 512.

(** [env_int] and the [ws_config_t] of stress_server.c; [cpus] is what [sysconf] answers. *)
Definition env_int (getenv : list Z → option (list Z)) (name : list Z) (dflt : Z) : Z :=
  match getenv name with Some ((_ :: _) as v) => atoi v | _ => dflt end.
Definition stress_config (cpus : Z) (getenv : list Z → option (list Z)) : ws_config :=
  let cpus := if cpus <? 1 then 4 else cpus in
  let cpus := if 64 <? cpus then 64 else cpus in
  mk_wscfg (u16 (env_int getenv (bs "PORT") 8090)) None (u32 (env_int getenv (bs "THREADS") cpus))
    (u32 (env_int getenv (bs "MAX_CONNS") 200000)) 0 (u64 (env_int getenv (bs "MSG_SIZE") (16 * 1024 * 1024))) 0 0 0 0
    (u32 (env_int getenv (bs "SMALL") 4096)) (u32 (env_int getenv (bs "MEDIUM") 2048)) (u32 (env_int getenv (bs "LARGE") 512)) true true 1024.

(** ** The handler contract *)

Section Handler.
Context (F : fs_env) `{!SaneSizes F}.

Lemma text_ok ok r st t : is_file r = false → res_ok r → let r' := portico_res_text ok r st t in res_ok r' ∧ is_file r' = false.
Proof.
  intros Hf Hok. unfold portico_res_text. split; [by apply res_body_ok |]. unfold portico_res_body. destruct ok; [ | done]. cbn [negb]. by split_if.
Qed.

Lemma body_ok ok r d ct : is_file r = false → res_ok r → let r' := portico_res_body ok r d ct in res_ok r' ∧ is_file r' = false.
Proof.
  intros Hf Hok. split; [by apply res_body_ok |]. unfold portico_res_body. destruct ok; [ | done]. cbn [negb]. destruct ct; [ | done]. by split_if.
Qed.

Lemma on_http_ok ok stack x req r :
  is_file r = false → res_ok r →
  let '(_, r', _) := on_http F ok stack x (mk_fsw [] []) req r in
  res_ok r' ∧ (is_file r' = true → 0 <= file_offset r' ∧ 0 <= file_size r').
Proof.
  intros Hf Hok. unfold on_http.
  assert (HN : ∀ r', res_ok r' ∧ is_file r' = false → res_ok r' ∧ (is_file r' = true → 0 <= file_offset r' ∧ 0 <= file_size r'))
    by (intros r' [? ?]; split; [done | congruence]).
  assert (HS : ∀ opts rc r' w', portico_res_static F ok (mk_fsw [] []) r req opts = (rc, r', w') →
    res_ok r' ∧ (is_file r' = true → 0 <= file_offset r' ∧ 0 <= file_size r')) by (intros; by eapply res_static_ok).
  destruct (negb _ && portico_req_method_is req (bs "GET")).
  { destruct (portico_res_vhost _ _ _ _ _ _) as [[rc r'] w'] eqn:EV. unfold portico_res_vhost in EV.
    destruct (find_vhost _ _ _); [by eapply HS |]. inversion EV; subst. by apply HN. }
  repeat (split_if; [by apply HN; first [apply text_ok | apply body_ok] |]).
  split_if; [by repeat (split_if; [by apply HN; apply body_ok |]); apply HN; split; [by apply res_header_ok |] |].
  split_if; [ | by apply HN, text_ok]. destruct (portico_res_static _ _ _ _ _ _) as [[rc r'] w'] eqn:ES. by eapply HS.
Qed.

(** The handler as the connection layer calls it; the site and the stack do not matter. *)
Definition example_handler (stack : list Z) (x : example_site) (L : list request) (req : request) (res : response) : Z * response :=
  let '(rc, r, _) := on_http F true stack x (mk_fsw [] []) req res in (rc, r).

#[export] Instance example_http_handler stack x : HttpHandler (example_handler stack x).
Proof.
  intros L req ka. unfold example_handler. pose proof (on_http_ok true stack x req (res_init ka) eq_refl (res_init_ok ka)) as H.
  by destruct (on_http F true stack x (mk_fsw [] []) req (res_init ka)) as [[rc r] w].
Qed.
End Handler.

(** The benchmark server's handler. *)
Definition stress_handler (L : list request) : request → response → Z * response := stress_on_http true.
#[export] Instance stress_http_handler : HttpHandler stress_handler.
Proof.
  intros L req ka. unfold stress_handler, stress_on_http.
  assert (HN : ∀ r', res_ok r' ∧ is_file r' = false → res_ok r' ∧ (is_file r' = true → 0 <= file_offset r' ∧ 0 <= file_size r'))
    by (intros r' [? ?]; split; [done | congruence]).
  repeat split_if; apply HN; cbn [snd]; first [apply text_ok | apply body_ok]; first [done | apply res_init_ok].
Qed.

(** A connection to a server whose handler keeps the contract answers its requests in
    order. *)
Lemma handler_served_in_order E h `{!HttpHandler h} file_data FR i w :
  phr_contract (e_phr E) → pread_ok E file_data → e_on_http_request E = Some h →
  hrun E h file_data FR i w → served E h file_data FR i w.
Proof.
  intros H1 H2 H3. apply http_pipeline_in_order_core. split; [done |]. split; [done |].
  split; [apply http_handler_ok | done].
Qed.

(** The benchmark server and the example server. *)
Corollary stress_served_in_order E file_data FR i w :
  phr_contract (e_phr E) → pread_ok E file_data → e_on_http_request E = Some stress_handler →
  hrun E stress_handler file_data FR i w → served E stress_handler file_data FR i w.
Proof. apply handler_served_in_order. apply _. Qed.

Corollary example_served_in_order E F stack x file_data FR i w :
  (∀ fd st, fs_stat F fd = Some st → 0 <= st_size st) →
  phr_contract (e_phr E) → pread_ok E file_data → e_on_http_request E = Some (example_handler F stack x) →
  hrun E (example_handler F stack x) file_data FR i w → served E (example_handler F stack x) file_data FR i w.
Proof. intros Hs. assert (SaneSizes F) as HS by exact Hs. apply handler_served_in_order. apply _. Qed.

(** ** Echo *)

(** A query that fits is echoed exactly. *)
Lemma echo_query_fits stack q :
  zlen (c_string q) <= 1016 → echo_query stack (Some q) = bs "query=" ++ c_string q ++ [10].
Proof.
  intros Hl. unfold echo_query. cbn [default]. change (id q) with q.
  assert (HL : zlen (bs "query=" ++ c_string q ++ [10]) = zlen (c_string q) + 7) by (rewrite !zlen_app; change (zlen (bs "query=")) with 6; change (zlen [10]) with 1; lia).
  rewrite HL, (proj2 (Z.ltb_lt _ _)) by lia. rewrite <- (app_assoc _ [0] stack), <- HL. apply ztake_app_exact.
Qed.

(** A longer one brings as many bytes of the stack as it is too long. *)
Lemma echo_query_overreads stack q :
  1017 <= zlen (c_string q) → zdrop 1024 (echo_query stack (Some q)) = ztake (zlen (c_string q) - 1017) stack.
Proof.
  intros Hl. unfold echo_query. cbn [default]. change (id q) with q. set (text := bs "query=" ++ c_string q ++ [10]).
  assert (HL : zlen text = zlen (c_string q) + 7) by (unfold text; rewrite !zlen_app; change (zlen (bs "query=")) with 6; change (zlen [10]) with 1; lia).
  clearbody text. rewrite (proj2 (Z.ltb_ge _ _)) by lia. set (buf := ztake 1023 text ++ [0]).
  assert (HB : zlen buf = 1024) by (unfold buf; rewrite zlen_app, zlen_ztake by lia; done). clearbody buf.
  rewrite <- HB. unfold ztake, zdrop, zlen in *. rewrite take_app_ge by lia. rewrite drop_app_length' by lia. f_equal. lia.
Qed.

(** ** Settings read back what was written *)

(** [sep.join(l)]. *)
Fixpoint join (d : Z) (l : list (list Z)) : list Z :=
  match l with [] => [] | [x] => x | x :: r => x ++ d :: join d r end.

Lemma strtok_run d cur x t : d ∉ x → strtok d cur (x ++ t) = strtok d (cur ++ x) t.
Proof.
  revert cur. induction x as [ | c x IH]; intros cur Hd; [by rewrite app_nil_r |]. apply not_elem_of_cons in Hd as [Hc Hd].
  cbn. rewrite (proj2 (Z.eqb_neq c d)) by done. rewrite IH by done. by rewrite <- app_assoc.
Qed.

Lemma strtok_join d l : Forall (λ x, (x ≠ []) ∧ (d ∉ x)) l → strtok d [] (join d l) = l.
Proof.
  induction l as [ | x [ | y l] IH]; intros HF; [done | |]; apply Forall_cons in HF as [[Hx Hd] HF].
  - cbn [join]. rewrite <- (app_nil_r x) at 1. rewrite strtok_run by done. cbn. by destruct x.
  - change (join d (x :: y :: l)) with (x ++ d :: join d (y :: l)). rewrite strtok_run by done. cbn [strtok app]. rewrite Z.eqb_refl.
    destruct x; [done |]. by rewrite IH.
Qed.

Lemma split_at_first c x t : c ∉ x → split_at c (x ++ c :: t) = (x, Some t).
Proof.
  induction x as [ | a x IH]; intros Hc; cbn; [by rewrite Z.eqb_refl |]. apply not_elem_of_cons in Hc as [Ha Hc].
  rewrite (proj2 (Z.eqb_neq a c)) by done. by rewrite IH.
Qed.

(** An entry of TLS_SNI as text. *)
Definition sni_text (c : sni_cert) : list Z := sc_host c ++ 58 :: sc_cert c ++ 58 :: sc_key c.
Definition sni_clean (c : sni_cert) : Prop := (58 ∉ sc_host c) ∧ (58 ∉ sc_cert c) ∧ (59 ∉ sni_text c).

(** The TLS_SNI variable round-trips: up to sixteen certificates written as
    "host:cert:key" and joined with semicolons are read back as they were, with colons
    allowed in the key's path; of more, the first sixteen are read. *)
Theorem parse_sni_roundtrip l : Forall sni_clean l → parse_sni (join 59 (sni_text <$> l)) = take 16 l.
Proof.
  intros HF. unfold parse_sni. f_equal. rewrite strtok_join.
  - induction HF as [ | [h c k] l (H1 & H2 & _) HF IH]; [done |]. cbn [fmap list_fmap omap list_omap]. unfold sni_of, sni_text. cbn [sc_host sc_cert sc_key] in *.
    rewrite !split_at_first by done. f_equal. exact IH.
  - apply Forall_fmap. eapply Forall_impl; [exact HF |]. intros [h c k] (_ & _ & H). split; [ | done]. unfold sni_text. cbn. by destruct h.
Qed.

(** The same for VHOSTS. *)
Lemma parse_vhosts_roundtrip (l : list (list Z * list Z)) :
  Forall (λ x, (58 ∉ x.1) ∧ (59 ∉ x.1 ++ 58 :: x.2)) l →
  (λ v, (vh_host v, o_docroot (vh_opts v))) <$> parse_vhosts (join 59 ((λ x, x.1 ++ 58 :: x.2) <$> l)) = (λ x, (Some x.1, x.2)) <$> take 16 l.
Proof.
  intros HF. unfold parse_vhosts. rewrite fmap_take, strtok_join, fmap_take.
  - f_equal. induction HF as [ | [h d] l (H1 & _) HF IH]; [done |]. cbn [fmap list_fmap omap list_omap fst snd]. unfold vhost_of_entry.
    rewrite split_at_first by done. exact (f_equal (cons _) IH).
  - apply Forall_fmap. eapply Forall_impl; [exact HF |]. intros [h d] [_ H]. split; [ | done]. cbn. by destruct h.
Qed.

Definition demo_certs : list sni_cert := [mk_sni (bs "a.test") (bs "a.pem") (bs "c:/a.key"); mk_sni (bs "*.b.test") (bs "b.pem") (bs "b.key")].
Lemma parse_sni_roundtrip_witness : parse_sni (bs "a.test:a.pem:c:/a.key;*.b.test:b.pem:b.key") = demo_certs.
Proof.
  assert (H : Forall sni_clean demo_certs) by (repeat (apply Forall_cons; split); [.. | by apply Forall_nil]; split_and!; solve_not_in).
  exact (parse_sni_roundtrip demo_certs H).
Defined.

(** An entry without its key path is skipped, empty entries are too. *)
Example parse_sni_skips : parse_sni (bs ";;a.test:a.pem;;b.test:b.pem:b.key;") = [mk_sni (bs "b.test") (bs "b.pem") (bs "b.key")].
Proof. vm_compute. reflexivity. Qed.

(** A port beyond 65535 wraps. *)
Example port_wraps : wc_port (example_config (λ k, if decide (k = bs "PORT") then Some (bs "65616") else None)) = 80.
Proof. vm_compute. reflexivity. Qed.

(** The benchmark server bounds its own choice of threads, not the variable's. *)
Example stress_threads :
  wc_thread_count (stress_config 128 (λ _, None)) = 64 ∧ wc_thread_count (stress_config (-1) (λ _, None)) = 4 ∧
  wc_thread_count (stress_config 8 (λ k, if decide (k = bs "THREADS") then Some (bs "-1") else None)) = 2 ^ 32 - 1.
Proof. by vm_compute. Qed.

(** GET /echo with a query of 1020 bytes sends three bytes of the stack. *)
Example echo_sends_stack : zdrop 1024 (echo_query [1; 2; 3; 4; 5] (Some (replicate 1020 65))) = [1; 2; 3].
Proof. vm_compute. reflexivity. Qed.

(** The deny list of one address. *)
Example denied : example_on_accept (bs "10.0.0.9") (Some (bs "10.0.0.9")) = -1 ∧ example_on_accept (bs "10.0.0.8") (Some (bs "10.0.0.9")) = 0.
Proof. by vm_compute. Qed.
