(* ===== verification/Standalone.v ===== *)
(** * The standalone server (src/examples/portico_server.c, src/src/config/portico_router.c)

    The program that puts the parts together: a configuration is loaded ([Config]), the ACME
    manager is started from it ([AcmeManager]), the server is created with its certificates
    ([Tls]), requests are routed by a table that borrows the configuration's sites
    ([HttpStatic]), SIGHUP loads another configuration and swaps the table, SIGTERM ends.

    Here the memory is explicit: a routing table is an allocated block that points to the
    sites of an allocated configuration, handlers on other threads keep the table they
    loaded, and what is freed while a handler uses it is visible.  Tables and configurations
    are numbered in the order of their allocation. *)
From Stdlib Require Import ZArith Lia.
From stdpp Require Import base numbers list gmap strings.
From S2P Require Import Prelude Cstr HttpRequest HttpResponse HttpStatic Tls Config AcmeClient AcmeManager.
Open Scope Z_scope.

Section Standalone.
Context {C : Type}.

(** The globals of portico_server.c and the router: the configurations and the tables
    allocated, the table's pointer being the number of a configuration. *)
Record app := mk_app {
  ap_configs : gmap nat portico_config; ap_fresh : nat;
  g_initial : nat; g_cur : option nat; g_prev : option nat;
  rt_tables : gmap nat nat; rt_fresh : nat;
  rt_current : option nat; rt_retired : option nat;
  ap_tls : option (tls_server C)
}.

Definition with_router (a : app) tb n c r := mk_app (ap_configs a) (ap_fresh a) (g_initial a) (g_cur a) (g_prev a) tb n c r (ap_tls a).
Definition with_configs (a : app) cs n cur prev := mk_app cs n (g_initial a) cur prev (rt_tables a) (rt_fresh a) (rt_current a) (rt_retired a) (ap_tls a).
Definition with_tls (a : app) t := mk_app (ap_configs a) (ap_fresh a) (g_initial a) (g_cur a) (g_prev a) (rt_tables a) (rt_fresh a) (rt_current a) (rt_retired a) t.

(** [free] of a pointer that may be NULL. *)
Definition free_opt {A} (p : option nat) (h : gmap nat A) : gmap nat A := match p with Some i => delete i h | None => h end.

(** ** The router *)

(** [portico_router_set] with the sites of configuration [c]. *)
Definition portico_router_set (malloc_ok : bool) (a : app) (c : nat) : app :=
  if malloc_ok
  then with_router a (free_opt (rt_retired a) (<[rt_fresh a := c]> (rt_tables a))) (S (rt_fresh a)) (Some (rt_fresh a)) (rt_current a)
  else a.

(** The sites a handler reads through table [t]; [None]: freed memory. *)
Definition table_sites (a : app) (t : nat) : option (list site) :=
  c ← rt_tables a !! t; cf_vhosts <$> ap_configs a !! c.

(** A site as the response code reads it; a document root that could not be copied is NULL. *)
Definition vhost_of (s : site) : option vhost :=
  d ← si_docroot s;
  Some (mk_vhost (si_host s) (mk_opts d (si_url_prefix s) (si_index s) (si_precompressed s) (si_cache_control s) (si_spa_fallback s) (si_dir_redirect s))).

(** [portico_router_handle] for a handler that loaded [t]. *)
Definition router_handle (F : fs_env) (ok : bool) (w : fsw) (a : app) (t : option nat) (req : request) (res : response)
    : option (Z * response * fsw) :=
  match t with
  | None => Some (portico_router_handle F ok w (mk_router None None) req res)
  | Some t => sites ← table_sites a t; vs ← mapM vhost_of sites; Some (portico_router_handle F ok w (mk_router (Some vs) None) req res)
  end.

Definition portico_router_destroy (a : app) : app :=
  with_router a (free_opt (rt_retired a) (free_opt (rt_current a) (rt_tables a))) (rt_fresh a) None None.

(** ** Reloading *)

(** What the calls of one reload meet: the file system and the document, the allocation of
    the table, and for each certificate what OpenSSL loads and which allocations succeed. *)
Record reload_env := mk_renv {
  re_env : cfg_env; re_doc : option (option json); re_table : bool;
  re_load : list Z → list Z → option C; re_mem : nat → bool; re_add : add_mem
}.

(** [ws_server_add_sni_cert] with the checks of its public wrapper (wslib.c). *)
Definition add_sni (e : reload_env) (t : tls_server C) (s : sni_entry) : Z * tls_server C :=
  match se_host s, se_cert s, se_key s with
  | Some h, Some c, Some k => Tls.ws_server_add_sni_cert (re_load e) (re_mem e) (re_add e) t (mk_sni h c k)
  | _, _, _ => (-1, t)
  end.

(** The loop of [apply_config] over the certificates: what each call answers. *)
Fixpoint install_certs (e : reload_env) (t : tls_server C) (l : list sni_entry) : list Z * tls_server C :=
  match l with
  | [] => ([], t)
  | s :: r => let '(rc, t1) := add_sni e t s in let '(rcs, t2) := install_certs e t1 r in (rc :: rcs, t2)
  end.

(** [apply_config] with configuration [c], already in memory. *)
Definition apply_config (e : reload_env) (a : app) (c : nat) : app :=
  let a1 := portico_router_set (re_table e) a c in
  match ap_configs a !! c, ap_tls a1 with
  | Some cf, Some t => with_tls a1 (Some (install_certs e t (cf_sni cf)).2)
  | _, _ => a1
  end.

(** [do_reload]: the error, or nothing. *)
Definition do_reload (e : reload_env) (a : app) : option cfg_error * app :=
  match portico_config_load (re_env e) (re_doc e) with
  | inl err => (Some err, a)
  | inr nc =>
      let c := ap_fresh a in
      let a1 := with_configs a (<[c := nc]> (ap_configs a)) (S c) (g_cur a) (g_prev a) in
      let a2 := apply_config e a1 c in
      (None, with_configs a2 (free_opt (g_prev a2) (ap_configs a2)) (ap_fresh a2) (Some c) (g_cur a2))
  end.

(** ** Start and end *)

(** The certificate paths of [start_acme]: [snprintf] into 512 bytes. *)
Definition cert_path (dir name : list Z) : list Z := ztake 511 (dir ++ name).

(** [start_acme] up to the manager: the configuration it passes, or the refusal when no
    site has a host name.  The CA file is part of the manager's transport.  A domain that
    could not be copied is NULL, which the manager dereferences: no configuration then. *)
Definition acme_manager_config (cf : portico_config) : option manager_config :=
  let a := cf_acme cf in
  let dir := default (bs "(null)") (ac_cert_dir a) in
  match mapM id (cf_domains cf) with
  | None | Some [] => None
  | Some domains =>
      Some (mk_mconf (mk_aconf (ac_directory a) (ac_account_key a) (ac_email a))
              (cert_path dir (bs "/cert.pem")) (cert_path dir (bs "/cert.key")) domains (ac_renew_days a) 0)
  end.

(** The state when [main] starts the server: the first configuration and its table.
    [tls]: what [ws_server_create] made of its certificates. *)
Definition main_start (table_ok : bool) (cf : portico_config) (tls : option (tls_server C)) : app :=
  portico_router_set table_ok (mk_app {[0%nat := cf]} 1 0 None None ∅ 0 None None tls) 0.

(** The end of [main], after the server is stopped. *)
Definition main_end (a : app) : app :=
  let a1 := portico_router_destroy a in
  with_configs a1 (delete (g_initial a1) (free_opt (g_cur a1) (free_opt (g_prev a1) (ap_configs a1)))) (ap_fresh a1) None None.

(** ** What is allocated *)

(** After [n - 1] reloads that succeeded, with every table allocated: configurations and
    tables have the same numbers, the last two tables are allocated, and so are the first
    configuration and the last two.  [L] are the configurations loaded. *)
Record app_inv (a : app) (L : list portico_config) : Prop := mk_ainv {
  ai_fresh : ap_fresh a = length L ∧ rt_fresh a = length L ∧ (0 < length L)%nat;
  ai_current : rt_current a = Some (length L - 1)%nat;
  ai_retired : rt_retired a = if decide (1 < length L)%nat then Some (length L - 2)%nat else None;
  ai_cur : g_cur a = if decide (1 < length L)%nat then Some (length L - 1)%nat else None;
  ai_prev : g_prev a = if decide (2 < length L)%nat then Some (length L - 2)%nat else None;
  ai_initial : g_initial a = 0%nat;
  ai_tables : ∀ t, rt_tables a !! t = if decide (length L <= t + 2 ∧ t < length L)%nat then Some t else None;
  ai_configs : ∀ c, ap_configs a !! c = if decide (c = 0 ∨ length L <= c + 2)%nat then L !! c else None
}.

Lemma start_inv cf tls : app_inv (main_start true cf tls) [cf].
Proof.
  constructor; try done; unfold main_start; cbn; [lia | intros t..].
  - destruct (decide (t = 0%nat)) as [-> | Ht]; [done |]. rewrite lookup_insert_ne by done. rewrite lookup_empty.
    case_decide; [lia | done].
  - destruct (decide (t = 0%nat)) as [-> | Ht]; [done |]. rewrite lookup_singleton_ne by done.
    case_decide; [ | done]. destruct t; [lia | done].
Qed.

Lemma apply_tls e a c : ∃ t, apply_config e a c = with_tls (portico_router_set (re_table e) a c) t.
Proof.
  unfold apply_config. set (a1 := portico_router_set _ _ _). assert (E : a1 = with_tls a1 (ap_tls a1)) by (by destruct a1).
  destruct (ap_configs a !! c), (ap_tls a1); eexists; first [reflexivity | exact E].
Qed.

(** A pointer freed in a heap where it is the number [n - 2]. *)
Lemma free_two {A} (h : gmap nat A) n t :
  free_opt (if decide (1 < n)%nat then Some (n - 2)%nat else None) h !! t = if decide (1 < n ∧ t = n - 2)%nat then None else h !! t.
Proof.
  destruct (decide (1 < n)%nat); cbn.
  - destruct (decide (t = n - 2)%nat) as [-> | Ht]; [rewrite lookup_delete_eq; by rewrite decide_True by lia |].
    rewrite lookup_delete_ne by done. by rewrite decide_False by lia.
  - by rewrite decide_False by lia.
Qed.

Lemma reload_inv e a L nc :
  app_inv a L → re_table e = true → portico_config_load (re_env e) (re_doc e) = inr nc →
  (do_reload e a).1 = None ∧ app_inv (do_reload e a).2 (L ++ [nc]).
Proof.
  intros [[F1 [F2 F3]] I1 I2 I3 I4 I5 I6 I7] HT HL. unfold do_reload. rewrite HL. split; [done |]. cbn [snd].
  destruct (apply_tls e (with_configs a (<[ap_fresh a := nc]> (ap_configs a)) (S (ap_fresh a)) (g_cur a) (g_prev a)) (ap_fresh a)) as [t ->].
  unfold portico_router_set. rewrite HT. assert (HN : length (L ++ [nc]) = S (length L)) by (rewrite length_app; cbn; lia).
  constructor; rewrite ?HN; cbn -[free_opt].
  - lia.
  - try (f_equal; lia).
  - rewrite I1, decide_True by lia. try (f_equal; lia).
  - rewrite F1, decide_True by lia. try (f_equal; lia).
  - rewrite I3. repeat case_decide; try lia; f_equal; lia.
  - done.
  - intros x. rewrite I2, free_two, F1, F2. destruct (decide (x = length L)) as [-> | Hx].
    + rewrite lookup_insert_eq. by rewrite decide_False, decide_True by lia.
    + rewrite lookup_insert_ne, I6 by done. repeat case_decide; try done; lia.
  - intros x. rewrite I4. destruct (decide (x = length L)) as [-> | Hx].
    + rewrite lookup_app_r, Nat.sub_diag by lia. cbn [lookup list_lookup].
      destruct (decide (2 < length L)%nat); cbn [free_opt]; [rewrite lookup_delete_ne by lia |]; rewrite F1, lookup_insert_eq;
        by rewrite decide_True by lia.
    + assert (EL : ∀ y, y ≠ length L → (if decide (y = 0 ∨ S (length L) <= y + 2)%nat then (L ++ [nc]) !! y else None) =
                       (if decide (y = 0 ∨ S (length L) <= y + 2)%nat then L !! y else None)).
      { intros y Hy. destruct (decide (y = 0 ∨ S (length L) <= y + 2)%nat); [ | done]. destruct (decide (y < length L)%nat); [by rewrite lookup_app_l |].
        rewrite (proj2 (lookup_ge_None (L ++ [nc]) y)), (proj2 (lookup_ge_None L y)) by (rewrite ?HN; lia). done. }
      rewrite EL by done. destruct (decide (2 < length L)%nat) as [H2 | H2]; cbn.
      * destruct (decide (x = length L - 2)%nat) as [-> | Hx2]; [rewrite lookup_delete_eq; by rewrite decide_False by lia |].
        rewrite lookup_delete_ne, F1, lookup_insert_ne, I7 by done. repeat case_decide; try done; lia.
      * rewrite F1, lookup_insert_ne, I7 by done. repeat case_decide; try done; lia.
Qed.

(** ** Histories *)

(** What happens while the server runs: a reload, or a handler starts. *)
Inductive app_op := AReload (e : reload_env) | AStart.

(** The state, and the tables that handlers have loaded. *)
Definition app_do (x : app * list nat) (o : app_op) : app * list nat :=
  match o with
  | AReload e => ((do_reload e x.1).2, x.2)
  | AStart => match rt_current x.1 with Some t => (x.1, t :: x.2) | None => x end
  end.

(** The configurations a history loads. *)
Definition loads (ops : list app_op) : list portico_config :=
  omap (λ o, match o with
             | AReload e => match portico_config_load (re_env e) (re_doc e) with inr c => Some c | inl _ => None end
             | AStart => None
             end) ops.
Definition tables_allocated (ops : list app_op) : Prop :=
  Forall (λ o, match o with AReload e => re_table e = true | AStart => True end) ops.

Lemma app_do_inv x o L :
  app_inv x.1 L → Forall (λ t, t < length L)%nat x.2 → tables_allocated [o] →
  app_inv (app_do x o).1 (L ++ loads [o]) ∧ Forall (λ t, t < length (L ++ loads [o]))%nat (app_do x o).2.
Proof.
  intros Hi Hf Ho. unfold loads. cbn [omap list_omap]. destruct o as [e | ].
  - apply Forall_cons in Ho as [Ho _]. cbn [app_do fst snd].
    destruct (portico_config_load (re_env e) (re_doc e)) as [err | nc] eqn:EL.
    + cbn. rewrite app_nil_r. unfold do_reload. rewrite EL. done.
    + cbn. split; [by apply reload_inv |]. eapply Forall_impl; [exact Hf |]. intros t Ht. cbn in Ht. rewrite length_app. cbn. lia.
  - rewrite app_nil_r. cbn [app_do]. rewrite (ai_current _ _ Hi). split; [done |]. constructor; [ | done].
    destruct (ai_fresh _ _ Hi). lia.
Qed.

Lemma app_hist_inv ops x L :
  app_inv x.1 L → Forall (λ t, t < length L)%nat x.2 → tables_allocated ops →
  app_inv (fold_left app_do ops x).1 (L ++ loads ops) ∧ Forall (λ t, t < length (L ++ loads ops))%nat (fold_left app_do ops x).2.
Proof.
  revert x L. induction ops as [ | o ops IH]; intros x L Hi Hf Ho; [unfold loads; cbn; by rewrite app_nil_r |].
  apply Forall_cons in Ho as [Ho1 Ho2]. destruct (app_do_inv x o L Hi Hf ltac:(by constructor)) as [H1 H2].
  destruct (IH _ _ H1 H2 Ho2) as [H3 H4]. rewrite <- !app_assoc in H3, H4.
  assert (E : loads [o] ++ loads ops = loads (o :: ops)) by (unfold loads; by rewrite <- omap_app).
  rewrite E in H3, H4. done.
Qed.

(** What a handler reads through a table it loaded. *)
Lemma table_sites_spec a L t :
  app_inv a L → (t < length L)%nat →
  table_sites a t = if decide (length L <= t + 2)%nat then cf_vhosts <$> L !! t else None.
Proof.
  intros Hi Ht. unfold table_sites. rewrite (ai_tables _ _ Hi). case_decide as H1; case_decide as H2; try lia; [ | done].
  cbn. rewrite (ai_configs _ _ Hi). by rewrite decide_True by lia.
Qed.
End Standalone.

(** C18. Reloading is transactional and safe for running handlers: over any history of
    reloads, of documents that load and of ones that do not, with handlers starting at any
    time, and with the tables allocated, a new request is routed by the sites of the last
    document that loaded; a handler that keeps the table it started with reads the sites of
    the document current at its start for as long as at most one other document was loaded
    since, and freed memory afterwards; at most two tables and three configurations are
    allocated; and the end of the program frees them all. *)
Theorem reload_lifetime {C} cf (tls : option (tls_server C)) ops :
  tables_allocated ops →
  let L := cf :: loads ops in
  let '(a, held) := fold_left app_do ops (main_start true cf tls, []) in
  (∃ t, rt_current a = Some t ∧ table_sites a t = cf_vhosts <$> last L) ∧
  Forall (λ t, table_sites a t = if decide (length L <= t + 2)%nat then cf_vhosts <$> L !! t else None) held ∧
  (∀ t, is_Some (rt_tables a !! t) → (length L <= t + 2 ∧ t < length L)%nat) ∧
  (∀ c, is_Some (ap_configs a !! c) → (c = 0 ∨ length L <= c + 2)%nat) ∧
  rt_tables (main_end a) = ∅ ∧ ap_configs (main_end a) = ∅.
Proof.
  intros Ho L. destruct (app_hist_inv ops (main_start true cf tls, []) [cf] (start_inv cf tls) ltac:(constructor) Ho) as [Hi Hf].
  change ([cf] ++ loads ops) with L in Hi, Hf. destruct (fold_left app_do ops _) as [a held]. cbn [fst snd] in Hi, Hf.
  assert (HL : (0 < length L)%nat) by (subst L; cbn; lia). clearbody L. split_and!.
  - exists (length L - 1)%nat. split; [by apply ai_current |]. rewrite (table_sites_spec a L) by (done || lia).
    rewrite decide_True by lia. rewrite last_lookup. by replace (pred (length L)) with (length L - 1)%nat by lia.
  - eapply Forall_impl; [exact Hf |]. intros t Ht. by apply table_sites_spec.
  - intros t [x Hx]. rewrite (ai_tables _ _ Hi) in Hx. by case_decide.
  - intros c [x Hx]. rewrite (ai_configs _ _ Hi) in Hx. by case_decide.
  - apply map_empty. intros t. unfold main_end, portico_router_destroy. cbn -[free_opt].
    rewrite (ai_retired _ _ Hi), free_two, (ai_current _ _ Hi). cbn. case_decide as H1; [done |].
    destruct (decide (t = length L - 1)%nat) as [-> | Ht]; [by rewrite lookup_delete_eq |].
    rewrite lookup_delete_ne, (ai_tables _ _ Hi) by done. case_decide; [lia | done].
  - apply map_empty. intros c. unfold main_end, portico_router_destroy. cbn -[free_opt].
    rewrite (ai_initial _ _ Hi), (ai_cur _ _ Hi), (ai_prev _ _ Hi).
    destruct (decide (c = 0)%nat) as [-> | Hc]; [by rewrite lookup_delete_eq |]. rewrite lookup_delete_ne by done.
    assert (E : ap_configs a !! c = None ∨ (c = length L - 1 ∧ 1 < length L)%nat ∨ (c = length L - 2 ∧ 2 < length L)%nat).
    { destruct (decide (length L <= c + 2 ∧ c < length L)%nat) as [Hc2 | Hc2].
      - destruct (decide (c = length L - 1)%nat); [right; left; lia | right; right; lia].
      - left. rewrite (ai_configs _ _ Hi). case_decide; [ | done]. apply lookup_ge_None_2. lia. }
    destruct (decide (1 < length L)%nat) as [H1 | H1], (decide (2 < length L)%nat) as [H2 | H2]; cbn;
      repeat (rewrite lookup_delete; case_decide; [done |]); destruct E as [? | [[? ?] | [? ?]]]; first [done | lia].
Qed.

(** ** A reload that works and ones that do not *)

Definition demo_config (root : list Z) : json :=
  JObj [(bs "sites", JArr [JObj [(bs "docroot", JStr root)]])].
Definition demo_reload (table : bool) (root : list Z) : reload_env (C := ()) :=
  mk_renv demo_env (Some (Some (demo_config root))) table (λ _ _, None) (λ _, true) (mk_add_mem true true true).
Definition demo_broken : reload_env (C := ()) :=
  mk_renv demo_env (Some None) true (λ _ _, None) (λ _, true) (mk_add_mem true true true).

(** The configuration the program starts with. *)
Definition demo_first : portico_config :=
  match portico_config_load demo_env (Some (Some (demo_config (bs "/srv/a")))) with
  | inr c => c
  | inl _ => mk_config 0 0 None false None None PORTICO_TLS_OFF acme_zero [] [] []
  end.
Definition demo_history : list (app_op (C := ())) :=
  [AStart; AReload (demo_reload true (bs "/srv/b")); AReload demo_broken; AStart; AReload (demo_reload true (bs "/srv/c"))].

(** The handler started with [/srv/a] has lost its table, the one started with [/srv/b]
    still has it, a new one gets [/srv/c]. *)
Lemma reload_lifetime_witness :
  let '(a, held) := fold_left app_do demo_history (main_start true demo_first None, []) in
  Forall (λ t, table_sites a t = if decide (3 <= t + 2)%nat then cf_vhosts <$> (demo_first :: loads demo_history) !! t else None) held ∧
  held = [1; 0]%nat.
Proof.
  assert (Ho : tables_allocated demo_history) by (repeat constructor).
  pose proof (reload_lifetime demo_first None demo_history Ho) as H.
  assert (EL : length (demo_first :: loads demo_history) = 3%nat) by (vm_compute; reflexivity).
  assert (EH : snd (fold_left app_do demo_history (main_start true demo_first None, [])) = [1; 0]%nat) by (vm_compute; reflexivity).
  destruct (fold_left app_do demo_history _) as [a held]. destruct H as (_ & H & _). rewrite EL in H. by split.
Defined.

(** Two reloads whose table cannot be allocated: the second one frees the configuration
    that the table still points to, and the next request reads freed memory. *)
Example oom_reload_dangles :
  let a := fst (fold_left app_do
    [AReload (demo_reload true (bs "/srv/b")); AReload (demo_reload false (bs "/srv/c")); AReload (demo_reload false (bs "/srv/d"))]
    (main_start true demo_first None, [])) in
  match rt_current a with Some t => table_sites a t | None => Some [] end = None.
Proof. vm_compute. reflexivity. Qed.

(** One is enough to break the grace of a running handler: the table's configuration is
    freed by the reload that replaces it. *)
Example oom_reload_breaks_grace :
  let '(a, held) := fold_left app_do
    [AReload (demo_reload true (bs "/srv/b")); AReload (demo_reload false (bs "/srv/c")); AStart; AReload (demo_reload true (bs "/srv/d"))]
    (main_start true demo_first None, []) in
  (λ t, bool_decide (table_sites a t = None)) <$> held = [true].
Proof. vm_compute. reflexivity. Qed.

(** ** Signals *)

(** Where the loop of [main] is: before the test of [g_stop], before the test of
    [g_reload], before [g_reload] is cleared, in [do_reload], before [pause], in it, or
    past the loop. *)
Inductive main_pc := MStop | MReload | MClear | MDoReload | MBeforePause | MPaused | MDone.

(** The flags with the loop; [m_reloads] counts the calls of [do_reload]. *)
Record main_loop := mk_main { g_stop : bool; g_reload : bool; m_pc : main_pc; m_reloads : nat }.

(** The next step of the loop; in [pause] it waits. *)
Definition loop_step (m : main_loop) : option main_loop :=
  let at_ p := Some (mk_main (g_stop m) (g_reload m) p (m_reloads m)) in
  match m_pc m with
  | MStop => at_ (if g_stop m then MDone else MReload)
  | MReload => at_ (if g_reload m then MClear else MBeforePause)
  | MClear => Some (mk_main (g_stop m) false MDoReload (m_reloads m))
  | MDoReload => Some (mk_main (g_stop m) (g_reload m) MBeforePause (S (m_reloads m)))
  | MBeforePause => at_ MPaused
  | MPaused | MDone => None
  end.

(** [on_hup] and [on_term]: a signal sets its flag and ends [pause] if the loop is in it. *)
Definition signal (term : bool) (m : main_loop) : main_loop :=
  mk_main (g_stop m || term) (g_reload m || negb term)
    (match m_pc m with MPaused => MStop | p => p end) (m_reloads m).

Inductive lstep (m : main_loop) : main_loop → Prop :=
| ls_loop m' : loop_step m = Some m' → lstep m m'
| ls_signal term : lstep m (signal term m).

Definition main_loop_start : main_loop := mk_main false false MStop 0.

Fixpoint loop_run (n : nat) (m : main_loop) : main_loop :=
  match n with O => m | S k => match loop_step m with Some m' => loop_run k m' | None => m end end.

(** A signal that arrives while the loop waits is acted on: the loop ends, or reloads. *)
Theorem signal_in_pause m :
  m_pc m = MPaused →
  m_pc (loop_run 1 (signal true m)) = MDone ∧
  (g_stop m = false → m_reloads (loop_run 4 (signal false m)) = S (m_reloads m) ∧ g_reload (loop_run 4 (signal false m)) = false).
Proof. destruct m as [st re pc n]. cbn. intros ->. destruct st, re; cbn; by split. Qed.

(** A signal that arrives between the test of its flag and [pause] is not: the loop waits
    with the flag set, here for ever after SIGTERM. *)
Theorem signal_before_pause_lost : ∃ m, reach lstep main_loop_start m ∧ m_pc m = MPaused ∧ g_stop m = true ∧ loop_step m = None.
Proof.
  exists (mk_main true false MPaused 0). split_and!; try done.
  apply (reach_step lstep _ (mk_main true false MBeforePause 0)); [ | by apply ls_loop].
  apply (reach_step lstep _ (mk_main false false MBeforePause 0)); [ | apply (ls_signal (mk_main false false MBeforePause 0) true)].
  apply (reach_step lstep _ (mk_main false false MReload 0)); [ | by apply ls_loop].
  apply (reach_step lstep _ main_loop_start); [apply reach_refl | by apply ls_loop].
Qed.
